(* ===== verification/_CoqProject ===== *)
-Q . S2P
Prelude.v
Arith.v
Enum.v
Utils.v
StoreFile.v
StoreAlloc.v
StoreAllocFile.v
StoreAllocInv.v
StoreAllocThm.v
StoreVector.v
StoreIdxed.v
PrefixItem.v
PrefixGraph.v
PrefixFile.v
PrefixInv.v
PrefixLayout.v
PrefixSearch.v
PrefixRun.v
PrefixTree.v
PrefixUpd.v
PrefixGrow.v
PrefixCut.v
PrefixInsert.v
PrefixPop.v
PrefixAlloc.v
PrefixThm.v
Crc.v
CacheMatch.v
CacheLru.v
CacheEngine.v
CacheStore.v
CacheEngineInv.v
CacheEngineOps.v
CacheEngineThm.v
CacheServer.v
CacheServerThm.v
BackendRsrc.v
Backend.v
BackendInv.v
BackendOps.v
BackendLaunch.v
BackendThm.v
Workload.v
Path.v
RealPath.v
RealPathThm.v
Serdes.v
Msg.v
Text.v
Codec.v
Env.v
CodecLock.v
Gather.v
