(* ===== verification/Prelude.v ===== *)
(** * open-lmake verification library

    open-lmake is a build system: a server analyses which jobs must run, hands them to backends (local machine, slurm, SGE), jobs
    report the files they access, and results are shared through a cache. Names of source files below are relative
    to the root of the repository.

    ** The program and its parts

    - The store (src/store) keeps the state of the server and of the cache in memory mapped files: growable mappings, arrays
      of cells with a header, an allocator of blocks, vectors, packed indices, and prefix trees of names. Each layer
      is built on the previous ones.
    - The cache (src/cache) is a daemon that keeps runs of jobs, with their dependencies and checksums (src/hash.hh), under
      a bound on their total size. Its names, runs and jobs live in the store.
    - The backends (src/lmake_server/backends and backend.cc) queue jobs by resources and pressure, launch them in a thread
      of their own and account for the workload of requests.
    - Jobs run in an environment that the server passes as a text (src/autodep/env.cc). They resolve the names they access
      (src/real_path.cc, over the path library of src/disk.cc), report their accesses (src/autodep/gather.cc), encode values through codec tables
      (src/rpc_job_exec.cc) and talk to the server with messages (src/msg.hh) made of serialised values
      (src/serialize.hh).

    ** Conventions

    Functions of the source are functions on explicit state. They return an [outcome] (this file): [Ret], [Throw] for an
    exception of type [::string], [Crash] for a failed [SWEAR], an [exit] or a [FAIL]. Machine integers are [Z]
    with their wrap-around written out ([u8], [u16], [u32], [u64], [uwrap]). Maps are [gmap], sets [gset]; strings are
    lists of characters or of codes. Names of definitions are those of the source where the language allows it. What
    the source takes from elsewhere is a parameter of a section or of a class, with what is relied on as a law:
    the order of iteration of a hash table ([walk] in Backend), the conversion of decimal numbers with a unit
    ([from_string_rsrc] in BackendRsrc), the rate of a run and the configuration ([Config] in CacheEngine), the
    content of the file system ([read_lnk], [read_hdr] in RealPath), the socket ([read] in Msg).

    ** Files

    Foundations
    - Prelude (this file): outcomes, machine integers, tactics and generic lemmas.
    - Arith, Enum, Utils: integer helpers, [BitMap], [Bool3], [FileTag], [Access] and [SmallIds] of src/basic_utils.hh,
      src/enum.hh, src/utils.hh, src/time.hh and src/disk.hh.

    The store
    - StoreFile: [RawFile] and [StructFile] (raw_file.hh, struct.hh).
    - StoreAlloc: size classes [bucket] and [sz] of alloc.hh. StoreAllocFile: [AllocFile] ([_emplace], [_pop],
      [_shorten], [chk], [lst]). StoreAllocInv and StoreAllocThm: blocks tile the file; the file implements a
      heap of blocks that never overlap, and [chk] accepts all reachable files.
    - StoreVector, StoreIdxed: [VectorFile] (vector.hh), [Idxed], [Idxed2] and [CrunchBase] (idxed.hh) as stores of
      independent lists, with the checks that the constructors of indices make. A crunched vector stops the server
      on the first index that its type refuses, which the file itself would still accept.
    - PrefixItem, PrefixFile: [Item] and [MultiPrefixFile] of prefix.hh, with backups and recovery. PrefixGraph,
      PrefixInv, PrefixLayout, PrefixSearch, PrefixRun, PrefixTree, PrefixUpd, PrefixGrow, PrefixCut, PrefixInsert,
      PrefixPop: the tree as a graph, the invariant and one step of the updates after the other. PrefixAlloc: the
      allocator provides the blocks that the tree asks for (class [Blocks]). PrefixThm: the file implements a map
      from names to items; any sequence of insertions and removals runs to completion and [search],
      [longest] and [key] agree with the map.

    The cache
    - Crc: checksums, their text and what accesses can tell apart (hash.hh, hash.cc).
    - CacheMatch: [dep_crc], [crc_ok] (cache_utils.cc) and [CrunData::match] (engine.cc) against a specification; the
      files that are misjudged ([misjudged]) and the requests on which an assertion fails ([clash]) are characterised.
    - CacheLru: families of lists threaded through the runs, over shared links. CacheEngine: runs, jobs, rates, [insert], [match], [mk_room] and [chk] of
      engine.cc, over any allocator of runs (class [Allocator]); CacheStore shows that [AllocFile] is one.
      CacheEngineInv, CacheEngineOps, CacheEngineThm: the invariant and what each operation guarantees: what becomes of
      each run on an insertion ([fate]), how a hit moves in the lists ([to_front]), and the two reasons for which an
      insertion may stop the server ([stuck], [doubled]).
    - CacheServer, CacheServerThm: requests of lcache_server.cc; no sequence of admissible requests stops the server, lets the
      cache exceed its size or leaks an entry.

    The backends
    - BackendRsrc: resources, with an interface ([RsrcOps], [RsrcLaws]) and its two implementations (local.cc, and slurm.cc
      and sge.cc). Backend: [GenericBackend] of generic.hh with its launch thread as a state machine whose steps
      interleave with the handlers. BackendInv, BackendOps, BackendLaunch, BackendThm: safety under the protocol of
      the callers ([enabled]), two races excepted ([races]), the life cycle of jobs, completeness and order of
      launches, termination of the thread, release of the handlers that wait for it while they hold the mutex
      ([launcher_step_held]), and the bound on the resources in use.
    - Workload: [Backend::Workload] of backend.x.hh and backend.cc; its counters are exact against a ledger of what is queued
      for each request and job. [cost] is computed with exact numbers instead of doubles.

    Jobs
    - Path: canonical, relative and absolute names of disk.cc. RealPath, RealPathThm: resolution of links, against a reference
      lookup on components ([lookup_name]).
    - Serdes, Msg: serialisation and message buffers; round trips over streams read in pieces, and junk. Floats, sets and
      unordered containers are not among the types of Serdes. Messages are not empty and are sent by a complete
      write, as the theorem says.
    - Text: printable forms, shell words and Python strings of utils.hh and utils.cc. Codec: lines, names and remote sides of
      codec tables. Env: services (fd.cc) and [AutodepEnv]. All are round trips.
    - CodecLock: the locks on codec tables as a transition system on the accesses to the file system of any number of
      processes; exclusion, and the race that breaks it.
    - Gather: [AccessInfo], [new_access] and [_reorder] of autodep/gather.hh and gather.cc. The order of reports does not
      matter, and dismissing the directories that are walked through loses no dependency, links that hide one
      another excepted ([hidden]).

    ** Bounds and fuel

    Loops that are not structural take fuel, and running out of it is [Crash], so that theorems that rule [Crash] out show
    that the fuel is enough. The fuel is a bound on the iterations that the state gives: the number of items of a
    prefix file ([fuel_of]), of cells of an allocated file, of runs in the lists of the cache, of jobs that wait for
    a launch, of jobs with a planned end, of directories above a name ([walk_fuel] in Gather: more changes nothing), the length of a text to parse, the bytes and retries that a socket still
    has. [bucket] is proved for the mantissas from 1 to 8 and sizes up to 2^63. Prefix trees are proved for the
    layout of the name files (PrefixLayout), with room for the items an update needs as a hypothesis; message
    buffers for streams that fit in their 32-bit indices.

    ** Not modelled

    - The analysis of nodes, jobs and requests by the server (src/lmake_server: node, job_data, req, rule, config,
      makefiles): it works on objects that the Python interpreter builds from the user's description of rules, and
      on regular expressions of pcre.
    - Interception of system calls (src/autodep: ptrace, preloaded libraries), the loop of gather.cc on the processes of the job
      and the digest it makes of the disk ([analyze]), flags given by patterns of pcre ([_update_flags]), sandboxes and processes (job_exec.cc,
      process.cc, rpc_job.cc): their behaviour is that of the kernel.
    - Hashing of contents (xxhash), floating point (rates of runs, coarse delays, serialised floats), clocks and sockets.
    - Command line tools, dumps, repair tools, traces, Python bindings and display of reports: no state of their own.
    - The erasure of prefixes by [erase] in prefix.hh, which no instance compiles. The saved items and the commits of prefix
      trees are modelled; what is left by a crash between two writes of a store file is not.
    - [CodecFile::chk], the compatibility of file formats between versions, and the content of most error messages.
*)
From stdpp Require Export base gmap strings numbers list pretty.

Declare Scope lmake_scope.
Delimit Scope lmake_scope with lmake.

(** ** Outcomes

    A function of the source either returns, throws a string that a caller may
    catch, or stops the server on a failed [SWEAR], [swear] or [exit]. *)

Inductive outcome (A : Type) : Type :=
| Ret (a : A)
| Throw (msg : string)
| Crash.
Arguments Ret {A} a.
Arguments Throw {A} msg.
Arguments Crash {A}.

#[export] Instance outcome_mret : MRet outcome := @Ret.
#[export] Instance outcome_mbind : MBind outcome := fun A B f m =>
  match m with Ret a => f a | Throw e => Throw e | Crash => Crash end.

(** [SWEAR(cond)]: the server stops when [cond] is false. *)
Definition swear (c : bool) : outcome unit := if c then Ret tt else Crash.

(** [throw_unless(cond,msg)] *)
Definition throw_unless (c : bool) (msg : string) : outcome unit := if c then Ret tt else Throw msg.

Lemma bind_ret {A B} (m : outcome A) (f : A -> outcome B) (b : B) :
  (m ≫= f) = Ret b <-> exists a, m = Ret a /\ f a = Ret b.
Proof. destruct m; simpl; naive_solver. Qed.

Lemma swear_bind {B} (c : bool) (k : unit -> outcome B) :
  c = true -> (swear c ≫= k) = k tt.
Proof. by intros ->. Qed.

Lemma swear_ret (c : bool) (u : unit) : swear c = Ret u -> c = true.
Proof. by destruct c. Qed.

Lemma throw_unless_bind {B} (c : bool) msg (k : unit -> outcome B) :
  c = true -> (throw_unless c msg ≫= k) = k tt.
Proof. by intros ->. Qed.

Create HintDb lmake.
#[export] Hint Resolve swear_ret : lmake.

(** Splits the successful run of a monadic computation into its steps. *)
Ltac inv_ret :=
  repeat match goal with
  | H : (_ ≫= _) = Ret _ |- _ => apply bind_ret in H as (? & ? & H)
  | H : swear _ = Ret _ |- _ => apply swear_ret in H
  | H : Ret _ = Ret _ |- _ => injection H as H
  | H : mret _ = Ret _ |- _ => injection H as H
  end.

(** Turns boolean tests into propositions, in the whole context. *)
Ltac b2p :=
  repeat match goal with
  | H : (_ && _)%bool = true |- _ => apply andb_true_iff in H as [? H]
  | H : (_ <? _)%Z = true |- _ => apply Z.ltb_lt in H
  | H : (_ <? _)%Z = false |- _ => apply Z.ltb_ge in H
  | H : (_ <=? _)%Z = true |- _ => apply Z.leb_le in H
  | H : (_ <=? _)%Z = false |- _ => apply Z.leb_gt in H
  | H : (_ =? _)%Z = true |- _ => apply Z.eqb_eq in H
  | H : (_ =? _)%Z = false |- _ => apply Z.eqb_neq in H
  | H : negb _ = true |- _ => apply negb_true_iff in H
  | H : negb _ = false |- _ => apply negb_false_iff in H
  end.

(** Discharges the leading arithmetic premises of a hypothesis. *)
Ltac feed_lia H :=
  repeat match type of H with
  | ?A -> _ => match type of A with Prop => specialize (H ltac:(first [lia | done])) end
  end.
Tactic Notation "have" constr(lem) "as" simple_intropattern(pat) :=
  let H := fresh in pose proof lem as H; feed_lia H; revert H; intros pat.
Tactic Notation "have" constr(lem) := let H := fresh in pose proof lem as H; feed_lia H.

(** ** Lists *)

Lemma filter_ext_in {A} (P Q : A -> Prop) `{!forall x, Decision (P x), !forall x, Decision (Q x)} (l : list A) :
  (forall x, x ∈ l -> P x <-> Q x) -> filter P l = filter Q l.
Proof.
  induction l as [|x l IH]; intros Hl; [done|]. rewrite !filter_cons.
  rewrite IH by (intros y Hy; apply Hl; by right).
  pose proof (Hl x ltac:(left)). by repeat case_decide; tauto.
Qed.

Lemma filter_id {A} (P : A -> Prop) `{!forall x, Decision (P x)} (l : list A) :
  (forall x, x ∈ l -> P x) -> filter P l = l.
Proof.
  induction l as [|x l IH]; intros Hl; [done|]. rewrite filter_cons, decide_True by (apply Hl; left).
  f_equal. apply IH. intros y Hy. apply Hl. by right.
Qed.

(** ** Ordered sets

    [begin()] of a [::set] whose order is [le] *)
Section set_begin.
Context {A : Type} `{Countable A} (le : A -> A -> bool).

Definition set_begin (X : gset A) : option A :=
  foldr (fun x o => Some (match o with Some y => if le x y then x else y | None => x end)) None (elements X).

Lemma set_begin_spec (X : gset A) :
  (forall a b, le a b = true \/ le b a = true) -> (forall a b c, le a b = true -> le b c = true -> le a c = true) ->
  match set_begin X with
  | None => X = ∅
  | Some x => x ∈ X /\ forall y, y ∈ X -> le x y = true
  end.
Proof.
  intros Htot Htr. assert (forall a, le a a = true) as Hrefl by (intros a; by destruct (Htot a a)).
  unfold set_begin. assert (forall l : list A,
    match foldr (fun x o => Some (match o with Some y => if le x y then x else y | None => x end)) None l with
    | None => l = [] | Some x => x ∈ l /\ forall y, y ∈ l -> le x y = true end) as Hl.
  { induction l as [|a l IH]; [done|]. simpl. destruct (foldr _ None l) as [x|].
    - destruct IH as [Hx Hl]. destruct (le a x) eqn:E.
      + split; [by left|]. intros y [->|Hy]%elem_of_cons; [apply Hrefl|]. by eapply Htr, Hl.
      + split; [by right|]. intros y [->|Hy]%elem_of_cons; [|by apply Hl].
        destruct (Htot a x) as [|]; [congruence|done].
    - subst l. split; [by left|]. intros y Hy. apply list_elem_of_singleton in Hy as ->. apply Hrefl. }
  specialize (Hl (elements X)). destruct (foldr _ None (elements X)) as [x|].
  - destruct Hl as [Hx Hy]. split; [by apply elem_of_elements|]. intros y ?. apply Hy. by apply elem_of_elements.
  - by apply leibniz_equiv, elements_empty_inv.
Qed.
End set_begin.

(** ** Machine integers *)

Definition uwrap (w : Z) (z : Z) : Z := (z mod 2 ^ w)%Z.

(** [uint8_t(z)], [uint32_t(z)], [size_t(z)] *)
Definition u8 : Z -> Z := uwrap 8.
Definition u16 : Z -> Z := uwrap 16.
Definition u32 : Z -> Z := uwrap 32.
Definition u64 : Z -> Z := uwrap 64.
Arguments uwrap : simpl never.
Arguments u8 : simpl never.
Arguments u16 : simpl never.
Arguments u32 : simpl never.
Arguments u64 : simpl never.

Section uwrap.
Local Open Scope Z_scope.
Lemma uwrap_small w z : 0 <= z < 2 ^ w -> uwrap w z = z.
Proof. apply Z.mod_small. Qed.

Lemma uwrap_range w z : 0 <= w -> 0 <= uwrap w z < 2 ^ w.
Proof. intros. apply Z.mod_pos_bound. lia. Qed.

Lemma u8_small z : 0 <= z < 256 -> u8 z = z.
Proof. apply (uwrap_small 8). Qed.

Lemma u32_small z : 0 <= z < 2 ^ 32 -> u32 z = z.
Proof. apply (uwrap_small 32). Qed.

Lemma u64_small z : 0 <= z < 2 ^ 64 -> u64 z = z.
Proof. apply (uwrap_small 64). Qed.
End uwrap.
