(* ===== verification/Arith.v ===== *)
(** * Integer helpers of the source: src/basic_utils.hh and src/utils.hh, sections "math". *)
From S2P Require Import Prelude.
Local Open Scope Z_scope.

(** [::countl_zero] of a [size_t] *)
Definition countl_zero (w x : Z) : Z := if x =? 0 then w else w - 1 - Z.log2 x.

(** [n_bits(n)]: number of bits needed to store [n] states *)
Definition n_bits (n : Z) : Z := u8 (64 - countl_zero 64 (u64 (n - 1))).

(** [lsb_msk<T>(b)] for a [w]-bit [T] *)
Definition lsb_msk (w b : Z) : Z := uwrap w (uwrap w (Z.shiftl 1 b) - 1).

(** [round_down], [round_up], [div_up] on a [w]-bit unsigned type *)
Definition round_down (n d : Z) : Z := n - n mod d.
Definition round_up (w n d : Z) : Z :=
  if n =? 0 then 0 else uwrap w (n - 1 - (n - 1) mod d + d).
Definition div_up (n d : Z) : Z :=
  if n =? 0 then 0 else (n - 1) / d + 1.

Lemma n_bits_log2 n : 1 < n < 2 ^ 64 -> n_bits n = Z.log2 (n - 1) + 1.
Proof.
  intros Hn. unfold n_bits, countl_zero.
  rewrite u64_small by lia.
  destruct (Z.eqb_spec (n - 1) 0); [lia|].
  assert (0 <= Z.log2 (n - 1) < 64) by (split; [apply Z.log2_nonneg | apply Z.log2_lt_pow2; lia]).
  rewrite u8_small; lia.
Qed.

Lemma div_up_spec n d : 0 <= n -> 0 < d -> d * (div_up n d - 1) < n \/ n = 0.
Proof.
  intros. unfold div_up. destruct (Z.eqb_spec n 0); [by right|left].
  pose proof (Z.div_mod (n - 1) d ltac:(lia)). pose proof (Z.mod_pos_bound (n - 1) d). lia.
Qed.

Lemma div_up_ge n d : 0 <= n -> 0 < d -> n <= d * div_up n d.
Proof.
  intros. unfold div_up. destruct (Z.eqb_spec n 0); [lia|].
  pose proof (Z.div_mod (n - 1) d ltac:(lia)). pose proof (Z.mod_pos_bound (n - 1) d). lia.
Qed.

Lemma div_up_mono n m d : 0 <= n <= m -> 0 < d -> div_up n d <= div_up m d.
Proof.
  intros. unfold div_up. destruct (Z.eqb_spec n 0), (Z.eqb_spec m 0); try lia.
  - pose proof (Z.div_pos (m - 1) d). lia.
  - pose proof (Z.div_le_mono (n - 1) (m - 1) d). lia.
Qed.

(** ** Reassembling an integer from its digits of [w] bits *)

Lemma shiftr_pos v k : 0 <= v -> 0 <= Z.shiftr v k.
Proof. intros. by apply Z.shiftr_nonneg. Qed.

Lemma digit_step W w v m : 0 < w -> 0 <= m -> 0 <= v < 2 ^ W -> 0 <= W ->
  Z.lor (uwrap W (Z.shiftl (Z.shiftr v (w * (m + 1))) w)) (Z.land (Z.shiftr v (w * m)) (Z.ones w)) = Z.shiftr v (w * m).
Proof.
  intros Hw Hm Hv HW. assert (0 <= w * m) by nia. rewrite uwrap_small.
  - apply Z.bits_inj'. intros i Hi. rewrite Z.lor_spec, Z.land_spec, Z.shiftl_spec by lia.
    rewrite (Z.shiftr_spec v (w * m)), Z.testbit_ones_nonneg by lia. destruct (Z.ltb_spec i w).
    + rewrite (Z.testbit_neg_r _ (i - w)) by lia. by rewrite andb_true_r.
    + rewrite Z.shiftr_spec, andb_false_r, orb_false_r by lia. f_equal. lia.
  - replace (w * (m + 1)) with (w * m + w) by lia. rewrite <- Z.shiftr_shiftr by lia.
    set (x := Z.shiftr v (w * m)). assert (0 <= x <= v) as Hx.
    { unfold x. rewrite Z.shiftr_div_pow2 by lia. assert (0 < 2 ^ (w * m)) by lia. split; [apply Z.div_pos; lia|].
      apply Z.div_le_upper_bound; nia. }
    rewrite Z.shiftl_mul_pow2, Z.shiftr_div_pow2 by lia. pose proof (Z.mul_div_le x (2 ^ w)).
    assert (0 <= x / 2 ^ w) by (apply Z.div_pos; lia). nia.
Qed.

Lemma digit_range v k w : 0 <= w -> 0 <= Z.land (Z.shiftr v k) (Z.ones w) < 2 ^ w.
Proof. intros. rewrite Z.land_ones by lia. apply Z.mod_pos_bound. lia. Qed.
