(* ===== verification/Enum.v ===== *)
(** * Enumerations: [BitMap] of src/enum.hh, [Bool3] of src/utils.hh, and the enumerations several
    components share ([FileTag] of src/time.hh, [Access] of src/disk.hh). *)
From S2P Require Import Prelude.
From S2P Require Import Arith.
Local Open Scope Z_scope.

Module BitMap.
Section ops.
(** Number of enumerators [N<E>]; an enumerator is its value *)
Context (N : Z).

Definition singleton (e : Z) : Z := Z.shiftl 1 e.
Definition of_list (es : list Z) : Z := foldr (fun e m => Z.lor (singleton e) m) 0 es.
Definition is_empty (m : Z) : bool := m =? 0.
(** [operator[]] *)
Definition mem (e m : Z) : bool := negb (Z.land (Z.shiftr m e) 1 =? 0).
Definition le (a b : Z) : bool := Z.land a (Z.lnot b) =? 0.
Definition compl (m : Z) : Z := Z.land (lsb_msk 64 N) (Z.lnot m).
Definition inter (a b : Z) : Z := Z.land a b.
Definition union (a b : Z) : Z := Z.lor a b.
Definition set (flag : Z) (val : bool) (m : Z) : Z :=
  if val then union m (singleton flag) else inter m (compl (singleton flag)).

(** Bit maps over [N] enumerators *)
Definition wf (m : Z) : Prop := 0 <= m < 2 ^ N.

Context (HN : 0 < N <= 63).

Lemma mem_testbit e m : 0 <= e -> mem e m = Z.testbit m e.
Proof.
  intros He. unfold mem. replace (Z.land (Z.shiftr m e) 1) with (Z.b2z (Z.testbit m e)).
  - by destruct (Z.testbit m e).
  - rewrite Z.testbit_spec' by done. rewrite Z.shiftr_div_pow2 by done. change 1 with (Z.ones 1).
    rewrite Z.land_ones by lia. done.
Qed.

Lemma wf_high m e : wf m -> N <= e -> Z.testbit m e = false.
Proof.
  intros Hm He. rewrite <- (Z.mod_small m (2 ^ N)) by apply Hm. apply Z.mod_pow2_bits_high. lia.
Qed.

Lemma wf_ext a b : wf a -> wf b -> (forall e, 0 <= e < N -> mem e a = mem e b) -> a = b.
Proof.
  intros Ha Hb H. apply Z.bits_inj'. intros e He.
  destruct (Z.lt_ge_cases e N); [rewrite <- !mem_testbit by lia; auto|by rewrite !wf_high].
Qed.

Lemma wf_compl m : wf (compl m).
Proof.
  unfold wf, compl, lsb_msk. rewrite Z.shiftl_1_l.
  assert (2 ^ N < 2 ^ 64) by (apply Z.pow_lt_mono_r; lia). assert (1 <= 2 ^ N) by lia.
  rewrite (uwrap_small 64 (2 ^ N)) by lia. rewrite uwrap_small by lia.
  replace (2 ^ N - 1) with (Z.ones N) by (rewrite Z.ones_equiv; lia).
  rewrite Z.land_comm, Z.land_ones by lia. apply Z.mod_pos_bound. lia.
Qed.

Lemma mem_compl e m : 0 <= e < N -> mem e (compl m) = negb (mem e m).
Proof.
  intros He. rewrite !mem_testbit by lia. unfold compl, lsb_msk. rewrite Z.shiftl_1_l.
  assert (2 ^ N < 2 ^ 64) by (apply Z.pow_lt_mono_r; lia). assert (1 <= 2 ^ N) by lia.
  rewrite (uwrap_small 64 (2 ^ N)) by lia. rewrite uwrap_small by lia.
  replace (2 ^ N - 1) with (Z.ones N) by (rewrite Z.ones_equiv; lia).
  rewrite Z.land_spec, Z.lnot_spec, Z.testbit_ones_nonneg by lia. by rewrite (proj2 (Z.ltb_lt _ _)) by lia.
Qed.

Lemma mem_inter e a b : 0 <= e -> mem e (inter a b) = mem e a && mem e b.
Proof. intros. rewrite !mem_testbit by done. apply Z.land_spec. Qed.

Lemma mem_union e a b : 0 <= e -> mem e (union a b) = mem e a || mem e b.
Proof. intros. rewrite !mem_testbit by done. apply Z.lor_spec. Qed.

Lemma mem_singleton e f : 0 <= e -> 0 <= f -> mem e (singleton f) = (e =? f).
Proof.
  intros. rewrite mem_testbit by done. unfold singleton. rewrite Z.shiftl_1_l, Z.pow2_bits_eqb by done.
  apply Z.eqb_sym.
Qed.
End ops.
End BitMap.

(** [Bool3] and its operators *)
Inductive Bool3 : Type := No | Maybe | Yes.

Module Bool3Ops.
Definition val (b : Bool3) : Z := match b with No => 0 | Maybe => 1 | Yes => 2 end.
Definition of_bool (b : bool) : Bool3 := if b then Yes else No.
Definition compl (b : Bool3) : Bool3 := match b with No => Yes | Maybe => Maybe | Yes => No end.
Definition or3 (a b : Bool3) : Bool3 := if val a <=? val b then b else a.
Definition and3 (a b : Bool3) : Bool3 := if val a <=? val b then a else b.
Definition or_bool (a : Bool3) (b : bool) : Bool3 := if b then Yes else a.
Definition and_bool (a : Bool3) (b : bool) : Bool3 := if b then a else No.
Definition common (a b : Bool3) : Bool3 :=
  match a with
  | Yes => match b with Yes => Yes | _ => Maybe end
  | No => match b with No => No | _ => Maybe end
  | Maybe => Maybe
  end.
End Bool3Ops.

(** [FileTag] *)
Inductive FileTag : Type := TNone | TDir | TLnk | TReg | TEmpty | TExe.

#[export] Instance FileTag_eq_dec : EqDecision FileTag.
Proof. solve_decision. Defined.

(** [Access] as bit numbers, and the sets of accesses the source names *)
Module Access.
Definition Lnk : Z := 0.
Definition Reg : Z := 1.
Definition Stat : Z := 2.
Definition Err : Z := 3.
Definition N : Z := 4.
Definition DataAccesses : Z := BitMap.of_list [Lnk; Reg].
Definition FullAccesses : Z := BitMap.of_list [Lnk; Reg; Stat].
End Access.
