(* ===== verification/Utils.v ===== *)
(** * Small utilities of src/utils.hh: identifiers ([SmallIds]). *)
From S2P Require Import Prelude.
Local Open Scope Z_scope.

Module SmallIds.

Section ids.
(** [Max<T>] *)
Context (Max : Z).

Record t := mk { free_ids : gset Z; n_allocated : Z; n_acquired : Z }.
Definition init : t := mk ∅ 1 0.

(** [free_ids.begin()]: the smallest element of the ordered set *)
Definition begin_ (X : gset Z) : option Z := set_begin Z.leb X.

Definition acquire (s : t) : outcome (t * Z) :=
  '(s, res) ←
    match begin_ (free_ids s) with
    | None =>
      _ ← throw_unless (n_allocated s <? Max) "cannot allocate id";
      Ret (mk (free_ids s) (n_allocated s + 1) (n_acquired s), n_allocated s)
    | Some x => Ret (mk (free_ids s ∖ {[x]}) (n_allocated s) (n_acquired s), x)
    end;
  _ ← swear (n_acquired s <? Max);
  Ret (mk (free_ids s) (n_allocated s) (n_acquired s + 1), res).

Definition release (id : Z) (s : t) : outcome t :=
  if id =? 0 then Ret s
  else
    _ ← swear (bool_decide (id ∉ free_ids s));
    _ ← swear (0 <? n_acquired s);
    Ret (mk ({[id]} ∪ free_ids s) (n_allocated s) (n_acquired s - 1)).

(** [used] are the identifiers in use. *)
Definition inv (used : gset Z) (s : t) : Prop :=
  (forall x, x ∈ used <-> 1 <= x < n_allocated s /\ x ∉ free_ids s) /\
  (forall x, x ∈ free_ids s -> 1 <= x < n_allocated s) /\
  n_acquired s = Z.of_nat (size used) /\ 1 <= n_allocated s <= Max.

Lemma begin_spec X : match begin_ X with
  | None => X = ∅
  | Some x => x ∈ X /\ forall y, y ∈ X -> x <= y
  end.
Proof.
  pose proof (set_begin_spec Z.leb X) as Hs. feed_lia Hs. unfold begin_. destruct (set_begin Z.leb X) as [x|]; [|apply Hs; intros; lia].
  destruct Hs as [Hx Hy]; [intros; lia..|]. split; [done|]. intros y Hin. specialize (Hy y Hin). lia.
Qed.

Lemma init_inv : 1 <= Max -> inv ∅ init.
Proof. intros HM. unfold inv, init. simpl. split_and!; [intros x; set_solver by lia|set_solver|done|lia|lia]. Qed.

Lemma used_bound used s : inv used s -> Z.of_nat (size used) < n_allocated s.
Proof.
  intros (Hu & _ & _ & Hn). assert (used ⊆ list_to_set (seqZ 1 (n_allocated s - 1))) as Hs.
  { intros x Hx. apply elem_of_list_to_set, elem_of_seqZ. apply Hu in Hx. lia. }
  apply subseteq_size in Hs. rewrite size_list_to_set in Hs by apply NoDup_seqZ. rewrite length_seqZ in Hs. lia.
Qed.

Lemma acquire_spec used s : inv used s ->
  match acquire s with
  | Ret (s', id) => (id ∉ used) /\ 1 <= id /\ (forall x, 1 <= x < id -> x ∈ used) /\ inv ({[id]} ∪ used) s'
  | Throw _ => forall x, 1 <= x < Max -> x ∈ used
  | Crash => False
  end.
Proof.
  intros Hi. pose proof (used_bound _ _ Hi) as Hb. destruct Hi as (Hu & Hf & Hn & HM). unfold acquire.
  pose proof (begin_spec (free_ids s)) as Hx. destruct (begin_ (free_ids s)) as [x|]; cbn [mbind outcome_mbind].
  - destruct Hx as [Hx Hmin]. simpl. destruct (Z.ltb_spec (n_acquired s) Max); [|lia]. simpl.
    assert (x ∉ used) as Hxu by (rewrite Hu; tauto). pose proof (Hf x Hx).
    split_and!; [done|lia| |]; [|split_and!; simpl].
    + intros y Hy. apply Hu. split; [lia|]. intros Hyf. specialize (Hmin y Hyf). lia.
    + intros y. rewrite elem_of_union, elem_of_singleton, Hu, elem_of_difference, elem_of_singleton. destruct (decide (y = x)); [subst; tauto|tauto].
    + set_solver.
    + rewrite size_union by set_solver. rewrite size_singleton. lia.
    + lia.
    + lia.
  - destruct (Z.ltb_spec (n_allocated s) Max); simpl.
    + destruct (Z.ltb_spec (n_acquired s) Max); [|lia]. simpl. assert (n_allocated s ∉ used) as Hxu by (rewrite Hu; lia).
      split_and!; [done|lia| |]; [|split_and!; simpl].
      * intros y Hy. apply Hu. rewrite Hx. split; [lia|set_solver].
      * intros y. rewrite elem_of_union, elem_of_singleton, Hu, Hx. set_solver by lia.
      * rewrite Hx. set_solver.
      * rewrite size_union by set_solver. rewrite size_singleton. lia.
      * lia.
      * lia.
    + intros x Hx'. apply Hu. rewrite Hx. split; [lia|set_solver].
Qed.

Lemma release_id_spec used s id : inv used s -> id ∈ used -> exists s', release id s = Ret s' /\ inv (used ∖ {[id]}) s'.
Proof.
  intros (Hu & Hf & Hn & HM) Hi. apply Hu in Hi as Hi'. unfold release. destruct (Z.eqb_spec id 0); [lia|].
  rewrite bool_decide_eq_true_2 by tauto. cbn [swear mbind outcome_mbind].
  assert (size used <> 0%nat) by (intros H0%size_empty_inv; set_solver).
  destruct (Z.ltb_spec 0 (n_acquired s)); [|lia]. cbn [swear mbind outcome_mbind]. eexists. split; [done|].
  split_and!; simpl; [| | |lia|lia].
  - intros x. rewrite elem_of_difference, Hu. set_solver.
  - set_solver by lia.
  - rewrite size_difference by set_solver. rewrite size_singleton. lia.
Qed.

(** Sequences of acquisitions and releases of identifiers in use *)
Inductive reach : t -> gset Z -> Prop :=
| reach_init : reach init ∅
| reach_acquire s used s' id : reach s used -> acquire s = Ret (s', id) -> reach s' ({[id]} ∪ used)
| reach_release s used s' id : reach s used -> id ∈ used -> release id s = Ret s' -> reach s' (used ∖ {[id]}).

Lemma reach_inv s used : 1 <= Max -> reach s used -> inv used s.
Proof.
  intros HM. induction 1 as [|s used s' id _ IH He|s used s' id _ IH Hi He].
  - by apply init_inv.
  - pose proof (acquire_spec _ _ IH) as H. rewrite He in H. tauto.
  - destruct (release_id_spec _ _ _ IH Hi) as (s2 & H2 & ?). congruence.
Qed.

(** Identifiers are the smallest possible: whatever the acquisitions and releases so far,
    [acquire] returns the least positive identifier that is not in use, and fails only when all
    identifiers below [Max] are in use; an identifier in use can always be released. *)
Theorem small_ids s used : 1 <= Max -> reach s used ->
  match acquire s with
  | Ret (s', id) => (id ∉ used) /\ 1 <= id /\ (forall x, 1 <= x < id -> x ∈ used)
  | Throw _ => forall x, 1 <= x < Max -> x ∈ used
  | Crash => False
  end /\ forall id, id ∈ used -> exists s', release id s = Ret s'.
Proof.
  intros HM Hr. pose proof (reach_inv _ _ HM Hr) as Hi. split.
  - pose proof (acquire_spec _ _ Hi) as H. destruct (acquire s) as [[s' id]| |]; naive_solver.
  - intros id Hid. destruct (release_id_spec _ _ _ Hi Hid) as (s' & ? & _). eauto.
Qed.
End ids.

Lemma small_ids_witness : exists s, acquire 3 (mk {[1]} 3 1) = Ret (s, 1).
Proof.
  assert (reach 3 (mk {[1]} 3 1) (({[2]} ∪ ({[1]} ∪ ∅)) ∖ {[1]})) as Hr.
  { refine (reach_release 3 (mk ∅ 3 2) _ _ 1 _ _ _); [|set_solver|reflexivity].
    refine (reach_acquire 3 (mk ∅ 2 1) _ _ 2 _ _); [|reflexivity].
    refine (reach_acquire 3 init _ _ 1 _ _); [|reflexivity]. apply reach_init. }
  destruct (small_ids 3 _ _ ltac:(lia) Hr) as [H _]. vm_compute in H. eexists. vm_compute. reflexivity.
Defined.
End SmallIds.
