(* ===== verification/StoreFile.v ===== *)
(** * Mapped files: src/store/raw_file.hh and src/store/struct.hh.

    [RawFile] is the growable mapping, [StructFile] a header followed by an array of cells
    numbered from 1. The mapping syscalls are taken to succeed, so what remains of a [RawFile]
    is its size and whether it is writable; checks on the running thread have no counterpart
    in a model where every operation runs on its owner. *)
From S2P Require Import Prelude.
From S2P Require Import Arith.
Local Open Scope Z_scope.

Module RawFile.

Record t := mk { size : Z; writable : bool }.

Section ops.
Context (Capacity PAGE_SZ : Z).

(** [chk_writable()] *)
Definition chk_writable (f : t) : outcome unit := throw_unless (writable f) "is read-only".

(** [_map(sz,truncate)], the system calls succeeding *)
Definition _map (sz : Z) (f : t) : outcome t :=
  _ ← swear (size f <=? sz);
  if sz =? size f then Ret f else Ret (mk sz (writable f)).

(** [expand(sz)]; exceeding the capacity exits with [Rc::BadState] *)
Definition expand (sz : Z) (f : t) : outcome t :=
  _ ← chk_writable f;
  if sz <=? size f then Ret f
  else if Capacity <? sz then Crash
  else
    let sz := Z.max sz (size f + Z.shiftr (size f) 2) in
    let sz := Z.min (round_up 64 sz PAGE_SZ) Capacity in
    _map sz f.

(** [clear(sz)] *)
Definition clear (sz : Z) (f : t) : outcome t :=
  _ ← chk_writable f;
  let sz := round_up 64 sz PAGE_SZ in
  _ ← swear (sz <=? Capacity);
  _map sz (mk 0 (writable f)).

(** The mapping is never larger than the reserved address space. *)
Definition wf (f : t) : Prop := 0 <= size f <= Capacity.

Context (HP : 0 < PAGE_SZ <= 2 ^ 32) (HC : 0 <= Capacity <= 2 ^ 62).

Lemma round_up_page n : 0 < n <= 2 ^ 63 -> n <= round_up 64 n PAGE_SZ.
Proof.
  intros Hn. unfold round_up. destruct (Z.eqb_spec n 0); [lia|].
  pose proof (Z.mod_pos_bound (n - 1) PAGE_SZ).
  rewrite uwrap_small; [lia|]. pose proof (Z.div_mod (n - 1) PAGE_SZ ltac:(lia)).
  assert (2 ^ 63 + 2 ^ 32 < 2 ^ 64) by reflexivity. lia.
Qed.

Lemma expand_spec sz f : wf f -> writable f = true -> 0 <= sz <= Capacity -> exists f',
  expand sz f = Ret f' /\ wf f' /\ writable f' = true /\ Z.max sz (size f) <= size f'.
Proof.
  intros Hf Hw Hs. unfold expand, chk_writable, wf in *.
  rewrite throw_unless_bind by done.
  destruct (Z.leb_spec sz (size f)); [exists f; split_and!; by (lia || done)|].
  destruct (Z.ltb_spec Capacity sz); [lia|].
  assert (0 <= Z.shiftr (size f) 2 <= size f).
  { rewrite Z.shiftr_div_pow2 by lia. split; [apply Z.div_pos; lia|apply Z.div_le_upper_bound; lia]. }
  pose proof (round_up_page (Z.max sz (size f + Z.shiftr (size f) 2)) ltac:(lia)).
  unfold _map. rewrite swear_bind by (apply Z.leb_le; lia).
  destruct (Z.eqb_spec (Z.min (round_up 64 (Z.max sz (size f + Z.shiftr (size f) 2)) PAGE_SZ) Capacity) (size f)).
  - exists f. split_and!; by (lia || done).
  - eexists. split; [done|]. simpl. split_and!; by (lia || done).
Qed.

Lemma expand_ret sz f f' : wf f -> 0 <= sz -> expand sz f = Ret f' ->
  wf f' /\ writable f' = true /\ writable f = true /\ Z.max sz (size f) <= size f'.
Proof.
  intros Hf Hs H. pose proof H as H'. unfold expand, chk_writable in H.
  destruct (writable f) eqn:Hw; [simpl in H|done].
  destruct (Z.le_gt_cases sz Capacity) as [Hc|Hc].
  - destruct (expand_spec sz f Hf Hw ltac:(lia)) as (f2 & H2 & ?).
    assert (f2 = f') as -> by congruence. naive_solver.
  - destruct (Z.leb_spec sz (size f)); [unfold wf in *; lia|].
    destruct (Z.ltb_spec Capacity sz); [done|lia].
Qed.
End ops.
End RawFile.

Module StructFile.

Section ops.
(** [sizeof] of the header and of a cell, the bits of [Idx] and of its usable range *)
Context (sizeof_Hdr sizeof_Data W NIdxBits PAGE_SZ : Z).

(** [Struct::_offset(idx)], computed modulo [2^64] as in the source *)
Definition _offset (idx : Z) : Z :=
  let Offset0 := round_up 64 (u64 (sizeof_Hdr - sizeof_Data)) 64 in
  u64 (Offset0 + sizeof_Data * idx).

Definition Capacity : Z := _offset (2 ^ NIdxBits).

Record t (Data : Type) := mk { raw : RawFile.t; sz : Z; mem : gmap Z Data }.
Arguments mk {Data}.
Arguments raw {Data}.
Arguments sz {Data}.
Arguments mem {Data}.

Context {Data : Type}.

(** [_emplace(idx,data)]: construct the cell in place *)
Definition _emplace (idx : Z) (d : Data) (f : t Data) : outcome (t Data) :=
  _ ← RawFile.chk_writable (raw f);
  _ ← swear (negb (idx =? 0));
  Ret (mk (raw f) (sz f) (<[idx := d]> (mem f))).

(** [_emplace_back(sz,data)]: append [n] cells, the object being constructed at the first one *)
Definition _emplace_back (n : Z) (d : Data) (f : t Data) : outcome (t Data * Z) :=
  let old_sz := sz f in
  let new_sz := uwrap W (old_sz + n) in
  _ ← swear ((old_sz <=? new_sz) && (new_sz <? 2 ^ NIdxBits));
  raw' ← RawFile.expand Capacity PAGE_SZ (_offset new_sz) (raw f);
  let f := mk raw' new_sz (mem f) in
  let res := old_sz in
  f ← _emplace res d f;
  Ret (f, res).

(** [init(name,writable)] on a file mapped at [r]; an already initialised one is kept *)
Definition init (r : RawFile.t) (old : t Data) : outcome (t Data) :=
  if 0 <? RawFile.size r then Ret old
  else
    _ ← throw_unless (RawFile.writable r) "cannot init read-only file";
    r' ← RawFile.expand Capacity PAGE_SZ (_offset 1) r;
    Ret (mk r' 1 ∅).

(** [clear()] *)
Definition clear (f : t Data) : outcome (t Data) :=
  r ← RawFile.clear Capacity PAGE_SZ sizeof_Hdr (raw f);
  Ret (mk r 1 ∅).

(** [chk()] *)
Definition chk (f : t Data) : outcome unit :=
  _ ← throw_unless (negb (sz f =? 0)) "incoherent size info";
  throw_unless (_offset (sz f) <=? RawFile.size (raw f)) "logical size is larger than physical size".

End ops.
Arguments mk {Data}.
Arguments raw {Data}.
Arguments sz {Data}.
Arguments mem {Data}.

Section layout.
Context (sizeof_Hdr sizeof_Data NIdxBits : Z).
Context (Hh : 1 <= sizeof_Hdr <= 2 ^ 24) (Hd : 1 <= sizeof_Data <= 2 ^ 24) (Hn : 1 <= NIdxBits <= 32).

(** Offset of cell 0, as a possibly negative integer. *)
Local Definition Offset0 : Z := (sizeof_Hdr - sizeof_Data - 1) / 64 * 64 + 64.

Lemma _offset_real i : 1 <= i <= 2 ^ NIdxBits -> _offset sizeof_Hdr sizeof_Data i =
  (if sizeof_Hdr =? sizeof_Data then 0 else Offset0) + sizeof_Data * i.
Proof.
  intros Hi. unfold _offset, round_up.
  assert (2 ^ NIdxBits <= 2 ^ 32) by (apply Z.pow_le_mono_r; lia).
  destruct (Z.eqb_spec sizeof_Hdr sizeof_Data) as [He|He].
  { rewrite He, Z.sub_diag. change (u64 0 =? 0) with true. cbn match. rewrite u64_small; nia. }
  assert (u64 (sizeof_Hdr - sizeof_Data) <> 0) as Hz.
  { unfold u64, uwrap. intros H0. apply Z.mod_divide in H0 as [k Hk]; [|lia].
    assert (2 ^ 24 < 2 ^ 64) by reflexivity. nia. }
  destruct (Z.eqb_spec (u64 (sizeof_Hdr - sizeof_Data)) 0); [done|].
  unfold u64, uwrap in *. set (x := sizeof_Hdr - sizeof_Data) in *.
  assert (exists k, x mod 2 ^ 64 = x + k * 2 ^ 64) as [k Hk].
  { exists (- (x / 2 ^ 64)). pose proof (Z.div_mod x (2 ^ 64) ltac:(lia)). lia. }
  rewrite Hk. rewrite Z.add_mod_idemp_l by lia.
  replace (x + k * 2 ^ 64 - 1) with (x - 1 + (k * 2 ^ 58) * 64) by lia.
  rewrite Z.mod_add by lia.
  replace (x - 1 + k * 2 ^ 58 * 64 - (x - 1) mod 64 + 64 + sizeof_Data * i)
    with (Offset0 + sizeof_Data * i + k * 2 ^ 64).
  2:{ unfold Offset0. fold x. pose proof (Z.div_mod (x - 1) 64 ltac:(lia)). lia. }
  rewrite Z.mod_add by lia. apply Z.mod_small. unfold Offset0. fold x.
  pose proof (Z.div_mod (x - 1) 64 ltac:(lia)). pose proof (Z.mod_pos_bound (x - 1) 64).
  split; [nia|]. assert (2 ^ 24 * 2 ^ 32 + 2 ^ 24 + 64 < 2 ^ 64) by reflexivity. nia.
Qed.

Lemma _offset_bound i : 1 <= i <= 2 ^ NIdxBits -> sizeof_Hdr <= _offset sizeof_Hdr sizeof_Data i <= 2 ^ 62.
Proof.
  intros Hi. rewrite _offset_real by done.
  assert (2 ^ NIdxBits <= 2 ^ 32) by (apply Z.pow_le_mono_r; lia).
  assert (2 ^ 24 * 2 ^ 32 + 2 ^ 24 + 64 < 2 ^ 62) by reflexivity.
  destruct (Z.eqb_spec sizeof_Hdr sizeof_Data); [nia|]. unfold Offset0.
  pose proof (Z.div_mod (sizeof_Hdr - sizeof_Data - 1) 64 ltac:(lia)).
  pose proof (Z.mod_pos_bound (sizeof_Hdr - sizeof_Data - 1) 64). nia.
Qed.

Lemma _offset_mono i j : 1 <= i <= j -> j <= 2 ^ NIdxBits ->
  _offset sizeof_Hdr sizeof_Data i + sizeof_Data * (j - i) = _offset sizeof_Hdr sizeof_Data j.
Proof. intros. rewrite !_offset_real by lia. lia. Qed.
End layout.
End StructFile.
