(* ===== verification/StoreAlloc.v ===== *)
(** * The block allocator: src/store/alloc.hh over src/store/struct.hh. *)
From S2P Require Import Prelude.
From S2P Require Import Arith.
Local Open Scope Z_scope.

(** ** Size classes, [namespace Alloc] *)

Module Alloc.

(** [Alloc::bucket<Mantissa>(sz)]; every intermediate is kept at its width *)
Definition bucket (Mantissa sz : Z) : Z :=
  if Mantissa =? 0 then 0
  else if sz <=? Z.shiftl 1 Mantissa then u64 (sz - 1)
  else
    let Mantissa1 := Mantissa - 1 in
    let sz_bits := n_bits sz in
    let exp := u8 (sz_bits - Mantissa) in
    let mantissa := u8 (u64 (Z.shiftr (sz - 1) exp + 1 - Z.shiftl 1 Mantissa1)) in
    u64 (u64 (u64 (Z.shiftl (exp + 1) Mantissa1) + mantissa) - 1).

(** [Alloc::sz<Mantissa>(bucket)] *)
Definition sz (Mantissa bucket : Z) : outcome Z :=
  if Mantissa =? 0 then Ret 1
  else if bucket <? Z.shiftl 1 Mantissa then Ret (u64 (bucket + 1))
  else
    let Mantissa1 := Mantissa - 1 in
    let exp := u8 (Z.shiftr (u64 (bucket + 1)) Mantissa1 - 1) in
    _ ← swear (exp <? 64);
    let mantissa := u64 (Z.shiftl 1 Mantissa1 + bucket - u64 (Z.shiftl (exp + 1) Mantissa1) + 1) in
    Ret (u64 (Z.shiftl mantissa exp)).

(** Largest size handled below: results stay representable in a [size_t]. *)
Definition max_sz : Z := 2 ^ 63.

Section laws.
Context (M : Z) (HM : 1 <= M <= 8).

Local Lemma pow_M : 2 ^ M = 2 * 2 ^ (M - 1).
Proof. rewrite <- Z.pow_succ_r by lia. f_equal. lia. Qed.

Local Lemma pow_M1_bound : 1 <= 2 ^ (M - 1) <= 128.
Proof. split; [pose proof (Z.pow_pos_nonneg 2 (M - 1)); lia|]. change 128 with (2 ^ 7). apply Z.pow_le_mono_r; lia. Qed.

(** Exponent of the class of a size in the logarithmic range. *)
Local Definition e_of (n : Z) : Z := Z.log2 (n - 1) + 1 - M.

Lemma e_of_spec n : 2 ^ M < n -> 1 <= e_of n /\
  2 ^ (M - 1) * 2 ^ e_of n <= n - 1 < 2 ^ M * 2 ^ e_of n.
Proof.
  intros Hn. unfold e_of.
  assert (M <= Z.log2 (n - 1)) as Hl.
  { replace M with (Z.log2 (2 ^ M)) by (apply Z.log2_pow2; lia). apply Z.log2_le_mono. lia. }
  split; [lia|]. rewrite <- !Z.pow_add_r by lia.
  replace (M - 1 + (Z.log2 (n - 1) + 1 - M)) with (Z.log2 (n - 1)) by lia.
  replace (M + (Z.log2 (n - 1) + 1 - M)) with (Z.succ (Z.log2 (n - 1))) by lia.
  apply Z.log2_spec. pose proof (Z.pow_pos_nonneg 2 M). lia.
Qed.

Lemma e_of_unique n e : 2 ^ M < n -> 1 <= e ->
  2 ^ (M - 1) * 2 ^ e <= n - 1 < 2 ^ M * 2 ^ e -> e_of n = e.
Proof.
  intros Hn He Hb. rewrite <- !Z.pow_add_r in Hb by lia. unfold e_of.
  enough (Z.log2 (n - 1) = M - 1 + e) by lia.
  apply Z.log2_unique; [lia|]. replace (Z.succ (M - 1 + e)) with (M + e) by lia. done.
Qed.

Lemma bucket_linear n : 1 <= n <= 2 ^ M -> bucket M n = n - 1.
Proof.
  intros Hn. unfold bucket. rewrite Z.shiftl_1_l.
  assert (2 ^ M <= 2 ^ 8) by (apply Z.pow_le_mono_r; lia).
  destruct (Z.eqb_spec M 0); [lia|]. destruct (Z.leb_spec n (2 ^ M)); [|lia].
  rewrite u64_small; lia.
Qed.

(** Quotient of a size by the granularity of its class. *)
Local Lemma quot_bound n : 2 ^ M < n ->
  2 ^ (M - 1) <= (n - 1) / 2 ^ e_of n <= 2 ^ M - 1.
Proof.
  intros Hn. destruct (e_of_spec n Hn) as [He [Hlo Hhi]].
  assert (0 < 2 ^ e_of n) by (apply Z.pow_pos_nonneg; lia). split.
  - apply Z.div_le_lower_bound; lia.
  - enough ((n - 1) / 2 ^ e_of n < 2 ^ M) by lia. apply Z.div_lt_upper_bound; lia.
Qed.

Lemma bucket_log n : 2 ^ M < n <= max_sz ->
  bucket M n = e_of n * 2 ^ (M - 1) + (n - 1) / 2 ^ e_of n.
Proof.
  unfold max_sz. intros [Hn Hm]. unfold bucket.
  destruct (e_of_spec n Hn) as [He Hb]. pose proof (quot_bound n Hn) as Hq.
  pose proof pow_M1_bound. pose proof pow_M.
  destruct (Z.eqb_spec M 0); [lia|]. rewrite !Z.shiftl_1_l.
  destruct (Z.leb_spec n (2 ^ M)); [lia|].
  rewrite n_bits_log2 by lia. change (Z.log2 (n - 1) + 1 - M) with (e_of n).
  assert (e_of n <= 64) as Heb.
  { unfold e_of. assert (Z.log2 (n - 1) < 63) by (apply Z.log2_lt_pow2; lia). lia. }
  rewrite (u8_small (e_of n)) by lia.
  rewrite Z.shiftr_div_pow2, Z.shiftl_mul_pow2 by lia.
  rewrite (u64_small (_ / _ + 1 - _)) by lia. rewrite u8_small by lia.
  assert (0 <= (e_of n + 1) * 2 ^ (M - 1) <= 65 * 128) by nia.
  rewrite (u64_small ((e_of n + 1) * _)) by lia.
  rewrite (u64_small (_ + _)) by lia. rewrite u64_small; lia.
Qed.

Lemma sz_linear b : 0 <= b < 2 ^ M -> sz M b = Ret (b + 1).
Proof.
  intros Hb. unfold sz. rewrite Z.shiftl_1_l.
  assert (2 ^ M <= 2 ^ 8) by (apply Z.pow_le_mono_r; lia).
  destruct (Z.eqb_spec M 0); [lia|]. destruct (Z.ltb_spec b (2 ^ M)); [|lia].
  rewrite u64_small by lia. done.
Qed.

(** In the logarithmic range, bucket [b] with [b+1 = (e+1)*2^(M-1)+r] holds sizes up to
    [(2^(M-1)+r)*2^e]. *)
Lemma sz_log e r : 1 <= e -> 0 <= r < 2 ^ (M - 1) -> (2 ^ (M - 1) + r) * 2 ^ e <= max_sz ->
  2 ^ M <= (e + 1) * 2 ^ (M - 1) + r - 1 ->
  sz M ((e + 1) * 2 ^ (M - 1) + r - 1) = Ret ((2 ^ (M - 1) + r) * 2 ^ e).
Proof.
  unfold max_sz. intros He Hr Hs Hb. unfold sz. pose proof pow_M1_bound.
  assert (e <= 63) as He63.
  { apply Z.nlt_ge. intros Hlt. assert (2 ^ 64 <= 2 ^ e) by (apply Z.pow_le_mono_r; lia). nia. }
  rewrite !Z.shiftl_1_l. destruct (Z.eqb_spec M 0); [lia|].
  destruct (Z.ltb_spec ((e + 1) * 2 ^ (M - 1) + r - 1) (2 ^ M)); [lia|].
  rewrite (u64_small (_ - 1 + 1)) by nia.
  replace ((e + 1) * 2 ^ (M - 1) + r - 1 + 1) with (r + (e + 1) * 2 ^ (M - 1)) by lia.
  rewrite Z.shiftr_div_pow2, Z.div_add, Z.div_small by lia.
  rewrite (u8_small (0 + _ - 1)) by lia. rewrite swear_bind by (apply Z.ltb_lt; lia).
  replace (0 + (e + 1) - 1) with e by lia.
  rewrite !Z.shiftl_mul_pow2 by lia. rewrite (u64_small ((e + 1) * _)) by nia.
  rewrite (u64_small (2 ^ (M - 1) + _ - _ + 1)) by nia.
  f_equal. replace (2 ^ (M - 1) + _ - _ + 1) with (2 ^ (M - 1) + r) by lia.
  apply u64_small. nia.
Qed.

(** Sizes between [n] and the capacity of its class fall in the same class. *)
Lemma bucket_class n m : 2 ^ M < n -> n <= m <= max_sz ->
  m <= ((n - 1) / 2 ^ e_of n + 1) * 2 ^ e_of n -> bucket M m = bucket M n.
Proof.
  intros Hn Hm Hc. destruct (e_of_spec n Hn) as [He Hb]. pose proof (quot_bound n Hn) as Hq.
  assert (0 < 2 ^ e_of n) as Hp by (apply Z.pow_pos_nonneg; lia).
  assert (e_of m = e_of n) as Hem by (apply e_of_unique; [lia|lia|nia]).
  rewrite !bucket_log by lia. rewrite Hem. f_equal.
  symmetry. apply (Z.div_unique_pos _ _ _ (m - 1 - (n - 1) / 2 ^ e_of n * 2 ^ e_of n)); [|lia].
  pose proof (Z.div_mod (n - 1) (2 ^ e_of n) ltac:(lia)).
  pose proof (Z.mod_pos_bound (n - 1) (2 ^ e_of n)). nia.
Qed.

(** The capacity of the class of a size in the logarithmic range. *)
Lemma sz_bucket_log n : 2 ^ M < n <= max_sz ->
  sz M (bucket M n) = Ret (((n - 1) / 2 ^ e_of n + 1) * 2 ^ e_of n) /\
  n <= ((n - 1) / 2 ^ e_of n + 1) * 2 ^ e_of n <= max_sz.
Proof.
  intros Hn. destruct (e_of_spec n) as [He Hb]; [lia|]. pose proof (quot_bound n) as Hq.
  pose proof pow_M. pose proof pow_M1_bound. rewrite bucket_log by done.
  set (e := e_of n) in *. set (q := (n - 1) / 2 ^ e) in *. unfold max_sz in *.
  assert (0 < 2 ^ e) by (apply Z.pow_pos_nonneg; lia).
  assert (e <= 62) as He62.
  { unfold e, e_of. assert (Z.log2 (n - 1) < 63) by (apply Z.log2_lt_pow2; lia). lia. }
  assert ((q + 1) * 2 ^ e <= 2 ^ 63) as Hmax.
  { replace 63 with (63 - e + e) by lia. rewrite Z.pow_add_r by lia. apply Z.mul_le_mono_nonneg_r; [lia|].
    enough (q < 2 ^ (63 - e)) by lia. apply Z.div_lt_upper_bound; [done|].
    rewrite <- Z.pow_add_r by lia. replace (e + (63 - e)) with 63 by lia. lia. }
  split; [|split; [|done]].
  - destruct (decide (q + 1 = 2 ^ M)) as [Hq1|Hq1].
    + replace (e * 2 ^ (M - 1) + q) with ((e + 1 + 1) * 2 ^ (M - 1) + 0 - 1) by lia.
      rewrite (sz_log (e + 1) 0); unfold max_sz; [|lia|lia| |lia].
      * f_equal. rewrite Z.pow_add_r by lia. nia.
      * rewrite Z.pow_add_r by lia. nia.
    + replace (e * 2 ^ (M - 1) + q) with ((e + 1) * 2 ^ (M - 1) + (q + 1 - 2 ^ (M - 1)) - 1) by lia.
      rewrite (sz_log e); unfold max_sz; [f_equal; f_equal; lia|lia|lia| |nia].
      replace (2 ^ (M - 1) + (q + 1 - 2 ^ (M - 1))) with (q + 1) by lia. done.
  - pose proof (Z.div_mod (n - 1) (2 ^ e) ltac:(lia)) as Hdm. fold q in Hdm.
    pose proof (Z.mod_pos_bound (n - 1) (2 ^ e)). nia.
Qed.

(** [sz(bucket(n))] is the capacity of the class of [n]: it holds [n], belongs to the same
    class, and so does every size in between. *)
Lemma sz_bucket n : 1 <= n <= max_sz -> exists s,
  sz M (bucket M n) = Ret s /\ n <= s <= max_sz /\
  (forall m, n <= m <= s -> bucket M m = bucket M n).
Proof.
  intros Hn. destruct (Z.le_gt_cases n (2 ^ M)) as [Hl|Hl].
  - exists n. rewrite bucket_linear, sz_linear by lia.
    split; [f_equal; lia|]. split; [lia|]. intros m Hm. assert (m = n) as -> by lia. apply bucket_linear. lia.
  - destruct (sz_bucket_log n) as [Hs Hb]; [lia|].
    eexists. split; [done|]. split; [done|]. intros m Hm. apply bucket_class; lia.
Qed.

(** Buckets are numbered without holes up to that of [max_sz]. *)
Lemma bucket_max : bucket M max_sz = (65 - M) * 2 ^ (M - 1) - 1.
Proof.
  assert (M = 1 \/ M = 2 \/ M = 3 \/ M = 4 \/ M = 5 \/ M = 6 \/ M = 7 \/ M = 8) as H by lia.
  destruct H as [->|[->|[->|[->|[->|[->|[->| ->]]]]]]]; reflexivity.
Qed.

Lemma bucket_sz_log e r : 1 <= e <= 63 - M -> 0 <= r < 2 ^ (M - 1) ->
  2 ^ M <= (e + 1) * 2 ^ (M - 1) + r - 1 ->
  bucket M ((2 ^ (M - 1) + r) * 2 ^ e) = (e + 1) * 2 ^ (M - 1) + r - 1 /\
  bucket M ((2 ^ (M - 1) + r) * 2 ^ e + 1) = (e + 1) * 2 ^ (M - 1) + r /\
  (2 ^ (M - 1) + r) * 2 ^ e + 1 <= max_sz.
Proof.
  intros He Hr Hb. pose proof pow_M. pose proof pow_M1_bound. unfold max_sz.
  assert (2 <= 2 ^ e) by (change 2 with (2 ^ 1) at 1; apply Z.pow_le_mono_r; lia).
  assert (2 ^ M * 2 ^ e <= 2 ^ 63) by (rewrite <- Z.pow_add_r by lia; apply Z.pow_le_mono_r; lia).
  assert (2 ^ M < (2 ^ (M - 1) + r) * 2 ^ e) as Hbig.
  { destruct (decide (r = 0)) as [->|]; [|nia].
    assert (2 <= e) by nia. assert (4 <= 2 ^ e) by (change 4 with (2 ^ 2); apply Z.pow_le_mono_r; lia). nia. }
  set (s := (2 ^ (M - 1) + r) * 2 ^ e) in *.
  assert (s < 2 ^ M * 2 ^ e) by (unfold s; nia).
  assert (e_of (s + 1) = e) as He1 by (apply e_of_unique; unfold s in *; nia).
  assert (bucket M (s + 1) = (e + 1) * 2 ^ (M - 1) + r) as Hs1.
  { rewrite bucket_log by (unfold max_sz; lia). rewrite He1. replace (s + 1 - 1) with s by lia.
    unfold s. rewrite Z.div_mul by lia. lia. }
  split; [|split; [done|lia]].
  destruct (decide (r = 0)) as [Hr0|Hr0].
  - assert (2 <= e) by nia.
    assert (2 ^ e = 2 * 2 ^ (e - 1)) as He2 by (rewrite <- Z.pow_succ_r by lia; f_equal; lia).
    assert (1 <= 2 ^ (e - 1)) by (pose proof (Z.pow_pos_nonneg 2 (e - 1)); lia).
    rewrite bucket_log by (unfold max_sz; lia).
    assert (e_of s = e - 1) as -> by (apply e_of_unique; unfold s in *; subst r; nia).
    replace ((s - 1) / 2 ^ (e - 1)) with (2 ^ M - 1); [lia|].
    apply (Z.div_unique_pos _ _ _ (2 ^ (e - 1) - 1)); unfold s; subst r; nia.
  - rewrite bucket_log by (unfold max_sz; lia).
    assert (e_of s = e) as -> by (apply e_of_unique; unfold s in *; nia).
    replace ((s - 1) / 2 ^ e) with (2 ^ (M - 1) + r - 1); [lia|].
    apply (Z.div_unique_pos _ _ _ (2 ^ e - 1)); unfold s; nia.
Qed.

Lemma bucket_sz b : 0 <= b < bucket M max_sz -> exists s,
  sz M b = Ret s /\ 1 <= s < max_sz /\ bucket M s = b /\ bucket M (s + 1) = b + 1.
Proof.
  rewrite bucket_max. intros Hb. pose proof pow_M. pose proof pow_M1_bound.
  assert (2 ^ M <= 2 ^ 8) as H8 by (apply Z.pow_le_mono_r; lia).
  destruct (Z.lt_ge_cases b (2 ^ M)) as [Hl|Hl].
  - exists (b + 1). rewrite sz_linear by lia. unfold max_sz. split; [done|]. split; [lia|].
    rewrite (bucket_linear (b + 1)) by lia. split; [lia|].
    destruct (decide (b + 1 = 2 ^ M)) as [He|He]; [|rewrite bucket_linear; lia].
    rewrite bucket_log by (unfold max_sz; lia).
    assert (e_of (b + 1 + 1) = 1) as -> by (apply e_of_unique; lia).
    replace (b + 1 + 1 - 1) with (2 ^ (M - 1) * 2 ^ 1) by lia. rewrite Z.div_mul; lia.
  - set (e := (b + 1) / 2 ^ (M - 1) - 1). set (r := (b + 1) mod 2 ^ (M - 1)).
    pose proof (Z.div_mod (b + 1) (2 ^ (M - 1)) ltac:(lia)) as Hdm.
    pose proof (Z.mod_pos_bound (b + 1) (2 ^ (M - 1)) ltac:(lia)) as Hr. fold r in Hdm, Hr.
    assert (b = (e + 1) * 2 ^ (M - 1) + r - 1) as Hbe by (unfold e; lia).
    assert (1 <= e <= 63 - M) as He.
    { split; [nia|]. assert ((e + 1) * 2 ^ (M - 1) < (65 - M) * 2 ^ (M - 1)) by lia. nia. }
    destruct (bucket_sz_log e r) as (H1 & H2 & H3); [done..|lia|].
    exists ((2 ^ (M - 1) + r) * 2 ^ e). rewrite Hbe.
    assert (1 <= 2 ^ e) by (pose proof (Z.pow_pos_nonneg 2 e); lia).
    rewrite sz_log; [|lia..]. split; [done|]. split; [nia|]. split; [done|lia].
Qed.

(** Growing a size by one stays in its class or moves to the next one. *)
Lemma bucket_step n : 1 <= n < max_sz -> bucket M n <= bucket M (n + 1) <= bucket M n + 1.
Proof.
  intros Hn. destruct (sz_bucket n) as (s & Hs & Hb & Hc); [lia|].
  destruct (decide (n < s)) as [Hlt|Hge]; [rewrite (Hc (n + 1)); lia|].
  assert (n = s) by lia. subst s.
  destruct (Z.lt_ge_cases (bucket M n) (bucket M max_sz)) as [Hlt|Hle].
  - assert (0 <= bucket M n).
    { destruct (Z.le_gt_cases n (2 ^ M)); [rewrite bucket_linear; lia|].
      rewrite bucket_log by lia. pose proof (e_of_spec n). pose proof (quot_bound n).
      pose proof pow_M1_bound. nia. }
    destruct (bucket_sz (bucket M n)) as (s' & Hs' & _ & _ & H2); [lia|].
    rewrite Hs in Hs'. injection Hs' as <-. lia.
  - exfalso. revert Hle. rewrite bucket_max.
    destruct (Z.le_gt_cases n (2 ^ M)).
    + rewrite bucket_linear by lia. pose proof pow_M. pose proof pow_M1_bound. nia.
    + destruct (sz_bucket_log n) as [Hs2 _]; [lia|]. rewrite Hs in Hs2. injection Hs2 as Hs2.
      rewrite bucket_log by lia. destruct (e_of_spec n) as [He Hbn]; [lia|]. pose proof (quot_bound n) as Hq.
      pose proof pow_M. pose proof pow_M1_bound. unfold max_sz in *.
      assert (e_of n <= 63 - M) as He2.
      { unfold e_of. assert (Z.log2 (n - 1) < 63) by (apply Z.log2_lt_pow2; lia). lia. }
      intros Hle. assert (e_of n = 63 - M /\ (n - 1) / 2 ^ e_of n = 2 ^ M - 1) as [He3 Hq3] by nia.
      rewrite Hq3, He3 in Hs2. replace (2 ^ M - 1 + 1) with (2 ^ M) in Hs2 by lia.
      rewrite <- Z.pow_add_r in Hs2 by lia. replace (M + (63 - M)) with 63 in Hs2 by lia. lia.
Qed.

Lemma bucket_mono n m : 1 <= n <= m -> m <= max_sz -> bucket M n <= bucket M m.
Proof.
  intros [H1 Hm] Hmax. revert m Hm Hmax. refine (Zlt_lower_bound_ind _ n _).
  intros m IH Hm Hmax. destruct (decide (m = n)) as [->|]; [lia|].
  pose proof (IH (m - 1) ltac:(lia) ltac:(lia)). pose proof (bucket_step (m - 1) ltac:(lia)).
  replace (m - 1 + 1) with m in * by lia. lia.
Qed.

Lemma bucket_range n : 1 <= n <= max_sz -> 0 <= bucket M n <= n - 1.
Proof.
  intros [H1 Hmax]. revert n H1 Hmax. refine (Zlt_lower_bound_ind _ 1 _).
  intros n IH Hn Hmax. destruct (decide (n = 1)) as [->|].
  { rewrite bucket_linear; [lia|]. pose proof (Z.pow_pos_nonneg 2 M). lia. }
  pose proof (IH (n - 1) ltac:(lia) ltac:(lia)). pose proof (bucket_step (n - 1) ltac:(lia)).
  replace (n - 1 + 1) with n in * by lia. lia.
Qed.

(** C22 The laws the source requires of [bucket] and [sz], for all sizes up to [2^63]: the first
    class is for size 1, classes are sorted, there are no more classes than sizes, [sz] returns
    the largest size of a class and [bucket] maps it back to this class. *)
Theorem bucket_laws :
  bucket M 1 = 0 /\
  (forall n, 1 <= n < max_sz -> bucket M n <= bucket M (n + 1) <= bucket M n + 1) /\
  (forall b, 0 <= b < bucket M max_sz -> exists s, sz M b = Ret s /\
     bucket M s = b /\ bucket M (s + 1) = b + 1 /\ forall n, 1 <= n <= max_sz -> bucket M n = b -> n <= s).
Proof.
  split; [|split; [apply bucket_step|]].
  { rewrite bucket_linear; [done|]. pose proof (Z.pow_pos_nonneg 2 M). lia. }
  intros b Hb. destruct (bucket_sz b Hb) as (s & Hs & Hr & H1 & H2). exists s. split_and!; try done.
  intros n Hn Hbn. apply Z.nlt_ge. intros Hlt. pose proof (bucket_mono (s + 1) n ltac:(lia) ltac:(lia)). lia.
Qed.
End laws.

Lemma bucket_laws_witness : 1 <= 4 <= 8 /\ bucket 4 1 = 0.
Proof. split; [lia|]. apply (bucket_laws 4). lia. Defined.
End Alloc.
