(* ===== verification/StoreAllocFile.v ===== *)
(** * The block allocator proper: [AllocFile] of src/store/alloc.hh.

    Blocks of consecutive cells are handed out by size class. A freed block is pushed on the
    free list of its class, the link being stored in its first cell. *)
From S2P Require Import Prelude.
From S2P Require Import Arith.
From S2P Require Import StoreFile.
From S2P Require Import StoreAlloc.
Local Open Scope Z_scope.

Module AllocFile.

(** A cell is the [union] of [Alloc::Data]: user data, or a link when in a free list. *)
Inductive cell (D : Type) : Type :=
| Data (data : D)
| Nxt (nxt : Z).
Arguments Data {D} data.
Arguments Nxt {D} nxt.

(** Template and layout parameters: [Mantissa], the bits of [Idx] and its usable range. *)
Class Params := {
  Mantissa : Z;
  W : Z;
  NIdxBits : Z;
  sizeof_Hdr : Z;
  sizeof_Data : Z;
  PAGE_SZ : Z;
}.

Class ParamsOk (P : Params) : Prop := {
  Mantissa_ok : 0 <= Mantissa <= 8;
  W_ok : 8 <= W <= 32;
  NIdxBits_ok : 1 <= NIdxBits <= W;
  sizeof_Hdr_ok : 1 <= sizeof_Hdr <= 2 ^ 24;
  sizeof_Data_ok : 1 <= sizeof_Data <= 2 ^ 24;
  PAGE_SZ_ok : 0 < PAGE_SZ <= 2 ^ 32;
}.

Section ops.
Context {P : Params} {D : Type}.

(** [Alloc::Hdr::NFree]: one free list per class of the representable sizes *)
Definition NFree : Z := Alloc.bucket Mantissa (lsb_msk 64 W) + 1.

Record t := mk { base : StructFile.t (cell D); free : list Z }.

Definition size (f : t) : Z := StructFile.sz (base f).
Definition mem (f : t) : gmap Z (cell D) := StructFile.mem (base f).
Definition writable (f : t) : bool := RawFile.writable (StructFile.raw (base f)).
Definition set_mem (f : t) (m : gmap Z (cell D)) : t :=
  mk (StructFile.mk (StructFile.raw (base f)) (StructFile.sz (base f)) m) (free f).

Definition _s_bucket (sz : Z) : Z := uwrap W (Alloc.bucket Mantissa sz).
Definition _s_sz (bucket : Z) : outcome Z := s ← Alloc.sz Mantissa bucket; Ret (uwrap W s).

Definition chk_writable (f : t) : outcome unit := RawFile.chk_writable (StructFile.raw (base f)).

(** [_free(bucket)]: read and write access to the head of a free list *)
Definition _free (bucket : Z) (f : t) : outcome Z :=
  _ ← swear (bucket <? NFree);
  match free f !! Z.to_nat bucket with Some h => Ret h | None => Crash end.
Definition _set_free (bucket h : Z) (f : t) : t :=
  mk (base f) (<[Z.to_nat bucket := h]> (free f)).

(** [Base::at(idx).nxt]; reading the link of a cell that holds data is outside the model *)
Definition _nxt (idx : Z) (f : t) : outcome Z :=
  match mem f !! idx with Some (Nxt n) => Ret n | _ => Crash end.

(** [at(idx)] *)
Definition at_ (idx : Z) (f : t) : outcome D :=
  match mem f !! idx with Some (Data d) => Ret d | _ => Crash end.

(** [_dealloc(idx,bucket)]: link the block, then publish it as the new head *)
Definition _dealloc (idx bucket : Z) (f : t) : outcome t :=
  _ ← chk_writable f;
  h ← _free bucket f;
  _ ← swear (negb (idx =? 0));
  let f := set_mem f (<[idx := Nxt h]> (mem f)) in
  Ret (_set_free bucket idx f).

(** [_emplace(sz,data)] *)
Definition _emplace (sz : Z) (d : D) (f : t) : outcome (t * Z) :=
  let bucket := _s_bucket sz in
  h ← _free bucket f;
  if h =? 0 then
    n ← _s_sz bucket;
    '(b, res) ← StructFile._emplace_back sizeof_Hdr sizeof_Data W NIdxBits PAGE_SZ n (Data d) (base f);
    Ret (mk b (free f), res)
  else
    let res := h in
    n ← _nxt res f;
    let f := _set_free bucket n f in
    b ← StructFile._emplace res (Data d) (base f);
    Ret (mk b (free f), res).

(** [_pop(idx,sz)] *)
Definition _pop (idx sz : Z) (f : t) : outcome t :=
  if idx =? 0 then Ret f
  else
    _ ← chk_writable f;
    _dealloc idx (_s_bucket sz) f.

(** Body of the loop of [_shorten]: the largest class that fits in [extra_sz], and its capacity *)
Definition _extra_bucket (extra_sz : Z) : outcome (Z * Z) :=
  let extra_bucket := _s_bucket extra_sz in
  extra_bucket_sz ← _s_sz extra_bucket;
  _ ← swear (extra_sz <=? extra_bucket_sz);
  '(extra_bucket, extra_bucket_sz) ←
    (if extra_sz <? extra_bucket_sz then
       let extra_bucket := uwrap W (extra_bucket - 1) in
       s ← _s_sz extra_bucket; Ret (extra_bucket, s)
     else Ret (extra_bucket, extra_bucket_sz));
  _ ← swear (extra_bucket_sz <=? extra_sz);
  Ret (extra_bucket, extra_bucket_sz).

(** The [while (new_sz<old_sz)] loop of [_shorten] *)
Fixpoint _shorten_loop (fuel : nat) (idx new_sz old_sz : Z) (f : t) : outcome t :=
  if new_sz <? old_sz then
    match fuel with
    | O => Crash
    | S fuel =>
      '(extra_bucket, extra_bucket_sz) ← _extra_bucket (old_sz - new_sz);
      let old_sz := old_sz - extra_bucket_sz in
      f ← _dealloc (uwrap W (idx + old_sz)) extra_bucket f;
      _shorten_loop fuel idx new_sz old_sz f
    end
  else Ret f.

(** [_shorten(idx,old_sz,new_sz)] *)
Definition _shorten (idx old_sz new_sz : Z) (f : t) : outcome t :=
  if new_sz =? 0 then _pop idx old_sz f
  else if new_sz =? old_sz then Ret f
  else
    _ ← swear (new_sz <=? old_sz);
    _ ← chk_writable f;
    let old_bucket := _s_bucket old_sz in
    let new_bucket := _s_bucket new_sz in
    new_sz ← _s_sz new_bucket;
    old_sz ← _s_sz old_bucket;
    f ← _shorten_loop (Z.to_nat (old_sz - new_sz)) idx new_sz old_sz f;
    _ ← swear (new_bucket <=? old_bucket);
    Ret f.

(** Record in [free_map] the class of [n] cells from [idx], none being already there *)
Fixpoint mark (n : nat) (idx bucket : Z) (free_map : gmap Z Z) : outcome (gmap Z Z) :=
  match n with
  | O => Ret free_map
  | S n =>
    _ ← swear (bool_decide (free_map !! idx = None));
    mark n (idx + 1) bucket (<[idx := bucket + 1]> free_map)
  end.

(** Walk of one free list by [chk] *)
Fixpoint chk_list (fuel : nat) (idx sz bucket : Z) (f : t) (free_map : gmap Z Z) : outcome (gmap Z Z) :=
  if idx =? 0 then Ret free_map
  else match fuel with
  | O => Crash
  | S fuel =>
    _ ← swear (uwrap W (idx + sz) <=? size f);
    free_map ← mark (Z.to_nat sz) idx bucket free_map;
    n ← _nxt idx f;
    chk_list fuel n sz bucket f free_map
  end.

(** All free lists, from class [bucket] on *)
Fixpoint chk_lists (n : nat) (bucket : Z) (f : t) (free_map : gmap Z Z) : outcome (gmap Z Z) :=
  match n with
  | O => Ret free_map
  | S n =>
    sz ← _s_sz bucket;
    head ← _free bucket f;
    free_map ← chk_list (Z.to_nat (size f)) head sz bucket f free_map;
    chk_lists n (bucket + 1) f free_map
  end.

(** [chk()] *)
Definition chk (f : t) : outcome unit :=
  _ ← StructFile.chk sizeof_Hdr sizeof_Data (base f);
  _ ← chk_lists (Z.to_nat NFree) 0 f ∅;
  Ret tt.

(** State just after [init] on an empty file *)
Definition init (r : RawFile.t) : outcome t :=
  b ← StructFile.init sizeof_Hdr sizeof_Data NIdxBits PAGE_SZ r (StructFile.mk r 0 ∅);
  Ret (mk b (replicate (Z.to_nat NFree) 0)).

(** [clear()] *)
Definition clear (f : t) : outcome t :=
  b ← StructFile.clear sizeof_Hdr sizeof_Data NIdxBits PAGE_SZ (base f);
  Ret (mk b (replicate (length (free f)) 0)).

(** ** Listing, for files of single cells: [struct Lst] *)

(** Constructor of [Lst]: walk of the only free list *)
Fixpoint lst_walk (fuel : nat) (i : Z) (f : t) (_frees : gset Z) : outcome (gset Z) :=
  if i =? 0 then Ret _frees
  else match fuel with
  | O => Crash
  | S fuel => n ← _nxt i f; lst_walk fuel n f ({[i]} ∪ _frees)
  end.
Definition lst_frees (f : t) : outcome (gset Z) :=
  h ← _free 0 f; lst_walk (Z.to_nat (size f)) h f ∅.

(** [Iterator]: the current index, 0 at the end *)
Definition _fix_end (f : t) (_idx : Z) : Z := if _idx =? size f then 0 else _idx.
Definition _advance (f : t) (_idx : Z) : outcome Z :=
  _ ← swear (negb (_idx =? 0)); Ret (_fix_end f (uwrap W (_idx + 1))).
Fixpoint _legalize (fuel : nat) (_frees : gset Z) (f : t) (_idx : Z) : outcome Z :=
  if _idx =? 0 then Ret _idx
  else if bool_decide (_idx ∉ _frees) then Ret _idx
  else match fuel with
  | O => Crash
  | S fuel => i ← _advance f _idx; _legalize fuel _frees f i
  end.

(** [for( Idx i : lst() )] from iterator [_idx] *)
Fixpoint lst_loop (fuel : nat) (_frees : gset Z) (f : t) (_idx : Z) : outcome (list Z) :=
  if _idx =? 0 then Ret []
  else match fuel with
  | O => Crash
  | S fuel =>
    i ← _advance f _idx;
    i ← _legalize (Z.to_nat (size f)) _frees f i;
    l ← lst_loop fuel _frees f i;
    Ret (_idx :: l)
  end.
Definition lst (f : t) : outcome (list Z) :=
  _frees ← lst_frees f;
  i ← _legalize (Z.to_nat (size f)) _frees f (_fix_end f 1);
  lst_loop (Z.to_nat (size f)) _frees f i.
End ops.
Arguments t D : clear implicits.

(** ** Size classes of a file *)

Section classes.
Context {P : Params} {HP : ParamsOk P}.

(** Classes in use: all of them for single cells; otherwise the last one is left out, as its
    capacity need not be representable on [W] bits. *)
Definition n_ok : Z := if Mantissa =? 0 then 1 else NFree - 1.
Definition ok_bucket (b : Z) : Prop := 0 <= b < n_ok.

(** Requests served by these classes *)
Definition ok_sz (n : Z) : Prop :=
  if Mantissa =? 0 then n = 1 else 1 <= n < 2 ^ W /\ Alloc.bucket Mantissa n < NFree - 1.

(** Capacity of a class, as a number of cells *)
Definition szv (b : Z) : Z := match _s_sz b with Ret s => s | _ => 0 end.

Lemma pow_W : 256 <= 2 ^ W <= 2 ^ 32.
Proof.
  pose proof W_ok. split; [change 256 with (2 ^ 8) at 1|]; apply Z.pow_le_mono_r; lia.
Qed.

Lemma NFree_eq : NFree = Alloc.bucket Mantissa (2 ^ W - 1) + 1.
Proof.
  unfold NFree, lsb_msk. pose proof pow_W. rewrite Z.shiftl_1_l.
  assert (2 ^ 32 < 2 ^ 64) by reflexivity. rewrite (uwrap_small 64 (2 ^ W)) by lia. rewrite uwrap_small; lia.
Qed.

Lemma max_sz_big : 2 ^ 32 < Alloc.max_sz.
Proof. reflexivity. Qed.

Lemma single : Mantissa = 0 -> NFree = 1 /\ n_ok = 1 /\ szv 0 = 1 /\ _s_sz 0 = Ret 1.
Proof.
  intros HM. rewrite NFree_eq. unfold n_ok, szv, _s_sz, Alloc.bucket, Alloc.sz. rewrite HM. cbn.
  pose proof pow_W. rewrite uwrap_small by lia. done.
Qed.

Lemma multi : Mantissa <> 0 -> 1 <= Mantissa <= 8 /\ n_ok = NFree - 1.
Proof. intros HM. pose proof Mantissa_ok. unfold n_ok. destruct (Z.eqb_spec Mantissa 0); [done|lia]. Qed.

Lemma NFree_bound : 1 <= NFree < 2 ^ W /\ n_ok <= NFree /\ 0 <= n_ok.
Proof.
  pose proof pow_W. pose proof max_sz_big. destruct (decide (Mantissa = 0)) as [HM|HM].
  { destruct (single HM) as (-> & -> & _). lia. }
  destruct (multi HM) as [HM' ->]. rewrite NFree_eq.
  have (Alloc.bucket_range Mantissa HM' (2 ^ W - 1)). lia.
Qed.

Lemma NFree_lt_max : Mantissa <> 0 -> NFree - 1 < Alloc.bucket Mantissa Alloc.max_sz.
Proof.
  intros HM0. destruct (multi HM0) as [HM _]. rewrite NFree_eq, Alloc.bucket_max by done. pose proof pow_W.
  have (Alloc.bucket_mono Mantissa HM (2 ^ W - 1) (2 ^ 32 - 1)).
  enough (Alloc.bucket Mantissa (2 ^ 32 - 1) < (65 - Mantissa) * 2 ^ (Mantissa - 1) - 1) by lia.
  assert (forall M, 1 <= M <= 8 -> Alloc.bucket M (2 ^ 32 - 1) < (65 - M) * 2 ^ (M - 1) - 1) as HH; [|by apply HH].
  intros M ?. assert (M = 1 \/ M = 2 \/ M = 3 \/ M = 4 \/ M = 5 \/ M = 6 \/ M = 7 \/ M = 8) as Hc by lia.
  destruct Hc as [->|[->|[->|[->|[->|[->|[->| ->]]]]]]]; reflexivity.
Qed.

Lemma class_multi b : Mantissa <> 0 -> ok_bucket b ->
  _s_sz b = Ret (szv b) /\ 1 <= szv b < 2 ^ W - 1 /\
  Alloc.bucket Mantissa (szv b) = b /\ Alloc.bucket Mantissa (szv b + 1) = b + 1.
Proof.
  intros HM0 Hb. destruct (multi HM0) as [HM Hn]. unfold ok_bucket in Hb. rewrite Hn in Hb.
  pose proof (NFree_lt_max HM0). pose proof NFree_eq as HN. pose proof pow_W. pose proof max_sz_big.
  have (Alloc.bucket_sz Mantissa HM b) as (s & Hs & Hr & Hb1 & Hb2).
  assert (s < 2 ^ W - 1) as Hlt.
  { apply Z.nle_gt. intros Hle.
    have (Alloc.bucket_mono Mantissa HM (2 ^ W - 1) s). lia. }
  unfold szv, _s_sz. rewrite Hs. cbn -[uwrap]. rewrite uwrap_small by lia. split_and!; by (done || lia).
Qed.

Lemma class_spec b : ok_bucket b -> _s_sz b = Ret (szv b) /\ 1 <= szv b < 2 ^ W - 1.
Proof.
  intros Hb. destruct (decide (Mantissa = 0)) as [HM|HM].
  - destruct (single HM) as (_ & Hn & Hs & Hs'). unfold ok_bucket in Hb. rewrite Hn in Hb.
    assert (b = 0) as -> by lia. rewrite Hs, Hs'. pose proof pow_W. split; [done|lia].
  - destruct (class_multi b HM Hb) as (? & ? & _). done.
Qed.

Lemma last_class_ret : exists s, _s_sz (NFree - 1) = Ret s.
Proof.
  destruct (decide (Mantissa = 0)) as [HM|HM].
  { destruct (single HM) as (-> & _ & _ & Hs). change (1 - 1) with 0. by eexists. }
  pose proof (NFree_lt_max HM). pose proof NFree_bound. destruct (multi HM) as [HM' _].
  have (Alloc.bucket_sz Mantissa HM' (NFree - 1)) as (s & Hs & _).
  unfold _s_sz. rewrite Hs. by eexists.
Qed.

Lemma ok_sz_multi n : Mantissa <> 0 -> ok_sz n <-> 1 <= n < 2 ^ W /\ Alloc.bucket Mantissa n < NFree - 1.
Proof. intros HM. unfold ok_sz. by destruct (Z.eqb_spec Mantissa 0). Qed.

Lemma ok_sz_bucket n : ok_sz n ->
  _s_bucket n = Alloc.bucket Mantissa n /\ ok_bucket (Alloc.bucket Mantissa n) /\
  n <= szv (Alloc.bucket Mantissa n).
Proof.
  intros Hn. pose proof pow_W. pose proof max_sz_big. pose proof NFree_bound.
  destruct (decide (Mantissa = 0)) as [HM0|HM0].
  { destruct (single HM0) as (_ & Hno & Hs & _). unfold ok_sz in Hn. rewrite HM0 in Hn. cbn in Hn. subst n.
    unfold _s_bucket. assert (Alloc.bucket Mantissa 1 = 0) as -> by (unfold Alloc.bucket; by rewrite HM0).
    rewrite uwrap_small by lia. unfold ok_bucket. rewrite Hno, Hs. lia. }
  destruct (multi HM0) as [HM Hno]. rewrite ok_sz_multi in Hn by done. destruct Hn as [Hn Hb].
  have (Alloc.bucket_range Mantissa HM n) as Hr.
  assert (ok_bucket (Alloc.bucket Mantissa n)) as Hok by (unfold ok_bucket; lia).
  split; [unfold _s_bucket; apply uwrap_small; lia|]. split; [done|].
  destruct (class_spec _ Hok) as [Hs Hsr].
  have (Alloc.sz_bucket Mantissa HM n) as (s & Hs2 & Hns & Hcl).
  apply Z.nlt_ge. intros Hlt.
  unfold szv, _s_sz in Hs, Hlt. rewrite Hs2 in Hlt. cbn -[uwrap] in Hlt.
  destruct (Z.lt_ge_cases s (2 ^ W)) as [Hw|Hw]; [rewrite uwrap_small in Hlt; lia|].
  (* the capacity of the class would reach the last class *)
  have (Alloc.bucket_mono Mantissa HM (2 ^ W - 1) s) as Hm.
  rewrite (Hcl s ltac:(lia)) in Hm. rewrite NFree_eq in Hb. lia.
Qed.

Lemma ok_sz_le n m : Mantissa <> 0 -> ok_sz m -> 1 <= n <= m -> ok_sz n.
Proof.
  intros HM0 Hm Hn. rewrite ok_sz_multi in * by done. destruct (multi HM0) as [HM _].
  pose proof pow_W. pose proof max_sz_big. destruct Hm as [Hm Hb]. split; [lia|].
  have (Alloc.bucket_mono Mantissa HM n m). lia.
Qed.

Lemma ok_sz_szv b : Mantissa <> 0 -> ok_bucket b -> ok_sz (szv b).
Proof.
  intros HM0 Hb. destruct (class_multi b HM0 Hb) as (_ & ? & ? & _). destruct (multi HM0) as [_ Hn].
  unfold ok_bucket in Hb. apply ok_sz_multi; [done|]. split; lia.
Qed.
End classes.
End AllocFile.
