(* ===== verification/StoreAllocInv.v ===== *)
(** * Invariant of [AllocFile]: the blocks tile the file.

    The ghost state is the map of the blocks owned by clients, each with the size it was
    requested with and its content. Together with the blocks found by walking the free lists
    they cover each allocated cell exactly once: blocks never overlap and none is lost. *)
From S2P Require Import Prelude.
From S2P Require Import Arith.
From S2P Require Import StoreFile.
From S2P Require Import StoreAlloc.
From S2P Require Import StoreAllocFile.
Local Open Scope Z_scope.
Import AllocFile.

Module Blocks.

(** A block: first cell and number of cells *)
Abbreviation block := (Z * Z)%type.

Definition covers (b : block) (i : Z) : bool := bool_decide (b.1 <= i < b.1 + b.2).

(** Number of blocks of [bs] cell [i] lies in *)
Fixpoint cover (bs : list block) (i : Z) : nat :=
  match bs with [] => 0 | b :: bs => (if covers b i then 1 else 0) + cover bs i end%nat.

#[export] Instance cover_perm : Proper ((≡ₚ) ==> eq ==> eq) cover.
Proof.
  intros bs1 bs2 Hp i ? <-. induction Hp as [| |[] []|]; simpl; lia.
Qed.

Lemma cover_app bs1 bs2 i : cover (bs1 ++ bs2) i = (cover bs1 i + cover bs2 i)%nat.
Proof. induction bs1; simpl; lia. Qed.

Lemma cover_in bs b i : b ∈ bs -> covers b i = true -> (1 <= cover bs i)%nat.
Proof. induction 1 as [|b ? ? ? IH]; simpl; intros Hc; [by rewrite Hc; lia|apply IH in Hc; lia]. Qed.

Lemma cover_inv bs i : (1 <= cover bs i)%nat -> exists b, b ∈ bs /\ covers b i = true.
Proof.
  induction bs as [|b bs IH]; simpl; [lia|]. intros Hc. destruct (covers b i) eqn:Hb.
  - exists b. split; [left|done].
  - destruct IH as (b' & ? & ?); [lia|]. exists b'. split; [by right|done].
Qed.

Lemma covers_head i s : 1 <= s -> covers (i, s) i = true.
Proof. intros. apply bool_decide_eq_true. simpl. lia. Qed.

(** Cutting a block in two changes no count. *)
Lemma cover_split i s1 s2 bs j : 0 <= s1 -> 0 <= s2 ->
  cover ((i, s1 + s2) :: bs) j = cover ((i + s1, s2) :: (i, s1) :: bs) j.
Proof. intros. simpl. unfold covers. simpl. repeat case_bool_decide; lia. Qed.

(** [bs] tiles the cells from 1 to [n-1]. *)
Definition tiles (bs : list block) (n : Z) : Prop :=
  forall i, cover bs i = if bool_decide (1 <= i < n) then 1%nat else 0%nat.

#[export] Instance tiles_perm : Proper ((≡ₚ) ==> eq ==> iff) tiles.
Proof. intros bs1 bs2 Hp n ? <-. unfold tiles. by setoid_rewrite Hp. Qed.

Lemma tiles_le1 bs n i : tiles bs n -> (cover bs i <= 1)%nat.
Proof. intros ->. case_bool_decide; lia. Qed.

Lemma tiles_head_fresh i s bs n j s' : tiles ((i, s) :: bs) n -> 1 <= s ->
  (j, s') ∈ bs -> 1 <= s' -> j ≠ i.
Proof.
  intros Ht Hs Hin Hs' ->. pose proof (tiles_le1 _ _ i Ht) as Hle. simpl in Hle.
  rewrite covers_head in Hle by done.
  pose proof (cover_in _ _ i Hin (covers_head i s' Hs')). lia.
Qed.

Lemma tiles_range bs n i s : tiles bs n -> (i, s) ∈ bs -> 1 <= s -> 1 <= i /\ i + s <= n.
Proof.
  intros Ht Hin Hs. split.
  - pose proof (cover_in _ _ i Hin (covers_head i s Hs)) as Hc. rewrite Ht in Hc. case_bool_decide; lia.
  - assert (covers (i, s) (i + s - 1) = true) as Hl by (apply bool_decide_eq_true; simpl; lia).
    pose proof (cover_in _ _ _ Hin Hl) as Hc. rewrite Ht in Hc. case_bool_decide; lia.
Qed.

Lemma tiles_append bs n s : tiles bs n -> 1 <= n -> 0 <= s -> tiles ((n, s) :: bs) (n + s).
Proof.
  intros Ht Hn Hs i. simpl. rewrite Ht. unfold covers. simpl. repeat case_bool_decide; lia.
Qed.

Lemma tiles_split i s1 s2 bs n : 0 <= s1 -> 0 <= s2 ->
  tiles ((i, s1 + s2) :: bs) n -> tiles ((i + s1, s2) :: (i, s1) :: bs) n.
Proof. intros H1 H2 Ht j. rewrite <- Ht. by rewrite cover_split. Qed.
End Blocks.
Import Blocks.

(** ** Free lists *)

Section chain.
Context {D : Type}.
Implicit Types m : gmap Z (cell D).

(** The free list headed by [h] is made of the blocks at [l]. *)
Inductive chain (m : gmap Z (cell D)) : Z -> list Z -> Prop :=
| chain_nil : chain m 0 []
| chain_cons h n l : h ≠ 0 -> m !! h = Some (Nxt n) -> chain m n l -> chain m h (h :: l).

Lemma chain_frame m h l i c : chain m h l -> i ∉ l -> chain (<[i := c]> m) h l.
Proof.
  induction 1 as [|h n l Hh Hm Hc IH]; intros Hi; [constructor|].
  rewrite not_elem_of_cons in Hi. destruct Hi.
  econstructor; [done|by rewrite lookup_insert_ne by done|auto].
Qed.

Lemma chain_inv m h l : chain m h l -> h ≠ 0 ->
  exists n l', l = h :: l' /\ m !! h = Some (Nxt n) /\ chain m n l'.
Proof. destruct 1; naive_solver. Qed.

Lemma chain_inv0 m l : chain m 0 l -> l = [].
Proof. inversion 1; naive_solver. Qed.
End chain.

(** ** The invariant *)

Section inv.
Context {P : Params} {HP : ParamsOk P} {D : Type}.
Implicit Types (f : t D) (h : gmap Z (Z * D)) (cs : list (list Z)).

Abbreviation bucket := (Alloc.bucket Mantissa).

(** Blocks in the free lists [cs], the first one being that of class [b] *)
Fixpoint free_blocks (b : Z) cs : list block :=
  match cs with [] => [] | l :: cs => ((fun i => (i, szv b)) <$> l) ++ free_blocks (b + 1) cs end.

Definition live_block (e : Z * (Z * D)) : block := (e.1, szv (bucket e.2.1)).
Definition live_blocks h : list block := live_block <$> map_to_list h.

(** [ex] holds blocks that are being cut, owned by nobody. *)
Record inv f (ex : list block) h cs : Prop := {
  inv_free : length (free f) = Z.to_nat NFree;
  inv_last k hd : n_ok <= Z.of_nat k -> free f !! k = Some hd -> hd = 0;
  inv_cs : length cs = Z.to_nat n_ok;
  inv_chain k l hd : cs !! k = Some l -> free f !! k = Some hd -> chain (mem f) hd l;
  inv_live i n d : h !! i = Some (n, d) -> ok_sz n /\ mem f !! i = Some (Data d);
  inv_tiles : tiles (ex ++ live_blocks h ++ free_blocks 0 cs) (size f);
  inv_size : 1 <= size f < 2 ^ NIdxBits;
  inv_raw : RawFile.wf (StructFile.Capacity sizeof_Hdr sizeof_Data NIdxBits) (StructFile.raw (base f));
  inv_phys : StructFile._offset sizeof_Hdr sizeof_Data (size f) <= RawFile.size (StructFile.raw (base f));
}.

(** The file holds the blocks of [h] and nothing else. *)
Definition repr f h : Prop := exists cs, inv f [] h cs.

Lemma free_blocks_push cs k l i b : cs !! k = Some l ->
  free_blocks b (<[k := i :: l]> cs) ≡ₚ (i, szv (b + Z.of_nat k)) :: free_blocks b cs.
Proof.
  revert k b. induction cs as [|l0 cs IH]; intros k b Hk; [done|].
  destruct k as [|k]; simpl in *; simplify_eq.
  - by rewrite Z.add_0_r.
  - rewrite IH by done. replace (b + 1 + Z.of_nat k) with (b + Z.of_nat (S k)) by lia. by rewrite Permutation_middle.
Qed.

Lemma free_blocks_pop cs k l i b : cs !! k = Some (i :: l) ->
  free_blocks b cs ≡ₚ (i, szv (b + Z.of_nat k)) :: free_blocks b (<[k := l]> cs).
Proof.
  intros Hk. rewrite <- (free_blocks_push (<[k := l]> cs) k l).
  - rewrite list_insert_insert_eq. by rewrite list_insert_id.
  - apply list_lookup_insert_eq. by eapply lookup_lt_Some.
Qed.

Lemma free_blocks_in cs k l i b : cs !! k = Some l -> i ∈ l -> (i, szv (b + Z.of_nat k)) ∈ free_blocks b cs.
Proof.
  revert k b. induction cs as [|l0 cs IH]; intros k b Hk Hi; [done|].
  destruct k as [|k]; simpl in *; simplify_eq; apply elem_of_app.
  - left. rewrite Z.add_0_r. by apply list_elem_of_fmap; eexists.
  - right. replace (b + Z.of_nat (S k)) with (b + 1 + Z.of_nat k) by lia. eauto.
Qed.

Lemma live_blocks_insert h i n d : h !! i = None ->
  live_blocks (<[i := (n, d)]> h) ≡ₚ (i, szv (bucket n)) :: live_blocks h.
Proof. intros Hi. unfold live_blocks. by rewrite map_to_list_insert. Qed.

Lemma live_blocks_delete h i n d : h !! i = Some (n, d) ->
  live_blocks h ≡ₚ (i, szv (bucket n)) :: live_blocks (delete i h).
Proof. intros Hi. unfold live_blocks. by rewrite <- (map_to_list_delete h i (n, d)). Qed.

Lemma live_blocks_in h i n d : h !! i = Some (n, d) -> (i, szv (bucket n)) ∈ live_blocks h.
Proof. intros. rewrite live_blocks_delete by done. left. Qed.

Lemma live_blocks_inv h i s : (i, s) ∈ live_blocks h -> exists n d, h !! i = Some (n, d) /\ s = szv (bucket n).
Proof.
  intros Hin. apply list_elem_of_fmap in Hin as ([j [n d]] & Hj & Hin). unfold live_block in Hj. simpl in Hj.
  simplify_eq. apply elem_of_map_to_list in Hin. eauto.
Qed.

Lemma szv_pos b : ok_bucket b -> 1 <= szv b.
Proof. intros Hb. destruct (class_spec b Hb). lia. Qed.

Lemma cs_bucket f ex h cs k l : inv f ex h cs -> cs !! k = Some l -> ok_bucket (Z.of_nat k).
Proof.
  intros Hi Hk. apply lookup_lt_Some in Hk. rewrite (inv_cs _ _ _ _ Hi) in Hk. unfold ok_bucket. lia.
Qed.

Lemma free_blocks_pos_from cs b i s : 0 <= b -> b + Z.of_nat (length cs) <= n_ok ->
  (i, s) ∈ free_blocks b cs -> 1 <= s.
Proof.
  revert b. induction cs as [|l cs IH]; simpl; intros b Hb Hle Hin; [by apply not_elem_of_nil in Hin|].
  apply elem_of_app in Hin as [Hin|Hin]; [|by apply (IH (b + 1)); [lia|lia|]].
  apply list_elem_of_fmap in Hin as (j & Hj & _). simplify_eq. apply szv_pos. unfold ok_bucket. lia.
Qed.

Lemma free_blocks_pos f ex h cs i s : inv f ex h cs -> (i, s) ∈ free_blocks 0 cs -> 1 <= s.
Proof.
  intros Hi. pose proof (inv_cs _ _ _ _ Hi) as Hl. pose proof NFree_bound.
  apply free_blocks_pos_from; lia.
Qed.

Lemma bucket_chain f ex h cs b : inv f ex h cs -> ok_bucket b -> exists hd l,
  _free b f = Ret hd /\ free f !! Z.to_nat b = Some hd /\ cs !! Z.to_nat b = Some l /\ chain (mem f) hd l.
Proof.
  intros Hi Hb. unfold ok_bucket in Hb. pose proof NFree_bound.
  destruct (lookup_lt_is_Some_2 (free f) (Z.to_nat b)) as [hd Hhd]; [rewrite (inv_free _ _ _ _ Hi); lia|].
  destruct (lookup_lt_is_Some_2 cs (Z.to_nat b)) as [l Hl]; [rewrite (inv_cs _ _ _ _ Hi); lia|].
  exists hd, l. split_and!; [|done|done|by eapply inv_chain].
  unfold _free. rewrite swear_bind by (apply Z.ltb_lt; lia). by rewrite Hhd.
Qed.

(** A block owned by nobody is neither live nor free. *)
Lemma inv_fresh f i s ex h cs : inv f ((i, s) :: ex) h cs -> 1 <= s ->
  1 <= i /\ i + s <= size f /\ h !! i = None /\ forall k l, cs !! k = Some l -> i ∉ l.
Proof.
  intros Hi Hs. pose proof (inv_tiles _ _ _ _ Hi) as Ht.
  destruct (tiles_range _ _ i s Ht) as [? ?]; [left|done|]. split_and!; [done|done| |].
  - destruct (h !! i) as [[n d]|] eqn:Hh; [|done]. exfalso.
    destruct (inv_live _ _ _ _ Hi _ _ _ Hh) as [Hn _].
    destruct (ok_sz_bucket _ Hn) as (_ & Hb & _).
    eapply (tiles_head_fresh i s _ _ i _ Ht); [done| |by apply szv_pos|done].
    apply elem_of_app. right. apply elem_of_app. left. by eapply live_blocks_in.
  - intros k l Hk Hil. eapply (tiles_head_fresh i s _ _ i _ Ht); [done| | |done].
    + apply elem_of_app. right. apply elem_of_app. right. by eapply free_blocks_in.
    + apply szv_pos. by eapply cs_bucket.
Qed.

Lemma inv_perm f ex ex' h cs : ex ≡ₚ ex' -> inv f ex h cs -> inv f ex' h cs.
Proof. intros Hp []. split; try done. by rewrite <- Hp. Qed.

(** A block leaves the hands of its owner. *)
Lemma inv_disown f ex h cs i n d : inv f ex h cs -> h !! i = Some (n, d) ->
  inv f ((i, szv (bucket n)) :: ex) (delete i h) cs.
Proof.
  intros [] Hi. split; try done.
  - intros j n' d' Hj. apply lookup_delete_Some in Hj as [_ Hj]. eauto.
  - rewrite (live_blocks_delete h) in inv_tiles0 by done.
    simpl. rewrite Permutation_middle. done.
Qed.

(** A block is handed out, its first cell being constructed. *)
Lemma inv_adopt f ex h cs i n d : inv f ((i, szv (bucket n)) :: ex) h cs -> ok_sz n ->
  inv (set_mem f (<[i := Data d]> (mem f))) ex (<[i := (n, d)]> h) cs.
Proof.
  intros Hi Hn. destruct (ok_sz_bucket _ Hn) as (_ & Hb & _).
  destruct (inv_fresh _ _ _ _ _ _ Hi (szv_pos _ Hb)) as (H1 & H2 & Hh & Hf). destruct Hi.
  split; try done.
  - intros k l hd Hk Hhd. apply chain_frame; eauto.
  - intros j n' d' Hj. cbn. destruct (decide (j = i)) as [->|Hne].
    + rewrite lookup_insert_eq in Hj. rewrite lookup_insert_eq. naive_solver.
    + rewrite lookup_insert_ne in Hj by done. rewrite lookup_insert_ne by done. eauto.
  - rewrite live_blocks_insert by done. simpl. rewrite <- Permutation_middle. done.
Qed.

(** A block is pushed on, or popped from, the free list of its class. *)
Lemma inv_push f ex h cs i b hd l : inv f ((i, szv b) :: ex) h cs -> ok_bucket b ->
  free f !! Z.to_nat b = Some hd -> cs !! Z.to_nat b = Some l ->
  inv (_set_free b i (set_mem f (<[i := Nxt hd]> (mem f)))) ex h (<[Z.to_nat b := i :: l]> cs).
Proof.
  intros Hi Hb Hhd Hl. destruct (inv_fresh _ _ _ _ _ _ Hi (szv_pos _ Hb)) as (H1 & H2 & Hh & Hf).
  destruct Hi. unfold ok_bucket in Hb. split; try done.
  - cbn. by rewrite length_insert.
  - cbn. intros k' hd' Hk'. rewrite list_lookup_insert_ne by lia. eauto.
  - by rewrite length_insert.
  - cbn. intros k l' hd' Hk Hhd'. destruct (decide (k = Z.to_nat b)) as [->|Hne].
    + rewrite list_lookup_insert_eq in Hk by (by eapply lookup_lt_Some).
      rewrite list_lookup_insert_eq in Hhd' by (by eapply lookup_lt_Some). simplify_eq.
      econstructor; [lia|by apply lookup_insert_eq|]. apply chain_frame; eauto.
    + rewrite list_lookup_insert_ne in Hk by done. rewrite list_lookup_insert_ne in Hhd' by done. apply chain_frame; eauto.
  - cbn. intros j n d Hj. rewrite lookup_insert_ne by congruence. eauto.
  - rewrite (free_blocks_push _ _ l) by done. rewrite Z2Nat.id by lia.
    rewrite (app_assoc ex), <- Permutation_middle, <- app_assoc. done.
Qed.

Lemma inv_unlink f ex h cs b hd n l : inv f ex h cs -> ok_bucket b ->
  free f !! Z.to_nat b = Some hd -> cs !! Z.to_nat b = Some (hd :: l) -> chain (mem f) n l ->
  inv (_set_free b n f) ((hd, szv b) :: ex) h (<[Z.to_nat b := l]> cs).
Proof.
  intros Hi Hb Hhd Hl Hc. destruct Hi. unfold ok_bucket in Hb. split; try done.
  - cbn. by rewrite length_insert.
  - cbn. intros k' hd' Hk'. rewrite list_lookup_insert_ne by lia. eauto.
  - by rewrite length_insert.
  - cbn. intros k l' hd' Hk Hhd'. destruct (decide (k = Z.to_nat b)) as [->|Hne].
    + rewrite list_lookup_insert_eq in Hk by (by eapply lookup_lt_Some).
      rewrite list_lookup_insert_eq in Hhd' by (by eapply lookup_lt_Some). by simplify_eq.
    + rewrite list_lookup_insert_ne in Hk by done. rewrite list_lookup_insert_ne in Hhd' by done. eauto.
  - rewrite (free_blocks_pop _ _ l hd) in inv_tiles0 by done. rewrite Z2Nat.id in inv_tiles0 by lia.
    simpl. rewrite (app_assoc ex), Permutation_middle, <- app_assoc. done.
Qed.

Lemma inv_readopt f ex h cs i n d : inv f ((i, szv (bucket n)) :: ex) h cs -> ok_sz n ->
  mem f !! i = Some (Data d) -> inv f ex (<[i := (n, d)]> h) cs.
Proof.
  intros Hi Hn Hd. pose proof (inv_adopt _ _ _ _ _ _ d Hi Hn) as Ha.
  rewrite insert_id in Ha by done. by destruct f as [[] ].
Qed.

Lemma inv_append f ex h cs s r : inv f ex h cs -> 1 <= s -> size f + s < 2 ^ NIdxBits ->
  RawFile.wf (StructFile.Capacity sizeof_Hdr sizeof_Data NIdxBits) r ->
  StructFile._offset sizeof_Hdr sizeof_Data (size f + s) <= RawFile.size r ->
  inv (mk (StructFile.mk r (size f + s) (mem f)) (free f)) ((size f, s) :: ex) h cs.
Proof.
  intros [] Hs Hn Hw Ho. split; try done.
  - apply (tiles_append _ (size f)); [done|lia|lia].
  - cbn. lia.
Qed.

(** ** The operations *)

Lemma chk_writable_ok f : writable f = true -> chk_writable f = Ret tt.
Proof. intros Hw. unfold chk_writable, RawFile.chk_writable. unfold writable in Hw. by rewrite Hw. Qed.

Lemma dealloc_ok f ex h cs i b : inv f ((i, szv b) :: ex) h cs -> ok_bucket b -> writable f = true ->
  exists f' cs', _dealloc i b f = Ret f' /\ inv f' ex h cs' /\ (writable f' = true /\ size f' = size f) /\
                 forall j, j ≠ i -> mem f' !! j = mem f !! j.
Proof.
  intros Hi Hb Hw. destruct (bucket_chain _ _ _ _ _ Hi Hb) as (hd & l & Hf & Hhd & Hl & _).
  destruct (inv_fresh _ _ _ _ _ _ Hi (szv_pos _ Hb)) as (H1 & _).
  eexists _, _. split.
  { unfold _dealloc. rewrite chk_writable_ok by done. simpl. rewrite Hf. simpl.
    rewrite swear_bind; [done|]. apply negb_true_iff, Z.eqb_neq. lia. }
  split; [by eapply inv_push|]. split; [done|].
  intros j Hj. cbn. by rewrite lookup_insert_ne by done.
Qed.

Lemma dealloc_readonly i b f : writable f = false -> exists e, _dealloc i b f = Throw e.
Proof.
  unfold _dealloc, chk_writable, RawFile.chk_writable, writable. intros ->. by eexists.
Qed.

(** The class chosen for the extra room is valid, not empty, and fits. *)
Lemma extra_bucket_ok n : Mantissa <> 0 -> ok_sz n -> exists b, _extra_bucket n = Ret (b, szv b) /\ ok_bucket b /\ szv b <= n.
Proof.
  intros HM0 Hn. destruct (multi HM0) as [HM Hno]. destruct (ok_sz_bucket _ Hn) as (Hb & Hok & Hle).
  destruct (class_multi _ HM0 Hok) as (Hs & Hr & Hbk & _). unfold _extra_bucket. rewrite Hb, Hs. simpl.
  rewrite swear_bind by (apply Z.leb_le; lia).
  destruct (Z.ltb_spec n (szv (bucket n))) as [Hlt|Hge].
  2:{ exists (bucket n). simpl. rewrite swear_bind by (apply Z.leb_le; lia). split_and!; by (lia || done). }
  apply ok_sz_multi in Hn as [Hn _]; [|done]. pose proof pow_W. pose proof max_sz_big. pose proof NFree_bound.
  assert (bucket n <> 0) as Hz.
  { intros Hz. rewrite Hz in *. have (Alloc.bucket_mono Mantissa HM 2 (szv 0)).
    assert (2 ^ 1 <= 2 ^ Mantissa) by (apply Z.pow_le_mono_r; lia).
    have (Alloc.bucket_linear Mantissa HM 2). lia. }
  unfold ok_bucket in Hok. rewrite uwrap_small by lia.
  assert (ok_bucket (bucket n - 1)) as Hok' by (unfold ok_bucket; lia).
  destruct (class_multi _ HM0 Hok') as (Hs' & Hr' & Hb' & _). exists (bucket n - 1).
  assert (szv (bucket n - 1) <= n).
  { apply Z.nlt_ge. intros Hlt'. have (Alloc.bucket_mono Mantissa HM n (szv (bucket n - 1))). lia. }
  rewrite Hs'. simpl. rewrite swear_bind by (by apply Z.leb_le). done.
Qed.

Lemma NIdxBits_W : 2 ^ NIdxBits <= 2 ^ W.
Proof. pose proof NIdxBits_ok. apply Z.pow_le_mono_r; lia. Qed.

(** The loop of [_shorten] terminates within its fuel and only releases cells past [new]. *)
Lemma shorten_loop_ok fuel f ex h cs i new old :
  Mantissa <> 0 -> inv f ((i, old) :: ex) h cs -> ok_sz old -> 1 <= new <= old -> writable f = true ->
  old - new <= Z.of_nat fuel ->
  exists f' cs', _shorten_loop fuel i new old f = Ret f' /\ inv f' ((i, new) :: ex) h cs' /\
    writable f' = true /\ mem f' !! i = mem f !! i.
Proof.
  intros HM0. revert f cs old. induction fuel as [|fuel IH]; intros f cs old Hi Ho Hr Hw Hf.
  all: simpl; destruct (Z.ltb_spec new old) as [Hlt|Hge];
    [|assert (old = new) as -> by lia; eauto 10].
  { lia. }
  assert (ok_sz (old - new)) as Hx by (apply (ok_sz_le _ old); [done|done|lia]).
  destruct (inv_fresh _ _ _ _ _ _ Hi ltac:(lia)) as (H1 & H2 & _).
  destruct (extra_bucket_ok _ HM0 Hx) as (b & -> & Hb & Hle). simpl.
  pose proof (szv_pos _ Hb). pose proof NIdxBits_W. pose proof (inv_size _ _ _ _ Hi).
  rewrite uwrap_small by lia.
  destruct (dealloc_ok f ((i, old - szv b) :: ex) h cs (i + (old - szv b)) b)
    as (f1 & cs1 & -> & Hi1 & [Hw1 _] & Hm1); [|done|done|].
  { destruct Hi. split; try done. simpl. apply tiles_split; [lia|lia|].
    by replace (old - szv b + szv b) with old by lia. }
  simpl. destruct (IH f1 cs1 (old - szv b) Hi1) as (f2 & cs2 & Hl2 & Hi2 & Hw2 & Hm2);
    [apply (ok_sz_le _ old); [done|done|lia]|lia|done|lia|].
  exists f2, cs2. split_and!; [done|done|done|]. rewrite Hm2. apply Hm1. lia.
Qed.

Lemma layout_ok n : 1 <= n <= 2 ^ NIdxBits ->
  0 <= StructFile._offset sizeof_Hdr sizeof_Data n <= StructFile.Capacity sizeof_Hdr sizeof_Data NIdxBits /\
  StructFile.Capacity sizeof_Hdr sizeof_Data NIdxBits <= 2 ^ 62.
Proof.
  intros Hn. pose proof sizeof_Hdr_ok as Hh. pose proof sizeof_Data_ok as Hd. pose proof NIdxBits_ok as HN.
  pose proof W_ok. assert (1 <= NIdxBits <= 32) as HN' by lia.
  have (StructFile._offset_bound _ _ _ Hh Hd HN' n).
  assert (1 <= 2 ^ NIdxBits <= 2 ^ NIdxBits) as Hp by lia.
  have (StructFile._offset_bound _ _ _ Hh Hd HN' _ Hp).
  have (StructFile._offset_mono _ _ _ Hh Hd HN' n (2 ^ NIdxBits)). unfold StructFile.Capacity. nia.
Qed.

Lemma emplace_back_spec f ex h cs s c : inv f ex h cs -> 1 <= s < 2 ^ W ->
  match StructFile._emplace_back sizeof_Hdr sizeof_Data W NIdxBits PAGE_SZ s c (base f) with
  | Ret (b, res) => res = size f /\ RawFile.writable (StructFile.raw b) = true /\ exists r,
      b = StructFile.mk r (size f + s) (<[size f := c]> (mem f)) /\
      inv (mk (StructFile.mk r (size f + s) (mem f)) (free f)) ((size f, s) :: ex) h cs
  | Throw _ => writable f = false
  | Crash => 2 ^ NIdxBits <= size f + s
  end.
Proof.
  intros Hi Hs. unfold StructFile._emplace_back. fold (size f). pose proof NIdxBits_W as HW.
  destruct (inv_size _ _ _ _ Hi) as [Hs1 Hs2].
  destruct (Z.lt_ge_cases (size f + s) (2 ^ NIdxBits)) as [Hlt|Hge].
  2:{ assert ((size f <=? uwrap W (size f + s)) && (uwrap W (size f + s) <? 2 ^ NIdxBits) = false)%bool as ->; [|done].
      destruct (Z.lt_ge_cases (size f + s) (2 ^ W)) as [Hw|Hw].
      - rewrite uwrap_small by lia. destruct (Z.ltb_spec (size f + s) (2 ^ NIdxBits)); [lia|]. by rewrite andb_false_r.
      - unfold uwrap. rewrite <- (Z.mod_add _ (-1)), Z.mod_small by lia.
        destruct (Z.leb_spec (size f) (size f + s + -1 * 2 ^ W)); [lia|done]. }
  rewrite uwrap_small by lia.
  rewrite swear_bind by (apply andb_true_iff; split; [apply Z.leb_le|apply Z.ltb_lt]; lia).
  destruct (writable f) eqn:Hw; unfold writable in Hw.
  2:{ unfold RawFile.expand, RawFile.chk_writable. by rewrite Hw. }
  have (layout_ok (size f + s)).
  assert (0 <= StructFile.Capacity sizeof_Hdr sizeof_Data NIdxBits <= 2 ^ 62) as HC by lia.
  destruct (RawFile.expand_spec _ PAGE_SZ PAGE_SZ_ok HC (StructFile._offset sizeof_Hdr sizeof_Data (size f + s)) _ (inv_raw _ _ _ _ Hi) Hw)
    as (r & -> & Hr & Hwr & Hm); [lia|].
  simpl. unfold StructFile._emplace, RawFile.chk_writable. cbn. rewrite Hwr. cbn.
  rewrite swear_bind by (apply negb_true_iff, Z.eqb_neq; lia). split; [done|]. split; [done|].
  exists r. split; [done|]. eapply inv_append; [done|lia|done|done|lia].
Qed.

Lemma emplace_spec f h n d : repr f h -> ok_sz n ->
  match _emplace n d f with
  | Ret (f', i) => h !! i = None /\ i ≠ 0 /\ repr f' (<[i := (n, d)]> h) /\ writable f' = true
  | Throw _ => writable f = false
  | Crash => _free (bucket n) f = Ret 0 /\ 2 ^ NIdxBits <= size f + szv (bucket n)
  end.
Proof.
  intros [cs Hi] Hn. destruct (ok_sz_bucket _ Hn) as (Hb & Hok & _). unfold _emplace. rewrite Hb.
  destruct (bucket_chain _ _ _ _ _ Hi Hok) as (hd & l & Hf & Hhd & Hl & Hc). rewrite Hf. simpl.
  destruct (class_spec _ Hok) as [Hsz Hr].
  destruct (Z.eqb_spec hd 0) as [->|Hnz].
  - rewrite Hsz. simpl. have (emplace_back_spec f [] h cs (szv (bucket n)) (Data d) Hi) as He.
    destruct (StructFile._emplace_back _ _ _ _ _ _ _ _) as [[b i]| |]; [|done|done].
    destruct He as (-> & Hw & r & -> & Hi'). simpl. destruct (inv_size _ _ _ _ Hi).
    destruct (inv_fresh _ _ _ _ _ _ Hi' ltac:(lia)) as (_ & _ & Hh & _).
    split_and!; [done|lia| |done]. exists cs. by apply (inv_adopt _ _ _ _ _ _ d Hi').
  - destruct (chain_inv _ _ _ Hc Hnz) as (nx & l' & -> & Hm & Hc'). unfold _nxt. rewrite Hm. simpl.
    unfold StructFile._emplace, RawFile.chk_writable. fold (writable f). destruct (writable f) eqn:Hw; [|done].
    cbn. destruct (Z.eqb_spec hd 0); [done|]. cbn.
    pose proof (inv_unlink _ _ _ _ _ _ _ _ Hi Hok Hhd Hl Hc') as Hi'.
    destruct (inv_fresh _ _ _ _ _ _ Hi' ltac:(lia)) as (_ & _ & Hh & _).
    split_and!; [done|done| |done]. eexists. by apply (inv_adopt _ _ _ _ _ _ d Hi').
Qed.

Lemma pop_spec f h i n d : repr f h -> h !! i = Some (n, d) ->
  match _pop i n f with
  | Ret f' => repr f' (delete i h) /\ writable f' = true /\ size f' = size f
  | Throw _ => writable f = false
  | Crash => False
  end.
Proof.
  intros [cs Hi] Hh. destruct (inv_live _ _ _ _ Hi _ _ _ Hh) as [Hn _].
  destruct (ok_sz_bucket _ Hn) as (Hb & Hok & _).
  pose proof (inv_disown _ _ _ _ _ _ _ Hi Hh) as Hi'.
  destruct (inv_fresh _ _ _ _ _ _ Hi' (szv_pos _ Hok)) as (H1 & _).
  unfold _pop. destruct (Z.eqb_spec i 0); [lia|]. rewrite Hb.
  destruct (writable f) eqn:Hw.
  - rewrite chk_writable_ok by done. simpl.
    destruct (dealloc_ok _ _ _ _ _ _ Hi' Hok Hw) as (f' & cs' & -> & Hi2 & Hw2 & _). split; [|done]. by exists cs'.
  - unfold chk_writable, RawFile.chk_writable. unfold writable in Hw. by rewrite Hw.
Qed.

Lemma shorten_spec f h i n m d : Mantissa <> 0 -> repr f h -> h !! i = Some (n, d) -> 0 <= m <= n ->
  match _shorten i n m f with
  | Ret f' => repr f' (if m =? 0 then delete i h else <[i := (m, d)]> h)
  | Throw _ => writable f = false
  | Crash => False
  end.
Proof.
  intros HM0 Hr Hh Hm. destruct (multi HM0) as [HM _]. unfold _shorten. destruct (Z.eqb_spec m 0) as [->|Hm0].
  { pose proof (pop_spec _ _ _ _ _ Hr Hh) as Hp. by destruct (_pop i n f) as [f'| |]; [destruct Hp| |]. }
  destruct (Z.eqb_spec m n) as [->|Hne]; [by rewrite insert_id|].
  rewrite swear_bind by (apply Z.leb_le; lia).
  destruct (writable f) eqn:Hw.
  2:{ unfold chk_writable, RawFile.chk_writable. unfold writable in Hw. by rewrite Hw. }
  rewrite chk_writable_ok by done. simpl.
  destruct Hr as [cs Hi]. destruct (inv_live _ _ _ _ Hi _ _ _ Hh) as [Hn Hd].
  assert (ok_sz m) as Hok by (apply (ok_sz_le _ n); [done|done|lia]).
  destruct (ok_sz_bucket _ Hn) as (-> & Hbn & Hln). destruct (ok_sz_bucket _ Hok) as (-> & Hbm & Hlm).
  
  destruct (class_multi _ HM0 Hbn) as (-> & Hrn & Hbn' & _). destruct (class_multi _ HM0 Hbm) as (-> & Hrm & Hbm' & _). simpl.
  assert (bucket m <= bucket n) as Hle.
  { pose proof pow_W. pose proof max_sz_big. apply ok_sz_multi in Hn as [Hn _]; [|done].
    have (Alloc.bucket_mono Mantissa HM m n). lia. }
  assert (szv (bucket m) <= szv (bucket n)) as Hle'.
  { apply Z.nlt_ge. intros Hlt. pose proof pow_W. pose proof max_sz_big.
    destruct (decide (bucket m = bucket n)) as [He|]; [rewrite He in Hlt; lia|].
    have (Alloc.bucket_mono Mantissa HM (szv (bucket n)) (szv (bucket m))). lia. }
  destruct (shorten_loop_ok (Z.to_nat (szv (bucket n) - szv (bucket m))) f [] (delete i h) cs i
    (szv (bucket m)) (szv (bucket n))) as (f' & cs' & -> & Hi' & _ & Hmem);
    [done|by eapply inv_disown|by apply ok_sz_szv|lia|done|lia|].
  simpl. rewrite swear_bind by (by apply Z.leb_le). exists cs'.
  rewrite <- (insert_delete_eq h). apply inv_readopt; [done|done|]. by rewrite Hmem.
Qed.

Lemma init_spec r : RawFile.size r = 0 -> RawFile.writable r = true ->
  exists f, init (D := D) r = Ret f /\ repr f ∅ /\ writable f = true.
Proof.
  intros Hs Hw. unfold init, StructFile.init. rewrite Hs, Hw. cbn.
  assert (2 ^ 1 <= 2 ^ NIdxBits) by (apply Z.pow_le_mono_r; pose proof NIdxBits_ok; lia).
  have (layout_ok 1). assert (0 <= StructFile.Capacity sizeof_Hdr sizeof_Data NIdxBits <= 2 ^ 62) as HC by lia.
  destruct (RawFile.expand_spec _ PAGE_SZ PAGE_SZ_ok HC (StructFile._offset sizeof_Hdr sizeof_Data 1) r)
    as (r' & -> & Hr & Hwr & Hm); [unfold RawFile.wf; lia|done|lia|].
  simpl. eexists. split; [done|]. split; [|done]. pose proof NFree_bound.
  exists (replicate (Z.to_nat n_ok) []). split; cbn.
  - by rewrite length_replicate.
  - by intros k hd _ [-> _]%lookup_replicate.
  - by rewrite length_replicate.
  - intros k l hd [-> _]%lookup_replicate [-> _]%lookup_replicate. constructor.
  - by intros ???; rewrite lookup_empty.
  - assert (forall k b, free_blocks b (replicate k []) = []) as -> by (induction k; intros; simpl; eauto).
    unfold live_blocks. rewrite map_to_list_empty. intros i. simpl. case_bool_decide; [lia|done].
  - lia.
  - done.
  - lia.
Qed.
End inv.

(** Releases keep the size of the file. *)
Section sizes.
Context {P : Params} {D : Type}.

Lemma dealloc_size i b (f f' : t D) : _dealloc i b f = Ret f' -> size f' = size f /\ writable f' = writable f.
Proof. unfold _dealloc. intros H. inv_ret. by subst. Qed.
Lemma shorten_loop_size fuel i n o (f f' : t D) : _shorten_loop fuel i n o f = Ret f' -> size f' = size f /\ writable f' = writable f.
Proof.
  revert o f. induction fuel as [|fuel IH]; intros o f; cbn [_shorten_loop]; destruct (n <? o); try done; try (by intros [= <-]). intros H. apply bind_ret in H as ([b e] & _ & H). apply bind_ret in H as (f1 & H1 & H).
  apply dealloc_size in H1 as [<- <-]. by apply IH in H.
Qed.
Lemma shorten_size i n o (f f' : t D) : n <> 0 -> _shorten i o n f = Ret f' -> size f' = size f /\ writable f' = writable f.
Proof.
  unfold _shorten. rewrite <- Z.eqb_neq. intros ->. destruct (n =? o); [by intros [= <-]|]. intros H. inv_ret. subst. by eapply shorten_loop_size.
Qed.
End sizes.
#[export] Hint Resolve szv_pos : lmake.
