(* ===== verification/StoreAllocThm.v ===== *)
(** * Correctness of [AllocFile]: the consistency check, listing, and reachable files. *)
From S2P Require Import Prelude.
From S2P Require Import Arith.
From S2P Require Import StoreFile.
From S2P Require Import StoreAlloc.
From S2P Require Import StoreAllocFile.
From S2P Require Import StoreAllocInv.
Local Open Scope Z_scope.
Import AllocFile Blocks.

Section chk.
Context {P : Params} {HP : ParamsOk P} {D : Type}.
Implicit Types (f : t D) (fm : gmap Z Z).

(** [free_map] marks exactly the cells of the blocks [bs]. *)
Definition marks fm (bs : list block) : Prop := forall j, fm !! j = None <-> cover bs j = 0%nat.

Lemma mark_spec n i b fm : (forall j, i <= j < i + Z.of_nat n -> fm !! j = None) ->
  exists fm', mark n i b fm = Ret fm' /\
    forall j, fm' !! j = None <-> fm !! j = None /\ ~ (i <= j < i + Z.of_nat n).
Proof.
  revert i fm. induction n as [|n IH]; intros i fm Hf; simpl.
  { exists fm. split; [done|]. intros j. split; [intros; split; [done|lia]|tauto]. }
  rewrite swear_bind by (apply bool_decide_eq_true, Hf; lia).
  destruct (IH (i + 1) (<[i := b + 1]> fm)) as (fm' & -> & Hfm').
  { intros j Hj. rewrite lookup_insert_ne by lia. apply Hf. lia. }
  exists fm'. split; [done|]. intros j. rewrite Hfm'.
  destruct (decide (i = j)) as [->|Hne].
  - rewrite lookup_insert_eq. split; [by intros [? _]|intros [_ []]; lia].
  - rewrite lookup_insert_ne by done. split; intros [? ?]; (split; [done|lia]).
Qed.

Lemma mark_marks s i b fm bs : marks fm bs -> 0 <= s ->
  (forall j, (cover ((i, s) :: bs) j <= 1)%nat) ->
  exists fm', mark (Z.to_nat s) i b fm = Ret fm' /\ marks fm' ((i, s) :: bs).
Proof.
  intros Hm Hs Hc. destruct (mark_spec (Z.to_nat s) i b fm) as (fm' & -> & Hfm').
  { intros j Hj. apply Hm. specialize (Hc j). simpl in Hc. unfold covers in Hc. simpl in Hc.
    case_bool_decide; lia. }
  exists fm'. split; [done|]. intros j. rewrite Hfm', (Hm j). simpl. unfold covers. simpl.
  case_bool_decide; lia.
Qed.

Lemma chk_list_spec f l fuel hd s b fm bs : chain (mem f) hd l -> (length l <= fuel)%nat ->
  marks fm bs -> 0 <= s -> 1 <= size f < 2 ^ W ->
  (forall i, i ∈ l -> 1 <= i /\ i + s <= size f) ->
  (forall j, (cover (((fun i => (i, s)) <$> l) ++ bs) j <= 1)%nat) ->
  exists fm', chk_list fuel hd s b f fm = Ret fm' /\ marks fm' (((fun i => (i, s)) <$> l) ++ bs).
Proof.
  intros Hc. revert fuel fm bs.
  induction Hc as [|hd n l Hh Hm Hc IH]; intros fuel fm bs Hf Hmk Hs Hz Hr Hcov.
  { destruct fuel; simpl; eauto. }
  destruct fuel as [|fuel]; [simpl in Hf; lia|]. simpl in *.
  destruct (Z.eqb_spec hd 0); [done|]. destruct (Hr hd) as [? ?]; [left|].
  rewrite uwrap_small by lia. rewrite swear_bind by (apply Z.leb_le; lia).
  destruct (mark_marks s hd b fm bs Hmk Hs) as (fm1 & -> & Hm1).
  { intros j. specialize (Hcov j). rewrite cover_app in Hcov. simpl. lia. }
  simpl. unfold _nxt. rewrite Hm. simpl.
  destruct (IH fuel fm1 ((hd, s) :: bs)) as (fm2 & -> & Hm2);
    [lia|done|done|done|intros i Hi; apply Hr; by right| |].
  { intros j. rewrite <- Permutation_middle. apply Hcov. }
  exists fm2. split; [done|]. intros j. rewrite (Hm2 j), <- Permutation_middle. done.
Qed.

Lemma heads_nodup bs : (forall j, (cover bs j <= 1)%nat) -> Forall (fun b => 1 <= b.2) bs -> NoDup bs.*1.
Proof.
  induction bs as [|[i s] bs IH]; intros Hc Hs; [constructor|]. inversion Hs as [|? ? H1 H2]; subst. simpl.
  constructor.
  - intros Hin. apply list_elem_of_fmap in Hin as ([j s'] & Hj & Hin). simpl in *. subst j.
    rewrite list.Forall_forall in H2. pose proof (H2 _ Hin) as Hs'. simpl in Hs'.
    pose proof (cover_in _ _ i Hin (covers_head i s' Hs')). specialize (Hc i). simpl in Hc.
    rewrite covers_head in Hc by done. lia.
  - apply IH; [|done]. intros j. specialize (Hc j). simpl in Hc. lia.
Qed.

(** There are no more blocks than cells, hence no free list is longer than the file. *)
Lemma heads_length bs n : (forall j, (cover bs j <= 1)%nat) -> Forall (fun b => 1 <= b.2) bs ->
  (forall i, i ∈ bs.*1 -> 1 <= i < n) -> (length bs <= Z.to_nat n)%nat.
Proof.
  intros Hc Hs Hr. rewrite <- (length_fmap fst bs).
  assert (bs.*1 ⊆+ seqZ 1 (n - 1)) as Hsub.
  { apply NoDup_submseteq; [by apply heads_nodup|]. intros i Hi. apply elem_of_seqZ. apply Hr in Hi. lia. }
  apply submseteq_length in Hsub. rewrite length_seqZ in Hsub. lia.
Qed.

(** Walk of the lists of the classes from [b] on *)
Lemma chk_lists_used f cs : 1 <= size f < 2 ^ W -> forall m b fm bs,
  marks fm bs -> 0 <= b -> b + Z.of_nat (length cs) <= n_ok ->
  (forall k l, cs !! k = Some l -> exists hd, free f !! (Z.to_nat b + k)%nat = Some hd /\ chain (mem f) hd l) ->
  (forall i s, (i, s) ∈ free_blocks b cs -> 1 <= i /\ i + s <= size f) ->
  (forall j, (cover (free_blocks b cs ++ bs) j <= 1)%nat) ->
  exists fm', chk_lists (length cs + m) b f fm = chk_lists m (b + Z.of_nat (length cs)) f fm'.
Proof.
  intros Hz. induction cs as [|l cs IH]; intros m b fm bs Hm Hb Hn Hl Hr Hc.
  { exists fm. by rewrite Z.add_0_r. }
  simpl in *. pose proof NFree_bound.
  assert (ok_bucket b) as Hok by (unfold ok_bucket; lia).
  destruct (class_spec _ Hok) as [-> Hs]. simpl.
  destruct (Hl 0%nat l eq_refl) as (hd & Hhd & Hch). rewrite Nat.add_0_r in Hhd.
  unfold _free. rewrite swear_bind by (apply Z.ltb_lt; lia). rewrite Hhd. simpl.
  assert (forall i, i ∈ l -> 1 <= i /\ i + szv b <= size f) as Hrl.
  { intros i Hi. apply Hr. apply elem_of_app. left. apply list_elem_of_fmap. by eexists. }
  assert (forall j, (cover ((fun i => (i, szv b)) <$> l) j <= 1)%nat) as Hcl.
  { intros j. specialize (Hc j). rewrite !cover_app in Hc. lia. }
  destruct (chk_list_spec f l (Z.to_nat (size f)) hd (szv b) b fm bs) as (fm1 & -> & Hm1);
    [done| |done|lia|done|done| |].
  { rewrite <- (length_fmap (fun i => (i, szv b))). apply heads_length; [done| |].
    - apply Forall_fmap, list.Forall_forall. intros; simpl; lia.
    - intros i Hi. rewrite <- list_fmap_compose, list_fmap_id in Hi. apply Hrl in Hi. lia. }
  { intros j. specialize (Hc j). rewrite !cover_app in *. lia. }
  simpl. destruct (IH m (b + 1) fm1 (((fun i => (i, szv b)) <$> l) ++ bs)) as (fm2 & ->); [done|lia|lia| | | |].
  - intros k l' Hk. destruct (Hl (S k) l' Hk) as (hd' & ? & ?). exists hd'. split; [|done].
    by replace (Z.to_nat (b + 1) + k)%nat with (Z.to_nat b + S k)%nat by lia.
  - intros i s Hi. apply Hr. apply elem_of_app. by right.
  - intros j. specialize (Hc j). rewrite !cover_app in *. lia.
  - exists fm2. f_equal. lia.
Qed.

Lemma chk_lists_unused f m b fm : (forall k hd, n_ok <= Z.of_nat k -> free f !! k = Some hd -> hd = 0) ->
  length (free f) = Z.to_nat NFree -> n_ok <= b -> b + Z.of_nat m = NFree ->
  chk_lists m b f fm = Ret fm.
Proof.
  intros Hl Hlen. revert b. induction m as [|m IH]; intros b Hb Hm; [done|]. simpl. pose proof NFree_bound.
  assert (b = NFree - 1) as ->.
  { destruct (decide (Mantissa = 0)) as [HM|HM]; [destruct (single HM) as (? & ? & _)|destruct (multi HM)]; lia. }
  destruct last_class_ret as [s ->]. simpl. unfold _free. rewrite swear_bind by (apply Z.ltb_lt; lia).
  destruct (lookup_lt_is_Some_2 (free f) (Z.to_nat (NFree - 1))) as [hd Hhd]; [lia|].
  rewrite Hhd. apply Hl in Hhd as ->; [|lia]. simpl.
  assert (forall k, chk_list k 0 s (NFree - 1) f fm = Ret fm) as -> by (by intros []). apply IH; lia.
Qed.

Lemma chk_ok f h : repr f h -> chk f = Ret tt.
Proof.
  intros [cs Hi]. destruct (inv_size _ _ _ _ Hi). pose proof NIdxBits_W. unfold chk.
  assert (StructFile.chk sizeof_Hdr sizeof_Data (base f) = Ret tt) as ->.
  { unfold StructFile.chk. fold (size f). destruct (Z.eqb_spec (size f) 0); [lia|]. simpl.
    pose proof (inv_phys _ _ _ _ Hi) as Hp. apply Z.leb_le in Hp. by rewrite Hp. }
  simpl. pose proof (inv_cs _ _ _ _ Hi) as Hlc. pose proof NFree_bound.
  pose proof (inv_tiles _ _ _ _ Hi) as Ht. simpl in Ht.
  replace (Z.to_nat NFree) with (length cs + (Z.to_nat NFree - length cs))%nat by lia.
  destruct (chk_lists_used f cs ltac:(lia) (Z.to_nat NFree - length cs) 0 ∅ []) as [fm' ->]; [done|lia|lia| | | |].
  - intros k l Hk. pose proof (cs_bucket _ _ _ _ _ _ Hi Hk) as Hb. unfold ok_bucket in Hb.
    destruct (lookup_lt_is_Some_2 (free f) k) as [hd Hhd]; [rewrite (inv_free _ _ _ _ Hi); lia|].
    exists hd. split; [done|]. by eapply inv_chain.
  - intros i s His. apply (tiles_range _ _ i s Ht); [apply elem_of_app; by right|].
    by eapply free_blocks_pos.
  - intros j. rewrite app_nil_r. pose proof (tiles_le1 _ _ j Ht) as Hle. rewrite cover_app in Hle. lia.
  - simpl. rewrite (chk_lists_unused f _ _ fm'); [done|apply Hi|apply Hi|lia|lia].
Qed.
End chk.

Section lst.
Context {P : Params} {HP : ParamsOk P} {D : Type}.
Implicit Types (f : t D).

(** Indices from [i] on that are not in [fs], for an iterator standing at [i] or at the end *)
Definition from f (fs : gset Z) (i : Z) : list Z :=
  if i =? 0 then [] else filter (fun j => j ∉ fs) (seqZ i (size f - i)).

Lemma from_step f fs i : 1 <= i < size f -> from f fs i =
  (if bool_decide (i ∉ fs) then [i] else []) ++ from f fs (_fix_end f (i + 1)).
Proof.
  intros Hi. unfold from. destruct (Z.eqb_spec i 0); [lia|].
  rewrite seqZ_cons by lia. rewrite filter_cons.
  assert (filter (fun j => j ∉ fs) (seqZ (Z.succ i) (Z.pred (size f - i))) =
    (if _fix_end f (i + 1) =? 0 then [] else
     filter (fun j => j ∉ fs) (seqZ (_fix_end f (i + 1)) (size f - _fix_end f (i + 1))))) as ->.
  { unfold _fix_end. destruct (Z.eqb_spec (i + 1) (size f)) as [He|He]; simpl.
    - replace (Z.pred (size f - i)) with 0 by lia. done.
    - destruct (Z.eqb_spec (i + 1) 0); [lia|]. do 2 f_equal; lia. }
  case_decide; case_bool_decide; by try done.
Qed.

Definition at_pos f (i : Z) : Prop := i = 0 \/ 1 <= i < size f.

Lemma fix_end_pos f i : 1 <= i < size f -> size f < 2 ^ W -> at_pos f (_fix_end f (i + 1)) /\
  uwrap W (i + 1) = i + 1 /\ (_fix_end f (i + 1) = 0 \/ _fix_end f (i + 1) = i + 1).
Proof.
  intros Hi Hs. rewrite uwrap_small by lia. unfold at_pos, _fix_end.
  destruct (Z.eqb_spec (i + 1) (size f)); lia.
Qed.

Lemma legalize_spec f fs fuel i : at_pos f i -> size f < 2 ^ W -> size f - i <= Z.of_nat fuel ->
  exists j, _legalize fuel fs f i = Ret j /\ from f fs i = from f fs j /\ at_pos f j /\ (j = 0 \/ i <= j /\ j ∉ fs).
Proof.
  revert i. induction fuel as [|fuel IH]; intros i Hi Hw Hf; simpl.
  all: destruct (Z.eqb_spec i 0) as [->|]; [exists 0; naive_solver|destruct Hi as [?|Hi]; [done|]].
  { lia. }
  case_bool_decide as Hin; [exists i; split_and!; [done|done|by right|right; split; [lia|done]]|].
  destruct (fix_end_pos f i Hi Hw) as (Hp & Hu & Hc).
  unfold _advance. destruct (Z.eqb_spec i 0); [done|]. cbn -[_fix_end]. rewrite Hu.
  rewrite (from_step f fs i Hi), (bool_decide_eq_false_2 (i ∉ fs)) by (by intros []). cbn [app].
  destruct Hc as [Hc|Hc].
  - exists 0. rewrite Hc. split_and!; [by destruct fuel|done|by left|by left].
  - destruct (IH (_fix_end f (i + 1))) as (j & -> & ? & ? & Hj); [done|done|lia|].
    exists j. split_and!; try done. destruct Hj as [?|[? ?]]; [by left|right; split; [lia|done]].
Qed.

Lemma lst_loop_spec f fs fuel i : at_pos f i -> (i = 0 \/ i ∉ fs) -> size f < 2 ^ W ->
  i = 0 \/ size f - i <= Z.of_nat fuel -> lst_loop fuel fs f i = Ret (from f fs i).
Proof.
  revert i. induction fuel as [|fuel IH]; intros i Hi Hn Hw Hf; simpl.
  all: destruct (Z.eqb_spec i 0) as [->|]; [done|destruct Hi as [?|Hi]; [done|]].
  { lia. }
  destruct (fix_end_pos f i Hi Hw) as (Hp & Hu & Hc).
  unfold _advance. destruct (Z.eqb_spec i 0); [done|]. cbn -[_fix_end]. rewrite Hu.
  rewrite (from_step f fs i Hi). destruct Hn as [?|Hn]; [done|]. rewrite (bool_decide_eq_true_2 (i ∉ fs)) by done. cbn [app].
  destruct Hc as [Hc|Hc].
  - rewrite Hc. destruct (Z.to_nat (size f)), fuel; done.
  - destruct (legalize_spec f fs (Z.to_nat (size f)) _ Hp Hw) as (j & -> & -> & Hj & Hj'); [lia|]. simpl.
    rewrite (IH j); [done|done|naive_solver|done|]. destruct Hj' as [->|[? _]]; [by left|right; lia].
Qed.

Lemma lst_walk_spec f l fuel hd fs : chain (mem f) hd l -> (length l <= fuel)%nat ->
  exists fs', lst_walk fuel hd f fs = Ret fs' /\ forall i, i ∈ fs' <-> i ∈ l \/ i ∈ fs.
Proof.
  intros Hc. revert fuel fs. induction Hc as [|hd n l Hh Hm Hc IH]; intros fuel fs Hf.
  { exists fs. split; [by destruct fuel|]. intros i. rewrite elem_of_nil. tauto. }
  destruct fuel as [|fuel]; [simpl in Hf; lia|]. simpl in *. destruct (Z.eqb_spec hd 0); [done|].
  unfold _nxt. rewrite Hm. simpl. destruct (IH fuel ({[hd]} ∪ fs)) as (fs' & -> & Hfs'); [lia|].
  exists fs'. split; [done|]. intros i. rewrite Hfs'. rewrite elem_of_cons. set_solver.
Qed.

Lemma single_cell f (h : gmap Z (Z * D)) l : tiles (live_blocks h ++ ((fun i => (i, 1)) <$> l)) (size f) -> szv 0 = 1 ->
  (forall i n d, h !! i = Some (n, d) -> Alloc.bucket Mantissa n = 0) ->
  forall i, 1 <= i < size f -> i ∈ l <-> h !! i = None.
Proof.
  intros Ht Hs Hb i Hr. pose proof (Ht i) as Hi. rewrite bool_decide_eq_true_2, cover_app in Hi by done. split.
  - intros Hin. destruct (h !! i) as [[n d]|] eqn:Hh; [exfalso|done].
    pose proof (cover_in _ _ i (live_blocks_in _ _ _ _ Hh)) as Hc1. rewrite (Hb _ _ _ Hh), Hs in Hc1.
    specialize (Hc1 (covers_head i 1 ltac:(lia))).
    assert ((i, 1) ∈ ((fun i => (i, 1)) <$> l)) as Hin' by (apply list_elem_of_fmap; by eexists).
    pose proof (cover_in _ _ i Hin' (covers_head i 1 ltac:(lia))). lia.
  - intros Hh. destruct (cover_inv (live_blocks h ++ ((fun i => (i, 1)) <$> l)) i) as ([j s] & Hj & Hc).
    { rewrite cover_app. lia. }
    apply bool_decide_eq_true in Hc. simpl in Hc. apply elem_of_app in Hj as [Hj|Hj].
    + apply live_blocks_inv in Hj as (n & d & Hn & ->). rewrite (Hb _ _ _ Hn), Hs in Hc.
      assert (i = j) by lia. congruence.
    + apply list_elem_of_fmap in Hj as (k & Hk & Hin). simplify_eq. by assert (i = k) as -> by lia.
Qed.

(** In a file of single cells, a cell is either live or in the free list. *)
Lemma single_partition f h : Mantissa = 0 -> repr f h -> exists hd l,
  _free 0 f = Ret hd /\ chain (mem f) hd l /\ (length l <= Z.to_nat (size f))%nat /\
  forall i, 1 <= i < size f -> i ∈ l <-> h !! i = None.
Proof.
  intros HM [cs Hi]. destruct (single HM) as (HN & Hn & Hs & _).
  assert (ok_bucket 0) as Hok by (unfold ok_bucket; lia).
  destruct (bucket_chain _ _ _ _ _ Hi Hok) as (hd & l & Hf & _ & Hl & Hc).
  pose proof (inv_cs _ _ _ _ Hi) as Hlen. rewrite Hn in Hlen.
  destruct cs as [|l0 [|]]; simpl in *; [done| |done]. injection Hl as ->.
  pose proof (inv_tiles _ _ _ _ Hi) as Ht. simpl in Ht. rewrite app_nil_r, Hs in Ht.
  exists hd, l. split_and!; [done|done| |].
  - rewrite <- (length_fmap (fun i => (i, 1))). apply heads_length.
    + intros j. pose proof (tiles_le1 _ _ j Ht) as Hle. rewrite cover_app in Hle. lia.
    + apply Forall_fmap, list.Forall_forall. intros; simpl; lia.
    + intros i Hin. rewrite <- list_fmap_compose, list_fmap_id in Hin.
      destruct (tiles_range _ _ i 1 Ht) as [? ?]; [|done|lia].
      apply elem_of_app. right. apply list_elem_of_fmap. by eexists.
  - intros i Hr. apply (single_cell f h l Ht Hs); [|done].
    intros j n d Hj. destruct (inv_live _ _ _ _ Hi _ _ _ Hj) as [Hok' _].
    destruct (ok_sz_bucket _ Hok') as (_ & Hb & _). unfold ok_bucket in Hb. lia.
Qed.

(** Listing a file of single cells yields the live indices, in increasing order. *)
Lemma lst_spec f h : Mantissa = 0 -> repr f h ->
  lst f = Ret (filter (fun i => is_Some (h !! i)) (seqZ 1 (size f - 1))).
Proof.
  intros HM Hr. destruct (single_partition f h HM Hr) as (hd & l & Hf & Hc & Hlen & Hp).
  destruct Hr as [cs Hi]. destruct (inv_size _ _ _ _ Hi). pose proof NIdxBits_W.
  unfold lst, lst_frees. rewrite Hf. simpl.
  destruct (lst_walk_spec f l (Z.to_nat (size f)) hd ∅ Hc Hlen) as (fs & -> & Hfs). simpl.
  assert (at_pos f (_fix_end f 1)) as Hpos.
  { unfold at_pos, _fix_end. destruct (Z.eqb_spec 1 (size f)); lia. }
  destruct (legalize_spec f fs (Z.to_nat (size f)) _ Hpos) as (j & -> & Hfr & Hpj & Hj); [lia| |].
  { destruct Hpos; lia. }
  simpl. rewrite lst_loop_spec; [|done|naive_solver|lia|destruct Hpj; lia].
  rewrite <- Hfr. f_equal. unfold from, _fix_end.
  destruct (Z.eqb_spec 1 (size f)) as [He|He]; simpl; [by rewrite <- He|].
  apply filter_ext_in. intros i Hin. apply elem_of_seqZ in Hin. rewrite Hfs, Hp by lia.
  rewrite <- not_eq_None_Some. set_solver.
Qed.
End lst.

(** ** Files reached by the operations of clients *)

Section reach.
Context {P : Params} {HP : ParamsOk P} {D : Type}.
Implicit Types (f : t D) (h : gmap Z (Z * D)).

Inductive reach : t D -> gmap Z (Z * D) -> Prop :=
| reach_init r f : RawFile.size r = 0 -> RawFile.writable r = true -> init r = Ret f -> reach f ∅
| reach_emplace f h n d f' i : reach f h -> ok_sz n -> _emplace n d f = Ret (f', i) ->
    reach f' (<[i := (n, d)]> h)
| reach_write f h i n d d' : reach f h -> h !! i = Some (n, d) ->
    reach (set_mem f (<[i := Data d']> (mem f))) (<[i := (n, d')]> h)
| reach_shorten f h i n m d f' : Mantissa <> 0 -> reach f h -> h !! i = Some (n, d) -> 1 <= m <= n ->
    _shorten i n m f = Ret f' -> reach f' (<[i := (m, d)]> h)
| reach_pop f h i n d f' : reach f h -> h !! i = Some (n, d) -> _pop i n f = Ret f' ->
    reach f' (delete i h).

Lemma write_spec f h i n d d' : repr f h -> h !! i = Some (n, d) ->
  repr (set_mem f (<[i := Data d']> (mem f))) (<[i := (n, d')]> h).
Proof.
  intros [cs Hi] Hh. destruct (inv_live _ _ _ _ Hi _ _ _ Hh) as [Hn _]. exists cs.
  rewrite <- (insert_delete_eq h). apply inv_adopt; [|done]. by eapply inv_disown.
Qed.

Lemma reach_repr f h : reach f h -> repr f h.
Proof.
  induction 1 as [r f Hs Hw Hf|f h n d f' i _ IH Hn He|f h i n d d' _ IH Hh|f h i n m d f' HM _ IH Hh Hm He|f h i n d f' _ IH Hh He].
  - destruct (init_spec (D := D) r Hs Hw) as (f' & Hf' & Hr & _). congruence.
  - pose proof (emplace_spec f h n d IH Hn) as Hs. rewrite He in Hs. naive_solver.
  - by eapply write_spec.
  - pose proof (shorten_spec f h i n m d HM IH Hh ltac:(lia)) as Hs. rewrite He in Hs.
    by destruct (Z.eqb_spec m 0); [lia|].
  - pose proof (pop_spec f h i n d IH Hh) as Hs. rewrite He in Hs. naive_solver.
Qed.

Lemma repr_disjoint f h i n d j m e : repr f h -> h !! i = Some (n, d) -> h !! j = Some (m, e) -> i <> j ->
  i + n <= j \/ j + m <= i.
Proof.
  intros [cs Hi] Hh1 Hh2 Hne. pose proof (inv_tiles _ _ _ _ Hi) as Ht.
  destruct (inv_live _ _ _ _ Hi _ _ _ Hh1) as [Hn _]. destruct (inv_live _ _ _ _ Hi _ _ _ Hh2) as [Hm _].
  destruct (ok_sz_bucket _ Hn) as (_ & Hb1 & Hl1). destruct (ok_sz_bucket _ Hm) as (_ & Hb2 & Hl2).
  assert (delete i h !! j = Some (m, e)) as Hh2' by (by rewrite lookup_delete_ne by done).
  simpl in Ht. rewrite (live_blocks_delete h i n d) in Ht by done. rewrite (live_blocks_delete (delete i h) j m e) in Ht by done.
  pose proof (szv_pos _ Hb1). pose proof (szv_pos _ Hb2).
  destruct (Z.le_gt_cases (i + n) j); [by left|right]. apply Z.nlt_ge. intros Hlt.
  pose proof (tiles_le1 _ _ (Z.max i j) Ht) as Hc. simpl in Hc. unfold covers in Hc. simpl in Hc.
  repeat case_bool_decide; lia.
Qed.

Lemma repr_range f h i n d : repr f h -> h !! i = Some (n, d) -> 1 <= i /\ i + n <= size f /\ at_ i f = Ret d.
Proof.
  intros [cs Hi] Hh. destruct (inv_live _ _ _ _ Hi _ _ _ Hh) as [Hn Hd].
  destruct (ok_sz_bucket _ Hn) as (_ & Hb & Hl).
  destruct (tiles_range _ _ i (szv (Alloc.bucket Mantissa n)) (inv_tiles _ _ _ _ Hi)) as [? ?];
    [simpl; apply elem_of_app; left; by eapply live_blocks_in|by apply szv_pos|].
  split_and!; [done|lia|]. unfold at_. by rewrite Hd.
Qed.
End reach.

(** ** Concrete files *)

Module Sample.
(** Blocks of a few cells on 16-bit indices *)
#[export] Instance P : Params := {| Mantissa := 2; W := 16; NIdxBits := 12; sizeof_Hdr := 100; sizeof_Data := 8; PAGE_SZ := 4096 |}.
#[export] Instance HP : ParamsOk P.
Proof. split; simpl; lia. Qed.

Definition get (o : outcome (t nat)) : t nat :=
  match o with Ret f => f | _ => mk (StructFile.mk (RawFile.mk 0 true) 0 ∅) [] end.
Definition f0 : t nat := get (init (RawFile.mk 0 true)).
Definition f1 : t nat := get ('(f, _) ← _emplace 7 42%nat f0; Ret f).

Lemma reach0 : reach f0 ∅.
Proof. by apply (reach_init (RawFile.mk 0 true)). Qed.
Lemma reach1 : reach f1 (<[1 := (7, 42%nat)]> ∅).
Proof. eapply reach_emplace; [apply reach0|split; vm_compute; split; congruence|by vm_compute]. Qed.
End Sample.

Module Sample1.
(** Single cells *)
#[export] Instance P1 : Params := {| Mantissa := 0; W := 16; NIdxBits := 12; sizeof_Hdr := 16; sizeof_Data := 8; PAGE_SZ := 4096 |}.
#[export] Instance HP1 : ParamsOk P1.
Proof. split; simpl; lia. Qed.

Definition f0 : t nat := Sample.get (init (RawFile.mk 0 true)).
Definition f1 : t nat := Sample.get ('(f, _) ← _emplace 1 42%nat f0; Ret f).
Definition f2 : t nat := Sample.get ('(f, _) ← _emplace 1 43%nat f1; Ret f).
Definition f3 : t nat := Sample.get (_pop 1 1 f2).

Lemma single_reach0 : reach f0 ∅.
Proof. by apply (reach_init (RawFile.mk 0 true)). Qed.
Lemma single_reach2 : reach f2 (<[2 := (1, 43%nat)]> (<[1 := (1, 42%nat)]> ∅)).
Proof.
  eapply reach_emplace; [eapply reach_emplace; [apply single_reach0|by vm_compute|]|by vm_compute|].
  - instantiate (1 := f1). by vm_compute.
  - by vm_compute.
Qed.
Lemma single_reach3 : reach f3 (delete 1 (<[2 := (1, 43%nat)]> (<[1 := (1, 42%nat)]> ∅))).
Proof. eapply reach_pop; [apply single_reach2|by vm_compute|by vm_compute]. Qed.
End Sample1.

(** ** Properties *)

Section properties.
Context {P : Params} {HP : ParamsOk P} {D : Type}.
Implicit Types (f : t D) (h : gmap Z (Z * D)).


(** C9 Shrinking: [_shorten] keeps the object and the first cells, gives the rest back to the free
    lists (its loop terminates), touches no other block and never stops the server. *)
Theorem shorten_refines f h i n m d : Mantissa <> 0 -> repr f h -> h !! i = Some (n, d) -> 0 <= m <= n ->
  match _shorten i n m f with
  | Ret f' => repr f' (if m =? 0 then delete i h else <[i := (m, d)]> h)
  | Throw _ => writable f = false
  | Crash => False
  end.
Proof. apply shorten_spec. Qed.

(** C4 Every file reached from an empty one by allocations, in-place updates, shrinkings and
    deallocations passes [chk]; the blocks of clients are inside the file, pairwise disjoint, and
    hold what was last stored in them. *)
Theorem reach_safe f h : reach f h ->
  chk f = Ret tt /\
  (forall i n d, h !! i = Some (n, d) -> 1 <= i /\ i + n <= size f /\ at_ i f = Ret d) /\
  (forall i n d j m e, h !! i = Some (n, d) -> h !! j = Some (m, e) -> i <> j -> i + n <= j \/ j + m <= i) /\
  (forall i n d, h !! i = Some (n, d) -> writable f = true ->
     exists f', _pop i n f = Ret f' /\ chk f' = Ret tt).
Proof.
  intros Hr%reach_repr. split_and!.
  - by eapply chk_ok.
  - intros. by eapply repr_range.
  - intros. by eapply repr_disjoint.
  - intros i n d Hi Hw. pose proof (pop_spec f h i n d Hr Hi) as Hp.
    destruct (_pop i n f) as [f'| |]; [|congruence|done]. exists f'. split; [done|]. eapply chk_ok. naive_solver.
Qed.

(** C40 In a well-formed file of single cells, iterating over [lst()] visits each live index once, in increasing
    order, and no freed one. *)
Theorem lst_live f h : Mantissa = 0 -> repr f h ->
  lst f = Ret (filter (fun i => is_Some (h !! i)) (seqZ 1 (size f - 1))).
Proof. apply lst_spec. Qed.
End properties.

Module MultiWitness.
Import Sample.


Lemma shorten_refines_witness : exists f', _shorten 1 7 2 Sample.f1 = Ret f' /\ _free 4 f' = Ret 3 /\
repr f' (<[1 := (2, 42%nat)]> (<[1 := (7, 42%nat)]> ∅)).
Proof.
pose proof (shorten_refines Sample.f1 (<[1 := (7, 42%nat)]> ∅) 1 7 2 42%nat) as H.
specialize (H ltac:(by vm_compute) (reach_repr _ _ Sample.reach1) ltac:(by vm_compute) ltac:(lia)).
assert (_shorten 1 7 2 Sample.f1 = Ret (Sample.get (_shorten 1 7 2 Sample.f1))) as He by (vm_compute; reflexivity).
rewrite He in H. eexists. split; [exact He|]. split; [vm_compute; reflexivity|exact H].
Defined.

Lemma reach_safe_witness : chk Sample.f1 = Ret tt.
Proof. apply (reach_safe _ _ Sample.reach1). Defined.

End MultiWitness.

Module SingleWitness.
Import Sample1.

Lemma lst_live_witness : lst Sample1.f3 = Ret [2].
Proof.
pose proof (lst_live Sample1.f3 (delete 1 (<[2 := (1, 43%nat)]> (<[1 := (1, 42%nat)]> ∅)))) as H.
rewrite (H eq_refl (reach_repr _ _ Sample1.single_reach3)). by vm_compute.
Defined.

End SingleWitness.
