(* ===== verification/StoreVector.v ===== *)
(** * Vectors in a file: [VectorFile] of src/store/vector.hh.

    A vector is a block of an [AllocFile] holding a size and the items; index 0 is the empty
    vector. The operations are shown to implement a map from indices to non-empty lists. *)
From S2P Require Import Prelude.
From S2P Require Import Arith.
From S2P Require Import StoreFile.
From S2P Require Import StoreAlloc.
From S2P Require Import StoreAllocFile.
From S2P Require Import StoreAllocInv.
From S2P Require Import StoreAllocThm.
Local Open Scope Z_scope.

Module VectorFile.
Import AllocFile.

(** [Vector::Chunk]: the number of items, then the items constructed so far *)
Record Chunk (Item : Type) := mkChunk { csz : Z; citems : list Item }.
Arguments mkChunk {Item}.
Arguments csz {Item}.
Arguments citems {Item}.

(** Further template parameters: size of an item, [MinSz], bits of [Sz] *)
Class VParams := { sizeof_Item : Z; MinSz : Z; SzW : Z }.

Class VParamsOk (P : Params) (V : VParams) : Prop := {
  Mantissa_multi : Mantissa <> 0;
  sizeof_Item_ok : 1 <= sizeof_Item;
  MinSz_ok : 1 <= MinSz;
  sizeof_Base_ok : MinSz * sizeof_Item < sizeof_Data;
  SzW_ok : 1 <= SzW <= 32;
}.

Section ops.
Context {P : Params} {V : VParams} {Item : Type}.
Abbreviation file := (t (Chunk Item)).
Implicit Types (f : file) (v : list Item).

(** [Chunk::s_n_items(sz)], on the [Sz], [size_t] then [IdxSz] types of the source *)
Definition s_n_items (sz_ : Z) : Z :=
  let sz_ := uwrap SzW sz_ in
  uwrap W (div_up (u64 (sizeof_Data - MinSz * sizeof_Item + sz_ * sizeof_Item)) sizeof_Data).

(** [Chunk(span)] *)
Definition Chunk_of v : Chunk Item :=
  let sz := uwrap SzW (Z.of_nat (length v)) in mkChunk sz (take (Z.to_nat sz) v).

Definition n_items (c : Chunk Item) : Z := s_n_items (csz c).

(** [Chunk::shorten_by(by)] *)
Definition Chunk_shorten_by (by_ : Z) (c : Chunk Item) : outcome (Chunk Item) :=
  _ ← swear (by_ <? csz c);
  let sz := csz c - by_ in Ret (mkChunk sz (take (Z.to_nat sz) (citems c))).

(** [AllocFile::_n_items], [_chk_sz], [emplace], [pop] and [shorten], when data know their size *)
Definition _n_items (idx : Z) f : outcome Z :=
  if idx =? 0 then Ret 0 else c ← at_ idx f; Ret (n_items c).
Definition _chk_sz (idx sz : Z) f : outcome unit :=
  n ← _n_items idx f; swear (sz =? n).
Definition base_emplace (sz : Z) (c : Chunk Item) f : outcome (file * Z) :=
  '(f, res) ← _emplace sz c f;
  _ ← _chk_sz res sz f;
  Ret (f, res).
Definition base_pop (idx : Z) f : outcome file :=
  n ← _n_items idx f; _pop idx n f.
Definition base_shorten (idx old_sz : Z) f : outcome file :=
  n ← _n_items idx f; _shorten idx old_sz n f.

(** Update of a chunk in place; the mapping of a read-only file faults *)
Definition write (idx : Z) (c : Chunk Item) f : outcome file :=
  if writable f then Ret (set_mem f (<[idx := Data c]> (mem f))) else Crash.

Definition vsize (idx : Z) f : outcome Z := if idx =? 0 then Ret 0 else c ← at_ idx f; Ret (csz c).
Definition view (idx : Z) f : outcome (list Item) :=
  if idx =? 0 then Ret [] else c ← at_ idx f; Ret (take (Z.to_nat (csz c)) (citems c)).

Definition emplace v f : outcome (file * Z) :=
  match v with
  | [] => Ret (f, 0)
  | _ => base_emplace (s_n_items (Z.of_nat (length v))) (Chunk_of v) f
  end.

(** [emplace(x0,v)] *)
Definition emplace1 (x0 : Item) v f : outcome (file * Z) :=
  base_emplace (s_n_items (Z.of_nat (length v) + 1)) (Chunk_of (x0 :: v)) f.

Definition pop (idx : Z) f : outcome file := if idx =? 0 then Ret f else base_pop idx f.

Definition shorten_by (idx by_ : Z) f : outcome (file * Z) :=
  sz ← vsize idx f;
  _ ← swear (by_ <=? sz);
  if by_ =? sz then f ← pop idx f; Ret (f, 0)
  else
    c ← at_ idx f;
    c ← Chunk_shorten_by by_ c;
    f ← write idx c f;
    f ← base_shorten idx (s_n_items sz) f;
    Ret (f, idx).

Definition assign (idx : Z) v f : outcome (file * Z) :=
  if idx =? 0 then emplace v f
  else match v with
  | [] => f ← pop idx f; Ret (f, 0)
  | _ =>
    chunk ← at_ idx f;
    let old_n := n_items chunk in
    let new_n := s_n_items (Z.of_nat (length v)) in
    if negb (new_n =? old_n) then
      f ← base_pop idx f;
      base_emplace new_n (Chunk_of v) f
    else
      _ ← chk_writable f;
      f ← write idx (mkChunk (uwrap SzW (Z.of_nat (length v))) v) f;
      Ret (f, idx)
  end.

Definition append (idx : Z) v f : outcome (file * Z) :=
  if idx =? 0 then emplace v f
  else match v with
  | [] => Ret (f, idx)
  | _ =>
    chunk ← at_ idx f;
    let old_n := n_items chunk in
    let new_n := s_n_items (csz chunk + Z.of_nat (length v)) in
    if old_n <? new_n then
      both ← view idx f;
      let both := both ++ v in
      f ← base_pop idx f;
      base_emplace new_n (Chunk_of both) f
    else
      let sz := uwrap SzW (csz chunk + Z.of_nat (length v)) in
      f ← write idx (mkChunk sz (take (Z.to_nat (csz chunk)) (citems chunk) ++ v)) f;
      Ret (f, idx)
  end.
End ops.

Section proofs.
Context {P : Params} {HP : ParamsOk P} {V : VParams} {HV : VParamsOk P V} {Item : Type}.
Implicit Types (f : t (Chunk Item)) (v : list Item) (h : gmap Z (list Item)).

(** Cells needed for [n] items *)
Definition cells (n : Z) : Z := div_up (sizeof_Data - MinSz * sizeof_Item + n * sizeof_Item) sizeof_Data.

(** Vectors a file can hold *)
Definition ok_vec v : Prop := v <> [] /\ Z.of_nat (length v) < 2 ^ SzW /\ ok_sz (cells (Z.of_nat (length v))).

Definition chunk_of v : Chunk Item := mkChunk (Z.of_nat (length v)) v.
Definition lift h : gmap Z (Z * Chunk Item) := (fun v => (cells (Z.of_nat (length v)), chunk_of v)) <$> h.

(** The file holds the vectors of [h]. *)
Definition vrepr f h : Prop := repr f (lift h) /\ map_Forall (fun _ v => ok_vec v) h.

(** [v] is stored at [i], index 0 standing for the empty vector. *)
Definition vput h v (i : Z) h' : Prop :=
  v = [] /\ i = 0 /\ h' = h \/ v <> [] /\ i <> 0 /\ h !! i = None /\ h' = <[i := v]> h.

Definition hget h (i : Z) : list Item := default [] (h !! i).

Lemma sizes : 1 <= sizeof_Item <= 2 ^ 24 /\ 1 <= MinSz * sizeof_Item < sizeof_Data /\ sizeof_Data <= 2 ^ 24.
Proof. pose proof sizeof_Item_ok. pose proof sizeof_Base_ok. pose proof MinSz_ok. pose proof sizeof_Data_ok. nia. Qed.

Lemma pow_SzW : 2 ^ SzW <= 2 ^ 32.
Proof. apply Z.pow_le_mono_r; pose proof SzW_ok; lia. Qed.

(** The items fit in the cells of the block. *)
Lemma cells_fit n : 0 <= n -> sizeof_Data - MinSz * sizeof_Item + n * sizeof_Item <= sizeof_Data * cells n.
Proof. intros. pose proof sizes. apply div_up_ge; nia. Qed.

Lemma cells_mono n m : 0 <= n <= m -> 1 <= cells n <= cells m.
Proof.
  intros. pose proof sizes. have (cells_fit n). split; [nia|]. apply div_up_mono; nia.
Qed.

Lemma s_n_items_cells n : 0 <= n < 2 ^ SzW -> ok_sz (cells n) -> s_n_items n = cells n.
Proof.
  intros Hn Hok. unfold s_n_items. pose proof sizes. pose proof pow_SzW. rewrite (uwrap_small SzW) by lia.
  assert (2 ^ 32 * 2 ^ 24 + 2 ^ 24 < 2 ^ 64) by reflexivity. rewrite u64_small by nia.
  apply uwrap_small. fold (cells n). apply ok_sz_multi in Hok as [? _]; [lia|apply Mantissa_multi].
Qed.

Lemma Chunk_of_ok v : Z.of_nat (length v) < 2 ^ SzW -> Chunk_of v = chunk_of v.
Proof. intros. unfold Chunk_of. rewrite uwrap_small by lia. by rewrite Nat2Z.id, firstn_all. Qed.

Lemma vrepr_at f h i v : vrepr f h -> h !! i = Some v -> 1 <= i /\ at_ i f = Ret (chunk_of v) /\ ok_vec v /\
  lift h !! i = Some (cells (Z.of_nat (length v)), chunk_of v) /\ n_items (chunk_of v) = cells (Z.of_nat (length v)).
Proof.
  intros [Hr Hok] Hi. assert (lift h !! i = Some (cells (Z.of_nat (length v)), chunk_of v)) as Hl.
  { unfold lift. by rewrite lookup_fmap, Hi. }
  destruct (repr_range _ _ _ _ _ Hr Hl) as (? & _ & ?). pose proof (Hok i v Hi) as (? & ? & ?).
  split_and!; try done. unfold n_items, chunk_of. cbn [csz]. apply s_n_items_cells; [lia|done].
Qed.

Lemma vrepr_0 f h : vrepr f h -> h !! 0 = None.
Proof.
  intros Hr. destruct (h !! 0) as [v|] eqn:Hi; [|done]. destruct (vrepr_at _ _ _ _ Hr Hi). lia.
Qed.

Lemma vrepr_delete h i f' : repr f' (delete i (lift h)) -> map_Forall (fun _ v => ok_vec v) h -> vrepr f' (delete i h).
Proof.
  intros Hr Hok. split; [unfold lift; by rewrite fmap_delete|]. by apply map_Forall_delete.
Qed.

Lemma vrepr_insert f h i v : repr f (<[i := (cells (Z.of_nat (length v)), chunk_of v)]> (lift h)) -> ok_vec v ->
  map_Forall (fun _ v => ok_vec v) h -> vrepr f (<[i := v]> h).
Proof.
  intros Hr Hv Hok. split; [unfold lift; by rewrite fmap_insert|]. by apply map_Forall_insert_2.
Qed.

(** No block of [n] cells can be had. *)
Definition full (n : Z) f : Prop := 2 ^ NIdxBits <= size f + szv (Alloc.bucket Mantissa n).

(** The file keeps its size, or grows by the block of [n] cells that [i] designates. *)
Definition grown (n : Z) f f' (i : Z) : Prop :=
  size f' = size f \/ i = size f /\ size f' = size f + szv (Alloc.bucket Mantissa n).

Lemma emplace_grown n (c : Chunk Item) f (h : gmap Z (Z * Chunk Item)) f' i : repr f h -> ok_sz n ->
  _emplace n c f = Ret (f', i) -> grown n f f' i.
Proof.
  intros [cs Hi] Hn. destruct (ok_sz_bucket _ Hn) as (Hb & Hok & _). unfold _emplace. rewrite Hb.
  destruct (class_spec _ Hok) as [Hsz Hr]. destruct (_free _ f) as [hd| |]; [|done|done]. cbn.
  destruct (Z.eqb_spec hd 0) as [->|Hnz].
  - rewrite Hsz. cbn. have (emplace_back_spec f [] h cs (szv (Alloc.bucket Mantissa n)) (Data c) Hi) as He.
    destruct (StructFile._emplace_back _ _ _ _ _ _ _ _) as [[b j]| |]; [|done|done].
    destruct He as (-> & _ & r & -> & _). intros [= <- <-]. by right.
  - intros He. left. inv_ret. unfold StructFile._emplace in *. inv_ret. by simplify_eq.
Qed.

Lemma base_emplace_spec f h v : vrepr f h -> ok_vec v ->
  match base_emplace (s_n_items (Z.of_nat (length v))) (Chunk_of v) f with
  | Ret (f', i) => h !! i = None /\ i <> 0 /\ vrepr f' (<[i := v]> h) /\ grown (cells (Z.of_nat (length v))) f f' i
  | Throw _ => writable f = false
  | Crash => full (cells (Z.of_nat (length v))) f
  end.
Proof.
  intros [Hr Hok] Hv. pose proof Hv as (_ & Hl & Hc). rewrite s_n_items_cells, Chunk_of_ok by (lia || done).
  unfold base_emplace. pose proof (emplace_spec f (lift h) _ (chunk_of v) Hr Hc) as He.
  destruct (_emplace _ _ f) as [[f' i]| |] eqn:Hem; [|done|by destruct He]. destruct He as (Hn & Hi & Hr' & _). simpl.
  assert (vrepr f' (<[i := v]> h)) as Hv' by by apply vrepr_insert.
  destruct (vrepr_at f' _ i v Hv') as (_ & Ha & _ & _ & Hn'); [apply lookup_insert_eq|].
  unfold _chk_sz, _n_items. destruct (Z.eqb_spec i 0); [done|]. rewrite Ha. simpl. rewrite Hn', Z.eqb_refl. simpl.
  split_and!; [|done|done|by eapply emplace_grown]. unfold lift in Hn. rewrite lookup_fmap in Hn. by destruct (h !! i).
Qed.

Lemma base_pop_spec f h i v : vrepr f h -> h !! i = Some v ->
  match base_pop i f with
  | Ret f' => vrepr f' (delete i h) /\ size f' = size f /\ writable f' = true
  | Throw _ => writable f = false
  | Crash => False
  end.
Proof.
  intros Hr Hi. destruct (vrepr_at _ _ _ _ Hr Hi) as (H1 & Ha & Hok & Hl & Hn).
  unfold base_pop, _n_items. destruct (Z.eqb_spec i 0); [lia|]. rewrite Ha. simpl. rewrite Hn.
  destruct Hr as [Hr HF]. pose proof (pop_spec f _ i _ _ Hr Hl) as Hp. destruct (_pop _ _ f) as [f'| |]; [|done|done].
  destruct Hp as (Hr' & Hw & Hs). split_and!; [|done|done]. by apply vrepr_delete.
Qed.

(** What an operation that stores [v] in place of the vector at [i] may do *)
Definition result f h (i : Z) v (r : outcome (t (Chunk Item) * Z)) : Prop :=
  match r with
  | Ret (f', i') => exists h', vput (delete i h) v i' h' /\ vrepr f' h' /\ grown (cells (Z.of_nat (length v))) f f' i'
  | Throw _ => writable f = false
  | Crash => writable f = false \/ full (cells (Z.of_nat (length v))) f
  end.

(** Index of a vector, 0 included *)
Definition valid h (i : Z) : Prop := i = 0 \/ is_Some (h !! i).

Lemma emplace_result f h v : vrepr f h -> v = [] \/ ok_vec v -> result f h 0 v (emplace v f).
Proof.
  intros Hr Hv. unfold emplace, result. rewrite (delete_id h 0) by by eapply vrepr_0.
  destruct v as [|x v]; [exists h; split_and!; [by left|done|by left]|]. destruct Hv as [?|Hv]; [done|].
  pose proof (base_emplace_spec f h (x :: v) Hr Hv) as He.
  destruct (base_emplace _ _ f) as [[f' i]| |]; [|done|by right].
  destruct He as (? & ? & ? & ?). eexists. split_and!; [right; by split_and!|done|done].
Qed.

Lemma pop_result f h i : vrepr f h -> valid h i ->
  match pop i f with
  | Ret f' => vrepr f' (delete i h) /\ size f' = size f
  | Throw _ => writable f = false
  | Crash => False
  end.
Proof.
  intros Hr [->|[v Hi]]; unfold pop.
  - simpl. by rewrite delete_id by by eapply vrepr_0.
  - destruct (vrepr_at _ _ _ _ Hr Hi). destruct (Z.eqb_spec i 0); [lia|].
    pose proof (base_pop_spec f h i v Hr Hi). destruct (base_pop i f); tauto.
Qed.

(** Replacement through a new block *)
Lemma realloc_result f h i l v : vrepr f h -> h !! i = Some l -> ok_vec v ->
  result f h i v (f ← base_pop i f; base_emplace (s_n_items (Z.of_nat (length v))) (Chunk_of v) f).
Proof.
  intros Hr Hi Hv. pose proof (base_pop_spec f h i l Hr Hi) as Hp.
  destruct (base_pop i f) as [f1| |]; [|done|done]. destruct Hp as (Hr1 & Hs & Hw). simpl.
  pose proof (base_emplace_spec f1 _ v Hr1 Hv) as He. unfold result.
  destruct (base_emplace _ _ f1) as [[f' i']| |]; [|congruence|right; unfold full in *; by rewrite <- Hs].
  destruct He as (? & ? & ? & Hg). unfold grown in Hg. rewrite Hs in Hg.
  eexists. split_and!; [right; split_and!; [apply Hv|done|done|done]|done|done].
Qed.

(** Update of the items without moving the block *)
Lemma write_result f h i l v : vrepr f h -> h !! i = Some l -> ok_vec v ->
  cells (Z.of_nat (length v)) = cells (Z.of_nat (length l)) ->
  result f h i v (f ← write i (chunk_of v) f; Ret (f, i)).
Proof.
  intros Hr Hi Hv Hc. destruct (vrepr_at _ _ _ _ Hr Hi) as (H1 & _ & _ & Hl & _). unfold write, result.
  destruct (writable f); [|by left]. simpl. destruct Hr as [Hr Hok].
  exists (<[i := v]> (delete i h)). split_and!; [| |by left].
  - right. split_and!; [apply Hv|lia|apply lookup_delete_eq|done].
  - rewrite insert_delete_eq. apply vrepr_insert; [|done|done]. rewrite Hc. by eapply write_spec.
Qed.

Lemma view_spec f h i : vrepr f h -> valid h i -> view i f = Ret (hget h i).
Proof.
  intros Hr [->|[v Hi]]; unfold view, hget; [by rewrite (vrepr_0 f)|].
  destruct (vrepr_at _ _ _ _ Hr Hi) as (? & -> & _). destruct (Z.eqb_spec i 0); [lia|]. rewrite Hi. simpl.
  by rewrite Nat2Z.id, firstn_all.
Qed.

Lemma assign_result f h i v : vrepr f h -> valid h i -> v = [] \/ ok_vec v -> result f h i v (assign i v f).
Proof.
  intros Hr Hval Hv. unfold assign. destruct Hval as [->|[l Hi]]; [by apply emplace_result|].
  destruct (vrepr_at _ _ _ _ Hr Hi) as (H1 & Ha & Hl & Hli & Hn). destruct (Z.eqb_spec i 0); [lia|].
  destruct v as [|x v].
  { pose proof (pop_result f h i Hr (or_intror (ex_intro _ _ Hi))) as Hp.
    destruct (pop i f) as [f'| |]; simpl; [destruct Hp; exists (delete i h); split_and!; [by left|done|by left]|done|done]. }
  destruct Hv as [?|Hv]; [done|]. rewrite Ha. cbn -[length Chunk_of]. rewrite Hn.
  destruct (Z.eqb_spec (s_n_items (Z.of_nat (length (x :: v)))) (cells (Z.of_nat (length l)))) as [He|He].
  2:{ by eapply realloc_result. }
  cbn -[length]. destruct Hv as (Hv1 & Hv2 & Hv3). rewrite s_n_items_cells in He by (lia || done).
  destruct (writable f) eqn:Hw.
  - rewrite chk_writable_ok by done. cbn -[length]. rewrite uwrap_small by lia. by eapply write_result.
  - unfold chk_writable, RawFile.chk_writable. unfold writable in Hw. by rewrite Hw.
Qed.

Lemma append_result f h i v : vrepr f h -> valid h i -> hget h i ++ v = [] \/ ok_vec (hget h i ++ v) ->
  result f h i (hget h i ++ v) (append i v f).
Proof.
  intros Hr Hval Hv. unfold append. destruct Hval as [->|[l Hi]].
  { simpl. unfold hget in *. rewrite (vrepr_0 f h) in * by done. by apply emplace_result. }
  destruct (vrepr_at _ _ _ _ Hr Hi) as (H1 & Ha & Hl & Hli & Hn). destruct (Z.eqb_spec i 0); [lia|].
  pose proof (view_spec f h i Hr (or_intror (ex_intro _ _ Hi))) as Hview.
  assert (hget h i = l) as Hg by (unfold hget; by rewrite Hi). rewrite Hg in *.
  destruct v as [|x v].
  { rewrite app_nil_r. exists h. split_and!; [|done|by left]. right. destruct Hl as (? & _).
    split_and!; [done|lia|apply lookup_delete_eq|by rewrite insert_delete_id]. }
  destruct Hv as [Hv|Hv]; [by destruct l|]. pose proof Hv as (_ & Hv2 & Hv3). destruct Hl as (Hl1 & Hl2 & Hl3).
  rewrite Ha. cbn -[length Chunk_of]. rewrite Hn. rewrite length_app, Nat2Z.inj_add in *.
  rewrite s_n_items_cells by (lia || done).
  destruct (Z.ltb_spec (cells (Z.of_nat (length l))) (cells (Z.of_nat (length l) + Z.of_nat (length (x :: v))))) as [Hlt|Hge].
  - rewrite Hview. cbn -[length Chunk_of]. rewrite <- s_n_items_cells by (lia || done).
    rewrite <- Nat2Z.inj_add, <- length_app. by eapply realloc_result.
  - rewrite uwrap_small by lia. rewrite Nat2Z.id, firstn_all. rewrite <- Nat2Z.inj_add, <- length_app in *.
    apply (write_result f h i l (l ++ x :: v)); [done|done|done|].
    pose proof (length_app l (x :: v)).
    have (cells_mono (Z.of_nat (length l)) (Z.of_nat (length (l ++ x :: v)))). lia.
Qed.

Lemma ok_vec_prefix v n : ok_vec v -> (0 < n <= length v)%nat -> ok_vec (take n v) /\
  1 <= cells (Z.of_nat (length (take n v))) <= cells (Z.of_nat (length v)).
Proof.
  intros (Hv & Hl & Hc) Hn. pose proof (length_take v n).
  have (cells_mono (Z.of_nat (length (take n v))) (Z.of_nat (length v))) as Hm.
  split; [|done]. split_and!.
  - destruct v, n; simpl in *; by try lia.
  - lia.
  - apply (ok_sz_le _ (cells (Z.of_nat (length v)))); [apply Mantissa_multi|done|done].
Qed.

Lemma shorten_by_result f h i n : vrepr f h -> valid h i -> 0 <= n <= Z.of_nat (length (hget h i)) ->
  result f h i (take (length (hget h i) - Z.to_nat n) (hget h i)) (shorten_by i n f).
Proof.
  intros Hr Hval Hn. unfold shorten_by. destruct Hval as [->|[l Hi]].
  { unfold hget in *. rewrite (vrepr_0 f h) in * by done. simpl in Hn. assert (n = 0) as -> by lia.
    cbn. exists h. split_and!; [left; split_and!; [done|done|]|done|by left]. symmetry. apply delete_id. by eapply vrepr_0. }
  destruct (vrepr_at _ _ _ _ Hr Hi) as (H1 & Ha & Hl & Hli & Hni).
  assert (hget h i = l) as Hg by (unfold hget; by rewrite Hi). rewrite Hg in *.
  unfold vsize. destruct (Z.eqb_spec i 0); [lia|]. rewrite Ha. cbn [mbind outcome_mbind].
  change (csz (chunk_of l)) with (Z.of_nat (length l)). rewrite swear_bind by (apply Z.leb_le; lia).
  destruct (Z.eqb_spec n (Z.of_nat (length l))) as [->|Hne].
  { pose proof (pop_result f h i Hr (or_intror (ex_intro _ _ Hi))) as Hp. rewrite Nat2Z.id, Nat.sub_diag.
    destruct (pop i f) as [f'| |]; simpl; [destruct Hp; exists (delete i h); split_and!; [by left|done|by left]|done|done]. }
  destruct (ok_vec_prefix l (length l - Z.to_nat n)) as [Hok' Hcm]; [done|lia|].
  set (l' := take (length l - Z.to_nat n) l) in *.
  assert (Chunk_shorten_by n (chunk_of l) = Ret (chunk_of l')) as ->.
  { unfold Chunk_shorten_by, chunk_of. cbn [csz citems]. rewrite swear_bind by (apply Z.ltb_lt; lia).
    unfold l'. rewrite length_take. do 2 f_equal; [lia|f_equal; lia]. }
  cbn [mbind outcome_mbind]. unfold write. destruct (writable f) eqn:Hw; [|by left]. cbn [mbind outcome_mbind].
  pose proof (write_spec f _ i _ _ (chunk_of l') (proj1 Hr) Hli) as Hr1.
  set (f1 := set_mem f _) in *.
  assert (_n_items i f1 = Ret (cells (Z.of_nat (length l')))) as Hni1.
  { destruct (repr_range f1 _ i _ _ Hr1 (lookup_insert_eq _ _ _)) as (_ & _ & Ha1).
    unfold _n_items. destruct (Z.eqb_spec i 0); [lia|]. rewrite Ha1. cbn [mbind outcome_mbind]. f_equal.
    destruct Hok' as (_ & ? & ?). unfold n_items. apply s_n_items_cells; [simpl; lia|done]. }
  unfold base_shorten. rewrite Hni1. cbn [mbind outcome_mbind].
  destruct Hl as (_ & Hl2 & Hl3). rewrite s_n_items_cells by (lia || done).
  pose proof (shorten_spec f1 _ i (cells (Z.of_nat (length l))) (cells (Z.of_nat (length l'))) (chunk_of l')
    Mantissa_multi Hr1 (lookup_insert_eq _ _ _) ltac:(lia)) as Hs.
  destruct (_shorten _ _ _ f1) as [f2| |] eqn:Hsh; [|exact Hs|done]. apply shorten_size in Hsh as [Hsh _]; [|lia]. cbn [mbind outcome_mbind result].
  destruct (Z.eqb_spec (cells (Z.of_nat (length l'))) 0); [lia|].
  exists (<[i := l']> (delete i h)). split_and!; [| |by left].
  - right. split_and!; [apply Hok'|done|apply lookup_delete_eq|done].
  - rewrite insert_delete_eq. rewrite insert_insert_eq in Hs. apply vrepr_insert; [done|done|apply Hr].
Qed.

(** ** The interface as a whole *)

Inductive cmd : Type :=
| Emplace (v : list Item)
| Assign (i : Z) (v : list Item)
| Append (i : Z) (v : list Item)
| ShortenBy (i n : Z)
| Pop (i : Z).

Definition exec (c : cmd) f : outcome (t (Chunk Item) * Z) :=
  match c with
  | Emplace v => emplace v f
  | Assign i v => assign i v f
  | Append i v => append i v f
  | ShortenBy i n => shorten_by i n f
  | Pop i => f ← pop i f; Ret (f, 0)
  end.

(** The vector a command replaces, and what it replaces it with *)
Definition target (c : cmd) : Z :=
  match c with Emplace _ => 0 | Assign i _ | Append i _ | ShortenBy i _ | Pop i => i end.
Definition content (c : cmd) h : list Item :=
  match c with
  | Emplace v | Assign _ v => v
  | Append i v => hget h i ++ v
  | ShortenBy i n => take (length (hget h i) - Z.to_nat n) (hget h i)
  | Pop _ => []
  end.

Definition cmd_ok (c : cmd) h : Prop :=
  valid h (target c) /\ (content c h = [] \/ ok_vec (content c h)) /\
  match c with ShortenBy i n => 0 <= n <= Z.of_nat (length (hget h i)) | _ => True end.

(** C23 A file that holds a map of vectors shows them through [view], and each operation of
    [VectorFile] replaces the vector at its index by the expected list of items,
    in place or at an index no other vector uses, and leaves all other vectors alone. The file keeps its
    size or grows by the block of the new vector. It throws only
    on a read-only file and stops the server only on a read-only or full one. *)
Theorem vector_refines c f h : vrepr f h -> cmd_ok c h ->
  (forall i, valid h i -> view i f = Ret (hget h i)) /\
  result f h (target c) (content c h) (exec c f).
Proof.
  intros Hr (Hv & Hc & Hn). split; [intros; by apply view_spec|]. destruct c; simpl in *.
  - by apply emplace_result.
  - by apply assign_result.
  - by apply append_result.
  - by apply shorten_by_result.
  - pose proof (pop_result f h i Hr Hv) as Hp. destruct (pop i f) as [f'| |]; [|done|done].
    destruct Hp. exists (delete i h). split_and!; [by left|done|by left].
Qed.
End proofs.

Module VSample.
#[export] Instance VP : Params :=
  {| Mantissa := 8; W := 16; NIdxBits := 14; sizeof_Hdr := 2000; sizeof_Data := 8; PAGE_SZ := 4096 |}.
#[export] Instance VHP : ParamsOk VP.
Proof. split; simpl; lia. Qed.
#[export] Instance VV : VParams := {| sizeof_Item := 4; MinSz := 1; SzW := 16 |}.
#[export] Instance VHV : VParamsOk VP VV.
Proof. split; simpl; lia. Qed.

Definition get (o : outcome (t (Chunk nat) * Z)) : t (Chunk nat) :=
  match o with Ret (f, _) => f | _ => mk (StructFile.mk (RawFile.mk 0 true) 0 ∅) [] end.
Definition f0 : t (Chunk nat) := get (f ← init (RawFile.mk 0 true); Ret (f, 0)).

Lemma vrepr0 : vrepr f0 ∅.
Proof.
  split; [|apply map_Forall_empty]. unfold lift. rewrite fmap_empty.
  by apply reach_repr, (reach_init (RawFile.mk 0 true)).
Qed.

Lemma vector_refines_witness :
  result f0 ∅ 0 [5; 6; 7]%nat (exec (Emplace [5; 6; 7]%nat) f0) /\
  view 1 (get (exec (Emplace [5; 6; 7]%nat) f0)) = Ret [5; 6; 7]%nat.
Proof.
  split; [|by vm_compute]. apply (vector_refines (Emplace [5; 6; 7]%nat) f0 ∅ vrepr0).
  split; [by left|]. split; [right|done]. split; [done|]. split; [by vm_compute|].
  by vm_compute.
Defined.
End VSample.
End VectorFile.
