(* ===== verification/StoreIdxed.v ===== *)
(** * Typed indices and compact vectors: src/store/idxed.hh.

    [Idxed] packs side bits above an index, [Idxed2] is a tagged union of two index types by sign,
    and [CrunchBase] is a vector that stores a single item in place of its index. *)
From S2P Require Import Prelude.
From S2P Require Import Arith.
From S2P Require Import StoreFile.
From S2P Require Import StoreAlloc.
From S2P Require Import StoreAllocFile.
From S2P Require Import StoreAllocInv.
From S2P Require Import StoreAllocThm.
From S2P Require Import StoreVector.
Local Open Scope Z_scope.

Module Idxed.
Section ops.
(** Bits of [Idx], and of the index proper *)
Context (NB NValBits : Z).

(** [Idxed(i)] with its overflow check *)
Definition mk (i : Z) : outcome Z :=
  _ ← swear (Z.land i (Z.lnot (lsb_msk 64 NValBits)) =? 0); Ret i.

(** [operator+] *)
Definition idx (val : Z) : Z := Z.land val (lsb_msk 64 NValBits).

(** [side<W,LSB>()] and [set_side<W,LSB>(v)] *)
Definition side (W LSB val : Z) : Z :=
  Z.land (uwrap NB (Z.shiftr val (LSB + NValBits))) (lsb_msk NB W).
Definition set_side (W LSB v val : Z) : Z :=
  Z.lor (uwrap NB (Z.land val (Z.lnot (Z.shiftl (lsb_msk NB W) (LSB + NValBits)))))
        (uwrap NB (Z.shiftl (Z.land v (lsb_msk NB W)) (LSB + NValBits))).

(** The constraint on the template parameters of [side] and [set_side] *)
Definition field (W LSB : Z) : Prop := 0 < W /\ 0 <= LSB /\ W + LSB + NValBits <= NB - 1.

(** The check fires from [2 ^ NValBits] on. *)
Lemma mk_spec i : 0 <= NValBits < 64 -> 0 <= i -> mk i = if i <? 2 ^ NValBits then Ret i else Crash.
Proof.
  intros HN Hi. unfold mk. assert (lsb_msk 64 NValBits = Z.ones NValBits) as ->.
  { unfold lsb_msk. rewrite Z.shiftl_1_l. assert (0 < 2 ^ NValBits < 2 ^ 64) by (split; [lia|apply Z.pow_lt_mono_r; lia]).
    rewrite (uwrap_small 64 (2 ^ NValBits)), uwrap_small by lia. rewrite Z.ones_equiv. lia. }
  rewrite <- Z.ldiff_land, Z.ldiff_ones_r, Z.shiftl_mul_pow2, Z.shiftr_div_pow2 by lia.
  destruct (Z.ltb_spec i (2 ^ NValBits)) as [Hlt|Hge].
  - rewrite Z.div_small by lia. done.
  - assert (1 <= i `div` 2 ^ NValBits) by (apply Z.div_le_lower_bound; lia).
    by rewrite (proj2 (Z.eqb_neq _ _)) by nia.
Qed.

Lemma mk_ok i : 0 <= NValBits < 64 -> 0 <= i < 2 ^ NValBits -> mk i = Ret i.
Proof. intros HN Hi. rewrite mk_spec by lia. by rewrite (proj2 (Z.ltb_lt _ _)) by lia. Qed.

Context (HNB : 1 <= NB <= 64) (HNV : 0 <= NValBits < NB).

Lemma lsb_msk_bits w b i : 0 <= b < w -> 0 <= i -> Z.testbit (lsb_msk w b) i = (i <? b).
Proof.
  intros Hb Hi. unfold lsb_msk. rewrite Z.shiftl_1_l.
  assert (0 < 2 ^ b < 2 ^ w) by (split; [lia|apply Z.pow_lt_mono_r; lia]).
  rewrite (uwrap_small w (2 ^ b)) by lia. rewrite uwrap_small by lia.
  replace (2 ^ b - 1) with (Z.ones b) by (rewrite Z.ones_equiv; lia). by rewrite Z.testbit_ones_nonneg by lia.
Qed.

Lemma uwrap_bits w z i : 0 <= w -> 0 <= i -> Z.testbit (uwrap w z) i = (i <? w) && Z.testbit z i.
Proof.
  intros Hw Hi. unfold uwrap. destruct (Z.ltb_spec i w).
  - rewrite Z.mod_pow2_bits_low by lia. done.
  - rewrite Z.mod_pow2_bits_high by lia. done.
Qed.

Lemma side_bits W LSB val i : field W LSB -> 0 <= i ->
  Z.testbit (side W LSB val) i = (i <? W) && Z.testbit val (i + LSB + NValBits).
Proof.
  intros (HW & HL & Hs) Hi. unfold side. rewrite Z.land_spec, uwrap_bits, lsb_msk_bits, Z.shiftr_spec by lia.
  rewrite <- Z.add_assoc. destruct (Z.ltb_spec i W), (Z.ltb_spec i NB); simpl; try lia; by rewrite ?andb_true_r, ?andb_false_r.
Qed.

Lemma set_side_bits W LSB v val i : field W LSB -> 0 <= i < NB ->
  Z.testbit (set_side W LSB v val) i =
  if (LSB + NValBits <=? i) && (i <? LSB + NValBits + W) then Z.testbit v (i - (LSB + NValBits)) else Z.testbit val i.
Proof.
  intros (HW & HL & Hs) Hi. unfold set_side.
  rewrite Z.lor_spec, !uwrap_bits, Z.land_spec, Z.lnot_spec, !Z.shiftl_spec by lia.
  destruct (Z.leb_spec (LSB + NValBits) i).
  - rewrite Z.land_spec, !lsb_msk_bits by lia.
    destruct (Z.ltb_spec i NB), (Z.ltb_spec i (LSB + NValBits + W)), (Z.ltb_spec (i - (LSB + NValBits)) W); try lia; simpl;
      by rewrite ?andb_false_r, ?andb_true_r, ?orb_false_r.
  - rewrite !(Z.testbit_neg_r _ (i - (LSB + NValBits))) by lia.
    destruct (Z.ltb_spec i NB); [|lia]. simpl. by rewrite andb_true_r, orb_false_r.
Qed.

(** Side bits: on a [NB]-bit value, [set_side] makes [side] return the value set, and changes
    neither the index nor any other field nor the sign bit. *)
Theorem set_side_frame W LSB v val : field W LSB -> 0 <= v < 2 ^ W -> 0 <= val < 2 ^ NB ->
  side W LSB (set_side W LSB v val) = v /\
  idx (set_side W LSB v val) = idx val /\
  (forall W' LSB', field W' LSB' -> LSB' + W' <= LSB \/ LSB + W <= LSB' ->
     side W' LSB' (set_side W LSB v val) = side W' LSB' val) /\
  Z.testbit (set_side W LSB v val) (NB - 1) = Z.testbit val (NB - 1).
Proof.
  intros Hf Hv Hval. pose proof Hf as (HW & HL & Hs). split_and!.
  - apply Z.bits_inj'. intros i Hi. rewrite side_bits by done.
    destruct (Z.ltb_spec i W).
    + rewrite set_side_bits by (done || lia). simpl.
      rewrite (proj2 (Z.leb_le _ _)), (proj2 (Z.ltb_lt _ _)) by lia. simpl. f_equal. lia.
    + rewrite (Z.bits_above_log2 v); [done|lia|]. destruct (decide (v = 0)) as [->|]; [simpl; lia|].
      apply Z.log2_lt_pow2; [lia|]. assert (2 ^ W <= 2 ^ i) by (apply Z.pow_le_mono_r; lia). lia.
  - unfold idx. apply Z.bits_inj'. intros i Hi. rewrite !Z.land_spec, lsb_msk_bits by lia.
    destruct (Z.ltb_spec i NValBits); [|by rewrite !andb_false_r]. rewrite set_side_bits by (done || lia).
    by rewrite (proj2 (Z.leb_gt _ _)) by lia.
  - intros W' LSB' (HW' & HL' & Hs') Hd. apply Z.bits_inj'. intros i Hi. rewrite !side_bits by done.
    destruct (Z.ltb_spec i W'); [|done]. rewrite set_side_bits by (done || lia). simpl.
    destruct (Z.leb_spec (LSB + NValBits) (i + LSB' + NValBits)), (Z.ltb_spec (i + LSB' + NValBits) (LSB + NValBits + W)); simpl; by try lia.
  - rewrite set_side_bits by (done || lia).
    destruct (Z.leb_spec (LSB + NValBits) (NB - 1)), (Z.ltb_spec (NB - 1) (LSB + NValBits + W)); simpl; by try lia.
Qed.
End ops.

Lemma set_side_frame_witness : side 32 28 2 0 (set_side 32 28 2 0 3 5) = 3.
Proof. apply (set_side_frame 32 28 ltac:(lia) ltac:(lia) 2 0 3 5); [unfold field; lia|lia|lia]. Defined.
End Idxed.

(** [Idxed2<A,B>]: [A] by positive values, [B] by negative ones, 0 belonging to both *)
Module Idxed2.
Section ops.
(** Bits of [Idx] and of the indices [A] and [B] proper *)
Context (NB NA NBV : Z).

(** Conversion to [SIdx] *)
Definition SIdx (z : Z) : Z := let u := uwrap NB z in if u <? 2 ^ (NB - 1) then u else u - 2 ^ NB.

Definition of_a (a : Z) : Z := SIdx a.
Definition of_b (b : Z) : Z := SIdx (- b).
Definition is_a (v : Z) : bool := 0 <=? v.
Definition is_b (v : Z) : bool := v <=? 0.

(** The index is made by the constructor of the type, which checks it. *)
Definition to_a (v : Z) : outcome Z := _ ← swear (is_a v); Idxed.mk NA (uwrap NB v).
Definition to_b (v : Z) : outcome Z := _ ← swear (is_b v); Idxed.mk NBV (uwrap NB (- v)).

Context (HNB : 1 <= NB <= 32) (HNA : 0 <= NA < NB) (HNBV : 0 <= NBV < NB).

Lemma below w z : 0 <= w < NB -> z < 2 ^ w -> z < 2 ^ (NB - 1).
Proof. intros. assert (2 ^ w <= 2 ^ (NB - 1)) by (apply Z.pow_le_mono_r; lia). lia. Qed.

Lemma SIdx_small z : - 2 ^ (NB - 1) <= z < 2 ^ (NB - 1) -> SIdx z = z.
Proof.
  intros Hz. assert (2 ^ NB = 2 * 2 ^ (NB - 1)) as E by (rewrite <- Z.pow_succ_r by lia; f_equal; lia).
  unfold SIdx, uwrap. destruct (Z.le_gt_cases 0 z).
  - rewrite Z.mod_small by lia. by rewrite (proj2 (Z.ltb_lt _ _)) by lia.
  - replace (z mod 2 ^ NB) with (z + 2 ^ NB).
    + rewrite (proj2 (Z.ltb_ge _ _)) by lia. lia.
    + rewrite <- (Z.mod_add _ 1), Z.mod_small; lia.
Qed.

Lemma of_a_ok a : 0 <= a < 2 ^ NA -> of_a a = a.
Proof. intros Ha. have (below NA a). apply SIdx_small. lia. Qed.

Lemma of_b_ok b : 0 <= b < 2 ^ NBV -> of_b b = - b.
Proof. intros Hb. have (below NBV b). apply SIdx_small. lia. Qed.

Lemma to_a_ok a : 0 <= a < 2 ^ NA -> to_a a = Ret a.
Proof.
  intros Ha. unfold to_a, is_a. rewrite swear_bind by (apply Z.leb_le; lia).
  assert (2 ^ NA <= 2 ^ NB) by (apply Z.pow_le_mono_r; lia). rewrite uwrap_small by lia. apply Idxed.mk_ok; lia.
Qed.

Lemma to_b_ok b : 0 <= b < 2 ^ NBV -> to_b (- b) = Ret b.
Proof.
  intros Hb. unfold to_b, is_b. rewrite swear_bind by (apply Z.leb_le; lia). rewrite Z.opp_involutive.
  assert (2 ^ NBV <= 2 ^ NB) by (apply Z.pow_le_mono_r; lia). rewrite uwrap_small by lia. apply Idxed.mk_ok; lia.
Qed.
End ops.
End Idxed2.

(** [CrunchBase]: no item is 0, a single item is held by value, longer vectors by index *)
Module Crunch.
Import AllocFile VectorFile.

(** Guard bits of [Vector], and bits of the indices that the constructor of [Item] accepts *)
Class CParams := { NGuardBits : Z; NItemBits : Z }.

Class CParamsOk (P : Params) (C : CParams) : Prop := {
  NGuardBits_ok : 1 <= NGuardBits <= W;
  NItemBits_ok : 0 <= NItemBits < W;
}.

(** [Vector::NValBits] *)
Definition NValBits {P : Params} {C : CParams} : Z := W - NGuardBits.

Abbreviation of_item := (Idxed2.of_a W).
Abbreviation to_item := (Idxed2.to_a W NItemBits).
Abbreviation to_idx := (Idxed2.to_b W NValBits).

Section ops.
Context {P : Params} {V : VParams} {C : CParams}.
Abbreviation file := (t (Chunk Z)).
Implicit Types (f : file) (v : list Z).

Definition _multi (self : Z) : bool := negb (Idxed2.is_a self).
Definition _single (self : Z) : bool := negb (Idxed2.is_b self).

(** [static_cast<Base&>(self) = Vector(i)]: the index goes through the check of [Vector(i)] *)
Definition to_vector (r : outcome (file * Z)) : outcome (file * Z) :=
  '(f, i) ← r; i ← Idxed.mk NValBits i; Ret (f, Idxed2.of_b W i).

(** [CrunchBase(span)] *)
Definition of_span v f : outcome (file * Z) :=
  match v with
  | [x] => Ret (f, of_item x)
  | _ => to_vector (emplace v f)
  end.

Definition assign (self : Z) v f : outcome (file * Z) :=
  if negb (_multi self) then of_span v f
  else
    i ← to_idx self;
    match v with
    | [x] => f ← VectorFile.pop i f; Ret (f, of_item x)
    | _ => to_vector (VectorFile.assign i v f)
    end.

Definition pop (self : Z) f : outcome (file * Z) :=
  f ← (if _multi self then i ← to_idx self; VectorFile.pop i f else Ret f);
  Ret (f, 0).

Definition size (self : Z) f : outcome Z :=
  if _single self then Ret 1 else i ← to_idx self; vsize i f.

(** [view()], the span of [items()] and [size()] *)
Definition cview (self : Z) f : outcome (list Z) :=
  if _single self then Ret [self] else i ← to_idx self; view i f.

(** [assign(span(items(),1))]: the item is read through a span into the block that [assign] frees;
    the link stored there overlays the size of the chunk, not its items *)
Definition shorten_by (self by_ : Z) f : outcome (file * Z) :=
  sz ← size self f;
  _ ← swear (by_ <=? sz);
  if negb (_multi self) then Ret (f, if by_ =? sz then 0 else self)
  else if negb (by_ =? sz - 1) then i ← to_idx self; to_vector (VectorFile.shorten_by i by_ f)
  else v ← cview self f; assign self (take 1 v) f.

Definition append (self : Z) v f : outcome (file * Z) :=
  if self =? 0 then assign self v f
  else if _multi self then i ← to_idx self; to_vector (VectorFile.append i v f)
  else match v with
  | [] => Ret (f, self)
  | _ => x ← to_item self; to_vector (emplace1 x v f)
  end.
End ops.

Section proofs.
Context {P : Params} {HP : ParamsOk P} {V : VParams} {HV : VParamsOk P V} {C : CParams} {HC : CParamsOk P C}.
Implicit Types (f : t (Chunk Z)) (v : list Z) (h : gmap Z (list Z)).

(** Items, as their constructor accepts them *)
Definition item (x : Z) : Prop := 0 < x < 2 ^ NItemBits.

(** All the indices of the file are in the range of [Vector]. *)
Definition fits f : Prop := AllocFile.size f <= 2 ^ NValBits.

Lemma NValBits_ok : 0 <= NValBits < W.
Proof. unfold NValBits. pose proof NGuardBits_ok. lia. Qed.

Lemma W_32 : 1 <= W <= 32.
Proof. pose proof W_ok. lia. Qed.

Lemma idx_fits f h i l : fits f -> vrepr f h -> h !! i = Some l -> 1 <= i < 2 ^ NValBits.
Proof.
  intros Hf Hr Hi. destruct (vrepr_at _ _ _ _ Hr Hi) as (H1 & _ & _ & Hl & _).
  destruct (repr_range _ _ _ _ _ (proj1 Hr) Hl) as (_ & H2 & _). have (cells_mono (Z.of_nat (length l)) (Z.of_nat (length l))).
  unfold fits in Hf. lia.
Qed.

(** Content of a crunched vector *)
Definition cget h (self : Z) : list Z := if 0 <? self then [self] else hget h (- self).

(** It is 0, an item, or the index of a vector of at least two items. *)
Definition cvalid h (self : Z) : Prop :=
  0 <= self \/ exists l, h !! (- self) = Some l /\ (2 <= length l)%nat.

(** [v] replaces the content of [self], giving [self']; other vectors are not concerned. *)
Definition cput h (self : Z) v (self' : Z) h' : Prop :=
  cget h' self' = v /\ cvalid h' self' /\
  forall i l, h !! i = Some l -> i <> - self -> i <> - self' /\ h' !! i = Some l.

Definition cresult f h (self : Z) v (r : outcome (t (Chunk Z) * Z)) : Prop :=
  match r with
  | Ret (f', self') => exists h', cput h self v self' h' /\ vrepr f' h' /\ grown (cells (Z.of_nat (length v))) f f' (- self')
  | Throw _ => writable f = false
  | Crash => writable f = false \/ full (cells (Z.of_nat (length v))) f \/ AllocFile.size f = 2 ^ NValBits
  end.

Lemma vput_cput h i v i' h' : vput (delete i h) v i' h' -> length v <> 1%nat -> 0 <= i' ->
  h !! 0 = None -> cput h (- i) v (- i') h'.
Proof.
  intros Hp Hl Hi' H0. unfold cput, cget, cvalid, hget. rewrite !Z.opp_involutive.
  destruct (Z.ltb_spec 0 (- i')); [lia|].
  destruct Hp as [(-> & -> & ->)|(Hv & Hi & Hn & ->)].
  - split_and!.
    + destruct (decide (i = 0)) as [->|Hne]; [by rewrite lookup_delete_eq|]. rewrite lookup_delete_ne by done. by rewrite H0.
    + by left.
    + intros j l Hj Hne. split; [intros ->; congruence|]. by rewrite lookup_delete_ne by done.
  - rewrite !lookup_insert_eq. split_and!; [done|right; exists v; split; [done|]|].
    + destruct v as [|? [|]]; simpl in *; by try lia.
    + intros j l Hj Hne. split.
      * intros ->. rewrite lookup_delete_ne in Hn by done. congruence.
      * rewrite lookup_insert_ne; [by rewrite lookup_delete_ne by done|].
        intros ->. rewrite lookup_delete_ne in Hn by done. congruence.
Qed.

Lemma cput_item f h self x : vrepr f h -> 0 < x -> cput h self [x] x h.
Proof.
  intros Hr Hx. unfold cput, cget, cvalid. destruct (Z.ltb_spec 0 x); [|lia]. split_and!; [done|left; lia|].
  intros i l Hi _. split; [|done]. intros ->. destruct (vrepr_at _ _ _ _ Hr Hi). lia.
Qed.

Lemma result_cresult f h i v r : fits f -> vrepr f h -> result f h i v r -> length v <> 1%nat ->
  cresult f h (- i) v (to_vector r).
Proof.
  intros Hf Hr Hres Hl. unfold to_vector. destruct r as [[f' i']| |]; [|done|destruct Hres; simpl; tauto]. simpl.
  destruct Hres as (h' & Hp & Hr' & Hg). pose proof NValBits_ok as HN. pose proof W_32 as HW.
  assert (0 <= i' /\ (i' = AllocFile.size f \/ i' < 2 ^ NValBits)) as [H0 Hi'].
  { destruct Hp as [(_ & -> & _)|(_ & _ & _ & ->)]; [split; [done|right; lia]|].
    destruct Hg as [Hg|[Hg _]].
    - assert (fits f') as Hf' by (unfold fits in *; lia).
      have (idx_fits f' _ i' v Hf' Hr' (lookup_insert_eq _ _ _)). lia.
    - destruct (vrepr_at _ _ i' v Hr' (lookup_insert_eq _ _ _)). split; [lia|by left]. }
  rewrite Idxed.mk_spec by lia. destruct (Z.ltb_spec i' (2 ^ NValBits)); cbn.
  - rewrite (Idxed2.of_b_ok W NValBits) by lia. exists h'. rewrite Z.opp_involutive. split_and!; [|done|done].
    apply vput_cput; [done|done|done|by eapply vrepr_0].
  - right. right. unfold fits in Hf. lia.
Qed.

(** Values of at least 0 own no vector of the file. *)
Lemma cresult_nonneg f h self v r : vrepr f h -> 0 <= self -> cresult f h 0 v r -> cresult f h self v r.
Proof.
  intros Hr Hs. destruct r as [[f' s']| |]; [|done|done]. intros (h' & (H1 & H2 & H3) & Hr'). exists h'.
  split; [|done]. split_and!; [done|done|]. intros i l Hi _. apply H3; [done|].
  destruct (vrepr_at _ _ _ _ Hr Hi). lia.
Qed.

Lemma item_pos x : item x -> 0 < x.
Proof. by intros []. Qed.

Lemma item_held x : item x -> of_item x = x.
Proof.
  intros []. pose proof NItemBits_ok. pose proof W_32. apply (Idxed2.of_a_ok W NItemBits); lia.
Qed.

Lemma item_back x : item x -> to_item x = Ret x.
Proof.
  intros []. pose proof NItemBits_ok. pose proof W_32. apply Idxed2.to_a_ok; lia.
Qed.

Lemma of_span_result f h v : fits f -> vrepr f h -> v = [] \/ ok_vec v -> Forall item v ->
  cresult f h 0 v (of_span v f).
Proof.
  intros Hf Hr Hv Hp. pose proof (result_cresult f h 0 v _ Hf Hr (emplace_result f h v Hr Hv)) as He.
  destruct v as [|x [|y v]]; [by apply He| |by apply He]. inversion Hp; subst. simpl.
  rewrite item_held by done. exists h. split_and!; [|done|by left]. eapply cput_item; [done|by apply item_pos].
Qed.

Lemma multi_index f h self : fits f -> vrepr f h -> cvalid h self -> _multi self = true -> exists l,
  self < 0 /\ to_idx self = Ret (- self) /\ h !! (- self) = Some l /\ (2 <= length l)%nat /\ cget h self = l /\
  valid h (- self).
Proof.
  intros Hf Hr Hv Hm. unfold _multi, Idxed2.is_a in Hm. b2p. destruct Hv as [?|(l & Hl & Hlen)]; [lia|].
  exists l. pose proof (idx_fits _ _ _ _ Hf Hr Hl). pose proof NValBits_ok. pose proof W_32.
  rewrite <- (Z.opp_involutive self) at 2. rewrite Idxed2.to_b_ok by lia. unfold cget, hget, valid.
  destruct (Z.ltb_spec 0 self); [lia|]. rewrite Hl. split_and!; try done. right. by eexists.
Qed.

Lemma not_multi self : _multi self = false -> 0 <= self.
Proof. unfold _multi, Idxed2.is_a. intros. b2p. lia. Qed.

Lemma assign_cresult f h self v : fits f -> vrepr f h -> cvalid h self -> v = [] \/ ok_vec v -> Forall item v ->
  cresult f h self v (assign self v f).
Proof.
  intros Hf Hr Hc Hv Hp. unfold assign. destruct (_multi self) eqn:Hm; simpl.
  2:{ apply not_multi in Hm. apply cresult_nonneg; [done|done|]. by apply of_span_result. }
  destruct (multi_index f h self Hf Hr Hc Hm) as (l & Hs & -> & Hl & Hlen & _ & Hval). simpl.
  pose proof (result_cresult f h (- self) v _ Hf Hr (assign_result f h _ v Hr Hval Hv)) as He.
  rewrite Z.opp_involutive in He.
  destruct v as [|x [|y v]]; [by apply He| |by apply He].
  pose proof (pop_result f h _ Hr Hval) as Hpop. destruct (VectorFile.pop (- self) f) as [f'| |]; [|done|done]. simpl.
  destruct Hpop. inversion Hp; subst. rewrite item_held by done. have (item_pos x).
  exists (delete (- self) h). split_and!; [|done|by left].
  destruct (cput_item f h self x Hr ltac:(done)) as (_ & _ & Hfr). split_and!; [|left; lia|].
  - unfold cget. by destruct (Z.ltb_spec 0 x); [|lia].
  - intros i l' Hi Hne. destruct (Hfr i l' Hi Hne). split; [done|]. by rewrite lookup_delete_ne by done.
Qed.

Lemma cview_spec f h self : fits f -> vrepr f h -> cvalid h self -> cview self f = Ret (cget h self) /\
  size self f = Ret (Z.of_nat (length (cget h self))).
Proof.
  intros Hf Hr Hc. unfold cview, size, _single, Idxed2.is_b, cget.
  destruct (Z.leb_spec self 0) as [Hle|Hgt]; simpl.
  2:{ destruct (Z.ltb_spec 0 self); [done|lia]. }
  destruct (Z.ltb_spec 0 self); [lia|].
  assert (to_idx self = Ret (- self)) as ->.
  { pose proof NValBits_ok. pose proof W_32. rewrite <- (Z.opp_involutive self) at 1. apply Idxed2.to_b_ok; [lia|lia|].
    destruct Hc as [?|(l & Hl & _)]; [lia|]. have (idx_fits _ _ _ _ Hf Hr Hl). lia. }
  simpl.
  assert (valid h (- self)) as Hval.
  { destruct Hc as [?|(l & Hl & _)]; [left; lia|right; by eexists]. }
  rewrite (view_spec f h) by done. split; [done|]. unfold vsize, hget.
  destruct Hval as [H0|[l Hl]].
  - rewrite H0, (vrepr_0 f h) by done. done.
  - destruct (vrepr_at _ _ _ _ Hr Hl) as (? & -> & _). destruct (Z.eqb_spec (- self) 0); [lia|]. by rewrite Hl.
Qed.

Lemma pop_cresult f h self : fits f -> vrepr f h -> cvalid h self -> cresult f h self [] (pop self f).
Proof.
  intros Hf Hr Hc. unfold pop. destruct (_multi self) eqn:Hm.
  - destruct (multi_index f h self Hf Hr Hc Hm) as (l & Hs & -> & Hl & Hlen & _ & Hval). simpl.
    pose proof (pop_result f h _ Hr Hval) as Hpop. destruct (VectorFile.pop (- self) f) as [f'| |]; [|done|done]. simpl.
    destruct Hpop. exists (delete (- self) h). split_and!; [|done|by left].
    pose proof (vput_cput h (- self) [] 0 (delete (- self) h)) as Hp. rewrite Z.opp_involutive in Hp.
    apply Hp; [by left|done|done|by eapply vrepr_0].
  - simpl. exists h. split_and!; [|done|by left]. apply not_multi in Hm. unfold cput, cget, hget. simpl. change (- 0) with 0.
    rewrite (vrepr_0 f h) by done. split_and!; [done|by left|]. intros i l Hi _. split; [|done].
    intros ->. rewrite (vrepr_0 f h) in Hi by done. done.
Qed.

Lemma append_cresult f h self v : fits f -> vrepr f h -> cvalid h self ->
  cget h self ++ v = [] \/ ok_vec (cget h self ++ v) -> Forall item (cget h self ++ v) ->
  cresult f h self (cget h self ++ v) (append self v f).
Proof.
  intros Hf Hr Hc Hv Hp. unfold append. destruct (Z.eqb_spec self 0) as [->|Hne].
  { unfold cget, hget in *. simpl in *. change (- 0) with 0 in *. rewrite (vrepr_0 f h) in * by done. by apply assign_cresult. }
  destruct (_multi self) eqn:Hm.
  - destruct (multi_index f h self Hf Hr Hc Hm) as (l & Hs & -> & Hl & Hlen & Hg & Hval). simpl. rewrite Hg in *.
    assert (hget h (- self) = l) as Hg' by (unfold hget; by rewrite Hl). rewrite <- Hg' in *.
    pose proof (result_cresult f h (- self) _ _ Hf Hr (append_result f h _ v Hr Hval Hv)) as He.
    rewrite Z.opp_involutive in He. apply He. rewrite length_app. lia.
  - apply not_multi in Hm. assert (cget h self = [self]) as Hg by (unfold cget; by destruct (Z.ltb_spec 0 self); [|lia]).
    rewrite Hg in *. destruct v as [|x v].
    { exists h. split_and!; [|done|by left]. eapply cput_item; [done|lia]. }
    rewrite item_back by (by inversion Hp). simpl in *.
    apply cresult_nonneg; [done|done|]. destruct Hv as [?|Hv]; [done|].
    apply (result_cresult f h 0); [done|done| |done]. unfold emplace1.
    pose proof (emplace_result f h (self :: x :: v) Hr (or_intror Hv)) as He. unfold emplace in He.
    by replace (Z.of_nat (length (x :: v)) + 1) with (Z.of_nat (length (self :: x :: v))) by (simpl; lia).
Qed.

Lemma shorten_by_cresult f h self n : fits f -> vrepr f h -> cvalid h self ->
  0 <= n <= Z.of_nat (length (cget h self)) -> Forall item (cget h self) ->
  (cget h self = [] \/ ok_vec (take 1 (cget h self))) ->
  cresult f h self (take (length (cget h self) - Z.to_nat n) (cget h self)) (shorten_by self n f).
Proof.
  intros Hf Hr Hc Hn Hp Hok. unfold shorten_by. destruct (cview_spec f h self Hf Hr Hc) as [Hview Hsize].
  rewrite Hsize. simpl. rewrite swear_bind by (apply Z.leb_le; lia).
  destruct (_multi self) eqn:Hm; simpl.
  - destruct (multi_index f h self Hf Hr Hc Hm) as (l & Hs & -> & Hl & Hlen & Hg & Hval). simpl. rewrite Hg in *.
    destruct (Z.eqb_spec n (Z.of_nat (length l) - 1)) as [->|Hne]; simpl.
    + rewrite Hview. simpl. replace (length l - Z.to_nat (Z.of_nat (length l) - 1))%nat with 1%nat by lia.
      apply assign_cresult; [done|done|done| |by apply Forall_take]. destruct Hok as [->|Hok]; [by left|by right].
    + assert (hget h (- self) = l) as Hg' by (unfold hget; by rewrite Hl).
      pose proof (shorten_by_result f h (- self) n Hr Hval ltac:(by rewrite Hg')) as He. rewrite Hg' in He.
      apply result_cresult in He; [|done|done|rewrite length_take; lia]. by rewrite Z.opp_involutive in He.
  - pose proof (not_multi _ Hm). unfold cget in *. destruct (Z.ltb_spec 0 self) as [Hgt|Hle].
    + simpl in *. destruct (Z.eqb_spec n (Z.of_nat 1)) as [->|Hne].
      * pose proof (pop_cresult f h self Hf Hr Hc) as Hpop. unfold pop in Hpop.
        by rewrite Hm in Hpop.
      * assert (n = 0) as -> by lia. exists h. split_and!; [|done|by left]. eapply cput_item; [done|lia].
    + assert (self = 0) as -> by lia. unfold hget in *. simpl in *. change (- 0) with 0 in *.
      rewrite (vrepr_0 f h) in * by done.
      simpl in *. assert (n = 0) as -> by lia. pose proof (pop_cresult f h 0 Hf Hr Hc) as Hpop. done.
Qed.

(** ** The interface as a whole *)

Inductive cmd : Type :=
| Assign (v : list Z)
| Append (v : list Z)
| ShortenBy (n : Z)
| Pop.

Definition exec (c : cmd) (self : Z) f : outcome (t (Chunk Z) * Z) :=
  match c with
  | Assign v => assign self v f
  | Append v => append self v f
  | ShortenBy n => shorten_by self n f
  | Pop => pop self f
  end.

Definition content (c : cmd) (l : list Z) : list Z :=
  match c with
  | Assign v => v
  | Append v => l ++ v
  | ShortenBy n => take (length l - Z.to_nat n) l
  | Pop => []
  end.

Definition cmd_ok (c : cmd) (l : list Z) : Prop :=
  Forall item l /\ (l = [] \/ ok_vec (take 1 l)) /\
  (content c l = [] \/ ok_vec (content c l)) /\ Forall item (content c l) /\
  match c with ShortenBy n => 0 <= n <= Z.of_nat (length l) | _ => True end.

(** C24 A crunched vector behaves as the list of its items under assignment, appending, shortening
    and popping, the switches between no item, one item by value and several items in the file
    included; the other vectors of the file are left alone. The items are positive and in the range
    their constructor checks. The file has no index past the range of [Vector], and it keeps its size
    or grows by the block of the new vector. The operation throws only on a read-only file. It stops
    the server only on a read-only file, on one that cannot hold one more block, or on one whose next
    index is the first past the range of [Vector], which the constructor refuses. *)
Theorem crunch_refines c self f h : fits f -> vrepr f h -> cvalid h self -> cmd_ok c (cget h self) ->
  cview self f = Ret (cget h self) /\
  cresult f h self (content c (cget h self)) (exec c self f).
Proof.
  intros Hf Hr Hc (Hl & Hl1 & Hv & Hp & Hn). split; [by apply cview_spec|]. destruct c; simpl in *.
  - by apply assign_cresult.
  - by apply append_cresult.
  - by apply shorten_by_cresult.
  - by apply pop_cresult.
Qed.
End proofs.

Module CSample.
Import VSample.
#[export] Instance VC : CParams := {| NGuardBits := 1; NItemBits := 14 |}.
#[export] Instance VHC : CParamsOk VP VC.
Proof. split; simpl; lia. Qed.

Definition get (o : outcome (t (Chunk Z) * Z)) : t (Chunk Z) :=
  match o with Ret (f, _) => f | _ => mk (StructFile.mk (RawFile.mk 0 true) 0 ∅) [] end.
Definition f0 : t (Chunk Z) := get (f ← init (RawFile.mk 0 true); Ret (f, 0)).

Lemma crunch_vrepr0 : vrepr f0 ∅.
Proof.
  split; [|apply map_Forall_empty]. unfold lift. rewrite fmap_empty.
  by apply reach_repr, (reach_init (RawFile.mk 0 true)).
Qed.

(** Appending to a single item moves it to the file. *)
Lemma crunch_refines_witness :
  match exec (Append [6; 7]) 5 f0 with Ret (f', i) => i = -1 /\ cview i f' = Ret [5; 6; 7] | _ => False end /\
  cresult f0 ∅ 5 [5; 6; 7] (exec (Append [6; 7]) 5 f0).
Proof.
  split; [by vm_compute|]. apply (crunch_refines (Append [6; 7]) 5 f0 ∅); [by vm_compute|apply crunch_vrepr0|by left|].
  split_and!; simpl.
  - repeat constructor.
  - right. split; [done|]. by vm_compute.
  - right. split; [done|]. by vm_compute.
  - repeat constructor.
  - done.
Defined.
End CSample.
End Crunch.
