(* ===== verification/PrefixItem.v ===== *)
(** * Items of a prefix tree: [Prefix::ItemBase] and [Prefix::Item] of src/store/prefix.hh.

    An item holds a chunk of characters, stored in reverse order after a header of fixed size, and from
    the end of its block backward its links, its data and the character it is split on. The size of a
    block is a number of quanta of [ItemSizeOf] bytes, so that what an item may hold depends on its kind
    and on whether it is used. Fields are the fields of a record here; the offsets matter through the
    room they leave for the chunk. Data is taken to be no more aligned than links ([!BigData]). *)
From S2P Require Import Prelude.
From S2P Require Import Arith.
Local Open Scope Z_scope.

Module Item.

Inductive ItemKind : Type := Terminal | Prefix | Split.
#[export] Instance ItemKind_eq_dec : EqDecision ItemKind.
Proof. solve_decision. Defined.

(** [+kind]: the number of links *)
Definition kval (k : ItemKind) : Z := match k with Terminal => 0 | Prefix => 1 | Split => 2 end.
(** [kind+1] and [kind-1] *)
Definition kup (k : ItemKind) : ItemKind := match k with Terminal => Prefix | _ => Split end.
Definition kdown (k : ItemKind) : ItemKind := match k with Split => Prefix | _ => Terminal end.

(** Sizes and alignments of the template parameters [Idx], [Char] and [Data] *)
Class Layout := {
  sizeof_Idx : Z;
  sizeof_Char : Z;
  CharSizeOf : Z;
  DataSizeOf : Z;
  alignof_Idx : Z;
  alignof_Char : Z;
  alignof_CharUint : Z;
  alignof_Data : Z;
  alignof_Base : Z;
}.

Section layout.
Context {L : Layout}.

Definition up (d n : Z) : Z := round_up 64 n d.
Definition down (d n : Z) : Z := round_down n d.
Definition divup (d n : Z) : Z := div_up n d.

(** [NBits<CharUint>] *)
Definition NBits : Z := 8 * CharSizeOf.
Definition LogSizeOfChar : Z :=
  if CharSizeOf =? 1 then 0 else if CharSizeOf =? 2 then 1 else if CharSizeOf <=? 4 then 2 else 3.
Definition MaxChunkSz : Z := lsb_msk 64 (7 - LogSizeOfChar).
Definition ChunkOfs : Z := up alignof_Char (up 2 sizeof_Idx + 2).
Definition MaxSz : Z := 4.

Definition MinSplitSizeOf : Z := up alignof_CharUint ChunkOfs + CharSizeOf + sizeof_Idx * 2.
Definition MinUsedSplitSizeOf : Z := MinSplitSizeOf + DataSizeOf + CharSizeOf.
Definition ItemSizeOf : Z :=
  up (Z.max alignof_Base (Z.max alignof_Char (Z.max alignof_CharUint (Z.max alignof_Idx alignof_Data))))
     (Z.max MinSplitSizeOf (Z.max (sizeof_Idx * 4) (divup MaxSz MinUsedSplitSizeOf))).
Definition MinUsedSz : Z := divup ItemSizeOf MinUsedSplitSizeOf.
Definition NeedSzChk : bool := ChunkOfs + MaxChunkSz * sizeof_Char <? ItemSizeOf * MaxSz.

Definition _s_end_ofs (sz : Z) : Z := ItemSizeOf * sz.
Definition _s_cmp_val_ofs (sz : Z) (u : bool) : outcome Z :=
  let end_ofs := up CharSizeOf (DataSizeOf * Z.b2z u + sizeof_Idx * 2) + CharSizeOf in
  _ ← swear (end_ofs + ChunkOfs <=? _s_end_ofs sz);
  Ret (down alignof_CharUint (_s_end_ofs sz - end_ofs)).
Definition _s_chunk_end_ofs (sz : Z) (k : ItemKind) (u : bool) : outcome Z :=
  if decide (k = Split) then o ← _s_cmp_val_ofs sz u; Ret (down alignof_Char o)
  else
    let end_ofs := DataSizeOf * Z.b2z u + sizeof_Idx * kval k in
    _ ← swear (end_ofs + ChunkOfs <=? _s_end_ofs sz);
    Ret (down alignof_Char (_s_end_ofs sz - end_ofs)).

(** [s_max_chunk_sz(sz,k,used)]: how many characters fit in [sz] quanta *)
Definition s_max_chunk_sz (sz : Z) (k : ItemKind) (used : bool) : outcome Z :=
  chunk_end ← _s_chunk_end_ofs sz k used;
  let chunk_sz := u8 ((chunk_end - ChunkOfs) / sizeof_Char) in
  Ret (if NeedSzChk then Z.min chunk_sz MaxChunkSz else chunk_sz).

(** [s_min_sz(k,used,chunk_sz)]: how many quanta are needed *)
Definition s_min_sz (k : ItemKind) (used : bool) (chunk_sz : Z) : outcome Z :=
  max_chunk_sz ← s_max_chunk_sz MaxSz k used;
  _ ← swear (chunk_sz <=? max_chunk_sz);
  let min_sz := MaxSz - (max_chunk_sz - chunk_sz) / ItemSizeOf in
  Ret (if used && (min_sz <? MinUsedSz) then MinUsedSz else min_sz)%bool.

(** Whether a block may hold an item with at most one character *)
Definition _s_large_enough_empty (sz : Z) (k : ItemKind) (u : bool) : bool :=
  if negb u then true
  else if sz <? MinUsedSz then false
  else
    let at_end := DataSizeOf + sizeof_Idx * kval k in
    let at_end := if decide (k = Split) then up CharSizeOf at_end + CharSizeOf else at_end in
    ChunkOfs + sizeof_Char + at_end <=? _s_end_ofs sz.

(** [s_cmp_bit]: the number of leading bits in common, a character being [NBits] wide *)
Definition s_cmp_bit (cmp_val dvg_val : Z) : Z := countl_zero NBits (Z.lxor cmp_val dvg_val).
End layout.

(** An item. [chars] is the memory of the chunk in address order, the first [chunk_sz] characters of which
    are the chunk, last character first. *)
Record t (D : Type) := mk {
  prev : Z;
  prev_is_eq : bool;
  sz : Z;
  kind : ItemKind;
  used : bool;
  cmp_bit : Z;
  chunk_sz : nat;
  chars : list Z;
  cmp_val : Z;
  nxt_eq : Z;
  nxt_neq : Z;
  data : D;
}.
Arguments mk {D}.
Arguments prev {D} _.
Arguments prev_is_eq {D} _.
Arguments sz {D} _.
Arguments kind {D} _.
Arguments used {D} _.
Arguments cmp_bit {D} _.
Arguments chunk_sz {D} _.
Arguments chars {D} _.
Arguments cmp_val {D} _.
Arguments nxt_eq {D} _.
Arguments nxt_neq {D} _.
Arguments data {D} _.

Section item.
Context {L : Layout} {D : Type} (d0 : D).
Implicit Types it : t D.

(** The chunk in reading order; [chunk(i)] is its [i]-th character. *)
Definition chunk it : list Z := reverse (take (chunk_sz it) (chars it)).
Definition char_of it (i : nat) : outcome Z :=
  match chunk it !! i with Some c => Ret c | None => Crash end.

Definition set_prev (p : Z) (e : bool) it : t D :=
  mk p e (sz it) (kind it) (used it) (cmp_bit it) (chunk_sz it) (chars it) (cmp_val it) (nxt_eq it) (nxt_neq it) (data it).
Definition set_nxt (is_eq : bool) (n : Z) it : t D :=
  mk (prev it) (prev_is_eq it) (sz it) (kind it) (used it) (cmp_bit it) (chunk_sz it) (chars it) (cmp_val it)
     (if is_eq then n else nxt_eq it) (if is_eq then nxt_neq it else n) (data it).
Definition set_kind (k : ItemKind) it : t D :=
  mk (prev it) (prev_is_eq it) (sz it) k (used it) (cmp_bit it) (chunk_sz it) (chars it) (cmp_val it) (nxt_eq it) (nxt_neq it) (data it).
Definition set_cmp (v b : Z) it : t D :=
  mk (prev it) (prev_is_eq it) (sz it) (kind it) (used it) b (chunk_sz it) (chars it) v (nxt_eq it) (nxt_neq it) (data it).
Definition set_sz (n : Z) it : t D :=
  mk (prev it) (prev_is_eq it) n (kind it) (used it) (cmp_bit it) (chunk_sz it) (chars it) (cmp_val it) (nxt_eq it) (nxt_neq it) (data it).
Definition set_used (u : bool) (d : D) it : t D :=
  mk (prev it) (prev_is_eq it) (sz it) (kind it) u (cmp_bit it) (chunk_sz it) (chars it) (cmp_val it) (nxt_eq it) (nxt_neq it) d.
Definition set_chunk (n : nat) (cs : list Z) it : t D :=
  mk (prev it) (prev_is_eq it) (sz it) (kind it) (used it) (cmp_bit it) n cs (cmp_val it) (nxt_eq it) (nxt_neq it) (data it).

(** [nxt_if(is_eq)]: a terminal item has no link, a prefix only has the one for equality. *)
Definition has_nxt (k : ItemKind) (is_eq : bool) : bool :=
  match k with Terminal => false | Prefix => is_eq | Split => true end.
Definition nxt_if (is_eq : bool) it : outcome Z :=
  _ ← swear (has_nxt (kind it) is_eq);
  Ret (if is_eq then nxt_eq it else nxt_neq it).

(** [dvg_before], [dvg_at]: [dvg_val] differs on a bit before, or on, the bit the item is split on *)
Definition dvg_before it (dvg_val : Z) : bool :=
  negb (Z.land (Z.lxor (cmp_val it) dvg_val) (u64 (Z.shiftl (u64 (- Z.shiftl 1 (NBits - 1 - cmp_bit it))) 1)) =? 0).
Definition dvg_at it (dvg_val : Z) : bool :=
  negb (Z.land (Z.lxor (cmp_val it) dvg_val) (Z.shiftl 1 (NBits - 1 - cmp_bit it)) =? 0).

(** [dvg_char(pos,dvg_val)] *)
Definition dvg_char it (pos : nat) (dvg_val : Z) : outcome Z :=
  if negb (bool_decide (kind it = Split) && (chunk_sz it =? pos)%nat)%bool then char_of it pos
  else
    _ ← swear (s_cmp_bit (cmp_val it) dvg_val <? cmp_bit it);
    Ret (cmp_val it).

Definition max_chunk_sz it : outcome Z := s_max_chunk_sz (sz it) (kind it) (used it).
Definition min_sz it : outcome Z := s_min_sz (kind it) (used it) (Z.of_nat (chunk_sz it)).
Definition may_mk_up_empty it : bool := _s_large_enough_empty (sz it) (kup (kind it)) (used it).
Definition may_use_empty it : bool := _s_large_enough_empty (sz it) (kind it) true.
Definition chk_chunk_sz it : outcome unit := m ← max_chunk_sz it; swear (Z.of_nat (chunk_sz it) <=? m).

(** The constructor: [cmp_bit] is a bit field and the data is value initialised. *)
Definition new (sz : Z) (k : ItemKind) (used : bool) (chunk : list Z) (cmp_val cmp_bit : Z) : outcome (t D) :=
  let it := mk 0 true sz k used (cmp_bit mod NBits) (length chunk) (reverse chunk) (if decide (k = Split) then cmp_val else 0) 0 0 d0 in
  _ ← swear (1 <=? sz);
  _ ← chk_chunk_sz it;
  _ ← swear (if cmp_val =? 0 then true else bool_decide (k = Split));
  Ret it.

(** [mk_down(keep_is_eq)] on a split item, [mk_down()] on a prefix *)
Definition mk_down_split (keep_is_eq : bool) it : outcome (t D) :=
  _ ← swear (bool_decide (kind it = Split));
  n ← nxt_if (negb keep_is_eq) it;
  _ ← swear (n =? 0);
  let it := if keep_is_eq then it else set_nxt true (nxt_neq it) it in
  Ret (set_kind (kdown (kind it)) it).
Definition mk_down it : outcome (t D) :=
  _ ← swear (bool_decide (kind it = Prefix));
  n ← nxt_if true it;
  _ ← swear (n =? 0);
  Ret (set_kind (kdown (kind it)) it).

(** [mk_up(cmp_val,dvg_val)] on a prefix, [mk_up()] on a terminal item *)
Definition mk_up_prefix (cmp_val dvg_val : Z) it : outcome (t D) :=
  _ ← swear (bool_decide (kind it = Prefix));
  let it := set_cmp cmp_val (s_cmp_bit cmp_val dvg_val mod NBits) (set_nxt false 0 (set_kind Split it)) in
  _ ← chk_chunk_sz it;
  Ret it.
Definition mk_up it : outcome (t D) :=
  _ ← swear (bool_decide (kind it = Terminal));
  let it := set_nxt true 0 (set_kind Prefix it) in
  _ ← chk_chunk_sz it;
  Ret it.

(** [mk_used(used)] *)
Definition mk_used (u : bool) it : outcome (t D) :=
  if Bool.eqb u (used it) then Ret it
  else
    let it := set_used u (if u then d0 else data it) it in
    _ ← chk_chunk_sz it;
    Ret it.

Definition need_mk_min_sz it : outcome bool :=
  m ← min_sz it;
  _ ← swear (m <=? sz it);
  Ret (m <? sz it).
Definition mk_min_sz it : outcome (t D) :=
  b ← need_mk_min_sz it;
  _ ← swear b;
  m ← min_sz it;
  Ret (set_sz m it).

(** [shorten_by(start)]: the first characters go, being at the end of the memory *)
Definition shorten_by (start : nat) it : outcome (t D) :=
  _ ← swear (start <=? chunk_sz it)%nat;
  Ret (set_chunk (chunk_sz it - start) (chars it) it).
(** [prepend_from(from,start)] *)
Definition prepend_from (from : t D) (start : nat) it : t D :=
  let n := (chunk_sz it + (chunk_sz from - start))%nat in
  set_chunk n (take (chunk_sz it) (chars it) ++ reverse (drop start (chunk from)) ++ drop n (chars it)) it.
(** [append_from(from,sz)]: the chunk is first moved up *)
Definition append_from (from : t D) (n : nat) it : t D :=
  set_chunk (chunk_sz it + n) (reverse (take n (chunk from)) ++ take (chunk_sz it) (chars it) ++ drop (chunk_sz it + n) (chars it)) it.

(** [find_dvg]: compare the name from [name_pos] on with the chunk from [chunk_pos] on; [name] is the whole
    sequence of characters in the order of the tree, suffix (or prefix when reversed) included. *)
Inductive Dvg_t : Type := Cont | Dvg | Long | Match | Short | Unused.
#[export] Instance Dvg_eq_dec : EqDecision Dvg_t.
Proof. solve_decision. Defined.

Fixpoint find_loop (n : nat) it (name : list Z) (chunk_pos name_pos : nat) : outcome (bool * nat * nat) :=
  match n with
  | O => Ret (false, chunk_pos, name_pos)
  | S n =>
    c ← char_of it chunk_pos;
    match name !! name_pos with
    | Some x => if x =? c then find_loop n it name (S chunk_pos) (S name_pos) else Ret (true, chunk_pos, name_pos)
    | None => Crash
    end
  end.
Definition find_dvg it (name : list Z) (idx : Z) (chunk_pos name_pos : nat) : outcome (Dvg_t * Z * nat * nat) :=
  let total_sz := length name in
  let total_end_pos := Nat.min total_sz (name_pos + chunk_sz it - chunk_pos) in
  '(dvg, chunk_pos, name_pos) ← find_loop (total_end_pos - name_pos) it name chunk_pos name_pos;
  if (dvg : bool) then Ret (Dvg, idx, chunk_pos, name_pos)
  else if (chunk_pos <? chunk_sz it)%nat then Ret (Short, idx, chunk_pos, name_pos)
  else if (name_pos =? total_sz)%nat then Ret (if used it then Match else Unused, idx, chunk_pos, name_pos)
  else
    match kind it with
    | Terminal => Ret (Long, idx, chunk_pos, name_pos)
    | Prefix => n ← nxt_if true it; Ret (Cont, n, chunk_pos, name_pos)
    | Split =>
      match name !! name_pos with
      | None => Crash
      | Some dvg_val =>
        if dvg_before it dvg_val then Ret (Dvg, idx, chunk_pos, name_pos)
        else n ← nxt_if (negb (dvg_at it dvg_val)) it; Ret (Cont, n, chunk_pos, name_pos)
      end
    end.
End item.
End Item.
