(* ===== verification/PrefixGraph.v ===== *)
(** * The graph of a prefix tree.

    Items are linked both ways: an item points to the next ones and each of them points back, with the
    side it is linked from. This file states when the items of a map form trees ([linked]), what the name
    of an item is ([walk]), and how the elementary changes of prefix.hh act on both. One link may be
    missing while an update is in progress: the hole. *)
From S2P Require Import Prelude.
From S2P Require Import PrefixItem.
Local Open Scope Z_scope.
Import Item.

Section graph.
Context {D : Type}.
Abbreviation item := (Item.t D).
Implicit Types (m : gmap Z item) (it : item).

Definition nx (b : bool) it : Z := if b then nxt_eq it else nxt_neq it.
Definition lnk it (b : bool) : option Z := if has_nxt (kind it) b then Some (nx b it) else None.
Definition bk it : Z * bool := (prev it, prev_is_eq it).

(** The edges, seen from their origin and from their end *)
Definition E m x b : option Z := m !! x ≫= fun it => lnk it b.
Definition U m y : option (Z * bool) := bk <$> m !! y.

(** [walk m r y p k]: [y] is reached from the root [r] through the items [p], which spell [k]. *)
Inductive walk m (r : Z) : Z -> list Z -> list Z -> Prop :=
| walk_root it : m !! r = Some it -> prev it = 0 -> walk m r r [r] (chunk it)
| walk_step x b y it p k : walk m r x p k -> E m x b = Some y -> m !! y = Some it -> walk m r y (p ++ [y]) (k ++ chunk it).

Record linked (h : option (Z * bool)) m : Prop := {
  lk_dom0 : m !! 0 = None;
  lk_iff x b y : x <> 0 -> y <> 0 -> E m x b = Some y <-> U m y = Some (x, b);
  lk_hole x b : E m x b = Some 0 <-> h = Some (x, b);
  lk_root y b : U m y = Some (0, b) -> b = true;
  lk_reach y it : m !! y = Some it -> exists r p k, walk m r y p k;
}.

Lemma E_insert i it m x b : E (<[i := it]> m) x b = if decide (i = x) then lnk it b else E m x b.
Proof. unfold E. rewrite lookup_insert. by case_decide. Qed.
Lemma U_insert i it m y : U (<[i := it]> m) y = if decide (i = y) then Some (bk it) else U m y.
Proof. unfold U. rewrite lookup_insert. by case_decide. Qed.
Lemma E_delete i m x b : E (delete i m) x b = if decide (i = x) then None else E m x b.
Proof. unfold E. rewrite lookup_delete. by case_decide. Qed.
Lemma U_delete i m y : U (delete i m) y = if decide (i = y) then None else U m y.
Proof. unfold U. rewrite lookup_delete. by case_decide. Qed.
Lemma E_lookup m x it b : m !! x = Some it -> E m x b = lnk it b.
Proof. unfold E. by intros ->. Qed.
Lemma U_lookup m y it : m !! y = Some it -> U m y = Some (bk it).
Proof. unfold U. by intros ->. Qed.
Lemma E_some m x b y : E m x b = Some y -> exists it, m !! x = Some it /\ has_nxt (kind it) b = true /\ nx b it = y.
Proof. unfold E, lnk. destruct (m !! x) as [it|]; [simpl|done]. destruct (has_nxt (kind it) b) eqn:?; naive_solver. Qed.
Lemma U_some m y x b : U m y = Some (x, b) -> exists it, m !! y = Some it /\ prev it = x /\ prev_is_eq it = b.
Proof. unfold U, bk. intros (it & Hm & [= -> ->])%fmap_Some. eauto. Qed.

Lemma walk_in m r y p k : walk m r y p k -> is_Some (m !! y) /\ exists q, p = q ++ [y].
Proof. destruct 1; [split; [eauto|by exists []]|eauto]. Qed.

Section linked.
Context (h : option (Z * bool)) m (Hl : linked h m).

Lemma lk_nz y it : m !! y = Some it -> y <> 0.
Proof. intros Hy ->. by rewrite (lk_dom0 _ _ Hl) in Hy. Qed.
Lemma lk_down x b y : E m x b = Some y -> y <> 0 -> U m y = Some (x, b).
Proof. intros He Hy. apply (lk_iff _ _ Hl); try done. destruct (E_some _ _ _ _ He) as (it & Hx & _). by eapply lk_nz. Qed.
Lemma lk_up x b y : U m y = Some (x, b) -> x <> 0 -> E m x b = Some y.
Proof. intros Hu Hx. apply (lk_iff _ _ Hl); try done. destruct (U_some _ _ _ _ Hu) as (it & Hy & _). by eapply lk_nz. Qed.

(** The way to an item is unique. *)
Lemma walk_unique r y p k r' p' k' : walk m r y p k -> walk m r' y p' k' -> r = r' /\ p = p' /\ k = k'.
Proof.
  intros H. revert r' p' k'. induction H as [it Hr Hp|x b y it p k H IH He Hy]; intros r' p' k' H'; inversion H' as [it' Hr' Hp'|x' b' ? it' q' l' H0 He' Hy']; subst.
  - naive_solver.
  - apply lk_down in He'; [|by eapply lk_nz]. apply U_some in He' as (? & ? & ? & _). assert (x' <> 0) by (apply walk_in in H0 as [[? ?] _]; by eapply lk_nz). congruence.
  - apply lk_down in He; [|by eapply lk_nz]. apply U_some in He as (? & ? & ? & _). assert (x <> 0) by (apply walk_in in H as [[? ?] _]; by eapply lk_nz). congruence.
  - apply lk_down in He, He'; try by eapply lk_nz. assert (x' = x) as -> by congruence. destruct (IH _ _ _ H0) as (-> & -> & ->). naive_solver.
Qed.

Lemma walk_prefix r y p k z : walk m r y p k -> z ∈ p -> exists q l, walk m r z q l /\ (length q <= length p)%nat.
Proof.
  induction 1 as [it Hr Hp|x b y it p k H IH He Hy]; intros Hz.
  - apply list_elem_of_singleton in Hz as ->. eexists _, _. split; [by econstructor|done].
  - apply elem_of_app in Hz as [Hz|Hz].
    + destruct (IH Hz) as (q & l & ? & ?). exists q, l. split; [done|]. rewrite length_app. simpl. lia.
    + apply list_elem_of_singleton in Hz as ->. eexists _, _. split; [by econstructor|done].
Qed.
Lemma walk_nodup r y p k : walk m r y p k -> NoDup p.
Proof.
  induction 1 as [it Hr Hp|x b y it p k H IH He Hy]; [by apply NoDup_singleton|]. apply NoDup_app. split_and!; [done| |by apply NoDup_singleton].
  intros z Hz Hz'. apply list_elem_of_singleton in Hz' as ->. destruct (walk_prefix _ _ _ _ _ H Hz) as (q & l & Hq & Hle).
  assert (walk m r y (p ++ [y]) (k ++ chunk it)) as Hw by by econstructor. destruct (walk_unique _ _ _ _ _ _ _ Hq Hw) as (_ & -> & _).
  rewrite length_app in Hle. simpl in Hle. lia.
Qed.
Lemma walk_length r y p k : walk m r y p k -> (length p <= size m)%nat.
Proof.
  intros H. pose proof (walk_nodup _ _ _ _ H) as Hn. rewrite <- (size_list_to_set (C := gset Z)), <- (size_dom (D := gset Z)) by done.
  apply subseteq_size. intros z Hz%elem_of_list_to_set. destruct (walk_prefix _ _ _ _ _ H Hz) as (q & l & Hq & _).
  apply elem_of_dom. by eapply walk_in.
Qed.

Lemma E_walk x b y : E m x b = Some y -> y <> 0 -> exists r p k it, walk m r x p k /\ m !! y = Some it /\ walk m r y (p ++ [y]) (k ++ chunk it).
Proof.
  intros He Hy. destruct (E_some _ _ _ _ He) as (ix & Hx & _). destruct (lk_reach _ _ Hl _ _ Hx) as (r & p & k & Hw).
  pose proof (lk_down _ _ _ He Hy) as Hu. apply U_some in Hu as (it & Hit & _). exists r, p, k, it. split_and!; [done..|]. by econstructor.
Qed.
Lemma E_irrefl x b y : E m x b = Some y -> y <> 0 -> x <> y.
Proof.
  intros He Hy <-. destruct (E_walk _ _ _ He Hy) as (r & p & k & it & Hw & _ & Hw'). apply walk_nodup in Hw'.
  apply walk_in in Hw as (_ & q & ->). rewrite NoDup_app in Hw'. destruct Hw' as (_ & H & _). apply (H x); set_solver.
Qed.
Lemma E_asym x b y c z : E m x b = Some y -> y <> 0 -> E m y c = Some z -> z <> 0 -> x <> z.
Proof.
  intros He Hy He' Hz <-. destruct (E_walk _ _ _ He Hy) as (r & p & k & it & Hw & _ & Hw'). destruct (E_walk _ _ _ He' Hz) as (r' & p' & k' & it' & Hw1 & _ & Hw1').
  destruct (walk_unique _ _ _ _ _ _ _ Hw' Hw1) as (<- & <- & <-). apply walk_nodup in Hw1'. apply walk_in in Hw as (_ & q & ->).
  rewrite NoDup_app in Hw1'. destruct Hw1' as (_ & H & _). apply (H x); set_solver.
Qed.
Lemma E_inj x b y x' b' : E m x b = Some y -> E m x' b' = Some y -> y <> 0 -> x = x' /\ b = b'.
Proof. intros H1 H2 Hy. apply lk_down in H1, H2; [|done..]. naive_solver. Qed.
End linked.

(** ** Elementary changes *)

(** Items that satisfy [P] keep their name. *)
Definition keep (P : Z -> Prop) m m' : Prop := forall r y p k, walk m r y p k -> P y -> exists p', walk m' r y p' k.

Lemma keep_trans (P : Z -> Prop) m m' m'' : keep P m m' -> keep P m' m'' -> keep P m m''.
Proof. intros H1 H2 r y p k Hw HP. destruct (H1 _ _ _ _ Hw HP) as (p' & Hw'). eauto. Qed.
Lemma keep_weaken (P Q : Z -> Prop) m m' : (forall y, Q y -> P y) -> keep P m m' -> keep Q m m'.
Proof. intros HQ H r y p k Hw HP. eauto. Qed.

(** Changes that leave the links alone *)
Lemma linked_ext h m m' : linked h m -> (forall x b, E m' x b = E m x b) -> (forall y, U m' y = U m y) -> linked h m'.
Proof.
  intros Hl HE HU. assert (forall y it, m' !! y = Some it -> exists it', m !! y = Some it' /\ bk it' = bk it) as Hd.
  { intros y it Hy. pose proof (HU y) as Hu. rewrite (U_lookup _ _ _ Hy) in Hu. unfold U in Hu. destruct (m !! y); [|done]. eexists. split; [done|]. cbn in Hu. congruence. }
  assert (forall y it, m !! y = Some it -> exists it', m' !! y = Some it' /\ bk it' = bk it) as Hd'.
  { intros y it Hy. pose proof (HU y) as Hu. rewrite (U_lookup _ _ _ Hy) in Hu. unfold U in Hu. destruct (m' !! y); [|done]. eexists. split; [done|]. cbn in Hu. congruence. }
  split.
  - destruct (m' !! 0) as [it|] eqn:H0; [|done]. destruct (Hd _ _ H0) as (it' & H & _). by rewrite (lk_dom0 _ _ Hl) in H.
  - intros. rewrite HE, HU. by apply (lk_iff _ _ Hl).
  - intros. rewrite HE. by apply (lk_hole _ _ Hl).
  - intros y b. rewrite HU. by apply (lk_root _ _ Hl).
  - intros y it Hy. destruct (Hd _ _ Hy) as (it' & Hy' & _). destruct (lk_reach _ _ Hl _ _ Hy') as (r & p & k & Hw).
    assert (exists k', walk m' r y p k') as (k' & ?); [|by eauto]. clear -Hw HE HU Hd'.
    induction Hw as [it Hr Hp|x b y it p k H [k' IH] He Hy].
    + destruct (Hd' _ _ Hr) as (it' & Hr' & [= Hp' _]). eexists. apply (walk_root m' r it'); [done|congruence].
    + destruct (Hd' _ _ Hy) as (it' & Hy' & _). eexists. eapply walk_step; [exact IH|by rewrite HE|exact Hy'].
Qed.

Lemma insert_ext m x it it' : m !! x = Some it -> bk it' = bk it -> (forall b, lnk it' b = lnk it b) ->
  (forall z b, E (<[x := it']> m) z b = E m z b) /\ (forall z, U (<[x := it']> m) z = U m z).
Proof.
  intros Hx Hb Hk. split.
  - intros z b. rewrite E_insert. case_decide; [subst|done]. by rewrite Hk, (E_lookup _ _ _ _ Hx).
  - intros z. rewrite U_insert. case_decide; [subst|done]. by rewrite Hb, (U_lookup _ _ _ Hx).
Qed.
Lemma linked_attr h m x it it' : linked h m -> m !! x = Some it -> bk it' = bk it -> (forall b, lnk it' b = lnk it b) -> linked h (<[x := it']> m).
Proof. intros Hl Hx Hb Hk. destruct (insert_ext m x it it' Hx Hb Hk). by eapply linked_ext. Qed.

(** The name of an item only depends on the links and the chunks. *)
Lemma keep_ext m m' : (forall x b, E m' x b = E m x b) -> (forall y, U m' y = U m y) ->
  (forall y it, m !! y = Some it -> exists it', m' !! y = Some it' /\ chunk it' = chunk it) -> keep (fun _ => True) m m'.
Proof.
  intros HE HU Hc r y p k Hw _. exists p. induction Hw as [it Hr Hp|x b y it p k H IH He Hy].
  - destruct (Hc _ _ Hr) as (it' & Hr' & <-). apply walk_root; [done|]. pose proof (HU r) as Hu. rewrite (U_lookup _ _ _ Hr), (U_lookup _ _ _ Hr') in Hu.
    unfold bk in Hu. congruence.
  - destruct (Hc _ _ Hy) as (it' & Hy' & <-). econstructor; [done|by rewrite HE|done].
Qed.
Lemma keep_attr m x it it' : m !! x = Some it -> bk it' = bk it -> (forall b, lnk it' b = lnk it b) -> chunk it' = chunk it ->
  keep (fun _ => True) m (<[x := it']> m).
Proof.
  intros Hx Hb Hk Hc. destruct (insert_ext m x it it' Hx Hb Hk). apply keep_ext; [done..|]. intros y iy Hy.
  destruct (decide (y = x)) as [->|]; [|rewrite lookup_insert_ne by done; eauto]. rewrite lookup_insert_eq. naive_solver.
Qed.

(** Characters move between an item with a single link and the next one. *)
Lemma keep_shift h m x y ix iy ix' iy' : linked h m -> m !! x = Some ix -> m !! y = Some iy -> prev ix <> 0 -> E m x true = Some y -> E m x false = None ->
  bk ix' = bk ix -> (forall b, lnk ix' b = lnk ix b) -> bk iy' = bk iy -> (forall b, lnk iy' b = lnk iy b) ->
  chunk ix' ++ chunk iy' = chunk ix ++ chunk iy -> keep (fun z => z <> x) m (<[y := iy']> (<[x := ix']> m)).
Proof.
  intros Hl Hx Hy Hpx He He0 Hbx Hkx Hby Hky Hc. set (m' := <[y := iy']> (<[x := ix']> m)).
  assert (y <> 0) as Hy0 by (by eapply lk_nz). assert (x <> y) as Hxy by (by eapply E_irrefl).
  destruct (insert_ext m x ix ix' Hx Hbx Hkx) as [HE1 HU1].
  destruct (insert_ext (<[x := ix']> m) y iy iy') as [HE2 HU2]; [by rewrite lookup_insert_ne|done..|]. fold m' in HE2, HU2.
  assert (forall r z p k, walk m r z p k -> if decide (z = x) then exists q k0, k = k0 ++ chunk ix /\ walk m' r z q (k0 ++ chunk ix') else exists q, walk m' r z q k) as H.
  { intros r z p k Hw. induction Hw as [it Hr Hp|z b w it p k H IH Ez Hw].
    - case_decide as Hd; [subst; congruence|]. exists [r]. assert (r <> y) as Hry.
      { intros ->. pose proof (lk_down _ _ Hl _ _ _ He Hy0) as Hu. rewrite (U_lookup _ _ _ Hr) in Hu. apply (lk_nz _ _ Hl) in Hx. unfold bk in Hu. congruence. }
      apply (walk_root m' r it); [|done]. unfold m'. by rewrite !lookup_insert_ne by done.
    - assert (E m' z b = Some w) as Ez' by (by rewrite HE2, HE1). destruct (decide (w = x)) as [->|Hd].
      + rewrite Hx in Hw. injection Hw as <-. rewrite decide_False in IH by (eapply E_irrefl; [done..|by eapply lk_nz]). destruct IH as (q & IH).
        eexists _, k. split; [done|]. eapply walk_step; [exact IH|exact Ez'|]. unfold m'. by rewrite lookup_insert_ne, lookup_insert_eq by done.
      + destruct (decide (z = x)) as [->|Hzx].
        * assert (b = true /\ w = y) as [-> ->] by (destruct b; naive_solver). rewrite Hy in Hw. injection Hw as <-. destruct IH as (q & k0 & -> & IH).
          eexists. rewrite <- app_assoc, <- Hc, app_assoc. eapply walk_step; [exact IH|exact Ez'|]. unfold m'. by rewrite lookup_insert_eq.
        * destruct IH as (q & IH). eexists. eapply walk_step; [exact IH|exact Ez'|]. unfold m'. rewrite !lookup_insert_ne; [done..|].
          intros <-. destruct (E_inj _ _ Hl _ _ _ _ _ He Ez Hy0). congruence. }
  intros r z p k Hw Hz. specialize (H r z p k Hw). by rewrite decide_False in H.
Qed.

(** A change that keeps the items and their names, but for some new ones, keeps everything reachable. *)
Lemma reach_keep h m m' (P : Z -> Prop) y it : linked h m -> keep P m m' -> P y -> m !! y = Some it -> exists r p k, walk m' r y p k.
Proof. intros Hl Hk HP Hy. destruct (lk_reach _ _ Hl _ _ Hy) as (r & p & k & Hw). destruct (Hk _ _ _ _ Hw HP) as (p' & ?). eauto. Qed.

(** A new item [d] between [x] and [y] *)
Section ins.
Context (h : option (Z * bool)) m (x : Z) (b : bool) (y d : Z) (c : bool) (ix iy ix' iy' id : item).
Context (Hl : linked h m) (Hx : m !! x = Some ix) (Hy : m !! y = Some iy) (He : E m x b = Some y) (Hd : m !! d = None) (Hd0 : d <> 0).
Context (Hbd : bk id = (x, b)) (Hkd : lnk id c = Some y).
Context (Hbx : bk ix' = bk ix) (Hkx : lnk ix' b = Some d) (Hkx' : lnk ix' (negb b) = lnk ix (negb b)).
Context (Hby : bk iy' = (d, c)) (Hky : forall e, lnk iy' e = lnk iy e).
Context (Hcx : chunk ix' = chunk ix) (Hcy : chunk id ++ chunk iy' = chunk iy).
Definition ins : gmap Z item := <[d := id]> (<[x := ix']> (<[y := iy']> m)).

Lemma ins_ne : x <> y /\ x <> d /\ y <> d /\ x <> 0 /\ y <> 0.
Proof.
  assert (y <> 0) by (by eapply lk_nz). split_and!; [by eapply E_irrefl|congruence|congruence|by eapply lk_nz|done].
Qed.
Lemma E_ins z e : E ins z e = if decide (z = d) then lnk id e else if decide (z = x /\ e = b) then Some d else E m z e.
Proof.
  destruct ins_ne as (? & ? & ? & _). unfold ins. rewrite !E_insert. destruct (decide (z = d)) as [->|]; [by rewrite decide_True|].
  rewrite (decide_False (P := d = z)) by done. destruct (decide (z = x)) as [->|].
  - rewrite (decide_True (P := x = x)) by done. destruct (decide (e = b)) as [->|]; [by rewrite decide_True by done|]. rewrite decide_False by (by intros [_ ?]).
    assert (e = negb b) as -> by (by destruct e, b). by rewrite (E_lookup _ _ _ _ Hx).
  - rewrite (decide_False (P := x = z)), (decide_False (P := z = x /\ e = b)) by (done || by intros [? _]). case_decide; [subst|done]. by rewrite Hky, (E_lookup _ _ _ _ Hy).
Qed.
Lemma U_ins z : U ins z = if decide (z = d) then Some (x, b) else if decide (z = y) then Some (d, c) else U m z.
Proof.
  destruct ins_ne as (? & ? & ? & _). unfold ins. rewrite !U_insert. destruct (decide (z = d)) as [->|]; [rewrite decide_True by done; congruence|].
  rewrite (decide_False (P := d = z)) by done. destruct (decide (z = x)) as [->|].
  - rewrite (decide_True (P := x = x)), decide_False by done. by rewrite Hbx, (U_lookup _ _ _ Hx).
  - rewrite (decide_False (P := x = z)) by done. destruct (decide (z = y)) as [->|]; [by rewrite decide_True, Hby by done|]. by rewrite decide_False by done.
Qed.
Lemma keep_ins : keep (fun _ => True) m ins.
Proof.
  destruct ins_ne as (Hxy & Hxd & Hyd & Hx0 & Hy0).
  assert (forall z iz, m !! z = Some iz -> z <> y -> exists iz', ins !! z = Some iz' /\ chunk iz' = chunk iz /\ prev iz' = prev iz) as Hz.
  { intros z iz Hz Hne. unfold ins. destruct (decide (z = d)) as [->|]; [congruence|]. rewrite lookup_insert_ne by done.
    destruct (decide (z = x)) as [->|]; [|rewrite !lookup_insert_ne by done; eauto]. rewrite lookup_insert_eq. unfold bk in Hbx. naive_solver. }
  intros r z p k Hw _. induction Hw as [it Hr Hp|z e w it p k H [q IH] Ez Hw].
  - destruct (Hz r it Hr) as (it' & Hr' & <- & ?).
    { intros ->. pose proof (lk_down _ _ Hl _ _ _ He Hy0) as Hu. rewrite (U_lookup _ _ _ Hr) in Hu. unfold bk in Hu. congruence. }
    exists [r]. apply walk_root; [done|congruence].
  - destruct (decide (z = x /\ e = b)) as [[-> ->]|Hne].
    + assert (w = y) as -> by congruence. assert (it = iy) as -> by congruence. eexists. rewrite <- Hcy, app_assoc.
      eapply walk_step; [eapply walk_step; [exact IH| |]| |].
      * rewrite E_ins, decide_False, decide_True by done. done.
      * unfold ins. by rewrite lookup_insert_eq.
      * rewrite E_ins, decide_True by done. done.
      * unfold ins. by rewrite !lookup_insert_ne, lookup_insert_eq by done.
    + destruct (Hz w it Hw) as (it' & Hw' & <- & _).
      { intros ->. destruct (E_inj _ _ Hl _ _ _ _ _ He Ez Hy0). naive_solver. }
      eexists. eapply walk_step; [exact IH| |exact Hw']. rewrite E_ins, decide_False, decide_False; [done|done|].
      intros ->. apply E_some in Ez as (? & ? & _). congruence.
Qed.
Lemma linked_ins h' : h' = match lnk id (negb c) with None => h | Some _ => Some (d, negb c) end ->
  (lnk id (negb c) = None \/ lnk id (negb c) = Some 0 /\ h = None) -> linked h' ins.
Proof.
  intros -> Hside. destruct ins_ne as (Hxy & Hxd & Hyd & Hx0 & Hy0). assert (forall z e, U m z = Some (d, e) -> False) as Hnd.
  { intros z e Hu. apply (lk_up _ _ Hl) in Hu as (? & ? & _)%E_some; [|done]. congruence. }
  assert (forall z e, E m z e = Some d -> False) as Hnd'.
  { intros z e Hu. apply (lk_down _ _ Hl) in Hu as (? & ? & _)%U_some; [|done]. congruence. }
  assert (forall e w, w <> 0 -> lnk id e = Some w <-> e = c /\ w = y) as Hid.
  { intros e w Hw. destruct (decide (e = c)) as [->|Hec]; [rewrite Hkd; naive_solver|]. assert (e = negb c) as -> by (by destruct e, c).
    split; [|naive_solver]. destruct Hside as [->|[-> _]]; congruence. }
  split.
  - unfold ins. rewrite !lookup_insert_ne by done. apply Hl.
  - intros z e w Hz Hw. rewrite E_ins, U_ins. destruct (decide (z = d)) as [->|Hzd].
    + rewrite Hid by done. repeat case_decide; simplify_eq; [by split; [intros [_ ?]|congruence]|by split; [intros [-> _]|intros [= ->]]|].
      split; [by intros [_ ?]|]. intros Hu. by apply Hnd in Hu.
    + destruct (decide (z = x /\ e = b)) as [[-> ->]|Hne].
      * repeat case_decide; simplify_eq; [done|by split; intros [=]|]. split; [congruence|]. intros Hu. apply (lk_up _ _ Hl) in Hu; congruence.
      * destruct (decide (w = d)) as [->|]; [split; [by intros ?%Hnd'|intros [= -> ->]; by destruct Hne]|]. destruct (decide (w = y)) as [->|]; [|by apply Hl].
        split; [|congruence]. intros Hm. destruct (E_inj _ _ Hl _ _ _ _ _ He Hm Hw). by destruct Hne.
  - intros z e. rewrite E_ins. pose proof (lk_hole _ _ Hl z e) as Hi. destruct (decide (z = d)) as [->|Hzd].
    + assert (h <> Some (d, e)) as Hh by (intros Hh; apply Hi in Hh as (? & ? & _)%E_some; congruence).
      destruct (decide (e = c)) as [->|Hec].
      * rewrite Hkd. split; [congruence|]. destruct Hside as [->|[-> _]]; [done|]. intros [= Hc]. by destruct c.
      * assert (e = negb c) as -> by (by destruct e, c). by destruct Hside as [->|[-> _]].
    + destruct (decide (z = x /\ e = b)) as [[-> ->]|Hne].
      * rewrite He in Hi. split; [congruence|]. destruct Hside as [->|[-> _]]; [|congruence]. intros Hh. apply Hi in Hh. congruence.
      * rewrite Hi. destruct Hside as [->|[-> Hn]]; [done|]. rewrite Hn. split; congruence.
  - intros z e. rewrite U_ins. repeat case_decide; try congruence. apply Hl.
  - intros z iz Hz. destruct (decide (z = d)) as [->|Hzd].
    + destruct (lk_reach _ _ Hl _ _ Hx) as (r & p & k & Hw). destruct (keep_ins _ _ _ _ Hw I) as (q & Hw').
      eexists _, _, _. eapply walk_step; [exact Hw'| |exact Hz]. rewrite E_ins, decide_False, decide_True by done. done.
    + assert (is_Some (m !! z)) as [iz' Hz'].
      { unfold ins in Hz. rewrite lookup_insert_ne in Hz by done. destruct (decide (z = x)) as [->|]; [eauto|]. rewrite lookup_insert_ne in Hz by done.
        destruct (decide (z = y)) as [->|]; [eauto|]. rewrite lookup_insert_ne in Hz by done. eauto. }
      eapply reach_keep; [done|apply keep_ins|done|exact Hz'].
Qed.
End ins.

(** An item [x] with a single link is removed between [w] and [y], which takes its characters. *)
Section del.
Context (h : option (Z * bool)) m (w : Z) (e : bool) (x y : Z) (iw ix iy iw' iy' : item).
Context (Hl : linked h m) (Hw : m !! w = Some iw) (Hx : m !! x = Some ix) (Hy : m !! y = Some iy).
Context (Hwx : E m w e = Some x) (Hxy : E m x true = Some y) (Hx0 : E m x false = None).
Context (Hbw : bk iw' = bk iw) (Hkw : lnk iw' e = Some y) (Hkw' : lnk iw' (negb e) = lnk iw (negb e)).
Context (Hby : bk iy' = (w, e)) (Hky : forall c, lnk iy' c = lnk iy c).
Context (Hcw : chunk iw' = chunk iw) (Hcy : chunk iy' = chunk ix ++ chunk iy).
Definition del : gmap Z item := delete x (<[w := iw']> (<[y := iy']> m)).

Lemma del_ne : w <> x /\ x <> y /\ w <> y /\ w <> 0 /\ x <> 0 /\ y <> 0.
Proof.
  assert (x <> 0) by (by eapply lk_nz). assert (y <> 0) by (by eapply lk_nz).
  split_and!; [by eapply E_irrefl|by eapply E_irrefl|by eapply E_asym|by eapply lk_nz|done|done].
Qed.
Lemma E_del z c : E del z c = if decide (z = x) then None else if decide (z = w /\ c = e) then Some y else E m z c.
Proof.
  destruct del_ne as (? & ? & ? & _). unfold del. rewrite E_delete, !E_insert. destruct (decide (z = x)) as [->|]; [by rewrite decide_True|].
  rewrite (decide_False (P := x = z)) by done. destruct (decide (z = w)) as [->|].
  - rewrite (decide_True (P := w = w)) by done. destruct (decide (c = e)) as [->|]; [by rewrite decide_True by done|]. rewrite decide_False by (by intros [_ ?]).
    assert (c = negb e) as -> by (by destruct c, e). by rewrite (E_lookup _ _ _ _ Hw).
  - rewrite (decide_False (P := w = z)), (decide_False (P := z = w /\ c = e)) by (done || by intros [? _]). case_decide; [subst|done]. by rewrite Hky, (E_lookup _ _ _ _ Hy).
Qed.
Lemma U_del z : U del z = if decide (z = x) then None else if decide (z = y) then Some (w, e) else U m z.
Proof.
  destruct del_ne as (? & ? & ? & _). unfold del. rewrite U_delete, !U_insert. destruct (decide (z = x)) as [->|]; [by rewrite decide_True|].
  rewrite (decide_False (P := x = z)) by done. destruct (decide (z = w)) as [->|].
  - rewrite (decide_True (P := w = w)), decide_False by done. by rewrite Hbw, (U_lookup _ _ _ Hw).
  - rewrite (decide_False (P := w = z)) by done. destruct (decide (z = y)) as [->|]; [by rewrite decide_True, Hby by done|]. by rewrite decide_False by done.
Qed.
Lemma keep_del : keep (fun z => z <> x) m del.
Proof.
  destruct del_ne as (? & ? & ? & ? & ? & Hy0). pose proof (lk_down _ _ Hl _ _ _ Hxy Hy0) as Huy. pose proof (lk_down _ _ Hl _ _ _ Hwx ltac:(done)) as Hux.
  assert (forall z iz, m !! z = Some iz -> z <> y -> z <> x -> exists iz', del !! z = Some iz' /\ chunk iz' = chunk iz /\ prev iz' = prev iz) as Hz.
  { intros z iz Hz Hne Hne'. unfold del. rewrite lookup_delete_ne by done. destruct (decide (z = w)) as [->|]; [|rewrite !lookup_insert_ne by done; eauto].
    rewrite lookup_insert_eq. unfold bk in Hbw. naive_solver. }
  assert (forall r z p k, walk m r z p k -> if decide (z = x) then exists q k0, k = k0 ++ chunk ix /\ walk del r w q k0 else exists q, walk del r z q k) as HH.
  { intros r z p k Hk. induction Hk as [it Hr Hp|z c v it p k H' IH Ez Hv].
    - rewrite decide_False. 2:{ intros ->. rewrite (U_lookup _ _ _ Hr) in Hux. unfold bk in Hux. congruence. }
      destruct (Hz r it Hr) as (it' & Hr' & <- & ?); [intros ->; rewrite (U_lookup _ _ _ Hr) in Huy; unfold bk in Huy; congruence|
        intros ->; rewrite (U_lookup _ _ _ Hr) in Hux; unfold bk in Hux; congruence|]. exists [r]. apply walk_root; [done|congruence].
    - destruct (decide (v = x)) as [->|Hvx].
      + destruct (E_inj _ _ Hl _ _ _ _ _ Hwx Ez ltac:(done)) as [-> ->]. rewrite decide_False in IH by done. destruct IH as (q & IH). assert (it = ix) as -> by congruence. eauto.
      + destruct (decide (z = x)) as [->|Hzx].
        * assert (c = true /\ v = y) as [-> ->] by (destruct c; naive_solver). destruct IH as (q & k0 & -> & IH). assert (it = iy) as -> by congruence.
          eexists. rewrite <- app_assoc, <- Hcy. eapply walk_step; [exact IH|rewrite E_del, decide_False, decide_True by done; done|].
          unfold del. by rewrite lookup_delete_ne, lookup_insert_ne, lookup_insert_eq by done.
        * destruct IH as (q & IH). destruct (Hz v it Hv) as (it' & Hv' & <- & _); [|done|].
          { intros ->. by destruct (E_inj _ _ Hl _ _ _ _ _ Hxy Ez Hy0). }
          eexists. eapply walk_step; [exact IH| |exact Hv']. rewrite E_del, decide_False, decide_False; [done| |done].
          intros [-> ->]. congruence. }
  intros r z p k Hk Hne. specialize (HH _ _ _ _ Hk). by rewrite decide_False in HH.
Qed.
Lemma linked_del : linked h del.
Proof.
  destruct del_ne as (? & ? & ? & ? & ? & Hy0). split.
  - unfold del. rewrite lookup_delete_ne, !lookup_insert_ne by done. apply Hl.
  - intros z c v Hz Hv. rewrite E_del, U_del. destruct (decide (z = x)) as [->|Hzx].
    + split; [done|]. destruct (decide (v = x)) as [->|]; [done|]. destruct (decide (v = y)) as [->|]; [congruence|]. intros Hu.
      apply (lk_up _ _ Hl) in Hu; [|done]. destruct c; congruence.
    + destruct (decide (z = w /\ c = e)) as [[-> ->]|Hne].
      * destruct (decide (v = x)) as [->|]; [split; congruence|]. destruct (decide (v = y)) as [->|]; [done|]. split; [congruence|]. intros Hu.
        apply (lk_up _ _ Hl) in Hu; congruence.
      * destruct (decide (v = x)) as [->|]; [split; [|done]; intros Hu; destruct (E_inj _ _ Hl _ _ _ _ _ Hwx Hu ltac:(done)); by destruct Hne|].
        destruct (decide (v = y)) as [->|]; [|by apply Hl]. split; [|intros [= -> ->]; by destruct Hne].
        intros Hu. by destruct (E_inj _ _ Hl _ _ _ _ _ Hxy Hu ltac:(done)).
  - intros z c. rewrite E_del. pose proof (lk_hole _ _ Hl z c) as Hi. destruct (decide (z = x)) as [->|Hzx].
    + split; [done|]. intros Hh%Hi. destruct c; congruence.
    + destruct (decide (z = w /\ c = e)) as [[-> ->]|Hne]; [|done]. split; [congruence|]. intros Hh%Hi. congruence.
  - intros z c. rewrite U_del. repeat case_decide; try congruence. apply Hl.
  - intros z iz Hz. assert (z <> x) as Hzx by (intros ->; unfold del in Hz; by rewrite lookup_delete_eq in Hz).
    assert (is_Some (m !! z)) as [iz' Hz'].
    { unfold del in Hz. rewrite lookup_delete_ne in Hz by done. apply lookup_insert_Some in Hz as [[-> _]|[_ [[-> _]|[_ Hz]]%lookup_insert_Some]]; eauto. }
    eapply reach_keep; [done|apply keep_del|done|exact Hz'].
Qed.
End del.

(** An item [x] is replaced by a new one [d]. *)
Section mv.
Context m m' (x w d : Z) (e : bool) (ix : item) (Hl : linked None m) (Hx : m !! x = Some ix) (Hux : U m x = Some (w, e)) (Hw0 : w <> 0) (Hd : m !! d = None) (Hd0 : d <> 0).
Context (HE : forall z c, E m' z c = if decide (z = x) then None else if decide (z = d) then E m x c else if decide (z = w /\ c = e) then Some d else E m z c).
Context (HU : forall z, U m' z = if decide (z = x) then None else if decide (z = d) then Some (w, e) else
  match U m z with Some (v, c) => Some (if decide (v = x) then d else v, c) | None => None end).
Context (Hc : forall z iz, m !! z = Some iz -> exists iz', m' !! (if decide (z = x) then d else z) = Some iz' /\ chunk iz' = chunk iz).

Lemma keep_mv r z p k : walk m r z p k -> exists p', walk m' r (if decide (z = x) then d else z) p' k.
Proof.
  assert (x <> 0) as Hx0 by (by eapply lk_nz). assert (x <> d) by congruence. pose proof (lk_up _ _ Hl _ _ _ Hux Hw0) as Hwx.
  assert (w <> x) as Hwne by (eapply E_irrefl; [done..|]; done). intros Hk. induction Hk as [it Hr Hp|z c v it p k H' [q IH] Ez Hv].
  - assert (r <> x) as Hrx by (intros ->; rewrite (U_lookup _ _ _ Hr) in Hux; unfold bk in Hux; congruence). assert (r <> d) as Hrd by congruence.
    pose proof (HU r) as Hur. destruct (Hc _ _ Hr) as (it' & Hr' & <-). rewrite (decide_False (P := r = x)) in * by done. exists [r]. apply walk_root; [done|].
    rewrite (U_lookup _ _ _ Hr), (U_lookup _ _ _ Hr') in Hur. rewrite (decide_False (P := r = d)) in Hur by done. unfold bk in Hur.
    rewrite decide_False in Hur by congruence. injection Hur as Hur _. rewrite Hur, decide_False; congruence.
  - destruct (Hc _ _ Hv) as (it' & Hv' & <-). eexists. eapply walk_step; [exact IH| |exact Hv']. rewrite HE.
    assert (v <> 0) as Hv0 by (by eapply lk_nz). destruct (decide (z = x)) as [->|Hzx].
    + rewrite decide_False, decide_True by congruence. rewrite decide_False; [done|]. intros ->. by eapply (E_irrefl _ _ Hl).
    + rewrite decide_False by done. rewrite decide_False by (intros ->; apply E_some in Ez as (? & ? & _); congruence).
      destruct (decide (v = x)) as [->|Hvx].
      * rewrite decide_True; [done|]. apply (lk_down _ _ Hl) in Ez; [|done]. rewrite Hux in Ez. naive_solver.
      * rewrite decide_False; [done|]. intros [-> ->]. congruence.
Qed.
Lemma linked_mv : linked None m'.
Proof.
  assert (x <> 0) as Hx0 by (by eapply lk_nz). assert (x <> d) by congruence. pose proof (lk_up _ _ Hl _ _ _ Hux Hw0) as Hwx.
  assert (w <> x) as Hwne by (eapply E_irrefl; [done..|]; done). assert (w <> d) by (intros ->; apply E_some in Hwx as (? & ? & _); congruence).
  assert (forall z c, E m z c = Some d -> False) as Hnd. { intros z c Ez%(lk_down _ _ Hl); [|done]. apply U_some in Ez as (? & ? & _). congruence. }
  assert (forall z c, E m z c <> Some 0) as Hn0. { intros z c Ez%(lk_hole _ _ Hl). done. }
  assert (forall z iz, m' !! z = Some iz -> z <> x /\ (z = d \/ is_Some (m !! z))) as Hdom.
  { intros z iz Hz. pose proof (HU z) as Hu. rewrite (U_lookup _ _ _ Hz) in Hu. case_decide; [done|]. split; [done|]. case_decide; [by left|right].
    destruct (U m z) as [[v c]|] eqn:Huz; [|done]. apply U_some in Huz as (? & ? & _). eauto. }
  split.
  - destruct (m' !! 0) as [it|] eqn:Hm0; [|done]. apply Hdom in Hm0 as (_ & [Hm0|[? Hm0]]); [congruence|]. by rewrite (lk_dom0 _ _ Hl) in Hm0.
  - intros z c v Hz Hv. rewrite HE, HU. destruct (decide (z = x)) as [->|Hzx].
    + split; [done|]. destruct (decide (v = x)); [done|]. destruct (decide (v = d)) as [->|]; [congruence|].
      destruct (U m v) as [[u c']|] eqn:Huv; [|done]. case_decide; congruence.
    + destruct (decide (z = d)) as [->|Hzd].
      * destruct (decide (v = x)) as [->|]; [split; [intros Ez; by eapply (E_irrefl _ _ Hl) in Ez|done]|].
        destruct (decide (v = d)) as [->|]; [split; [by intros ?%Hnd|congruence]|]. rewrite (lk_iff _ _ Hl) by done.
        destruct (U m v) as [[u c']|] eqn:Huv; [|done]. destruct (decide (u = x)); [split; congruence|]. split; [congruence|]. intros [= -> ->].
        apply (lk_up _ _ Hl) in Huv as (? & ? & _)%E_some; [congruence|done].
      * destruct (decide (z = w /\ c = e)) as [[-> ->]|Hne].
        -- destruct (decide (v = x)) as [->|]; [split; congruence|]. destruct (decide (v = d)) as [->|]; [done|]. split; [congruence|].
           destruct (U m v) as [[u c']|] eqn:Huv; [|done]. destruct (decide (u = x)); [congruence|]. intros [= -> ->]. apply (lk_up _ _ Hl) in Huv; congruence.
        -- destruct (decide (v = x)) as [->|]; [split; [|done]; intros Ez%(lk_down _ _ Hl); [|done]; rewrite Hux in Ez; destruct Hne; split; congruence|].
           destruct (decide (v = d)) as [->|]; [split; [by intros ?%Hnd|intros [= -> ->]; by destruct Hne]|]. rewrite (lk_iff _ _ Hl) by done.
           destruct (U m v) as [[u c']|] eqn:Huv; [|done]. destruct (decide (u = x)); [split; congruence|]. done.
  - intros z c. split; [|done]. rewrite HE. repeat case_decide; try congruence; by intros ?%Hn0.
  - intros z c. rewrite HU. destruct (decide (z = x)); [done|]. destruct (decide (z = d)); [congruence|]. destruct (U m z) as [[u c']|] eqn:Huz; [|done].
    case_decide; [congruence|]. intros [= -> ->]. by apply (lk_root _ _ Hl) in Huz.
  - intros z iz Hz. apply Hdom in Hz as (Hzx & [->|[iz' Hz']]).
    + destruct (lk_reach _ _ Hl _ _ Hx) as (r & p & k & Hk). destruct (keep_mv _ _ _ _ Hk) as (q & Hk'). rewrite decide_True in Hk' by done. eauto.
    + destruct (lk_reach _ _ Hl _ _ Hz') as (r & p & k & Hk). destruct (keep_mv _ _ _ _ Hk) as (q & Hk'). rewrite decide_False in Hk' by done. eauto.
Qed.
End mv.

(** A new item [d] takes both links of [x], which is left with a link to [d] and a hole. *)
Section cap.
Context m m' (x d : Z) (ix id : item) (Hl : linked None m) (Hx : m !! x = Some ix) (Hd : m !! d = None) (Hd0 : d <> 0).
Context (HE : forall z c, E m' z c = if decide (z = d) then E m x c else if decide (z = x) then Some (if (c : bool) then d else 0) else E m z c).
Context (HU : forall z, U m' z = if decide (z = d) then Some (x, true) else
  match U m z with Some (v, c) => Some (if decide (v = x) then d else v, c) | None => None end).
Context (Hid : m' !! d = Some id) (Hcd : chunk id = []).
Context (Hc : forall z iz, m !! z = Some iz -> exists iz', m' !! z = Some iz' /\ chunk iz' = chunk iz).

Lemma keep_cap : keep (fun _ => True) m m'.
Proof.
  assert (x <> 0) as Hx0 by (by eapply lk_nz). assert (x <> d) by congruence. intros r z p k Hk _. induction Hk as [it Hr Hp|z c v it p k H' [q IH] Ez Hv].
  - destruct (Hc _ _ Hr) as (it' & Hr' & <-). exists [r]. apply walk_root; [done|]. pose proof (HU r) as Hur.
    rewrite (U_lookup _ _ _ Hr), (U_lookup _ _ _ Hr'), decide_False in Hur by congruence. unfold bk in Hur. rewrite decide_False in Hur by congruence.
    injection Hur as Hur _. congruence.
  - destruct (Hc _ _ Hv) as (it' & Hv' & <-). assert (z <> d) by (intros ->; apply E_some in Ez as (? & ? & _); congruence). destruct (decide (z = x)) as [->|Hzx].
    + assert (walk m' r d (q ++ [d]) (k ++ chunk id)) as Hwd.
      { eapply walk_step; [exact IH| |exact Hid]. rewrite HE, decide_False, (decide_True (P := x = x)) by done. instantiate (1 := true). done. }
      rewrite Hcd, app_nil_r in Hwd. eexists. eapply walk_step; [exact Hwd| |exact Hv']. by rewrite HE, decide_True by done.
    + eexists. eapply walk_step; [exact IH| |exact Hv']. by rewrite HE, !decide_False by done.
Qed.
Lemma linked_cap : linked (Some (x, false)) m'.
Proof.
  assert (x <> 0) as Hx0 by (by eapply lk_nz). assert (x <> d) by congruence.
  assert (forall z c, E m z c = Some d -> False) as Hnd. { intros z c Ez%(lk_down _ _ Hl); [|done]. apply U_some in Ez as (? & ? & _). congruence. }
  assert (forall z c, U m z = Some (d, c) -> False) as Hnd'. { intros z c Ez%(lk_up _ _ Hl); [|done]. apply E_some in Ez as (? & ? & _). congruence. }
  assert (forall z c, E m z c <> Some 0) as Hn0. { intros z c Ez%(lk_hole _ _ Hl). done. }
  assert (forall z iz, m' !! z = Some iz -> z = d \/ is_Some (m !! z)) as Hdom.
  { intros z iz Hz. pose proof (HU z) as Hu. rewrite (U_lookup _ _ _ Hz) in Hu. case_decide; [by left|right].
    destruct (U m z) as [[v c]|] eqn:Huz; [|done]. apply U_some in Huz as (? & ? & _). eauto. }
  split.
  - destruct (m' !! 0) as [it|] eqn:Hm0; [|done]. apply Hdom in Hm0 as [Hm0|[? Hm0]]; [congruence|]. by rewrite (lk_dom0 _ _ Hl) in Hm0.
  - intros z c v Hz Hv. rewrite HE, HU. destruct (decide (v = d)) as [->|Hvd].
    + destruct (decide (z = d)) as [->|]; [split; [by intros ?%Hnd|congruence]|]. destruct (decide (z = x)) as [->|].
      * destruct c; split; congruence.
      * split; [by intros ?%Hnd|congruence].
    + pose proof (lk_iff _ _ Hl) as Hi. destruct (decide (z = d)) as [->|].
      * rewrite Hi by done. destruct (U m v) as [[u c']|] eqn:Huv; [|done]. destruct (decide (u = x)) as [->|]; [split; congruence|]. split; [congruence|]. intros [= -> ->]. by apply Hnd' in Huv.
      * destruct (decide (z = x)) as [->|].
        -- split; [destruct c; congruence|]. destruct (U m v) as [[u c']|] eqn:Huv; [|done]. destruct (decide (u = x)) as [->|]; congruence.
        -- rewrite Hi by done. destruct (U m v) as [[u c']|] eqn:Huv; [|done]. destruct (decide (u = x)) as [->|]; [split; congruence|done].
  - intros z c. rewrite HE. destruct (decide (z = d)) as [->|]; [split; [by intros ?%Hn0|congruence]|]. destruct (decide (z = x)) as [->|].
    + destruct c; split; congruence.
    + split; [by intros ?%Hn0|congruence].
  - intros z c. rewrite HU. case_decide; [congruence|]. destruct (U m z) as [[u c']|] eqn:Huz; [|done]. case_decide; [congruence|].
    intros [= -> ->]. by apply (lk_root _ _ Hl) in Huz.
  - intros z iz Hz. destruct (Hdom _ _ Hz) as [->|[iz' Hz']]; [|by eapply reach_keep; [done|apply keep_cap|done|]].
    destruct (lk_reach _ _ Hl _ _ Hx) as (r & p & k & Hk). destruct (keep_cap _ _ _ _ Hk I) as (q & Hk'). eexists _, _, _.
    eapply walk_step; [exact Hk'| |exact Hz]. rewrite HE, decide_False, (decide_True (P := x = x)) by done. instantiate (1 := true). done.
Qed.
End cap.

(** The hole is linked to a detached branch. *)
Section fill.
Context m m' (x : Z) (b : bool) (n : Z) (i : item) (Hl : linked (Some (x, b)) m) (Hn : m !! n = Some i) (Hnp : prev i = 0).
Context (r : Z) (px kx : list Z) (Hwx : walk m r x px kx) (Hrn : r <> n).
Context (HE : forall z c, E m' z c = if decide (z = x /\ c = b) then Some n else E m z c).
Context (HU : forall z, U m' z = if decide (z = n) then Some (x, b) else U m z).
Context (Hc : forall z iz, m !! z = Some iz -> exists iz', m' !! z = Some iz' /\ chunk iz' = chunk iz).

Lemma walk_fill r' z p k : walk m r' z p k -> if decide (r' = n) then walk m' r z (px ++ p) (kx ++ k) else walk m' r' z p k.
Proof.
  assert (forall z c v, E m z c = Some v -> is_Some (m !! v) -> E m' z c = Some v) as HE'.
  { intros u c v Eu [iv Hv]. rewrite HE, decide_False; [done|]. intros [-> ->]. rewrite (proj2 (lk_hole _ _ Hl x b) eq_refl) in Eu. simplify_eq. by rewrite (lk_dom0 _ _ Hl) in Hv. }
  assert (forall r' z p k, r' <> n -> walk m r' z p k -> walk m' r' z p k) as H1.
  { intros r1 z1 p1 k1 Hr1 Hk. induction Hk as [it Hr Hp|u c v it q l H' IH Ez Hv].
    - destruct (Hc _ _ Hr) as (it' & Hr' & <-). apply walk_root; [done|]. pose proof (HU r1) as Hu. rewrite (U_lookup _ _ _ Hr), (U_lookup _ _ _ Hr'), decide_False in Hu by done.
      unfold bk in Hu. congruence.
    - destruct (Hc _ _ Hv) as (it' & Hv' & <-). eapply walk_step; [exact IH| |exact Hv']. apply HE'; [done|eauto]. }
  intros Hk. destruct (decide (r' = n)) as [->|]; [|by apply H1]. induction Hk as [it Hr Hp|u c v it q l H' IH Ez Hv].
  - destruct (Hc _ _ Hr) as (it' & Hr' & <-). eapply walk_step; [apply H1; [exact Hrn|exact Hwx]| |exact Hr']. by rewrite HE, decide_True.
  - destruct (Hc _ _ Hv) as (it' & Hv' & <-). rewrite !app_assoc. eapply walk_step; [exact IH| |exact Hv']. apply HE'; [done|eauto].
Qed.
Lemma linked_fill : linked None m'.
Proof.
  assert (x <> 0) as Hx0 by (apply walk_in in Hwx as [[? ?] _]; by eapply lk_nz). assert (n <> 0) as Hn0 by (by eapply lk_nz).
  assert (forall z iz, m' !! z = Some iz -> is_Some (m !! z)) as Hdom.
  { intros z iz Hz. pose proof (HU z) as Hu. rewrite (U_lookup _ _ _ Hz) in Hu. case_decide; [subst; eauto|]. symmetry in Hu. unfold bk in Hu. apply U_some in Hu as (? & ? & _). eauto. }
  assert (forall z c, E m z c = Some n -> False) as Hnn.
  { intros z c Ez. pose proof (lk_down _ _ Hl _ _ _ Ez Hn0) as Hu. rewrite (U_lookup _ _ _ Hn) in Hu. unfold bk in Hu.
    apply E_some in Ez as (iz & Hz & _). apply (lk_nz _ _ Hl) in Hz. congruence. }
  split.
  - destruct (m' !! 0) as [it|] eqn:Hm0; [|done]. apply Hdom in Hm0 as [? Hm0]. by rewrite (lk_dom0 _ _ Hl) in Hm0.
  - intros z c v Hz Hv. rewrite HE, HU. destruct (decide (v = n)) as [->|].
    + destruct (decide (z = x /\ c = b)) as [[-> ->]|Hne]; [done|]. split; [by intros ?%Hnn|]. intros [= -> ->]. by destruct Hne.
    + destruct (decide (z = x /\ c = b)) as [[-> ->]|Hne]; [|by apply Hl]. split; [congruence|]. intros Hu%(lk_up _ _ Hl); [|done].
      rewrite (proj2 (lk_hole _ _ Hl x b) eq_refl) in Hu. congruence.
  - intros z c. split; [|done]. rewrite HE. case_decide as Hd; [congruence|]. intros Ez%(lk_hole _ _ Hl). naive_solver.
  - intros z c. rewrite HU. case_decide; [congruence|]. apply Hl.
  - intros z iz Hz. apply Hdom in Hz as [iz' Hz]. destruct (lk_reach _ _ Hl _ _ Hz) as (r' & p & k & Hk). pose proof (walk_fill _ _ _ _ Hk) as Hk'.
    case_decide; eauto.
Qed.
End fill.

(** A link is added, not set yet, or an unset link is removed. *)
Lemma walk_same m m' : (forall x b y, E m x b = Some y -> is_Some (m !! y) -> E m' x b = Some y) -> (forall y, U m' y = U m y) ->
  (forall y it, m !! y = Some it -> exists it', m' !! y = Some it' /\ chunk it' = chunk it) -> forall r y p k, walk m r y p k -> walk m' r y p k.
Proof.
  intros HE HU Hc r y p k Hw. induction Hw as [it Hr Hp|x b y it p k H IH He Hy].
  - destruct (Hc _ _ Hr) as (it' & Hr' & <-). apply walk_root; [done|]. pose proof (HU r) as Hu. rewrite (U_lookup _ _ _ Hr), (U_lookup _ _ _ Hr') in Hu. unfold bk in Hu. congruence.
  - destruct (Hc _ _ Hy) as (it' & Hy' & <-). eapply walk_step; [exact IH| |exact Hy']. apply HE; [done|eauto].
Qed.
Lemma U_dom m m' : (forall y, U m' y = U m y) -> forall y it, m' !! y = Some it -> is_Some (m !! y).
Proof. intros HU y it Hy. pose proof (HU y) as Hu. rewrite (U_lookup _ _ _ Hy) in Hu. unfold bk in Hu. symmetry in Hu. apply U_some in Hu as (? & ? & _). eauto. Qed.

Lemma open_hole m m' x b : linked None m -> is_Some (m !! x) -> E m x b = None ->
  (forall z c, E m' z c = if decide (z = x /\ c = b) then Some 0 else E m z c) -> (forall z, U m' z = U m z) ->
  (forall y it, m !! y = Some it -> exists it', m' !! y = Some it' /\ chunk it' = chunk it) ->
  linked (Some (x, b)) m' /\ forall r y p k, walk m r y p k -> walk m' r y p k.
Proof.
  intros Hl [ix Hx] Hn HE HU Hc. assert (forall r y p k, walk m r y p k -> walk m' r y p k) as HW.
  { apply walk_same; [|done..]. intros z c v Ez _. rewrite HE, decide_False; [done|]. intros [-> ->]. congruence. }
  split; [|done]. pose proof (U_dom _ _ HU) as Hdom. split.
  - destruct (m' !! 0) as [it|] eqn:Hm0; [|done]. apply Hdom in Hm0 as [? Hm0]. by rewrite (lk_dom0 _ _ Hl) in Hm0.
  - intros z c v Hz Hv. rewrite HE, HU. case_decide as Hd; [|by apply Hl]. destruct Hd as [-> ->]. split; [congruence|]. intros Hu%(lk_up _ _ Hl); congruence.
  - intros z c. rewrite HE. case_decide as Hd; [destruct Hd as [-> ->]; done|]. split; [intros Ez%(lk_hole _ _ Hl); done|]. intros [= -> ->]. by destruct Hd.
  - intros z c. rewrite HU. apply Hl.
  - intros z iz Hz. apply Hdom in Hz as [? Hz]. destruct (lk_reach _ _ Hl _ _ Hz) as (r & p & k & ?). eauto.
Qed.
Lemma close_hole m m' x b : linked (Some (x, b)) m ->
  (forall z c, E m' z c = if decide (z = x /\ c = b) then None else E m z c) -> (forall z, U m' z = U m z) ->
  (forall y it, m !! y = Some it -> exists it', m' !! y = Some it' /\ chunk it' = chunk it) ->
  linked None m' /\ forall r y p k, walk m r y p k -> walk m' r y p k.
Proof.
  intros Hl HE HU Hc. pose proof (proj2 (lk_hole _ _ Hl x b) eq_refl) as Hn. assert (forall r y p k, walk m r y p k -> walk m' r y p k) as HW.
  { apply walk_same; [|done..]. intros z c v Ez [? Hv]. rewrite HE, decide_False; [done|]. intros [-> ->]. simplify_eq. by rewrite (lk_dom0 _ _ Hl) in Hv. }
  split; [|done]. pose proof (U_dom _ _ HU) as Hdom. split.
  - destruct (m' !! 0) as [it|] eqn:Hm0; [|done]. apply Hdom in Hm0 as [? Hm0]. by rewrite (lk_dom0 _ _ Hl) in Hm0.
  - intros z c v Hz Hv. rewrite HE, HU. case_decide as Hd; [|by apply Hl]. destruct Hd as [-> ->]. split; [congruence|]. intros Hu%(lk_up _ _ Hl); congruence.
  - intros z c. rewrite HE. split; [|done]. case_decide as Hd; [done|]. intros Ez%(lk_hole _ _ Hl). destruct Hd. by injection Ez as -> ->.
  - intros z c. rewrite HU. apply Hl.
  - intros z iz Hz. apply Hdom in Hz as [? Hz]. destruct (lk_reach _ _ Hl _ _ Hz) as (r & p & k & ?). eauto.
Qed.
(** The hole is on the side of equality, which takes the other link. *)
Lemma close_hole_eq m m' x y : linked (Some (x, true)) m -> E m x false = Some y ->
  (forall z c, E m' z c = if decide (z = x) then (if (c : bool) then Some y else None) else E m z c) ->
  (forall z, U m' z = if decide (z = y) then Some (x, true) else U m z) ->
  (forall y it, m !! y = Some it -> exists it', m' !! y = Some it' /\ chunk it' = chunk it) ->
  linked None m' /\ forall r y p k, walk m r y p k -> walk m' r y p k.
Proof.
  intros Hl Hxy HE HU Hc. pose proof (proj2 (lk_hole _ _ Hl x true) eq_refl) as Hn.
  assert (y <> 0) as Hy0 by (intros ->; apply (lk_hole _ _ Hl) in Hxy; congruence). assert (x <> 0) as Hx0 by (apply E_some in Hxy as (? & ? & _); by eapply lk_nz).
  pose proof (lk_down _ _ Hl _ _ _ Hxy Hy0) as Hu.
  assert (forall r z p k, walk m r z p k -> walk m' r z p k) as HW.
  { intros r z p k Hw. induction Hw as [it Hr Hp|z b v it p k H IH He Hv].
    - destruct (Hc _ _ Hr) as (it' & Hr' & <-). apply walk_root; [done|]. pose proof (HU r) as Hur. rewrite (U_lookup _ _ _ Hr), (U_lookup _ _ _ Hr') in Hur.
      rewrite decide_False in Hur by (intros ->; rewrite (U_lookup _ _ _ Hr) in Hu; unfold bk in Hu; congruence). unfold bk in Hur. congruence.
    - destruct (Hc _ _ Hv) as (it' & Hv' & <-). destruct (decide (z = x)) as [->|].
      + destruct b; [rewrite Hn in He; simplify_eq; by rewrite (lk_dom0 _ _ Hl) in Hv|]. eapply walk_step; [exact IH| |exact Hv']. rewrite HE, decide_True by done. instantiate (1 := true). congruence.
      + eapply walk_step; [exact IH| |exact Hv']. by rewrite HE, decide_False. }
  assert (forall z iz, m' !! z = Some iz -> is_Some (m !! z)) as Hdom.
  { intros z iz Hz. pose proof (HU z) as Huz. rewrite (U_lookup _ _ _ Hz) in Huz. case_decide; [subst; apply U_some in Hu as (? & ? & _); eauto|]. symmetry in Huz. unfold bk in Huz. apply U_some in Huz as (? & ? & _). eauto. }
  split; [|done]. split.
  - destruct (m' !! 0) as [it|] eqn:Hm0; [|done]. apply Hdom in Hm0 as [? Hm0]. by rewrite (lk_dom0 _ _ Hl) in Hm0.
  - intros z c v Hz Hv. rewrite HE, HU. destruct (decide (z = x)) as [->|].
    + destruct (decide (v = y)) as [->|]; [destruct c; split; congruence|]. split; [destruct c; congruence|]. intros Huv%(lk_up _ _ Hl); [|done]. destruct c; congruence.
    + destruct (decide (v = y)) as [->|]; [|by apply Hl]. split; [|congruence]. intros Ez. by destruct (E_inj _ _ Hl _ _ _ _ _ Hxy Ez Hy0).
  - intros z c. rewrite HE. split; [|done]. case_decide; [destruct c; congruence|]. intros Ez%(lk_hole _ _ Hl). congruence.
  - intros z c. rewrite HU. case_decide; [congruence|]. apply Hl.
  - intros z iz Hz. apply Hdom in Hz as [? Hz]. destruct (lk_reach _ _ Hl _ _ Hz) as (r & p & k & ?). eauto.
Qed.

(** A branch is detached. *)
Section cut.
Context m m' (x : Z) (b : bool) (n : Z) (i : item) (Hl : linked None m) (Hn : m !! n = Some i) (Hun : U m n = Some (x, b)) (Hx0 : x <> 0).
Context (HE : forall z c, E m' z c = if decide (z = x /\ c = b) then Some 0 else E m z c).
Context (HU : forall z, U m' z = if decide (z = n) then Some (0, true) else U m z).
Context (Hc : forall z iz, m !! z = Some iz -> exists iz', m' !! z = Some iz' /\ chunk iz' = chunk iz).

Lemma walk_cut r z p k : walk m r z p k -> if decide (n ∈ p) then exists p' k', walk m' n z p' k' else walk m' r z p k.
Proof.
  pose proof (lk_up _ _ Hl _ _ _ Hun Hx0) as Hxn. assert (n <> 0) as Hn0 by (by eapply lk_nz).
  intros Hw. induction Hw as [it Hr Hp|u c v it p k H IH He Hv].
  - assert (r <> n) by (intros ->; rewrite (U_lookup _ _ _ Hr) in Hun; unfold bk in Hun; congruence). rewrite decide_False by (by intros ->%list_elem_of_singleton).
    destruct (Hc _ _ Hr) as (it' & Hr' & <-). apply walk_root; [done|]. pose proof (HU r) as Hu. rewrite (U_lookup _ _ _ Hr), (U_lookup _ _ _ Hr'), decide_False in Hu by done.
    unfold bk in Hu. congruence.
  - destruct (Hc _ _ Hv) as (it' & Hv' & <-). destruct (decide (v = n)) as [->|Hvn].
    + rewrite decide_True by set_solver. eexists _, _. apply walk_root; [exact Hv'|]. pose proof (HU n) as Hu. rewrite (U_lookup _ _ _ Hv'), decide_True in Hu by done. unfold bk in Hu. congruence.
    + assert (E m' u c = Some v) as He'. { rewrite HE, decide_False; [done|]. intros [-> ->]. congruence. }
      destruct (decide (n ∈ p)) as [Hin|Hin].
      * rewrite decide_True by set_solver. destruct IH as (p' & k' & IH). eexists _, _. eapply walk_step; [exact IH|exact He'|exact Hv'].
      * rewrite decide_False by set_solver. by eapply walk_step.
Qed.
Lemma linked_cut : linked (Some (x, b)) m'.
Proof.
  pose proof (lk_up _ _ Hl _ _ _ Hun Hx0) as Hxn. assert (n <> 0) as Hn0 by (by eapply lk_nz).
  assert (forall z iz, m' !! z = Some iz -> is_Some (m !! z)) as Hdom.
  { intros z iz Hz. pose proof (HU z) as Hu. rewrite (U_lookup _ _ _ Hz) in Hu. case_decide; [subst; eauto|]. symmetry in Hu. unfold bk in Hu. apply U_some in Hu as (? & ? & _). eauto. }
  split.
  - destruct (m' !! 0) as [it|] eqn:Hm0; [|done]. apply Hdom in Hm0 as [? Hm0]. by rewrite (lk_dom0 _ _ Hl) in Hm0.
  - intros z c v Hz Hv. rewrite HE, HU. destruct (decide (z = x /\ c = b)) as [[-> ->]|Hne].
    + destruct (decide (v = n)) as [->|]; [split; congruence|]. split; [congruence|]. intros Hu%(lk_up _ _ Hl); congruence.
    + destruct (decide (v = n)) as [->|]; [|by apply Hl]. split; [|congruence]. intros Ez. destruct (E_inj _ _ Hl _ _ _ _ _ Hxn Ez Hn0). by destruct Hne.
  - intros z c. rewrite HE. case_decide as Hd; [by destruct Hd as [-> ->]|]. split; [by intros ?%(lk_hole _ _ Hl)|]. intros [= -> ->]. by destruct Hd.
  - intros z c. rewrite HU. case_decide; [congruence|]. apply Hl.
  - intros z iz Hz. apply Hdom in Hz as [? Hz]. destruct (lk_reach _ _ Hl _ _ Hz) as (r & p & k & Hk). pose proof (walk_cut _ _ _ _ Hk). case_decide; naive_solver.
Qed.
End cut.

(** A whole tree is dropped. *)
Lemma linked_drop h m m' n (S : Z -> Prop) : linked h m -> (forall z, S z <-> exists p k, walk m n z p k) ->
  (forall z, m' !! z = None <-> S z \/ m !! z = None) -> (forall z iz, m' !! z = Some iz -> m !! z = Some iz) ->
  (forall x b, h = Some (x, b) -> ~ S x) ->
  linked h m' /\ forall r z p k, r <> n -> walk m r z p k -> walk m' r z p k.
Proof.
  intros Hl HS Hdom Hsub Hh. assert (forall z, ~ S z -> m' !! z = m !! z) as Hz.
  { intros z Hz. destruct (m' !! z) eqn:Hm; [by rewrite (Hsub _ _ Hm)|]. apply Hdom in Hm as [|Hm]; [done|by rewrite Hm]. }
  assert (forall z, S z -> m' !! z = None) as Hz' by (intros z Hs; apply Hdom; by left).
  assert (forall z c v, E m z c = Some v -> v <> 0 -> S z <-> S v) as Hcl.
  { intros z c v He Hv. rewrite !HS. destruct (E_walk _ _ Hl _ _ _ He Hv) as (r & p & k & iv & Hw & Hiv & Hw'). split; intros (p' & k' & Hw2).
    - destruct (walk_unique _ _ Hl _ _ _ _ _ _ _ Hw Hw2) as (-> & _). eauto.
    - destruct (walk_unique _ _ Hl _ _ _ _ _ _ _ Hw' Hw2) as (-> & _). eauto. }
  assert (forall z c, ~ S z -> E m' z c = E m z c) as HE by (intros z c Hs; unfold E; by rewrite Hz).
  assert (forall z c, S z -> E m' z c = None) as HE' by (intros z c Hs; unfold E; by rewrite Hz').
  assert (forall z, ~ S z -> U m' z = U m z) as HU by (intros z Hs; unfold U; by rewrite Hz).
  assert (forall z, S z -> U m' z = None) as HU' by (intros z Hs; unfold U; by rewrite Hz').
  assert (forall z, is_Some (m' !! z) -> ~ S z) as Hns by (intros z [? Hs] Hz2; by rewrite Hz' in Hs).
  assert (forall r z p k, r <> n -> walk m r z p k -> ~ S z) as Hnr.
  { intros r z p k Hr Hk (p' & k' & Hk')%HS. by destruct (walk_unique _ _ Hl _ _ _ _ _ _ _ Hk Hk'). }
  assert (forall r z p k, r <> n -> walk m r z p k -> walk m' r z p k) as HW.
  { intros r z p k Hr Hk. induction Hk as [it Hi Hp|u c v it p k H IH He Hv].
    - apply walk_root; [rewrite Hz; [done|eapply Hnr; [done|by apply walk_root]]|done].
    - eapply walk_step; [exact IH|rewrite HE by (by eapply Hnr); exact He|]. rewrite Hz; [done|]. rewrite <- Hcl; [by eapply Hnr|exact He|by eapply lk_nz]. }
  split; [|done]. split.
  - destruct (m' !! 0) eqn:H0; [|done]. apply Hsub in H0. by rewrite (lk_dom0 _ _ Hl) in H0.
  - intros z c v Hz0 Hv. split.
    + intros He. assert (~ S z) as Hsz by (apply Hns; unfold E in He; destruct (m' !! z); [eauto|done]). rewrite HE in He by done.
      rewrite HU; [by apply Hl|]. by rewrite <- Hcl by done.
    + intros Hu. assert (~ S v) as Hsv by (apply Hns; unfold U in Hu; destruct (m' !! v); [eauto|done]). rewrite HU in Hu by done.
      apply (lk_up _ _ Hl) in Hu; [|done]. rewrite HE; [done|]. by rewrite Hcl by done.
  - intros z c. split.
    + intros He. assert (~ S z) as Hsz by (apply Hns; unfold E in He; destruct (m' !! z); [eauto|done]). rewrite HE in He by done. by apply (lk_hole _ _ Hl).
    + intros Hh'. rewrite HE by (by eapply Hh). by apply (lk_hole _ _ Hl).
  - intros z c Hu. assert (~ S z) as Hsv by (apply Hns; unfold U in Hu; destruct (m' !! z); [eauto|done]). rewrite HU in Hu by done. by eapply Hl.
  - intros z iz Hm. pose proof (Hns z ltac:(eauto)) as Hsz. destruct (lk_reach _ _ Hl _ _ (Hsub _ _ Hm)) as (r & p & k & Hk). exists r, p, k. apply HW; [|done].
    intros ->. apply Hsz. apply HS. eauto.
Qed.

(** A detached item is added. *)
Lemma linked_new h m d id : linked h m -> m !! d = None -> d <> 0 -> bk id = (0, true) ->
  (kind id = Terminal \/ kind id = Prefix /\ nxt_eq id = 0 /\ h = None) ->
  linked (if decide (kind id = Terminal) then h else Some (d, true)) (<[d := id]> m) /\
  (forall r y p k, walk m r y p k -> walk (<[d := id]> m) r y p k) /\ walk (<[d := id]> m) d d [d] (chunk id).
Proof.
  intros Hl Hd Hd0 Hb Hk. assert (forall r y p k, walk m r y p k -> walk (<[d := id]> m) r y p k) as HW.
  { intros r y p k Hw. induction Hw as [it Hr Hp|x b y it p k H IH He Hy].
    - apply walk_root; [|done]. rewrite lookup_insert_ne; congruence.
    - eapply walk_step; [exact IH| |rewrite lookup_insert_ne; congruence]. rewrite E_insert, decide_False; [done|]. intros ->. apply E_some in He as (? & ? & _). congruence. }
  assert (walk (<[d := id]> m) d d [d] (chunk id)) as Hwd by (apply walk_root; [by rewrite lookup_insert_eq|unfold bk in Hb; congruence]).
  split_and!; [|done..]. assert (forall c, lnk id c = None \/ lnk id c = Some 0) as H0.
  { intros c. unfold lnk, nx. destruct Hk as [->|(-> & -> & _)]; [by left|]. destruct c; simpl; auto. }
  assert (forall z c, E m z c = Some d -> False) as Hnd. { intros z c Ez%(lk_down _ _ Hl); [|done]. apply U_some in Ez as (? & ? & _). congruence. }
  assert (forall z c, U m z = Some (d, c) -> False) as Hnd'. { intros z c Ez%(lk_up _ _ Hl); [|done]. apply E_some in Ez as (? & ? & _). congruence. }
  split.
  - rewrite lookup_insert_ne by done. apply Hl.
  - intros z c v Hz Hv. rewrite E_insert, U_insert. destruct (decide (d = z)) as [<-|].
    + destruct (decide (d = v)) as [<-|]; [rewrite Hb; split; [destruct (H0 c) as [->| ->]; congruence|congruence]|].
      split; [destruct (H0 c) as [->| ->]; congruence|]. by intros ?%Hnd'.
    + destruct (decide (d = v)) as [<-|]; [|by apply Hl]. rewrite Hb. split; [by intros ?%Hnd|congruence].
  - intros z c. rewrite E_insert. destruct (decide (d = z)) as [<-|].
    + assert (h <> Some (d, c)) by (intros Hh%(lk_hole _ _ Hl)%E_some; destruct Hh as (? & ? & _); congruence).
      unfold lnk, nx. destruct Hk as [->|(-> & -> & ->)]; [rewrite decide_True by done|rewrite decide_False by done]; [split; [done|congruence]|].
      destruct c; split; cbn; congruence.
    + rewrite (lk_hole _ _ Hl). destruct Hk as [->|(-> & _ & ->)]; [by rewrite decide_True by done|rewrite decide_False by done]. split; congruence.
  - intros z c. rewrite U_insert. case_decide; [congruence|]. apply Hl.
  - intros z iz [[<- <-]|[Hne Hz]]%lookup_insert_Some; [eauto|]. destruct (lk_reach _ _ Hl _ _ Hz) as (r & p & k & ?). eauto.
Qed.
End graph.
