(* ===== verification/PrefixFile.v ===== *)
(** * Prefix trees: [MultiPrefixFile] of src/store/prefix.hh.

    Names are stored as paths in trees of items whose first characters are shared. Items that stand for an
    inserted name ([used]) never move, so that their index identifies the name. Updates first save the
    items they modify, and only release blocks once committed, so that an interrupted update can be undone
    when the file is opened again. Items live in blocks of an allocator, described by [Blocks]; the file is
    taken to be writable. *)
From S2P Require Import Prelude.
From S2P Require Import Arith.
From S2P Require Import PrefixItem.
Local Open Scope Z_scope.
Import Item.

(** What a prefix file needs of the allocator of its blocks: the sizes in use are those of [owned], and as
    many blocks as [room] tells can still be allocated. *)
Class Blocks (A : Type) := {
  owned : A -> gmap Z Z -> Prop;
  room : nat -> A -> Prop;
  alloc : Z -> A -> outcome (A * Z);
  free : Z -> Z -> A -> outcome A;
  shorten : Z -> Z -> Z -> A -> outcome A;
}.
Class BlocksOk (A : Type) `{Blocks A} : Prop := {
  alloc_ok a X k n : owned a X -> room (S k) a -> 1 <= n <= MaxSz -> exists a' i,
    alloc n a = Ret (a', i) /\ X !! i = None /\ i <> 0 /\ owned a' (<[i := n]> X) /\ room k a';
  free_ok a X k i n : owned a X -> room k a -> X !! i = Some n -> exists a',
    free i n a = Ret a' /\ owned a' (delete i X) /\ room k a';
  shorten_ok a X k i n m : owned a X -> room k a -> X !! i = Some n -> 1 <= m <= n -> exists a',
    shorten i n m a = Ret a' /\ owned a' (<[i := m]> X) /\ room k a';
}.

Module PrefixFile.
Section file.
Context {L : Layout} {A : Type} {B : Blocks A} {D : Type} (d0 : D).
Abbreviation item := (Item.t D).

(** [char_at(name,psfx,pos)]: the characters of a name in the order of the tree *)
Definition tree_name (Reverse : bool) (name psfx : list Z) : list Z :=
  if Reverse then reverse name ++ reverse psfx else name ++ psfx.

(** The file: allocator, items, saved items, blocks to release or shorten at the next commit *)
Record t := mk {
  al : A;
  items : gmap Z item;
  save : list (Z * item);
  _scheduled_pop : list Z;
  _scheduled_shorten : list (Z * Z);
}.
Definition set_al (a : A) (s : t) : t := mk a (items s) (save s) (_scheduled_pop s) (_scheduled_shorten s).
Definition set_items (m : gmap Z item) (s : t) : t := mk (al s) m (save s) (_scheduled_pop s) (_scheduled_shorten s).
Definition set_save (l : list (Z * item)) (s : t) : t := mk (al s) (items s) l (_scheduled_pop s) (_scheduled_shorten s).
Definition schedule_pop (i : Z) (s : t) : t := mk (al s) (items s) (save s) (_scheduled_pop s ++ [i]) (_scheduled_shorten s).
Definition schedule_shorten (i n : Z) (s : t) : t := mk (al s) (items s) (save s) (_scheduled_pop s) (_scheduled_shorten s ++ [(i, n)]).

Definition fuel_of (s : t) : nat := S (size (items s)).

(** [_at(idx)]; accessing a cell that holds no item is an error *)
Definition _at (idx : Z) (s : t) : outcome item :=
  match items s !! idx with Some it => Ret it | None => Crash end.
Definition put (idx : Z) (it : item) (s : t) : t := set_items (<[idx := it]> (items s)) s.
Definition upd (idx : Z) (f : item -> item) (s : t) : outcome t := it ← _at idx s; Ret (put idx (f it) s).
Definition upd_ (idx : Z) (f : item -> outcome item) (s : t) : outcome t := it ← _at idx s; it ← f it; Ret (put idx it s).

(** [SaveItem::save], [SaveItem::restore]: the characters of the chunk are not saved *)
Definition save_item (it : item) : item := set_chunk (chunk_sz it) [] it.
Definition restore_item (saved to : item) : item := set_chunk (chunk_sz saved) (chars to) saved.

(** [_backup<Bu>(idx)] *)
Definition _backup (Bu : bool) (idx : Z) (s : t) : outcome t :=
  if Bu then
    _ ← swear (length (save s) <? 64)%nat;
    it ← _at idx s;
    Ret (set_save (save s ++ [(idx, save_item it)]) s)
  else Ret s.

(** [_commit()] *)
Fixpoint pop_all (l : list Z) (s : t) : outcome t :=
  match l with
  | [] => Ret s
  | i :: l => it ← _at i s; a ← free i (sz it) (al s); pop_all l (set_al a (set_items (delete i (items s)) s))
  end.
Fixpoint shorten_all (l : list (Z * Z)) (s : t) : outcome t :=
  match l with
  | [] => Ret s
  | (i, old_sz) :: l => it ← _at i s; a ← shorten i old_sz (sz it) (al s); shorten_all l (set_al a s)
  end.
Definition _commit (s : t) : outcome t :=
  let s := set_save [] s in
  s ← pop_all (_scheduled_pop s) s;
  s ← shorten_all (_scheduled_shorten s) s;
  Ret (mk (al s) (items s) (save s) [] []).

(** What [init] does with a file whose last update was interrupted *)
Fixpoint restore_all (l : list (Z * item)) (s : t) : outcome t :=
  match l with
  | [] => Ret s
  | (i, saved) :: l => s ← upd i (restore_item saved) s; restore_all l s
  end.
Definition recover (s : t) : outcome t :=
  let s := mk (al s) (items s) (save s) [] [] in
  s ← restore_all (save s) s;
  _commit s.

(** [_emplace]: allocate the smallest block *)
Definition emplace_item (k : ItemKind) (used : bool) (chunk : list Z) (cmp_val cmp_bit : Z) (s : t) : outcome (t * Z) :=
  sz ← s_min_sz k used (Z.of_nat (length chunk));
  it ← Item.new d0 sz k used chunk cmp_val cmp_bit;
  '(a, idx) ← alloc sz (al s);
  Ret (put idx it (set_al a s), idx).
Definition _emplace_name (k : ItemKind) (used : bool) (name : list Z) (start chunk_sz : nat) (s : t) : outcome (t * Z) :=
  _ ← swear (start + chunk_sz <=? length name)%nat;
  emplace_item k used (take chunk_sz (drop start name)) 0 0 s.
Definition _emplace_from (k : ItemKind) (used : bool) (idx : Z) (start chunk_sz : nat) (cmp_val cmp_bit : Z) (s : t) : outcome (t * Z) :=
  it ← _at idx s;
  _ ← swear (start + chunk_sz <=? Item.chunk_sz it)%nat;
  emplace_item k used (take chunk_sz (drop start (chunk it))) cmp_val cmp_bit s.
Definition _emplace_copy (k : ItemKind) (used : bool) (idx : Z) (start chunk_sz : nat) (s : t) : outcome (t * Z) :=
  if decide (k = Split) then
    it ← _at idx s;
    _ ← swear (bool_decide (kind it = Split));
    _emplace_from k used idx start chunk_sz (cmp_val it) (cmp_bit it) s
  else _emplace_from k used idx start chunk_sz 0 0 s.
Definition _emplace_empty (k : ItemKind) (cmp_val cmp_bit : Z) (s : t) : outcome (t * Z) :=
  emplace_item k false [] cmp_val cmp_bit s.

(** [emplace_root()] *)
Definition emplace_root (s : t) : outcome (t * Z) :=
  it ← Item.new d0 MinUsedSz Terminal false [] 0 0;
  '(a, idx) ← alloc MinUsedSz (al s);
  Ret (put idx it (set_al a s), idx).

(** ** Links. The booleans tell which items are saved first. *)

(** [_lnk<BuF,BuT>(from,is_eq,to)] *)
Definition _lnk (BuF BuT : bool) (from : Z) (is_eq : bool) (to : Z) (s : t) : outcome t :=
  s ← _backup BuF from s;
  s ← _backup BuT to s;
  from_item ← _at from s;
  to_item ← _at to s;
  _ ← swear ((prev to_item =? 0) && prev_is_eq to_item);
  nxt ← nxt_if is_eq from_item;
  _ ← swear (nxt =? 0);
  s ← upd from (set_nxt is_eq to) s;
  upd to (set_prev from is_eq) s.

(** [_unlnk<BuF,BuT>(from,is_eq,to)] *)
Definition _unlnk (BuF BuT : bool) (from : Z) (is_eq : bool) (to : Z) (s : t) : outcome t :=
  s ← _backup BuF from s;
  s ← _backup BuT to s;
  from_item ← _at from s;
  nxt ← nxt_if is_eq from_item;
  to_item ← _at nxt s;
  _ ← swear (nxt =? to);
  s ← upd from (set_nxt is_eq 0) s;
  upd to (set_prev 0 true) s.

Definition _unlnk_after (BuI BuNxt : bool) (idx : Z) (is_eq : bool) (s : t) : outcome t :=
  it ← _at idx s;
  nxt ← nxt_if is_eq it;
  _unlnk BuI BuNxt idx is_eq nxt s.
Definition _unlnk_before (BuPrev BuI : bool) (idx : Z) (s : t) : outcome t :=
  it ← _at idx s;
  _unlnk BuPrev BuI (prev it) (prev_is_eq it) idx s.

(** [_mv_lnk_after], [_mv_lnk_before] *)
Definition _mv_lnk_after (BuF BuOldNxt BuT : bool) (from : Z) (is_eq : bool) (to : Z) (s : t) : outcome t :=
  s ← _unlnk_after BuF BuOldNxt from is_eq s;
  _lnk false BuT from is_eq to s.
Definition _mv_lnk_before (BuOldPrev BuF BuT : bool) (from : Z) (is_eq : bool) (to : Z) (s : t) : outcome t :=
  s ← _unlnk_before BuOldPrev BuT to s;
  _lnk BuF false from is_eq to s.

(** [_pop_item<BuPrev,BuI>(idx)] *)
Definition no_nxt (it : item) : bool :=
  match kind it with Terminal => true | Prefix => nxt_eq it =? 0 | Split => (nxt_eq it =? 0) && (nxt_neq it =? 0) end.
Definition _pop_item (BuPrev BuI : bool) (idx : Z) (s : t) : outcome t :=
  it ← _at idx s;
  _ ← swear (no_nxt it);
  s ← _unlnk_before BuPrev BuI idx s;
  Ret (schedule_pop idx s).

(** [_erase_prefix<BuPrev,BuI,BuNxt>(idx)] *)
Definition _erase_prefix (BuPrev BuI BuNxt : bool) (idx : Z) (s : t) : outcome (t * Z) :=
  it ← _at idx s;
  _ ← swear (bool_decide (kind it = Prefix) && negb (used it));
  let prv := prev it in
  let is_eq := prev_is_eq it in
  nxt ← nxt_if true it;
  s ← _unlnk_after BuI BuNxt idx true s;
  s ← _pop_item BuPrev false idx s;
  s ← _lnk false false prv is_eq nxt s;
  Ret (s, prv).

(** [_insert_between<BuB,BuA>(before,before_is_eq,idx,is_eq,after)] *)
Definition _insert_between (BuB BuA : bool) (before : Z) (before_is_eq : bool) (idx : Z) (is_eq : bool) (after : Z) (s : t) : outcome t :=
  s ← _unlnk BuB BuA before before_is_eq after s;
  s ← _lnk false false before before_is_eq idx s;
  _lnk false false idx is_eq after s.
Definition _insert_before (BuPrev BuA : bool) (idx : Z) (is_eq : bool) (after : Z) (s : t) : outcome t :=
  it ← _at after s;
  _insert_between BuPrev BuA (prev it) (prev_is_eq it) idx is_eq after s.
Definition _insert_after (BuB BuNxtEq : bool) (before : Z) (before_is_eq : bool) (idx : Z) (is_eq : bool) (s : t) : outcome t :=
  it ← _at idx s;
  _ ← swear (negb (bool_decide (kind it = Terminal)));
  bit ← _at before s;
  nxt ← nxt_if before_is_eq bit;
  _insert_between BuB BuNxtEq before before_is_eq idx is_eq nxt s.
Definition _insert_after_split (BuB BuNxtEq BuNxtNeq : bool) (before : Z) (before_is_eq : bool) (idx : Z) (s : t) : outcome t :=
  it ← _at idx s;
  _ ← swear (bool_decide (kind it = Split));
  bit ← _at before s;
  nxt ← nxt_if before_is_eq bit;
  s ← _insert_between BuB BuNxtEq before before_is_eq idx before_is_eq nxt s;
  bit ← _at before s;
  nxt ← nxt_if (negb before_is_eq) bit;
  _mv_lnk_before false false BuNxtNeq idx (negb before_is_eq) nxt s.

(** [_mv<BuPrev,BuO,BuNxt0,BuNxt1>(old_idx,new_idx)] *)
Definition _mv (BuPrev BuO BuNxt0 BuNxt1 : bool) (old_idx new_idx : Z) (s : t) : outcome t :=
  old_item ← _at old_idx s;
  new_item ← _at new_idx s;
  _ ← swear (bool_decide (kind old_item = kind new_item));
  s ← _mv_lnk_after BuPrev BuO false (prev old_item) (prev_is_eq old_item) new_idx s;
  s ← (if decide (kind old_item = Split) then
         o ← _at old_idx s; nxt ← nxt_if false o;
         _mv_lnk_before false false BuNxt0 new_idx false nxt s
       else Ret s);
  s ← (if decide (kind old_item = Terminal) then Ret s
       else
         o ← _at old_idx s; nxt ← nxt_if true o;
         _mv_lnk_before false false BuNxt1 new_idx true nxt s);
  Ret (schedule_pop old_idx s).

(** [_mk_down<BuI,BuNxt>(idx,keep_is_eq)] and [_mk_down<BuI>(idx)] *)
Definition _mk_down_split (BuI BuNxt : bool) (idx : Z) (keep_is_eq : bool) (s : t) : outcome t :=
  s ← _backup BuI idx s;
  s ← (if keep_is_eq then Ret s
       else
         it ← _at idx s;
         nxt ← nxt_if keep_is_eq it;
         s ← _backup BuNxt nxt s;
         upd nxt (fun n => set_prev (prev n) true n) s);
  upd_ idx (mk_down_split keep_is_eq) s.
Definition _mk_down (BuI : bool) (idx : Z) (s : t) : outcome t :=
  s ← _backup BuI idx s;
  upd_ idx mk_down s.

(** [_minimize_sz<Bu>(idx)] *)
Definition _minimize_sz (Bu : bool) (idx : Z) (s : t) : outcome (t * bool) :=
  it ← _at idx s;
  if prev it =? 0 then Ret (s, false)
  else
    let old_sz := sz it in
    need ← need_mk_min_sz it;
    if (need : bool) then
      s ← _backup Bu idx s;
      s ← upd_ idx mk_min_sz s;
      Ret (schedule_shorten idx old_sz s, true)
    else Ret (s, false).

(** [_compress_after<BuPrev,BuI,BuNxt>(idx)]: merge an unused prefix item with the next one if it fits *)
Fixpoint compress_after (fuel : nat) (BuPrev BuI BuNxt : bool) (idx : Z) (s : t) : outcome (t * bool * Z) :=
  match fuel with
  | O => Crash
  | S fuel =>
    it ← _at idx s;
    if prev it =? 0 then Ret (s, false, idx)
    else if negb (bool_decide (kind it = Prefix)) then Ret (s, false, idx)
    else if used it then Ret (s, false, idx)
    else
      nxt ← nxt_if true it;
      nxt_item ← _at nxt s;
      m ← max_chunk_sz nxt_item;
      if m <? Z.of_nat (chunk_sz it + chunk_sz nxt_item) then Ret (s, false, idx)
      else
        s ← _backup BuNxt nxt s;
        s ← upd nxt (prepend_from it 0) s;
        '(s, prv) ← _erase_prefix BuPrev BuI false idx s;
        s ← (if prv =? 0 then Ret s else '(s, _, _) ← compress_after fuel true false false prv s; Ret s);
        Ret (s, true, nxt)
  end.
Definition _compress_after (BuPrev BuI BuNxt : bool) (idx : Z) (s : t) : outcome (t * bool * Z) :=
  compress_after (fuel_of s) BuPrev BuI BuNxt idx s.
Definition _compress_before (BuPrev2 BuPrev BuI : bool) (idx : Z) (s : t) : outcome (t * bool) :=
  it ← _at idx s;
  if prev it =? 0 then Ret (s, false)
  else '(s, c, _) ← _compress_after BuPrev2 BuPrev BuI (prev it) s; Ret (s, c).

(** [_add_prefix<BuPrev2,BuPrev,BuI>(idx,chunk_sz,max_chunk_sz)]: move the first characters before the item *)
Definition _add_prefix (BuPrev2 BuPrev BuI : bool) (idx : Z) (csz : nat) (max_chunk : Z) (s : t) : outcome (t * nat) :=
  if Z.of_nat csz <=? max_chunk then Ret (s, 0%nat)
  else
    let prefix_chunk_sz := Z.to_nat (Z.of_nat csz - max_chunk) in
    it ← _at idx s;
    prev_item ← _at (prev it) s;
    m ← max_chunk_sz prev_item;
    if (negb (used prev_item) && negb (prev prev_item =? 0) && bool_decide (kind prev_item = Prefix) &&
        (Z.of_nat (chunk_sz prev_item + prefix_chunk_sz) <=? m))%bool
    then
      s ← _backup BuPrev (prev it) s;
      s ← _backup BuI idx s;
      s ← upd (prev it) (append_from it prefix_chunk_sz) s;
      s ← upd_ idx (shorten_by prefix_chunk_sz) s;
      Ret (s, prefix_chunk_sz)
    else
      '(s, pfx) ← _emplace_copy Prefix false idx 0 prefix_chunk_sz s;
      s ← _insert_before BuPrev BuI pfx true idx s;
      s ← upd_ idx (shorten_by prefix_chunk_sz) s;
      '(s, _) ← _compress_before BuPrev2 false false pfx s;
      Ret (s, prefix_chunk_sz).

(** [_cut_with<BuPrev2,BuPrev,BuI,BuNxt>(idx,pos,k,used,cmp_val,dvg_val)] *)
Definition _cut_with (BuPrev2 BuPrev BuI BuNxt : bool) (idx : Z) (pos : nat) (k : ItemKind) (used : bool) (cmp_val dvg_val : Z) (s : t) : outcome (t * Z) :=
  it ← _at idx s;
  s ← _backup BuI idx s;
  s ← _backup BuPrev (prev it) s;
  _ ← swear (pos <? chunk_sz it)%nat;
  _ ← swear (if decide (k = Prefix) then 0 <? pos else true)%nat;
  m ← s_max_chunk_sz MaxSz k used;
  '(s, n) ← _add_prefix BuPrev2 false false idx pos m s;
  let pos := (pos - n)%nat in
  '(s, dvg) ← _emplace_from k used idx 0 pos cmp_val (s_cmp_bit cmp_val dvg_val) s;
  s ← upd_ idx (shorten_by pos) s;
  s ← _insert_before false false dvg true idx s;
  '(s, compressed, idx) ← _compress_after false false BuNxt idx s;
  s ← (if (compressed : bool) then Ret s else '(s, _) ← _minimize_sz false idx s; Ret s);
  '(s, _) ← _compress_before false false false dvg s;
  Ret (s, dvg).

(** [_branch]: make the item at which a new name diverges a place to link the new branch to *)
Definition _branch (BuPrev2 BuPrev BuI BuNxt0 BuNxt1 : bool) (idx : Z) (pos : nat) (dvg_val : Z) (s : t) : outcome (t * Z) :=
  s ← _backup BuI idx s;
  it ← _at idx s;
  if (pos <? chunk_sz it)%nat then
    c ← char_of it pos;
    _cut_with BuPrev2 BuPrev false BuNxt1 idx pos Split false c dvg_val s
  else if decide (kind it = Split) then
    let bit := s_cmp_bit (cmp_val it) dvg_val in
    _ ← swear (bit <? cmp_bit it);
    '(s, cpy) ← _emplace_empty Split (cmp_val it) (cmp_bit it) s;
    s ← upd idx (fun it => set_cmp (cmp_val it) bit it) s;
    s ← _insert_after_split false BuNxt1 BuNxt0 idx true cpy s;
    Ret (s, idx)
  else
    cval ← (if decide (kind it = Prefix) then nxt ← nxt_if true it; n ← _at nxt s; dvg_char n 0 dvg_val else Ret 0);
    if may_mk_up_empty it then
      m ← s_max_chunk_sz (sz it) (kup (kind it)) (used it);
      '(s, _) ← _add_prefix BuPrev2 BuPrev false idx (chunk_sz it) m s;
      s ← upd_ idx (if decide (kind it = Prefix) then mk_up_prefix cval dvg_val else mk_up) s;
      '(s, _) ← _minimize_sz false idx s;
      Ret (s, idx)
    else
      _ ← swear (negb (prev it =? 0));
      _ ← swear (bool_decide (kind it = Prefix));
      _ ← swear (used it);
      '(s, new_idx) ← _emplace_empty Split cval (s_cmp_bit cval dvg_val) s;
      s ← _insert_after false BuNxt1 idx true new_idx true s;
      Ret (s, new_idx).

(** ** Transactions *)

(** [_use(idx)]: make an unused item stand for a name; it may have to move *)
Definition use_in_place (idx : Z) (s : t) : outcome (t * Z) :=
  it ← _at idx s;
  m ← s_max_chunk_sz (sz it) (kind it) true;
  '(s, _) ← _add_prefix true true false idx (chunk_sz it) m s;
  s ← upd_ idx (mk_used d0 true) s;
  '(s, _) ← _minimize_sz false idx s;
  s ← _commit s;
  Ret (s, idx).
Definition _use (idx : Z) (s : t) : outcome (t * Z) :=
  s ← _backup true idx s;
  it ← _at idx s;
  _ ← swear (negb (used it));
  _ ← swear ((0 <? chunk_sz it)%nat || (prev it =? 0));
  if may_use_empty it then use_in_place idx s
  else
    _ ← swear (negb (prev it =? 0));
    m ← (if decide (kind it = Split) then s_max_chunk_sz MaxSz (kind it) true else Ret (Z.of_nat (chunk_sz it)));
    if m <? Z.of_nat (chunk_sz it) then
      '(s, cpy) ← _emplace_empty Split (cmp_val it) (cmp_bit it) s;
      s ← _insert_after_split false true true idx true cpy s;
      s ← upd_ idx (mk_down_split true) s;
      use_in_place idx s
    else
      '(s, new_idx) ← _emplace_copy (kind it) true idx 0 (chunk_sz it) s;
      s ← _mv true false true true idx new_idx s;
      '(s, _) ← _compress_before true false true new_idx s;
      s ← _commit s;
      Ret (s, new_idx).

(** [_cut(idx,pos)] *)
Definition _cut (idx : Z) (pos : nat) (s : t) : outcome (t * Z) :=
  it ← _at idx s;
  if (pos =? chunk_sz it)%nat then _use idx s
  else
    '(s, res) ← _cut_with true true true true idx pos Prefix true 0 0 s;
    s ← _commit s;
    Ret (s, res).

(** The loop of [_insert] that creates the intermediate items of a long branch; [branch] is 0 before the first one *)
Fixpoint new_branch (fuel : nat) (MaxPrefix MaxTerminal MinTerminal : Z) (name : list Z) (pos : nat) (branch prev_idx : Z) (s : t) : outcome (t * nat * Z * Z) :=
  if Z.of_nat pos + MaxTerminal <? Z.of_nat (length name) then
    match fuel with
    | O => Crash
    | S fuel =>
      let csz := Z.to_nat (u8 (Z.min (u64 (Z.of_nat (length name) - (Z.of_nat pos + MinTerminal))) MaxPrefix)) in
      '(s, new_idx) ← _emplace_name Prefix false name pos csz s;
      s ← (if branch =? 0 then Ret s else _lnk false false prev_idx true new_idx s);
      new_branch fuel MaxPrefix MaxTerminal MinTerminal name (pos + csz) (if branch =? 0 then new_idx else branch) new_idx s
    end
  else Ret (s, pos, branch, prev_idx).

(** [_insert(idx,chunk_pos,name,psfx,pos)] *)
Definition _insert (idx : Z) (chunk_pos : nat) (name : list Z) (pos : nat) (s : t) : outcome (t * Z) :=
  MaxPrefix ← s_max_chunk_sz MaxSz Prefix false;
  MaxTerminal ← s_max_chunk_sz MaxSz Terminal true;
  MinTerminal ← s_max_chunk_sz MinUsedSz Terminal true;
  _ ← swear (pos <=? length name)%nat;
  if (pos =? length name)%nat then _cut idx chunk_pos s
  else
    it ← _at idx s;
    '(idx, chunk_pos) ←
      (if ((chunk_pos =? 0)%nat && negb (prev it =? 0))%bool then
         p ← _at (prev it) s;
         Ret (if decide (kind p = Prefix) then (prev it, chunk_sz p) else (idx, chunk_pos))
       else Ret (idx, chunk_pos));
    dvg_val ← match name !! pos with Some c => Ret c | None => Crash end;
    '(s, pos, branch, prev_idx) ← new_branch (length name) MaxPrefix MaxTerminal MinTerminal name pos 0 0 s;
    '(s, res) ← _emplace_name Terminal true name pos (length name - pos) s;
    s ← (if branch =? 0 then Ret s else _lnk false false prev_idx true res s);
    let branch := if branch =? 0 then res else branch in
    '(s, idx) ← _branch true true true true true idx chunk_pos dvg_val s;
    it ← _at idx s;
    s ← _lnk false false idx (bool_decide (kind it = Prefix)) branch s;
    s ← _commit s;
    Ret (s, res).

(** The loops of [_pop]: backward to the last item that leads elsewhere, then forward to release the items *)
Fixpoint pop_back (fuel : nat) (idx : Z) (s : t) : outcome (Z * Z) :=
  match fuel with
  | O => Crash
  | S fuel =>
    it ← _at idx s;
    let nxt := idx in
    let idx := prev it in
    it ← _at idx s;
    if (bool_decide (kind it = Prefix) && negb (used it) && negb (prev it =? 0))%bool then pop_back fuel idx s
    else Ret (idx, nxt)
  end.
Fixpoint pop_forward (fuel : nat) (nxt : Z) (s : t) : outcome t :=
  match fuel with
  | O => Crash
  | S fuel =>
    it ← _at nxt s;
    a ← free nxt (sz it) (al s);
    let s := set_al a (set_items (delete nxt (items s)) s) in
    if decide (kind it = Terminal) then Ret s
    else n ← nxt_if true it; pop_forward fuel n s
  end.

(** [_pop(idx)] up to the commit, and the first item to release after it, if any *)
Definition pop_prepare (idx : Z) (s : t) : outcome (t * Z) :=
  it ← _at idx s;
  _ ← swear (used it);
  if (bool_decide (kind it = Terminal) && negb (prev it =? 0))%bool then
    '(idx, nxt) ← pop_back (fuel_of s) idx s;
    it ← _at idx s;
    _ ← swear (negb (bool_decide (kind it = Terminal)));
    nxt_item ← _at nxt s;
    s ← (if decide (kind it = Split) then
           s ← _unlnk_before true true nxt s;
           _mk_down_split false true idx (negb (prev_is_eq nxt_item)) s
         else
           s ← _unlnk_before true true nxt s;
           _mk_down false idx s);
    '(s, c1, idx) ← _compress_after true false false idx s;
    '(s, c2) ← _compress_before true false false idx s;
    '(s, _) ← (if (c1 || c2)%bool then Ret (s, false) else _minimize_sz false idx s);
    Ret (s, nxt)
  else
    s ← _backup true idx s;
    s ← upd_ idx (mk_used d0 false) s;
    '(s, c1, idx) ← _compress_after true false true idx s;
    '(s, c2) ← _compress_before true false false idx s;
    '(s, _) ← (if (c1 || c2)%bool then Ret (s, false) else _minimize_sz false idx s);
    Ret (s, 0).
Definition _pop (idx : Z) (s : t) : outcome t :=
  '(s, nxt) ← pop_prepare idx s;
  s ← _commit s;
  if nxt =? 0 then Ret s else pop_forward (fuel_of s) nxt s.

(** ** Searching *)

(** [DvgDigest]: where a name leaves the tree, and the last used item on the way (followed by [sep] if given) *)
Record DvgDigest := mkDigest {
  dvg : Dvg_t;
  name_pos : nat;
  dvg_idx : Z;
  chunk_pos : nat;
  used_pos : nat;
  used_idx : Z;
}.
Definition at_sep (sep : option Z) (name : list Z) (pos : nat) : bool :=
  match sep with
  | None => true
  | Some c => ((pos =? length name)%nat || bool_decide (name !! pos = Some c))%bool
  end.
Fixpoint dvg_loop (fuel : nat) (sep : option Z) (name : list Z) (cp : nat) (g : DvgDigest) (s : t) : outcome DvgDigest :=
  match fuel with
  | O => Crash
  | S fuel =>
    let prev_idx := dvg_idx g in
    it ← _at (dvg_idx g) s;
    '(d, i, cpos, npos) ← find_dvg it name (dvg_idx g) cp (name_pos g);
    let hit := (used it && (cpos =? chunk_sz it)%nat && at_sep sep name npos)%bool in
    let g := mkDigest d npos i cpos (if hit then npos else used_pos g) (if hit then prev_idx else used_idx g) in
    if decide (d = Cont) then dvg_loop fuel sep name 0 g s else Ret g
  end.
Definition dvg_digest (start : Z) (cp : nat) (sep : option Z) (name : list Z) (np : nat) (s : t) : outcome DvgDigest :=
  dvg_loop (fuel_of s) sep name cp (mkDigest Cont np start 0 0 0) s.

Definition search (root : Z) (name : list Z) (s : t) : outcome Z :=
  g ← dvg_digest root 0 None name 0 s;
  Ret (if decide (dvg g = Match) then dvg_idx g else 0).

(** [insert]; the check that the data is the default one is left to [_insert] *)
Definition insert (root : Z) (name : list Z) (s : t) : outcome (t * Z * bool) :=
  g ← dvg_digest root 0 None name 0 s;
  if decide (dvg g = Match) then Ret (s, dvg_idx g, false)
  else
    '(s, res) ← _insert (dvg_idx g) (chunk_pos g) name (name_pos g) s;
    Ret (s, res, true).

Definition longest (root : Z) (name : list Z) (s : t) : outcome (Z * nat) :=
  g ← dvg_digest root 0 None name 0 s;
  Ret (used_idx g, used_pos g).
Definition pop (idx : Z) (s : t) : outcome t := _pop idx s.

(** [insert_chain(root,name,sep)]: insert all prefixes that end at a separator *)
Fixpoint next_sep (fuel : nat) (name : list Z) (sep : Z) (pos : nat) : nat :=
  match fuel with
  | O => pos
  | S fuel =>
    match name !! pos with
    | Some c => if c =? sep then pos else next_sep fuel name sep (S pos)
    | None => pos
    end
  end.
Fixpoint chain_loop (fuel : nat) (name : list Z) (sep : Z) (idx : Z) (sep_pos : nat) (created : list Z) (s : t) : outcome (t * list Z) :=
  if (sep_pos =? length name)%nat then Ret (s, created)
  else
    match fuel with
    | O => Crash
    | S fuel =>
      let prev_sep_pos := sep_pos in
      let sep_pos := next_sep (length name) name sep (S sep_pos) in
      let n := take sep_pos name in
      it ← _at idx s;
      g ← dvg_digest idx (chunk_sz it) (Some sep) n prev_sep_pos s;
      '(s, idx) ← _insert (dvg_idx g) (chunk_pos g) n (name_pos g) s;
      chain_loop fuel name sep idx sep_pos (created ++ [idx]) s
    end.
Definition insert_chain (root : Z) (name : list Z) (sep : Z) (s : t) : outcome (t * Z * list Z) :=
  g ← dvg_digest root 0 (Some sep) name 0 s;
  if decide (dvg g = Match) then Ret (s, used_idx g, [])
  else
    _ ← swear (used_pos g <? length name)%nat;
    let idx := if used_idx g =? 0 then root else used_idx g in
    '(s, created) ← chain_loop (length name) name sep idx (used_pos g) [] s;
    Ret (s, used_idx g, created).

(** [insert_shorten_by(idx,by)]: the name [by] characters shorter *)
Fixpoint shorten_by_loop (fuel : nat) (idx : Z) (by_ : nat) (s : t) : outcome (t * Z) :=
  if idx =? 0 then Ret (s, 0)
  else
    match fuel with
    | O => Crash
    | S fuel =>
      it ← _at idx s;
      if (0 <? by_)%nat then
        if (by_ <? chunk_sz it)%nat then _cut idx (chunk_sz it - by_) s
        else shorten_by_loop fuel (prev it) (by_ - chunk_sz it) s
      else if used it then Ret (s, idx)
      else if (0 <? chunk_sz it)%nat then _use idx s
      else shorten_by_loop fuel (prev it) by_ s
    end.
Definition insert_shorten_by (idx : Z) (by_ : nat) (s : t) : outcome (t * Z) :=
  shorten_by_loop (fuel_of s) idx by_ s.

(** ** Walking up *)

(** [path(idx)]: the used items from [idx] to the root *)
Fixpoint path_loop (fuel : nat) (idx : Z) (s : t) : outcome (list Z) :=
  if idx =? 0 then Ret []
  else
    match fuel with
    | O => Crash
    | S fuel => it ← _at idx s; l ← path_loop fuel (prev it) s; Ret (if used it then idx :: l else l)
    end.
Definition path (idx : Z) (s : t) : outcome (list Z) := path_loop (fuel_of s) idx s.

(** [_key_psfx(idx,psfx_sz)], in the order of the tree: the last [psfx_sz] characters and those before *)
Fixpoint key_loop (fuel : nat) (idx : Z) (psfx_sz : nat) (name psfx : list Z) (s : t) : outcome (list Z * list Z) :=
  if idx =? 0 then Ret (name, psfx)
  else
    match fuel with
    | O => Crash
    | S fuel =>
      it ← _at idx s;
      let c := chunk it in
      if (chunk_sz it <=? psfx_sz)%nat then key_loop fuel (prev it) (psfx_sz - chunk_sz it) name (c ++ psfx) s
      else key_loop fuel (prev it) 0 (take (chunk_sz it - psfx_sz) c ++ name) (drop (chunk_sz it - psfx_sz) c ++ psfx) s
    end.
Definition in_order (Reverse : bool) (l : list Z) : list Z := if Reverse then reverse l else l.
Definition _key_psfx (Reverse : bool) (idx : Z) (psfx_sz : nat) (s : t) : outcome (list Z * list Z) :=
  '(name, psfx) ← key_loop (fuel_of s) idx psfx_sz [] [] s;
  Ret (in_order Reverse name, in_order Reverse psfx).
(** [_key(idx,psfx_sz)]: the characters before the last [psfx_sz] ones; there is a loop of its own for the whole name *)
Fixpoint key_all_loop (fuel : nat) (idx : Z) (res : list Z) (s : t) : outcome (list Z) :=
  if idx =? 0 then Ret res
  else
    match fuel with
    | O => Crash
    | S fuel => it ← _at idx s; key_all_loop fuel (prev it) (if (0 <? chunk_sz it)%nat then chunk it ++ res else res) s
    end.
Fixpoint key_cut_loop (fuel : nat) (idx : Z) (psfx_sz : nat) (res : list Z) (s : t) : outcome (list Z) :=
  if idx =? 0 then Ret res
  else
    match fuel with
    | O => Crash
    | S fuel =>
      it ← _at idx s;
      if (chunk_sz it <=? psfx_sz)%nat then key_cut_loop fuel (prev it) (psfx_sz - chunk_sz it) res s
      else key_cut_loop fuel (prev it) 0 (take (chunk_sz it - psfx_sz) (chunk it) ++ res) s
    end.
Definition _key (Reverse : bool) (idx : Z) (psfx_sz : nat) (s : t) : outcome (list Z) :=
  res ← (if (psfx_sz =? 0)%nat then key_all_loop (fuel_of s) idx [] s else key_cut_loop (fuel_of s) idx psfx_sz [] s);
  Ret (in_order Reverse res).

(** [_psfx(idx,psfx_sz)]: stop as soon as enough characters are seen *)
Fixpoint psfx_loop (fuel : nat) (idx : Z) (psfx_sz : nat) (psfx : list Z) (s : t) : outcome (list Z) :=
  if idx =? 0 then Ret psfx
  else
    match fuel with
    | O => Crash
    | S fuel =>
      it ← _at idx s;
      let min_chunk_sz := Nat.min (chunk_sz it) psfx_sz in
      let psfx := drop (chunk_sz it - min_chunk_sz) (chunk it) ++ psfx in
      if (chunk_sz it <? psfx_sz)%nat then psfx_loop fuel (prev it) (psfx_sz - chunk_sz it) psfx s else Ret psfx
    end.
Definition _psfx (Reverse : bool) (idx : Z) (psfx_sz : nat) (s : t) : outcome (list Z) :=
  l ← psfx_loop (fuel_of s) idx psfx_sz [] s; Ret (in_order Reverse l).

(** [Lst::Iterator]: depth first, the side that differs first; an item is listed if used *)
Fixpoint advance_loop (fuel : nat) (start idx : Z) (k : ItemKind) (it : item) (s : t) : outcome Z :=
  match fuel with
  | O => Crash
  | S fuel =>
    if negb (bool_decide (k = Terminal)) then nxt_if (bool_decide (k = Prefix)) it
    else if idx =? start then Ret 0
    else
      let k := if prev_is_eq it then Terminal else Prefix in
      let idx := prev it in
      it ← _at idx s;
      advance_loop fuel start idx k it s
  end.
Definition _advance (start idx : Z) (s : t) : outcome Z :=
  _ ← swear (negb (idx =? 0));
  it ← _at idx s;
  advance_loop (fuel_of s) start idx (kind it) it s.
Fixpoint lst_loop (fuel : nat) (start idx : Z) (s : t) : outcome (list Z) :=
  if idx =? 0 then Ret []
  else
    match fuel with
    | O => Crash
    | S fuel =>
      it ← _at idx s;
      n ← _advance start idx s;
      l ← lst_loop fuel start n s;
      Ret (if used it then idx :: l else l)
    end.
Definition lst (root : Z) (s : t) : outcome (list Z) := lst_loop (fuel_of s) root root s.

(** [_append_lst(idx_lst,idx)]: the used items under [idx], in increasing order of their names *)
Fixpoint _append_lst (fuel : nat) (idx_lst : list Z) (idx : Z) (s : t) : outcome (list Z) :=
  match fuel with
  | O => Crash
  | S fuel =>
    it ← _at idx s;
    let idx_lst := if used it then idx_lst ++ [idx] else idx_lst in
    match kind it with
    | Terminal => Ret idx_lst
    | Prefix => n ← nxt_if true it; _append_lst fuel idx_lst n s
    | Split =>
      let zero_is_eq := negb (dvg_at it 0) in
      n ← nxt_if zero_is_eq it;
      idx_lst ← _append_lst fuel idx_lst n s;
      n ← nxt_if (negb zero_is_eq) it;
      _append_lst fuel idx_lst n s
    end
  end.

(** ** Consistency check *)

(** The first character reached through an item: that of its chunk, or the one it is split on *)
Definition first_char (it : item) : Z :=
  if (bool_decide (kind it = Split) && (chunk_sz it =? 0)%nat)%bool then cmp_val it else default 0 (head (chunk it)).
(** Whether the next item [n] on side [is_eq] of the split item [it] agrees with the bit it is split on *)
Definition split_ok (it : item) (is_eq : bool) (n : item) : bool :=
  ((if (bool_decide (kind n = Split) && (chunk_sz n =? 0)%nat)%bool then cmp_bit it <? cmp_bit n else true) &&
   (if is_eq then cmp_bit it <? s_cmp_bit (cmp_val it) (first_char n) else s_cmp_bit (cmp_val it) (first_char n) =? cmp_bit it))%bool.

Definition chk_nxt (idx : Z) (it : item) (is_eq : bool) (s : t) : outcome Z :=
  nxt ← nxt_if is_eq it;
  _ ← throw_unless (negb (nxt =? 0)) "nxt is null";
  nxt_item ← _at nxt s;
  _ ← throw_unless (prev nxt_item =? idx) "bad prev";
  _ ← throw_unless (Bool.eqb (prev_is_eq nxt_item) is_eq) "bad prev_is_eq";
  _ ← throw_unless (if decide (kind it = Split) then split_ok it is_eq nxt_item else true) "cmp_val is incompatible with nxt";
  Ret nxt.
Definition chk_size (it : item) : outcome unit :=
  m ← min_sz it;
  if prev it =? 0 then
    _ ← throw_unless (sz it =? MinUsedSz) "root.sz is non-minimum";
    throw_unless (chunk_sz it =? 0)%nat "root must not have an empty chunk"
  else throw_unless (sz it =? m) "sz is non-minimum".
Definition chk_prev (idx : Z) (it : item) (s : t) : outcome unit :=
  if prev it =? 0 then throw_unless (prev_is_eq it) "root with !prev_is_eq"
  else
    p ← _at (prev it) s;
    _ ← throw_unless (negb (bool_decide (kind p = Terminal))) "prev is Terminal";
    n ← nxt_if (prev_is_eq it) p;
    _ ← throw_unless (n =? idx) "bad prev.nxt";
    _ ← match kind it with
        | Terminal =>
          _ ← throw_unless (used it) "Terminal and not used";
          throw_unless (0 <? chunk_sz it)%nat "Terminal with empty chunk"
        | Prefix =>
          _ ← throw_unless (0 <? chunk_sz it)%nat "Prefix with empty chunk";
          if used it then Ret tt
          else
            n ← nxt_if true it; n ← _at n s; m ← max_chunk_sz n;
            throw_unless (m <? Z.of_nat (chunk_sz it + chunk_sz n)) "mergeable with nxt"
        | Split => Ret tt
        end;
    throw_unless (if decide (kind p = Split) then split_ok p (prev_is_eq it) it else true) "prev.cmp_val is incompatible".

(** [_chk(idx,false,true)]: check the tree under [idx], and count its used items *)
Fixpoint _chk (fuel : nat) (idx : Z) (s : t) : outcome Z :=
  match fuel with
  | O => Crash
  | S fuel =>
    _ ← throw_unless (negb (idx =? 0)) "idx is null";
    it ← _at idx s;
    _ ← chk_size it;
    let side := fun is_eq : bool => if has_nxt (kind it) is_eq then n ← chk_nxt idx it is_eq s; _chk fuel n s else Ret 0 in
    n0 ← side false;
    n1 ← side true;
    _ ← chk_prev idx it s;
    Ret (Z.b2z (used it) + n0 + n1)
  end.
Definition chk (root : Z) (s : t) : outcome unit :=
  if root =? 0 then Ret tt else _ ← _chk (fuel_of s) root s; Ret tt.
End file.
End PrefixFile.
