(* ===== verification/PrefixInv.v ===== *)
(** * Invariant of a prefix tree.

    Comparison of characters on their leading bits, the laws of the layout that the updates rely on
    ([LayoutOk], which holds of the files of names of the repository), and the invariant [inv]: the items
    form trees, each of them fits in its block, and the items a split item leads to agree with the bit it
    is split on. *)
From S2P Require Import Prelude.
From S2P Require Import Arith.
From S2P Require Import PrefixItem.
From S2P Require Import PrefixGraph.
From S2P Require Import PrefixFile.
Local Open Scope Z_scope.
Import Item.

(** ** Leading bits *)
Section bits.
Context {L : Layout} (HN : 1 <= NBits <= 64).
Definition inchar (c : Z) : Prop := 0 <= c < 2 ^ NBits.
Abbreviation cb := s_cmp_bit.

Lemma testbit_high c i : inchar c -> NBits <= i -> Z.testbit c i = false.
Proof.
  intros [H0 H1] Hi. destruct (decide (c = 0)) as [->|]; [apply Z.bits_0|]. apply Z.bits_above_log2; [done|].
  apply Z.log2_lt_pow2; [lia|]. eapply Z.lt_le_trans; [exact H1|apply Z.pow_le_mono_r; lia].
Qed.
Lemma cb_range a b : inchar a -> inchar b -> 0 <= cb a b <= NBits.
Proof.
  intros Ha Hb. unfold cb, s_cmp_bit, countl_zero. case_match; [lia|]. b2p. assert (0 <= Z.lxor a b) by (apply Z.lxor_nonneg; unfold inchar in *; lia).
  pose proof (Z.log2_nonneg (Z.lxor a b)). assert (Z.log2 (Z.lxor a b) < NBits); [|lia].
  pose proof (Z.log2_lxor a b ltac:(apply Ha) ltac:(apply Hb)). assert (forall c, inchar c -> Z.log2 c < NBits) as Hlog.
  { intros c [? ?]. destruct (decide (c = 0)) as [->|]; [simpl; lia|]. apply Z.log2_lt_pow2; lia. }
  pose proof (Hlog a Ha). pose proof (Hlog b Hb). lia.
Qed.
(** [c] leading bits in common *)
Lemma cb_spec a b c : inchar a -> inchar b -> 0 <= c <= NBits -> c <= cb a b <-> forall i, NBits - c <= i -> Z.testbit a i = Z.testbit b i.
Proof.
  intros Ha Hb Hc. assert (0 <= Z.lxor a b) as Hx by (apply Z.lxor_nonneg; unfold inchar in *; lia). unfold cb, s_cmp_bit, countl_zero. destruct (Z.eqb_spec (Z.lxor a b) 0) as [He|He].
  - apply Z.lxor_eq in He as ->. split; [done|lia].
  - split.
    + intros Hle i Hi. assert (Z.testbit (Z.lxor a b) i = false) as Hf by (apply Z.bits_above_log2; lia).
      rewrite Z.lxor_spec in Hf. by destruct (Z.testbit a i), (Z.testbit b i).
    + intros Hi. destruct (Z.le_gt_cases c (NBits - 1 - Z.log2 (Z.lxor a b))); [done|]. pose proof (Z.bit_log2 (Z.lxor a b) ltac:(lia)) as Hbit.
      rewrite Z.lxor_spec, Hi in Hbit by lia. by rewrite xorb_nilpotent in Hbit.
Qed.
Lemma cb_agree a b c i : c <= cb a b -> inchar a -> inchar b -> 0 <= c <= NBits -> NBits - c <= i -> Z.testbit a i = Z.testbit b i.
Proof. intros H Ha Hb Hc. by apply cb_spec. Qed.
Lemma cb_sym a b : cb a b = cb b a.
Proof. unfold cb, s_cmp_bit. by rewrite Z.lxor_comm. Qed.
Lemma cb_refl a : cb a a = NBits.
Proof. unfold cb, s_cmp_bit. by rewrite Z.lxor_nilpotent. Qed.
Lemma cb_full a b : inchar a -> inchar b -> NBits <= cb a b -> a = b.
Proof. intros Ha Hb H. apply Z.bits_inj'. intros i Hi. by apply (cb_agree a b NBits); [..|lia|lia]. Qed.
Lemma cb_trans a b c n : inchar a -> inchar b -> inchar c -> n <= cb a b -> n <= cb b c -> n <= cb a c.
Proof.
  intros Ha Hb Hc H1 H2. pose proof (cb_range a b Ha Hb). destruct (Z.le_gt_cases n 0); [pose proof (cb_range a c Ha Hc); lia|].
  apply cb_spec; [done..|lia|]. intros i Hi. by rewrite (cb_agree a b n i H1), (cb_agree b c n i H2) by (done || lia).
Qed.
(** Bits have two values: two characters that first differ from a third one on the same bit agree there. *)
Lemma cb_bin a b c n : inchar a -> inchar b -> inchar c -> cb a b = n -> cb a c = n -> n < NBits -> n < cb b c.
Proof.
  intros Ha Hb Hc H1 H2 Hn. pose proof (cb_range a b Ha Hb). assert (forall d, inchar d -> cb a d = n -> Z.testbit a (NBits - 1 - n) <> Z.testbit d (NBits - 1 - n)) as Hd.
  { intros d Hd He Heq. assert (n + 1 <= cb a d); [|lia]. apply cb_spec; [done..|lia|]. intros i Hi. destruct (decide (i = NBits - 1 - n)) as [->|]; [done|].
    apply (cb_agree a d n); [lia|done|done|lia|lia]. }
  assert (n + 1 <= cb b c); [|lia]. apply cb_spec; [done..|lia|]. intros i Hi. destruct (decide (i = NBits - 1 - n)) as [->|].
  - pose proof (Hd b Hb H1). pose proof (Hd c Hc H2). by destruct (Z.testbit a _), (Z.testbit b _), (Z.testbit c _).
  - rewrite <- (cb_agree a b n i), (cb_agree a c n i); (done || lia).
Qed.

Context {D : Type}.
(** On which side of a split item a character goes *)
Definition fit (it : Item.t D) (b : bool) (v : Z) : Prop := if b then cmp_bit it < cb (cmp_val it) v else cb (cmp_val it) v = cmp_bit it.

Lemma land_pow2_neqb x i : 0 <= i -> negb (Z.land x (Z.shiftl 1 i) =? 0) = Z.testbit x i.
Proof.
  intros Hi. rewrite Z.shiftl_1_l. destruct (Z.testbit x i) eqn:Hb.
  - apply negb_true_iff, Z.eqb_neq. intros H0. assert (Z.testbit (Z.land x (2 ^ i)) i = true) as Ht by (rewrite Z.land_spec, Hb, Z.pow2_bits_true; lia).
    by rewrite H0, Z.bits_0 in Ht.
  - apply negb_false_iff, Z.eqb_eq. apply Z.bits_inj'. intros j Hj. rewrite Z.bits_0, Z.land_spec. destruct (decide (j = i)) as [->|]; [by rewrite Hb|].
    rewrite Z.pow2_bits_false by lia. apply andb_false_r.
Qed.
Lemma dvg_mask_bits c i : 0 <= c < NBits -> 0 <= i < NBits -> Z.testbit (u64 (Z.shiftl (u64 (- Z.shiftl 1 (NBits - 1 - c))) 1)) i = (NBits - c <=? i).
Proof.
  intros Hc Hi. unfold u64, uwrap. rewrite Z.mod_pow2_bits_low, Z.shiftl_spec, Z.shiftl_1_l by lia. destruct (decide (i = 0)) as [->|].
  - rewrite Z.testbit_neg_r by lia. symmetry. apply Z.leb_gt. lia.
  - rewrite Z.mod_pow2_bits_low by lia. replace (- 2 ^ (NBits - 1 - c)) with (Z.lnot (Z.ones (NBits - 1 - c))) by (rewrite Z.ones_equiv; unfold Z.lnot; lia).
    rewrite Z.lnot_spec by lia. destruct (Z.leb_spec (NBits - c) i).
    + rewrite Z.ones_spec_high by lia. done.
    + rewrite Z.ones_spec_low by lia. done.
Qed.
Lemma dvg_before_spec (it : Item.t D) v : 0 <= cmp_bit it < NBits -> inchar (cmp_val it) -> inchar v -> dvg_before it v = (cb (cmp_val it) v <? cmp_bit it).
Proof.
  intros Hc Hv Hd. unfold dvg_before. set (mask := u64 _). assert (Z.land (Z.lxor (cmp_val it) v) mask = 0 <-> cmp_bit it <= cb (cmp_val it) v) as H.
  { rewrite cb_spec by (done || lia). split.
    - intros H0 i Hi. destruct (Z.le_gt_cases NBits i) as [Hh|Hh]; [by rewrite !testbit_high|]. assert (Z.testbit (Z.land (Z.lxor (cmp_val it) v) mask) i = false) as Hb by (by rewrite H0, Z.bits_0).
      rewrite Z.land_spec, Z.lxor_spec in Hb. unfold mask in Hb. rewrite dvg_mask_bits, (proj2 (Z.leb_le _ _)), andb_true_r in Hb by lia.
      by destruct (Z.testbit (cmp_val it) i), (Z.testbit v i).
    - intros H0. apply Z.bits_inj'. intros i Hi. rewrite Z.bits_0, Z.land_spec, Z.lxor_spec. destruct (Z.le_gt_cases NBits i) as [Hh|Hh].
      { by rewrite (testbit_high (cmp_val it)), (testbit_high v) by done. }
      unfold mask. rewrite dvg_mask_bits by lia. destruct (Z.leb_spec (NBits - cmp_bit it) i); [|apply andb_false_r]. by rewrite H0, xorb_nilpotent by lia. }
  destruct (Z.ltb_spec (cb (cmp_val it) v) (cmp_bit it)).
  - apply negb_true_iff, Z.eqb_neq. rewrite H. lia.
  - apply negb_false_iff, Z.eqb_eq. rewrite H. lia.
Qed.
Lemma dvg_at_spec (it : Item.t D) v : 0 <= cmp_bit it < NBits -> inchar (cmp_val it) -> inchar v -> cmp_bit it <= cb (cmp_val it) v -> fit it (negb (dvg_at it v)) v.
Proof.
  intros Hc Hv Hd Hle. unfold dvg_at. rewrite land_pow2_neqb by lia. rewrite Z.lxor_spec. unfold fit.
  destruct (Z.testbit (cmp_val it) (NBits - 1 - cmp_bit it)) eqn:H1, (Z.testbit v (NBits - 1 - cmp_bit it)) eqn:H2; simpl.
  1, 4: assert (cmp_bit it + 1 <= cb (cmp_val it) v); [|lia]; apply cb_spec; [done..|lia|]; intros i Hi;
    destruct (decide (i = NBits - 1 - cmp_bit it)) as [->|]; [congruence|]; apply (cb_agree _ _ (cmp_bit it)); (done || lia).
  all: destruct (Z.le_gt_cases (cb (cmp_val it) v) (cmp_bit it)) as [?|Hgt]; [lia|]; rewrite (cb_agree _ v (cmp_bit it + 1)) in H1 by (done || lia); congruence.
Qed.
Lemma fit_side it b b' v : fit it b v -> fit it b' v -> b = b'.
Proof. unfold fit. destruct b, b'; lia || done. Qed.
End bits.

(** ** Laws of the layout *)
Section layout.
Context {L : Layout}.
Definition max_of (sz : Z) (k : ItemKind) (u : bool) : Z := match s_max_chunk_sz sz k u with Ret m => m | _ => 0 end.
Definition min_of (k : ItemKind) (u : bool) (c : Z) : Z := match s_min_sz k u c with Ret n => n | _ => 0 end.
(** The sizes of blocks; a used item must be able to become a split one without moving. *)
Definition legit (sz : Z) (u : bool) : Prop := 1 <= sz <= MaxSz /\ (u = true -> MinUsedSz <= sz).
End layout.

Class LayoutOk (L : Layout) : Prop := {
  lo_bits : 1 <= NBits <= 64;
  lo_used : 1 <= MinUsedSz <= MaxSz;
  lo_max sz k u : legit sz u -> s_max_chunk_sz sz k u = Ret (max_of sz k u) /\ 1 <= max_of sz k u <= 58;
  lo_min k u c : 0 <= c <= max_of MaxSz k u -> s_min_sz k u c = Ret (min_of k u c) /\ legit (min_of k u c) u /\ c <= max_of (min_of k u c) k u;
  lo_least k u c sz : 0 <= c <= max_of sz k u -> legit sz u -> min_of k u c <= sz /\ c <= max_of MaxSz k u;
  lo_large sz k u : legit sz u -> _s_large_enough_empty sz k u = true;
  lo_small sz k : legit sz false -> (_s_large_enough_empty sz k true = true -> legit sz true) /\ (_s_large_enough_empty sz k true = false -> max_of sz k false <= max_of MaxSz k true);
  lo_diff sz k u sz' k' u' : legit sz u -> legit sz' u' -> sz <= sz' ->
    max_of sz k u - max_of sz' k' u' <= max_of MaxSz Prefix false /\ max_of (min_of Prefix false (max_of sz k u - max_of sz' k' u')) Prefix false <= 22;
  lo_mono sz sz' k u : legit sz u -> legit sz' u -> sz <= sz' -> max_of sz k u <= max_of sz' k u;
  lo_down sz u : legit sz u -> max_of sz Split u <= max_of sz Prefix u <= max_of sz Terminal u;
  lo_unused sz k : legit sz true -> max_of sz k true <= max_of sz k false;
  lo_terminal : max_of MinUsedSz Terminal true <= max_of MaxSz Terminal true;
}.

(** ** Invariant *)
Section inv.
Context {L : Layout} {HL : LayoutOk L} {D : Type}.
Abbreviation item := (Item.t D).
Implicit Types (m : gmap Z item) (it : item).

(** What is local to an item: it fits in its block and, unless it is a root, leads to a name and is not
    empty, but for unused split items. *)
Record loc (root : bool) it : Prop := {
  l_legit : legit (sz it) (used it);
  l_chunk : Z.of_nat (chunk_sz it) <= max_of (sz it) (kind it) (used it);
  l_mem : (chunk_sz it <= length (chars it))%nat;
  l_chars : Forall inchar (chunk it);
  l_split : kind it = Split -> 0 <= cmp_bit it < NBits /\ inchar (cmp_val it);
  l_root : root = true -> chunk_sz it = 0%nat /\ legit (sz it) true;
  l_item : root = false -> (kind it = Terminal -> used it = true) /\ (kind it <> Split \/ used it = true -> (0 < chunk_sz it)%nat);
}.
(** Whether an item is the root of a tree, [br] being the head of a detached branch *)
Definition is_root (br : Z) (i : Z) it : bool := bool_decide (prev it = 0 /\ i <> br).

Record inv (h : option (Z * bool)) (br : Z) m : Prop := {
  i_linked : linked h m;
  i_loc i it : m !! i = Some it -> loc (is_root br i it) it;
  i_split x b y ix iy : E m x b = Some y -> m !! x = Some ix -> m !! y = Some iy -> kind ix = Split -> PrefixFile.split_ok ix b iy = true;
  i_br : br <> 0 -> exists it, m !! br = Some it /\ prev it = 0;
}.

(** [k] is a name of the tree [r], held by item [i] with data [d]. *)
Definition has m (r : Z) (k : list Z) (i : Z) (d : D) : Prop :=
  exists p it, walk m r i p k /\ m !! i = Some it /\ used it = true /\ data it = d.

Lemma chunk_length it : (chunk_sz it <= length (chars it))%nat -> length (chunk it) = chunk_sz it.
Proof. intros. unfold chunk. rewrite length_reverse, length_take. lia. Qed.
Lemma loc_length root it : loc root it -> length (chunk it) = chunk_sz it.
Proof. intros Hl. by apply chunk_length, Hl. Qed.
Lemma loc_max root it : loc root it -> max_chunk_sz it = Ret (max_of (sz it) (kind it) (used it)).
Proof. intros Hl. apply lo_max, Hl. Qed.

Lemma nxt_if_lnk it b n : lnk it b = Some n -> nxt_if b it = Ret n.
Proof. unfold lnk, nxt_if, nx. by destruct (has_nxt (kind it) b); [intros [= <-]|]. Qed.
Lemma lnk_has it b : has_nxt (kind it) b = true -> lnk it b = Some (nx b it).
Proof. unfold lnk. by intros ->. Qed.

(** The agreement of a split item with the next one: on its first character, and on the order of the bits *)
Definition empty_split it : bool := (bool_decide (kind it = Split) && (chunk_sz it =? 0)%nat)%bool.
Lemma split_ok_fit it b n : PrefixFile.split_ok it b n = true <-> (empty_split n = true -> cmp_bit it < cmp_bit n) /\ fit it b (PrefixFile.first_char n).
Proof.
  unfold PrefixFile.split_ok, fit, empty_split. set (e := (bool_decide (kind n = Split) && (chunk_sz n =? 0)%nat)%bool). clearbody e.
  rewrite andb_true_iff. destruct e, b; rewrite ?Z.ltb_lt, ?Z.eqb_eq; naive_solver.
Qed.

(** An item that is no root and has no character is a split one. *)
Lemma loc_empty it : loc false it -> chunk it = [] -> kind it = Split /\ used it = false /\ empty_split it = true.
Proof.
  intros Hl Hc. assert (chunk_sz it = 0%nat) as H0 by (by rewrite <- (loc_length _ _ Hl), Hc). destruct (l_item _ _ Hl eq_refl) as [_ Hne]. unfold empty_split.
  rewrite H0 in *. destruct (kind it), (used it); split_and!; try done; exfalso; cut (0 < 0)%nat; try lia; apply Hne; auto.
Qed.
Lemma first_char_chunk it c l : chunk it = c :: l -> loc false it -> PrefixFile.first_char it = c /\ empty_split it = false.
Proof.
  intros Hc Hl. pose proof (loc_length _ _ Hl) as Hn. rewrite Hc in Hn. simpl in Hn. unfold PrefixFile.first_char, empty_split.
  replace (chunk_sz it =? 0)%nat with false by (symmetry; apply Nat.eqb_neq; lia). rewrite andb_false_r, Hc. done.
Qed.
Lemma first_char_empty it : empty_split it = true -> PrefixFile.first_char it = cmp_val it.
Proof. unfold PrefixFile.first_char, empty_split. by intros ->. Qed.
Lemma first_char_in it root : loc root it -> inchar (PrefixFile.first_char it).
Proof.
  intros Hl. unfold PrefixFile.first_char. case_match eqn:He.
  - apply (l_split _ _ Hl). apply andb_true_iff in He as [He _]. by apply bool_decide_eq_true in He.
  - pose proof (l_chars _ _ Hl) as Hc. destruct (chunk it); [|by inversion Hc]. simpl. split; [lia|]. pose proof lo_bits. lia.
Qed.

(** The characters that may be read first from an item on *)
Inductive reads m : Z -> Z -> Prop :=
| reads_chunk y iy c l : m !! y = Some iy -> chunk iy = c :: l -> reads m y c
| reads_split y iy b z c : m !! y = Some iy -> chunk iy = [] -> kind iy = Split -> E m y b = Some z -> reads m z c -> reads m y c.

Section inv.
Context (h : option (Z * bool)) (br : Z) m (I : inv h br m).
Lemma inv_linked : linked h m.
Proof. apply I. Qed.
Lemma inv_nz y it : m !! y = Some it -> y <> 0.
Proof. apply (lk_nz _ _ inv_linked). Qed.
(** An item that another one leads to is no root. *)
Lemma inv_child x b y iy : E m x b = Some y -> m !! y = Some iy -> prev iy = x /\ prev_is_eq iy = b /\ x <> 0 /\ loc false iy.
Proof.
  intros He Hy. pose proof (lk_down _ _ inv_linked _ _ _ He ltac:(by eapply inv_nz)) as Hu. rewrite (U_lookup _ _ _ Hy) in Hu. unfold bk in Hu.
  apply E_some in He as (ix & Hx & _). apply inv_nz in Hx. pose proof (i_loc _ _ _ I _ _ Hy) as Hl. unfold is_root in Hl. rewrite bool_decide_false in Hl by naive_solver.
  naive_solver.
Qed.
Lemma inv_nonroot y iy : m !! y = Some iy -> prev iy <> 0 -> loc false iy.
Proof. intros Hy Hp. pose proof (i_loc _ _ _ I _ _ Hy) as Hl. unfold is_root in Hl. by rewrite bool_decide_false in Hl by naive_solver. Qed.
Lemma inv_parent y iy : m !! y = Some iy -> prev iy <> 0 -> exists ix, m !! prev iy = Some ix /\ E m (prev iy) (prev_is_eq iy) = Some y.
Proof.
  intros Hy Hp. assert (E m (prev iy) (prev_is_eq iy) = Some y) as He by (apply (lk_up _ _ inv_linked); [by rewrite (U_lookup _ _ _ Hy)|done]).
  destruct (E_some _ _ _ _ He) as (ix & Hx & _). eauto.
Qed.

(** A split item with no character of its own agrees with what comes next. *)
Lemma fit_through (ix iy : item) b e c : 0 <= cmp_bit ix < NBits -> inchar (cmp_val ix) -> 0 <= cmp_bit iy < NBits -> inchar (cmp_val iy) -> inchar c ->
  cmp_bit ix < cmp_bit iy -> fit ix b (cmp_val iy) -> fit iy e c -> fit ix b c.
Proof.
  intros Hbx Hvx Hby Hvy Hcc Hb Hs IH.
    pose proof lo_bits. assert (cmp_bit iy <= s_cmp_bit (cmp_val iy) c) as Hge by (unfold fit in IH; destruct e; lia).
    unfold fit in *. destruct b.
    + assert (cmp_bit ix + 1 <= s_cmp_bit (cmp_val ix) c); [|lia]. apply (cb_trans ltac:(done) _ (cmp_val iy)); (done || lia).
    + assert (cmp_bit ix <= s_cmp_bit (cmp_val ix) c) as Hge' by (apply (cb_trans ltac:(done) _ (cmp_val iy)); (done || lia)).
      destruct (Z.le_gt_cases (s_cmp_bit (cmp_val ix) c) (cmp_bit ix)) as [?|Hgt]; [lia|].
      assert (cmp_bit ix + 1 <= s_cmp_bit (cmp_val ix) (cmp_val iy)); [|lia]. apply (cb_trans ltac:(done) _ c); try done; [lia|rewrite cb_sym; lia].
Qed.
Lemma reads_fit x b y ix c : E m x b = Some y -> m !! x = Some ix -> kind ix = Split -> reads m y c -> fit ix b c.
Proof.
  intros He Hx Hk Hr. revert x b ix He Hx Hk. induction Hr as [y iy c l Hy Hc|y iy e z c Hy Hc Hky Ey Hr IH]; intros x b ix He Hx Hk.
  - destruct (inv_child _ _ _ _ He Hy) as (_ & _ & _ & Hly). pose proof (i_split _ _ _ I _ _ _ _ _ He Hx Hy Hk) as Hs.
    apply split_ok_fit in Hs as [_ Hs]. by rewrite (proj1 (first_char_chunk _ _ _ Hc Hly)) in Hs.
  - destruct (inv_child _ _ _ _ He Hy) as (_ & _ & _ & Hly). pose proof (i_split _ _ _ I _ _ _ _ _ He Hx Hy Hk) as Hs.
    apply split_ok_fit in Hs as [Hb Hs]. destruct (loc_empty _ Hly Hc) as (_ & _ & Hes). specialize (Hb Hes). rewrite first_char_empty in Hs by done.
    specialize (IH _ _ _ Ey Hy Hky). pose proof (l_split _ _ (i_loc _ _ _ I _ _ Hx) Hk) as [Hbx Hvx]. pose proof (l_split _ _ Hly Hky) as [Hby Hvy].
    assert (inchar c) as Hcc. { clear -Hr I. induction Hr as [y iy c l Hy Hc|]; [|done]. pose proof (l_chars _ _ (i_loc _ _ _ I _ _ Hy)) as Hf. rewrite Hc in Hf. by inversion Hf. }
    by eapply fit_through.
Qed.
End inv.
End inv.
