(* ===== verification/PrefixLayout.v ===== *)
(** * The layout of name files.

    The files of names of the build server and of the cache hold bytes, with indices and data of four
    bytes: their layout satisfies the laws of [LayoutOk], by enumeration. *)
From S2P Require Import Prelude.
From S2P Require Import PrefixItem.
From S2P Require Import PrefixFile.
From S2P Require Import PrefixInv.
Local Open Scope Z_scope.
Import Item.

(** The name files: names are bytes, indices and data have four bytes. *)
#[export] Instance name_layout : Layout := {|
  sizeof_Idx := 4; sizeof_Char := 1; CharSizeOf := 1; DataSizeOf := 4; alignof_Idx := 4; alignof_Char := 1; alignof_CharUint := 1; alignof_Data := 4; alignof_Base := 4 |}.

Definition sizes : list Z := [1; 2; 3; 4].
Definition kinds : list ItemKind := [Terminal; Prefix; Split].
Definition bools : list bool := [false; true].
Lemma sizes_in sz : 1 <= sz <= MaxSz -> sz ∈ sizes.
Proof. unfold MaxSz, sizes. intros. assert (sz = 1 \/ sz = 2 \/ sz = 3 \/ sz = 4) as Hs by lia. set_solver. Qed.
Lemma kinds_in k : k ∈ kinds.
Proof. unfold kinds. destruct k; set_solver. Qed.
Lemma bools_in u : u ∈ bools.
Proof. unfold bools. destruct u; set_solver. Qed.
#[export] Instance legit_dec `{Layout} sz u : Decision (legit sz u).
Proof. unfold legit. apply _. Defined.
#[export] Instance outcome_eq_dec {A} `{EqDecision A} : EqDecision (outcome A).
Proof. solve_decision. Defined.
Lemma upto_in (N c : Z) : 0 <= c <= N -> c ∈ seqZ 0 (N + 1).
Proof. intros. apply elem_of_seqZ. lia. Qed.

Section name_layout.
Lemma name_table : Forall (fun k => Forall (fun u => Forall (fun sz => legit sz u ->
    (s_max_chunk_sz sz k u = Ret (max_of sz k u) /\ 1 <= max_of sz k u <= 58) /\
    _s_large_enough_empty sz k u = true /\
    (u = false -> (_s_large_enough_empty sz k true = true -> legit sz true) /\ (_s_large_enough_empty sz k true = false -> max_of sz k false <= max_of MaxSz k true)) /\
    max_of sz k u <= max_of MaxSz k u /\
    Forall (fun k' => Forall (fun u' => Forall (fun sz' => legit sz' u' -> sz <= sz' ->
      max_of sz k u - max_of sz' k' u' <= max_of MaxSz Prefix false /\ max_of (min_of Prefix false (max_of sz k u - max_of sz' k' u')) Prefix false <= 22) sizes) bools) kinds)
    sizes) bools) kinds.
Proof. apply (bool_decide_unpack _). vm_compute. exact I. Qed.
Lemma name_mono : Forall (fun k => Forall (fun u => Forall (fun sz => Forall (fun sz' => legit sz u -> legit sz' u -> sz <= sz' -> max_of sz k u <= max_of sz' k u) sizes) sizes) bools) kinds.
Proof. apply (bool_decide_unpack _). vm_compute. exact I. Qed.
Lemma name_down : Forall (fun sz => (Forall (fun u => legit sz u -> max_of sz Split u <= max_of sz Prefix u <= max_of sz Terminal u) bools) /\ Forall (fun k => legit sz true -> max_of sz k true <= max_of sz k false) kinds) sizes.
Proof. apply (bool_decide_unpack _). vm_compute. exact I. Qed.
Lemma name_mins : Forall (fun k => Forall (fun u => Forall (fun c =>
    s_min_sz k u c = Ret (min_of k u c) /\ legit (min_of k u c) u /\ c <= max_of (min_of k u c) k u /\
    Forall (fun sz => c <= max_of sz k u -> legit sz u -> min_of k u c <= sz) sizes) (seqZ 0 (max_of MaxSz k u + 1))) bools) kinds.
Proof. apply (bool_decide_unpack _). vm_compute. exact I. Qed.

#[export] Instance name_layout_ok : LayoutOk name_layout.
Proof.
  pose proof name_table as T. pose proof name_mins as M. setoid_rewrite list.Forall_forall in T. setoid_rewrite list.Forall_forall in T. setoid_rewrite list.Forall_forall in T.
  setoid_rewrite list.Forall_forall in M. setoid_rewrite list.Forall_forall in M. setoid_rewrite list.Forall_forall in M.
  assert (forall sz k u, legit sz u -> _) as T' by exact (fun sz k u Hs => T k (kinds_in k) u (bools_in u) sz (sizes_in sz (proj1 Hs)) Hs).
  assert (forall c k u, 0 <= c <= max_of MaxSz k u -> _) as M' by exact (fun c k u Hc => M k (kinds_in k) u (bools_in u) c (upto_in _ _ Hc)).
  clear T M. split.
  - vm_compute. split; congruence.
  - vm_compute. split; congruence.
  - intros sz k u Hs. apply (T' sz k u Hs).
  - intros k u c Hc. destruct (M' c k u Hc) as (? & ? & ? & _). done.
  - intros k u c sz Hc Hs. destruct (T' sz k u Hs) as (_ & _ & _ & Hm & _). split; [|lia]. destruct (M' c k u ltac:(lia)) as (_ & _ & _ & Hl).
    rewrite list.Forall_forall in Hl. apply Hl; [by apply sizes_in, Hs|lia|done].
  - intros sz k u Hs. apply (T' sz k u Hs).
  - intros sz k Hs. by apply (T' sz k false Hs).
  - intros sz k u sz' k' u' Hs Hs' Hle. destruct (T' sz k u Hs) as (_ & _ & _ & _ & Hd). rewrite list.Forall_forall in Hd.
    specialize (Hd k' (kinds_in k')). rewrite list.Forall_forall in Hd. specialize (Hd u' (bools_in u')). rewrite list.Forall_forall in Hd.
    by apply (Hd sz'); [apply sizes_in, Hs'|..].
  - intros sz sz' k u Hs Hs' Hle. pose proof name_mono as Mo. setoid_rewrite list.Forall_forall in Mo. setoid_rewrite list.Forall_forall in Mo. setoid_rewrite list.Forall_forall in Mo.
    setoid_rewrite list.Forall_forall in Mo. apply (Mo k (kinds_in k) u (bools_in u) sz (sizes_in sz (proj1 Hs)) sz' (sizes_in sz' (proj1 Hs'))); done.
  - intros sz u Hs. pose proof name_down as Do. rewrite list.Forall_forall in Do. destruct (Do sz (sizes_in sz (proj1 Hs))) as [D1 _]. rewrite list.Forall_forall in D1. by apply (D1 u (bools_in u)).
  - intros sz k Hs. pose proof name_down as Do. rewrite list.Forall_forall in Do. destruct (Do sz (sizes_in sz (proj1 Hs))) as [_ D2]. rewrite list.Forall_forall in D2. by apply (D2 k (kinds_in k)).
  - vm_compute. congruence.
Qed.
End name_layout.
