(* ===== verification/PrefixSearch.v ===== *)
(** * Searching a prefix tree.

    [DvgDigest] of src/store/prefix.hh stops at the item where a name leaves the tree. In a tree that
    satisfies the invariant it terminates, and it stops on a match exactly when the name has been inserted. *)
From S2P Require Import Prelude.
From S2P Require Import PrefixItem.
From S2P Require Import PrefixGraph.
From S2P Require Import PrefixFile.
From S2P Require Import PrefixInv.
Local Open Scope Z_scope.
Import Item.

Section find.
Context {L : Layout} {HL : LayoutOk L} {D : Type}.
Abbreviation item := (Item.t D).
Implicit Types (m : gmap Z item) (it : item).

(** ** Within an item *)
Lemma find_loop_spec n it name cp np : (np + n <= length name)%nat -> (cp + n <= length (chunk it))%nat -> exists (d : bool) j,
  find_loop n it name cp np = Ret (d, cp + j, np + j)%nat /\ (j <= n)%nat /\ (forall i, (i < j)%nat -> name !! (np + i)%nat = chunk it !! (cp + i)%nat) /\
  if d then (j < n)%nat /\ name !! (np + j)%nat <> chunk it !! (cp + j)%nat else j = n.
Proof.
  revert cp np. induction n as [|n IH]; intros cp np Hn Hc; cbn [find_loop].
  - exists false, 0%nat. rewrite !Nat.add_0_r. split_and!; [done|lia|intros; lia|done].
  - destruct (lookup_lt_is_Some_2 (chunk it) cp ltac:(lia)) as [c Hcp]. destruct (lookup_lt_is_Some_2 name np ltac:(lia)) as [x Hnp].
    unfold char_of. rewrite Hcp, Hnp. cbn [mbind outcome_mbind]. destruct (Z.eqb_spec x c) as [->|Hne].
    + destruct (IH (S cp) (S np)) as (d & j & -> & Hj & Heq & Hd); [lia..|]. exists d, (S j). replace (cp + S j)%nat with (S cp + j)%nat by lia. replace (np + S j)%nat with (S np + j)%nat by lia.
      split_and!; [done|lia| |destruct d; [destruct Hd; split; [lia|done]|lia]]. intros [|i] Hi; [by rewrite !Nat.add_0_r, Hcp, Hnp|].
      replace (np + S i)%nat with (S np + i)%nat by lia. replace (cp + S i)%nat with (S cp + i)%nat by lia. apply Heq. lia.
    + exists true, 0%nat. rewrite !Nat.add_0_r. split_and!; [done|lia|intros; lia|lia|]. rewrite Hcp, Hnp. congruence.
Qed.

(** How the comparison with an item ends, [j] characters after [cp] and [np] being equal *)
Inductive found it (name : list Z) (idx : Z) (cp np : nat) : Dvg_t -> Z -> Prop :=
| found_dvg v : (cp < chunk_sz it)%nat -> name !! np = Some v -> chunk it !! cp <> Some v -> found it name idx cp np Dvg idx
| found_short : (cp < chunk_sz it)%nat -> np = length name -> found it name idx cp np Short idx
| found_end : cp = chunk_sz it -> np = length name -> found it name idx cp np (if used it then Match else Unused) idx
| found_long v : cp = chunk_sz it -> name !! np = Some v -> kind it = Terminal -> found it name idx cp np Long idx
| found_next v : cp = chunk_sz it -> name !! np = Some v -> kind it = Prefix -> found it name idx cp np Cont (nxt_eq it)
| found_before v : cp = chunk_sz it -> name !! np = Some v -> kind it = Split -> s_cmp_bit (cmp_val it) v < cmp_bit it -> found it name idx cp np Dvg idx
| found_side v b : cp = chunk_sz it -> name !! np = Some v -> kind it = Split -> fit it b v -> found it name idx cp np Cont (nx b it).

Lemma find_dvg_spec root it name idx cp np : loc root it -> Forall inchar name -> (np <= length name)%nat -> (cp <= chunk_sz it)%nat -> exists d i j,
  find_dvg it name idx cp np = Ret (d, i, cp + j, np + j)%nat /\ (cp + j <= chunk_sz it)%nat /\ (np + j <= length name)%nat /\
  take j (drop np name) = take j (drop cp (chunk it)) /\ found it name idx (cp + j) (np + j) d i.
Proof.
  intros Hl Hin Hnp Hcp. pose proof (loc_length _ _ Hl) as Hlen. unfold find_dvg.
  set (n := (Nat.min (length name) (np + chunk_sz it - cp) - np)%nat). destruct (find_loop_spec n it name cp np) as (d & j & -> & Hj & Heq & Hd); [lia..|].
  cbn [mbind outcome_mbind]. assert (take j (drop np name) = take j (drop cp (chunk it))) as Ht.
  { apply list_eq. intros i. destruct (decide (i < j)%nat); [rewrite !lookup_take_lt, !lookup_drop by done; by apply Heq|]. by rewrite !lookup_take_ge by lia. }
  destruct d.
  { destruct Hd as [Hlt Hne]. destruct (lookup_lt_is_Some_2 name (np + j) ltac:(lia)) as [v Hv]. eexists _, _, j. split_and!; [done|lia|lia|done|].
    apply (found_dvg _ _ _ _ _ v); [lia|done|]. rewrite <- Hv. congruence. }
  subst j. destruct (Nat.ltb_spec (cp + n) (chunk_sz it)); [eexists _, _, n; split_and!; [done|lia|lia|done|]; apply found_short; lia|].
  assert ((cp + n)%nat = chunk_sz it) as Hfull by lia. destruct (Nat.eqb_spec (np + n) (length name)) as [He|He]; [eexists _, _, n; split_and!; [done|lia|lia|done|]; by apply found_end|].
  destruct (lookup_lt_is_Some_2 name (np + n) ltac:(lia)) as [v Hv]. assert (inchar v) as Hiv by (rewrite list.Forall_forall in Hin; apply Hin; by eapply list_elem_of_lookup_2).
  destruct (kind it) eqn:Hk.
  - eexists _, _, n. split_and!; [done|lia|lia|done|]. by eapply found_long.
  - rewrite (nxt_if_lnk it true (nxt_eq it)) by (unfold lnk; by rewrite Hk). cbn [mbind outcome_mbind]. eexists _, _, n. split_and!; [done|lia|lia|done|]. by eapply found_next.
  - rewrite Hv. destruct (l_split _ _ Hl Hk) as [Hb Hcv]. pose proof lo_bits as Hbits. rewrite dvg_before_spec by done.
    destruct (Z.ltb_spec (s_cmp_bit (cmp_val it) v) (cmp_bit it)).
    + eexists _, _, n. split_and!; [done|lia|lia|done|]. by eapply found_before.
    + rewrite (nxt_if_lnk it _ (nx (negb (dvg_at it v)) it)) by (unfold lnk; by rewrite Hk). cbn [mbind outcome_mbind]. eexists _, _, n. split_and!; [done|lia|lia|done|].
      eapply found_side; [done..|]. by apply dvg_at_spec.
Qed.

(** ** Down the tree *)

(** From [x], [j] is reached by reading [k]. *)
Inductive dn m : Z -> Z -> list Z -> Prop :=
| dn_refl x : dn m x x []
| dn_step x b y iy j k : E m x b = Some y -> m !! y = Some iy -> dn m y j k -> dn m x j (chunk iy ++ k).

Lemma dn_snoc m x j k b y iy : dn m x j k -> E m j b = Some y -> m !! y = Some iy -> dn m x y (k ++ chunk iy).
Proof.
  induction 1 as [|x b' z iz j k He Hz H IH]; intros Hj Hy; [rewrite <- (app_nil_r (chunk iy)); econstructor; [done..|constructor]|].
  rewrite <- app_assoc. econstructor; [done..|]. by apply IH.
Qed.
Lemma walk_dn m r j p k : walk m r j p k -> exists ir k', m !! r = Some ir /\ dn m r j k' /\ k = chunk ir ++ k'.
Proof.
  induction 1 as [it Hr Hp|x b y it p k H (ir & k' & Hr & Hd & ->) He Hy]; [exists it, []; rewrite app_nil_r; split_and!; [done|constructor|done]|].
  exists ir, (k' ++ chunk it). split_and!; [done|by eapply dn_snoc|by rewrite app_assoc].
Qed.

Section inv.
Context (br : Z) m (I : inv None br m).
Lemma dn_reads y j k iy c l : m !! y = Some iy -> loc false iy -> dn m y j k -> chunk iy ++ k = c :: l -> reads m y c.
Proof.
  intros Hy Hl Hd. revert iy Hy Hl. induction Hd as [y|y b z iz j k He Hz Hd IH]; intros iy Hy Hl Heq.
  - rewrite app_nil_r in Heq. by econstructor.
  - destruct (chunk iy) as [|c' l'] eqn:Hc; [|injection Heq as <- _; by econstructor].
    destruct (loc_empty _ Hl Hc) as (Hk & _). destruct (inv_child _ _ _ I _ _ _ _ He Hz) as (_ & _ & _ & Hlz). eapply reads_split; [done..|]. by eapply IH.
Qed.
(** Nothing more is read only through empty items, which are not used. *)
Lemma dn_nil x j it : dn m x j [] -> m !! j = Some it -> used it = true -> j = x.
Proof.
  intros Hd Hj Hu. inversion Hd as [|? b y iy ? k He Hy Hd' Hx Hj' Happ]; subst; [done|]. apply app_eq_nil in Happ as [Hc ->].
  exfalso. destruct (inv_child _ _ _ I _ _ _ _ He Hy) as (_ & _ & _ & Hl). clear He Hd x b. revert iy Hy Hc Hl. remember [] as l eqn:Hnil.
  induction Hd' as [y|y b z iz j k He Hz Hd IH]; intros iy Hy Hc Hl.
  - destruct (loc_empty _ Hl Hc) as (_ & Hf & _). congruence.
  - apply app_eq_nil in Hnil as [Hcz ->]. destruct (inv_child _ _ _ I _ _ _ _ He Hz) as (_ & _ & _ & Hlz). by eapply IH.
Qed.
End inv.
End find.

(** ** The loop *)
Section loop.
Context {L : Layout} {HL : LayoutOk L} {A : Type} {B : Blocks A} {D : Type}.
Abbreviation item := (Item.t D).
Abbreviation file := (@PrefixFile.t A D).
Import PrefixFile.
Context (s : file) (br : Z) (I : inv None br (items s)) (r : Z) (name : list Z) (Hname : Forall inchar name).
Abbreviation m := (items s).

(** The name has not been read further than the item before [it]: its next character leads to [it]. *)
Definition entry (it : item) (cp np : nat) : Prop := cp = 0%nat -> prev it <> 0 -> exists v, name !! np = Some v /\
  forall ip, m !! prev it = Some ip -> kind ip = Split -> fit ip (prev_is_eq it) v.

(** Where the search stops: the name agrees with the tree up to character [chunk_pos] of the item. *)
Record stop_at (g : DvgDigest) (p k0 : list Z) (it : item) : Prop := {
  st_walk : walk m r (dvg_idx g) p (k0 ++ chunk it);
  st_item : m !! dvg_idx g = Some it;
  st_chunk : (chunk_pos g <= chunk_sz it)%nat;
  st_name : (name_pos g <= length name)%nat /\ name_pos g = (length k0 + chunk_pos g)%nat;
  st_take : take (name_pos g) name = k0 ++ take (chunk_pos g) (chunk it);
  st_entry : entry it (chunk_pos g) (name_pos g);
  st_found : dvg g <> Cont /\ found it name (dvg_idx g) (chunk_pos g) (name_pos g) (dvg g) (dvg_idx g);
}.

(** The last used item met so far, [x] being the next one: the names that are prefixes of the searched
    name are met in order. *)
Record best (g : DvgDigest) (x : Z) (k : list Z) : Prop := {
  b_has : used_idx g <> 0 -> (used_pos g < length name)%nat /\ exists d, has m r (take (used_pos g) name) (used_idx g) d;
  b_pos : (used_pos g <= length k)%nat;
  b_max j K d : has m r K j d -> K `prefix_of` name -> used_idx g <> 0 /\ (length K <= used_pos g)%nat \/ exists k', dn m x j k' /\ K = k ++ k';
}.

Lemma find_next it x p k0 cp j i : m !! x = Some it -> walk m r x p (k0 ++ chunk it) -> found it name x (cp + j) (length k0 + cp + j) Cont i ->
  take (length k0 + cp + j) name = k0 ++ take (cp + j) (chunk it) ->
  exists b iy v, E m x b = Some i /\ m !! i = Some iy /\ name !! (length k0 + cp + j)%nat = Some v /\ (kind it = Split -> fit it b v) /\ (cp + j)%nat = chunk_sz it /\
    take (length (k0 ++ chunk it)) name = k0 ++ chunk it /\ (length k0 + cp + j)%nat = length (k0 ++ chunk it).
Proof.
  intros Hx Hw Hf Ht. pose proof (i_linked _ _ _ I) as Hl. assert (forall b y, E m x b = Some y -> exists iy, m !! y = Some iy) as Hdown.
  { intros b y He. assert (y <> 0) as Hy by (intros ->; apply (lk_hole _ _ Hl) in He; done). pose proof (lk_down _ _ Hl _ _ _ He Hy) as Hu. apply U_some in Hu as (iy & ? & _). eauto. }
  pose proof (loc_length _ _ (i_loc _ _ _ I _ _ Hx)) as Hlen.
  assert ((cp + j)%nat = chunk_sz it -> take (length (k0 ++ chunk it)) name = k0 ++ chunk it /\ (length k0 + cp + j)%nat = length (k0 ++ chunk it)) as Hfull.
  { intros Hc. rewrite length_app, Hlen, <- Nat.add_assoc, Hc. split; [|done]. rewrite <- Nat.add_assoc, Hc in Ht. rewrite Ht. f_equal. rewrite <- Hlen. apply take_ge. done. }
  inversion Hf as [| |Hc He Hd|?|v Hc Hv Hk Hi|?|v b Hc Hv Hk Hfit Hi]; subst.
  - by destruct (used it).
  - assert (E m x true = Some (nxt_eq it)) as He by (rewrite (E_lookup _ _ _ _ Hx); unfold lnk; by rewrite Hk). destruct (Hdown _ _ He) as (iy & Hy).
    destruct (Hfull Hc). exists true, iy, v. split_and!; try done. congruence.
  - assert (E m x b = Some (nx b it)) as He by (rewrite (E_lookup _ _ _ _ Hx); unfold lnk; by rewrite Hk). destruct (Hdown _ _ He) as (iy & Hy).
    destruct (Hfull Hc). exists b, iy, v. split_and!; done.
Qed.

Lemma prefix_next K k k' v : K `prefix_of` name -> K = k ++ k' -> k' <> [] -> name !! length k = Some v -> exists l, k' = v :: l.
Proof.
  intros [rest Hr] -> Hne Hv. destruct k' as [|c l]; [done|]. rewrite Hr, <- app_assoc in Hv. simpl in Hv. rewrite list_lookup_middle in Hv by done. simplify_eq. eauto.
Qed.
Lemma best_next g x ix p k b y iy v : best g x k -> walk m r x p k -> m !! x = Some ix -> E m x b = Some y -> m !! y = Some iy ->
  name !! length k = Some v -> take (length k) name = k -> (kind ix = Split -> fit ix b v) ->
  forall d np i cp, best (mkDigest d np i cp (if used ix then length k else used_pos g) (if used ix then x else used_idx g)) y (k ++ chunk iy).
Proof.
  intros Hb Hw Hx He Hy Hv Ht Hfit d np i cp. pose proof (b_pos _ _ _ Hb) as Hpos. split; simpl.
  - destruct (used ix) eqn:Hu; [|apply Hb]. intros _. split; [by eapply lookup_lt_Some|]. exists (data ix). rewrite Ht. exists p, ix. done.
  - rewrite length_app. destruct (used ix); lia.
  - intros j K dj Hj Hpre. destruct (b_max _ _ _ Hb j K dj Hj Hpre) as [[Hne Hle]|(k' & Hdn & HK)].
    + left. destruct (used ix); [|done]. split; [by eapply inv_nz|lia].
    + inversion Hdn as [|? b' z iz ? k'' Ez Hz Hdn' Hx' Hj' Hk']; subst.
      * left. destruct Hj as (pj & ij & _ & Hij & Hu & _). rewrite Hx in Hij. injection Hij as <-. rewrite Hu, app_nil_r. split; [by eapply inv_nz|done].
      * destruct (inv_child _ _ _ I _ _ _ _ Ez Hz) as (_ & _ & _ & Hlz). destruct (decide (chunk iz ++ k'' = [])) as [Hnil|Hnn].
        { apply app_eq_nil in Hnil as [Hc ->]. exfalso. destruct Hj as (pj & ij & _ & Hij & Hu & _). pose proof (dn_nil _ _ I _ _ _ Hdn' Hij Hu) as ->.
          rewrite Hz in Hij. injection Hij as <-. destruct (loc_empty _ Hlz Hc) as (_ & ? & _). congruence. }
        destruct (prefix_next _ _ _ _ Hpre eq_refl Hnn Hv) as (l & Hl). assert (b' = b) as ->.
        { apply E_some in Ez as Hb'. destruct Hb' as (ix' & Hx' & Hhas & _). rewrite Hx in Hx'. injection Hx' as <-. apply E_some in He as Hb2. destruct Hb2 as (ix' & Hx' & Hhas' & _).
          rewrite Hx in Hx'. injection Hx' as <-. destruct (kind ix) eqn:Hk; [done|simpl in *; congruence|]. specialize (Hfit eq_refl).
          assert (fit ix b' v) as Hfit' by (eapply (reads_fit _ _ _ I); [exact Ez|done..|by eapply dn_reads]). by eapply fit_side. }
        assert (z = y) as -> by congruence. rewrite Hy in Hz. injection Hz as <-. right. exists k''. by rewrite <- app_assoc.
Qed.

(** The result of a search: where it stops, and the longest inserted name that is a prefix *)
Record result (g : DvgDigest) : Prop := {
  r_stop : exists p k0 it, stop_at g p k0 it;
  r_has : used_idx g <> 0 -> (used_pos g <= length name)%nat /\ exists d, has m r (take (used_pos g) name) (used_idx g) d;
  r_max j K d : has m r K j d -> K `prefix_of` name -> used_idx g <> 0 /\ (length K <= used_pos g)%nat;
  r_match : if decide (dvg g = Match) then used_idx g = dvg_idx g /\ used_pos g = length name /\ (forall j d, has m r name j d -> j = dvg_idx g) else used_idx g <> 0 -> (used_pos g < length name)%nat;
}.

(** A name that goes through the item at which the search stops ends there. *)
Lemma stop_dn it x p k0 cp d j K k' dj : m !! x = Some it -> walk m r x p (k0 ++ chunk it) -> found it name x cp (length k0 + cp) d x -> d <> Cont ->
  take (length k0 + cp) name = k0 ++ take cp (chunk it) -> (cp <= chunk_sz it)%nat ->
  has m r K j dj -> K `prefix_of` name -> dn m x j k' -> K = (k0 ++ chunk it) ++ k' -> j = x /\ used it = true /\ cp = chunk_sz it /\ length K = (length k0 + cp)%nat.
Proof.
  intros Hx Hw Hf Hd Ht Hcp Hj [rest Hpre] Hdn HK. pose proof (loc_length _ _ (i_loc _ _ _ I _ _ Hx)) as Hlen. subst K.
  destruct Hj as (pj & ij & Hwj & Hij & Hu & _).
  assert (cp = chunk_sz it -> j = x -> j = x /\ used it = true /\ cp = chunk_sz it /\ length ((k0 ++ chunk it) ++ k') = (length k0 + cp)%nat) as Hend.
  { intros Hc ->. rewrite Hx in Hij. injection Hij as <-. split_and!; [done..|]. destruct (walk_unique _ _ (i_linked _ _ _ I) _ _ _ _ _ _ _ Hw Hwj) as (_ & _ & Hk).
    rewrite <- Hk, length_app. lia. }
  assert (forall v, cp = chunk_sz it -> name !! (length k0 + cp)%nat = Some v -> (kind it = Terminal \/ kind it = Split /\ s_cmp_bit (cmp_val it) v < cmp_bit it) -> j = x) as Hstop.
  { intros v Hc Hv Hk. inversion Hdn as [|? b y iy ? k'' Ez Hy Hdn' Hx' Hj' Hk'']; subst k'; [done|]. exfalso. destruct (E_some _ _ _ _ Ez) as (ix & Hx'' & Hhas & _).
    rewrite Hx in Hx''. injection Hx'' as <-. destruct Hk as [Hk|[Hk Hlt]]; [by rewrite Hk in Hhas|]. destruct (inv_child _ _ _ I _ _ _ _ Ez Hy) as (_ & _ & _ & Hly).
    assert (chunk iy ++ k'' <> []) as Hnn.
    { intros [Hci ->]%app_eq_nil. pose proof (dn_nil _ _ I _ _ _ Hdn' Hij Hu) as ->. rewrite Hy in Hij. injection Hij as <-. destruct (loc_empty _ Hly Hci) as (_ & ? & _). congruence. }
    destruct (prefix_next ((k0 ++ chunk it) ++ chunk iy ++ k'') (k0 ++ chunk it) (chunk iy ++ k'') v) as (l & Hl); [by eexists|done..|by rewrite length_app, Hlen, <- Hc|].
    assert (fit it b v) as Hfit by (eapply (reads_fit _ _ _ I); [exact Ez|done..|by eapply dn_reads]). unfold fit in Hfit. destruct b; lia. }
  inversion Hf as [v Hlt Hv Hne|Hlt Hn|Hc Hn|v Hc Hv Hk|v Hc Hv Hk|v Hc Hv Hk Hlt|v b Hc Hv Hk Hfit]; subst d.
  - exfalso. apply Hne. rewrite Hpre, <- !app_assoc in Hv. rewrite lookup_app_r in Hv by lia. rewrite lookup_app_l in Hv by lia. by rewrite <- Hv; f_equal; lia.
  - exfalso. apply (f_equal length) in Hpre. rewrite !length_app in Hpre. lia.
  - apply Hend; [done|]. apply (dn_nil _ _ I _ _ ij); [|done..]. apply (f_equal length) in Hpre. rewrite !length_app in Hpre. destruct k'; [done|]. simpl in Hpre. lia.
  - apply Hend; [done|]. eapply Hstop; [done..|by left].
  - done.
  - apply Hend; [done|]. eapply Hstop; [done..|by right].
  - done.
Qed.

Lemma dvg_loop_spec fuel x ix p k0 cp g : walk m r x p (k0 ++ chunk ix) -> m !! x = Some ix -> dvg_idx g = x -> (cp <= chunk_sz ix)%nat ->
  name_pos g = (length k0 + cp)%nat -> (length k0 + cp <= length name)%nat -> take (length k0 + cp) name = k0 ++ take cp (chunk ix) ->
  entry ix cp (length k0 + cp) -> best g x (k0 ++ chunk ix) -> (used_pos g <= length k0)%nat -> (size m < fuel + length p)%nat ->
  exists g', dvg_loop fuel None name cp g s = Ret g' /\ result g'.
Proof.
  revert x ix p k0 cp g. induction fuel as [|fuel IH]; intros x ix p k0 cp g Hw Hx Hgi Hcp Hnp Hle Ht Hen Hb Hup Hfuel.
  { apply (walk_length _ _ (i_linked _ _ _ I)) in Hw. lia. }
  cbn [dvg_loop]. unfold _at. rewrite Hgi, Hx. cbn [mbind outcome_mbind]. rewrite Hnp.
  destruct (find_dvg_spec _ ix name x cp (length k0 + cp) (i_loc _ _ _ I _ _ Hx) Hname Hle Hcp) as (d & i & j & -> & Hj & Hj' & Heq & Hf).
  cbn [mbind outcome_mbind]. assert (take (length k0 + cp + j) name = k0 ++ take (cp + j) (chunk ix)) as Ht'.
  { by rewrite <- (take_take_drop name), <- (take_take_drop (chunk ix)), Ht, Heq, <- app_assoc. }
  case_decide as Hd.
  - subst d. destruct (find_next _ _ _ _ _ _ _ Hx Hw Hf Ht') as (b & iy & v & He & Hy & Hv & Hfit & Hfull & Hk & Hkl).
    rewrite (proj2 (Nat.eqb_eq _ _) Hfull). cbn [at_sep]. rewrite !andb_true_r. rewrite Hkl in Hv.
    pose proof (best_next _ _ _ _ _ _ _ _ _ Hb Hw Hx He Hy Hv Hk Hfit Cont (length k0 + cp + j)%nat i (cp + j)%nat) as Hb'.
    destruct (inv_child _ _ _ I _ _ _ _ He Hy) as (Hp1 & Hp2 & Hp3 & Hly).
    eapply (IH i iy (p ++ [i]) (k0 ++ chunk ix) 0%nat); simpl.
    + by econstructor.
    + done.
    + done.
    + lia.
    + lia.
    + rewrite Nat.add_0_r, <- Hkl. done.
    + rewrite Nat.add_0_r, app_nil_r. done.
    + intros _ _. exists v. rewrite Nat.add_0_r. split; [done|]. intros ip Hip Hks. rewrite Hp1, Hx in Hip. injection Hip as <-. rewrite Hp2. by apply Hfit.
    + by rewrite <- Hkl in Hb'.
    + rewrite Hkl. rewrite length_app. destruct (used ix); lia.
    + rewrite length_app. simpl. lia.
  - assert (i = x) as -> by (inversion Hf; subst; done). eexists. split; [done|]. rewrite <- Nat.add_assoc in *. pose proof (stop_dn ix x p k0 (cp + j) d) as Hstop.
    assert (entry ix (cp + j) (length k0 + (cp + j))) as Hen'. { intros Hz. rewrite Hz in *. assert (cp = 0%nat) as -> by lia. by apply Hen. }
    split; simpl.
    + exists p, k0, ix. split; simpl; try done.
    + case_match eqn:Hhit; [|intros Hne; destruct (b_has _ _ _ Hb Hne); split; [lia|done]]. intros _. split; [lia|].
      apply andb_true_iff in Hhit as [Hhit _]. apply andb_true_iff in Hhit as [Hu Hc%Nat.eqb_eq]. exists (data ix), p, ix. split_and!; try done.
      rewrite Ht', Hc, take_ge; [done|]. rewrite (loc_length _ _ (i_loc _ _ _ I _ _ Hx)). done.
    + intros j' K dj Hj2 Hpre. destruct (b_max _ _ _ Hb j' K dj Hj2 Hpre) as [[Hne HleK]|(k' & Hdn & HK)].
      * case_match; split; [by eapply inv_nz|lia|done|done].
      * destruct (Hstop j' K k' dj Hx Hw Hf Hd Ht' Hj Hj2 Hpre Hdn HK) as (_ & Hu & Hc & HlK). rewrite Hu, (proj2 (Nat.eqb_eq _ _) Hc). simpl. split; [by eapply inv_nz|lia].
    + case_decide as Hm.
      * inversion Hf as [| |Hc Hn Hdm| | | |]; subst d; try done. destruct (used ix) eqn:Hu; [|done]. rewrite (proj2 (Nat.eqb_eq _ _) Hc). split_and!; [done..|].
        intros j' dj Hj2. destruct (b_max _ _ _ Hb j' name dj Hj2 (reflexivity _)) as [[Hne HleK]|(k' & Hdn & HK)]; [destruct (b_has _ _ _ Hb Hne); lia|].
        by destruct (Hstop j' name k' dj Hx Hw Hf Hd Ht' Hj Hj2 (reflexivity _) Hdn HK).
      * assert ((length k0 + (cp + j))%nat = length name -> used ix = true -> (cp + j)%nat = chunk_sz ix -> False) as Hno.
        { intros Hn Hu Hc. inversion Hf as [? Hlt| Hlt| |? ? Hv| |? ? Hv|]; subst d; try lia; try done; [by rewrite Hu in Hm|..]; apply lookup_lt_Some in Hv; lia. }
        case_match eqn:Hhit; [|intros Hne; by destruct (b_has _ _ _ Hb Hne)]. intros _.
        apply andb_true_iff in Hhit as [Hhit _]. apply andb_true_iff in Hhit as [Hu Hc%Nat.eqb_eq]. destruct (decide ((length k0 + (cp + j))%nat = length name)); [exfalso; eauto|lia].
Qed.

(** A search from a root terminates. *)
Lemma dvg_digest_spec ir : m !! r = Some ir -> prev ir = 0 -> r <> br -> exists g, dvg_digest r 0 None name 0 s = Ret g /\ result g.
Proof.
  intros Hr Hp Hbr. pose proof (i_loc _ _ _ I _ _ Hr) as Hl. unfold is_root in Hl. rewrite bool_decide_true in Hl by done. destruct (l_root _ _ Hl eq_refl) as [Hc _].
  assert (chunk ir = []) as Hnil by (apply nil_length_inv; by rewrite (loc_length _ _ Hl)). unfold dvg_digest.
  apply (dvg_loop_spec _ r ir [r] []); simpl; try done; try lia.
  - by apply walk_root.
  - intros _ Hne. by rewrite Hp in Hne.
  - split; simpl; [done|lia|]. intros j K d (p & ij & Hw & _) _. destruct (walk_dn _ _ _ _ _ Hw) as (ir' & k' & Hr' & Hd & ->). right. exists k'. split; [done|]. by simplify_eq.
Qed.

Lemma search_has ir : m !! r = Some ir -> prev ir = 0 -> r <> br -> exists i, search r name s = Ret i /\
  if decide (i = 0) then forall j d, ~ has m r name j d else exists d, has m r name i d /\ forall j d', has m r name j d' -> j = i.
Proof.
  intros Hr Hp Hbr. destruct (dvg_digest_spec ir Hr Hp Hbr) as (g & Hg & Hres). unfold search. rewrite Hg. cbn [mbind outcome_mbind]. eexists. split; [done|].
  destruct (r_stop _ Hres) as (p & k0 & it & Hst). pose proof (r_match _ Hres) as Hm.
  assert (forall j d, has m r name j d -> used_idx g <> 0 /\ (length name <= used_pos g)%nat) as Hall by (intros j d Hj; by eapply (r_max _ Hres)).
  case_decide as Hd.
  - destruct Hm as (Hu & Hup & Huniq). rewrite decide_False by (eapply inv_nz; [exact I|apply Hst]). destruct (r_has _ Hres) as (_ & d & Hh); [rewrite Hu; eapply inv_nz; [exact I|apply Hst]|].
    rewrite Hup, take_ge in Hh by done. rewrite Hu in Hh. exists d. split; [done|]. exact Huniq.
  - rewrite decide_True by done. intros j d Hj. destruct (Hall j d Hj) as [H1 H2]. specialize (Hm H1). lia.
Qed.
End loop.
