(* ===== verification/PrefixRun.v ===== *)
(** * Running the updates of a prefix file.

    What the elementary operations of src/store/prefix.hh do to the live items of a file, the items that are
    scheduled for release being left out, together with the resources they take: saved items, of which at
    most 64 fit, and blocks of the allocator. *)
From S2P Require Import Prelude.
From S2P Require Import PrefixItem.
From S2P Require Import PrefixGraph.
From S2P Require Import PrefixFile.
From S2P Require Import PrefixInv.
Local Open Scope Z_scope.
Import Item.

(** A computation returns a value that satisfies [Q]. *)
Definition runs {X} (o : outcome X) (Q : X -> Prop) : Prop := exists x, o = Ret x /\ Q x.
Lemma runs_ret {X} (x : X) (Q : X -> Prop) : Q x -> runs (Ret x) Q.
Proof. intros. by exists x. Qed.
Lemma runs_bind {X Y} (o : outcome X) (f : X -> outcome Y) (R : X -> Prop) (Q : Y -> Prop) :
  runs o R -> (forall x, R x -> runs (f x) Q) -> runs (o ≫= f) Q.
Proof. intros (x & -> & Hx) Hf. by apply Hf. Qed.
Lemma runs_swear {Y} (c : bool) (f : unit -> outcome Y) (Q : Y -> Prop) : c = true -> runs (f tt) Q -> runs (swear c ≫= f) Q.
Proof. by intros ->. Qed.
Lemma runs_eq {X Y} (o : outcome X) (f : X -> outcome Y) (Q : Y -> Prop) x : o = Ret x -> runs (f x) Q -> runs (o ≫= f) Q.
Proof. by intros ->. Qed.
Lemma runs_mono {X} (o : outcome X) (Q R : X -> Prop) : runs o Q -> (forall x, Q x -> R x) -> runs o R.
Proof. intros (x & He & Hq) H. exists x. auto. Qed.

(** Equality of maps that are built by insertions *)
Ltac map_ins := apply map_eq; intros ?z; repeat first [rewrite lookup_insert | rewrite lookup_delete]; repeat case_decide; subst; first [done | congruence | idtac].
Ltac mlook := repeat first [rewrite lookup_insert_eq | rewrite lookup_insert_ne by congruence | rewrite lookup_delete_ne by congruence]; first [eassumption | reflexivity].

(** [run tac as s H]: the next step returns [s], as [tac] shows. *)
Tactic Notation "run" tactic3(tac) "as" simple_intropattern(s) simple_intropattern(p) := eapply runs_bind; [tac|cbv beta; intros s p].

Section run.
Context {L : Layout} {A : Type} {B : Blocks A} {HB : BlocksOk A} {D : Type} (d0 : D).
Abbreviation item := (Item.t D).
Abbreviation file := (@PrefixFile.t A D).
Import PrefixFile.
Implicit Types (m : gmap Z item) (it : item) (s : file).

(** The items of the tree, and the sizes of the blocks as the allocator knows them *)
Definition live s : gmap Z item := filter (fun p => p.1 ∉ _scheduled_pop s) (items s).
Definition blocks s : gmap Z Z := list_to_map (_scheduled_shorten s) ∪ (sz <$> items s).

(** The live items are [m], at most [n] items are saved, [k] blocks can be allocated, and the blocks of [F]
    are scheduled to be shortened. *)
Record st s m (n k : nat) (F : list Z) : Prop := {
  st_live : live s = m;
  st_save : (length (save s) <= n)%nat;
  st_owned : owned (al s) (blocks s);
  st_room : exists j, (k <= j)%nat /\ room j (al s);
  st_pops : NoDup (_scheduled_pop s) /\ forall i, i ∈ _scheduled_pop s -> is_Some (items s !! i);
  st_shorts : (_scheduled_shorten s).*1 = F /\ NoDup F;
  st_shorter i o : (i, o) ∈ _scheduled_shorten s -> exists it, m !! i = Some it /\ 1 <= sz it <= o;
}.
(** Between updates *)
Record clean s (k : nat) : Prop := {
  cl_save : save s = [];
  cl_pops : _scheduled_pop s = [];
  cl_shorts : _scheduled_shorten s = [];
  cl_owned : owned (al s) (sz <$> items s);
  cl_room : exists j, (k <= j)%nat /\ room j (al s);
}.

Lemma live_lookup s i it : live s !! i = Some it <-> items s !! i = Some it /\ i ∉ _scheduled_pop s.
Proof. unfold live. apply map_lookup_filter_Some. Qed.
Lemma clean_st s k : clean s k -> st s (items s) 0 k [].
Proof.
  intros [Hsv Hp Hs Ho Hr]. split; try done.
  - apply map_eq. intros i. apply option_eq. intros it. rewrite live_lookup, Hp. set_solver.
  - by rewrite Hsv.
  - unfold blocks. rewrite Hs. simpl. by rewrite (left_id_L ∅ (∪)).
  - rewrite Hp. split; [constructor|set_solver].
  - rewrite Hs. split; [done|constructor].
  - rewrite Hs. set_solver.
Qed.

Section st.
Context s m (n k : nat) (F : list Z) (Hst : st s m n k F).

Lemma st_weaken n' k' : (n <= n')%nat -> (k' <= k)%nat -> st s m n' k' F.
Proof. intros Hn Hk. destruct Hst as [H1 H2 H3 (j & Hj & Hr) H5 H6 H7]. split; try done; [lia|]. exists j. split; [lia|done]. Qed.

Lemma st_lookup i it : m !! i = Some it -> items s !! i = Some it /\ i ∉ _scheduled_pop s.
Proof. rewrite <- (st_live _ _ _ _ _ Hst). apply live_lookup. Qed.
Lemma at_st i it : m !! i = Some it -> _at i s = Ret it.
Proof. intros Hi. apply st_lookup in Hi as [Hi _]. unfold _at. by rewrite Hi. Qed.

Lemma backup_st b i it : m !! i = Some it -> (n + Nat.b2n b <= 64)%nat -> runs (_backup b i s) (fun s' => st s' m (n + Nat.b2n b) k F).
Proof.
  intros Hi Hn. unfold _backup. destruct b; [|apply runs_ret, st_weaken; lia]. simpl in *. pose proof (st_save _ _ _ _ _ Hst). apply runs_swear; [apply Nat.ltb_lt; lia|].
  eapply runs_eq; [by apply at_st|]. apply runs_ret. destruct Hst. split; try done. simpl. rewrite length_app. simpl. lia.
Qed.

Lemma live_put i it it' : m !! i = Some it -> live (put i it' s) = <[i := it']> m.
Proof.
  intros Hi. apply st_lookup in Hi as [Hi Hp]. unfold live, put, set_items. simpl. rewrite map_filter_insert_True by done. f_equal. apply Hst.
Qed.
Lemma put_st i it it' : m !! i = Some it -> sz it' = sz it -> st (put i it' s) (<[i := it']> m) n k F.
Proof.
  intros Hi Hsz. pose proof (st_lookup _ _ Hi) as [Hi' Hp]. destruct Hst as [H1 H2 H3 H4 [H5 H5'] H6 H7]. split; try done.
  - by eapply live_put.
  - unfold blocks, put, set_items. simpl. rewrite fmap_insert, Hsz, insert_id; [done|]. by rewrite lookup_fmap, Hi'.
  - split; [done|]. intros j Hj. simpl. apply lookup_insert_is_Some. destruct (decide (i = j)); auto.
  - intros j o Hj. destruct (H7 _ _ Hj) as (jt & Hjt & Hle). destruct (decide (i = j)) as [->|]; [|exists jt; by rewrite lookup_insert_ne].
    exists it'. rewrite lookup_insert_eq. split; [done|]. by simplify_eq; rewrite Hsz.
Qed.
Lemma upd_st i it f : m !! i = Some it -> sz (f it) = sz it -> runs (upd i f s) (fun s' => st s' (<[i := f it]> m) n k F).
Proof. intros Hi Hsz. unfold upd. eapply runs_eq; [by apply at_st|]. apply runs_ret. by eapply put_st. Qed.
Lemma upd__st i it f it' : m !! i = Some it -> f it = Ret it' -> sz it' = sz it -> runs (upd_ i f s) (fun s' => st s' (<[i := it']> m) n k F).
Proof. intros Hi Hf Hsz. unfold upd_. eapply runs_eq; [by apply at_st|]. rewrite Hf. apply runs_ret. by eapply put_st. Qed.

(** An item that is taken out of the tree *)
Lemma schedule_pop_st i it : m !! i = Some it -> i ∉ F -> st (schedule_pop i s) (delete i m) n k F.
Proof.
  intros Hi HF. pose proof (st_lookup _ _ Hi) as [Hi' Hp]. destruct Hst as [H1 H2 H3 H4 [H5 H5'] H6 H7]. split; try done.
  - apply map_eq. intros j. apply option_eq. intros jt. rewrite live_lookup, lookup_delete_Some. rewrite <- H1, live_lookup. simpl. set_solver.
  - simpl. split; [|set_solver]. apply NoDup_app. split_and!; [done|set_solver|apply NoDup_singleton].
  - intros j o Hj. destruct (H7 _ _ Hj) as (jt & Hjt & Hle). exists jt. split; [|done]. apply lookup_delete_Some. split; [|done].
    intros ->. apply HF. destruct H6 as [<- _]. simpl in Hj. by apply (list_elem_of_fmap_2 fst) in Hj.
Qed.
Lemma schedule_shorten_st i it z : m !! i = Some it -> i ∉ F -> 1 <= z <= sz it ->
  st (schedule_shorten i (sz it) (put i (set_sz z it) s)) (<[i := set_sz z it]> m) n k (F ++ [i]).
Proof.
  intros Hi HF Hz. pose proof (st_lookup _ _ Hi) as [Hi' Hp]. destruct Hst as [H1 H2 H3 H4 [H5 H5'] [H6 H6'] H7].
  assert (i ∉ (_scheduled_shorten s).*1) as HF' by (by rewrite H6). split; try done.
  - by eapply live_put.
  - assert (blocks (schedule_shorten i (sz it) (put i (set_sz z it) s)) = blocks s) as ->; [|done]. unfold blocks. simpl. rewrite list_to_map_app. simpl.
    apply map_eq. intros j. rewrite !lookup_union, !lookup_fmap. destruct (decide (i = j)) as [->|].
    + rewrite !lookup_insert_eq, not_elem_of_list_to_map_1, Hi' by done. done.
    + rewrite !lookup_insert_ne by done. simpl. rewrite lookup_empty. by rewrite (right_id_L None union).
  - split; [done|]. intros j Hj. simpl. apply lookup_insert_is_Some. destruct (decide (i = j)); auto.
  - simpl. rewrite fmap_app, H6. split; [done|]. apply NoDup_app. split_and!; [done|set_solver|apply NoDup_singleton].
  - intros j o Hj. simpl in Hj. apply elem_of_app in Hj as [Hj|Hj%list_elem_of_singleton].
    + destruct (H7 _ _ Hj) as (jt & Hjt & Hle). exists jt. rewrite lookup_insert_ne; [done|]. intros ->. apply HF'. by apply (list_elem_of_fmap_2 fst) in Hj.
    + simplify_eq. exists (set_sz z it). rewrite lookup_insert_eq. done.
Qed.
End st.

Lemma runs_at {Y} s m n k F i it (f : item -> outcome Y) Q : st s m n k F -> m !! i = Some it -> runs (f it) Q -> runs (_at i s ≫= f) Q.
Proof. intros Hst Hi Hf. eapply runs_eq; [by eapply (at_st _ _ _ _ _ Hst)|done]. Qed.

Ltac rat := eapply runs_at; [eassumption..|].

(** *** Links *)
Lemma lnk_st s m n k F BuF BuT from e to f t : st s m n k F -> m !! from = Some f -> m !! to = Some t -> from <> to -> prev t = 0 -> prev_is_eq t = true ->
  lnk f e = Some 0 -> (n + Nat.b2n BuF + Nat.b2n BuT <= 64)%nat ->
  runs (_lnk BuF BuT from e to s) (fun s' => st s' (<[to := set_prev from e t]> (<[from := set_nxt e to f]> m)) (n + Nat.b2n BuF + Nat.b2n BuT) k F).
Proof.
  intros Hst Hf Ht Hne Hp Hpe Hk Hn. unfold _lnk. run (eapply backup_st; [exact Hst|exact Hf|lia]) as s1 H1. run (eapply backup_st; [exact H1|exact Ht|lia]) as s2 H2.
  rat. rat. apply runs_swear; [by rewrite Hp, Hpe|]. eapply runs_eq; [by apply nxt_if_lnk|]. apply runs_swear; [done|].
  run (eapply upd_st; [exact H2|exact Hf|done]) as s3 H3. eapply (upd_st _ _ _ _ _ H3); [by rewrite lookup_insert_ne|done].
Qed.
Lemma unlnk_st s m n k F BuF BuT from e to f t : st s m n k F -> m !! from = Some f -> m !! to = Some t -> from <> to ->
  lnk f e = Some to -> (n + Nat.b2n BuF + Nat.b2n BuT <= 64)%nat ->
  runs (_unlnk BuF BuT from e to s) (fun s' => st s' (<[to := set_prev 0 true t]> (<[from := set_nxt e 0 f]> m)) (n + Nat.b2n BuF + Nat.b2n BuT) k F).
Proof.
  intros Hst Hf Ht Hne Hk Hn. unfold _unlnk. run (eapply backup_st; [exact Hst|exact Hf|lia]) as s1 H1. run (eapply backup_st; [exact H1|exact Ht|lia]) as s2 H2.
  rat. eapply runs_eq; [by apply nxt_if_lnk|]. rat. apply runs_swear; [apply Z.eqb_refl|].
  run (eapply upd_st; [exact H2|exact Hf|done]) as s3 H3. eapply (upd_st _ _ _ _ _ H3); [by rewrite lookup_insert_ne|done].
Qed.

Lemma lnk_set_nxt it e v w : lnk it e = Some w -> lnk (set_nxt e v it) e = Some v.
Proof. unfold lnk, nx. simpl. by destruct (has_nxt (kind it) e), e. Qed.
Lemma lnk_set_other it e v : lnk (set_nxt e v it) (negb e) = lnk it (negb e).
Proof. unfold lnk, nx. simpl. by destruct e. Qed.
Lemma set_nxt_twice it e v w : set_nxt e v (set_nxt e w it) = set_nxt e v it.
Proof. by destruct it, e. Qed.

Lemma mv_lnk_after_st s m n k F b1 b2 b3 from e to f o io t : st s m n k F -> m !! from = Some f -> lnk f e = Some o -> m !! o = Some io -> m !! to = Some t ->
  prev t = 0 -> prev_is_eq t = true -> from <> o -> from <> to -> o <> to -> (n + Nat.b2n b1 + Nat.b2n b2 + Nat.b2n b3 <= 64)%nat ->
  runs (_mv_lnk_after b1 b2 b3 from e to s)
    (fun s' => st s' (<[to := set_prev from e t]> (<[o := set_prev 0 true io]> (<[from := set_nxt e to f]> m))) (n + Nat.b2n b1 + Nat.b2n b2 + Nat.b2n b3) k F).
Proof.
  intros Hst Hf Hk Ho Ht Hp Hpe H1 H2 H3 Hn. unfold _mv_lnk_after. run (unfold _unlnk_after; rat; eapply runs_eq; [by apply nxt_if_lnk|]; eapply unlnk_st; [done..|lia]) as s1 Hs1.
  eapply runs_mono; [eapply lnk_st; [exact Hs1|mlook..|done|done|done|by eapply lnk_set_nxt|simpl; lia]|]. intros s2 Hs2.
  replace (<[to := _]> (<[o := _]> (<[from := _]> m))) with (<[to:=set_prev from e t]> (<[from:=set_nxt e to (set_nxt e 0 f)]> (<[o:=set_prev 0 true io]> (<[from:=set_nxt e 0 f]> m)))).
  2:{ rewrite set_nxt_twice. map_ins. }
  simpl in Hs2. rewrite Nat.add_0_r in Hs2. done.
Qed.
Lemma mv_lnk_before_st s m n k F b1 b2 b3 from e to f t ip : st s m n k F -> m !! from = Some f -> lnk f e = Some 0 -> m !! to = Some t -> m !! prev t = Some ip ->
  lnk ip (prev_is_eq t) = Some to -> from <> to -> prev t <> to -> from <> prev t -> (n + Nat.b2n b1 + Nat.b2n b2 + Nat.b2n b3 <= 64)%nat ->
  runs (_mv_lnk_before b1 b2 b3 from e to s)
    (fun s' => st s' (<[to := set_prev from e t]> (<[prev t := set_nxt (prev_is_eq t) 0 ip]> (<[from := set_nxt e to f]> m))) (n + Nat.b2n b1 + Nat.b2n b2 + Nat.b2n b3) k F).
Proof.
  intros Hst Hf Hk Ht Hp Hpk H1 H2 H3 Hn. unfold _mv_lnk_before. run (unfold _unlnk_before; rat; eapply unlnk_st; [done..|lia]) as s1 Hs1.
  eapply runs_mono; [eapply lnk_st; [exact Hs1|mlook..|done|done|done|done|simpl; lia]|]. intros s2 Hs2.
  replace (<[to := _]> (<[prev t := _]> (<[from := _]> m))) with (<[to := set_prev from e (set_prev 0 true t)]> (<[from := set_nxt e to f]> (<[to := set_prev 0 true t]> (<[prev t := set_nxt (prev_is_eq t) 0 ip]> m)))) by map_ins.
  eapply st_weaken; [exact Hs2|simpl; lia|done].
Qed.

Lemma insert_between_st s m n k F b1 b2 x b d e y ix id iy : st s m n k F -> m !! x = Some ix -> lnk ix b = Some y -> m !! y = Some iy -> m !! d = Some id ->
  prev id = 0 -> prev_is_eq id = true -> lnk id e = Some 0 -> x <> y -> x <> d -> y <> d -> (n + Nat.b2n b1 + Nat.b2n b2 <= 64)%nat ->
  runs (_insert_between b1 b2 x b d e y s) (fun s' =>
    st s' (<[d := set_prev x b (set_nxt e y id)]> (<[x := set_nxt b d ix]> (<[y := set_prev d e iy]> m))) (n + Nat.b2n b1 + Nat.b2n b2) k F).
Proof.
  intros Hst Hx Hk Hy Hd Hp Hpe Hkd H1 H2 H3 Hn. unfold _insert_between. run (eapply unlnk_st; [done..|lia]) as s1 Hs1.
  run (eapply lnk_st; [exact Hs1|mlook|mlook|done|done|done|by eapply lnk_set_nxt|simpl; lia]) as s2 Hs2. eapply runs_mono; [eapply lnk_st; [exact Hs2|mlook|mlook|done|done|done|done|simpl; lia]|].
  intros s3 Hs3. replace (<[d := _]> (<[x := _]> _)) with (<[y := set_prev d e (set_prev 0 true iy)]> (<[d := set_nxt e y (set_prev x b id)]>
    (<[d := set_prev x b id]> (<[x := set_nxt b d (set_nxt b 0 ix)]> (<[y := set_prev 0 true iy]> (<[x := set_nxt b 0 ix]> m)))))) by (rewrite set_nxt_twice; map_ins).
  eapply st_weaken; [exact Hs3|simpl; lia|done].
Qed.

Lemma pop_item_st s m n k F b1 b2 x ix iw : st s m n k F -> m !! x = Some ix -> no_nxt ix = true -> m !! prev ix = Some iw -> lnk iw (prev_is_eq ix) = Some x ->
  prev ix <> x -> x ∉ F -> (n + Nat.b2n b1 + Nat.b2n b2 <= 64)%nat ->
  runs (_pop_item b1 b2 x s) (fun s' => st s' (delete x (<[prev ix := set_nxt (prev_is_eq ix) 0 iw]> m)) (n + Nat.b2n b1 + Nat.b2n b2) k F).
Proof.
  intros Hst Hx Hno Hw Hk H1 HF Hn. unfold _pop_item. rat. apply runs_swear; [done|]. run (unfold _unlnk_before; rat; eapply unlnk_st; [done..|lia]) as s1 Hs1.
  apply runs_ret. replace (delete x _) with (delete x (<[x := set_prev 0 true ix]> (<[prev ix := set_nxt (prev_is_eq ix) 0 iw]> m))) by map_ins.
  eapply schedule_pop_st; [exact Hs1|mlook|done].
Qed.
Lemma erase_prefix_st s m n k F b1 b2 b3 x ix iw y iy : st s m n k F -> m !! x = Some ix -> kind ix = Prefix -> used ix = false -> nxt_eq ix = y -> m !! y = Some iy ->
  m !! prev ix = Some iw -> lnk iw (prev_is_eq ix) = Some x -> prev ix <> x -> x <> y -> prev ix <> y -> x ∉ F -> (n + Nat.b2n b1 + Nat.b2n b2 + Nat.b2n b3 <= 64)%nat ->
  runs (_erase_prefix b1 b2 b3 x s) (fun r => r.2 = prev ix /\
    st r.1 (delete x (<[prev ix := set_nxt (prev_is_eq ix) y iw]> (<[y := set_prev (prev ix) (prev_is_eq ix) iy]> m))) (n + Nat.b2n b1 + Nat.b2n b2 + Nat.b2n b3) k F).
Proof.
  intros Hst Hx Hkx Hu Hn Hy Hw Hk H1 H2 H3 HF Hb. assert (lnk ix true = Some y) as Hlx by (unfold lnk; rewrite Hkx; simpl; congruence).
  unfold _erase_prefix. rat. apply runs_swear; [by rewrite bool_decide_true, Hu|]. eapply runs_eq; [by apply nxt_if_lnk|].
  run (unfold _unlnk_after; rat; eapply runs_eq; [by apply nxt_if_lnk|]; eapply unlnk_st; [done..|lia]) as s1 Hs1.
  run (eapply pop_item_st; [exact Hs1|mlook|unfold no_nxt; simpl; by rewrite Hkx|simpl; mlook|done|done|done|simpl; lia]) as s2 Hs2. simpl in Hs2.
  run (eapply lnk_st; [exact Hs2|mlook|mlook|done|done|done|by eapply lnk_set_nxt|simpl; lia]) as s3 Hs3. apply runs_ret. split; [done|]. simpl.
  match type of Hs3 with st _ ?M _ _ _ => match goal with |- st _ ?M' _ _ _ => replace M' with M by (rewrite set_nxt_twice; map_ins) end end.
  eapply st_weaken; [exact Hs3|simpl; lia|done].
Qed.

(** *** Blocks *)
Context {HL : LayoutOk L}.
(** A new item *)
Definition fresh (k : ItemKind) (u : bool) (c : list Z) (cv cbit : Z) : item :=
  Item.mk 0 true (min_of k u (Z.of_nat (length c))) k u (cbit mod NBits) (length c) (reverse c) (if decide (k = Split) then cv else 0) 0 0 d0.
Lemma fresh_chunk k u c cv cbit : chunk (fresh k u c cv cbit) = c.
Proof. unfold chunk, fresh. simpl. rewrite take_ge by (by rewrite length_reverse). apply reverse_involutive. Qed.

Lemma put_new_st s m n k F i it a : st s m n k F -> blocks s !! i = None -> owned a (<[i := sz it]> (blocks s)) -> (exists j, (k <= j)%nat /\ room j a) ->
  m !! i = None /\ st (put i it (set_al a s)) (<[i := it]> m) n k F.
Proof.
  intros Hst Hi Ho Hr. unfold blocks in Hi. apply lookup_union_None in Hi as [Hi1 Hi2]. rewrite lookup_fmap, fmap_None in Hi2. destruct Hst as [H1 H2 H3 H4 [H5 H5'] [H6 H6'] H7].
  assert (i ∉ _scheduled_pop s) as Hp by (intros Hp; destruct (H5' _ Hp); congruence).
  assert (m !! i = None) as Hn. { destruct (m !! i) as [jt|] eqn:Hj; [|done]. rewrite <- H1 in Hj. apply live_lookup in Hj as [Hj _]. congruence. }
  split; [done|]. split; try done.
  - unfold live, put, set_items. simpl. rewrite map_filter_insert_True by done. f_equal. done.
  - unfold blocks, put, set_items. simpl. rewrite fmap_insert. rewrite <- insert_union_r by done. done.
  - split; [done|]. intros j Hj. simpl. apply lookup_insert_is_Some. destruct (decide (i = j)); auto.
  - intros j o Hj. destruct (H7 _ _ Hj) as (jt & Hjt & Hle). exists jt. rewrite lookup_insert_ne; [done|congruence].
Qed.
Lemma emplace_item_st s m n k F kd u c cv cbit : st s m n (S k) F -> Z.of_nat (length c) <= max_of MaxSz kd u -> (cv = 0 \/ kd = Split) ->
  runs (emplace_item d0 kd u c cv cbit s) (fun r => m !! r.2 = None /\ r.2 <> 0 /\ st r.1 (<[r.2 := fresh kd u c cv cbit]> m) n k F).
Proof.
  intros Hst Hc Hcv. destruct (lo_min kd u (Z.of_nat (length c))) as (Hmin & Hleg & Hle); [lia|]. unfold emplace_item. eapply runs_eq; [done|].
  destruct (lo_max _ kd u Hleg) as (Hmax & _). eapply (runs_eq _ _ _ (fresh kd u c cv cbit)).
  { unfold new. rewrite (proj2 (Z.leb_le 1 _)) by apply Hleg. cbn [swear mbind outcome_mbind]. unfold chk_chunk_sz, max_chunk_sz. simpl. rewrite Hmax. cbn [mbind outcome_mbind].
    rewrite (proj2 (Z.leb_le _ _)) by done. cbn [swear mbind outcome_mbind]. destruct (Z.eqb_spec cv 0); [done|]. by rewrite bool_decide_true by naive_solver. }
  destruct (st_room _ _ _ _ _ Hst) as ([|j] & Hj & Hr); [lia|]. destruct (alloc_ok (al s) (blocks s) j (min_of kd u (Z.of_nat (length c))) ltac:(apply Hst) Hr ltac:(apply Hleg)) as (a & i & -> & Hi & Hi0 & Ho & Hr').
  cbn [mbind outcome_mbind]. apply runs_ret. simpl. destruct (put_new_st s m n k F i (fresh kd u c cv cbit) a) as [Hn Hs]; [eapply st_weaken; [done|lia..]|done|done|exists j; split; [lia|done]|].
  done.
Qed.

(** *** Commit *)
Lemma pop_all_ok l s k X : owned (al s) (X ∪ (sz <$> items s)) -> room k (al s) -> NoDup l -> (forall i, i ∈ l -> X !! i = None /\ is_Some (items s !! i)) ->
  runs (pop_all l s) (fun s' => items s' = filter (fun p => p.1 ∉ l) (items s) /\ owned (al s') (X ∪ (sz <$> items s')) /\ room k (al s') /\
    save s' = save s /\ _scheduled_shorten s' = _scheduled_shorten s /\ _scheduled_pop s' = _scheduled_pop s).
Proof.
  revert s. induction l as [|i l IH]; intros s Ho Hr Hnd Hl; cbn [pop_all].
  - apply runs_ret. split_and!; try done. symmetry. apply map_filter_id. set_solver.
  - apply NoDup_cons in Hnd as [Hil Hnd]. destruct (Hl i ltac:(left)) as [HX [it Hi]]. unfold _at. rewrite Hi. cbn [mbind outcome_mbind].
    destruct (free_ok (al s) _ k i (sz it) Ho Hr) as (a & -> & Ho' & Hr'). { rewrite lookup_union, HX, lookup_fmap, Hi. done. }
    cbn [mbind outcome_mbind]. eapply runs_mono; [apply IH; simpl; [|done|done|]|].
    + rewrite fmap_delete. by rewrite delete_union, (delete_id X) in Ho'.
    + intros j Hj. destruct (Hl j ltac:(by right)) as [? ?]. split; [done|]. rewrite lookup_delete_ne; [done|]. by intros ->.
    + simpl. intros s' (Hi' & Ho2 & Hr2 & ? & ? & ?). split_and!; try done. rewrite Hi'. apply map_eq. intros j. apply option_eq. intros jt.
      rewrite !map_lookup_filter_Some, lookup_delete_Some. set_solver.
Qed.
Lemma shorten_all_ok l s k : owned (al s) (list_to_map l ∪ (sz <$> items s)) -> room k (al s) -> NoDup l.*1 ->
  (forall i o, (i, o) ∈ l -> exists it, items s !! i = Some it /\ 1 <= sz it <= o) ->
  runs (shorten_all l s) (fun s' => items s' = items s /\ save s' = save s /\ owned (al s') (sz <$> items s') /\ room k (al s')).
Proof.
  revert s. induction l as [|[i o] l IH]; intros s Ho Hr Hnd Hl; cbn [shorten_all].
  - apply runs_ret. simpl in Ho. rewrite (left_id_L ∅ (∪)) in Ho. done.
  - apply NoDup_cons in Hnd as [Hil Hnd]. destruct (Hl i o ltac:(left)) as (it & Hi & Hle). unfold _at. rewrite Hi. cbn [mbind outcome_mbind].
    destruct (shorten_ok (al s) _ k i o (sz it) Ho Hr) as (a & -> & Ho' & Hr'); [|done|].
    { simpl. rewrite lookup_union, lookup_insert_eq. by destruct ((sz <$> items s) !! i). }
    cbn [mbind outcome_mbind]. eapply runs_mono; [apply (IH (set_al a s)); simpl; [|done|done|]|].
    + replace (list_to_map l ∪ _) with (<[i := sz it]> (list_to_map ((i, o) :: l) ∪ (sz <$> items s))); [done|]. simpl. apply map_eq. intros j.
      rewrite lookup_insert. case_decide; subst; [rewrite lookup_union, not_elem_of_list_to_map_1, lookup_fmap, Hi by done; done|].
      rewrite !lookup_union, lookup_insert_ne by done. done.
    + intros j oj Hj. apply Hl. by right.
    + simpl. naive_solver.
Qed.
Lemma commit_st s m n k F : st s m n k F -> runs (_commit s) (fun s' => items s' = m /\ clean s' k).
Proof.
  intros [H1 H2 H3 (j & Hj & Hr) [H5 H5'] [H6 H6'] H7]. unfold _commit. assert (forall i o, (i, o) ∈ _scheduled_shorten s -> i ∉ _scheduled_pop s) as Hdj.
  { intros i o Hi. destruct (H7 _ _ Hi) as (it & Him & _). rewrite <- H1 in Him. apply live_lookup in Him as [_ ?]. done. }
  run (eapply (pop_all_ok _ _ _ (list_to_map (_scheduled_shorten s))); simpl; [exact H3|exact Hr|done|]) as s1 (Hi1 & Ho1 & Hr1 & Hs1 & Hsh1 & _).
  { intros i Hi. split; [|by apply H5']. apply not_elem_of_list_to_map_1. intros (p & -> & Hp)%list_elem_of_fmap. destruct p as [i o]. by eapply Hdj. }
  simpl in *. fold (live s) in Hi1. rewrite H1 in Hi1. rewrite Hsh1.
  run (eapply (shorten_all_ok _ _ j); [done|done|by rewrite H6|intros i o Hi; rewrite Hi1; by apply H7]) as s2 (Hi2 & Hs2 & Ho2 & Hr2). apply runs_ret. simpl.
  split; [congruence|]. split; simpl; try done; [congruence|by exists j].
Qed.
End run.

(** [rat]: the next step reads an item. *)
Ltac rat := eapply runs_at; [eassumption..|].
