(* ===== verification/PrefixTree.v ===== *)
(** * Changes of a prefix tree that keep its names.

    The updates of src/store/prefix.hh move characters between items, merge and split items: each such
    change keeps the invariant, and the names of the items that are used, split or roots. *)
From S2P Require Import Prelude.
From S2P Require Import PrefixItem.
From S2P Require Import PrefixGraph.
From S2P Require Import PrefixFile.
From S2P Require Import PrefixInv.
From S2P Require Import PrefixRun.
Local Open Scope Z_scope.
Import Item.

Section tree.
Context {L : Layout} {HL : LayoutOk L} {D : Type}.
Abbreviation item := (Item.t D).
Implicit Types (m : gmap Z item) (it ix iy iz iw id : item).

(** ** Characters *)
Lemma prepend_chunk from it : (chunk_sz from <= length (chars from))%nat -> (chunk_sz it <= length (chars it))%nat -> chunk (prepend_from from 0 it) = chunk from ++ chunk it.
Proof.
  intros Hf Hi. unfold chunk at 1. simpl. rewrite Nat.sub_0_r. unfold drop at 1. rewrite app_assoc, take_app_le, take_ge by (rewrite length_app, length_take, length_reverse, chunk_length by done; lia).
  by rewrite reverse_app, reverse_involutive.
Qed.
Lemma append_chunk from n it : (n <= length (chunk from))%nat -> (chunk_sz it <= length (chars it))%nat -> chunk (append_from from n it) = chunk it ++ take n (chunk from).
Proof.
  intros Hf Hi. unfold chunk at 1. simpl. rewrite app_assoc, take_app_le, take_ge by (rewrite length_app, length_reverse, !length_take; lia).
  by rewrite reverse_app, reverse_involutive.
Qed.
Definition shortened (n : nat) it : item := set_chunk (chunk_sz it - n) (chars it) it.
Lemma shorten_by_ok n it : (n <= chunk_sz it)%nat -> shorten_by n it = Ret (shortened n it).
Proof. intros. unfold shorten_by. by rewrite (proj2 (Nat.leb_le _ _)). Qed.
Lemma shortened_chunk n it : (chunk_sz it <= length (chars it))%nat -> chunk (shortened n it) = drop n (chunk it).
Proof.
  intros Hi. unfold chunk, shortened. simpl. rewrite <- (take_drop (chunk_sz it - n) (take (chunk_sz it) (chars it))).
  rewrite take_take, Nat.min_l, reverse_app by lia. destruct (decide (n <= chunk_sz it)%nat) as [Hn|Hn].
  - rewrite drop_app_length'; [done|]. rewrite length_reverse, length_drop, length_take. lia.
  - replace (chunk_sz it - n)%nat with 0%nat by lia. simpl. rewrite app_nil_r. symmetry. apply drop_ge. rewrite length_reverse, ?length_drop, length_take. lia.
Qed.

(** ** Local conditions *)
Lemma loc_set_nxt root e v it : loc root it -> loc root (set_nxt e v it).
Proof. by intros []; split. Qed.
Lemma loc_set_prev root p e it : loc root it -> loc root (set_prev p e it).
Proof. by intros []; split. Qed.
Lemma loc_shortened root n it : loc root it -> (root = false -> (n < chunk_sz it)%nat) -> loc root (shortened n it).
Proof.
  intros [H1 H2 H3 H4 H5 H6 H7] Hn. split; simpl; try done; [lia|lia| | |].
  - rewrite shortened_chunk by done. by apply Forall_drop.
  - intros ->. destruct (H6 eq_refl) as [-> ?]. done.
  - intros ->. destruct (H7 eq_refl) as [? _]. split; [done|]. specialize (Hn eq_refl). lia.
Qed.
Lemma loc_prepend from it : loc false from -> loc false it -> Z.of_nat (chunk_sz from + chunk_sz it) <= max_of (sz it) (kind it) (used it) -> loc false (prepend_from from 0 it).
Proof.
  intros Hf [H1 H2 H3 H4 H5 H6 H7] Hle. split; simpl; try done.
  - rewrite Nat.sub_0_r. lia.
  - rewrite !length_app, length_take, length_reverse, length_drop, length_drop, (loc_length _ _ Hf). lia.
  - rewrite prepend_chunk by (done || apply Hf). apply Forall_app. split; [apply Hf|done].
  - intros _. destruct (H7 eq_refl) as [? Hne]. split; [done|]. intros Hk. specialize (Hne Hk). lia.
Qed.
Lemma loc_append from n it root : loc root from -> loc false it -> (n <= chunk_sz from)%nat -> Z.of_nat (chunk_sz it + n) <= max_of (sz it) (kind it) (used it) -> loc false (append_from from n it).
Proof.
  intros Hf [H1 H2 H3 H4 H5 H6 H7] Hn Hle. pose proof (loc_length _ _ Hf). split; simpl; try done.
  - rewrite !length_app, length_reverse, !length_take, length_drop. lia.
  - rewrite append_chunk by (done || lia). apply Forall_app. split; [done|]. apply Forall_take, Hf.
  - intros _. destruct (H7 eq_refl) as [? Hne]. split; [done|]. intros Hk. specialize (Hne Hk). lia.
Qed.
Lemma loc_set_sz root z it : loc root it -> legit z (used it) -> (root = true -> legit z true) -> Z.of_nat (chunk_sz it) <= max_of z (kind it) (used it) -> loc root (set_sz z it).
Proof. intros [H1 H2 H3 H4 H5 H6 H7] Hz Hzr Hle. split; simpl; try done. intros Hr. split; [by apply H6|by apply Hzr]. Qed.

(** ** Invariant *)
Definition psame it it' : Prop := kind it' = kind it /\ cmp_bit it' = cmp_bit it /\ cmp_val it' = cmp_val it.
Lemma split_ok_parent ix ix' b iy : psame ix ix' -> PrefixFile.split_ok ix' b iy = PrefixFile.split_ok ix b iy.
Proof. unfold PrefixFile.split_ok. by intros (_ & -> & ->). Qed.
Lemma split_ok_head ix b iy iy' c l l' : loc false iy -> loc false iy' -> chunk iy = c :: l -> chunk iy' = c :: l' -> PrefixFile.split_ok ix b iy = true -> PrefixFile.split_ok ix b iy' = true.
Proof.
  intros Hl Hl' Hc Hc'. rewrite !split_ok_fit. destruct (first_char_chunk _ _ _ Hc Hl) as [-> ->]. destruct (first_char_chunk _ _ _ Hc' Hl') as [-> ->]. naive_solver.
Qed.
Lemma nonempty_head root it : loc root it -> (0 < chunk_sz it)%nat -> exists c l, chunk it = c :: l.
Proof. intros Hl Hc. pose proof (loc_length _ _ Hl) as Hn. destruct (chunk it) as [|c l]; [simpl in Hn; lia|eauto]. Qed.

Lemma inv_intro h br m : linked h m -> (forall i it, m !! i = Some it -> loc (is_root br i it) it) ->
  (forall y iy ix, m !! y = Some iy -> prev iy <> 0 -> m !! prev iy = Some ix -> kind ix = Split -> PrefixFile.split_ok ix (prev_is_eq iy) iy = true) ->
  (br <> 0 -> exists it, m !! br = Some it /\ prev it = 0) -> inv h br m.
Proof.
  intros Hl Hloc Hs Hbr. split; try done. intros x b y ix iy He Hx Hy Hk. pose proof (lk_down _ _ Hl _ _ _ He ltac:(by eapply lk_nz)) as Hu. rewrite (U_lookup _ _ _ Hy) in Hu.
  unfold bk in Hu. injection Hu as Hp Hpe. rewrite <- Hpe. apply (Hs y iy ix); [done| |by rewrite Hp|done]. rewrite Hp. by eapply lk_nz.
Qed.
Lemma inv_edge h br m y iy ix : inv h br m -> m !! y = Some iy -> prev iy <> 0 -> m !! prev iy = Some ix -> kind ix = Split -> PrefixFile.split_ok ix (prev_is_eq iy) iy = true.
Proof. intros I Hy Hp Hx Hk. destruct (inv_parent _ _ _ I _ _ Hy Hp) as (ix' & Hx' & He). simplify_eq. by eapply (i_split _ _ _ I). Qed.
Lemma walk_pred h br m r x p key ix : inv h br m -> walk m r x p key -> m !! x = Some ix -> prev ix <> 0 ->
  exists q key0, p = q ++ [x] /\ walk m r (prev ix) q key0 /\ (x ∉ q) /\ key = key0 ++ chunk ix.
Proof.
  intros I Hw Hx Hp. pose proof (walk_nodup _ _ (i_linked _ _ _ I) _ _ _ _ Hw) as Hnd. destruct Hw as [it Hr Hpr|v b w it q k Hq Ev Hw]; [congruence|].
  rewrite Hx in Hw. injection Hw as <-. destruct (inv_child _ _ _ I _ _ _ _ Ev Hx) as (-> & _). exists q, k. split_and!; try done.
  apply NoDup_app in Hnd as (_ & Hnd & _). intros Hin. by apply (Hnd w Hin), list_elem_of_singleton.
Qed.
Lemma is_root_set br i p e it : p <> 0 -> is_root br i (set_prev p e it) = false.
Proof. intros Hp. unfold is_root. apply bool_decide_false. simpl. naive_solver. Qed.

(** ** Names

    Items that are used, split or roots stay; those of [T] too. *)
Definition stays it : Prop := kind it <> Prefix \/ used it = true \/ prev it = 0.
Definition attrs it := (kind it, used it, cmp_bit it, cmp_val it, data it).
Definition stay (T : list Z) m (z : Z) : Prop := z ∈ T \/ exists it, m !! z = Some it /\ stays it.
Record ev (T : list Z) m m' : Prop := {
  ev_keep : keep (stay T m) m m';
  ev_item z iz : m !! z = Some iz -> stay T m z -> exists iz', m' !! z = Some iz' /\ attrs iz' = attrs iz /\ (prev iz = 0 <-> prev iz' = 0);
  ev_back z iz' : m' !! z = Some iz' -> used iz' = true \/ prev iz' = 0 -> exists iz, m !! z = Some iz /\ used iz = used iz' /\ (prev iz = 0 <-> prev iz' = 0);
}.
Lemma attrs_eq it it' : attrs it' = attrs it -> kind it' = kind it /\ used it' = used it /\ cmp_bit it' = cmp_bit it /\ cmp_val it' = cmp_val it /\ data it' = data it.
Proof. unfold attrs. naive_solver. Qed.
Lemma ev_stay T m m' z : ev T m m' -> is_Some (m !! z) -> stay T m z -> stay T m' z.
Proof.
  intros He [iz Hz] Hs. destruct (ev_item _ _ _ He _ _ Hz Hs) as (iz' & Hz' & (Hk & Hu & _)%attrs_eq & Hp). destruct Hs as [?|(it & Hit & Hs)]; [by left|].
  right. exists iz'. split; [done|]. simplify_eq. unfold stays in *. rewrite Hk, Hu. tauto.
Qed.
Lemma ev_refl T m : ev T m m.
Proof. split; [intros r y p k Hw _; eauto|eauto|eauto]. Qed.
Lemma ev_trans T m m' m'' : ev T m m' -> ev T m' m'' -> ev T m m''.
Proof.
  intros H1 H2. split.
  - intros r y p k Hw Hs. destruct (ev_keep _ _ _ H1 _ _ _ _ Hw Hs) as (p' & Hw'). eapply (ev_keep _ _ _ H2); [done|]. eapply ev_stay; [done| |done]. by eapply walk_in.
  - intros z iz Hz Hs. destruct (ev_item _ _ _ H1 _ _ Hz Hs) as (iz' & Hz' & Ha & Hp). destruct (ev_item _ _ _ H2 _ _ Hz' ltac:(by eapply ev_stay)) as (iz2 & Hz2 & Ha2 & Hp2).
    exists iz2. split_and!; [done|congruence|tauto].
  - intros z iz2 Hz2 Hu2. destruct (ev_back _ _ _ H2 _ _ Hz2 Hu2) as (iz' & Hz' & Hu' & Hp'). destruct (ev_back _ _ _ H1 z iz' Hz') as (iz & Hz & Hu & Hp); [rewrite Hu'; tauto|].
    exists iz. split_and!; [done|congruence|tauto].
Qed.
Lemma ev_weaken T T' m m' : T' ⊆ T -> ev T m m' -> ev T' m m'.
Proof.
  intros HT He. assert (forall z, stay T' m z -> stay T m z) as Hs by (intros z [?|?]; [left; set_solver|by right]).
  split; [eapply keep_weaken; [exact Hs|apply He]| |apply He]. intros z iz Hz Hsz. by eapply (ev_item _ _ _ He); [|apply Hs].
Qed.
Lemma ev_has h h' T m m' r k i d : linked h m -> linked h' m' -> ev T m m' -> has m r k i d <-> has m' r k i d.
Proof.
  intros Hl Hl' He. split.
  - intros (p & it & Hw & Hi & Hu & Hd). assert (stay T m i) as Hs by (right; exists it; split; [done|right; by left]).
    destruct (ev_keep _ _ _ He _ _ _ _ Hw Hs) as (p' & Hw'). destruct (ev_item _ _ _ He _ _ Hi Hs) as (it' & Hi' & (_ & Hu' & _ & _ & Hd')%attrs_eq & _).
    exists p', it'. split_and!; [done..|congruence|congruence].
  - intros (p & it' & Hw & Hi' & Hu & Hd). destruct (ev_back _ _ _ He _ _ Hi' ltac:(by left)) as (it & Hi & Hui & _). rewrite Hu in Hui.
    assert (stay T m i) as Hs by (right; exists it; split; [done|right; by left]). destruct (lk_reach _ _ Hl _ _ Hi) as (r0 & p0 & k0 & Hw0).
    destruct (ev_keep _ _ _ He _ _ _ _ Hw0 Hs) as (p' & Hw'). destruct (walk_unique _ _ Hl' _ _ _ _ _ _ _ Hw Hw') as (-> & _ & ->).
    destruct (ev_item _ _ _ He _ _ Hi Hs) as (it2 & Hi2 & (_ & _ & _ & _ & Hd')%attrs_eq & _). simplify_eq. exists p0, it. split_and!; congruence.
Qed.
Definition root m (r : Z) : Prop := exists it, m !! r = Some it /\ prev it = 0.
Lemma ev_root T m m' r : ev T m m' -> root m r <-> root m' r.
Proof.
  intros He. split.
  - intros (it & Hr & Hp). destruct (ev_item _ _ _ He _ _ Hr) as (it' & Hr' & _ & Hp'); [right; exists it; split; [done|right; by right]|]. exists it'. tauto.
  - intros (it' & Hr & Hp). destruct (ev_back _ _ _ He _ _ Hr ltac:(by right)) as (it & Hr' & _ & Hp'). exists it. tauto.
Qed.

(** The same names, and one more name. Roots keep their characters. *)
Definition rootkeep m m' : Prop := forall r p k, walk m r r p k -> exists p', walk m' r r p' k.
Record same m m' : Prop := {
  same_has r k i d : has m' r k i d <-> has m r k i d;
  same_root r : root m' r <-> root m r;
  same_keep : rootkeep m m';
}.
Record gains m m' (r : Z) (key : list Z) (i : Z) (d : D) : Prop := {
  gains_has r' k j e : has m' r' k j e <-> has m r' k j e \/ r' = r /\ k = key /\ j = i /\ e = d;
  gains_root r' : root m' r' <-> root m r';
  gains_keep : rootkeep m m';
}.
Lemma rootkeep_trans m m' m'' : rootkeep m m' -> rootkeep m' m'' -> rootkeep m m''.
Proof. intros H1 H2 r p k Hw. destruct (H1 _ _ _ Hw) as (p' & Hw'). by eapply H2. Qed.
Lemma walk_from m r y p k : walk m r y p k -> root m r.
Proof. induction 1; [by eexists|done]. Qed.
Lemma walk_self h m r p k : linked h m -> walk m r r p k -> exists it, m !! r = Some it /\ prev it = 0 /\ p = [r] /\ k = chunk it.
Proof.
  intros Hl Hw. destruct (walk_from _ _ _ _ _ Hw) as (it & Hr & Hp).
  destruct (walk_unique _ _ Hl _ _ _ _ _ _ _ Hw (walk_root m r it Hr Hp)) as (_ & -> & ->). eauto.
Qed.
Lemma ev_same h h' T m m' : linked h m -> linked h' m' -> ev T m m' -> same m m'.
Proof.
  intros Hl Hl' He. split; intros; [symmetry; by eapply ev_has|symmetry; by eapply ev_root|]. intros r p k Hw. destruct (walk_self _ _ _ _ _ Hl Hw) as (it & Hr & Hp & _).
  eapply (ev_keep _ _ _ He); [exact Hw|]. right. exists it. split; [done|right; by right].
Qed.
Lemma same_trans m m' m'' : same m m' -> same m' m'' -> same m m''.
Proof. intros [H1 H2 H5] [H3 H4 H6]. split; intros; [by rewrite H3|by rewrite H4|by eapply rootkeep_trans]. Qed.
Lemma same_gains m m' m'' r key i d : same m m' -> gains m' m'' r key i d -> gains m m'' r key i d.
Proof. intros [H1 H2 H5] [H3 H4 H6]. split; intros; [by rewrite H3, H1|by rewrite H4|by eapply rootkeep_trans]. Qed.
Lemma gains_same m m' m'' r key i d : gains m m' r key i d -> same m' m'' -> gains m m'' r key i d.
Proof. intros [H1 H2 H5] [H3 H4 H6]. split; intros; [by rewrite H3, H1|by rewrite H4|by eapply rootkeep_trans]. Qed.
(** Changes that keep all names and what is used *)
Lemma keep_all_same h h' m m' : linked h m -> linked h' m' -> keep (fun _ => True) m m' ->
  (forall z iz, m !! z = Some iz -> exists iz', m' !! z = Some iz' /\ used iz' = used iz /\ data iz' = data iz /\ (prev iz = 0 <-> prev iz' = 0)) ->
  (forall z iz', m' !! z = Some iz' -> used iz' = true \/ prev iz' = 0 -> is_Some (m !! z)) -> same m m'.
Proof.
  intros Hl Hl' Hk Hf Hb. assert (forall z iz', m' !! z = Some iz' -> used iz' = true \/ prev iz' = 0 -> exists iz, m !! z = Some iz /\ used iz' = used iz /\ data iz' = data iz /\ (prev iz = 0 <-> prev iz' = 0)) as Hb'.
  { intros z iz' Hz Hor. destruct (Hb _ _ Hz Hor) as [iz Hz0]. destruct (Hf _ _ Hz0) as (iz2 & Hz2 & ?). rewrite Hz in Hz2. injection Hz2 as <-. eauto. }
  split.
  - intros r k i d. split.
    + intros (p & it & Hw & Hi & Hu & Hd). destruct (Hb' _ _ Hi ltac:(by left)) as (it0 & Hi0 & Hu0 & Hd0 & _). destruct (lk_reach _ _ Hl _ _ Hi0) as (r0 & p0 & k0 & Hw0).
      destruct (Hk _ _ _ _ Hw0 Logic.I) as (p1 & Hw1). destruct (walk_unique _ _ Hl' _ _ _ _ _ _ _ Hw Hw1) as (-> & _ & ->). exists p0, it0. split_and!; congruence.
    + intros (p & it & Hw & Hi & Hu & Hd). destruct (Hk _ _ _ _ Hw Logic.I) as (p1 & Hw1). destruct (Hf _ _ Hi) as (it' & Hi' & Hu' & Hd' & _). exists p1, it'. split_and!; congruence.
  - intros r. split.
    + intros (it & Hr & Hp). destruct (Hb' _ _ Hr ltac:(by right)) as (it0 & Hr0 & _ & _ & Hp0). exists it0. tauto.
    + intros (it & Hr & Hp). destruct (Hf _ _ Hr) as (it' & Hr' & _ & _ & Hp'). exists it'. tauto.
  - intros r p k Hw. by eapply Hk.
Qed.

(** ** Merging an unused prefix item with the next one *)
Lemma next_item h br m x ix b y : inv h br m -> m !! x = Some ix -> lnk ix b = Some y -> h <> Some (x, b) ->
  exists iy, m !! y = Some iy /\ E m x b = Some y /\ prev iy = x /\ prev_is_eq iy = b /\ loc false iy /\ x <> y.
Proof.
  intros I Hx Hk Hh. pose proof (i_linked _ _ _ I) as Hl. assert (E m x b = Some y) as He by (by rewrite (E_lookup _ _ _ _ Hx)).
  assert (y <> 0) as Hy0. { intros ->. apply (lk_hole _ _ Hl) in He. done. }
  pose proof (lk_down _ _ Hl _ _ _ He Hy0) as Hu. apply U_some in Hu as (iy & Hy & Hp & Hpe). exists iy. destruct (inv_child _ _ _ I _ _ _ _ He Hy) as (_ & _ & _ & Hly).
  split_and!; try done. by eapply E_irrefl.
Qed.
Lemma lnk_prefix it : kind it = Prefix -> lnk it true = Some (nxt_eq it) /\ lnk it false = None.
Proof. unfold lnk. by intros ->. Qed.

Definition merged m (x y : Z) ix iw iy : gmap Z item :=
  delete x (<[prev ix := set_nxt (prev_is_eq ix) y iw]> (<[y := set_prev (prev ix) (prev_is_eq ix) (prepend_from ix 0 iy)]> m)).
Section merge.
Context (h : option (Z * bool)) (br : Z) m (x y : Z) ix iw iy.
Context (I : inv h br m) (Hx : m !! x = Some ix) (Hk : kind ix = Prefix) (Hu : used ix = false) (Hp : prev ix <> 0) (Hh : h <> Some (x, true)).
Context (Hn : nxt_eq ix = y) (Hy : m !! y = Some iy) (Hw : m !! prev ix = Some iw).
Context (Hfit : Z.of_nat (chunk_sz ix + chunk_sz iy) <= max_of (sz iy) (kind iy) (used iy)).
Abbreviation m' := (merged m x y ix iw iy).

Lemma merge_links : E m (prev ix) (prev_is_eq ix) = Some x /\ E m x true = Some y /\ E m x false = None /\ loc false ix /\ loc false iy /\ prev iy = x /\ prev_is_eq iy = true.
Proof.
  destruct (inv_parent _ _ _ I _ _ Hx Hp) as (iw' & Hw' & He). destruct (lnk_prefix _ Hk) as [Ht Hf]. rewrite Hn in Ht. destruct (next_item _ _ _ _ _ _ _ I Hx Ht Hh) as (iy' & Hy' & He' & Hpy & Hpe & Hly & _).
  simplify_eq. split_and!; try done; [by rewrite (E_lookup _ _ _ _ Hx)|by eapply inv_nonroot].
Qed.
Lemma merge_ne : prev ix <> x /\ x <> y /\ prev ix <> y /\ prev ix <> 0 /\ x <> 0 /\ y <> 0.
Proof. destruct merge_links as (H1 & H2 & H3 & _). eapply del_ne; try done. apply I. Qed.
Lemma merge_chunk : chunk (prepend_from ix 0 iy) = chunk ix ++ chunk iy.
Proof. destruct merge_links as (_ & _ & _ & Hlx & Hly & _). apply prepend_chunk; [apply Hlx|apply Hly]. Qed.
Lemma merge_linked : linked h m' /\ keep (fun z => z <> x) m m'.
Proof.
  destruct merge_links as (H1 & H2 & H3 & _). pose proof (i_linked _ _ _ I) as Hl. assert (lnk iw (prev_is_eq ix) = Some x) as Hk' by (by rewrite <- (E_lookup _ _ _ _ Hw)).
  split; [eapply linked_del|eapply keep_del]; try done; first [by eapply lnk_set_nxt | apply lnk_set_other | apply merge_chunk].
Qed.
Lemma merged_lookup z iz' : m' !! z = Some iz' -> z <> x /\ (z = y /\ iz' = set_prev (prev ix) (prev_is_eq ix) (prepend_from ix 0 iy) \/ z = prev ix /\ iz' = set_nxt (prev_is_eq ix) y iw \/
  z <> y /\ z <> prev ix /\ m !! z = Some iz').
Proof.
  destruct merge_ne as (H1 & H2 & H3 & _). unfold merged. rewrite lookup_delete_Some, !lookup_insert_Some. naive_solver.
Qed.
Lemma merge_old z iz' : m' !! z = Some iz' -> exists iz, m !! z = Some iz /\ attrs iz' = attrs iz /\ (z <> y -> bk iz' = bk iz /\ chunk iz' = chunk iz /\ chunk_sz iz' = chunk_sz iz) /\ (prev iz = 0 <-> prev iz' = 0) /\ sz iz' = sz iz.
Proof.
  intros Hz. destruct merge_ne as (H1 & H2 & H3 & H4 & H5 & H6). destruct merge_links as (_ & _ & _ & _ & _ & Hpy & _).
  apply merged_lookup in Hz as [Hzx [[-> ->]|[[-> ->]|(_ & _ & Hz)]]]; [exists iy|exists iw|exists iz']; split_and!; try done. simpl. rewrite Hpy. naive_solver.
Qed.
Lemma merge_inv : inv h br m'.
Proof.
  destruct merge_ne as (H1 & H2 & H3 & H4 & H5 & H6). destruct merge_links as (_ & _ & _ & Hlx & Hly & Hpy & Hpe). apply inv_intro; [apply merge_linked|..].
  - intros i it Hi. apply merged_lookup in Hi as [Hix [[-> ->]|[[-> ->]|(_ & _ & Hi)]]]; [|apply loc_set_nxt; apply (i_loc _ _ _ I _ _ Hw)|by apply (i_loc _ _ _ I)].
    rewrite is_root_set by done. by apply loc_set_prev, loc_prepend.
  - intros z iz iv Hz Hpz Hv Hkv. destruct (merge_old _ _ Hv) as (iv0 & Hv0 & (Hkv0 & _ & Hb0 & Hc0 & _)%attrs_eq & _). rewrite (split_ok_parent iv0) by done.
    destruct (decide (z = y)) as [->|Hzy].
    + apply merged_lookup in Hz as [_ [[_ ->]|[[? _]|(? & _)]]]; [|done|done]. simpl in *. rewrite Hw in Hv0. injection Hv0 as <-.
      destruct (l_item _ _ Hlx eq_refl) as [_ Hne]. destruct (nonempty_head _ ix Hlx) as (c & l & Hc); [apply Hne; left; congruence|].
      eapply (split_ok_head iw _ ix _ c l (l ++ chunk iy)); try done; [by apply loc_set_prev, loc_prepend|change (chunk (prepend_from ix 0 iy) = c :: l ++ chunk iy); by rewrite merge_chunk, Hc|].
      eapply inv_edge; try done. congruence.
    + destruct (merge_old _ _ Hz) as (iz0 & Hz0 & _ & Hbk & _). apply merged_lookup in Hz as [_ [[? _]|[[-> ->]|(_ & _ & Hz)]]]; [done|..].
      * apply (inv_edge _ _ _ _ _ _ I Hw); [done|done|congruence].
      * apply (inv_edge _ _ _ _ _ _ I Hz); [done|done|congruence].
  - intros Hb. destruct (i_br _ _ _ I Hb) as (it & Hit & Hpit). assert (br <> x) as Hbx by congruence. assert (br <> y) as Hby by congruence.
    unfold merged. rewrite lookup_delete_ne by done. destruct (decide (prev ix = br)) as [<-|].
    + rewrite lookup_insert_eq. exists (set_nxt (prev_is_eq ix) y iw). split; [done|]. simpl. congruence.
    + rewrite !lookup_insert_ne by done. eauto.
Qed.
Lemma merge_ev T : x ∉ T -> ev T m m'.
Proof.
  intros HT. assert (forall z, stay T m z -> z <> x) as Hne. { intros z [?|(it & Hz & Hs)] ->; [done|]. simplify_eq. unfold stays in Hs. rewrite Hk, Hu in Hs. naive_solver. }
  destruct merge_ne as (H1 & H2 & H3 & _). split.
  - eapply keep_weaken; [exact Hne|apply merge_linked].
  - intros z iz Hz Hs. assert (is_Some (m' !! z)) as [iz' Hz'].
    { unfold merged. rewrite lookup_delete_ne by (intros ->; by eapply Hne). rewrite !lookup_insert_is_Some. destruct (decide (prev ix = z)), (decide (y = z)); eauto 10. }
    destruct (merge_old _ _ Hz') as (iz0 & Hz0 & Ha & _ & Hp0 & _). rewrite Hz in Hz0. injection Hz0 as <-. eauto.
  - intros z iz' Hz' _. destruct (merge_old _ _ Hz') as (iz0 & Hz0 & (_ & Hu0 & _)%attrs_eq & _ & Hp0 & _). eauto.
Qed.
(** The paths that do not go through the merged item are the same. *)
Lemma merge_path r z p k : walk m r z p k -> x ∉ p -> walk m' r z p k.
Proof.
  destruct merge_ne as (H1 & H2 & H3 & H4 & H5 & H6). destruct merge_links as (Hwx & Hxy & _ & _ & _ & Hpy & _). pose proof (i_linked _ _ _ I) as Hl.
  assert (forall z iz, m !! z = Some iz -> z <> x -> z <> y -> exists iz', m' !! z = Some iz' /\ chunk iz' = chunk iz /\ prev iz' = prev iz) as Hz.
  { intros z0 iz Hz Hzx Hzy. unfold merged. rewrite lookup_delete_ne by done. destruct (decide (prev ix = z0)) as [<-|]; [|rewrite !lookup_insert_ne by done; eauto].
    rewrite lookup_insert_eq. simplify_eq. eexists. split; [done|]. done. }
  induction 1 as [it Hr Hpr|v b w it p k H IH Hv Hw']; intros Hnot.
  - assert (r <> x) by set_solver. destruct (Hz r it) as (it' & Hr' & <- & ?); [done|done|congruence|]. apply walk_root; [done|congruence].
  - assert (w <> x) by set_solver. assert (v <> x) as Hvx by (apply walk_in in H as (_ & q & ->); set_solver). assert (w <> y) as Hwy.
    { intros ->. by destruct (E_inj _ _ Hl _ _ _ _ _ Hxy Hv H6). }
    destruct (Hz w it) as (it' & Hw2 & <- & _); [done..|]. eapply (walk_step _ _ v b); [apply IH; set_solver| |exact Hw2].
    unfold E, merged. rewrite lookup_delete_ne by done. unfold E in Hv. destruct (decide (prev ix = v)) as [<-|]; [|destruct (decide (y = v)) as [<-|]].
    + rewrite lookup_insert_eq. rewrite Hw in Hv. simpl in *. assert (b <> prev_is_eq ix) as Hb. { intros ->. unfold E in Hwx. rewrite Hw in Hwx. simpl in Hwx. congruence. }
      replace b with (negb (prev_is_eq ix)) in * by (by destruct b, (prev_is_eq ix)). by rewrite lnk_set_other.
    + rewrite lookup_insert_ne, lookup_insert_eq by done. rewrite Hy in Hv. change (lnk iy b = Some w). exact Hv.
    + by rewrite !lookup_insert_ne by done.
Qed.
End merge.

(** ** Putting an item before another one, whose first characters it takes *)
Definition inserted m (x y d : Z) (n : nat) ix iy id : gmap Z item :=
  <[d := set_prev x (prev_is_eq iy) (set_nxt true y id)]> (<[x := set_nxt (prev_is_eq iy) d ix]> (<[y := set_prev d true (shortened n iy)]> m)).
Section put.
Context (h : option (Z * bool)) (br : Z) m (x y d : Z) (n : nat) ix iy id.
Context (I : inv h br m) (Hy : m !! y = Some iy) (Hp : prev iy = x) (Hp0 : x <> 0) (Hx : m !! x = Some ix) (Hd : m !! d = None) (Hd0 : d <> 0).
Context (Hn : (n < chunk_sz iy)%nat) (Hc : chunk id = take n (chunk iy)) (Hid : loc false id) (Hk : kind id <> Terminal).
Context (Hs : kind id = Split -> h = None /\ nxt_neq id = 0 /\ PrefixFile.split_ok id true (shortened n iy) = true /\ (n = 0%nat -> kind ix = Split -> PrefixFile.split_ok ix (prev_is_eq iy) id = true)).
Abbreviation m' := (inserted m x y d n ix iy id).
Definition put_hole : option (Z * bool) := if decide (kind id = Split) then Some (d, false) else h.

Lemma put_link : E m x (prev_is_eq iy) = Some y /\ lnk ix (prev_is_eq iy) = Some y /\ loc false iy.
Proof.
  destruct (inv_parent _ _ _ I _ _ Hy ltac:(congruence)) as (ix' & Hx' & He). rewrite Hp in *. split_and!; [done|by rewrite <- (E_lookup _ _ _ _ Hx)|].
  eapply inv_nonroot; [done..|congruence].
Qed.
Lemma put_ne : x <> y /\ x <> d /\ y <> d /\ y <> 0.
Proof. destruct put_link as (He & _). assert (y <> 0) by (by eapply inv_nz). split_and!; try congruence. eapply E_irrefl; [apply I|done..]. Qed.
Lemma put_linked : linked put_hole m' /\ keep (fun _ => True) m m'.
Proof.
  destruct put_link as (He & Hlk & Hly). pose proof (i_linked _ _ _ I) as Hl. pose proof (loc_length _ _ Hly) as Hlen.
  assert (lnk (set_prev x (prev_is_eq iy) (set_nxt true y id)) true = Some y) as Hkd by (unfold lnk; simpl; by destruct (kind id)).
  assert (chunk (set_prev x (prev_is_eq iy) (set_nxt true y id)) ++ chunk (set_prev d true (shortened n iy)) = chunk iy) as Hch.
  { change (chunk id ++ chunk (shortened n iy) = chunk iy). rewrite Hc, shortened_chunk, take_drop by apply Hly. done. }
  split; [eapply (linked_ins h m x (prev_is_eq iy) y d true ix iy)|eapply (keep_ins h m x (prev_is_eq iy) y d true ix iy)]; try done; try (by eapply lnk_set_nxt); try apply lnk_set_other.
  - unfold put_hole, lnk. simpl. case_decide as Hks; [by rewrite Hks|]. by destruct (kind id).
  - unfold lnk. simpl. destruct (kind id) eqn:Hkd2; [by left..|]. right. destruct (Hs eq_refl) as (-> & -> & _). done.
Qed.
Lemma put_lookup z iz' : m' !! z = Some iz' -> z = d /\ iz' = set_prev x (prev_is_eq iy) (set_nxt true y id) \/ z = x /\ iz' = set_nxt (prev_is_eq iy) d ix \/
  z = y /\ iz' = set_prev d true (shortened n iy) \/ z <> d /\ z <> x /\ z <> y /\ m !! z = Some iz'.
Proof. destruct put_ne as (H1 & H2 & H3 & _). unfold inserted. rewrite !lookup_insert_Some. naive_solver. Qed.
Lemma put_inv : inv put_hole br m'.
Proof.
  destruct put_ne as (H1 & H2 & H3 & H4). destruct put_link as (He & Hlk & Hly). apply inv_intro; [apply put_linked|..].
  - intros z iz' [[-> ->]|[[-> ->]|[[-> ->]|(_ & _ & _ & Hz)]]]%put_lookup.
    + rewrite is_root_set by done. by apply loc_set_prev, loc_set_nxt.
    + apply loc_set_nxt, (i_loc _ _ _ I _ _ Hx).
    + rewrite is_root_set by done. apply loc_set_prev, loc_shortened; done.
    + by apply (i_loc _ _ _ I).
  - intros z iz iv Hz Hpz Hv Hkv. apply put_lookup in Hz as [[-> ->]|[[-> ->]|[[-> ->]|(Hzd & Hzx & Hzy & Hz)]]]; simpl in *.
    + apply put_lookup in Hv as [[? _]|[[_ ->]|[[? _]|(_ & ? & _)]]]; [done| |done|done]. rewrite (split_ok_parent ix) by done. simpl in Hkv.
      destruct (decide (n = 0%nat)) as [Hn0|Hn0]; [by apply (Hs (proj1 (loc_empty _ Hid ltac:(rewrite Hc, Hn0; done))))|].
      destruct (nonempty_head _ iy Hly ltac:(lia)) as (c & l & Hcy). eapply (split_ok_head ix _ iy _ c l (take (n - 1) l)); try done; [by apply loc_set_prev, loc_set_nxt| |].
      * change (chunk id = c :: take (n - 1) l). rewrite Hc, Hcy. destruct n; [done|]. simpl. by rewrite Nat.sub_0_r.
      * eapply inv_edge; try done; congruence.
    + assert (exists iv0, m !! prev ix = Some iv0 /\ psame iv0 iv) as (iv0 & Hv0 & Hps).
      { apply put_lookup in Hv as [[Hpd _]|[[Hpx ->]|[[Hpy ->]|(_ & _ & _ & Hv)]]]; [|rewrite Hpx; by eexists|rewrite Hpy; by eexists|by exists iv].
        exfalso. destruct (inv_parent _ _ _ I _ _ Hx Hpz) as (? & Hpp & _). congruence. }
      change (PrefixFile.split_ok iv (prev_is_eq ix) ix = true). rewrite (split_ok_parent iv0) by done. eapply inv_edge; try done. destruct Hps; congruence.
    + apply put_lookup in Hv as [[_ ->]|[[? _]|[[? _]|(? & _)]]]; [|done..]. rewrite (split_ok_parent id) by done. by apply Hs.
    + assert (exists iv0, m !! prev iz = Some iv0 /\ psame iv0 iv) as (iv0 & Hv0 & Hps).
      { apply put_lookup in Hv as [[Hpd _]|[[Hpx ->]|[[Hpy ->]|(_ & _ & _ & Hv)]]]; [|rewrite Hpx; by eexists|rewrite Hpy; by eexists|by exists iv].
        exfalso. destruct (inv_parent _ _ _ I _ _ Hz Hpz) as (? & Hpp & _). congruence. }
      rewrite (split_ok_parent iv0) by done. eapply inv_edge; try done. destruct Hps; congruence.
  - intros Hb. destruct (i_br _ _ _ I Hb) as (it & Hit & Hpit). assert (br <> y) as Hby by congruence. assert (br <> d) as Hbd by congruence.
    unfold inserted. rewrite lookup_insert_ne by done. destruct (decide (x = br)) as [<-|]; [rewrite lookup_insert_eq; eexists; split; [done|]; simpl; congruence|].
    rewrite !lookup_insert_ne by done. eauto.
Qed.
Lemma put_old z iz : m !! z = Some iz -> exists iz', m' !! z = Some iz' /\ attrs iz' = attrs iz /\ (prev iz = 0 <-> prev iz' = 0).
Proof.
  intros Hz. destruct put_ne as (H1 & H2 & H3 & H4). assert (z <> d) by congruence. unfold inserted. rewrite lookup_insert_ne by done.
  destruct (decide (x = z)) as [<-|]; [rewrite lookup_insert_eq; simplify_eq; eauto|]. rewrite lookup_insert_ne by done.
  destruct (decide (y = z)) as [<-|]; [rewrite lookup_insert_eq; simplify_eq|rewrite lookup_insert_ne by done; eauto]. eexists. split_and!; [done..|]. simpl. naive_solver.
Qed.
Lemma put_back z iz' : m' !! z = Some iz' -> z <> d -> exists iz, m !! z = Some iz /\ used iz = used iz' /\ data iz = data iz' /\ (prev iz = 0 <-> prev iz' = 0).
Proof.
  intros [[-> ->]|[[-> ->]|[[-> ->]|(_ & _ & _ & Hz)]]]%put_lookup Hzd; [done|exists ix; done|exists iy|exists iz'; done]. split_and!; try done. simpl. naive_solver.
Qed.
Lemma put_ev T : used id = false -> ev T m m'.
Proof.
  intros Hu. split; [eapply keep_weaken; [|apply put_linked]; done|intros z iz Hz _; by apply put_old|].
  intros z iz' Hz Hor. destruct (decide (z = d)) as [->|]; [|destruct (put_back _ _ Hz ltac:(done)) as (iz & ? & ? & _ & ?); eauto].
  exfalso. destruct put_ne as (H1 & H2 & H3 & H4). apply put_lookup in Hz as [[_ ->]|[[? _]|[[? _]|(? & _)]]]; try done. simpl in Hor. rewrite Hu in Hor. by destruct Hor.
Qed.
(** What leads to the new item *)
Lemma put_walk r p k0 : walk m r y p (k0 ++ chunk iy) -> exists p', walk m' r d p' (k0 ++ take n (chunk iy)).
Proof.
  intros Hw. destruct put_ne as (H1 & H2 & H3 & H4). destruct put_link as (He & Hlk & Hly). assert (exists q, walk m r x q k0) as (q & Hq).
  { inversion Hw as [it Hr Hpr Hyr Hpp Hkk|v b w it q k Hq Ev Hw2 Hyr Hpp Hkk]; simplify_eq. destruct (E_inj _ _ (i_linked _ _ _ I) _ _ _ _ _ He Ev H4) as [Hxv Hbv]. subst v b.
    apply app_inv_tail in Hkk as ->. eauto. }
  destruct put_linked as [_ Hkeep]. destruct (Hkeep _ _ _ _ Hq Logic.I) as (q' & Hq'). exists (q' ++ [d]). rewrite <- Hc.
  change (chunk id) with (chunk (set_prev x (prev_is_eq iy) (set_nxt true y id))). eapply walk_step; [exact Hq'| |unfold inserted; by rewrite lookup_insert_eq].
  unfold E, inserted. rewrite lookup_insert_ne, lookup_insert_eq by done. simpl. by eapply lnk_set_nxt.
Qed.
Lemma put_gains r p k0 : used id = true -> walk m r y p (k0 ++ chunk iy) -> gains m m' r (k0 ++ take n (chunk iy)) d (data id).
Proof.
  intros Hu Hw. destruct (put_walk _ _ _ Hw) as (pd & Hwd). destruct put_linked as [Hl' Hkeep]. pose proof (i_linked _ _ _ I) as Hl.
  assert (m' !! d = Some (set_prev x (prev_is_eq iy) (set_nxt true y id))) as Hdm by (unfold inserted; by rewrite lookup_insert_eq). split.
  - intros r' k j e. split.
    + intros (pj & ij & Hwj & Hj & Huj & He). destruct (decide (j = d)) as [->|Hne].
      * right. destruct (walk_unique _ _ Hl' _ _ _ _ _ _ _ Hwj Hwd) as (-> & _ & ->). rewrite Hdm in Hj. injection Hj as <-. done.
      * left. destruct (put_back _ _ Hj Hne) as (ij0 & Hj0 & Hu0 & He0 & _). destruct (lk_reach _ _ Hl _ _ Hj0) as (r0 & p0 & key0 & Hw0). destruct (Hkeep _ _ _ _ Hw0 Logic.I) as (p1 & Hw1).
        destruct (walk_unique _ _ Hl' _ _ _ _ _ _ _ Hwj Hw1) as (-> & _ & ->). exists p0, ij0. split_and!; congruence.
    + intros [(pj & ij & Hwj & Hj & Huj & He)|(-> & -> & -> & ->)].
      * destruct (Hkeep _ _ _ _ Hwj Logic.I) as (p1 & Hw1). destruct (put_old _ _ Hj) as (ij' & Hj' & (_ & Hu' & _ & _ & Hd')%attrs_eq & _). exists p1, ij'. split_and!; congruence.
      * eexists _, _. split_and!; [exact Hwd|exact Hdm|done|done].
  - intros r'. split.
    + intros (it & Hr & Hpr). destruct (decide (r' = d)) as [->|Hne]; [rewrite Hdm in Hr; injection Hr as <-; done|]. destruct (put_back _ _ Hr Hne) as (it0 & Hr0 & _ & _ & Hp'). exists it0. tauto.
    + intros (it & Hr & Hpr). destruct (put_old _ _ Hr) as (it' & Hr' & _ & Hp'). exists it'. tauto.
  - intros r' p' k Hw'. by eapply Hkeep.
Qed.
End put.

(** ** Moving characters to the previous item *)
Definition shifted m (y : Z) (n : nat) ix iy : gmap Z item := <[y := shortened n iy]> (<[prev iy := append_from iy n ix]> m).
Section shift.
Context (h : option (Z * bool)) (br : Z) m (y : Z) (n : nat) ix iy.
Context (I : inv h br m) (Hy : m !! y = Some iy) (Hp0 : prev iy <> 0) (Hx : m !! prev iy = Some ix) (Hk : kind ix = Prefix) (Hu : used ix = false) (Hpx : prev ix <> 0).
Context (Hn : (n < chunk_sz iy)%nat) (Hfit : Z.of_nat (chunk_sz ix + n) <= max_of (sz ix) (kind ix) (used ix)).
Abbreviation m' := (shifted m y n ix iy).

Lemma shift_link : E m (prev iy) true = Some y /\ E m (prev iy) false = None /\ prev_is_eq iy = true /\ loc false ix /\ loc false iy /\ prev iy <> y.
Proof.
  destruct (inv_parent _ _ _ I _ _ Hy Hp0) as (ix' & Hx' & He). destruct (lnk_prefix _ Hk) as [Ht Hf]. rewrite (E_lookup _ _ _ _ Hx) in He. destruct (prev_is_eq iy) eqn:Hpe; [|congruence].
  rewrite !(E_lookup _ _ _ _ Hx). split_and!; try done; [by eapply inv_nonroot|by eapply inv_nonroot|]. eapply (E_irrefl _ _ (i_linked _ _ _ I)); [by rewrite (E_lookup _ _ _ _ Hx)|by eapply inv_nz].
Qed.
Lemma shift_linked : linked h m' /\ keep (fun z => z <> prev iy) m m'.
Proof.
  destruct shift_link as (He & Hf & _ & Hlx & Hly & Hne). split.
  - eapply linked_attr; [eapply linked_attr; [apply I|done..]|by rewrite lookup_insert_ne|done..].
  - eapply keep_shift; try done; [apply I|]. rewrite append_chunk, shortened_chunk, <- app_assoc, take_drop; [done|apply Hly| |apply Hlx]. rewrite (loc_length _ _ Hly). lia.
Qed.
Lemma shift_lookup z iz' : m' !! z = Some iz' -> z = y /\ iz' = shortened n iy \/ z = prev iy /\ iz' = append_from iy n ix \/ z <> y /\ z <> prev iy /\ m !! z = Some iz'.
Proof. destruct shift_link as (_ & _ & _ & _ & _ & Hne). unfold shifted. rewrite !lookup_insert_Some. naive_solver. Qed.
Lemma shift_back z iz' : m' !! z = Some iz' -> exists iz, m !! z = Some iz /\ attrs iz' = attrs iz /\ bk iz' = bk iz.
Proof. intros [[-> ->]|[[-> ->]|(_ & _ & Hz)]]%shift_lookup; eauto. Qed.
Lemma shift_inv : inv h br m'.
Proof.
  destruct shift_link as (He & Hf & Hpe & Hlx & Hly & Hne). apply inv_intro; [apply shift_linked|..].
  - intros z iz' [[-> ->]|[[-> ->]|(_ & _ & Hz)]]%shift_lookup; [| |by apply (i_loc _ _ _ I)].
    + unfold is_root. rewrite bool_decide_false by naive_solver. by apply loc_shortened.
    + unfold is_root. rewrite bool_decide_false by naive_solver. eapply loc_append; try done. lia.
  - intros z iz iv Hz Hpz Hv Hkv. destruct (shift_back _ _ Hv) as (iv0 & Hv0 & (Hkv0 & _ & Hb0 & Hc0 & _)%attrs_eq & _). rewrite (split_ok_parent iv0) by done.
    assert (kind iv0 = Split) as Hks by congruence. apply shift_lookup in Hz as [[-> ->]|[[-> ->]|(_ & _ & Hz)]].
    + exfalso. simpl in Hv0. congruence.
    + destruct (l_item _ _ Hlx eq_refl) as [_ Hne']. destruct (nonempty_head _ ix Hlx) as (c & l & Hc); [apply Hne'; left; congruence|].
      eapply (split_ok_head iv0 _ ix _ c l (l ++ take n (chunk iy))); try done; [eapply loc_append; try done; lia| |change (PrefixFile.split_ok iv0 (prev_is_eq ix) ix = true); by eapply inv_edge].
      rewrite append_chunk, Hc; [done|rewrite (loc_length _ _ Hly); lia|apply Hlx].
    + by eapply inv_edge.
  - intros Hb. destruct (i_br _ _ _ I Hb) as (it & Hit & Hpit). unfold shifted. rewrite !lookup_insert_ne by congruence. eauto.
Qed.
Lemma shift_ev T : prev iy ∉ T -> ev T m m'.
Proof.
  intros HT. destruct shift_link as (_ & _ & _ & _ & _ & Hne). assert (forall z, stay T m z -> z <> prev iy) as Hs.
  { intros z [?|(it & Hz & Hs)] ->; [done|]. simplify_eq. unfold stays in Hs. rewrite Hk, Hu in Hs. by destruct Hs as [?|[?|?]]. }
  split; [eapply keep_weaken; [exact Hs|apply shift_linked]| |].
  - intros z iz Hz _. unfold shifted. destruct (decide (y = z)) as [<-|]; [rewrite lookup_insert_eq; simplify_eq; eauto|]. rewrite lookup_insert_ne by done.
    destruct (decide (prev iy = z)) as [<-|]; [rewrite lookup_insert_eq; simplify_eq; eauto|]. rewrite lookup_insert_ne by done. eauto.
  - intros z iz' Hz' _. destruct (shift_back _ _ Hz') as (iz & Hz & (_ & Hu' & _)%attrs_eq & Hb). unfold bk in Hb. exists iz. split_and!; [done..|]. injection Hb as -> _. done.
Qed.
End shift.

(** ** Shortening the block of an item *)
Section resize.
Context (h : option (Z * bool)) (br : Z) m (x : Z) (z : Z) ix.
Context (I : inv h br m) (Hx : m !! x = Some ix) (Hz : legit z (used ix)) (Hp : prev ix <> 0) (Hc : Z.of_nat (chunk_sz ix) <= max_of z (kind ix) (used ix)).
Lemma resize_back v iv' : <[x := set_sz z ix]> m !! v = Some iv' -> exists iv, m !! v = Some iv /\ attrs iv' = attrs iv /\ bk iv' = bk iv /\ chunk iv' = chunk iv /\ chunk_sz iv' = chunk_sz iv.
Proof. intros [[<- <-]|[_ Hv]]%lookup_insert_Some; eauto 10. Qed.
Lemma resize_inv : inv h br (<[x := set_sz z ix]> m).
Proof.
  apply inv_intro; [eapply linked_attr; [apply I|done..]|..].
  - intros i it [[<- <-]|[_ Hv]]%lookup_insert_Some; [|by apply (i_loc _ _ _ I)]. unfold is_root. rewrite bool_decide_false by naive_solver.
    apply loc_set_sz; try done. by eapply inv_nonroot.
  - intros v iv iw Hv Hpv Hw Hkw. destruct (resize_back _ _ Hw) as (iw0 & Hw0 & (Hkw0 & _ & Hb0 & Hc0 & _)%attrs_eq & _). rewrite (split_ok_parent iw0) by done.
    assert (kind iw0 = Split) as Hks by congruence. apply lookup_insert_Some in Hv as [[<- <-]|[_ Hv]]; [|by eapply inv_edge].
    change (PrefixFile.split_ok iw0 (prev_is_eq ix) ix = true). by eapply inv_edge.
  - intros Hb. destruct (i_br _ _ _ I Hb) as (it & Hit & Hpit). rewrite lookup_insert_ne by congruence. eauto.
Qed.
Lemma resize_ev T : ev T m (<[x := set_sz z ix]> m).
Proof.
  split.
  - eapply keep_weaken; [|eapply keep_attr; [exact Hx|done..]]. done.
  - intros v iv Hv _. destruct (decide (x = v)) as [<-|]; [rewrite lookup_insert_eq; simplify_eq; eauto|]. rewrite lookup_insert_ne by done. eauto.
  - intros v iv' Hv _. destruct (resize_back _ _ Hv) as (iv & Hv0 & (_ & Hu' & _)%attrs_eq & Hb & _). unfold bk in Hb. exists iv. split_and!; [done..|]. injection Hb as -> _. done.
Qed.
End resize.
End tree.
