(* ===== verification/PrefixUpd.v ===== *)
(** * The updates of a prefix tree that keep its names.

    [_compress_after], [_add_prefix] and [_minimize_sz] of src/store/prefix.hh terminate, need no more saved
    items than there is room for, and keep the invariant and the names. *)
From S2P Require Import Prelude.
From S2P Require Import PrefixItem.
From S2P Require Import PrefixGraph.
From S2P Require Import PrefixFile.
From S2P Require Import PrefixInv.
From S2P Require Import PrefixRun.
From S2P Require Import PrefixTree.
Local Open Scope Z_scope.
Import Item.

Section upd.
Context {L : Layout} {HL : LayoutOk L} {A : Type} {B : Blocks A} {HB : BlocksOk A} {D : Type} (d0 : D).
Abbreviation item := (Item.t D).
Abbreviation file := (@PrefixFile.t A D).
Import PrefixFile.
Implicit Types (m : gmap Z item) (it ix iy iz iw id : item) (s : file).

(** The room left in an item *)
Definition slack it : Z := max_of (sz it) (kind it) (used it) - Z.of_nat (chunk_sz it).
Lemma loc_slack r it : loc r it -> 0 <= slack it <= 58 - Z.of_nat (chunk_sz it).
Proof. intros Hl. pose proof (l_chunk _ _ Hl). destruct (lo_max (sz it) (kind it) (used it) ltac:(apply Hl)) as [_ ?]. unfold slack. lia. Qed.

(** Items keep all but their links and, for [y], their characters. *)
Definition kept iz iz' : Prop := attrs iz' = attrs iz /\ chunk iz' = chunk iz /\ chunk_sz iz' = chunk_sz iz /\ bk iz' = bk iz.
Lemma kept_trans iz iz' iz'' : kept iz iz' -> kept iz' iz'' -> kept iz iz''.
Proof. unfold kept. intros (-> & -> & -> & ->) (H1 & H2 & H3 & H4). done. Qed.
Lemma kept_refl iz : kept iz iz.
Proof. done. Qed.
Lemma kept_split ix b iz iz' : kept iz iz' -> split_ok ix b iz' = split_ok ix b iz.
Proof. intros ((Hk & _ & Hb & Hv & _)%attrs_eq & Hc & Hn & _). unfold split_ok, first_char. by rewrite Hk, Hb, Hv, Hc, Hn. Qed.
Definition frame (y : Z) m m' : Prop := forall z iz', m' !! z = Some iz' ->
  exists iz, m !! z = Some iz /\ attrs iz' = attrs iz /\ sz iz' = sz iz /\ (prev iz = 0 <-> prev iz' = 0) /\ (z <> y -> kept iz iz').
Lemma frame_trans y m m' m'' : frame y m m' -> frame y m' m'' -> frame y m m''.
Proof.
  intros H1 H2 z iz2 Hz2. destruct (H2 _ _ Hz2) as (iz' & Hz' & Ha' & Hs' & Hp' & Hy'). destruct (H1 _ _ Hz') as (iz & Hz & Ha & Hs & Hp & Hy). exists iz.
  split_and!; [done|congruence|congruence|tauto|]. intros Hne. by eapply kept_trans; [apply Hy|apply Hy'].
Qed.

(** What merging items into [y] does, [p] being the path of the first of them *)
Record compressed (h : option (Z * bool)) (br : Z) (y : Z) (p : list Z) m m' : Prop := {
  co_inv : inv h br m';
  co_ev T : (forall z, z ∈ T -> z ∉ p) -> ev T m m';
  co_frame : frame y m m';
}.
(** One merge, if there is one to do *)
Definition mergeable (x : Z) ix iy m : Prop := kind ix = Prefix /\ used ix = false /\ prev ix <> 0 /\ m !! nxt_eq ix = Some iy /\
  Z.of_nat (chunk_sz ix + chunk_sz iy) <= max_of (sz iy) (kind iy) (used iy).
Lemma erase_step fuel (b1 b2 b3 : bool) x ix iw iy s m n k F : st s m n k F -> m !! x = Some ix -> mergeable x ix iy m -> m !! prev ix = Some iw -> lnk iw (prev_is_eq ix) = Some x -> loc false iy ->
  prev ix <> x -> x <> nxt_eq ix -> prev ix <> nxt_eq ix -> x ∉ F -> (n + Nat.b2n b3 + Nat.b2n b1 + Nat.b2n b2 <= 64)%nat ->
  exists s1, st s1 (merged m x (nxt_eq ix) ix iw iy) (n + Nat.b2n b3 + Nat.b2n b1 + Nat.b2n b2) k F /\
    compress_after (S fuel) b1 b2 b3 x s = ('(s, _, _) ← compress_after fuel true false false (prev ix) s1; Ret (s, true, nxt_eq ix)).
Proof.
  intros Hst Hx (Hk & Hu & Hp & Hy & Hfit) Hiw Hlw Hly N1 N2 N3 HF Hn. cbn [compress_after]. erewrite at_st by done. cbn [mbind outcome_mbind]. rewrite (proj2 (Z.eqb_neq _ _) Hp), bool_decide_true, Hu by done. cbn [negb].
  destruct (lnk_prefix _ Hk) as [Hlt Hlf]. rewrite (nxt_if_lnk _ _ _ Hlt). cbn [mbind outcome_mbind]. erewrite at_st by done. cbn [mbind outcome_mbind]. rewrite (loc_max _ _ Hly). cbn [mbind outcome_mbind]. rewrite (proj2 (Z.ltb_ge _ _)) by done.
  destruct (backup_st _ _ _ _ _ Hst b3 (nxt_eq ix) iy Hy) as (s1 & -> & Hs1); [lia|]. cbn [mbind outcome_mbind].
  destruct (upd_st _ _ _ _ _ Hs1 _ _ (prepend_from ix 0) Hy eq_refl) as (s2 & -> & Hs2). cbn [mbind outcome_mbind].
  destruct (erase_prefix_st s2 (<[nxt_eq ix := prepend_from ix 0 iy]> m) (n + Nat.b2n b3) k F b1 b2 false x ix iw (nxt_eq ix) (prepend_from ix 0 iy)) as ([s3 prv] & -> & Hprv & Hs3);
    [exact Hs2|mlook|exact Hk|exact Hu|done|mlook|mlook|done|done|done|done|done|simpl; lia|].
  simpl in Hprv, Hs3. subst prv. cbn [mbind outcome_mbind]. rewrite (proj2 (Z.eqb_neq _ _) Hp). rewrite insert_insert_eq in Hs3. fold (merged m x (nxt_eq ix) ix iw iy) in Hs3.
  exists s3. split; [eapply st_weaken; [exact Hs3|lia..]|]. by destruct (compress_after fuel true false false (prev ix) s3) as [[[? ?] ?]| |].
Qed.
Lemma compress_step fuel (b1 b2 b3 : bool) h br x ix s m n k F : st s m n k F -> inv h br m -> (forall z, h <> Some (z, true)) -> m !! x = Some ix -> x ∉ F ->
  (forall iy, mergeable x ix iy m -> (n + Nat.b2n b3 + Nat.b2n b1 + Nat.b2n b2 <= 64)%nat) ->
  compress_after (S fuel) b1 b2 b3 x s = Ret (s, false, x) \/
  exists iy iw s1, mergeable x ix iy m /\ m !! prev ix = Some iw /\ E m (prev ix) (prev_is_eq ix) = Some x /\
    st s1 (merged m x (nxt_eq ix) ix iw iy) (n + Nat.b2n b3 + Nat.b2n b1 + Nat.b2n b2) k F /\
    compress_after (S fuel) b1 b2 b3 x s = ('(s, _, _) ← compress_after fuel true false false (prev ix) s1; Ret (s, true, nxt_eq ix)).
Proof.
  intros Hst I Hh Hx HF Hn. destruct (decide (kind ix = Prefix /\ used ix = false /\ prev ix <> 0)) as [(Hk & Hu & Hp)|Hno].
  - destruct (lnk_prefix _ Hk) as [Hlt Hlf]. destruct (next_item _ _ _ _ _ _ _ I Hx Hlt (Hh x)) as (iy & Hy & Hxy & Hpy & Hpey & Hly & Hne). destruct (inv_parent _ _ _ I _ _ Hx Hp) as (iw & Hiw & Ewx).
    destruct (merge_ne h br m x _ ix iw iy I Hx Hk Hp (Hh x) eq_refl Hy Hiw) as (N1 & N2 & N3 & _).
    destruct (Z.le_gt_cases (Z.of_nat (chunk_sz ix + chunk_sz iy)) (max_of (sz iy) (kind iy) (used iy))) as [Hfit|Hgt].
    + right. assert (mergeable x ix iy m) as Hm by done. specialize (Hn _ Hm).
      destruct (erase_step fuel b1 b2 b3 x ix iw iy s m n k F Hst Hx Hm Hiw) as (s1 & Hs1 & Hr); [by rewrite <- (E_lookup _ _ _ _ Hiw)|done..|]. exists iy, iw, s1. done.
    + left. cbn [compress_after]. erewrite at_st by done. cbn [mbind outcome_mbind]. rewrite (proj2 (Z.eqb_neq _ _) Hp), bool_decide_true, Hu, (nxt_if_lnk _ _ _ Hlt) by done. cbn [negb mbind outcome_mbind]. erewrite at_st by done.
      cbn [mbind outcome_mbind]. rewrite (loc_max _ _ Hly). cbn [mbind outcome_mbind]. by rewrite (proj2 (Z.ltb_lt _ _)).
  - left. cbn [compress_after]. erewrite at_st by done. cbn [mbind outcome_mbind]. destruct (Z.eqb_spec (prev ix) 0) as [Hp|Hp]; [done|]. destruct (decide (kind ix = Prefix)) as [Hk|Hk]; [|by rewrite bool_decide_false].
    rewrite bool_decide_true by done. destruct (used ix); [done|]. exfalso. by apply Hno.
Qed.
Lemma compress_stays fuel (b1 b2 b3 : bool) x ix s m n k F : st s m n k F -> m !! x = Some ix -> stays ix -> compress_after (S fuel) b1 b2 b3 x s = Ret (s, false, x).
Proof.
  intros Hst Hx Hs. cbn [compress_after]. erewrite at_st by done. cbn [mbind outcome_mbind]. destruct (Z.eqb_spec (prev ix) 0) as [Hp|Hp]; [done|].
  destruct (decide (kind ix = Prefix)) as [Hk|Hk]; [|by rewrite bool_decide_false]. rewrite bool_decide_true by done. destruct (used ix) eqn:Hu; [done|].
  exfalso. unfold stays in Hs. rewrite Hu in Hs. destruct Hs as [?|[?|?]]; done.
Qed.
Lemma merge_compressed h br x ix iw iy p m : inv h br m -> (forall z, h <> Some (z, true)) -> m !! x = Some ix -> mergeable x ix iy m -> m !! prev ix = Some iw -> x ∈ p ->
  compressed h br (nxt_eq ix) p m (merged m x (nxt_eq ix) ix iw iy).
Proof.
  intros I Hh Hx (Hk & Hu & Hp & Hy & Hfit) Hiw Hw. split; [by eapply merge_inv| |].
  - intros T HT. eapply merge_ev; try done. intros HxT. by apply (HT _ HxT).
  - intros z iz' Hz. destruct (merge_old h br m x _ ix iw iy I Hx Hk Hp (Hh x) eq_refl Hy Hiw _ _ Hz) as (iz & ? & ? & Hb & ? & ?). exists iz. split_and!; try done.
    intros Hzy. by destruct (Hb Hzy) as (? & ? & ?).
Qed.

Lemma compress_after_spec fuel (b1 b2 b3 : bool) h br x ix r p key s m n k F : st s m n k F -> inv h br m -> (forall z, h <> Some (z, true)) -> m !! x = Some ix -> walk m r x p key ->
  (forall z, z ∈ F -> z ∉ p) -> (length p <= fuel)%nat ->
  (forall iy, kind ix = Prefix -> m !! nxt_eq ix = Some iy -> Z.of_nat n + slack iy + Z.b2z b1 + Z.b2z b2 + Z.b2z b3 <= 65) ->
  runs (compress_after fuel b1 b2 b3 x s) (fun q => q = (s, false, x) \/
    q.1.2 = true /\ q.2 = nxt_eq ix /\ kind ix = Prefix /\ used ix = false /\ prev ix <> 0 /\ exists m' n', st q.1.1 m' n' k F /\ compressed h br (nxt_eq ix) p m m' /\
      forall iy iy', m !! nxt_eq ix = Some iy -> m' !! nxt_eq ix = Some iy' -> Z.of_nat n' + slack iy' <= Z.of_nat n + slack iy + Z.b2z b1 + Z.b2z b2 + Z.b2z b3 - 1).
Proof.
  revert b1 b2 b3 x ix p key s m n. induction fuel as [|fuel IH]; intros b1 b2 b3 x ix p key s m n Hst I Hh Hx Hw HF Hfuel Hn.
  { apply walk_in in Hw as (_ & q & ->). rewrite length_app in Hfuel. simpl in Hfuel. lia. }
  assert (forall iy, mergeable x ix iy m -> (0 < chunk_sz ix)%nat /\ 1 <= slack iy) as Hcs.
  { intros iy (Hk & _ & Hp & _ & Hfit). assert (0 < chunk_sz ix)%nat by (apply (l_item _ _ (inv_nonroot _ _ _ I _ _ Hx Hp) eq_refl); left; congruence). unfold slack. lia. }
  destruct (compress_step fuel b1 b2 b3 h br x ix s m n k F Hst I Hh Hx) as [->|(iy & iw & s3 & Hm & Hiw & Ewx & Hs3 & ->)]; [|..|apply runs_ret; by left|].
  { intros HxF. apply (HF _ HxF). apply walk_in in Hw as (_ & q & ->). set_solver. }
  { intros iy Hm. destruct (Hcs iy Hm). destruct Hm as (Hk & _ & _ & Hy & _). specialize (Hn _ Hk Hy). destruct b1, b2, b3; simpl in *; lia. }
  assert (x ∈ p) as Hxp by (apply walk_in in Hw as (_ & q & ->); set_solver). pose proof (merge_compressed h br x ix iw iy p m I Hh Hx Hm Hiw Hxp) as C1. destruct (Hcs _ Hm) as [Hcx Hsl]. destruct Hm as (Hk & Hu & Hp & Hy & Hfit). specialize (Hn _ Hk Hy).
  destruct (merge_ne h br m x _ ix iw iy I Hx Hk Hp (Hh x) eq_refl Hy Hiw) as (N1 & N2 & N3 & _). set (m1 := merged _ _ _ _ _ _) in *. pose proof (co_inv _ _ _ _ _ _ C1) as I1.
  assert (m1 !! nxt_eq ix = Some (set_prev (prev ix) (prev_is_eq ix) (prepend_from ix 0 iy))) as Hy1 by (unfold m1, merged; mlook).
  assert (m1 !! prev ix = Some (set_nxt (prev_is_eq ix) (nxt_eq ix) iw)) as Hw1 by (unfold m1, merged; mlook).
  assert (slack (set_prev (prev ix) (prev_is_eq ix) (prepend_from ix 0 iy)) = slack iy - Z.of_nat (chunk_sz ix)) as Hsl1 by (unfold slack; simpl; lia).
  destruct (walk_pred h br m r x p key ix I Hw Hx Hp) as (q & key0 & -> & Hq & Hnq & _).
  assert (walk m1 r (prev ix) q key0) as Hq1 by (eapply (merge_path h br m x (nxt_eq ix)); try done; apply Hh).
  assert (forall z, z ∈ q -> z ∈ q ++ [x]) as Hqp by (intros; apply elem_of_app; by left).
  run (eapply (IH true false false (prev ix) _ q key0 s3 m1); [exact Hs3|exact I1|exact Hh|exact Hw1|exact Hq1| | |]) as q' Hq'.
  - intros z Hz Hzq. apply (HF _ Hz), Hqp, Hzq.
  - rewrite length_app in Hfuel. simpl in Hfuel. lia.
  - intros iy0 Hkw. simpl in Hkw. assert (prev_is_eq ix = true) as ->.
    { rewrite (E_lookup _ _ _ _ Hiw) in Ewx. destruct (prev_is_eq ix); [done|]. by rewrite (proj2 (lnk_prefix _ Hkw)) in Ewx. }
    simpl. rewrite Hy1. intros [= <-]. rewrite Hsl1. destruct b1, b2, b3; simpl in *; lia.
  - destruct q' as [[s4 c] j]. simpl in Hq'. apply runs_ret. right. simpl. split_and!; try done. destruct Hq' as [[= -> -> ->]|(_ & _ & Hkw & _ & _ & m' & n' & Hs4 & C2 & Hb)].
    + exists m1, (n + Nat.b2n b3 + Nat.b2n b1 + Nat.b2n b2)%nat. split_and!; [done|done|]. rewrite Hy, Hy1. intros ? iy' [= <-] [= <-]. rewrite Hsl1. destruct b1, b2, b3; simpl in *; lia.
    + assert (prev_is_eq ix = true) as Hpe.
      { rewrite (E_lookup _ _ _ _ Hiw) in Ewx. destruct (prev_is_eq ix); [done|]. by rewrite (proj2 (lnk_prefix _ Hkw)) in Ewx. }
      rewrite Hpe in C2, Hb. simpl in C2, Hb. exists m', n'. split_and!; [done| |].
      * destruct C1, C2. split; [done| |by eapply frame_trans]. intros T HT. eapply ev_trans; [by apply co_ev0|]. apply co_ev1. intros z Hz Hzq. apply (HT _ Hz), Hqp, Hzq.
      * intros ? iy'. rewrite Hy. intros [= <-] Hy'. rewrite Hpe in Hy1. specialize (Hb _ _ Hy1 Hy'). rewrite Hpe in Hsl1. rewrite Hsl1 in Hb. destruct b1, b2, b3; simpl in *; lia.
Qed.

Lemma st_size s m n k F : st s m n k F -> (size m <= size (items s))%nat.
Proof. intros Hst. rewrite <- (st_live _ _ _ _ _ Hst). unfold live. apply map_subseteq_size, map_filter_subseteq. Qed.
Lemma st_fuel s m n k F h r x p key : st s m n k F -> linked h m -> walk m r x p key -> (length p <= fuel_of s)%nat.
Proof. intros Hst Hl Hw. apply (walk_length _ _ Hl) in Hw. pose proof (st_size _ _ _ _ _ Hst). unfold fuel_of. lia. Qed.

(** When the previous item stays, there is at most one merge. *)
Lemma compress_once (b1 b2 b3 : bool) h br x ix iw s m n k F : st s m n k F -> inv h br m -> (forall z, h <> Some (z, true)) -> m !! x = Some ix -> x ∉ F -> m !! prev ix = Some iw -> stays iw ->
  (n + Nat.b2n b3 + Nat.b2n b1 + Nat.b2n b2 <= 64)%nat ->
  runs (_compress_after b1 b2 b3 x s) (fun q => q = (s, false, x) \/
    q.1.2 = true /\ q.2 = nxt_eq ix /\ kind ix = Prefix /\ used ix = false /\ exists m', st q.1.1 m' (n + Nat.b2n b3 + Nat.b2n b1 + Nat.b2n b2) k F /\ compressed h br (nxt_eq ix) [x] m m').
Proof.
  intros Hst I Hh Hx HF Hiw Hs Hn. unfold _compress_after, fuel_of.
  destruct (compress_step (size (items s)) b1 b2 b3 h br x ix s m n k F Hst I Hh Hx HF ltac:(done)) as [->|(iy & iw' & s3 & Hm & Hiw' & Ewx & Hs3 & ->)]; [apply runs_ret; by left|].
  rewrite Hiw in Hiw'. injection Hiw' as <-. destruct (size (items s)) as [|fuel] eqn:Hsz.
  { apply map_size_empty_inv in Hsz. apply (st_lookup _ _ _ _ _ Hst) in Hx as [Hx _]. by rewrite Hsz, lookup_empty in Hx. }
  pose proof (merge_compressed h br x ix iw iy [x] m I Hh Hx Hm Hiw ltac:(set_solver)) as C. destruct Hm as (Hk & Hu & Hp & Hy & Hfit).
  destruct (merge_ne h br m x _ ix iw iy I Hx Hk Hp (Hh x) eq_refl Hy Hiw) as (N1 & N2 & N3 & _).
  erewrite compress_stays; [|exact Hs3|unfold merged; mlook|exact Hs]. apply runs_ret. right. simpl. split_and!; try done. eauto.
Qed.
Lemma compress_before_spec (b1 b2 b3 : bool) h br y iy r p key s m n k F : st s m n k F -> inv h br m -> (forall z, h <> Some (z, true)) -> m !! y = Some iy -> walk m r y (p ++ [y]) key ->
  (forall z, z ∈ F -> z ∉ p) -> Z.of_nat n + slack iy + Z.b2z b1 + Z.b2z b2 + Z.b2z b3 <= 65 ->
  runs (_compress_before b1 b2 b3 y s) (fun q => q = (s, false) \/ q.2 = true /\ exists m' n', st q.1 m' n' k F /\ compressed h br y p m m' /\
      forall iy', m' !! y = Some iy' -> Z.of_nat n' + slack iy' <= Z.of_nat n + slack iy + Z.b2z b1 + Z.b2z b2 + Z.b2z b3 - 1).
Proof.
  intros Hst I Hh Hy Hw HF Hn. unfold _compress_before. rat. destruct (Z.eqb_spec (prev iy) 0) as [Hp|Hp]; [apply runs_ret; by left|].
  destruct (inv_parent _ _ _ I _ _ Hy Hp) as (ix & Hx & Exy). destruct (walk_pred _ _ _ _ _ _ _ _ I Hw Hy Hp) as (q & key0 & Hpq & Hq & _). apply app_inj_tail in Hpq as [<- _].
  assert (kind ix = Prefix -> nxt_eq ix = y) as Hnx.
  { intros Hk. rewrite (E_lookup _ _ _ _ Hx) in Exy. destruct (lnk_prefix _ Hk). destruct (prev_is_eq iy); congruence. }
  run (unfold _compress_after; eapply compress_after_spec; [exact Hst|exact I|exact Hh|exact Hx|exact Hq|exact HF|by eapply st_fuel; [|apply I|]|]) as [[s1 c] j] Hq'.
  { intros iy0 Hk. rewrite Hnx by done. rewrite Hy. by intros [= <-]. }
  apply runs_ret. destruct Hq' as [[= -> -> ->]|(Hc & _ & Hk & _ & _ & m' & n' & Hs1 & C & Hb)]; [by left|]. simpl in *. right. split; [done|]. rewrite Hnx in C, Hb by done.
  exists m', n'. split_and!; [done..|]. intros iy'. by apply Hb.
Qed.

Lemma minimize_spec b h br x ix s m n k F : st s m n k F -> inv h br m -> m !! x = Some ix -> x ∉ F -> (n + Nat.b2n b <= 64)%nat ->
  runs (_minimize_sz b x s) (fun q => exists m' F' z, st q.1 m' (n + Nat.b2n b) k F' /\ inv h br m' /\ (forall T, ev T m m') /\ F' ⊆ x :: F /\ m' = <[x := set_sz z ix]> m).
Proof.
  intros Hst I Hx HF Hn. assert (m = <[x := set_sz (sz ix) ix]> m) as Hid by (rewrite insert_id; [done|]; by destruct ix). unfold _minimize_sz. rat. destruct (Z.eqb_spec (prev ix) 0) as [Hp|Hp].
  { apply runs_ret. exists m, F, (sz ix). split_and!; try done; [eapply st_weaken; [done|lia..]|intros; apply ev_refl|set_solver]. }
  pose proof (inv_nonroot _ _ _ I _ _ Hx Hp) as Hl. pose proof (l_chunk _ _ Hl) as Hc. destruct (lo_least (kind ix) (used ix) (Z.of_nat (chunk_sz ix)) (sz ix)) as [Hmin Hle]; [lia|apply Hl|].
  destruct (lo_min (kind ix) (used ix) (Z.of_nat (chunk_sz ix))) as (Hms & Hleg & Hle2); [lia|]. assert (need_mk_min_sz ix = Ret (min_of (kind ix) (used ix) (Z.of_nat (chunk_sz ix)) <? sz ix)) as Hneed.
  { unfold need_mk_min_sz, min_sz. rewrite Hms. cbn [mbind outcome_mbind]. by rewrite (proj2 (Z.leb_le _ _)). }
  eapply runs_eq; [exact Hneed|]. destruct (Z.ltb_spec (min_of (kind ix) (used ix) (Z.of_nat (chunk_sz ix))) (sz ix)) as [Hlt|Hge].
  2:{ apply runs_ret. exists m, F, (sz ix). split_and!; try done; [eapply st_weaken; [done|lia..]|intros; apply ev_refl|set_solver]. }
  run (eapply backup_st; [exact Hst|exact Hx|done]) as s1 Hs1. eapply runs_eq.
  { unfold upd_. erewrite at_st; [|exact Hs1|exact Hx]. cbn [mbind outcome_mbind]. unfold mk_min_sz. rewrite Hneed. cbn [mbind outcome_mbind swear]. unfold min_sz. rewrite Hms. cbn [mbind outcome_mbind]. done. }
  apply runs_ret. eexists _, (F ++ [x]), _. split_and!; [eapply schedule_shorten_st; [exact Hs1|exact Hx|done|destruct Hleg; lia]|by apply resize_inv|intros; by apply resize_ev|set_solver|done].
Qed.

(** What moving the first [c] characters of [y] before it does *)
Record added (h : option (Z * bool)) (br y : Z) (c : nat) m m' : Prop := {
  ad_inv : inv h br m';
  ad_ev : ev [y] m m';
  ad_item iy : m !! y = Some iy -> exists iy', m' !! y = Some iy' /\ attrs iy' = attrs iy /\ sz iy' = sz iy /\ chunk_sz iy' = (chunk_sz iy - c)%nat /\ (prev iy = 0 <-> prev iy' = 0);
  ad_next z iz : m !! z = Some iz -> prev iz = y -> exists iz', m' !! z = Some iz' /\ kept iz iz';
}.
Lemma added_none h br y m : inv h br m -> added h br y 0 m m.
Proof. intros I. split; [done|apply ev_refl|..]; [intros iy Hy; exists iy; split_and!; try done; lia|]. intros z iz Hz _. by exists iz. Qed.
Lemma fresh_loc k u c cv cbit : Z.of_nat (length c) <= max_of MaxSz k u -> Forall inchar c -> (k = Split -> 0 <= cbit < NBits /\ inchar cv) -> (k = Terminal -> u = true) -> (k <> Split \/ u = true -> c <> []) ->
  loc false (fresh d0 k u c cv cbit).
Proof.
  intros Hc Hin Hs Hk Hne. destruct (lo_min k u (Z.of_nat (length c))) as (_ & Hleg & Hle); [lia|]. split; simpl; try done.
  - by rewrite length_reverse.
  - by rewrite fresh_chunk.
  - intros Hks. destruct (Hs Hks). rewrite decide_True, Z.mod_small by done. done.
  - intros _. split; [done|]. intros Hku. specialize (Hne Hku). destruct c; [done|]. simpl. lia.
Qed.
Lemma add_prefix_room sz0 k u sz' k' u' (c : nat) : legit sz0 u -> legit sz' u' -> sz0 <= sz' -> Z.of_nat c <= max_of sz0 k u - max_of sz' k' u' ->
  Z.of_nat c <= max_of MaxSz Prefix false /\ max_of (min_of Prefix false (Z.of_nat c)) Prefix false <= 22.
Proof.
  intros Hl Hl' Hle Hc. destruct (lo_diff sz0 k u sz' k' u' Hl Hl' Hle) as [H1 H2]. split; [lia|]. set (d := max_of sz0 k u - max_of sz' k' u') in *.
  destruct (lo_min Prefix false d) as (_ & Hld & Hmd); [lia|]. destruct (lo_least Prefix false (Z.of_nat c) (min_of Prefix false d)) as [Hmin _]; [lia|done|].
  destruct (lo_min Prefix false (Z.of_nat c)) as (_ & Hlc & _); [lia|]. pose proof (lo_mono _ _ Prefix false Hlc Hld Hmin). lia.
Qed.

(** The characters go to the previous item, or to a new one before it. *)
Lemma child_ne h br m y iy z iz : inv h br m -> m !! y = Some iy -> m !! z = Some iz -> prev iz = y -> z <> y /\ z <> prev iy.
Proof.
  intros I Hy Hz Hp. pose proof (i_linked _ _ _ I) as Hl. assert (y <> 0) as Hy0 by (by eapply inv_nz). assert (z <> 0) as Hz0 by (by eapply inv_nz).
  destruct (inv_parent _ _ _ I _ _ Hz ltac:(congruence)) as (_ & _ & Ez). rewrite Hp in Ez. split; [apply not_eq_sym; by eapply E_irrefl|].
  destruct (decide (prev iy = 0)) as [->|Hpy]; [done|]. destruct (inv_parent _ _ _ I _ _ Hy Hpy) as (_ & _ & Ey). apply not_eq_sym. by eapply (E_asym _ _ Hl _ _ _ _ _ Ey).
Qed.
Lemma shift_added h br m y c ix iy : inv h br m -> m !! y = Some iy -> prev iy <> 0 -> m !! prev iy = Some ix -> kind ix = Prefix -> used ix = false -> prev ix <> 0 -> (c < chunk_sz iy)%nat ->
  Z.of_nat (chunk_sz ix + c) <= max_of (sz ix) (kind ix) (used ix) -> added h br y c m (shifted m y c ix iy).
Proof.
  intros I Hy Hp Hx Hk Hu Hpx Hc Hfit. destruct (shift_link h br m y ix iy) as (_ & _ & Hpe & Hlx & _ & Hne); try done. split.
  - by eapply shift_inv.
  - eapply shift_ev; try done. set_solver.
  - intros iy0 Hy0. rewrite Hy in Hy0. injection Hy0 as <-. exists (shortened c iy). unfold shifted. by rewrite lookup_insert_eq.
  - intros z iz Hz Hpz. destruct (child_ne _ _ _ _ _ _ _ I Hy Hz Hpz). exists iz. unfold shifted. by rewrite !lookup_insert_ne.
Qed.
Lemma put_added h br m y d c ix iy : inv h br m -> m !! y = Some iy -> prev iy <> 0 -> m !! prev iy = Some ix -> m !! d = None -> d <> 0 -> (0 < c < chunk_sz iy)%nat -> Z.of_nat c <= max_of MaxSz Prefix false ->
  added h br y c m (inserted m (prev iy) y d c ix iy (fresh d0 Prefix false (take c (chunk iy)) 0 0)).
Proof.
  intros I Hy Hp Hx Hd Hd0 Hc Hroom. pose proof (inv_nonroot _ _ _ I _ _ Hy Hp) as Hly. assert (length (take c (chunk iy)) = c) as Hlen by (rewrite length_take, (loc_length _ _ Hly); lia).
  assert (loc false (fresh d0 Prefix false (take c (chunk iy)) 0 0)) as Hlf.
  { apply fresh_loc; [by rewrite Hlen|apply Forall_take, Hly|done|done|]. intros _ Hnil. rewrite Hnil in Hlen. simpl in Hlen. lia. }
  destruct (put_ne h br m (prev iy) y d ix iy) as (N1 & N2 & N3 & _); try done. split.
  - assert (inv (put_hole h d (fresh d0 Prefix false (take c (chunk iy)) 0 0)) br (inserted m (prev iy) y d c ix iy (fresh d0 Prefix false (take c (chunk iy)) 0 0))) as I1.
    { eapply (put_inv h br m (prev iy) y d c ix iy); try done; [lia|by rewrite fresh_chunk]. }
    unfold put_hole in I1. by rewrite decide_False in I1.
  - eapply (put_ev h br m (prev iy) y d c ix iy); try done. by rewrite fresh_chunk.
  - intros iy0 Hy0. rewrite Hy in Hy0. injection Hy0 as <-. exists (set_prev d true (shortened c iy)). unfold inserted. split; [mlook|]. simpl. by split_and!.
  - intros z iz Hz Hpz. destruct (child_ne _ _ _ _ _ _ _ I Hy Hz Hpz). exists iz. unfold inserted. rewrite !lookup_insert_ne by congruence. done.
Qed.
(** Merging what is before the new item [d] *)
Lemma compressed_added h br y d q c r kd id iy m m1 m' : inv h br m -> added h br y c m m1 -> m !! y = Some iy -> m1 !! d = Some id -> (exists iy1, m1 !! y = Some iy1 /\ prev iy1 = d) ->
  walk m1 r d (q ++ [d]) kd -> compressed h br d q m1 m' -> added h br y c m m' /\ is_Some (m' !! d).
Proof.
  intros I [I1 Ev1 Hi1 Hn1] Hy Hd (iy1 & Hy1 & Hp1) Hw C. assert (forall z iz, m1 !! z = Some iz -> prev iz = d -> exists k, walk m1 r z ((q ++ [d]) ++ [z]) k) as Hstep.
  { intros z iz Hz Hpz. destruct (inv_parent _ _ _ I1 _ _ Hz) as (_ & _ & Ez); [rewrite Hpz; by eapply inv_nz|]. rewrite Hpz in Ez. eexists. by eapply walk_step. }
  destruct (Hstep _ _ Hy1 Hp1) as (ky & Hwy).
  assert (forall z iz, m1 !! z = Some iz -> prev iz = y -> z ∉ q) as Hchild.
  { intros z iz Hz Hpz Hzq. destruct (inv_parent _ _ _ I1 _ _ Hz) as (_ & _ & Ez); [rewrite Hpz; by eapply inv_nz|]. rewrite Hpz in Ez.
    assert (walk m1 r z (((q ++ [d]) ++ [y]) ++ [z]) (ky ++ chunk iz)) as Hwz by (by eapply walk_step).
    apply (walk_nodup _ _ (i_linked _ _ _ I1)), NoDup_app in Hwz as (_ & Hnd & _). apply (Hnd z); set_solver. }
  apply (walk_nodup _ _ (i_linked _ _ _ I1)), NoDup_app in Hwy as (Hnd' & Hnd & _). apply NoDup_app in Hnd' as (_ & Hnd' & _).
  assert (y ∉ q) as Hyq by (intros Hin; apply (Hnd y); set_solver). assert (d ∉ q) as Hdq by (intros Hin; apply (Hnd' d); set_solver).
  assert (y <> d) as Hyd. { rewrite <- Hp1. destruct (child_ne _ _ _ _ _ _ _ I1 Hd Hy1 Hp1). congruence. }
  pose proof (co_ev _ _ _ _ _ _ C [y; d] ltac:(set_solver)) as Ev2. destruct (ev_item _ _ _ Ev2 _ _ Hd ltac:(left; set_solver)) as (id' & Hd' & _). split; [|eauto]. split.
  - apply C.
  - eapply ev_trans; [exact Ev1|]. eapply ev_weaken; [|exact Ev2]. set_solver.
  - intros iy0 Hy0. rewrite Hy in Hy0. injection Hy0 as <-. destruct (Hi1 _ Hy) as (iy1' & Hy1' & Ha1 & Hs1 & Hc1 & Hpp1). rewrite Hy1 in Hy1'. injection Hy1' as <-.
    destruct (ev_item _ _ _ Ev2 _ _ Hy1 ltac:(left; set_solver)) as (iy' & Hy' & _). exists iy'. split; [done|].
    destruct (co_frame _ _ _ _ _ _ C _ _ Hy') as (iy2 & Hy2 & Ha & Hs & Hpp & Hk). rewrite Hy1 in Hy2. injection Hy2 as <-. destruct (Hk Hyd) as (_ & _ & Hcs & _). split_and!; [congruence|congruence|congruence|tauto].
  - intros z iz Hz Hpz. destruct (Hn1 _ _ Hz Hpz) as (iz1 & Hz1 & Hk1). assert (prev iz1 = y) as Hpz1. { destruct Hk1 as (_ & _ & _ & Hb). unfold bk in Hb. congruence. }
    pose proof (Hchild _ _ Hz1 Hpz1) as Hzq. assert (z <> d) as Hzd. { destruct (child_ne _ _ _ _ _ _ _ I1 Hy1 Hz1 Hpz1). congruence. }
    pose proof (co_ev _ _ _ _ _ _ C [z] ltac:(set_solver)) as Ev3. destruct (ev_item _ _ _ Ev3 _ _ Hz1 ltac:(left; set_solver)) as (iz' & Hz' & _). exists iz'. split; [done|].
    destruct (co_frame _ _ _ _ _ _ C _ _ Hz') as (iz2 & Hz2 & _ & _ & _ & Hk). rewrite Hz1 in Hz2. injection Hz2 as <-. eapply kept_trans; [exact Hk1|by apply Hk].
Qed.

Lemma add_prefix_spec (b1 b2 b3 : bool) h br y iy csz sz' k' u' s m n k F : st s m n (S k) F -> inv h br m -> (forall z, h <> Some (z, true)) -> m !! y = Some iy -> y <> br -> F = [] -> (csz <= chunk_sz iy)%nat ->
  legit sz' u' -> sz iy <= sz' -> (n <= 40)%nat ->
  runs (_add_prefix d0 b1 b2 b3 y csz (max_of sz' k' u') s) (fun q =>
    q.2 = (csz - Z.to_nat (max_of sz' k' u'))%nat /\ exists m' n', st q.1 m' n' k F /\ added h br y q.2 m m' /\ (n' <= n + if decide (q.2 = 0%nat) then 0 else 24)%nat /\ (q.2 = 0%nat -> m' = m)).
Proof.
  intros Hst I Hh Hy Hbr -> Hcsz Hleg Hsz Hn. destruct (lo_max _ k' u' Hleg) as [_ Hmax]. unfold _add_prefix. destruct (Z.leb_spec (Z.of_nat csz) (max_of sz' k' u')) as [Hle|Hgt].
  { apply runs_ret. simpl. replace (csz - Z.to_nat (max_of sz' k' u'))%nat with 0%nat by lia. split; [done|]. exists m, n. split_and!; [eapply st_weaken; [done|lia..]|by apply added_none|simpl; lia|done]. }
  replace (Z.to_nat (Z.of_nat csz - max_of sz' k' u')) with (csz - Z.to_nat (max_of sz' k' u'))%nat by lia. set (c := (csz - Z.to_nat (max_of sz' k' u'))%nat). rat.
  assert (prev iy <> 0) as Hp.
  { intros Hp. pose proof (i_loc _ _ _ I _ _ Hy) as Hl. unfold is_root in Hl. rewrite bool_decide_true in Hl by done. destruct (l_root _ _ Hl eq_refl). lia. }
  pose proof (inv_nonroot _ _ _ I _ _ Hy Hp) as Hly. pose proof (l_chunk _ _ Hly) as Hcy. destruct (inv_parent _ _ _ I _ _ Hy Hp) as (ix & Hx & Exy). rat.
  eapply runs_eq; [by eapply loc_max, (i_loc _ _ _ I _ _ Hx)|]. assert (0 < c < chunk_sz iy)%nat as Hc by lia.
  destruct (negb (used ix) && negb (prev ix =? 0) && bool_decide (kind ix = Prefix) && (Z.of_nat (chunk_sz ix + c) <=? max_of (sz ix) (kind ix) (used ix)))%bool eqn:Hif.
  - rewrite !andb_true_iff in Hif. destruct Hif as [[[Hu Hpx] Hk] Hfit]. b2p. apply bool_decide_eq_true in Hk. destruct (shift_link h br m y ix iy) as (_ & _ & Hpe & Hlx & _ & Hne); try done.
    run (eapply backup_st; [exact Hst|exact Hx|destruct b2; simpl; lia]) as s1 Hs1. run (eapply backup_st; [exact Hs1|exact Hy|destruct b2, b3; simpl; lia]) as s2 Hs2.
    run (eapply upd_st; [exact Hs2|exact Hx|done]) as s3 Hs3. run (eapply upd__st; [exact Hs3|by rewrite lookup_insert_ne|apply shorten_by_ok; lia|done]) as s4 Hs4.
    apply runs_ret. split; [done|]. simpl. exists (shifted m y c ix iy), (n + Nat.b2n b2 + Nat.b2n b3)%nat. split_and!; [eapply st_weaken; [exact Hs4|lia..]| |rewrite decide_False by lia; destruct b2, b3; simpl; lia|lia].
    apply shift_added; try done. lia.
  - destruct (add_prefix_room (sz iy) (kind iy) (used iy) sz' k' u' c) as [Hroom H22]; [apply Hly|done|done|lia|].
    assert (length (take c (chunk iy)) = c) as Hlen by (rewrite length_take, (loc_length _ _ Hly); lia).
    run (unfold _emplace_copy; rewrite decide_False by done; unfold _emplace_from; rat; apply runs_swear; [apply Nat.leb_le; lia|]; rewrite drop_0;
      eapply emplace_item_st; [exact HL|exact Hst| |by left]) as [s1 d] (Hd & Hd0 & Hs1); [by rewrite Hlen|].
    simpl in Hd, Hd0, Hs1. destruct (put_ne h br m (prev iy) y d ix iy) as (N1 & N2 & N3 & _); try done.
    run (unfold _insert_before; eapply runs_at; [exact Hs1|mlook|]; eapply insert_between_st; [exact Hs1|mlook|by rewrite <- (E_lookup _ _ _ _ Hx)|mlook|mlook|done|done|done|done|done|done|destruct b2, b3; simpl; lia]) as s2 Hs2.
    run (eapply upd__st; [exact Hs2|mlook|apply shorten_by_ok; simpl; lia|done]) as s3 Hs3.
    set (m1 := inserted m (prev iy) y d c ix iy (fresh d0 Prefix false (take c (chunk iy)) 0 0)). assert (st s3 m1 (n + Nat.b2n b2 + Nat.b2n b3) k []) as Hs3'.
    { match type of Hs3 with st _ ?M _ _ _ => replace m1 with M; [exact Hs3|] end. unfold m1, inserted. map_ins. }
    assert (added h br y c m m1) as Ad by (apply put_added; try done; lia). pose proof (ad_inv _ _ _ _ _ _ Ad) as I1.
    assert (m1 !! d = Some (set_prev (prev iy) (prev_is_eq iy) (set_nxt true y (fresh d0 Prefix false (take c (chunk iy)) 0 0)))) as Hd1 by (unfold m1, inserted; mlook).
    assert (m1 !! y = Some (set_prev d true (shortened c iy))) as Hy1 by (unfold m1, inserted; mlook).
    destruct (lk_reach _ _ (i_linked _ _ _ I1) _ _ Hd1) as (r & pd & kd & Hwd). destruct (walk_in _ _ _ _ _ Hwd) as (_ & q & ->).
    assert (slack (set_prev (prev iy) (prev_is_eq iy) (set_nxt true y (fresh d0 Prefix false (take c (chunk iy)) 0 0))) <= 21) as Hsl by (unfold slack; simpl; rewrite Hlen; lia).
    run (eapply (compress_before_spec b1 false false); [exact Hs3'|exact I1|exact Hh|exact Hd1|exact Hwd|set_solver|destruct b1, b2, b3; simpl; lia]) as [s4 cc] Hq. apply runs_ret. simpl. split; [done|].
    rewrite decide_False by lia. destruct Hq as [[= -> ->]|(_ & m' & n' & Hs4 & C & Hb)].
    + exists m1, (n + Nat.b2n b2 + Nat.b2n b3)%nat. split_and!; [done|done|destruct b2, b3; simpl; lia|lia].
    + destruct (compressed_added _ _ _ _ _ _ _ _ _ _ _ _ _ I Ad Hy Hd1 ltac:(by eexists) Hwd C) as [Ad' [id' Hd']]. exists m', n'. split_and!; [done|done| |lia].
      specialize (Hb _ Hd'). pose proof (loc_slack _ _ (i_loc _ _ _ (co_inv _ _ _ _ _ _ C) _ _ Hd')). destruct b1, b2, b3; simpl in *; lia.
Qed.
End upd.
