(* ===== verification/PrefixGrow.v ===== *)
(** * Making room for a name in a prefix tree.

    The changes by which an item gets a new link ([mk_up], and the copy of a split item), by which a branch is
    created and linked, and by which an item becomes used or moves, of src/store/prefix.hh. *)
From S2P Require Import Prelude.
From S2P Require Import PrefixItem.
From S2P Require Import PrefixGraph.
From S2P Require Import PrefixFile.
From S2P Require Import PrefixInv.
From S2P Require Import PrefixRun.
From S2P Require Import PrefixTree.
Local Open Scope Z_scope.
Import Item.

Section grow.
Context {L : Layout} {HL : LayoutOk L} {D : Type}.
Abbreviation item := (Item.t D).
Implicit Types (m : gmap Z item) (it ix iy iz iw id : item).

(** ** A link is added *)
Section up.
Context (br : Z) m (x : Z) (b : bool) ix ix'.
Context (I : inv None br m) (Hx : m !! x = Some ix) (Hb : bk ix' = bk ix) (Hc : chunk ix' = chunk ix /\ chunk_sz ix' = chunk_sz ix /\ chars ix' = chars ix) (Hu : used ix' = used ix /\ data ix' = data ix /\ sz ix' = sz ix).
Context (Hk : kind ix <> Split /\ kind ix' = kup (kind ix)) (Hl : forall c, lnk ix' c = if decide (c = b) then Some 0 else lnk ix c) (Hnb : lnk ix b = None).
Context (Hmax : Z.of_nat (chunk_sz ix') <= max_of (sz ix') (kind ix') (used ix')).
Context (Hs : kind ix' = Split -> 0 <= cmp_bit ix' < NBits /\ inchar (cmp_val ix') /\ forall y iy, lnk ix (negb b) = Some y -> m !! y = Some iy -> PrefixFile.split_ok ix' (negb b) iy = true).
Abbreviation m' := (<[x := ix']> m).

Lemma up_linked : linked (Some (x, b)) m' /\ forall r y p k, walk m r y p k -> walk m' r y p k.
Proof.
  apply (open_hole m); [apply I|eauto|by rewrite (E_lookup _ _ _ _ Hx)|..].
  - intros z c. rewrite E_insert. destruct (decide (x = z)) as [<-|Hne]; [rewrite Hl, (E_lookup _ _ _ _ Hx)|by rewrite decide_False by naive_solver].
    destruct (decide (c = b)) as [->|]; [by rewrite decide_True|by rewrite decide_False by naive_solver].
  - intros z. rewrite U_insert. case_decide as Hd; [subst z; by rewrite (U_lookup _ _ _ Hx), Hb|done].
  - intros y it Hy. destruct (decide (x = y)) as [<-|]; [rewrite lookup_insert_eq|rewrite lookup_insert_ne by done; eauto]. exists ix'. split; [done|]. destruct Hc. congruence.
Qed.
Lemma up_loc : loc (is_root br x ix') ix'.
Proof.
  pose proof (i_loc _ _ _ I _ _ Hx) as [H1 H2 H3 H4 H5 H6 H7]. assert (is_root br x ix' = is_root br x ix) as -> by (unfold is_root; unfold bk in Hb; injection Hb as -> _; done).
  destruct Hc as (Hc1 & Hc2 & Hc3), Hu as (Hu1 & Hu2 & Hu3), Hk as [Hk1 Hk2]. split; rewrite ?Hu1, ?Hu3, ?Hc1, ?Hc2, ?Hc3 in *; try done.
  - intros Hks. destruct (Hs Hks) as (? & ? & _). done.
  - intros Hr. destruct (H7 Hr) as [H8 H9]. split; [intros Ht; rewrite Hk2 in Ht; by destruct (kind ix)|]. intros _. apply H9. by left.
Qed.
Lemma up_inv : inv (Some (x, b)) br m'.
Proof.
  apply inv_intro; [apply up_linked|..].
  - intros i it [[<- <-]|[_ Hi]]%lookup_insert_Some; [apply up_loc|by apply (i_loc _ _ _ I)].
  - intros z iz iv Hz Hp Hv Hkv. apply lookup_insert_Some in Hz as [[<- <-]|[Hne Hz]].
    + pose proof Hb as Hb'. unfold bk in Hb'. injection Hb' as Hp' Hpe'. rewrite Hp' in *. rewrite Hpe'. apply lookup_insert_Some in Hv as [[Hxx <-]|[_ Hv]].
      * exfalso. destruct (inv_parent _ _ _ I _ _ Hx Hp) as (? & _ & He). rewrite <- Hxx in He. eapply (E_irrefl _ _ (i_linked _ _ _ I)) in He; [done|by eapply inv_nz].
      * pose proof (inv_nonroot _ _ _ I _ _ Hx Hp) as Hlx. destruct (l_item _ _ Hlx eq_refl) as [_ Hn]. destruct (nonempty_head _ ix Hlx ltac:(apply Hn; left; apply Hk)) as (c & l & Hch).
        eapply (split_ok_head iv _ ix ix' c l l); try done; [|by destruct Hc; congruence|by eapply inv_edge].
        pose proof up_loc as Hl'. unfold is_root in Hl'. rewrite bool_decide_false in Hl' by (rewrite Hp'; naive_solver). done.
    + apply lookup_insert_Some in Hv as [[Hxz <-]|[_ Hv]]; [|by eapply inv_edge]. destruct (inv_parent _ _ _ I _ _ Hz Hp) as (ix0 & _ & He). rewrite <- Hxz in He.
      rewrite (E_lookup _ _ _ _ Hx) in He. assert (prev_is_eq iz = negb b) as Hpe. { destruct (decide (prev_is_eq iz = b)) as [Hpb|]; [congruence|by destruct (prev_is_eq iz), b]. }
      rewrite Hpe in *. by eapply Hs.
  - intros Hbr. destruct (i_br _ _ _ I Hbr) as (it & Hit & Hp). destruct (decide (x = br)) as [<-|]; [|rewrite lookup_insert_ne by done; eauto].
    rewrite lookup_insert_eq. exists ix'. split; [done|]. unfold bk in Hb. congruence.
Qed.
Lemma up_same : same m m'.
Proof.
  eapply keep_all_same; [apply I|apply up_linked|intros r y p k Hw _; exists p; by apply up_linked|..].
  - intros z iz Hz. destruct (decide (x = z)) as [<-|]; [rewrite lookup_insert_eq|rewrite lookup_insert_ne by done; eauto]. rewrite Hx in Hz. injection Hz as <-. exists ix'. destruct Hu as (? & ? & _).
    split_and!; try done. assert (prev ix' = prev ix) as -> by (unfold bk in Hb; congruence). done.
  - intros z iz' [[<- <-]|[_ Hz]]%lookup_insert_Some _; eauto.
Qed.
End up.

(** ** A split item is copied after itself, so that it can be split on an earlier bit *)
Definition capped m (x d y0 y1 bit : Z) (ix i0 i1 id : item) : gmap Z item :=
  <[y0 := set_prev d false i0]> (<[y1 := set_prev d true i1]> (<[d := set_prev x true (set_nxt false y0 (set_nxt true y1 id))]>
    (<[x := set_nxt false 0 (set_nxt true d (set_cmp (cmp_val ix) bit ix))]> m))).
Section cap.
Context (br : Z) m (x d y0 y1 bit : Z) (ix i0 i1 id : item).
Context (I : inv None br m) (Hx : m !! x = Some ix) (Hk : kind ix = Split) (Hn1 : nxt_eq ix = y1) (Hn0 : nxt_neq ix = y0) (Hy1 : m !! y1 = Some i1) (Hy0 : m !! y0 = Some i0).
Context (Hd : m !! d = None) (Hd0 : d <> 0) (Hid : loc false id) (Hkid : kind id = Split /\ used id = false /\ chunk id = [] /\ cmp_val id = cmp_val ix /\ cmp_bit id = cmp_bit ix).
Context (Hbit : 0 <= bit < cmp_bit ix) (Hpar : empty_split ix = true -> forall iw, prev ix <> 0 -> m !! prev ix = Some iw -> kind iw = Split -> cmp_bit iw < bit).
Abbreviation m' := (capped m x d y0 y1 bit ix i0 i1 id).

Lemma cap_links : E m x true = Some y1 /\ E m x false = Some y0 /\ bk i0 = (x, false) /\ bk i1 = (x, true) /\ x <> 0.
Proof.
  assert (E m x true = Some y1) as H1 by (rewrite (E_lookup _ _ _ _ Hx); unfold lnk; rewrite Hk; by rewrite <- Hn1). assert (E m x false = Some y0) as H0 by (rewrite (E_lookup _ _ _ _ Hx); unfold lnk; rewrite Hk; by rewrite <- Hn0).
  destruct (inv_child _ _ _ I _ _ _ _ H1 Hy1) as (P1 & Q1 & _). destruct (inv_child _ _ _ I _ _ _ _ H0 Hy0) as (P0 & Q0 & _). unfold bk. rewrite P0, P1, Q0, Q1.
  split_and!; try done. by eapply inv_nz.
Qed.
Lemma cap_ne : x <> y0 /\ x <> y1 /\ y0 <> y1 /\ x <> d /\ y0 <> d /\ y1 <> d.
Proof.
  destruct cap_links as (H1 & H0 & _). pose proof (i_linked _ _ _ I) as Hl. assert (y0 <> 0) as Z0 by (by eapply inv_nz). assert (y1 <> 0) as Z1 by (by eapply inv_nz).
  split_and!; try congruence; [by eapply E_irrefl|by eapply E_irrefl|]. intros ->. by destruct (E_inj _ _ Hl _ _ _ _ _ H0 H1 Z0).
Qed.
Lemma cap_lookup z iz' : m' !! z = Some iz' -> z = y0 /\ iz' = set_prev d false i0 \/ z = y1 /\ iz' = set_prev d true i1 \/ z = d /\ iz' = set_prev x true (set_nxt false y0 (set_nxt true y1 id)) \/
  z = x /\ iz' = set_nxt false 0 (set_nxt true d (set_cmp (cmp_val ix) bit ix)) \/ z <> y0 /\ z <> y1 /\ z <> d /\ z <> x /\ m !! z = Some iz'.
Proof. unfold capped. rewrite !lookup_insert_Some. intuition (subst; auto 10). Qed.
Lemma cap_item z iz : m !! z = Some iz -> exists iz', m' !! z = Some iz' /\ chunk iz' = chunk iz /\ used iz' = used iz /\ data iz' = data iz /\ (prev iz = 0 <-> prev iz' = 0).
Proof.
  intros Hz. destruct cap_links as (_ & _ & B0 & B1 & Hx0). unfold bk in B0, B1. injection B0 as P0 _. injection B1 as P1 _. assert (z <> d) by congruence.
  unfold capped. destruct (decide (y0 = z)) as [<-|]; [rewrite lookup_insert_eq; simplify_eq; eexists; split_and!; try done; simpl; tauto|]. rewrite lookup_insert_ne by done.
  destruct (decide (y1 = z)) as [<-|]; [rewrite lookup_insert_eq; simplify_eq; eexists; split_and!; try done; simpl; split; intros; congruence|]. rewrite !(lookup_insert_ne _ y1), !(lookup_insert_ne _ d) by done.
  destruct (decide (x = z)) as [<-|]; [rewrite lookup_insert_eq; simplify_eq; eexists; by split_and!|]. rewrite lookup_insert_ne by done. eauto 10.
Qed.
Lemma cap_linked : linked (Some (x, false)) m' /\ keep (fun _ => True) m m'.
Proof.
  destruct cap_links as (H1 & H0 & B0 & B1 & Hx0). destruct cap_ne as (N1 & N2 & N3 & N4 & N5 & N6). pose proof (i_linked _ _ _ I) as Hl. destruct Hkid as (K1 & _ & K3 & _).
  assert (forall z c, E m' z c = if decide (z = d) then E m x c else if decide (z = x) then Some (if (c : bool) then d else 0) else E m z c) as HE.
  { intros z c. unfold capped. rewrite !E_insert. destruct (decide (y0 = z)) as [<-|]; [rewrite !decide_False by congruence; by rewrite (E_lookup _ _ _ _ Hy0)|].
    destruct (decide (y1 = z)) as [<-|]; [rewrite !decide_False by congruence; by rewrite (E_lookup _ _ _ _ Hy1)|]. destruct (decide (d = z)) as [<-|].
    - rewrite decide_True by done. unfold lnk. simpl. rewrite K1. by destruct c.
    - rewrite (decide_False (P := z = d)) by done. destruct (decide (x = z)) as [<-|]; [|by rewrite decide_False]. rewrite decide_True by done. unfold lnk. simpl. rewrite Hk. by destruct c. }
  assert (forall z, U m' z = if decide (z = d) then Some (x, true) else match U m z with Some (v, c) => Some (if decide (v = x) then d else v, c) | None => None end) as HU.
  { assert (forall z iz, m !! z = Some iz -> z <> y0 -> z <> y1 -> prev iz <> x) as Hpx.
    { intros z iz Hz Hz0 Hz1 Hp. destruct (inv_parent _ _ _ I _ _ Hz) as (_ & _ & He); [congruence|]. rewrite Hp in He. destruct (prev_is_eq iz); congruence. }
    intros z. unfold capped. rewrite !U_insert. destruct (decide (y0 = z)) as [<-|]; [rewrite decide_False, (U_lookup _ _ _ Hy0), B0, decide_True by done; done|].
    destruct (decide (y1 = z)) as [<-|]; [rewrite decide_False, (U_lookup _ _ _ Hy1), B1, decide_True by done; done|]. destruct (decide (d = z)) as [<-|]; [by rewrite decide_True|].
    rewrite (decide_False (P := z = d)) by done. unfold U. destruct (decide (x = z)) as [<-|].
    - rewrite Hx. simpl. unfold bk. simpl. rewrite decide_False; [done|]. by eapply Hpx.
    - destruct (m !! z) as [iz|] eqn:Hz; [|done]. simpl. rewrite decide_False; [done|]. by eapply Hpx. }
  assert (m' !! d = Some (set_prev x true (set_nxt false y0 (set_nxt true y1 id)))) as Hdm by (unfold capped; mlook).
  assert (forall z iz, m !! z = Some iz -> exists iz', m' !! z = Some iz' /\ chunk iz' = chunk iz) as Hc by (intros z iz Hz; destruct (cap_item _ _ Hz) as (? & ? & ? & _); eauto).
  split; [eapply (linked_cap m m' x d); try done|eapply (keep_cap m m' x d); done].
Qed.
Lemma cap_inv : inv (Some (x, false)) br m'.
Proof.
  destruct cap_links as (H1 & H0 & B0 & B1 & Hx0). destruct cap_ne as (N1 & N2 & N3 & N4 & N5 & N6). destruct Hkid as (K1 & K2 & K3 & K4 & K5). pose proof (i_loc _ _ _ I _ _ Hx) as Hlx.
  destruct (l_split _ _ Hlx Hk) as [Hbx Hvx]. pose proof lo_bits as HN. apply inv_intro; [apply cap_linked|..].
  - intros z iz' [[-> ->]|[[-> ->]|[[-> ->]|[[-> ->]|(_ & _ & _ & _ & Hz)]]]]%cap_lookup; [..|by apply (i_loc _ _ _ I)].
    + rewrite is_root_set by done. apply loc_set_prev. apply (inv_child _ _ _ I _ _ _ _ H0 Hy0).
    + rewrite is_root_set by done. apply loc_set_prev. apply (inv_child _ _ _ I _ _ _ _ H1 Hy1).
    + rewrite is_root_set by done. by apply loc_set_prev, loc_set_nxt, loc_set_nxt.
    + apply loc_set_nxt, loc_set_nxt. destruct Hlx as [L1 L2 L3 L4 L5 L6 L7]. split; simpl; try done. intros _. split; [lia|done].
  - intros z iz iv Hz Hp Hv Hkv. apply cap_lookup in Hz as [[-> ->]|[[-> ->]|[[-> ->]|[[-> ->]|(Z1 & Z2 & Z3 & Z4 & Hz)]]]]; simpl in *.
    + apply cap_lookup in Hv as [[? _]|[[? _]|[[_ ->]|[[? _]|(_ & _ & ? & _)]]]]; try congruence. rewrite (split_ok_parent ix) by (repeat split; simpl; congruence). change (PrefixFile.split_ok ix false i0 = true).
      eapply (i_split _ _ _ I); done.
    + apply cap_lookup in Hv as [[? _]|[[? _]|[[_ ->]|[[? _]|(_ & _ & ? & _)]]]]; try congruence. rewrite (split_ok_parent ix) by (repeat split; simpl; congruence). change (PrefixFile.split_ok ix true i1 = true).
      eapply (i_split _ _ _ I); done.
    + apply cap_lookup in Hv as [[? _]|[[? _]|[[? _]|[[_ ->]|(_ & _ & _ & ? & _)]]]]; try congruence. assert (empty_split id = true) as He by apply (loc_empty _ Hid K3).
      change (PrefixFile.split_ok (set_cmp (cmp_val ix) bit ix) true id = true). apply split_ok_fit. rewrite (first_char_empty _ He). unfold fit. simpl. rewrite K4, K5, cb_refl. lia.
    + assert (exists iv0, m !! prev ix = Some iv0 /\ psame iv0 iv) as (iv0 & Hv0 & Hps).
      { destruct (inv_parent _ _ _ I _ _ Hx Hp) as (iw & Hw & He). apply cap_lookup in Hv as [[Hq ->]|[[Hq ->]|[[Hq ->]|[[Hq ->]|(_ & _ & _ & _ & Hv)]]]]; [rewrite Hq; by eexists|rewrite Hq; by eexists|congruence| |by exists iv].
        exfalso. rewrite Hq in He. eapply (E_irrefl _ _ (i_linked _ _ _ I)) in He; done. }
      rewrite (split_ok_parent iv0) by done. assert (kind iv0 = Split) as Hkv0 by (destruct Hps; congruence). pose proof (inv_edge _ _ _ _ _ _ I Hx Hp Hv0 Hkv0) as Hs. apply split_ok_fit in Hs as [_ Hs].
      apply split_ok_fit. split; [|done]. intros He. simpl. by eapply Hpar.
    + assert (exists iv0, m !! prev iz = Some iv0 /\ psame iv0 iv) as (iv0 & Hv0 & Hps).
      { apply cap_lookup in Hv as [[Hq ->]|[[Hq ->]|[[Hq ->]|[[Hq ->]|(_ & _ & _ & _ & Hv)]]]]; [rewrite Hq; by eexists|rewrite Hq; by eexists| | |by exists iv]; exfalso; destruct (inv_parent _ _ _ I _ _ Hz Hp) as (iw & Hw & He).
        - congruence.
        - rewrite Hq in He. destruct (prev_is_eq iz); congruence. }
      rewrite (split_ok_parent iv0) by done. eapply inv_edge; try done. destruct Hps; congruence.
  - intros Hbr. destruct (i_br _ _ _ I Hbr) as (it & Hit & Hp). destruct (cap_item _ _ Hit) as (it' & Hit' & _ & _ & _ & Hp'). exists it'. tauto.
Qed.
Lemma cap_same : same m m'.
Proof.
  eapply keep_all_same; [apply I|apply cap_linked|apply cap_linked|..].
  - intros z iz Hz. destruct (cap_item _ _ Hz) as (iz' & ? & _ & ? & ? & ?). eauto.
  - destruct cap_ne as (N1 & N2 & N3 & N4 & N5 & N6). destruct cap_links as (_ & _ & _ & _ & Hx0). destruct Hkid as (_ & K2 & _).
    intros z iz' [[-> ->]|[[-> ->]|[[-> ->]|[[-> ->]|(_ & _ & _ & _ & Hz)]]]]%cap_lookup Hor; eauto. exfalso. simpl in Hor. destruct Hor; congruence.
Qed.
End cap.

(** ** A new branch, and its extension *)
Definition extended m (x e : Z) ix id : gmap Z item := <[e := set_prev x true id]> (<[x := set_nxt true e ix]> m).
Section extend.
Context m (x e : Z) ix id (Hl : linked (Some (x, true)) m) (Hx : m !! x = Some ix) (Hk : kind ix = Prefix) (He : m !! e = None) (He0 : e <> 0) (Hb : bk id = (0, true)) (Hid : kind id = Terminal \/ kind id = Prefix /\ nxt_eq id = 0).
Abbreviation m' := (extended m x e ix id).
(** As a terminal item, which then gets a link if it is a prefix *)
Lemma extend_linked : linked (if decide (kind id = Terminal) then None else Some (e, true)) m' /\ (forall r z p k, walk m r z p k -> walk m' r z p k) /\
  (forall r p k, walk m r x p k -> walk m' r e (p ++ [e]) (k ++ chunk id)).
Proof.
  assert (x <> e) as Hne by congruence. set (idt := set_kind Terminal id). destruct (linked_new (Some (x, true)) m e idt Hl He He0 Hb ltac:(by left)) as (La & Wa & Se). rewrite decide_True in La by done. set (ma := <[e := idt]> m) in *.
  set (mb := <[e := set_prev x true idt]> (<[x := set_nxt true e ix]> m)).
  assert (forall z c, E mb z c = if decide (z = x /\ c = true) then Some e else E ma z c) as HE.
  { intros z c. unfold mb, ma. rewrite !E_insert. destruct (decide (e = z)) as [<-|]; [rewrite decide_False by (intros [? ?]; congruence); done|]. destruct (decide (x = z)) as [<-|]; [|rewrite decide_False by (intros [? ?]; congruence); done].
    destruct c; [rewrite decide_True by done; unfold lnk; simpl; by rewrite Hk|rewrite decide_False by (intros [? ?]; congruence)]. rewrite (E_lookup _ _ _ _ Hx). unfold lnk. simpl. by rewrite Hk. }
  assert (forall z, U mb z = if decide (z = e) then Some (x, true) else U ma z) as HU.
  { intros z. unfold mb, ma. rewrite !U_insert. destruct (decide (e = z)) as [<-|]; [by rewrite decide_True|]. rewrite (decide_False (P := z = e)) by done. destruct (decide (x = z)) as [<-|]; [by rewrite (U_lookup _ _ _ Hx)|done]. }
  assert (forall z iz, ma !! z = Some iz -> exists iz', mb !! z = Some iz' /\ chunk iz' = chunk iz) as Hc.
  { intros z iz. unfold ma, mb. rewrite !lookup_insert. destruct (decide (e = z)) as [<-|]; [intros [= <-]; eauto|]. destruct (decide (x = z)) as [<-|]; [|eauto]. intros Hz. rewrite Hx in Hz. injection Hz as <-. eauto. }
  destruct (lk_reach _ _ Hl _ _ Hx) as (rx & px & kx & Hwx). assert (rx <> e) as Hre. { intros ->. destruct (walk_from _ _ _ _ _ Hwx) as (? & ? & _). congruence. }
  assert (ma !! e = Some idt) as Hae by (unfold ma; mlook). assert (prev idt = 0) as Hp0 by (unfold bk in Hb; simpl; congruence).
  assert (linked None mb) as Lb by (eapply (linked_fill ma mb x true e idt La Hae Hp0 rx px kx); try done; by apply Wa).
  assert (forall r z p k, walk m r z p k -> walk mb r z p k) as Wb.
  { intros r z p k Hw. assert (r <> e) as Hr. { intros ->. destruct (walk_from _ _ _ _ _ Hw) as (? & ? & _). congruence. }
    assert (if decide (r = e) then walk mb rx z (px ++ p) (kx ++ k) else walk mb r z p k) as Hf by (eapply (walk_fill ma mb x true e); try done; by apply Wa). by rewrite decide_False in Hf. }
  assert (forall r p k, walk m r x p k -> walk mb r e (p ++ [e]) (k ++ chunk id)) as Web.
  { intros r p k Hw. change (chunk id) with (chunk (set_prev x true idt)). eapply walk_step; [by apply Wb| |unfold mb; mlook]. by rewrite HE, decide_True. }
  case_decide as Hkt.
  { assert (m' = mb) as ->; [|done]. unfold extended, mb, idt. rewrite <- Hkt. by destruct id. }
  assert (forall z c, E m' z c = if decide (z = e /\ c = true) then Some 0 else E mb z c) as HE'.
  { intros z c. unfold extended, mb. rewrite !E_insert. destruct (decide (e = z)) as [<-|]; [|rewrite (decide_False (P := z = e /\ c = true)) by (intros [? ?]; congruence); done]. destruct Hid as [?|[Hkp Hn]]; [done|].
    unfold lnk. simpl. rewrite Hkp. destruct c; simpl; [rewrite decide_True by done; by rewrite <- Hn|by rewrite decide_False by (intros [? ?]; congruence)]. }
  destruct (open_hole mb m' e true) as [Lc Wc]; try done.
  - unfold mb. rewrite lookup_insert_eq. eauto.
  - unfold mb. rewrite E_insert, decide_True by done. done.
  - intros z. unfold extended, mb. by rewrite !U_insert.
  - intros z iz. unfold extended, mb. rewrite !lookup_insert. destruct (decide (e = z)) as [<-|]; [intros [= <-]; eauto|eauto].
  - split_and!; [done|by intros; apply Wc, Wb|]. intros r p k Hw. apply Wc. by apply Web.
Qed.
End extend.

(** The names after an item has been added *)
Lemma has_new h h' m m' e ie r0 p0 key0 : linked h m -> linked h' m' -> keep (fun _ => True) m m' -> m !! e = None -> m' !! e = Some ie -> walk m' r0 e p0 key0 ->
  (forall z iz, m !! z = Some iz -> exists iz', m' !! z = Some iz' /\ used iz' = used iz /\ data iz' = data iz) -> (forall z, is_Some (m' !! z) -> z <> e -> is_Some (m !! z)) ->
  forall r k i d, has m' r k i d <-> has m r k i d \/ used ie = true /\ r = r0 /\ k = key0 /\ i = e /\ d = data ie.
Proof.
  intros Hl Hl' Hk He He' Hwe Hf Hb r k i d. split.
  - intros (p & it & Hw & Hi & Hu & Hd). destruct (decide (i = e)) as [->|Hne].
    + right. destruct (walk_unique _ _ Hl' _ _ _ _ _ _ _ Hw Hwe) as (-> & _ & ->). rewrite He' in Hi. injection Hi as <-. done.
    + left. destruct (Hb i ltac:(eauto) Hne) as [it0 Hi0]. destruct (Hf _ _ Hi0) as (it' & Hi' & Hu' & Hd'). rewrite Hi in Hi'. injection Hi' as <-. destruct (lk_reach _ _ Hl _ _ Hi0) as (r1 & p1 & k1 & Hw1).
      destruct (Hk _ _ _ _ Hw1 Logic.I) as (p2 & Hw2). destruct (walk_unique _ _ Hl' _ _ _ _ _ _ _ Hw Hw2) as (-> & _ & ->). exists p1, it0. split_and!; congruence.
  - intros [(p & it & Hw & Hi & Hu & Hd)|(Hu & -> & -> & -> & ->)]; [|by exists p0, ie]. destruct (Hk _ _ _ _ Hw Logic.I) as (p2 & Hw2). destruct (Hf _ _ Hi) as (it' & Hi' & Hu' & Hd'). exists p2, it'. split_and!; congruence.
Qed.

(** A branch of unused items from [br] to [last], for the characters [key]; a terminal item ends it. *)
Record detached (d0 : D) m0 m (br last : Z) (key : list Z) (fin : bool) : Prop := {
  dt_inv : inv (if fin then None else Some (last, true)) br m;
  dt_items : m0 ⊆ m;
  dt_new : m0 !! br = None /\ m0 !! last = None;
  dt_last : exists it, m !! last = Some it /\ kind it = if fin then Terminal else Prefix;
  dt_walk : exists p, walk m br last p key;
  dt_keep r y p k : walk m0 r y p k -> walk m r y p k;
  dt_has r k i d : has m r k i d <-> has m0 r k i d \/ fin = true /\ r = br /\ k = key /\ i = last /\ d = d0;
  dt_root r : root m r <-> root m0 r \/ r = br;
  dt_head : exists it, m !! br = Some it /\ kind it <> Split;
}.
(** An item to add to a branch *)
Definition branch_item (d0 : D) id (fin : bool) : Prop := loc false id /\ bk id = (0, true) /\ data id = d0 /\ if fin then kind id = Terminal /\ used id = true else kind id = Prefix /\ used id = false /\ nxt_eq id = 0.

Lemma detached_start d0 m0 d id fin : inv None 0 m0 -> m0 !! d = None -> d <> 0 -> branch_item d0 id fin -> detached d0 m0 (<[d := id]> m0) d d (chunk id) fin.
Proof.
  intros I Hd Hd0 (Hlid & Hb & Hdat & Hid). pose proof (i_linked _ _ _ I) as Hl. assert (kind id = Terminal \/ kind id = Prefix /\ nxt_eq id = 0 /\ None = @None (Z * bool)) as Hk by (destruct fin; [left|right]; naive_solver).
  destruct (linked_new None m0 d id Hl Hd Hd0 Hb Hk) as (L1 & W1 & S1). assert ((if decide (kind id = Terminal) then None else Some (d, true)) = if fin then None else Some (d, true)) as Hh.
  { destruct fin; [by rewrite decide_True by naive_solver|]. rewrite decide_False; [done|]. destruct Hid as [-> _]. done. }
  rewrite Hh in L1. split.
  - apply inv_intro; [done|..].
    + intros i it [[<- <-]|[Hne Hi]]%lookup_insert_Some; [unfold is_root; by rewrite bool_decide_false by (by intros [_ ?])|]. pose proof (i_loc _ _ _ I _ _ Hi) as Hli. unfold is_root in *.
      assert (i <> 0) by (by eapply inv_nz). destruct (decide (prev it = 0)); [rewrite bool_decide_true by done; rewrite bool_decide_true in Hli by done; done|].
      rewrite bool_decide_false by (by intros [? _]). rewrite bool_decide_false in Hli by (by intros [? _]). done.
    + intros z iz iv [[<- <-]|[Hne Hz]]%lookup_insert_Some Hp; [unfold bk in Hb; congruence|]. intros [[Hq <-]|[_ Hv]]%lookup_insert_Some Hkv; [destruct fin; destruct Hid as [? _]; congruence|by eapply inv_edge].
    + intros _. exists id. rewrite lookup_insert_eq. split; [done|]. unfold bk in Hb. congruence.
  - by apply insert_subseteq.
  - done.
  - exists id. rewrite lookup_insert_eq. split; [done|]. by destruct fin, Hid.
  - eauto.
  - done.
  - intros r k i e. rewrite (has_new None _ m0 _ d id d _ (chunk id) Hl L1 ltac:(intros ? ? ? ? ? _; eauto) Hd ltac:(apply lookup_insert_eq) S1).
    + destruct fin; [destruct Hid as [_ ->]|destruct Hid as (_ & -> & _)]; rewrite Hdat; naive_solver.
    + intros z iz Hz. rewrite lookup_insert_ne by congruence. eauto.
    + intros z [iz Hz] Hne. rewrite lookup_insert_ne in Hz by done. eauto.
  - intros r. unfold root. setoid_rewrite lookup_insert_Some. unfold bk in Hb. split.
    + intros (it & [[-> <-]|[? ?]] & ?); [by right|left; eauto].
    + intros [(it & Hr & ?)| ->]; [exists it; split; [right; split; [congruence|done]|done]|]. exists id. split; [by left|congruence].
  - exists id. rewrite lookup_insert_eq. split; [done|]. destruct fin; destruct Hid as [-> _]; done.
Qed.
Lemma detached_extend d0 m0 m br last key il e id fin : detached d0 m0 m br last key false -> m !! last = Some il -> m !! e = None -> e <> 0 -> branch_item d0 id fin ->
  detached d0 m0 (extended m last e il id) br e (key ++ chunk id) fin.
Proof.
  intros [I Hit [Hn1 Hn2] (il' & Hil' & Hkl) (pw & Hw) Hkp Hhas Hroot (ih & Hih & Hkh)] Hil He He0 (Hlid & Hb & Hdat & Hid). rewrite Hil in Hil'. injection Hil' as <-. pose proof (i_linked _ _ _ I) as Hl.
  assert (last <> e) as Hne by congruence. assert (kind id = Terminal \/ kind id = Prefix /\ nxt_eq id = 0) as Hk by (destruct fin; [left|right]; naive_solver).
  destruct (extend_linked m last e il id Hl Hil Hkl He He0 Hb Hk) as (L1 & W1 & S1). assert ((if decide (kind id = Terminal) then None else Some (e, true)) = if fin then None else Some (e, true)) as Hh.
  { destruct fin; [by rewrite decide_True by naive_solver|]. rewrite decide_False; [done|]. destruct Hid as [-> _]. done. }
  rewrite Hh in L1. assert (forall z iz', extended m last e il id !! z = Some iz' -> z = e /\ iz' = set_prev last true id \/ z = last /\ iz' = set_nxt true e il \/ z <> e /\ z <> last /\ m !! z = Some iz') as Hlook.
  { intros z iz'. unfold extended. rewrite !lookup_insert_Some. intuition (subst; auto). }
  split.
  - apply inv_intro; [done|..].
    + intros i it [[-> ->]|[[-> ->]|(_ & _ & Hi)]]%Hlook; [rewrite is_root_set by (by eapply inv_nz); by apply loc_set_prev|apply loc_set_nxt; apply (i_loc _ _ _ I _ _ Hil)|by apply (i_loc _ _ _ I)].
    + intros z iz iv Hz Hp Hv Hkv. apply Hlook in Hv as [[Hq ->]|[[Hq ->]|(_ & Hnl & Hv)]]; [destruct fin; destruct Hid as [? _]; simpl in Hkv; congruence|simpl in Hkv; congruence|].
      apply Hlook in Hz as [[-> ->]|[[-> ->]|(_ & _ & Hz)]]; [done|apply (inv_edge _ _ _ _ _ _ I Hil Hp Hv Hkv)|by eapply inv_edge].
    + intros Hbr. destruct (i_br _ _ _ I Hbr) as (it & Hi & Hp). unfold extended. rewrite lookup_insert_ne by congruence. destruct (decide (last = br)) as [<-|]; [rewrite lookup_insert_eq; eexists; split; [done|]; simpl; congruence|].
      rewrite lookup_insert_ne by done. eauto.
  - apply map_subseteq_spec. intros z iz Hz. pose proof (lookup_weaken _ _ _ _ Hz Hit) as Hzm. unfold extended. by rewrite !lookup_insert_ne by congruence.
  - split; [done|]. destruct (m0 !! e) eqn:Hme; [|done]. exfalso. apply (lookup_weaken _ _ _ _ Hme) in Hit. congruence.
  - exists (set_prev last true id). unfold extended. rewrite lookup_insert_eq. split; [done|]. by destruct fin, Hid.
  - eauto.
  - intros. by apply W1, Hkp.
  - intros r k i d. rewrite (has_new _ _ m _ e (set_prev last true id) br _ (key ++ chunk id) Hl L1 ltac:(intros ? ? ? ? ? _; eauto) He ltac:(unfold extended; mlook) (S1 _ _ _ Hw)).
    + rewrite Hhas. simpl. destruct fin; [destruct Hid as [_ ->]|destruct Hid as (_ & -> & _)]; rewrite Hdat; clear; intuition done.
    + intros z iz Hz. unfold extended. rewrite lookup_insert_ne by congruence. destruct (decide (last = z)) as [<-|]; [rewrite lookup_insert_eq|rewrite lookup_insert_ne by done; eauto].
      rewrite Hil in Hz. injection Hz as <-. eauto.
    + intros z [iz Hz] Hze. apply Hlook in Hz as [[? _]|[[-> _]|(_ & _ & Hz)]]; [done|eauto|eauto].
  - intros r. rewrite <- Hroot. unfold root. assert (last <> 0) as Hl0 by (by eapply inv_nz). split.
    + intros (it & [[-> ->]|[[-> ->]|(_ & _ & Hr)]]%Hlook & Hp); [done|eauto|eauto].
    + intros (it & Hr & Hp). unfold extended. rewrite lookup_insert_ne by congruence. destruct (decide (last = r)) as [<-|]; [rewrite lookup_insert_eq|rewrite lookup_insert_ne by done; eauto].
      rewrite Hil in Hr. injection Hr as <-. eauto.
  - unfold extended. rewrite lookup_insert_ne by congruence. destruct (decide (last = br)) as [<-|]; [|rewrite lookup_insert_ne by done; eauto]. rewrite lookup_insert_eq. eexists. split; [done|]. simpl. congruence.
Qed.

(** ** A branch is linked *)
Definition attached m (x : Z) (b : bool) (n : Z) ix iy : gmap Z item := <[n := set_prev x b iy]> (<[x := set_nxt b n ix]> m).
Section attach.
Context m (x : Z) (b : bool) (n r : Z) ix iy (px kx : list Z).
Context (I : inv (Some (x, b)) n m) (Hx : m !! x = Some ix) (Hn : m !! n = Some iy) (Hw : walk m r x px kx) (Hr : r <> n) (Hs : kind ix = Split -> PrefixFile.split_ok ix b iy = true).
Context (Hp : prev iy = 0).
Abbreviation m' := (attached m x b n ix iy).

Lemma attach_ne : x <> n /\ lnk ix b = Some 0 /\ x <> 0 /\ n <> 0.
Proof.
  pose proof (i_linked _ _ _ I) as Hl. split_and!; [|rewrite <- (E_lookup _ _ _ _ Hx); by apply (lk_hole _ _ Hl)|by eapply inv_nz|by eapply inv_nz].
  intros ->. assert (walk m n n [n] (chunk iy)) as Hw' by (by apply walk_root). by destruct (walk_unique _ _ Hl _ _ _ _ _ _ _ Hw Hw').
Qed.
Lemma attach_lookup z iz' : m' !! z = Some iz' -> z = n /\ iz' = set_prev x b iy \/ z = x /\ iz' = set_nxt b n ix \/ z <> n /\ z <> x /\ m !! z = Some iz'.
Proof. destruct attach_ne as (Hne & _). unfold attached. rewrite !lookup_insert_Some. intuition (subst; auto). Qed.
Lemma attach_item z iz : m !! z = Some iz -> exists iz', m' !! z = Some iz' /\ chunk iz' = chunk iz /\ used iz' = used iz /\ data iz' = data iz /\ (z <> n -> prev iz' = prev iz).
Proof.
  intros Hz. destruct attach_ne as (Hne & _). unfold attached. destruct (decide (n = z)) as [<-|]; [rewrite lookup_insert_eq; rewrite Hn in Hz; injection Hz as <-; eexists; by split_and!|]. rewrite lookup_insert_ne by done.
  destruct (decide (x = z)) as [<-|]; [rewrite lookup_insert_eq; rewrite Hx in Hz; injection Hz as <-; eexists; by split_and!|]. rewrite lookup_insert_ne by done. eauto 10.
Qed.
Lemma attach_linked : linked None m' /\ forall r' z p k, walk m r' z p k -> if decide (r' = n) then walk m' r z (px ++ p) (kx ++ k) else walk m' r' z p k.
Proof.
  destruct attach_ne as (Hne & Hlk & Hx0 & Hn0). pose proof (i_linked _ _ _ I) as Hl.
  assert (forall z c, E m' z c = if decide (z = x /\ c = b) then Some n else E m z c) as HE.
  { intros z c. unfold attached. rewrite !E_insert. destruct (decide (n = z)) as [<-|]; [rewrite decide_False by (intros [? ?]; congruence); by rewrite (E_lookup _ _ _ _ Hn)|].
    destruct (decide (x = z)) as [<-|]; [|rewrite decide_False by (intros [? ?]; congruence); done]. destruct (decide (c = b)) as [->|Hcb]; [rewrite decide_True by done; by eapply lnk_set_nxt|].
    rewrite decide_False by (intros [? ?]; congruence). assert (c = negb b) as -> by (by destruct c, b). by rewrite lnk_set_other, (E_lookup _ _ _ _ Hx). }
  assert (forall z, U m' z = if decide (z = n) then Some (x, b) else U m z) as HU.
  { intros z. unfold attached. rewrite !U_insert. destruct (decide (n = z)) as [<-|]; [by rewrite decide_True|]. rewrite (decide_False (P := z = n)) by done. destruct (decide (x = z)) as [<-|]; [by rewrite (U_lookup _ _ _ Hx)|done]. }
  assert (forall z iz, m !! z = Some iz -> exists iz', m' !! z = Some iz' /\ chunk iz' = chunk iz) as Hc by (intros z iz Hz; destruct (attach_item _ _ Hz) as (? & ? & ? & _); eauto).
  split; [eapply (linked_fill m m' x b n iy Hl Hn Hp r px kx); done|]. intros. eapply (walk_fill m m' x b n); done.
Qed.
Lemma attach_inv : inv None 0 m'.
Proof.
  destruct attach_ne as (Hne & Hlk & Hx0 & Hn0). assert (forall i it, m !! i = Some it -> i <> n -> loc (is_root 0 i it) it) as Hloc.
  { intros i it Hi Hin. pose proof (i_loc _ _ _ I _ _ Hi) as Hli. unfold is_root in *. assert (i <> 0) by (by eapply inv_nz).
    destruct (decide (prev it = 0)); [rewrite bool_decide_true by done; rewrite bool_decide_true in Hli by done; done|]. rewrite bool_decide_false by (by intros [? _]). rewrite bool_decide_false in Hli by (by intros [? _]). done. }
  apply inv_intro; [apply attach_linked|..|done].
  - intros i it [[-> ->]|[[-> ->]|(Hin & _ & Hi)]]%attach_lookup; [|apply loc_set_nxt; exact (Hloc _ _ Hx Hne)|by apply Hloc].
    rewrite is_root_set by done. apply loc_set_prev. pose proof (i_loc _ _ _ I _ _ Hn) as Hli. unfold is_root in Hli. by rewrite bool_decide_false in Hli by (by intros [_ ?]).
  - intros z iz iv Hz Hpz Hv Hkv. assert (exists iv0, m !! prev iz = Some iv0 /\ psame iv0 iv) as (iv0 & Hv0 & Hps).
    { apply attach_lookup in Hv as [[Hq ->]|[[Hq ->]|(_ & _ & Hv)]]; [rewrite Hq; by exists iy|rewrite Hq; by exists ix|by exists iv]. }
    rewrite (split_ok_parent iv0) by done. assert (kind iv0 = Split) as Hks by (destruct Hps; congruence). apply attach_lookup in Hz as [[-> ->]|[[-> ->]|(_ & _ & Hz)]]; simpl in *.
    + rewrite Hx in Hv0. injection Hv0 as <-. by apply Hs.
    + apply (inv_edge _ _ _ _ _ _ I Hx); done.
    + by eapply inv_edge.
Qed.
Lemma attach_has r' k j d : has m' r' k j d <-> r' <> n /\ has m r' k j d \/ r' = r /\ exists k2, k = kx ++ k2 /\ has m n k2 j d.
Proof.
  destruct attach_linked as [Hl' Hwk]. pose proof (i_linked _ _ _ I) as Hl. split.
  - intros (p & it & Hwj & Hj & Hu & Hd). assert (exists it0, m !! j = Some it0 /\ used it0 = used it /\ data it0 = data it) as (it0 & Hj0 & Hu0 & Hd0).
    { apply attach_lookup in Hj as [[-> ->]|[[-> ->]|(_ & _ & Hj)]]; [by exists iy|by exists ix|by exists it]. }
    destruct (lk_reach _ _ Hl _ _ Hj0) as (r1 & p1 & k1 & Hw1). pose proof (Hwk _ _ _ _ Hw1) as Hw2. case_decide as Hrn.
    + right. destruct (walk_unique _ _ Hl' _ _ _ _ _ _ _ Hwj Hw2) as (-> & _ & ->). split; [done|]. exists k1. split; [done|]. subst r1. exists p1, it0. split_and!; congruence.
    + left. destruct (walk_unique _ _ Hl' _ _ _ _ _ _ _ Hwj Hw2) as (-> & _ & ->). split; [done|]. exists p1, it0. split_and!; congruence.
  - intros [[Hrn (p & it & Hwj & Hj & Hu & Hd)]|(-> & k2 & -> & (p & it & Hwj & Hj & Hu & Hd))]; destruct (attach_item _ _ Hj) as (it' & Hj' & _ & Hu' & Hd' & _); pose proof (Hwk _ _ _ _ Hwj) as Hw2.
    + rewrite decide_False in Hw2 by done. exists p, it'. split_and!; congruence.
    + rewrite decide_True in Hw2 by done. exists (px ++ p), it'. split_and!; congruence.
Qed.
Lemma attach_root r' : root m' r' <-> root m r' /\ r' <> n.
Proof.
  destruct attach_ne as (Hne & Hlk & Hx0 & Hn0). unfold root. split.
  - intros (it & [[-> ->]|[[-> ->]|(Hrn & _ & Hz)]]%attach_lookup & Hpz); simpl in *; [done|split; eauto|split; eauto].
  - intros [(it & Hz & Hpz) Hrn]. destruct (attach_item _ _ Hz) as (it' & Hz' & _ & _ & _ & Hp'). exists it'. split; [done|]. by rewrite Hp'.
Qed.
End attach.

(** ** An item becomes used *)
Section use.
Context (br : Z) m (x : Z) (d0 : D) ix (I : inv None br m) (Hx : m !! x = Some ix) (Hu : used ix = false).
Context (Hleg : legit (sz ix) true) (Hmax : Z.of_nat (chunk_sz ix) <= max_of (sz ix) (kind ix) true) (Hne : prev ix <> 0 -> (0 < chunk_sz ix)%nat) (Hbr : x <> br).
Abbreviation ix' := (set_used true d0 ix).
Abbreviation m' := (<[x := ix']> m).
Lemma use_links : linked None m' /\ keep (fun _ => True) m m'.
Proof. split; [eapply linked_attr; [apply I|exact Hx|done..]|by eapply keep_attr]. Qed.
Lemma use_inv : inv None br m'.
Proof.
  apply inv_intro; [apply use_links|..].
  - intros i it [[<- <-]|[_ Hi]]%lookup_insert_Some; [|by apply (i_loc _ _ _ I)]. pose proof (i_loc _ _ _ I _ _ Hx) as [L1 L2 L3 L4 L5 L6 L7]. change (is_root br x ix') with (is_root br x ix). split; simpl; try done.
    intros Hr. split; [done|]. intros _. apply Hne. unfold is_root in Hr. apply bool_decide_eq_false in Hr. intros Hp. by apply Hr.
  - intros z iz iv Hz Hp Hv Hkv. assert (exists iv0, m !! prev iz = Some iv0 /\ psame iv0 iv) as (iv0 & Hv0 & Hps) by (apply lookup_insert_Some in Hv as [[<- <-]|[_ Hv]]; [by exists ix|by exists iv]).
    rewrite (split_ok_parent iv0) by done. assert (kind iv0 = Split) as Hks by (destruct Hps; congruence). apply lookup_insert_Some in Hz as [[<- <-]|[_ Hz]]; [apply (inv_edge _ _ _ _ _ _ I Hx); done|by eapply inv_edge].
  - intros Hb. destruct (i_br _ _ _ I Hb) as (it & Hit & Hp). rewrite lookup_insert_ne by done. eauto.
Qed.
Lemma use_gains r p key : walk m r x p key -> gains m m' r key x d0.
Proof.
  intros Hw. destruct use_links as [Hl' Hk]. pose proof (i_linked _ _ _ I) as Hl. destruct (Hk _ _ _ _ Hw Logic.I) as (p1 & Hw1). assert (m' !! x = Some ix') as Hx' by apply lookup_insert_eq. split.
  - intros r' k j d. split.
    + intros (pj & ij & Hwj & Hj & Huj & Hd). destruct (decide (j = x)) as [->|Hjx].
      * right. destruct (walk_unique _ _ Hl' _ _ _ _ _ _ _ Hwj Hw1) as (-> & _ & ->). rewrite Hx' in Hj. injection Hj as <-. done.
      * left. rewrite lookup_insert_ne in Hj by done. destruct (lk_reach _ _ Hl _ _ Hj) as (r0 & p0 & k0 & Hw0). destruct (Hk _ _ _ _ Hw0 Logic.I) as (p2 & Hw2).
        destruct (walk_unique _ _ Hl' _ _ _ _ _ _ _ Hwj Hw2) as (-> & _ & ->). by exists p0, ij.
    + intros [(pj & ij & Hwj & Hj & Huj & Hd)|(-> & -> & -> & ->)]; [|by exists p1, ix']. destruct (Hk _ _ _ _ Hwj Logic.I) as (p2 & Hw2). exists p2, ij. rewrite lookup_insert_ne by congruence. done.
  - intros r'. unfold root. setoid_rewrite lookup_insert_Some. split.
    + intros (it & [[<- <-]|[_ Hr]] & Hp); eauto.
    + intros (it & Hr & Hp). destruct (decide (x = r')) as [<-|]; [|eauto]. exists ix'. split; [by left|]. simpl. congruence.
  - intros r' q k Hq. by eapply Hk.
Qed.
End use.

(** ** An item moves *)
Definition relink (x d w : Z) (e : bool) (z : Z) iz : item :=
  let iz' := if decide (z = w) then set_nxt e d iz else iz in if decide (prev iz = x) then set_prev d (prev_is_eq iz) iz' else iz'.
Lemma relink_child x d w e z iz : z <> w -> prev iz = x -> relink x d w e z iz = set_prev d (prev_is_eq iz) iz.
Proof. intros Hw Hp. unfold relink. by rewrite (decide_False (P := z = w)), decide_True. Qed.
Lemma relink_parent x d w e iz : prev iz <> x -> relink x d w e w iz = set_nxt e d iz.
Proof. intros Hp. unfold relink. by rewrite (decide_True (P := w = w)), decide_False. Qed.
Lemma relink_other x d w e z iz : z <> w -> prev iz <> x -> relink x d w e z iz = iz.
Proof. intros Hw Hp. unfold relink. by rewrite (decide_False (P := z = w)), decide_False. Qed.
Section move.
Context m m' (x d : Z) ix id (I : inv None 0 m) (Hx : m !! x = Some ix) (Hp : prev ix <> 0) (Hd : m !! d = None) (Hd0 : d <> 0) (Hu : used ix = false).
Abbreviation w := (prev ix).
Abbreviation e := (prev_is_eq ix).
Context (Hm : forall z, m' !! z = if decide (z = x) then None else if decide (z = d) then Some id else relink x d w e z <$> m !! z).
Context (Hbk : bk id = bk ix) (Hlk : forall c, lnk id c = lnk ix c) (Hch : chunk id = chunk ix /\ chunk_sz id = chunk_sz ix) (Hkd : kind id = kind ix) (Hps : kind ix = Split -> psame ix id) (Hloc : loc false id) (Hud : used id = true).

Lemma relink_attrs z iz : chunk (relink x d w e z iz) = chunk iz /\ chunk_sz (relink x d w e z iz) = chunk_sz iz /\ psame iz (relink x d w e z iz) /\ used (relink x d w e z iz) = used iz /\ data (relink x d w e z iz) = data iz /\
  prev_is_eq (relink x d w e z iz) = prev_is_eq iz /\ prev (relink x d w e z iz) = if decide (prev iz = x) then d else prev iz.
Proof. unfold relink. by destruct (decide (z = w)), (decide (prev iz = x)). Qed.
Lemma relink_loc r z iz : loc r iz -> loc r (relink x d w e z iz).
Proof. intros Hl. unfold relink. destruct (decide (z = w)), (decide (prev iz = x)); auto using loc_set_prev, loc_set_nxt. Qed.
Lemma move_old z iz : m !! z = Some iz -> z <> x -> m' !! z = Some (relink x d w e z iz).
Proof. intros Hz Hzx. rewrite Hm, decide_False, decide_False by congruence. by rewrite Hz. Qed.
Lemma move_lookup z iz' : m' !! z = Some iz' -> z <> x /\ (z = d /\ iz' = id \/ z <> d /\ exists iz, m !! z = Some iz /\ iz' = relink x d w e z iz).
Proof. rewrite Hm. repeat case_decide; [done|naive_solver|]. intros (iz & -> & Hz)%fmap_Some. eauto 10. Qed.

Lemma move_linked : linked None m' /\ forall r z p k, walk m r z p k -> exists p', walk m' r (if decide (z = x) then d else z) p' k.
Proof.
  pose proof (i_linked _ _ _ I) as Hl. destruct (inv_parent _ _ _ I _ _ Hx Hp) as (iw & Hw & Ewx). assert (w <> x) as Hwx by (eapply E_irrefl; [done..|by eapply inv_nz]).
  assert (U m x = Some (w, e)) as Hux by (by rewrite (U_lookup _ _ _ Hx)).
  assert (forall z c, E m' z c = if decide (z = x) then None else if decide (z = d) then E m x c else if decide (z = w /\ c = e) then Some d else E m z c) as HE.
  { intros z c. unfold E. rewrite Hm. destruct (decide (z = x)); [done|]. destruct (decide (z = d)); [simpl; by rewrite Hx, Hlk|]. destruct (decide (z = w)) as [->|Hzw].
    - rewrite Hw. simpl. assert (lnk (relink x d w e w iw) c = lnk (set_nxt e d iw) c) as -> by (unfold relink; destruct (decide (w = w)); [|done]; by destruct (decide (prev iw = x))).
      rewrite (E_lookup _ _ _ _ Hw) in Ewx. destruct (decide (c = e)) as [->|Hce]; [rewrite decide_True by done; by eapply lnk_set_nxt|]. rewrite decide_False by (intros [? ?]; congruence).
      assert (c = negb e) as -> by (by destruct c, e). apply lnk_set_other.
    - rewrite decide_False by (intros [? ?]; congruence). destruct (m !! z) as [iz|]; [|done]. simpl. unfold relink. destruct (decide (z = w)); [done|]. by destruct (decide (prev iz = x)). }
  assert (forall z, U m' z = if decide (z = x) then None else if decide (z = d) then Some (w, e) else match U m z with Some (v, c) => Some (if decide (v = x) then d else v, c) | None => None end) as HU.
  { intros z. unfold U at 1. rewrite Hm. destruct (decide (z = x)); [done|]. destruct (decide (z = d)); [simpl; by rewrite Hbk|]. unfold U. destruct (m !! z) as [iz|]; [|done]. simpl. unfold bk.
    destruct (relink_attrs z iz) as (_ & _ & _ & _ & _ & -> & ->). done. }
  assert (forall z iz, m !! z = Some iz -> exists iz', m' !! (if decide (z = x) then d else z) = Some iz' /\ chunk iz' = chunk iz) as Hc.
  { intros z iz Hz. destruct (decide (z = x)) as [->|]; [exists id; rewrite Hm, decide_False, decide_True by congruence; destruct Hch; split; [done|congruence]|].
    exists (relink x d w e z iz). split; [by apply move_old|apply relink_attrs]. }
  split; [eapply (linked_mv m m' x w d e ix); done|]. intros. eapply (keep_mv m m' x w d e); done.
Qed.
Lemma move_child iv : PrefixFile.split_ok iv e id = PrefixFile.split_ok iv e ix.
Proof.
  destruct Hch as [C1 C2]. unfold PrefixFile.split_ok, PrefixFile.first_char. rewrite Hkd, C1, C2. destruct (decide (kind ix = Split)) as [Hk|Hk]; [by destruct (Hps Hk) as (_ & -> & ->)|].
  by rewrite !bool_decide_false.
Qed.
Lemma move_inv : inv None 0 m'.
Proof.
  pose proof (i_linked _ _ _ I) as Hl. assert (forall v, d = v -> m !! v = None) as Hdm by (by intros ? <-). apply inv_intro; [apply move_linked|..|done].
  - intros i it [Hix [[-> ->]|(Hid & iz & Hi & ->)]]%move_lookup.
    + unfold is_root. rewrite bool_decide_false; [done|]. intros [Hpd _]. unfold bk in Hbk. congruence.
    + assert (is_root 0 i (relink x d w e i iz) = is_root 0 i iz) as ->; [|by apply relink_loc, (i_loc _ _ _ I)]. unfold is_root. apply bool_decide_ext. destruct (relink_attrs i iz) as (_ & _ & _ & _ & _ & _ & ->).
      assert (x <> 0) by (by eapply inv_nz). destruct (decide (prev iz = x)); [split; intros [? ?]; congruence|done].
  - intros z iz iv Hz Hpz Hv Hkv. apply move_lookup in Hv as [Hvx [[Hvd ->]|(Hvd & iv0 & Hv0 & ->)]].
    + assert (kind ix = Split) as Hks by congruence. rewrite (split_ok_parent ix) by auto. apply move_lookup in Hz as [Hzx [[-> ->]|(Hzd & iz0 & Hz0 & ->)]].
      { exfalso. unfold bk in Hbk. destruct (inv_parent _ _ _ I _ _ Hx Hp) as (iw & Hw & _). congruence. }
      destruct (relink_attrs z iz0) as (R1 & R2 & R3 & R4 & R5 & R6 & R7). rewrite R7 in Hvd, Hpz. destruct (decide (prev iz0 = x)) as [Hpx|]; [|exfalso; destruct (inv_parent _ _ _ I _ _ Hz0 Hpz) as (? & ? & _); congruence].
      rewrite R6. replace (PrefixFile.split_ok ix (prev_is_eq iz0) (relink x d w e z iz0)) with (PrefixFile.split_ok ix (prev_is_eq iz0) iz0).
      { eapply (inv_edge _ _ _ _ _ _ I Hz0); [|by rewrite Hpx|done]. rewrite Hpx. by eapply inv_nz. }
      destruct R3 as (P1 & P2 & P3). unfold PrefixFile.split_ok, PrefixFile.first_char. by rewrite P1, P2, P3, R1, R2.
    + destruct (relink_attrs (prev iz) iv0) as (_ & _ & Hpv & _). rewrite (split_ok_parent iv0) by done. assert (kind iv0 = Split) as Hks by (destruct Hpv; congruence). apply move_lookup in Hz as [Hzx [[-> ->]|(Hzd & iz0 & Hz0 & ->)]].
      * pose proof Hbk as Hb'. unfold bk in Hb'. injection Hb' as Hb1 Hb2. rewrite Hb1 in Hv0. rewrite Hb2. rewrite move_child.
        eapply (inv_edge _ _ _ _ _ _ I Hx); done.
      * destruct (relink_attrs z iz0) as (R1 & R2 & R3 & R4 & R5 & R6 & R7). rewrite R7 in Hv0, Hpz, Hvd. destruct (decide (prev iz0 = x)) as [Hpx|Hpx]; [done|]. rewrite R6.
        replace (PrefixFile.split_ok iv0 (prev_is_eq iz0) (relink x d w e z iz0)) with (PrefixFile.split_ok iv0 (prev_is_eq iz0) iz0); [by eapply inv_edge|].
        destruct R3 as (P1 & P2 & P3). unfold PrefixFile.split_ok, PrefixFile.first_char. by rewrite P1, P2, P3, R1, R2.
Qed.
Lemma move_gains r p key : walk m r x p key -> gains m m' r key d (data id) /\ exists p', walk m' r d p' key.
Proof.
  intros Hw. destruct move_linked as [Hl' Hk]. pose proof (i_linked _ _ _ I) as Hl. destruct (Hk _ _ _ _ Hw) as (p1 & Hw1). rewrite decide_True in Hw1 by done. split; [|eauto].
  assert (m' !! d = Some id) as Hd' by (rewrite Hm, decide_False, decide_True by congruence; done). assert (x <> 0) as Hx0 by (by eapply inv_nz). split.
  - intros r' k j v. split.
    + intros (pj & ij & Hwj & Hj & Huj & Hv). apply move_lookup in Hj as [Hjx [[-> ->]|(Hjd & iz & Hz & ->)]].
      * right. destruct (walk_unique _ _ Hl' _ _ _ _ _ _ _ Hwj Hw1) as (-> & _ & ->). done.
      * left. destruct (relink_attrs j iz) as (_ & _ & _ & R4 & R5 & _). destruct (lk_reach _ _ Hl _ _ Hz) as (r0 & p0 & k0 & Hw0). destruct (Hk _ _ _ _ Hw0) as (p2 & Hw2). rewrite decide_False in Hw2 by done.
        destruct (walk_unique _ _ Hl' _ _ _ _ _ _ _ Hwj Hw2) as (-> & _ & ->). exists p0, iz. split_and!; congruence.
    + intros [(pj & ij & Hwj & Hj & Huj & Hv)|(-> & -> & -> & ->)]; [|by exists p1, id]. assert (j <> x) as Hjx by congruence. destruct (Hk _ _ _ _ Hwj) as (p2 & Hw2). rewrite decide_False in Hw2 by done.
      destruct (relink_attrs j ij) as (_ & _ & _ & R4 & R5 & _). exists p2, (relink x d w e j ij). rewrite (move_old j ij) by done. split_and!; congruence.
  - intros r'. split.
    + intros (it & [Hrx [[-> ->]|(Hrd & iz & Hz & ->)]]%move_lookup & Hpr); [unfold bk in Hbk; congruence|]. destruct (relink_attrs r' iz) as (_ & _ & _ & _ & _ & _ & R7). rewrite R7 in Hpr. exists iz. case_decide; done.
    + intros (it & Hr & Hpr). exists (relink x d w e r' it). rewrite (move_old r' it) by congruence. split; [done|]. destruct (relink_attrs r' it) as (_ & _ & _ & _ & _ & _ & ->). case_decide; congruence.
  - intros r' q k Hq. destruct (Hk _ _ _ _ Hq) as (p2 & Hw2). destruct (walk_self _ _ _ _ _ Hl Hq) as (it & Hr & Hpr & _). rewrite decide_False in Hw2 by congruence. eauto.
Qed.
End move.
End grow.
