(* ===== verification/PrefixCut.v ===== *)
(** * Cutting an item of a prefix tree.

    [_cut_with] and [_branch] of src/store/prefix.hh: the characters of an item up to a position become an
    item of their own, that is used or that a new branch can be linked to. *)
From S2P Require Import Prelude.
From S2P Require Import PrefixItem.
From S2P Require Import PrefixGraph.
From S2P Require Import PrefixFile.
From S2P Require Import PrefixInv.
From S2P Require Import PrefixRun.
From S2P Require Import PrefixTree.
From S2P Require Import PrefixUpd.
From S2P Require Import PrefixGrow.
Local Open Scope Z_scope.
Import Item.

Section cut.
Context {L : Layout} {HL : LayoutOk L} {A : Type} {B : Blocks A} {HB : BlocksOk A} {D : Type} (d0 : D).
Abbreviation item := (Item.t D).
Abbreviation file := (@PrefixFile.t A D).
Import PrefixFile.
Implicit Types (m : gmap Z item) (it ix iy iz iw id : item) (s : file).

(** Two characters that go to the same side of a split item first differ after its bit. *)
Lemma fit_both root it b v w : loc root it -> kind it = Split -> inchar v -> inchar w -> fit it b v -> fit it b w -> cmp_bit it < s_cmp_bit v w.
Proof.
  intros Hl Hk Hv Hw H1 H2. destruct (l_split _ _ Hl Hk) as [Hb Hc]. pose proof lo_bits as HN. unfold fit in *. destruct b.
  - assert (cmp_bit it + 1 <= s_cmp_bit v w); [|lia]. apply (cb_trans ltac:(done) _ (cmp_val it)); try done; [rewrite cb_sym; lia|lia].
  - apply (cb_bin ltac:(done) (cmp_val it)); try done. lia.
Qed.
Lemma cmp_bit_lt v w : inchar v -> inchar w -> v <> w -> 0 <= s_cmp_bit v w < NBits.
Proof.
  intros Hv Hw Hne. pose proof lo_bits as HN. pose proof (cb_range HN v w Hv Hw). destruct (Z.le_gt_cases NBits (s_cmp_bit v w)) as [Hge|]; [|lia].
  by apply (cb_full HN) in Hge.
Qed.
Lemma legit_max u : legit MaxSz u.
Proof. split; [unfold MaxSz; lia|]. intros _. apply lo_used. Qed.

(** The item that takes the first [pos] characters of [y]: a used prefix, or a split item on the next
    character and a character it differs from. *)
Definition cut_kind m iy (pos : nat) (k : ItemKind) (u : bool) (cv dv : Z) : Prop :=
  k = Prefix /\ u = true /\ (0 < pos)%nat /\ cv = 0 \/
  k = Split /\ u = false /\ chunk iy !! pos = Some cv /\ inchar dv /\ cv <> dv /\ (pos = 0%nat -> forall ix, m !! prev iy = Some ix -> kind ix = Split -> fit ix (prev_is_eq iy) dv).

Lemma place_loc h br m y iy pos k u cv dv : inv h br m -> m !! y = Some iy -> (pos < chunk_sz iy)%nat -> prev iy <> 0 -> cut_kind m iy pos k u cv dv -> Z.of_nat pos <= max_of MaxSz k u ->
  loc false (fresh d0 k u (take pos (chunk iy)) cv (s_cmp_bit cv dv)).
Proof.
  intros I Hy Hpos Hp Hk Hmax. pose proof (inv_nonroot _ _ _ I _ _ Hy Hp) as Hl. pose proof (loc_length _ _ Hl) as Hlen.
  assert (length (take pos (chunk iy)) = pos) as Hlt by (rewrite length_take; lia). apply fresh_loc; [by rewrite Hlt|apply Forall_take, Hl|..].
  - intros ->. destruct Hk as [(? & _)|(_ & _ & Hcv & Hdv & Hne & _)]; [done|]. assert (inchar cv) as Hin by (eapply Forall_lookup_1; [apply Hl|done]).
    split; [by apply cmp_bit_lt|done].
  - intros ->. by destruct Hk as [(? & _)|(? & _)].
  - intros Hku Hnil. rewrite Hnil in Hlt. simpl in Hlt. destruct Hk as [(_ & _ & ? & _)|(-> & -> & _)]; [lia|naive_solver].
Qed.
Lemma place_split br m y iy ix pos u cv dv : inv None br m -> m !! y = Some iy -> (pos < chunk_sz iy)%nat -> prev iy <> 0 -> m !! prev iy = Some ix -> cut_kind m iy pos Split u cv dv ->
  let id := fresh d0 Split u (take pos (chunk iy)) cv (s_cmp_bit cv dv) in
  cmp_val id = cv /\ cmp_bit id = s_cmp_bit cv dv /\ split_ok id true (shortened pos iy) = true /\ (pos = 0%nat -> kind ix = Split -> split_ok ix (prev_is_eq iy) id = true).
Proof.
  intros I Hy Hpos Hp Hx [(? & _)|(_ & _ & Hcv & Hdv & Hne & Hfit)] id; [done|]. pose proof (inv_nonroot _ _ _ I _ _ Hy Hp) as Hl. pose proof (loc_length _ _ Hl) as Hlen.
  assert (inchar cv) as Hin by (eapply Forall_lookup_1; [apply Hl|done]). destruct (cmp_bit_lt cv dv Hin Hdv Hne) as [Hb0 Hb].
  assert (cmp_val id = cv) as Hval by done. assert (cmp_bit id = s_cmp_bit cv dv) as Hbit by (unfold id, fresh; simpl; by rewrite Z.mod_small).
  split_and!; [done|done|..].
  - apply split_ok_fit. assert (loc false (shortened pos iy)) as Hls by (by apply loc_shortened).
    assert (chunk (shortened pos iy) = cv :: drop (S pos) (chunk iy)) as Hcs by (rewrite shortened_chunk by apply Hl; by apply drop_S).
    destruct (first_char_chunk _ _ _ Hcs Hls) as [-> ->]. split; [done|]. unfold fit. rewrite Hval, Hbit, cb_refl. lia.
  - intros -> Hks. specialize (Hfit eq_refl _ Hx Hks). pose proof (inv_edge _ _ _ _ _ _ I Hy Hp Hx Hks) as Hs. apply split_ok_fit in Hs as [_ Hs].
    assert (chunk iy = cv :: drop 1 (chunk iy)) as Hcy by (rewrite <- (drop_S (chunk iy) cv 0) by done; done). destruct (first_char_chunk _ _ _ Hcy Hl) as [Hfc _]. rewrite Hfc in Hs.
    assert (empty_split id = true) as He by done. apply split_ok_fit. rewrite (first_char_empty _ He), Hval, Hbit. split; [intros _|done].
    by eapply (fit_both _ ix (prev_is_eq iy)); [apply (i_loc _ _ _ I _ _ Hx)|..].
Qed.

Lemma walk_key m r y p k iy : walk m r y p k -> m !! y = Some iy -> exists k1, k = k1 ++ chunk iy.
Proof. intros Hw Hy. destruct Hw as [it Hr Hpr|v b w it q k Hq Ev Hw]; simplify_eq; [by exists []|by exists k]. Qed.
Lemma added_chunk h br y c m m1 iy iy1 r p k0 : inv h br m -> added h br y c m m1 -> m !! y = Some iy -> m1 !! y = Some iy1 -> walk m r y p (k0 ++ chunk iy) ->
  exists p1, walk m1 r y p1 ((k0 ++ take c (chunk iy)) ++ chunk iy1) /\ chunk iy1 = drop c (chunk iy).
Proof.
  intros I [I1 Ev Hi _] Hy Hy1 Hw. destruct (Hi _ Hy) as (iy1' & Hy1' & _ & _ & Hcs & Hpp). rewrite Hy1 in Hy1'. injection Hy1' as <-.
  destruct (ev_keep _ _ _ Ev _ _ _ _ Hw ltac:(left; set_solver)) as (p1 & Hw1). pose proof (loc_length _ _ (i_loc _ _ _ I _ _ Hy)) as Hlen. pose proof (loc_length _ _ (i_loc _ _ _ I1 _ _ Hy1)) as Hlen1.
  assert (exists k1, k0 ++ chunk iy = k1 ++ chunk iy1) as (k1 & Hk1).
  { by eapply walk_key. }
  assert (chunk iy1 = drop c (chunk iy)) as Hc.
  { rewrite <- (take_drop c (chunk iy)), app_assoc in Hk1. apply app_inj_2 in Hk1 as [_ Hk1]; [done|]. rewrite length_drop. lia. }
  exists p1. rewrite Hc, <- app_assoc, take_drop. done.
Qed.

(** The new item is put in place: [d] takes the first [pos] characters of [y]. *)
Record placed br (y : Z) iy (pos : nat) k u cv dv r key0 m (d : Z) m' id : Prop := {
  pl_inv : inv (if decide (k = Split) then Some (d, false) else None) br m';
  pl_new : m !! d = None /\ d <> 0;
  pl_item : m' !! d = Some id;
  pl_attrs : kind id = k /\ used id = u /\ data id = d0 /\ sz id = min_of k u (Z.of_nat pos) /\ chunk_sz id = pos;
  pl_split : k = Split -> cmp_val id = cv /\ cmp_bit id = s_cmp_bit cv dv;
  pl_next : m' !! y = Some (set_prev d true (shortened pos iy));
  pl_walk : exists p', walk m' r d p' (key0 ++ take pos (chunk iy));
  pl_names : if u then gains m m' r (key0 ++ take pos (chunk iy)) d d0 else same m m';
}.
Lemma place_spec br y iy pos k u cv dv s m n kk r p key0 X (f : file -> Z -> outcome X) Q : st s m n (S kk) [] -> inv None br m -> m !! y = Some iy -> prev iy <> 0 -> (pos < chunk_sz iy)%nat ->
  Z.of_nat pos <= max_of MaxSz k u -> cut_kind m iy pos k u cv dv -> walk m r y p (key0 ++ chunk iy) -> (n <= 64)%nat ->
  (forall s' d m' id, st s' m' n kk [] -> placed br y iy pos k u cv dv r key0 m d m' id -> runs (f s' d) Q) ->
  runs ('(s, dvg) ← _emplace_from d0 k u y 0 pos cv (s_cmp_bit cv dv) s; s ← upd_ y (shorten_by pos) s; s ← _insert_before false false dvg true y s; f s dvg) Q.
Proof.
  intros Hst I Hy Hp Hpos Hmax Hck Hw Hn Hf. destruct (inv_parent _ _ _ I _ _ Hy Hp) as (ix & Hx & Exy). pose proof (inv_nonroot _ _ _ I _ _ Hy Hp) as Hl.
  pose proof (place_loc _ _ _ _ _ _ _ _ _ _ I Hy Hpos Hp Hck Hmax) as Hlid. assert (length (take pos (chunk iy)) = pos) as Hlen by (rewrite length_take, (loc_length _ _ Hl); lia).
  run (unfold _emplace_from; rat; apply runs_swear; [apply Nat.leb_le; lia|]; rewrite drop_0; eapply emplace_item_st; [exact HL|exact Hst|by rewrite Hlen|]) as [s1 d] (Hd & Hd0 & Hs1).
  { destruct Hck as [(_ & _ & _ & ?)|(? & _)]; auto. }
  simpl in Hd, Hd0, Hs1. set (id := fresh d0 k u (take pos (chunk iy)) cv (s_cmp_bit cv dv)) in *. destruct (put_ne None br m (prev iy) y d ix iy) as (N1 & N2 & N3 & _); try done.
  assert (kind id <> Terminal) as Hkt by (destruct Hck as [(-> & _)|(-> & _)]; done). assert (chunk id = take pos (chunk iy)) as Hcid by apply fresh_chunk.
  assert (lnk id true = Some 0) as Hlk by (unfold lnk; destruct (kind id) eqn:Hkid; done).
  assert (kind id = Split -> None = @None (Z * bool) /\ nxt_neq id = 0 /\ split_ok id true (shortened pos iy) = true /\ (pos = 0%nat -> kind ix = Split -> split_ok ix (prev_is_eq iy) id = true)) as Hs.
  { intros Hks. assert (k = Split) as -> by done. by destruct (place_split _ _ _ _ _ _ _ _ _ I Hy Hpos Hp Hx Hck) as (_ & _ & ? & ?). }
  run (eapply upd__st; [exact Hs1|mlook|apply shorten_by_ok; lia|done]) as s2 Hs2.
  run (unfold _insert_before; eapply runs_at; [exact Hs2|mlook|]; change (prev (shortened pos iy)) with (prev iy); change (prev_is_eq (shortened pos iy)) with (prev_is_eq iy); eapply insert_between_st; [exact Hs2|mlook|by rewrite <- (E_lookup _ _ _ _ Hx)|mlook|mlook|done|done|done|done|done|done|simpl; lia]) as s3 Hs3.
  set (m1 := inserted m (prev iy) y d pos ix iy id). assert (st s3 m1 n kk []) as Hs3'.
  { match type of Hs3 with st _ ?M _ _ _ => replace m1 with M; [eapply st_weaken; [exact Hs3|simpl; lia..]|] end. unfold m1, inserted. map_ins. }
  apply (Hf s3 d m1 (set_prev (prev iy) (prev_is_eq iy) (set_nxt true y id)) Hs3'). split; try done.
  - by eapply (put_inv None br m (prev iy) y d pos ix iy id).
  - unfold m1, inserted. mlook.
  - simpl. rewrite Hlen. done.
  - intros ->. by destruct (place_split _ _ _ _ _ _ _ _ _ I Hy Hpos Hp Hx Hck) as (? & ? & _).
  - unfold m1, inserted. mlook.
  - by eapply (put_walk None br m (prev iy) y d pos ix iy id).
  - destruct u eqn:Hu; [by eapply (put_gains None br m (prev iy) y d pos ix iy id)|]. eapply (ev_same None _ []); [apply I|eapply (put_linked None br m (prev iy) y d pos ix iy id); done|].
    by eapply (put_ev None br m (prev iy) y d pos ix iy id).
Qed.

(** What follows the new item is merged or shortened, then what is before it is merged with it. *)
Lemma finish_spec b h br d y id iy s m n kk : st s m n kk [] -> inv h br m -> (forall z, h <> Some (z, true)) -> m !! d = Some id -> stays id -> m !! y = Some iy -> prev iy = d -> d <> 0 ->
  Z.of_nat n + slack id <= 63 ->
  runs ('(s, compressed, idx) ← _compress_after false false b y s;
        s ← (if (compressed : bool) then Ret s else '(s, _) ← _minimize_sz false idx s; Ret s);
        '(s, _) ← _compress_before false false false d s; Ret (s, d))
    (fun q => q.2 = d /\ exists m' n' F', st q.1 m' n' kk F' /\ (n' <= 64)%nat /\ inv h br m' /\ ev [] m m').
Proof.
  intros Hst I Hh Hd Hs Hy Hpy Hd0 Hn. pose proof (loc_slack _ _ (i_loc _ _ _ I _ _ Hd)) as Hsl. assert (y <> d) as Hyd.
  { destruct (inv_parent _ _ _ I _ _ Hy) as (_ & _ & He); [congruence|]. rewrite Hpy in He. apply not_eq_sym. eapply E_irrefl; [apply I|done|by eapply inv_nz]. }
  eapply (runs_bind _ _ (fun q => exists m1 F1 id1, st q.1.1 m1 (n + 1) kk F1 /\ inv h br m1 /\ ev [] m m1 /\ m1 !! d = Some id1 /\ slack id1 = slack id /\
    (q.1.2 = true /\ F1 = [] \/ q.1.2 = false /\ q.2 = y /\ m1 = m /\ F1 = []))).
  { eapply runs_mono; [eapply (compress_once false false b h br y iy id); try done; [set_solver|by rewrite Hpy|destruct b; simpl; lia]|]. intros [[s1 c] j]. simpl.
    intros [[= -> -> ->]|(-> & -> & Hky & _ & m1 & Hs1 & C)].
    - exists m, [], id. split_and!; try done; [eapply st_weaken; [done|lia..]|apply ev_refl|by right].
    - assert (ev [] m m1) as Ev by (apply C; set_solver). destruct (ev_item _ _ _ Ev _ _ Hd) as (id1 & Hd1 & _); [right; eauto|]. exists m1, [], id1.
      split_and!; try done; [eapply st_weaken; [exact Hs1|destruct b; simpl; lia|done]|apply C| |by left]. destruct (co_frame _ _ _ _ _ _ C _ _ Hd1) as (id' & Hd' & (Hk & Hu & _)%attrs_eq & Hsz & _ & Hb).
      rewrite Hd in Hd'. injection Hd' as <-. destruct Hb as (_ & _ & Hcs & _); [|unfold slack; congruence].
      destruct (inv_parent _ _ _ I _ _ Hy) as (_ & _ & He); [congruence|]. rewrite Hpy in He. destruct (next_item _ _ _ _ _ _ _ I Hy (proj1 (lnk_prefix _ Hky)) (Hh y)) as (iz & Hz & Ez & _).
      eapply (E_asym _ _ (i_linked _ _ _ I)); [exact He|by eapply inv_nz|exact Ez|by eapply inv_nz]. }
  intros [[s1 c] j] (m1 & F1 & id1 & Hs1 & I1 & Ev1 & Hd1 & Hsl1 & Hor). simpl in *.
  eapply (runs_bind _ _ (fun s2 => exists m2 F2 id2, st s2 m2 (n + 1) kk F2 /\ inv h br m2 /\ ev [] m m2 /\ m2 !! d = Some id2 /\ slack id2 = slack id /\ forall r p key, walk m2 r d p key -> forall z, z ∈ F2 -> z ∉ p)).
  { destruct Hor as [[-> ->]|(-> & -> & -> & ->)]; [apply runs_ret; exists m1, [], id1; split_and!; try done; set_solver|].
    run (eapply (minimize_spec false h br y iy); [exact Hs1|done|done|set_solver|simpl; lia]) as [s2 c2] (m2 & F2 & z & Hs2 & I2 & Ev2 & HF2 & Hm2). apply runs_ret. simpl in *.
    exists m2, F2, id. split_and!; try done; [eapply st_weaken; [exact Hs2|lia..]|rewrite Hm2; mlook|]. intros r p key Hw v Hv Hvp. assert (v = y) as -> by set_solver.
    assert (m2 !! y = Some (set_sz z iy)) as Hy2 by (rewrite Hm2; mlook). destruct (inv_parent _ _ _ I2 _ _ Hy2) as (_ & _ & He); [simpl; congruence|]. simpl in He. rewrite Hpy in He.
    assert (walk m2 r y (p ++ [y]) (key ++ chunk (set_sz z iy))) as Hwy by (by econstructor). apply (walk_nodup _ _ (i_linked _ _ _ I2)), NoDup_app in Hwy as (_ & Hnd & _). apply (Hnd y Hvp). set_solver. }
  intros s2 (m2 & F2 & id2 & Hs2 & I2 & Ev2 & Hd2 & Hsl2 & HF). destruct (lk_reach _ _ (i_linked _ _ _ I2) _ _ Hd2) as (r & p & key & Hw). destruct (walk_in _ _ _ _ _ Hw) as (_ & q & ->).
  run (eapply (compress_before_spec false false false); [exact Hs2|exact I2|exact Hh|exact Hd2|exact Hw| |simpl; lia]) as [s3 c3] Hq.
  { intros z Hz Hzq. eapply HF; [exact Hw|exact Hz|]. set_solver. }
  apply runs_ret. simpl. split; [done|]. destruct Hq as [[= -> ->]|(_ & m3 & n3 & Hs3 & C & Hb)]; [exists m2, (n + 1)%nat, F2; split_and!; try done; lia|].
  simpl in *. assert (ev [] m2 m3) as Ev3 by (apply C; set_solver). assert (exists id3, m3 !! d = Some id3) as (id3 & Hd3).
  { destruct (ev_item _ _ _ (ev_trans _ _ _ _ Ev2 Ev3) _ _ Hd) as (id3 & ? & _); [right; eauto|eauto]. }
  exists m3, n3, F2. split_and!; [done| |apply C|by eapply ev_trans]. specialize (Hb _ Hd3). pose proof (loc_slack _ _ (i_loc _ _ _ (co_inv _ _ _ _ _ _ C) _ _ Hd3)). lia.
Qed.

Lemma cut_with_spec (b1 b2 b3 b4 : bool) br y iy pos k u cv dv s m n kk r p key0 : st s m n (S (S kk)) [] -> inv None br m -> m !! y = Some iy -> (pos < chunk_sz iy)%nat -> y <> br ->
  cut_kind m iy pos k u cv dv -> walk m r y p (key0 ++ chunk iy) -> (n + Nat.b2n b3 + Nat.b2n b2 <= 3)%nat ->
  runs (_cut_with d0 b1 b2 b3 b4 y pos k u cv dv s) (fun q => exists m' id n' F, st q.1 m' n' kk F /\ (n' <= 64)%nat /\
    inv (if decide (k = Split) then Some (q.2, false) else None) br m' /\ m' !! q.2 = Some id /\ kind id = k /\ (k = Split -> cmp_val id = cv /\ cmp_bit id = s_cmp_bit cv dv) /\
    (exists p', walk m' r q.2 p' (key0 ++ take pos (chunk iy))) /\ if u then gains m m' r (key0 ++ take pos (chunk iy)) q.2 d0 else same m m').
Proof.
  intros Hst I Hy Hpos Hbr Hck Hw Hn. unfold _cut_with. rat. assert (prev iy <> 0) as Hp.
  { intros Hp. pose proof (i_loc _ _ _ I _ _ Hy) as Hl. unfold is_root in Hl. rewrite bool_decide_true in Hl by done. destruct (l_root _ _ Hl eq_refl). lia. }
  destruct (inv_parent _ _ _ I _ _ Hy Hp) as (ix & Hx & Exy). run (eapply backup_st; [exact Hst|exact Hy|lia]) as s1 Hs1. run (eapply backup_st; [exact Hs1|exact Hx|lia]) as s2 Hs2.
  apply runs_swear; [by apply Nat.ltb_lt|]. apply runs_swear; [destruct Hck as [(-> & _ & ? & _)|(-> & _)]; [|done]; rewrite decide_True by done; by apply Nat.ltb_lt|].
  pose proof (legit_max u) as Hleg. destruct (lo_max MaxSz k u Hleg) as [Hmax1 Hmax2]. eapply runs_eq; [exact Hmax1|].
  run (eapply (add_prefix_spec d0 b1 false false None br y iy pos MaxSz k u); try done; [lia|apply (i_loc _ _ _ I _ _ Hy)|lia]) as [s3 na] (Hna & m3 & n3 & Hs3 & Had & Hn3 & Hsame). simpl in Hna, Hs3, Had, Hn3, Hsame.
  destruct (ad_item _ _ _ _ _ _ Had _ Hy) as (iy3 & Hy3 & Ha3 & Hsz3 & Hcs3 & Hp3). destruct (added_chunk _ _ _ _ _ _ _ _ _ _ _ I Had Hy Hy3 Hw) as (p3 & Hw3 & Hc3).
  pose proof (ad_inv _ _ _ _ _ _ Had) as I3. eapply place_spec; [exact Hs3|exact I3|exact Hy3|tauto|lia|lia| |exact Hw3|case_decide; lia|].
  { destruct Hck as [(Hk & Hu & Hpos0 & Hcv)|(Hk & Hu & Hcv & Hdv & Hne & Hfit)]; [left; split_and!; try done; lia|right]. split_and!; try done.
    - rewrite Hc3, lookup_drop. by replace (na + (pos - na))%nat with pos by lia.
    - intros Hz. assert (na = 0%nat) as Hna0 by lia. assert (m3 = m) as Hm3 by (by apply Hsame). rewrite Hm3 in Hy3 |- *. rewrite Hy in Hy3. injection Hy3 as <-. apply Hfit. lia. }
  intros s4 d m4 id Hs4 Hpl. destruct Hpl as [I4 [Hd3 Hd0] Hd4 (Hk & Hu & Hdd & Hsz & Hcs) Hspl Hy4 (p4 & Hw4) Hnm].
  assert (stays id) as Hst4. { unfold stays. rewrite Hk, Hu. destruct Hck as [(_ & -> & _)|(-> & _)]; auto. }
  eapply runs_mono; [eapply finish_spec; [exact Hs4|exact I4|by case_decide|exact Hd4|exact Hst4|exact Hy4|done|done|]|].
  { unfold slack. rewrite Hk, Hu, Hsz, Hcs. destruct (lo_min k u (Z.of_nat (pos - na))) as (_ & Hlm & _); [lia|]. pose proof (lo_mono _ _ k u Hlm Hleg ltac:(apply Hlm)).
    destruct (decide (na = 0%nat)); lia. }
  intros [s5 d5] (Hd5 & m5 & n5 & F5 & Hs5 & Hn5 & I5 & Ev5). simpl in *. subst d5. destruct (ev_item _ _ _ Ev5 _ _ Hd4) as (id5 & Hid5 & (Hk5 & _ & Hb5 & Hv5 & _)%attrs_eq & _); [right; eauto|].
  assert ((key0 ++ take na (chunk iy)) ++ take (pos - na) (chunk iy3) = key0 ++ take pos (chunk iy)) as Hkey.
  { rewrite Hc3, <- app_assoc, take_take_drop. by replace (na + (pos - na))%nat with pos by lia. }
  exists m5, id5, n5, F5. split_and!; try done; [congruence|intros Hks; destruct (Hspl Hks); split; congruence|..].
  - destruct (ev_keep _ _ _ Ev5 _ _ _ _ Hw4) as (p5 & Hw5); [right; eauto|]. exists p5. by rewrite <- Hkey.
  - assert (same m m3) as Hs by (eapply ev_same; [apply I|apply I3|apply Had]). assert (same m4 m5) as Hs' by (eapply ev_same; [apply I4|apply I5|exact Ev5]).
    rewrite <- Hkey. destruct u; [eapply same_gains; [exact Hs|by eapply gains_same]|]. eapply same_trans; [exact Hs|by eapply same_trans].
Qed.

(** ** Where a new branch starts *)

(** The name leaves the tree at character [pos] of the item, where [dv] comes next. *)
Inductive diverges m it (pos : nat) (dv : Z) : Prop :=
| dv_chunk c : chunk it !! pos = Some c -> c <> dv -> (pos = 0%nat -> forall ix, m !! prev it = Some ix -> kind ix = Split -> fit ix (prev_is_eq it) dv) -> diverges m it pos dv
| dv_split : pos = chunk_sz it -> kind it = Split -> s_cmp_bit (cmp_val it) dv < cmp_bit it ->
    (empty_split it = true -> forall ix, prev it <> 0 -> m !! prev it = Some ix -> kind ix = Split -> fit ix (prev_is_eq it) dv) -> diverges m it pos dv
| dv_prefix : pos = chunk_sz it -> kind it = Prefix ->
    (forall iy, m !! nxt_eq it = Some iy -> first_char iy <> dv /\ (empty_split iy = true -> s_cmp_bit (cmp_val iy) dv < cmp_bit iy)) -> diverges m it pos dv
| dv_terminal : pos = chunk_sz it -> kind it = Terminal -> diverges m it pos dv.

(** An item is ready to lead to a new branch. *)
Definition branched br r key dv m (q : file * Z) (kk : nat) : Prop := exists m' it' n' F, st q.1 m' n' kk F /\ (n' <= 64)%nat /\ inv (Some (q.2, bool_decide (kind it' = Prefix))) br m' /\ m' !! q.2 = Some it' /\
  (kind it' = Split -> fit it' false dv) /\ (exists p', walk m' r q.2 p' key) /\ same m m'.

Lemma branch_cap_spec br y it s m n kk r p key0 dv : st s m n (S kk) [] -> inv None br m -> m !! y = Some it -> kind it = Split -> inchar dv -> s_cmp_bit (cmp_val it) dv < cmp_bit it ->
  (empty_split it = true -> forall ix, prev it <> 0 -> m !! prev it = Some ix -> kind ix = Split -> fit ix (prev_is_eq it) dv) -> walk m r y p (key0 ++ chunk it) -> (n <= 60)%nat ->
  runs ('(s, cpy) ← _emplace_empty d0 Split (cmp_val it) (cmp_bit it) s; s ← upd y (fun it' => set_cmp (cmp_val it') (s_cmp_bit (cmp_val it) dv) it') s;
        s ← _insert_after_split false true true y true cpy s; Ret (s, y)) (fun q => branched br r (key0 ++ chunk it) dv m q kk).
Proof.
  intros Hst I Hy Hk Hdv Hlt Hpar Hw Hn. pose proof (i_loc _ _ _ I _ _ Hy) as Hl. destruct (l_split _ _ Hl Hk) as [Hb Hv]. pose proof lo_bits as HN. pose proof (cb_range HN _ _ Hv Hdv) as Hcb.
  destruct (lo_max MaxSz Split false (legit_max false)) as [_ Hmax].
  run (unfold _emplace_empty; eapply emplace_item_st; [exact HL|exact Hst|simpl; lia|by right]) as [s1 d] (Hd & Hd0 & Hs1). simpl in Hd, Hd0, Hs1. set (id := fresh d0 Split false [] (cmp_val it) (cmp_bit it)) in *.
  assert (kind id = Split /\ used id = false /\ chunk id = [] /\ cmp_val id = cmp_val it /\ cmp_bit id = cmp_bit it) as Hid.
  { split_and!; try done. unfold id, fresh. simpl. by rewrite Z.mod_small. }
  assert (loc false id) as Hlid by (apply fresh_loc; try done; [simpl; lia|intros [?|?]; done]).
  destruct (next_item _ _ _ _ _ true (nxt_eq it) I Hy) as (i1 & Hy1 & E1 & P1 & Q1 & L1 & _); [unfold lnk; by rewrite Hk|done|].
  destruct (next_item _ _ _ _ _ false (nxt_neq it) I Hy) as (i0 & Hy0 & E0 & P0 & Q0 & L0 & _); [unfold lnk; by rewrite Hk|done|].
  destruct (cap_ne br m y d (nxt_neq it) (nxt_eq it) it i0 i1) as (N1 & N2 & N3 & N4 & N5 & N6); try done.
  run (eapply upd_st; [exact Hs1|mlook|done]) as s2 Hs2. set (it2 := set_cmp (cmp_val it) (s_cmp_bit (cmp_val it) dv) it) in *.
  assert (forall b, lnk it2 b = Some (nx b it)) as Hl2 by (intros b; unfold lnk, it2; simpl; by rewrite Hk). assert (forall b, lnk id b = Some 0) as Hlid0 by (intros b; unfold lnk, id, nx; simpl; by destruct b).
  run (unfold _insert_after_split; eapply runs_at; [exact Hs2|mlook|]; apply runs_swear; [done|]; eapply runs_at; [exact Hs2|mlook|]; eapply runs_eq; [by apply nxt_if_lnk|];
    run (eapply insert_between_st; [exact Hs2|mlook|apply Hl2|simpl; mlook|mlook|done|done|apply Hlid0|done|done|done|simpl; lia]) as s3 Hs3;
    eapply runs_at; [exact Hs3|mlook|]; eapply runs_eq; [apply nxt_if_lnk; rewrite lnk_set_other; apply Hl2|]; simpl;
    eapply mv_lnk_before_st; [exact Hs3|mlook|exact (Hlid0 false)|simpl; mlook|rewrite P0; mlook|rewrite Q0, (lnk_set_other _ true); apply (Hl2 false)|simpl; congruence|simpl; congruence|simpl; congruence|simpl; lia]) as s3 Hs3.
  apply runs_ret. simpl in Hs3. rewrite P0, Q0 in Hs3. simpl in Hs3.
  assert (empty_split it = true -> forall iw, prev it <> 0 -> m !! prev it = Some iw -> kind iw = Split -> cmp_bit iw < s_cmp_bit (cmp_val it) dv) as Hpar'.
  { intros He iw Hp Hiw Hkw. pose proof (inv_edge _ _ _ _ _ _ I Hy Hp Hiw Hkw) as Hs. apply split_ok_fit in Hs as [_ Hs]. rewrite first_char_empty in Hs by done.
    eapply (fit_both _ iw (prev_is_eq it)); [apply (i_loc _ _ _ I _ _ Hiw)|done..|by eapply Hpar]. }
  exists (capped m y d (nxt_neq it) (nxt_eq it) (s_cmp_bit (cmp_val it) dv) it i0 i1 id). simpl. eexists _, _, []. split_and!.
  - match type of Hs3 with st _ ?M _ _ _ => match goal with |- st _ ?M' _ _ _ => replace M' with M; [exact Hs3|] end end. unfold capped. map_ins.
  - simpl. lia.
  - instantiate (1 := set_nxt false 0 (set_nxt true d it2)). rewrite bool_decide_false by (simpl; congruence). apply cap_inv; try done. lia.
  - unfold capped. mlook.
  - done.
  - destruct (cap_linked br m y d (nxt_neq it) (nxt_eq it) (s_cmp_bit (cmp_val it) dv) it i0 i1 id) as [_ Hkeep]; try done. destruct (Hkeep _ _ _ _ Hw Logic.I) as (p' & Hw'). by exists p'.
  - eapply cap_same; try done. lia.
Qed.

(** The item gets one more link. *)
Definition upped it (cv dv : Z) : item :=
  if decide (kind it = Prefix) then set_cmp cv (s_cmp_bit cv dv mod NBits) (set_nxt false 0 (set_kind Split it)) else set_nxt true 0 (set_kind Prefix it).
Definition next_ok m it (cv dv : Z) : Prop := kind it = Prefix -> forall iy, m !! nxt_eq it = Some iy -> first_char iy = cv /\ cv <> dv /\ (empty_split iy = true -> s_cmp_bit (cmp_val iy) dv < cmp_bit iy).
Lemma upped_run it cv dv : legit (sz it) (used it) -> kind it <> Split -> Z.of_nat (chunk_sz it) <= max_of (sz it) (kup (kind it)) (used it) ->
  (if decide (kind it = Prefix) then mk_up_prefix cv dv else mk_up) it = Ret (upped it cv dv).
Proof.
  intros Hl Hk Hc. unfold upped. destruct (kind it) eqn:Hkd; [rewrite !decide_False by done|rewrite !decide_True by done|done].
  - unfold mk_up. rewrite bool_decide_true by done. cbn [swear mbind outcome_mbind]. unfold chk_chunk_sz, max_chunk_sz. simpl. destruct (lo_max (sz it) Prefix (used it) Hl) as [-> _].
    cbn [mbind outcome_mbind]. by rewrite (proj2 (Z.leb_le _ _)).
  - unfold mk_up_prefix. rewrite bool_decide_true by done. cbn [swear mbind outcome_mbind]. unfold chk_chunk_sz, max_chunk_sz. simpl. destruct (lo_max (sz it) Split (used it) Hl) as [-> _].
    cbn [mbind outcome_mbind]. by rewrite (proj2 (Z.leb_le _ _)).
Qed.
Lemma upped_inv br y it m cv dv : inv None br m -> m !! y = Some it -> kind it <> Split -> Z.of_nat (chunk_sz it) <= max_of (sz it) (kup (kind it)) (used it) -> inchar dv -> next_ok m it cv dv ->
  let it' := upped it cv dv in
  inv (Some (y, bool_decide (kind it' = Prefix))) br (<[y := it']> m) /\ same m (<[y := it']> m) /\ (forall r z p k, walk m r z p k -> walk (<[y := it']> m) r z p k) /\ (kind it' = Split -> fit it' false dv).
Proof.
  intros I Hy Hk Hc Hdv Hnx it'. pose proof lo_bits as HN. set (b := bool_decide (kind it' = Prefix)). assert (kind it' = kup (kind it) /\ b = bool_decide (kind it = Terminal)) as [Hk' Hb].
  { unfold b, it', upped. by destruct (kind it). }
  assert (forall c, lnk it' c = if decide (c = b) then Some 0 else lnk it c) as Hlk. { intros c. rewrite Hb. unfold lnk, it', upped, nx. by destruct (kind it), c. }
  assert (lnk it b = None) as Hnb by (rewrite Hb; unfold lnk; by destruct (kind it)).
  assert (bk it' = bk it) as Hbk by (unfold it', upped; by destruct (kind it)). assert (chunk it' = chunk it /\ chunk_sz it' = chunk_sz it /\ chars it' = chars it) as Hch by (unfold it', upped; by destruct (kind it)).
  assert (used it' = used it /\ data it' = data it /\ sz it' = sz it) as Hu by (unfold it', upped; by destruct (kind it)).
  assert (kind it' = Split -> kind it = Prefix /\ cmp_val it' = cv /\ cmp_bit it' = s_cmp_bit cv dv mod NBits) as Hsp by (unfold it', upped; by destruct (kind it)).
  assert (kind it' = Split -> exists z iz, nxt_eq it = z /\ m !! z = Some iz /\ loc false iz /\ inchar cv /\ s_cmp_bit cv dv mod NBits = s_cmp_bit cv dv /\ s_cmp_bit cv dv < NBits) as Hnext.
  { intros Hks. destruct (Hsp Hks) as (Hkp & _). destruct (next_item _ _ _ _ _ _ _ I Hy (proj1 (lnk_prefix _ Hkp)) ltac:(done)) as (iz & Hz & _ & _ & _ & Hlz & _). destruct (Hnx Hkp _ Hz) as (Hfc & Hne & _).
    pose proof (first_char_in _ _ Hlz) as Hin. rewrite Hfc in Hin. destruct (cmp_bit_lt cv dv Hin Hdv Hne). exists (nxt_eq it), iz. split_and!; try done. by apply Z.mod_small. }
  assert (Z.of_nat (chunk_sz it') <= max_of (sz it') (kind it') (used it')) as Hmax by (destruct Hu as (-> & _ & ->), Hch as (_ & -> & _); by rewrite Hk').
  assert (kind it' = Split -> 0 <= cmp_bit it' < NBits /\ inchar (cmp_val it') /\ forall z iz, lnk it (negb b) = Some z -> m !! z = Some iz -> split_ok it' (negb b) iz = true) as Hs.
  { intros Hks. destruct (Hsp Hks) as (Hkp & Hval & Hbit), (Hnext Hks) as (z0 & iz0 & Hz0 & Hiz0 & Hlz0 & Hin & Hmod & Hlt). rewrite Hval, Hbit, Hmod. pose proof (cb_range HN _ _ Hin Hdv). split_and!; try done; [lia|].
    assert (b = false) as -> by (rewrite Hb, Hkp; done). simpl. intros z iz Hz Hiz. rewrite (proj1 (lnk_prefix _ Hkp)), Hz0 in Hz. injection Hz as <-. rewrite Hiz0 in Hiz. injection Hiz as <-.
    rewrite <- Hz0 in Hiz0. destruct (Hnx Hkp _ Hiz0) as (Hfc & Hne & Hes). apply split_ok_fit. unfold fit. rewrite Hval, Hbit, Hmod, Hfc, cb_refl. split; [|lia]. intros He. specialize (Hes He).
    rewrite first_char_empty in Hfc by done. congruence. }
  split_and!.
  - by eapply up_inv.
  - by eapply up_same.
  - by eapply up_linked.
  - intros Hks. destruct (Hsp Hks) as (Hkp & Hval & Hbit), (Hnext Hks) as (z0 & iz0 & _ & _ & _ & _ & Hmod & _). unfold fit. by rewrite Hval, Hbit, Hmod.
Qed.

(** The next item is the same after characters have been moved before [y]. *)
Lemma next_ok_added br y it it3 m m3 c cv dv : inv None br m -> m !! y = Some it -> added None br y c m m3 -> m3 !! y = Some it3 -> kind it3 = kind it -> next_ok m it cv dv -> next_ok m3 it3 cv dv.
Proof.
  intros I Hy Ad Hy3 Hk Hnx Hkp iy3 Hiy3. rewrite Hk in Hkp. destruct (next_item _ _ _ _ _ _ _ I Hy (proj1 (lnk_prefix _ Hkp)) ltac:(done)) as (iz & Hz & _ & Hp & Hpe & _).
  destruct (ad_next _ _ _ _ _ _ Ad _ _ Hz Hp) as (iz' & Hz' & Hkept). pose proof Hkept as ((Hkz & _ & Hbz & Hvz & _)%attrs_eq & Hcz & Hnz & Hbk). unfold bk in Hbk. injection Hbk as Hp' Hpe'.
  pose proof (ad_inv _ _ _ _ _ _ Ad) as I3. destruct (inv_parent _ _ _ I3 _ _ Hz') as (_ & _ & E3). { rewrite Hp', Hp. by eapply inv_nz. }
  rewrite Hp', Hpe', Hp, Hpe, (E_lookup _ _ _ _ Hy3), (proj1 (lnk_prefix _ ltac:(rewrite Hk; exact Hkp))) in E3. injection E3 as E3. rewrite E3, Hz' in Hiy3. injection Hiy3 as <-.
  destruct (Hnx Hkp _ Hz) as (Hfc & Hne & Hes). unfold empty_split, first_char in *. rewrite Hkz, Hbz, Hvz, Hcz, Hnz. done.
Qed.
Lemma branch_up_spec br y it s m n kk r p key0 cv dv : st s m n (S kk) [] -> inv None br m -> m !! y = Some it -> y <> br -> kind it <> Split -> (n <= 40)%nat -> inchar dv -> next_ok m it cv dv ->
  walk m r y p (key0 ++ chunk it) ->
  runs (mx ← s_max_chunk_sz (sz it) (kup (kind it)) (used it); '(s, _) ← _add_prefix d0 true true false y (chunk_sz it) mx s;
        s ← upd_ y (if decide (kind it = Prefix) then mk_up_prefix cv dv else mk_up) s; '(s, _) ← _minimize_sz false y s; Ret (s, y)) (fun q => branched br r (key0 ++ chunk it) dv m q kk).
Proof.
  intros Hst I Hy Hbr Hk Hn Hdv Hnx Hw. pose proof (i_loc _ _ _ I _ _ Hy) as Hl. pose proof (l_legit _ _ Hl) as Hleg. destruct (lo_max (sz it) (kup (kind it)) (used it) Hleg) as [Hmx1 Hmx2]. eapply runs_eq; [exact Hmx1|].
  run (eapply (add_prefix_spec d0 true true false None br y it (chunk_sz it) (sz it) (kup (kind it)) (used it)); done) as [s3 na] (Hna & m3 & n3 & Hs3 & Ad & Hn3 & _). simpl in Hna, Hs3, Ad, Hn3.
  destruct (ad_item _ _ _ _ _ _ Ad _ Hy) as (it3 & Hy3 & (Hk3 & Hu3 & _)%attrs_eq & Hsz3 & Hcs3 & Hp3). pose proof (ad_inv _ _ _ _ _ _ Ad) as I3.
  assert (Z.of_nat (chunk_sz it3) <= max_of (sz it3) (kup (kind it3)) (used it3)) as Hc3 by (rewrite Hsz3, Hk3, Hu3, Hcs3; lia).
  destruct (upped_inv br y it3 m3 cv dv I3 Hy3 ltac:(congruence) Hc3 Hdv) as (I4 & S4 & W4 & F4); [by eapply (next_ok_added br y it it3 m m3 na)|]. set (it4 := upped it3 cv dv) in *.
  run (eapply (upd__st _ _ _ _ _ Hs3 _ _ _ it4 Hy3); [rewrite <- Hk3; apply upped_run; [apply (i_loc _ _ _ I3 _ _ Hy3)|congruence|done]|unfold it4, upped; by destruct (kind it3)]) as s4 Hs4.
  run (eapply (minimize_spec false (Some (y, bool_decide (kind it4 = Prefix))) br y it4); [exact Hs4|exact I4|mlook|set_solver|case_decide; simpl; lia]) as [s5 c5] (m5 & F5 & z & Hs5 & I5 & Ev5 & _ & Hm5). apply runs_ret.
  simpl in *. exists m5, (set_sz z it4), (n3 + 0)%nat, F5. simpl. split_and!; try done.
  - case_decide; lia.
  - rewrite Hm5. mlook.
  - destruct (ev_keep _ _ _ (ad_ev _ _ _ _ _ _ Ad) _ _ _ _ Hw ltac:(left; set_solver)) as (p3 & Hw3). apply W4 in Hw3. destruct (ev_keep _ _ _ (Ev5 [y]) _ _ _ _ Hw3 ltac:(left; set_solver)) as (p5 & Hw5). by exists p5.
  - eapply same_trans; [eapply ev_same; [apply I|apply I3|apply Ad]|]. eapply same_trans; [exact S4|]. eapply (ev_same _ _ []); [apply I4|apply I5|apply Ev5].
Qed.

Lemma dvg_char_first it root dv : loc root it -> root = false -> (empty_split it = true -> s_cmp_bit (cmp_val it) dv < cmp_bit it) -> dvg_char it 0 dv = Ret (first_char it).
Proof.
  intros Hl -> Hes. unfold dvg_char, first_char, empty_split in *. destruct (bool_decide (kind it = Split) && (chunk_sz it =? 0)%nat)%bool eqn:He; cbn [negb].
  - rewrite (proj2 (Z.ltb_lt _ _)) by (by apply Hes). done.
  - unfold char_of. destruct (chunk it) as [|c l] eqn:Hc; [|done]. exfalso. destruct (loc_empty _ Hl Hc) as (_ & _ & He'). unfold empty_split in He'. congruence.
Qed.
Lemma branch_spec br y it pos s m kk r p key0 dv : st s m 0 (S (S kk)) [] -> inv None br m -> m !! y = Some it -> y <> br -> inchar dv -> diverges m it pos dv -> walk m r y p (key0 ++ chunk it) ->
  runs (_branch d0 true true true true true y pos dv s) (fun q => branched br r (key0 ++ take pos (chunk it)) dv m q kk).
Proof.
  intros Hst I Hy Hbr Hdv Hdg Hw. pose proof (i_loc _ _ _ I _ _ Hy) as Hl. pose proof (loc_length _ _ Hl) as Hlen. unfold _branch. run (eapply backup_st; [exact Hst|exact Hy|simpl; lia]) as s1 Hs1. rat.
  assert (take (chunk_sz it) (chunk it) = chunk it) as Htk by (rewrite <- Hlen; by apply take_ge).
  destruct Hdg as [c Hc Hne Hfit|Hpos Hk Hlt Hfit|Hpos Hk Hnx|Hpos Hk].
  - pose proof (lookup_lt_Some _ _ _ Hc) as Hlt. rewrite (proj2 (Nat.ltb_lt pos (chunk_sz it))) by lia. eapply runs_eq; [unfold char_of; by rewrite Hc|].
    eapply runs_mono; [eapply (cut_with_spec true true false true br y it pos Split false c dv s1 m); [exact Hs1|done|done|lia|done|right; by split_and!|exact Hw|simpl; lia]|].
    intros q (m' & id & n' & F & Hs' & Hn' & I' & Hid & Hkid & Hcv & Hw' & Hsame). destruct (Hcv eq_refl) as [Hval Hbit]. exists m', id, n', F. split_and!; try done; [by rewrite Hkid, bool_decide_false|].
    intros _. unfold fit. by rewrite Hval, Hbit.
  - rewrite Hpos, Nat.ltb_irrefl, decide_True by done. apply runs_swear; [by apply Z.ltb_lt|]. rewrite Htk. eapply (branch_cap_spec br y it s1 m 1 kk r p); try done; [eapply st_weaken; [exact Hs1|simpl; lia..]|lia].
  - rewrite Hpos, Nat.ltb_irrefl, decide_False by congruence. destruct (next_item _ _ _ _ _ _ _ I Hy (proj1 (lnk_prefix _ Hk)) ltac:(done)) as (iz & Hz & _ & _ & _ & Hlz & _). destruct (Hnx _ Hz) as [Hfc Hes].
    rewrite decide_True by done. eapply runs_eq; [rewrite (nxt_if_lnk _ _ _ (proj1 (lnk_prefix _ Hk))); cbn [mbind outcome_mbind]; erewrite at_st by done; cbn [mbind outcome_mbind]; by eapply dvg_char_first|].
    unfold may_mk_up_empty. rewrite lo_large by apply Hl. rewrite Htk. pose proof (branch_up_spec br y it s1 m 1 kk r p key0 (first_char iz) dv) as Hup.
    eapply Hup; try done; [eapply st_weaken; [exact Hs1|simpl; lia..]|congruence|lia|].
    intros _ iy Hiy. rewrite Hz in Hiy. injection Hiy as <-. done.
  - rewrite Hpos, Nat.ltb_irrefl, decide_False by congruence. rewrite decide_False by congruence. cbn [mbind outcome_mbind]. unfold may_mk_up_empty. rewrite lo_large by apply Hl. rewrite Htk.
    pose proof (branch_up_spec br y it s1 m 1 kk r p key0 0 dv) as Hup. eapply Hup; try done; [eapply st_weaken; [exact Hs1|simpl; lia..]|congruence|lia|]. intros Hkp. congruence.
Qed.
End cut.
