(* ===== verification/PrefixInsert.v ===== *)
(** * Inserting a name in a prefix tree.

    [_insert] of src/store/prefix.hh adds the name it is given, and only that one. *)
From S2P Require Import Prelude.
From S2P Require Import PrefixItem.
From S2P Require Import PrefixGraph.
From S2P Require Import PrefixFile.
From S2P Require Import PrefixInv.
From S2P Require Import PrefixSearch.
From S2P Require Import PrefixRun.
From S2P Require Import PrefixTree.
From S2P Require Import PrefixUpd.
From S2P Require Import PrefixGrow.
From S2P Require Import PrefixCut.
Local Open Scope Z_scope.
Import Item.

Section insert.
Context {L : Layout} {HL : LayoutOk L} {A : Type} {B : Blocks A} {HB : BlocksOk A} {D : Type} (d0 : D).
Abbreviation item := (Item.t D).
Abbreviation file := (@PrefixFile.t A D).
Import PrefixFile.
Implicit Types (m : gmap Z item) (it ix iy iz iw id : item) (s : file).

(** ** The branch of a new name *)
Section branch.
Context (name : list Z) (pos0 : nat) m0 (n kk : nat) (Hname : Forall inchar name) (I0 : inv None 0 m0) (Hlen : Z.of_nat (length name) < 2 ^ 64) (Hn : (n <= 64)%nat).
Abbreviation MaxPrefix := (max_of MaxSz Prefix false).
Abbreviation MaxTerminal := (max_of MaxSz Terminal true).
Abbreviation MinTerminal := (max_of MinUsedSz Terminal true).

(** The items created so far, for the characters from [pos0] to [pos] *)
Definition progress m (pos : nat) (br last : Z) : Prop :=
  br = 0 /\ pos = pos0 /\ m = m0 \/ br <> 0 /\ (pos0 <= pos)%nat /\ detached d0 m0 m br last (take (pos - pos0) (drop pos0 name)) false.

(** One more item *)
Lemma grow_spec s m pos csz br last (fin : bool) kk' X (f : file -> Z -> outcome X) Q : st s m n (S kk') [] -> progress m pos br last -> (0 < csz)%nat -> (pos + csz <= length name)%nat ->
  Z.of_nat csz <= max_of MaxSz (if fin then Terminal else Prefix) fin ->
  (forall s' m' e, st s' m' n kk' [] -> detached d0 m0 m' (if br =? 0 then e else br) e (take (pos + csz - pos0) (drop pos0 name)) fin -> (if br =? 0 then e else br) <> 0 -> runs (f s' e) Q) ->
  runs ('(s, e) ← _emplace_name d0 (if fin then Terminal else Prefix) fin name pos csz s; s ← (if br =? 0 then Ret s else _lnk false false last true e s); f s e) Q.
Proof.
  intros Hst Hpr Hc0 Hc Hmax Hf. assert (length (take csz (drop pos name)) = csz) as Hlc by (rewrite length_take, length_drop; lia).
  run (unfold _emplace_name; apply runs_swear; [by apply Nat.leb_le|]; eapply emplace_item_st; [exact HL|exact Hst|by rewrite Hlc|by left]) as [s1 e] (He & He0 & Hs1). simpl in He, He0, Hs1.
  set (id := fresh d0 (if fin then Terminal else Prefix) fin (take csz (drop pos name)) 0 0) in *. assert (branch_item d0 id fin) as Hid.
  { split; [|by destruct fin]. apply fresh_loc; [by rewrite Hlc|by apply Forall_take, Forall_drop|by destruct fin|by destruct fin|]. intros _ Hnil. rewrite Hnil in Hlc. simpl in Hlc. lia. }
  assert (chunk id = take csz (drop pos name)) as Hch by apply fresh_chunk.
  destruct Hpr as [(-> & -> & ->)|(Hbr & Hpos & Hdt)].
  - simpl. apply (Hf s1 _ e Hs1); [|done]. replace (pos0 + csz - pos0)%nat with csz by lia. rewrite <- Hch. by apply detached_start.
  - rewrite (proj2 (Z.eqb_neq _ _) Hbr) in *. destruct (dt_last _ _ _ _ _ _ _ Hdt) as (il & Hil & Hkl). assert (last <> e) as Hne by congruence.
    assert (lnk il true = Some 0) as Hlk by (rewrite <- (E_lookup _ _ _ _ Hil); by apply (lk_hole _ _ (i_linked _ _ _ (dt_inv _ _ _ _ _ _ _ Hdt)))).
    run (eapply lnk_st; [exact Hs1|mlook|mlook|done|done|done|exact Hlk|simpl; lia]) as s2 Hs2. apply (Hf s2 (extended m last e il id) e); [| |done].
    + match type of Hs2 with st _ ?M _ _ _ => replace (extended m last e il id) with M; [eapply st_weaken; [exact Hs2|simpl; lia..]|] end. unfold extended. map_ins.
    + replace (take (pos + csz - pos0) (drop pos0 name)) with (take (pos - pos0) (drop pos0 name) ++ chunk id); [by apply detached_extend|].
      rewrite Hch. replace (drop pos name) with (drop (pos - pos0) (drop pos0 name)) by (rewrite drop_drop; f_equal; lia). rewrite take_take_drop. f_equal. lia.
Qed.

Lemma new_branch_spec fuel s m pos br last : st s m n (length name - pos + kk) [] -> progress m pos br last -> (pos < length name)%nat -> (length name - pos <= fuel)%nat ->
  runs (new_branch d0 fuel MaxPrefix MaxTerminal MinTerminal name pos br last s) (fun q => exists m', let '(s', pos', br', last') := q in
    st s' m' n (length name - pos' + kk) [] /\ progress m' pos' br' last' /\ (pos' < length name)%nat /\ Z.of_nat (length name - pos') <= MaxTerminal).
Proof.
  destruct (lo_max MaxSz Prefix false (legit_max false)) as [_ HmaxP]. destruct (lo_max MinUsedSz Terminal true) as [_ HminT]; [split; [apply lo_used|lia]|]. pose proof lo_terminal as HmT.
  revert s m pos br last. induction fuel as [|fuel IH]; intros s m pos br last Hst Hpr Hpos Hfuel; [lia|]. cbn [new_branch]. destruct (Z.ltb_spec (Z.of_nat pos + MaxTerminal) (Z.of_nat (length name))) as [Hlt|Hge].
  2:{ apply runs_ret. exists m. split_and!; try done. lia. }
  rewrite u64_small by lia. rewrite u8_small by lia. set (csz := Z.to_nat _). assert (0 < csz)%nat as Hc0 by lia. assert (Z.of_nat csz <= MaxPrefix) as HcP by lia. assert (pos + csz < length name)%nat as Hc by lia.
  eapply (grow_spec s m pos csz br last false (length name - pos - 1 + kk)); [eapply st_weaken; [exact Hst|lia..]|done|done|lia|done|].
  intros s' m' e Hs' Hdt Hne. eapply IH; [eapply st_weaken; [exact Hs'|lia..]| |lia|lia]. right. split_and!; [done| |done]. destruct Hpr as [(_ & -> & _)|(_ & ? & _)]; lia.
Qed.
End branch.

(** ** Where the branch goes *)

(** Where a search for [name] stops, at character [cp] of [x] *)
Record stops m (r x : Z) it (cp : nat) (name : list Z) (pos : nat) (p k0 : list Z) : Prop := {
  sp_item : m !! x = Some it;
  sp_walk : walk m r x p (k0 ++ chunk it);
  sp_pos : pos = (length k0 + cp)%nat /\ (pos <= length name)%nat /\ (cp <= chunk_sz it)%nat;
  sp_take : take pos name = k0 ++ take cp (chunk it);
  sp_entry : cp = 0%nat -> prev it <> 0 -> exists v, name !! pos = Some v /\ forall ip, m !! prev it = Some ip -> kind ip = Split -> fit ip (prev_is_eq it) v;
  sp_found : exists d, d <> Cont /\ d <> Match /\ found it name x cp pos d x;
}.
Lemma diverge_at m br r x it cp name pos p k0 dv : inv None br m -> stops m r x it cp name pos p k0 -> name !! pos = Some dv -> inchar dv ->
  exists x' it' cp' p' k0', (if ((cp =? 0)%nat && negb (prev it =? 0))%bool then exists ix, m !! prev it = Some ix /\ (x', cp') = (if decide (kind ix = Prefix) then (prev it, chunk_sz ix) else (x, cp)) else (x', cp') = (x, cp)) /\
    m !! x' = Some it' /\ walk m r x' p' (k0' ++ chunk it') /\ k0' ++ take cp' (chunk it') = take pos name /\ diverges m it' cp' dv.
Proof.
  intros I [Hx Hw (Hpos & Hle & Hcp) Ht Hen (d & Hd1 & Hd2 & Hf)] Hdv Hin. pose proof (i_loc _ _ _ I _ _ Hx) as Hl. pose proof (loc_length _ _ Hl) as Hlen.
  assert ((forall ix, cp = 0%nat -> prev it <> 0 -> m !! prev it = Some ix -> kind ix <> Prefix) -> diverges m it cp dv) as Hhere.
  { intros _. assert (forall ix, cp = 0%nat -> m !! prev it = Some ix -> kind ix = Split -> fit ix (prev_is_eq it) dv) as Hfit.
    { intros ix Hc Hp Hk. destruct Hen as (v & Hv & Hfit); [done|by eapply inv_nz|]. rewrite Hdv in Hv. injection Hv as <-. by apply Hfit. }
    inversion Hf as [v Hlt Hv Hne|Hlt Hn|Hc Hn|v Hc Hv Hk|v Hc Hv Hk|v Hc Hv Hk Hlt|v b Hc Hv Hk Hfitv]; subst d; try done.
    - destruct (lookup_lt_is_Some_2 (chunk it) cp ltac:(lia)) as [c Hcc]. apply (dv_chunk _ _ _ _ c Hcc); [congruence|]. intros Hc ix Hp Hk. by apply Hfit.
    - exfalso. apply lookup_lt_Some in Hdv. lia.
    - exfalso. apply lookup_lt_Some in Hdv. lia.
    - by apply dv_terminal.
    - apply dv_split; try done; [congruence|]. intros He ix Hp Hix Hks. apply Hfit; try done. unfold empty_split in He. apply andb_true_iff in He as [_ He%Nat.eqb_eq]. lia. }
  destruct ((cp =? 0)%nat && negb (prev it =? 0))%bool eqn:Hc.
  2:{ exists x, it, cp, p, k0. split_and!; try done. apply Hhere. intros ix -> Hp. simpl in Hc. rewrite (proj2 (Z.eqb_neq _ _) Hp) in Hc. done. }
  apply andb_true_iff in Hc as [Hc%Nat.eqb_eq Hp%negb_true_iff%Z.eqb_neq]. destruct (inv_parent _ _ _ I _ _ Hx Hp) as (ix & Hix & He). destruct (decide (kind ix = Prefix)) as [Hk|Hk].
  2:{ exists x, it, cp, p, k0. split_and!; try done; [|apply Hhere; intros; simplify_eq; congruence]. exists ix. by rewrite decide_False. }
  destruct (walk_pred _ _ _ _ _ _ _ _ I Hw Hx Hp) as (q & key0 & _ & Hq & _ & Hkk). apply app_inv_tail in Hkk as <-. destruct (walk_key _ _ _ _ _ _ Hq Hix) as (k1 & ->).
  pose proof (loc_length _ _ (i_loc _ _ _ I _ _ Hix)) as Hlx. exists (prev it), ix, (chunk_sz ix), q, k1. split_and!; try done.
  - exists ix. by rewrite decide_True.
  - rewrite <- Hlx, take_ge by done. rewrite Ht, Hc. simpl. by rewrite app_nil_r.
  - pose proof (inv_nonroot _ _ _ I _ _ Hx Hp) as Hlit. apply dv_prefix; try done. rewrite (E_lookup _ _ _ _ Hix) in He. assert (nxt_eq ix = x) as Hnx by (destruct (lnk_prefix _ Hk); destruct (prev_is_eq it); congruence).
    intros iy Hiy. rewrite Hnx, Hx in Hiy. injection Hiy as <-. subst cp. inversion Hf as [v Hlt Hv Hne|Hlt Hn|Hc Hn|v Hc Hv Hkt|v Hc Hv Hkt|v Hc Hv Hks Hlt|v b Hc Hv Hks Hfitv]; subst d; try done.
    + rewrite Hdv in Hv. injection Hv as <-. destruct (nonempty_head _ _ Hlit Hlt) as (c & l & Hch). destruct (first_char_chunk _ _ _ Hch Hlit) as [-> ->]. rewrite Hch in Hne. simpl in Hne. split; [congruence|done].
    + exfalso. apply lookup_lt_Some in Hdv. lia.
    + exfalso. apply lookup_lt_Some in Hdv. lia.
    + exfalso. destruct (l_item _ _ Hlit eq_refl) as [_ Hne]. rewrite Hkt in Hne. assert (0 < chunk_sz it)%nat by (apply Hne; by left). lia.
    + rewrite Hdv in Hv. injection Hv as <-. assert (empty_split it = true) as Hes by (unfold empty_split; rewrite Hks, <- Hc; done). rewrite (first_char_empty _ Hes). split; [|done].
      intros Hcv. destruct (l_split _ _ Hlit Hks) as [Hb _]. rewrite Hcv, cb_refl in Hlt. lia.
Qed.
Lemma diverges_mono m0 m br br' y it pos dv : inv None br m0 -> inv None br' m -> m0 ⊆ m -> m0 !! y = Some it -> diverges m0 it pos dv -> diverges m it pos dv.
Proof.
  intros I0 I Hsub Hy. assert (forall ix, m !! prev it = Some ix -> m0 !! prev it = Some ix) as Hp.
  { intros ix Hix. destruct (decide (prev it = 0)) as [Hp|Hp]; [rewrite Hp, (lk_dom0 _ _ (i_linked _ _ _ I)) in Hix; done|]. destruct (inv_parent _ _ _ I0 _ _ Hy Hp) as (ix0 & Hix0 & _).
    pose proof (lookup_weaken _ _ _ _ Hix0 Hsub). congruence. }
  intros [c Hc Hne Hfit|Hpos Hk Hlt Hfit|Hpos Hk Hnx|Hpos Hk].
  - apply (dv_chunk _ _ _ _ c); eauto.
  - apply dv_split; eauto.
  - apply dv_prefix; try done. intros iy Hiy. apply Hnx. destruct (next_item _ _ _ _ _ _ _ I0 Hy (proj1 (lnk_prefix _ Hk)) ltac:(done)) as (iz & Hz & _). pose proof (lookup_weaken _ _ _ _ Hz Hsub). congruence.
  - by apply dv_terminal.
Qed.

(** The branch is linked: the tree gains the name. *)
Lemma branch_head m0 m1 m2 br last k dv l : detached d0 m0 m1 br last k true -> k = dv :: l -> br <> 0 -> rootkeep m1 m2 -> inv None br m1 -> (exists h, inv h br m2) ->
  exists iy, m2 !! br = Some iy /\ prev iy = 0 /\ prev_is_eq iy = true /\ first_char iy = dv /\ empty_split iy = false.
Proof.
  intros Hdt Hk Hbr Hrk I1 [h2 I2]. destruct (i_br _ _ _ I2 Hbr) as (iy & Hy & Hp). exists iy. assert (loc false iy) as Hly.
  { pose proof (i_loc _ _ _ I2 _ _ Hy) as Hl. unfold is_root in Hl. by rewrite bool_decide_false in Hl by (by intros [_ ?]). }
  assert (exists l', chunk iy = dv :: l') as (l' & Hc).
  { destruct (dt_walk _ _ _ _ _ _ _ Hdt) as (p & Hw). destruct (walk_dn _ _ _ _ _ Hw) as (iy1 & k' & Hy1 & _ & Hkk). destruct (walk_from _ _ _ _ _ Hw) as (iy1' & Hy1' & Hp1). rewrite Hy1 in Hy1'. injection Hy1' as <-.
    destruct (Hrk br [br] (chunk iy1)) as (p2 & Hw2); [by apply walk_root|]. destruct (walk_self _ _ _ _ _ (i_linked _ _ _ I2) Hw2) as (iy2 & Hy2 & _ & _ & Hcc). rewrite Hy in Hy2. injection Hy2 as <-.
    assert (chunk iy1 <> []) as Hne.
    { intros Hnil. pose proof (i_loc _ _ _ I1 _ _ Hy1) as Hl. unfold is_root in Hl. rewrite bool_decide_false in Hl by (by intros [_ ?]). destruct (loc_empty _ Hl Hnil) as (Hks & _).
      destruct (dt_head _ _ _ _ _ _ _ Hdt) as (ih & Hih & Hkh). congruence. }
    rewrite Hk in Hkk. rewrite <- Hcc. destruct (chunk iy1) as [|c l']; [done|]. simpl in Hkk. injection Hkk as <- _. eauto. }
  destruct (first_char_chunk _ _ _ Hc Hly) as [Hf He]. split_and!; try done. eapply (lk_root _ _ (i_linked _ _ _ I2) br). rewrite (U_lookup _ _ _ Hy). unfold bk. by rewrite Hp.
Qed.
Lemma attach_gains m0 m1 m2 br last name pos r x it px : detached d0 m0 m1 br last (drop pos name) true -> same m1 m2 -> inv (Some (x, bool_decide (kind it = Prefix))) br m2 -> m2 !! x = Some it ->
  walk m2 r x px (take pos name) -> root m0 r -> forall iy, m2 !! br = Some iy -> prev iy = 0 -> (kind it = Split -> split_ok it (bool_decide (kind it = Prefix)) iy = true) ->
  let m3 := attached m2 x (bool_decide (kind it = Prefix)) br it iy in inv None 0 m3 /\ gains m0 m3 r name last d0.
Proof.
  intros Hdt Hsame I2 Hx Hw (ir & Hr & Hpr) iy Hy Hp Hs m3. destruct (dt_new _ _ _ _ _ _ _ Hdt) as [Hnb _]. assert (r <> br) as Hrb by congruence.
  split; [by eapply (attach_inv m2 x _ br r it iy px)|]. split.
  - intros r' k j d. unfold m3. rewrite (attach_has m2 x _ br r it iy px (take pos name)) by done. setoid_rewrite (same_has _ _ Hsame). setoid_rewrite (dt_has _ _ _ _ _ _ _ Hdt).
    assert (forall k j d, ~ has m0 br k j d) as Hno. { intros k1 j1 d1 (p1 & it1 & Hw1 & _). destruct (walk_from _ _ _ _ _ Hw1) as (? & ? & _). congruence. }
    split.
    + intros [[Hrn [Hh|(_ & ? & _)]]|(-> & k2 & -> & [Hh|(_ & _ & -> & -> & ->)])]; [by left|done|by apply Hno in Hh|]. right. by rewrite take_drop.
    + intros [Hh|(-> & -> & -> & ->)]; [left; split; [by intros ->; apply Hno in Hh|by left]|]. right. split; [done|]. exists (drop pos name). rewrite take_drop. split; [done|]. right. done.
  - intros r'. unfold m3. rewrite (attach_root m2 x _ br r it iy px (take pos name)) by done. rewrite (same_root _ _ Hsame), (dt_root _ _ _ _ _ _ _ Hdt). split; [by intros [[?| ->] ?]|].
    intros Hr'. split; [by left|]. intros ->. destruct Hr' as (? & ? & _). congruence.
  - intros r' p k Hw'. assert (r' <> br) as Hne. { intros ->. destruct (walk_from _ _ _ _ _ Hw') as (? & ? & _). congruence. }
    apply (dt_keep _ _ _ _ _ _ _ Hdt) in Hw'. destruct (same_keep _ _ Hsame _ _ _ Hw') as (p' & Hw2). destruct (attach_linked m2 x (bool_decide (kind it = Prefix)) br r it iy px (take pos name)) as [_ Hwk]; try done.
    specialize (Hwk _ _ _ _ Hw2). rewrite decide_False in Hwk by done. eauto.
Qed.

Lemma branch_link_spec m0 m1 br last name pos r dv (q : file * Z) kk : detached d0 m0 m1 br last (drop pos name) true -> br <> 0 -> name !! pos = Some dv -> root m0 r -> branched br r (take pos name) dv m1 q kk ->
  runs (it ← _at q.2 q.1; s ← _lnk false false q.2 (bool_decide (kind it = Prefix)) br q.1; s ← _commit s; Ret (s, last))
    (fun q' => q'.2 = last /\ exists m', items q'.1 = m' /\ clean q'.1 kk /\ inv None 0 m' /\ gains m0 m' r name last d0).
Proof.
  intros Hdt Hbr Hdv Hr (m2 & it & n2 & F & Hs2 & Hn2 & I2 & Hx & Hfit & (px & Hw) & Hsame). rat.
  assert (drop pos name = dv :: drop (S pos) name) as Hdrop by (by apply drop_S).
  destruct (branch_head _ _ m2 _ _ _ _ _ Hdt Hdrop Hbr (same_keep _ _ Hsame) (dt_inv _ _ _ _ _ _ _ Hdt) ltac:(eauto)) as (iy & Hy & Hp & Hpe & Hfc & Hes).
  destruct (attach_gains m0 m1 m2 br last name pos r q.2 it px Hdt Hsame I2 Hx Hw Hr iy Hy Hp) as [I3 G3].
  { intros Hk. rewrite bool_decide_false by congruence. apply split_ok_fit. rewrite Hes, Hfc. split; [done|by apply Hfit]. }
  assert (q.2 <> br) as Hne.
  { intros Heq. rewrite Heq in *. destruct (dt_new _ _ _ _ _ _ _ Hdt) as [Hnb _]. assert (walk m2 br br [br] (chunk iy)) as Hw' by (by apply walk_root). destruct (walk_unique _ _ (i_linked _ _ _ I2) _ _ _ _ _ _ _ Hw Hw') as (Hrb & _).
    destruct Hr as (? & ? & _). congruence. }
  run (eapply lnk_st; [exact Hs2|exact Hx|exact Hy|done|done|done|rewrite <- (E_lookup _ _ _ _ Hx); by apply (lk_hole _ _ (i_linked _ _ _ I2))|simpl; lia]) as s3 Hs3.
  run (eapply commit_st; exact Hs3) as s4 [Hi4 Hc4]. apply runs_ret. simpl. split; [done|]. by exists (items s4); rewrite Hi4.
Qed.

Lemma insert_new_spec r x it cp name pos s m kk p k0 : st s m 0 (length name + 2 + kk) [] -> inv None 0 m -> stops m r x it cp name pos p k0 -> Forall inchar name -> Z.of_nat (length name) < 2 ^ 64 -> (pos < length name)%nat ->
  runs (_insert d0 x cp name pos s) (fun q => exists m', items q.1 = m' /\ clean q.1 kk /\ inv None 0 m' /\ gains m m' r name q.2 d0).
Proof.
  intros Hst I Hsp Hname Hlen Hpos. destruct (lookup_lt_is_Some_2 name pos Hpos) as [dv Hdv]. assert (inchar dv) as Hin by (by eapply Forall_lookup_1). pose proof (sp_item _ _ _ _ _ _ _ _ _ Hsp) as Hx.
  destruct (diverge_at _ _ _ _ _ _ _ _ _ _ _ I Hsp Hdv Hin) as (x' & it' & cp' & p' & k0' & Hadj & Hx' & Hw' & Hk' & Hdg).
  destruct (lo_max MaxSz Prefix false (legit_max false)) as [HmP _], (lo_max MaxSz Terminal true (legit_max true)) as [HmT _], (lo_max MinUsedSz Terminal true) as [HnT _]; [split; [apply lo_used|lia]|].
  unfold _insert. eapply runs_eq; [exact HmP|]. eapply runs_eq; [exact HmT|]. eapply runs_eq; [exact HnT|]. apply runs_swear; [apply Nat.leb_le; lia|]. rewrite (proj2 (Nat.eqb_neq pos (length name))) by lia. rat.
  eapply (runs_eq _ _ _ (x', cp')).
  { destruct ((cp =? 0)%nat && negb (prev it =? 0))%bool; [|by rewrite Hadj]. destruct Hadj as (ix & Hix & ->). erewrite at_st by done. done. }
  rewrite Hdv. cbn [mbind outcome_mbind]. assert (root m r) as Hroot by (by eapply walk_from).
  run (eapply (new_branch_spec name pos m 0 (2 + kk) Hname I Hlen ltac:(lia) _ s m pos 0 0); [eapply st_weaken; [exact Hst|lia..]|left; done|done|lia]) as [[[s1 pos1] br1] last1] (m1 & Hs1 & Hpr1 & Hpos1 & Hmax1).
  eapply (grow_spec name pos m 0 Hname I ltac:(lia) s1 m1 pos1 (length name - pos1) br1 last1 true (2 + kk)); [eapply st_weaken; [exact Hs1|lia..]|done|lia|lia|done|].
  intros s2 m2 res Hs2 Hdt Hbr0. set (br := if br1 =? 0 then res else br1) in *. replace (take (pos1 + (length name - pos1) - pos) (drop pos name)) with (drop pos name) in Hdt by (rewrite take_ge; [done|rewrite length_drop; lia]).
  assert (x' <> br) as Hxb. { destruct (dt_new _ _ _ _ _ _ _ Hdt) as [Hnb _]. congruence. }
  run (eapply (branch_spec d0 br x' it' cp' s2 m2 kk r p' k0' dv); [exact Hs2|apply Hdt|eapply lookup_weaken; [exact Hx'|apply Hdt]|done|done| |by apply (dt_keep _ _ _ _ _ _ _ Hdt)]) as [s3 x3] Hb3.
  { eapply diverges_mono; [exact I|apply Hdt|apply Hdt|done|done]. }
  rewrite Hk' in Hb3. eapply runs_mono; [eapply (branch_link_spec m m2 br res name pos r dv (s3, x3)); done|]. intros [s4 res'] [-> (m' & ? & ? & ? & ?)]. by exists m'.
Qed.

(** ** The name ends at an item: the item becomes used *)
Lemma gains_ev m m' m'' r key i d : gains m m' r key i d -> inv None 0 m' -> inv None 0 m'' -> ev [] m' m'' -> gains m m'' r key i d.
Proof. intros G I1 I2 Ev. eapply gains_same; [exact G|]. eapply ev_same; [apply I1|apply I2|exact Ev]. Qed.

Lemma use_in_place_spec r x it s m kk p key n : st s m n (S kk) [] -> inv None 0 m -> m !! x = Some it -> used it = false -> legit (sz it) true -> (prev it <> 0 -> (0 < chunk_sz it)%nat) -> walk m r x p key -> (n <= 40)%nat ->
  runs (use_in_place d0 x s) (fun q => exists m', items q.1 = m' /\ clean q.1 kk /\ inv None 0 m' /\ gains m m' r key q.2 d0).
Proof.
  intros Hst I Hx Hu Hleg Hne Hw Hn. pose proof (i_loc _ _ _ I _ _ Hx) as Hl. destruct (lo_max (sz it) (kind it) true Hleg) as [Hmx1 Hmx2]. assert (x <> 0) as Hx0 by (by eapply inv_nz). unfold use_in_place. rat.
  eapply runs_eq; [exact Hmx1|]. run (eapply (add_prefix_spec d0 true true false None 0 x it (chunk_sz it) (sz it) (kind it) true); done) as [s3 na] (Hna & m3 & n3 & Hs3 & Ad & Hn3 & _). simpl in Hna, Hs3, Ad, Hn3.
  destruct (ad_item _ _ _ _ _ _ Ad _ Hx) as (it3 & Hx3 & (Hk3 & Hu3 & _)%attrs_eq & Hsz3 & Hcs3 & Hp3). pose proof (ad_inv _ _ _ _ _ _ Ad) as I3.
  assert (Z.of_nat (chunk_sz it3) <= max_of (sz it3) (kind it3) true) as Hc3 by (rewrite Hsz3, Hk3, Hcs3; lia). assert (prev it3 <> 0 -> (0 < chunk_sz it3)%nat) as Hne3.
  { intros Hp. rewrite Hcs3. assert (0 < chunk_sz it)%nat by (apply Hne; tauto). lia. }
  assert (legit (sz it3) true) as Hleg3 by (by rewrite Hsz3). assert (used it3 = false) as Hu3' by congruence. destruct (ev_keep _ _ _ (ad_ev _ _ _ _ _ _ Ad) _ _ _ _ Hw ltac:(left; set_solver)) as (p3 & Hw3).
  pose proof (use_inv 0 m3 x d0 it3 I3 Hx3 Hleg3 Hc3 Hne3 Hx0) as I4. pose proof (use_gains 0 m3 x d0 it3 I3 Hx3 Hu3' r p3 key Hw3) as G4.
  run (eapply (upd__st _ _ _ _ _ Hs3 _ _ _ (set_used true d0 it3) Hx3); [|done]) as s4 Hs4.
  { unfold mk_used. rewrite Hu3'. cbn [Bool.eqb]. unfold chk_chunk_sz, max_chunk_sz. simpl. destruct (lo_max (sz it3) (kind it3) true Hleg3) as [-> _]. cbn [mbind outcome_mbind]. by rewrite (proj2 (Z.leb_le _ _)). }
  run (eapply (minimize_spec false None 0 x (set_used true d0 it3)); [exact Hs4|exact I4|mlook|set_solver|case_decide; simpl; lia]) as [s5 c5] (m5 & F5 & z & Hs5 & I5 & Ev5 & _ & Hm5).
  run (eapply commit_st; exact Hs5) as s6 [Hi6 Hc6]. apply runs_ret. simpl. exists (items s6). rewrite Hi6. split_and!; try done. eapply gains_ev; [|exact I4|exact I5|apply Ev5]. eapply same_gains; [|exact G4].
  eapply ev_same; [apply I|apply I3|apply Ad].
Qed.

(** The copy of an item, in a block large enough for its data, takes its place. *)
Definition copy_of it : item := fresh d0 (kind it) true (chunk it) (if decide (kind it = Split) then cmp_val it else 0) (if decide (kind it = Split) then cmp_bit it else 0).
Lemma mv_spec x d it iw s m n k : st s (<[d := copy_of it]> m) n k [] -> inv None 0 m -> m !! x = Some it -> prev it <> 0 -> kind it <> Terminal -> m !! d = None -> d <> 0 -> m !! prev it = Some iw -> (n + 3 <= 64)%nat ->
  runs (_mv true false true true x d s) (fun s' => exists m' id, st s' m' (n + 3) k [] /\
    (forall z, m' !! z = if decide (z = x) then None else if decide (z = d) then Some id else relink x d (prev it) (prev_is_eq it) z <$> m !! z) /\
    bk id = bk it /\ (forall c, lnk id c = lnk it c) /\ kind id = kind it /\ used id = true /\ data id = d0 /\ chunk id = chunk it /\ sz id = sz (copy_of it) /\ chunk_sz id = chunk_sz (copy_of it) /\
    (loc false (copy_of it) -> loc false id) /\ cmp_bit id = cmp_bit (copy_of it) /\ cmp_val id = cmp_val (copy_of it)).
Proof.
  intros Hst I Hx Hp Hk Hd Hd0 Hw Hn. pose proof (i_linked _ _ _ I) as Hl. destruct (inv_parent _ _ _ I _ _ Hx Hp) as (iw' & Hw' & Ewx). rewrite Hw in Hw'. injection Hw' as <-.
  assert (x <> d) as Nxd by congruence. assert (prev it <> x) as Nwx by (eapply E_irrefl; [done..|by eapply inv_nz]). assert (prev it <> d) as Nwd by congruence.
  assert (lnk iw (prev_is_eq it) = Some x) as Hlw by (by rewrite <- (E_lookup _ _ _ _ Hw)). assert (forall b, has_nxt (kind it) b = true -> lnk (copy_of it) b = Some 0) as Hlc by (intros b Hb; unfold lnk, copy_of, nx; simpl; rewrite Hb; by destruct b).
  assert (forall b y, lnk it b = Some y -> exists iy, m !! y = Some iy /\ prev iy = x /\ prev_is_eq iy = b /\ y <> x /\ y <> d /\ y <> prev it) as Hnx.
  { intros b y Hb. destruct (next_item _ _ _ _ _ _ _ I Hx Hb ltac:(done)) as (iy & Hy & _ & Hpy & Hpe & _). destruct (child_ne _ _ _ _ _ _ _ I Hx Hy Hpy). exists iy. split_and!; try done; congruence. }
  assert (forall z iz, m !! z = Some iz -> prev iz = x -> lnk it (prev_is_eq iz) = Some z) as Hch.
  { intros z iz Hz Hpz. destruct (inv_parent _ _ _ I _ _ Hz) as (_ & _ & Ez); [rewrite Hpz; by eapply inv_nz|]. by rewrite Hpz, (E_lookup _ _ _ _ Hx) in Ez. }
  unfold _mv. eapply runs_at; [exact Hst|mlook|]. eapply runs_at; [exact Hst|mlook|]. apply runs_swear; [by apply bool_decide_true|].
  run (eapply mv_lnk_after_st; [exact Hst|mlook|exact Hlw|mlook|mlook|done|done|done|done|done|simpl; lia]) as s1 Hs1.
  assert (prev iw <> x) as Npw by (intros Hpw; specialize (Hch _ _ Hw Hpw); by destruct (Hnx _ _ Hch) as (_ & _ & _ & _ & _ & _ & ?)).
  destruct (kind it) eqn:Hkd; [done|rewrite decide_False by done|rewrite decide_True by done].
  - cbn [mbind outcome_mbind]. rewrite decide_False by done. destruct (lnk_prefix _ Hkd) as [Hlt Hlf]. destruct (Hnx _ _ Hlt) as (i1 & Hy1 & P1 & Q1 & N1 & N2 & N3).
    run (eapply runs_at; [exact Hs1|mlook|]; eapply runs_eq; [by apply nxt_if_lnk|]; eapply mv_lnk_before_st;
      [exact Hs1|mlook|by apply (Hlc true)|mlook|rewrite P1; mlook|by rewrite Q1|congruence|congruence|congruence|simpl; lia]) as s2 Hs2.
    rewrite P1, Q1 in Hs2. apply runs_ret. eexists _, (set_nxt true (nxt_eq it) (set_prev (prev it) (prev_is_eq it) (copy_of it))). split; [|split].
    + eapply st_weaken; [eapply schedule_pop_st; [exact Hs2|mlook|set_solver]|simpl; lia|done].
    + intros z. destruct (decide (z = x)) as [->|Zx]; [apply lookup_delete_eq|]. rewrite lookup_delete_ne by congruence. destruct (decide (z = d)) as [->|Zd]; [mlook|].
      destruct (decide (z = nxt_eq it)) as [->|Z1]; [rewrite Hy1; simpl; rewrite (relink_child x d (prev it) _ _ _ N3 P1), Q1; mlook|].
      destruct (decide (z = prev it)) as [->|Zw]; [rewrite Hw; simpl; rewrite relink_parent by done; mlook|]. rewrite !lookup_insert_ne by congruence. destruct (m !! z) as [iz|] eqn:Hz; [|done]. simpl.
      rewrite relink_other; [done..|]. intros Hpz. specialize (Hch _ _ Hz Hpz). destruct (prev_is_eq iz); congruence.
    + split_and!; try done; [|by apply fresh_chunk|intros; by apply loc_set_nxt, loc_set_prev]. intros c. unfold lnk. simpl. rewrite Hkd. by destruct c.
  - assert (lnk it true = Some (nxt_eq it) /\ lnk it false = Some (nxt_neq it)) as [Hlt Hlf] by (unfold lnk; by rewrite Hkd). destruct (Hnx _ _ Hlt) as (i1 & Hy1 & P1 & Q1 & N1 & N2 & N3).
    destruct (Hnx _ _ Hlf) as (i0 & Hy0 & P0 & Q0 & M1 & M2 & M3). assert (nxt_neq it <> nxt_eq it) as N01 by congruence.
    run (eapply runs_at; [exact Hs1|mlook|]; eapply runs_eq; [by apply nxt_if_lnk|]; eapply mv_lnk_before_st;
      [exact Hs1|mlook|by apply (Hlc false)|mlook|rewrite P0; mlook|by rewrite Q0|congruence|congruence|congruence|simpl; lia]) as s2 Hs2. rewrite P0, Q0 in Hs2. rewrite decide_False by done.
    run (eapply runs_at; [exact Hs2|mlook|]; eapply runs_eq; [by apply nxt_if_lnk|]; eapply mv_lnk_before_st;
      [exact Hs2|mlook|by apply (Hlc true)|mlook|rewrite P1; mlook|by rewrite Q1|congruence|congruence|congruence|simpl; lia]) as s3 Hs3. rewrite P1, Q1 in Hs3.
    apply runs_ret. eexists _, (set_nxt true (nxt_eq it) (set_nxt false (nxt_neq it) (set_prev (prev it) (prev_is_eq it) (copy_of it)))). split; [|split].
    + eapply st_weaken; [eapply schedule_pop_st; [exact Hs3|mlook|set_solver]|simpl; lia|done].
    + intros z. destruct (decide (z = x)) as [->|Zx]; [apply lookup_delete_eq|]. rewrite lookup_delete_ne by congruence. destruct (decide (z = d)) as [->|Zd]; [mlook|].
      destruct (decide (z = nxt_eq it)) as [->|Z1]; [rewrite Hy1; simpl; rewrite (relink_child x d (prev it) _ _ _ N3 P1), Q1; mlook|].
      destruct (decide (z = nxt_neq it)) as [->|Z0]; [rewrite Hy0; simpl; rewrite (relink_child x d (prev it) _ _ _ M3 P0), Q0; mlook|].
      destruct (decide (z = prev it)) as [->|Zw]; [rewrite Hw; simpl; rewrite relink_parent by done; mlook|]. rewrite !lookup_insert_ne by congruence. destruct (m !! z) as [iz|] eqn:Hz; [|done]. simpl.
      rewrite relink_other; [done..|]. intros Hpz. specialize (Hch _ _ Hz Hpz). destruct (prev_is_eq iz); congruence.
    + split_and!; try done; [by apply fresh_chunk|intros; by apply loc_set_nxt, loc_set_nxt, loc_set_prev].
Qed.

Lemma copy_run x it s m n k : st s m n (S k) [] -> m !! x = Some it -> loc false it -> kind it <> Terminal -> Z.of_nat (chunk_sz it) <= max_of MaxSz (kind it) true -> (0 < chunk_sz it)%nat ->
  loc false (copy_of it) /\ runs (_emplace_copy d0 (kind it) true x 0 (chunk_sz it) s) (fun q => m !! q.2 = None /\ q.2 <> 0 /\ st q.1 (<[q.2 := copy_of it]> m) n k []).
Proof.
  intros Hst Hx Hl Hk Hmax Hc. pose proof (loc_length _ _ Hl) as Hlen. split.
  - apply fresh_loc; [by rewrite Hlen|apply Hl| |done|intros _ Hnil; rewrite Hnil in Hlen; simpl in Hlen; lia]. intros Hks. rewrite !decide_True by done. destruct (l_split _ _ Hl Hks). done.
  - unfold _emplace_copy, copy_of, _emplace_from. destruct (decide (kind it = Split)) as [Hks|Hks].
    + rat. apply runs_swear; [by apply bool_decide_true|]. rat. apply runs_swear; [apply Nat.leb_le; lia|]. rewrite drop_0, take_ge by lia. eapply emplace_item_st; [exact HL|exact Hst|by rewrite Hlen|by right].
    + rat. apply runs_swear; [apply Nat.leb_le; lia|]. rewrite drop_0, take_ge by lia. eapply emplace_item_st; [exact HL|exact Hst|by rewrite Hlen|by left].
Qed.
Lemma use_spec r x it s m kk p key : st s m 0 (S kk) [] -> inv None 0 m -> m !! x = Some it -> used it = false -> (prev it <> 0 -> (0 < chunk_sz it)%nat) -> walk m r x p key ->
  runs (_use d0 x s) (fun q => exists m', items q.1 = m' /\ clean q.1 kk /\ inv None 0 m' /\ gains m m' r key q.2 d0).
Proof.
  intros Hst I Hx Hu Hne Hw. pose proof (i_loc _ _ _ I _ _ Hx) as Hl. unfold _use. run (eapply backup_st; [exact Hst|exact Hx|simpl; lia]) as s1 Hs1. rat. apply runs_swear; [by rewrite Hu|].
  apply runs_swear. { destruct (Z.eqb_spec (prev it) 0) as [Hp|Hp]; [apply orb_true_r|]. by rewrite (proj2 (Nat.ltb_lt _ _) (Hne Hp)). }
  pose proof (l_legit _ _ Hl) as Hleg. rewrite Hu in Hleg. destruct (lo_small (sz it) (kind it) Hleg) as [Hlarge Hsmall]. unfold may_use_empty.
  destruct (_s_large_enough_empty (sz it) (kind it) true) eqn:Hle; [eapply use_in_place_spec; [exact Hs1|done|done|done|by apply Hlarge|done|exact Hw|simpl; lia]|]. specialize (Hsmall eq_refl).
  assert (prev it <> 0) as Hp.
  { intros Hp. unfold is_root in Hl. rewrite bool_decide_true in Hl by (split; [done|by eapply inv_nz]). destruct (l_root _ _ Hl eq_refl) as [_ Hlt]. by rewrite (lo_large (sz it) (kind it) true Hlt) in Hle. }
  pose proof (inv_nonroot _ _ _ I _ _ Hx Hp) as Hl0. pose proof (l_chunk _ _ Hl0) as Hc. rewrite Hu in Hc. assert (kind it <> Terminal) as Hkt by (intros Hk; destruct (l_item _ _ Hl0 eq_refl) as [Ht _]; rewrite Ht in Hu; done).
  apply runs_swear; [by rewrite (proj2 (Z.eqb_neq _ _) Hp)|]. eapply (runs_eq _ _ _ (if decide (kind it = Split) then max_of MaxSz (kind it) true else Z.of_nat (chunk_sz it))).
  { case_decide; [apply lo_max, legit_max|done]. }
  rewrite (proj2 (Z.ltb_ge _ _)) by (case_decide; lia). destruct (copy_run x it s1 m _ kk Hs1 Hx Hl0 Hkt ltac:(lia) (Hne Hp)) as [Hlc Hcopy]. run (exact Hcopy) as [s2 d] (Hd & Hd0 & Hs2). simpl in Hd, Hd0, Hs2.
  destruct (inv_parent _ _ _ I _ _ Hx Hp) as (iw & Hiw & _). run (eapply mv_spec; [exact Hs2|done|done|done|done|done|done|exact Hiw|simpl; lia]) as s3 (m3 & id & Hs3 & Hm3 & Hbk & Hlk & Hkd & Hud & Hdd & Hch & Hsz & Hcs & Hlid & Hbit & Hval).
  assert (kind it = Split -> psame it id) as Hps by (intros Hk; unfold psame; rewrite Hbit, Hval; unfold copy_of; simpl; rewrite !decide_True by done; split_and!; [done|apply Z.mod_small, (l_split _ _ Hl0 Hk)|done]).
  assert (chunk id = chunk it /\ chunk_sz id = chunk_sz it) as Hch' by (split; [done|]; rewrite Hcs; unfold copy_of; simpl; by rewrite (loc_length _ _ Hl0)).
  pose proof (move_inv m m3 x d it id I Hx Hp Hd Hd0 Hm3 Hbk Hlk Hch' Hkd Hps (Hlid Hlc) Hud) as I3. assert (gains m m3 r key d (data id) /\ exists p', walk m3 r d p' key) as [G3 (p3 & Hw3)] by (eapply (move_gains m m3 x d it id); eauto). rewrite Hdd in G3.
  assert (m3 !! d = Some id) as Hd3 by (rewrite Hm3, decide_False, decide_True by congruence; done). destruct (walk_in _ _ _ _ _ Hw3) as (_ & q & ->). pose proof (loc_slack _ _ (Hlid Hlc)) as Hsl. destruct Hch' as [_ Hcs']. specialize (Hne Hp).
  run (eapply (compress_before_spec true false true); [exact Hs3|exact I3|done|exact Hd3|exact Hw3|set_solver|simpl; lia]) as [s4 c4] Hq. destruct Hq as [[= -> ->]|(_ & m' & n' & Hs4 & C & _)].
  - run (eapply commit_st; exact Hs3) as s6 [Hi6 Hc6]. apply runs_ret. simpl. exists (items s6). by rewrite Hi6.
  - run (eapply commit_st; exact Hs4) as s6 [Hi6 Hc6]. apply runs_ret. simpl. exists (items s6). rewrite Hi6. split_and!; try done; [apply C|]. eapply gains_ev; [exact G3|done|apply C|apply (co_ev _ _ _ _ _ _ C); set_solver].
Qed.
Lemma cut_spec r x it cp s m kk p key0 : st s m 0 (S (S kk)) [] -> inv None 0 m -> m !! x = Some it -> (cp <= chunk_sz it)%nat -> (cp = chunk_sz it -> used it = false) -> (prev it <> 0 -> (0 < cp)%nat) -> walk m r x p (key0 ++ chunk it) ->
  runs (_cut d0 x cp s) (fun q => exists m', items q.1 = m' /\ clean q.1 kk /\ inv None 0 m' /\ gains m m' r (key0 ++ take cp (chunk it)) q.2 d0).
Proof.
  intros Hst I Hx Hcp Hu Hne Hw. pose proof (i_loc _ _ _ I _ _ Hx) as Hl. unfold _cut. rat. destruct (Nat.eqb_spec cp (chunk_sz it)) as [->|Hlt].
  - rewrite take_ge by (by rewrite (loc_length _ _ Hl)). eapply use_spec; [eapply st_weaken; [exact Hst|lia..]|done|done|auto|done|exact Hw].
  - run (eapply (cut_with_spec d0 true true true true 0 x it cp Prefix true 0 0); [exact Hst|exact I|exact Hx|lia|by eapply inv_nz| |exact Hw|simpl; lia]) as [s1 i] (m1 & id & n1 & F1 & Hs1 & _ & I1 & _ & _ & _ & _ & G1).
    { left. split_and!; try done. destruct (decide (prev it = 0)) as [Hp|Hp]; [|auto]. exfalso. unfold is_root in Hl. rewrite bool_decide_true in Hl by (split; [done|by eapply inv_nz]). destruct (l_root _ _ Hl eq_refl). lia. }
    simpl in *. run (eapply commit_st; exact Hs1) as s2 [Hi2 Hc2]. apply runs_ret. simpl. exists (items s2). by rewrite Hi2.
Qed.
Lemma insert_at_spec r x it cp name pos s m kk p k0 : st s m 0 (length name + 2 + kk) [] -> inv None 0 m -> stops m r x it cp name pos p k0 -> Forall inchar name -> Z.of_nat (length name) < 2 ^ 64 ->
  runs (_insert d0 x cp name pos s) (fun q => exists m', items q.1 = m' /\ clean q.1 kk /\ inv None 0 m' /\ gains m m' r name q.2 d0).
Proof.
  intros Hst I Hsp Hname Hlen. pose proof Hsp as [Hx Hw (Hpos & Hle & Hcp) Ht Hen (d & Hd1 & Hd2 & Hf)]. destruct (decide (pos = length name)) as [Hp|]; [|eapply insert_new_spec; eauto; lia].
  unfold _insert. eapply runs_eq; [apply lo_max, legit_max|]. eapply runs_eq; [apply lo_max, legit_max|]. eapply runs_eq; [apply lo_max; split; [apply lo_used|lia]|].
  apply runs_swear; [by apply Nat.leb_le|]. rewrite (proj2 (Nat.eqb_eq _ _) Hp). assert (k0 ++ take cp (chunk it) = name) as <- by (rewrite <- Ht; apply take_ge; lia).
  eapply cut_spec; [eapply st_weaken; [exact Hst|lia..]|done|done|done| |intros Hpr; destruct (decide (cp = 0%nat)) as [Hc|]; [|lia]; exfalso|exact Hw].
  - intros Hc. inversion Hf; subst; try lia; [|apply lookup_lt_Some in H0; lia..]. by destruct (used it).
  - destruct (Hen Hc Hpr) as (v & Hv & _). apply lookup_lt_Some in Hv. lia.
Qed.
End insert.
