(* ===== verification/PrefixPop.v ===== *)
(** * Removing a name from a prefix tree.

    [_pop] of src/store/prefix.hh removes the name of the item it is given, and only that one. *)
From S2P Require Import Prelude.
From S2P Require Import PrefixItem.
From S2P Require Import PrefixGraph.
From S2P Require Import PrefixFile.
From S2P Require Import PrefixInv.
From S2P Require Import PrefixSearch.
From S2P Require Import PrefixRun.
From S2P Require Import PrefixTree.
From S2P Require Import PrefixUpd.
From S2P Require Import PrefixGrow.
Local Open Scope Z_scope.
Import Item.

Section pop.
Context {L : Layout} {HL : LayoutOk L} {A : Type} {B : Blocks A} {HB : BlocksOk A} {D : Type} (d0 : D).
Abbreviation item := (Item.t D).
Abbreviation file := (@PrefixFile.t A D).
Import PrefixFile.
Implicit Types (m : gmap Z item) (it ix iy iz iw id : item) (s : file).

(** [m'] has the names of [m] but the one of [i]; what is under the detached root [n] does not count. *)
Record drops (n i : Z) m m' : Prop := {
  dr_has r k j d : r <> n -> has m' r k j d <-> has m r k j d /\ j <> i;
  dr_root r : r <> n -> root m' r <-> root m r;
  dr_keep r p k : r <> n -> walk m r r p k -> exists p', walk m' r r p' k;
}.
Lemma drops_same n i m m' m'' : drops n i m m' -> same m' m'' -> drops n i m m''.
Proof. intros [H1 H2 H3] [H4 H5 H6]. split; [intros; rewrite H4; by apply H1|intros; rewrite H5; by apply H2|]. intros r p k Hr Hw. destruct (H3 _ _ _ Hr Hw) as (p' & Hw'). by eapply H6. Qed.
Lemma drops_ev n i br h m m' m'' : drops n i m m' -> inv h br m' -> inv h br m'' -> ev [] m' m'' -> drops n i m m''.
Proof. intros Hd I1 I2 Ev. eapply drops_same; [exact Hd|]. eapply ev_same; [apply I1|apply I2|exact Ev]. Qed.

(** ** An item is no more used *)
Section unuse.
Context m (x : Z) ix (I : inv None 0 m) (Hx : m !! x = Some ix) (Hu : used ix = true) (Hk : kind ix <> Terminal \/ prev ix = 0).
Abbreviation ix' := (set_used false (data ix) ix).
Abbreviation m' := (<[x := ix']> m).
Lemma unuse_links : linked None m' /\ keep (fun _ => True) m m'.
Proof. split; [eapply linked_attr; [apply I|exact Hx|done..]|by eapply keep_attr]. Qed.
Lemma unuse_loc : loc (is_root 0 x ix) ix'.
Proof.
  pose proof (i_loc _ _ _ I _ _ Hx) as [L1 L2 L3 L4 L5 L6 L7]. rewrite Hu in *. pose proof (lo_unused _ (kind ix) L1). split; simpl; try done; [split; [apply L1|done]|lia|].
  intros Hr. destruct (L7 Hr) as [_ L7']. unfold is_root in Hr. apply bool_decide_eq_false in Hr. assert (x <> 0) by (by eapply inv_nz). destruct Hk as [Hk'|Hp]; [|by destruct Hr]. split; [done|]. intros _. apply L7'. by right.
Qed.
Lemma unuse_inv : inv None 0 m'.
Proof.
  apply inv_intro; [apply unuse_links|..|done].
  - intros i it [[<- <-]|[_ Hi]]%lookup_insert_Some; [apply unuse_loc|by apply (i_loc _ _ _ I)].
  - intros z iz iv Hz Hp Hv Hkv. assert (exists iv0, m !! prev iz = Some iv0 /\ psame iv0 iv) as (iv0 & Hv0 & Hps) by (apply lookup_insert_Some in Hv as [[<- <-]|[_ Hv]]; [by exists ix|by exists iv]).
    rewrite (split_ok_parent iv0) by done. assert (kind iv0 = Split) as Hks by (destruct Hps; congruence). apply lookup_insert_Some in Hz as [[<- <-]|[_ Hz]]; [apply (inv_edge _ _ _ _ _ _ I Hx); done|by eapply inv_edge].
Qed.
Lemma unuse_drops : drops 0 x m m'.
Proof.
  destruct unuse_links as [Hl' Hkp]. pose proof (i_linked _ _ _ I) as Hl. split.
  - intros r k j d _. split.
    + intros (pj & ij & Hwj & Hj & Huj & Hd). apply lookup_insert_Some in Hj as [[<- <-]|[Hjx Hj]]; [done|]. split; [|done]. destruct (lk_reach _ _ Hl _ _ Hj) as (r0 & p0 & k0 & Hw0). destruct (Hkp _ _ _ _ Hw0 Logic.I) as (p2 & Hw2).
      destruct (walk_unique _ _ Hl' _ _ _ _ _ _ _ Hwj Hw2) as (-> & _ & ->). by exists p0, ij.
    + intros [(pj & ij & Hwj & Hj & Huj & Hd) Hjx]. destruct (Hkp _ _ _ _ Hwj Logic.I) as (p2 & Hw2). exists p2, ij. by rewrite lookup_insert_ne.
  - intros r _. unfold root. setoid_rewrite lookup_insert_Some. split.
    + intros (it & [[<- <-]|[_ Hr]] & Hp); eauto.
    + intros (it & Hr & Hp). destruct (decide (x = r)) as [<-|]; [|eauto]. exists ix'. split; [by left|]. simpl. congruence.
  - intros r q k _ Hq. by eapply Hkp.
Qed.
End unuse.

(** ** The items that only lead to a terminal item *)
Inductive tail m : Z -> Z -> list Z -> Prop :=
| tail_end i it : m !! i = Some it -> kind it = Terminal -> tail m i i [i]
| tail_step n n' i it l : m !! n = Some it -> kind it = Prefix -> used it = false -> U m n' = Some (n, true) -> tail m n' i l -> tail m n i (n :: l).

Lemma tail_next m n i l : tail m n i l -> n ∈ l /\ i ∈ l /\ forall z, z ∈ l -> is_Some (m !! z).
Proof. induction 1 as [i it Hi|n n' i it l Hn _ _ _ _ (IH1 & IH2 & IH3)]; [|split_and!; [left|by right|]]; set_solver. Qed.
Lemma tail_child h m n i l : linked h m -> tail m n i l -> forall x b z, x ∈ l -> E m x b = Some z -> z <> 0 -> z ∈ l.
Proof.
  intros Hl. induction 1 as [i it Hi Hk|n n' i it l Hn Hk Hu Hu' Ht IH]; intros x b z Hx He Hz.
  - apply list_elem_of_singleton in Hx as ->. rewrite (E_lookup _ _ _ _ Hi) in He. unfold lnk in He. by rewrite Hk in He.
  - apply elem_of_cons in Hx as [->|Hx]; [|right; by eapply IH]. destruct (lnk_prefix _ Hk) as [Hlt Hlf]. rewrite (E_lookup _ _ _ _ Hn) in He. destruct b; [|congruence].
    assert (E m n true = Some n') as He' by (apply (lk_up _ _ Hl); [done|by eapply lk_nz]). rewrite (E_lookup _ _ _ _ Hn) in He'. assert (z = n') as -> by congruence. right. by apply (tail_next _ _ _ _ Ht).
Qed.
Lemma walk_start m r z p k : walk m r z p k -> r ∈ p.
Proof. induction 1; set_solver. Qed.
Lemma walk_parent h m r z p k n n' b : linked h m -> walk m r z p k -> n' ∈ p -> U m n' = Some (n, b) -> n <> 0 -> n ∈ p.
Proof.
  intros Hl Hw Hin Hu Hn. induction Hw as [it Hr Hp|x c y it p k Hw IH He Hy].
  - apply list_elem_of_singleton in Hin as ->. rewrite (U_lookup _ _ _ Hr) in Hu. unfold bk in Hu. congruence.
  - apply elem_of_app in Hin as [Hin|Hin%list_elem_of_singleton]; [set_solver|]. subst n'. assert (n = x) as ->; [|destruct (walk_in _ _ _ _ _ Hw) as (_ & q & ->); set_solver].
    apply (lk_down _ _ Hl) in He; [congruence|by eapply lk_nz].
Qed.
Lemma tail_under h m n i l r z p k : linked h m -> tail m n i l -> walk m r z p k -> n ∈ p <-> z ∈ l.
Proof.
  intros Hl Ht Hw. split.
  - destruct (tail_next _ _ _ _ Ht) as (Hn & _ & _). induction Hw as [it Hr Hp|x b y it p k Hw IH He Hy]; [by intros ->%list_elem_of_singleton|]. intros [Hin|Hin%list_elem_of_singleton]%elem_of_app; [|by subst].
    eapply tail_child; [done|done|by apply IH|exact He|by eapply lk_nz].
  - assert (z ∈ p) as Hz by (destruct (walk_in _ _ _ _ _ Hw) as (_ & q & ->); set_solver). induction Ht as [i it Hi Hk|n n' i it l Hn Hk Hu Hu' Ht IH]; [by intros ->%list_elem_of_singleton|].
    intros [->|Hin]%elem_of_cons; [done|]. eapply walk_parent; [done..|by apply IH|done|by eapply lk_nz].
Qed.
Lemma tail_used m n i l z iz : tail m n i l -> z ∈ l -> m !! z = Some iz -> used iz = true -> z = i.
Proof.
  induction 1 as [i it Hi Hk|n n' i it l Hn Hk Hu Hu' Ht IH]; intros Hz Hiz Huz; [by apply list_elem_of_singleton in Hz|]. apply elem_of_cons in Hz as [->|Hz]; [congruence|auto].
Qed.

Lemma tail_nodup h m n i l : linked h m -> tail m n i l -> NoDup l.
Proof.
  intros Hl. induction 1 as [i it Hi Hk|n n' i it l Hn Hk Hu Hu' Ht IH]; [apply NoDup_singleton|]. apply NoDup_cons. split; [|done]. intros Hin. destruct (lk_reach _ _ Hl _ _ Hn) as (r & p & k & Hw).
  assert (E m n true = Some n') as He by (apply (lk_up _ _ Hl); [done|by eapply lk_nz]). apply U_some in Hu' as (it' & Hn' & _). pose proof (walk_nodup _ _ Hl _ _ _ _ (walk_step _ _ _ _ _ _ _ _ Hw He Hn')) as Hnd.
  apply (tail_under _ _ _ _ _ _ _ _ _ Hl Ht Hw) in Hin. apply NoDup_app in Hnd as (_ & Hnd & _). apply (Hnd _ Hin). by left.
Qed.
(** The first item may be detached. *)
Lemma tail_tl m m' n i l : (forall z iz, z ∈ l -> m !! z = Some iz -> exists iz', m' !! z = Some iz' /\ attrs iz' = attrs iz /\ (z ∈ List.tl l -> bk iz' = bk iz)) -> tail m n i l -> tail m' n i l.
Proof.
  intros Hk Ht. revert Hk. induction Ht as [i it Hi Hki|n n' i it l Hn Hkn Hu Hu' Ht IH]; intros Hk.
  - destruct (Hk i it ltac:(by left) Hi) as (it' & Hi' & (Hk' & _)%attrs_eq & _). eapply tail_end; [exact Hi'|congruence].
  - destruct (Hk n it ltac:(by left) Hn) as (it' & Hn' & (Hk' & Hu2 & _)%attrs_eq & _). destruct (tail_next _ _ _ _ Ht) as (Hin & _ & _). apply U_some in Hu' as (it2 & Hi2 & Hp2 & He2). destruct (Hk n' it2 ltac:(by right) Hi2) as (it2' & Hi2' & _ & Hb2).
    eapply tail_step; [exact Hn'|congruence|congruence| |apply IH].
    + rewrite (U_lookup _ _ _ Hi2'), Hb2 by done. unfold bk. congruence.
    + intros z iz Hz Hiz. destruct (Hk z iz ltac:(by right) Hiz) as (iz' & ? & ? & Hb). exists iz'. split_and!; try done. intros Hz'. by apply Hb.
Qed.
Lemma tail_kept m m' n i l : NoDup l -> (forall z iz, z ∈ l -> m !! z = Some iz -> exists iz', m' !! z = Some iz' /\ attrs iz' = attrs iz /\ (z <> n -> bk iz' = bk iz)) -> tail m n i l -> tail m' n i l.
Proof.
  intros Hnd Hk Ht. eapply tail_tl; [|exact Ht]. intros z iz Hz Hiz. destruct (Hk z iz Hz Hiz) as (iz' & ? & ? & Hb). exists iz'. split_and!; try done. intros Hz'. apply Hb. intros ->.
  destruct Ht as [|? ? ? ? ? _ _ _ _ Ht]; [set_solver|]. apply NoDup_cons in Hnd as [Hnd _]. done.
Qed.
Lemma pop_back_spec fuel i r z iz l p key s m n k F : st s m n k F -> inv None 0 m -> tail m z i l -> m !! z = Some iz -> prev iz <> 0 -> walk m r z p key -> (length p <= fuel)%nat ->
  runs (pop_back fuel z s) (fun q => exists ix iy l', tail m q.2 i l' /\ m !! q.2 = Some iy /\ prev iy = q.1 /\ q.1 <> 0 /\ m !! q.1 = Some ix /\ stays ix).
Proof.
  intros Hst I. revert z iz l p key. induction fuel as [|fuel IH]; intros z iz l p key Ht Hz Hp Hw Hlen; [apply walk_in in Hw as (_ & q & ->); rewrite length_app in Hlen; simpl in Hlen; lia|].
  cbn [pop_back]. rat. destruct (inv_parent _ _ _ I _ _ Hz Hp) as (ix & Hx & Ex). rat. destruct (walk_pred _ _ _ _ _ _ _ _ I Hw Hz Hp) as (q & key0 & -> & Hq & _). rewrite length_app in Hlen. simpl in Hlen.
  destruct (decide (stays ix)) as [Hs|Hs].
  - replace (bool_decide (kind ix = Prefix) && negb (used ix) && negb (prev ix =? 0))%bool with false; [apply runs_ret; simpl; by exists ix, iz, l|]. unfold stays in Hs.
    destruct (bool_decide_reflect (kind ix = Prefix)), (used ix), (Z.eqb_spec (prev ix) 0); try done. tauto.
  - unfold stays in Hs. destruct (decide (kind ix = Prefix)) as [Hk|]; [|tauto]. destruct (used ix) eqn:Hu; [tauto|]. destruct (Z.eqb_spec (prev ix) 0) as [|Hp']; [tauto|]. rewrite bool_decide_true by done. cbn [negb andb].
    eapply (IH _ ix (prev iz :: l)); [|done|done|exact Hq|lia]. eapply tail_step; [done..| |exact Ht]. rewrite (U_lookup _ _ _ Hz). unfold bk. destruct (prev_is_eq iz) eqn:He; [done|].
    rewrite (E_lookup _ _ _ _ Hx) in Ex. destruct (lnk_prefix _ Hk). congruence.
Qed.

(** ** The branch is detached *)
Section detach.
Context m (x n i : Z) ix iy (l : list Z) (I : inv None 0 m) (Hx : m !! x = Some ix) (Hn : m !! n = Some iy) (Hp : prev iy = x) (Hx0 : x <> 0) (Ht : tail m n i l).
Abbreviation b := (prev_is_eq iy).
Abbreviation m1 := (<[n := set_prev 0 true iy]> (<[x := set_nxt b 0 ix]> m)).
Lemma detach_ne : x <> n /\ lnk ix b = Some n /\ n <> 0.
Proof.
  destruct (inv_parent _ _ _ I _ _ Hn) as (ix' & Hx' & He); [by rewrite Hp|]. rewrite Hp in *. rewrite Hx in Hx'. injection Hx' as <-. split_and!; [|by rewrite <- (E_lookup _ _ _ _ Hx)|by eapply inv_nz].
  eapply E_irrefl; [apply I|exact He|by eapply inv_nz].
Qed.
Lemma detach_linked : linked (Some (x, b)) m1 /\ forall r z p k, walk m r z p k -> if decide (n ∈ p) then exists p' k', walk m1 n z p' k' else walk m1 r z p k.
Proof.
  destruct detach_ne as (Hxn & Hlk & Hn0). assert (U m n = Some (x, b)) as Hun by (rewrite (U_lookup _ _ _ Hn); unfold bk; by rewrite Hp).
  assert (forall z c, E m1 z c = if decide (z = x /\ c = b) then Some 0 else E m z c) as HE.
  { intros z c. rewrite !E_insert. destruct (decide (n = z)) as [<-|]; [rewrite decide_False by (intros [? ?]; congruence); by rewrite (E_lookup _ _ _ _ Hn)|]. destruct (decide (x = z)) as [<-|]; [|by rewrite decide_False by (intros [? ?]; congruence)].
    rewrite (E_lookup _ _ _ _ Hx). destruct (decide (c = b)) as [->|Hc]; [rewrite decide_True by done; by eapply lnk_set_nxt|]. rewrite decide_False by (intros [? ?]; congruence). assert (c = negb b) as -> by (by destruct c, b). apply lnk_set_other. }
  assert (forall z, U m1 z = if decide (z = n) then Some (0, true) else U m z) as HU.
  { intros z. rewrite !U_insert. destruct (decide (n = z)) as [<-|]; [by rewrite decide_True|]. rewrite (decide_False (P := z = n)) by done. destruct (decide (x = z)) as [<-|]; [|done]. by rewrite (U_lookup _ _ _ Hx). }
  assert (forall z iz, m !! z = Some iz -> exists iz', m1 !! z = Some iz' /\ chunk iz' = chunk iz) as Hc.
  { intros z iz Hz. rewrite !lookup_insert. repeat case_decide; simplify_eq; eauto. }
  split; [eapply linked_cut; try done; apply I|]. intros r z p k Hw. eapply walk_cut; try done. apply I.
Qed.
Lemma detach_lookup z iz' : m1 !! z = Some iz' -> exists iz, m !! z = Some iz /\ attrs iz' = attrs iz /\ psame iz iz' /\ (z <> n -> bk iz' = bk iz) /\ chunk iz' = chunk iz /\ chunk_sz iz' = chunk_sz iz /\ (forall r, loc r iz -> loc r iz').
Proof.
  rewrite !lookup_insert. repeat case_decide; simplify_eq; intros Heq.
  - injection Heq as <-. exists iy. split_and!; try done. intros r. apply loc_set_prev.
  - injection Heq as <-. exists ix. split_and!; try done. intros r. apply loc_set_nxt.
  - exists iz'. done.
Qed.
Lemma detach_inv : inv (Some (x, b)) n m1.
Proof.
  destruct detach_ne as (Hxn & Hlk & Hn0). apply inv_intro; [apply detach_linked|..].
  - intros z iz' Hz. destruct (detach_lookup _ _ Hz) as (iz & Hz0 & _ & _ & Hb & _ & _ & Hl). apply Hl. destruct (decide (z = n)) as [->|Hzn].
    + unfold is_root. rewrite bool_decide_false by tauto. eapply inv_nonroot; [exact I|exact Hz0|]. simplify_eq. congruence.
    + assert (is_root n z iz' = is_root 0 z iz) as ->; [|by apply (i_loc _ _ _ I)]. specialize (Hb Hzn). unfold bk in Hb. unfold is_root. apply bool_decide_ext. assert (z <> 0) by (by eapply inv_nz). injection Hb as -> _. tauto.
  - intros z iz' iv Hz Hpz Hv Hkv. destruct (detach_lookup _ _ Hv) as (iv0 & Hv0 & _ & Hpv & _). rewrite (split_ok_parent iv0) by done. destruct (decide (z = n)) as [->|Hzn]; [rewrite lookup_insert_eq in Hz; injection Hz as <-; done|].
    destruct (detach_lookup _ _ Hz) as (iz & Hz0 & _ & (P1 & P2 & P3) & Hb & C1 & C2 & _). specialize (Hb Hzn). unfold bk in Hb. injection Hb as Hb1 Hb2. rewrite Hb1 in *. rewrite Hb2.
    replace (split_ok iv0 (prev_is_eq iz) iz') with (split_ok iv0 (prev_is_eq iz) iz) by (unfold split_ok, first_char; by rewrite P1, P2, P3, C1, C2). eapply inv_edge; [exact I|done..|]. destruct Hpv; congruence.
  - intros _. exists (set_prev 0 true iy). by rewrite lookup_insert_eq.
Qed.
Lemma detach_tail : tail m1 n i l.
Proof.
  eapply tail_kept; [eapply tail_nodup; [apply I|exact Ht]| |exact Ht]. intros z iz Hz Hiz. assert (is_Some (m1 !! z)) as [iz' Hz'] by (rewrite !lookup_insert; repeat case_decide; eauto).
  destruct (detach_lookup _ _ Hz') as (iz0 & Hz0 & Ha & _ & Hb & _). rewrite Hiz in Hz0. injection Hz0 as <-. by exists iz'.
Qed.
Lemma detach_drops : drops n i m m1.
Proof.
  destruct detach_linked as [Hl1 Hcut]. pose proof (i_linked _ _ _ I) as Hl. split.
  - intros r k j d Hr. split.
    + intros (p & ij & Hw & Hj & Hu & Hd). destruct (detach_lookup _ _ Hj) as (ij0 & Hj0 & (_ & Hu0 & _ & _ & Hd0)%attrs_eq & _). destruct (lk_reach _ _ Hl _ _ Hj0) as (r0 & p0 & k0 & Hw0). pose proof (Hcut _ _ _ _ Hw0) as Hc. case_decide as Hin.
      * destruct Hc as (p' & k' & Hc). by destruct (walk_unique _ _ Hl1 _ _ _ _ _ _ _ Hw Hc).
      * destruct (walk_unique _ _ Hl1 _ _ _ _ _ _ _ Hw Hc) as (-> & -> & ->). split; [exists p0, ij0; split_and!; congruence|]. intros ->. apply Hin. apply (tail_under _ _ _ _ _ _ _ _ _ Hl Ht Hw0). by apply (tail_next _ _ _ _ Ht).
    + intros [(p & ij & Hw & Hj & Hu & Hd) Hji]. pose proof (Hcut _ _ _ _ Hw) as Hc. case_decide as Hin; [exfalso; apply Hji; eapply tail_used; [exact Ht|by apply (tail_under _ _ _ _ _ _ _ _ _ Hl Ht Hw)|done|done]|].
      assert (is_Some (m1 !! j)) as [ij' Hj'] by (rewrite !lookup_insert; repeat case_decide; eauto). destruct (detach_lookup _ _ Hj') as (ij0 & Hj0 & (_ & Hu0 & _ & _ & Hd0)%attrs_eq & _). simplify_eq. exists p, ij'. split_and!; congruence.
  - intros r Hr. split.
    + intros (it & Hit & Hpr). destruct (detach_lookup _ _ Hit) as (it0 & Hit0 & _ & _ & Hb & _). exists it0. split; [done|]. specialize (Hb Hr). unfold bk in Hb. congruence.
    + intros (it & Hit & Hpr). assert (is_Some (m1 !! r)) as [it' Hit'] by (rewrite !lookup_insert; repeat case_decide; eauto). exists it'. split; [done|]. destruct (detach_lookup _ _ Hit') as (it0 & Hit0 & _ & _ & Hb & _). specialize (Hb Hr). unfold bk in Hb. congruence.
  - intros r p k Hr Hw. destruct (walk_self _ _ _ _ _ Hl Hw) as (it & _ & _ & -> & _). pose proof (Hcut _ _ _ _ Hw) as Hc. rewrite decide_False in Hc by (by intros ?%list_elem_of_singleton). eauto.
Qed.
Lemma detach_walk r p key : walk m r x p key -> walk m1 r x p key /\ r <> n.
Proof.
  destruct detach_ne as (Hxn & Hlk & Hn0). intros Hw. destruct detach_linked as [Hl1 Hcut]. pose proof (Hcut _ _ _ _ Hw) as Hc. assert (n ∉ p) as Hnp.
  { assert (E m x b = Some n) as He by (by rewrite (E_lookup _ _ _ _ Hx)). pose proof (walk_nodup _ _ (i_linked _ _ _ I) _ _ _ _ (walk_step _ _ _ _ _ _ _ _ Hw He Hn)) as Hnd. apply NoDup_app in Hnd as (_ & Hnd & _). intros Hin. apply (Hnd _ Hin). by left. }
  rewrite decide_False in Hc by done. split; [done|]. intros ->. apply Hnp. by eapply walk_start.
Qed.
End detach.

(** ** The item that led to the branch leads nowhere else, or only elsewhere *)
Section close_prefix.
Context m (n x : Z) ix (I : inv (Some (x, true)) n m) (Hx : m !! x = Some ix) (Hk : kind ix = Prefix) (Hs : used ix = true \/ prev ix = 0) (Hn : x <> n).
Abbreviation ix' := (set_kind Terminal ix).
Abbreviation m' := (<[x := ix']> m).
Lemma close_prefix_linked : linked None m' /\ forall r y p k, walk m r y p k -> walk m' r y p k.
Proof.
  destruct (lnk_prefix _ Hk) as [_ Hf]. eapply close_hole; [apply I|..].
  - intros z c. rewrite E_insert. destruct (decide (x = z)) as [<-|]; [|by rewrite decide_False by (intros [? ?]; congruence)]. rewrite (E_lookup _ _ _ _ Hx). destruct c; [by rewrite decide_True|]. rewrite decide_False by (by intros [? ?]). by rewrite Hf.
  - intros z. rewrite U_insert. destruct (decide (x = z)) as [<-|]; [by rewrite (U_lookup _ _ _ Hx)|done].
  - intros z iz Hz. rewrite lookup_insert. case_decide; simplify_eq; eauto.
Qed.
Lemma close_prefix_inv : inv None n m'.
Proof.
  apply inv_intro; [apply close_prefix_linked|..].
  - intros i it [[<- <-]|[_ Hi]]%lookup_insert_Some; [|by apply (i_loc _ _ _ I)]. change (is_root n x ix') with (is_root n x ix). pose proof (i_loc _ _ _ I _ _ Hx) as [L1 L2 L3 L4 L5 L6 L7]. pose proof (lo_down _ _ L1). rewrite Hk in *.
    split; simpl; try done; [lia|]. intros Hr. destruct (L7 Hr) as [_ L8]. split; [|intros _; apply L8; by left]. intros _. destruct Hs as [|Hp]; [done|]. unfold is_root in Hr. apply bool_decide_eq_false in Hr. tauto.
  - intros z iz iv Hz Hp Hv Hkv. apply lookup_insert_Some in Hv as [[Hv <-]|[_ Hv]]; [done|]. apply lookup_insert_Some in Hz as [[<- <-]|[_ Hz]]; [|by eapply inv_edge]. simpl in *. pose proof (inv_edge _ _ _ _ _ _ I Hx Hp Hv Hkv) as He.
    unfold split_ok, first_char in *. by rewrite Hk in He.
  - intros Hb. destruct (i_br _ _ _ I Hb) as (it & Hit & Hp). rewrite lookup_insert_ne by done. eauto.
Qed.
Lemma close_prefix_same : same m m'.
Proof.
  destruct close_prefix_linked as [Hl' Hw]. eapply keep_all_same; [apply I|exact Hl'|intros r y p k Hy _; eauto|..].
  - intros z iz Hz. rewrite lookup_insert. case_decide; simplify_eq; eauto 10.
  - intros z iz'. rewrite lookup_insert. case_decide; simplify_eq; eauto.
Qed.
End close_prefix.

Section close_split.
Context m (n x y : Z) (b : bool) ix iy (I : inv (Some (x, b)) n m) (Hx : m !! x = Some ix) (Hk : kind ix = Split) (Hn : x <> n) (Hxy : E m x (negb b) = Some y) (Hy : m !! y = Some iy).
Abbreviation ix' := (set_kind Prefix (set_nxt true y ix)).
Abbreviation m' := (<[x := ix']> (<[y := set_prev x true iy]> m)).
Lemma close_split_ne : x <> y /\ prev iy = x /\ prev_is_eq iy = negb b /\ loc false iy /\ x <> 0 /\ y <> n.
Proof.
  destruct (inv_child _ _ _ I _ _ _ _ Hxy Hy) as (H1 & H2 & H3 & H4). split_and!; try done.
  - eapply E_irrefl; [apply I|exact Hxy|by eapply inv_nz].
  - intros ->. destruct (i_br _ _ _ I) as (it & Hit & Hp); [by eapply inv_nz|]. congruence.
Qed.
Lemma close_split_linked : linked None m' /\ forall r z p k, walk m r z p k -> walk m' r z p k.
Proof.
  destruct close_split_ne as (N1 & Hp & He & _ & N2 & _). pose proof (i_linked _ _ _ I) as Hl.
  assert (forall z c, E m' z c = if decide (z = x) then (if (c : bool) then Some y else None) else E m z c) as HE.
  { intros z c. rewrite !E_insert. destruct (decide (x = z)) as [<-|]; [rewrite decide_True by done; by destruct c|]. rewrite (decide_False (P := z = x)) by done. destruct (decide (y = z)) as [<-|]; [|done]. by rewrite (E_lookup _ _ _ _ Hy). }
  assert (forall z, U m' z = if decide (z = y) then Some (x, true) else U m z) as HU.
  { intros z. rewrite !U_insert. destruct (decide (x = z)) as [<-|]; [rewrite decide_False by done; by rewrite (U_lookup _ _ _ Hx)|]. destruct (decide (y = z)) as [<-|]; [by rewrite decide_True|]. by rewrite decide_False. }
  assert (forall z iz, m !! z = Some iz -> exists iz', m' !! z = Some iz' /\ chunk iz' = chunk iz) as Hc by (intros z iz Hz; rewrite !lookup_insert; repeat case_decide; simplify_eq; eauto).
  destruct b; simpl in *; [by eapply close_hole_eq|]. eapply close_hole; [exact Hl| | |done].
  - intros z c. rewrite HE. destruct (decide (z = x)) as [->|]; [|by rewrite decide_False by (intros [? ?]; congruence)]. destruct c; [rewrite decide_False by (by intros [? ?]); done|by rewrite decide_True].
  - intros z. rewrite HU. destruct (decide (z = y)) as [->|]; [|done]. rewrite (U_lookup _ _ _ Hy). unfold bk. congruence.
Qed.
Lemma close_split_lookup z iz' : m' !! z = Some iz' -> z = x /\ iz' = ix' \/ z <> x /\ exists iz, m !! z = Some iz /\ iz' = if decide (z = y) then set_prev x true iy else iz.
Proof. rewrite !lookup_insert. repeat case_decide; simplify_eq; intros ?; simplify_eq; eauto 10. Qed.
Lemma close_split_loc r : loc r ix -> (r = false -> (0 < chunk_sz ix)%nat) -> loc r ix'.
Proof.
  intros [L1 L2 L3 L4 L5 L6 L7] Hc. pose proof (lo_down _ _ L1). rewrite Hk in *. split; simpl; try done; [lia|]. intros Hr. split; [done|auto].
Qed.
Lemma close_split_inv : (prev ix <> 0 -> (0 < chunk_sz ix)%nat) -> inv None n m'.
Proof.
  intros Hc. destruct close_split_ne as (N1 & Hp & He & Hly & N2 & N3). apply inv_intro; [apply close_split_linked|..].
  - intros i it [[-> ->]|(Hix & iz & Hi & ->)]%close_split_lookup.
    + change (is_root n x ix') with (is_root n x ix). apply close_split_loc; [by apply (i_loc _ _ _ I)|]. unfold is_root. intros Hr%bool_decide_eq_false. apply Hc. tauto.
    + case_decide as Hiy; [rewrite is_root_set by done; by apply loc_set_prev|by apply (i_loc _ _ _ I)].
  - intros z iz iv Hz Hpz Hv Hkv. apply close_split_lookup in Hv as [[_ ->]|(Hvx & iv0 & Hv0 & ->)]; [done|]. assert (psame iv0 (if decide (prev iz = y) then set_prev x true iy else iv0)) as Hps by (case_decide as Hd; [rewrite Hd, Hy in Hv0; by injection Hv0 as <-|done]).
    rewrite (split_ok_parent iv0) by done. assert (kind iv0 = Split) as Hks by (destruct Hps; congruence). apply close_split_lookup in Hz as [[-> ->]|(Hzx & iz0 & Hz0 & ->)].
    + simpl in *. destruct (nonempty_head _ ix (inv_nonroot _ _ _ I _ _ Hx Hpz) (Hc Hpz)) as (c & l & Hcl). eapply (split_ok_head iv0 _ ix _ c l l); [by eapply inv_nonroot|apply close_split_loc; [by eapply inv_nonroot|auto]|done|done|by eapply inv_edge].
    + case_decide as Hzy; [done|]. by eapply inv_edge.
  - intros Hb. destruct (i_br _ _ _ I Hb) as (it & Hit & Hpr). rewrite !lookup_insert_ne by congruence. eauto.
Qed.
Lemma close_split_same : same m m'.
Proof.
  destruct close_split_linked as [Hl' Hw]. destruct close_split_ne as (N1 & Hp & _ & _ & N2 & _). eapply keep_all_same; [apply I|exact Hl'|intros r z p k Hz _; eauto|..].
  - intros z iz Hz. rewrite !lookup_insert. repeat case_decide; simplify_eq; eexists; split_and!; try done; simpl; congruence.
  - intros z iz' [[-> ->]|(_ & iz & Hz & _)]%close_split_lookup; eauto.
Qed.

(** An item with no character of its own is removed. *)
Context (Hc : chunk_sz ix = 0%nat) (Hu : used ix = false) (Hp : prev ix <> 0) (iw : item) (Hw : m !! prev ix = Some iw).
Abbreviation w := (prev ix).
Abbreviation e := (prev_is_eq ix).
Abbreviation m3 := (merged m' x y ix' iw (set_prev x true iy)).
Lemma prepend_empty (from it : item) : chunk_sz from = 0%nat -> prepend_from from 0 it = it.
Proof.
  intros Hf. unfold prepend_from. rewrite Hf, Nat.sub_diag, Nat.add_0_r. unfold chunk. rewrite Hf. simpl. change (reverse (drop 0 (reverse []))) with (@nil Z). simpl. rewrite take_drop. by destruct it.
Qed.
Lemma drop_split_ne : w <> x /\ w <> y /\ E m w e = Some x.
Proof.
  destruct close_split_ne as (N1 & Hpy & He & _ & N2 & _). destruct (inv_parent _ _ _ I _ _ Hx Hp) as (iw' & Hw' & Ewx). split_and!; [|eapply E_asym; [apply I|exact Ewx|done|exact Hxy|by eapply inv_nz]|done]. eapply E_irrefl; [apply I|exact Ewx|done].
Qed.
Lemma drop_split_linked : linked None m3 /\ keep (fun z => z <> x) m' m3.
Proof.
  destruct close_split_ne as (N1 & Hpy & He & _ & N2 & _). destruct drop_split_ne as (N3 & N4 & Ewx). destruct close_split_linked as [Hl' _].
  assert (m' !! x = Some ix') as Hx' by apply lookup_insert_eq. assert (m' !! y = Some (set_prev x true iy)) as Hy' by (rewrite lookup_insert_ne, lookup_insert_eq; done). assert (m' !! w = Some iw) as Hw' by (rewrite !lookup_insert_ne; done).
  assert (lnk iw e = Some x) as Hlw by (by rewrite <- (E_lookup _ _ _ _ Hw)). assert (E m' w e = Some x) as E1 by (by rewrite (E_lookup _ _ _ _ Hw')). assert (E m' x true = Some y) as E2 by (by rewrite (E_lookup _ _ _ _ Hx')). assert (E m' x false = None) as E3 by (by rewrite (E_lookup _ _ _ _ Hx')).
  unfold merged. simpl. rewrite prepend_empty by done. assert (chunk ix' = []) as Hnil by (unfold chunk; simpl; by rewrite Hc).
  split; [eapply linked_del|eapply keep_del]; try done; first [by eapply lnk_set_nxt | apply lnk_set_other | (simpl; by rewrite Hnil)].
Qed.
Lemma drop_split_lookup z iz' : m3 !! z = Some iz' -> z <> x /\ exists iz, m !! z = Some iz /\ iz' = if decide (z = y) then set_prev w e iy else if decide (z = w) then set_nxt e y iw else iz.
Proof.
  destruct drop_split_ne as (N3 & N4 & _). destruct close_split_ne as (N1 & _). unfold merged. simpl. rewrite prepend_empty by done. rewrite lookup_delete, !lookup_insert.
  repeat case_decide; simplify_eq; intros ?; simplify_eq; eauto 10.
Qed.
Lemma drop_split_child b' : kind iw = Split -> split_ok iw b' ix = true -> split_ok ix (negb b) iy = true -> split_ok iw b' iy = true.
Proof.
  destruct close_split_ne as (_ & _ & _ & Hly & _). pose proof (inv_nonroot _ _ _ I _ _ Hx Hp) as Hlx. intros Hkw. assert (empty_split ix = true) as Hes by (unfold empty_split; by rewrite bool_decide_true, Hc).
  rewrite !split_ok_fit. rewrite (first_char_empty _ Hes). intros [H1 H2] [H3 H4]. specialize (H1 Hes). destruct (l_split _ _ (i_loc _ _ _ I _ _ Hw) Hkw), (l_split _ _ Hlx Hk). split; [intros He; specialize (H3 He); lia|].
  eapply (fit_through iw ix); try done. by eapply first_char_in.
Qed.
Lemma drop_split_inv : inv None n m3.
Proof.
  destruct close_split_ne as (N1 & Hpy & He & Hly & N2 & N5). destruct drop_split_ne as (N3 & N4 & Ewx). apply inv_intro; [apply drop_split_linked|..].
  - intros i it (Hix & iz & Hi & ->)%drop_split_lookup. case_decide as D1; [rewrite is_root_set by done; by apply loc_set_prev|]. case_decide as D2; [|by apply (i_loc _ _ _ I)]. subst i. apply loc_set_nxt. apply (i_loc _ _ _ I _ _ Hw).
  - intros z iz iv Hz Hpz Hv Hkv. apply drop_split_lookup in Hv as (Hvx & iv0 & Hv0 & Hv1). assert (psame iv0 iv) as Hps by (rewrite Hv1; case_decide as Dv; [rewrite Dv, Hy in Hv0; by injection Hv0 as <-|case_decide as Dw; [rewrite Dw, Hw in Hv0; by injection Hv0 as <-|done]]).
    rewrite (split_ok_parent iv0) by done. assert (kind iv0 = Split) as Hks by (destruct Hps; congruence). apply drop_split_lookup in Hz as (Hzx & iz0 & Hz0 & ->). destruct (decide (z = y)) as [->|Hzy].
    + simpl in *. rewrite Hw in Hv0. injection Hv0 as <-. change (split_ok iw e iy = true). apply drop_split_child; [done|by eapply inv_edge|]. rewrite <- He. eapply inv_edge; [exact I|done|congruence|by rewrite Hpy|done].
    + destruct (decide (z = w)) as [->|Hzw]; [|by eapply inv_edge]. rewrite Hw in Hz0. injection Hz0 as <-. simpl in *. apply (inv_edge _ _ _ _ _ _ I Hw); done.
  - intros Hb. destruct (i_br _ _ _ I Hb) as (it & Hit & Hpr). unfold merged. simpl. rewrite lookup_delete_ne by congruence. destruct (decide (w = n)) as [<-|]; [rewrite lookup_insert_eq; exists (set_nxt e y iw); split; [done|]; simpl; congruence|].
    rewrite !lookup_insert_ne by congruence. eauto.
Qed.
Lemma drop_split_same : same m m3.
Proof.
  destruct close_split_ne as (N1 & Hpy & He & Hly & N2 & N5). destruct drop_split_ne as (N3 & N4 & Ewx). destruct drop_split_linked as [Hl3 Hkp]. eapply same_trans; [apply close_split_same|]. eapply ev_same; [apply close_split_linked|exact Hl3|]. 
  assert (forall z, stay [] m' z -> z <> x) as Hne. { intros z [?|(it & Hz & Hs)] ->; [set_solver|]. rewrite lookup_insert_eq in Hz. injection Hz as <-. unfold stays in Hs. simpl in Hs. rewrite Hu in Hs. naive_solver. }
  split.
  - eapply keep_weaken; [exact Hne|exact Hkp].
  - intros z iz Hz Hs%Hne. unfold merged. simpl. rewrite prepend_empty by done. rewrite lookup_delete_ne by done. rewrite lookup_insert_ne in Hz by done. rewrite !lookup_insert in *. repeat case_decide; simplify_eq; eexists; split_and!; try done; simpl; congruence.
  - intros z iz'. unfold merged. simpl. rewrite prepend_empty by done. rewrite lookup_delete, !lookup_insert. repeat case_decide; simplify_eq; intros Hz _; simplify_eq; eexists; split_and!; try done; simpl; congruence.
Qed.
End close_split.

(** ** Making the tree compact again

    [aside]: the items [l], if any, are those of a detached branch whose head is [br]. *)
Definition aside (br i : Z) (l : list Z) (r : Z) m : Prop := l = [] \/ tail m br i l /\ r <> br /\ br <> 0.
Lemma aside_path h br i l r m z p k u : inv h br m -> aside br i l r m -> walk m r z p k -> u ∈ l -> u ∉ p.
Proof.
  intros I [->|(Ht & Hr & Hb)] Hw Hu Hin; [set_solver|]. pose proof (i_linked _ _ _ I) as Hl. destruct (walk_prefix _ _ _ _ _ _ Hw Hin) as (q & ku & Hwu & _).
  apply (tail_under _ _ _ _ _ _ _ _ _ Hl Ht Hwu) in Hu. destruct (walk_prefix _ _ _ _ _ _ Hwu Hu) as (q' & kn & Hwn & _). destruct (i_br _ _ _ I Hb) as (it & Hit & Hp).
  by destruct (walk_unique _ _ Hl _ _ _ _ _ _ _ Hwn (walk_root _ _ _ Hit Hp)) as (-> & _).
Qed.
Lemma aside_kept h br i l r m m' : inv h br m -> aside br i l r m -> (forall z iz, z ∈ l -> m !! z = Some iz -> exists iz', m' !! z = Some iz' /\ kept iz iz') -> aside br i l r m'.
Proof.
  intros I [->|(Ht & Hr & Hb)] Hk; [by left|]. right. split_and!; try done. eapply tail_tl; [|exact Ht]. intros z iz Hz Hiz. destruct (Hk _ _ Hz Hiz) as (iz' & Hiz' & Ha & _ & _ & Hbk). by exists iz'.
Qed.
Lemma aside_compressed br i l r m m' x y p kx py ky : inv None br m -> aside br i l r m -> compressed None br y p m m' -> walk m r x p kx -> walk m r y py ky -> aside br i l r m'.
Proof.
  intros I Has C Hwx Hwy. eapply aside_kept; [exact I|exact Has|]. intros z iz Hz Hiz. assert (forall u, u ∈ l -> u ∉ p) as Hd by (intros; by eapply aside_path).
  destruct (ev_item _ _ _ (co_ev _ _ _ _ _ _ C l Hd) z iz Hiz ltac:(by left)) as (iz' & Hiz' & _ & _). exists iz'. split; [done|]. destruct (co_frame _ _ _ _ _ _ C _ _ Hiz') as (iz0 & Hiz0 & _ & _ & _ & Hk).
  rewrite Hiz in Hiz0. injection Hiz0 as <-. apply Hk. intros ->. eapply (aside_path None br i l r m y py ky y); try done. apply walk_in in Hwy as (_ & q & ->). set_solver.
Qed.
Lemma compressed_same br m m' y p : inv None br m -> compressed None br y p m m' -> same m m'.
Proof. intros I C. eapply ev_same; [apply I|apply C|]. apply (co_ev _ _ _ _ _ _ C []). set_solver. Qed.

Lemma settle_spec (c1 : bool) (v : Z) br i l x ix r p key s m n k : st s m n k [] -> inv None br m -> m !! x = Some ix -> walk m r x p key -> aside br i l r m -> Z.of_nat n + slack ix + 1 <= 65 -> (n <= 64)%nat ->
  runs ('(s, c2) ← _compress_before true false false x s; '(s, _) ← (if (c1 || c2)%bool then Ret (s, false) else _minimize_sz false x s); Ret (s, v))
    (fun q => q.2 = v /\ exists m' n' F', st q.1 m' n' k F' /\ inv None br m' /\ same m m' /\ aside br i l r m').
Proof.
  intros Hst I Hx Hw Has Hn Hn64. destruct (walk_in _ _ _ _ _ Hw) as (_ & p0 & ->).
  run (eapply (compress_before_spec true false false); [exact Hst|exact I|done|exact Hx|exact Hw|set_solver|simpl; lia]) as [s1 c2] Hq. simpl in Hq. destruct Hq as [[= -> ->]|(-> & m' & n' & Hs1 & C & _)].
  - rewrite orb_false_r. destruct c1; [apply runs_ret; simpl; split; [done|]; exists m, n, []; split_and!; try done; eapply ev_same; [apply I|apply I|apply (ev_refl [])]|].
    run (eapply (minimize_spec false None br x ix); [exact Hst|exact I|exact Hx|set_solver|simpl; lia]) as [s2 c3] (m2 & F2 & z & Hs2 & I2 & Ev2 & _ & Hm2). apply runs_ret. simpl. split; [done|]. exists m2, (n + 0)%nat, F2. split_and!; try done.
    + eapply ev_same; [apply I|apply I2|apply (Ev2 [])].
    + eapply aside_kept; [exact I|exact Has|]. intros u iu Hu Hiu. assert (u <> x). { intros ->. eapply (aside_path None br i l r m x (p0 ++ [x]) key x); try done. set_solver. } exists iu. rewrite Hm2, lookup_insert_ne by done. done.
  - rewrite orb_true_r. apply runs_ret. simpl. split; [done|]. exists m', n', []. split_and!; try done; [apply C|by eapply compressed_same|]. eapply aside_kept; [exact I|exact Has|].
    intros z iz Hz Hiz. assert (forall u, u ∈ l -> u ∉ p0 ++ [x]) as Hd by (intros; by eapply aside_path). assert (forall u, u ∈ l -> u ∉ p0) as Hd0 by set_solver.
    destruct (ev_item _ _ _ (co_ev _ _ _ _ _ _ C l Hd0) z iz Hiz ltac:(by left)) as (iz' & Hiz' & _ & _). exists iz'. split; [done|]. destruct (co_frame _ _ _ _ _ _ C _ _ Hiz') as (iz0 & Hiz0 & _ & _ & _ & Hk).
    rewrite Hiz in Hiz0. injection Hiz0 as <-. apply Hk. intros ->. apply (Hd x Hz). set_solver.
Qed.
Lemma squeeze_spec (b3 : bool) (v : Z) br i l x ix r p key s m n k : st s m n k [] -> inv None br m -> m !! x = Some ix -> walk m r x p key -> aside br i l r m -> (n + Nat.b2n b3 <= 4)%nat ->
  runs ('(s, c1, x) ← _compress_after true false b3 x s; '(s, c2) ← _compress_before true false false x s; '(s, _) ← (if (c1 || c2)%bool then Ret (s, false) else _minimize_sz false x s); Ret (s, v))
    (fun q => q.2 = v /\ exists m' n' F', st q.1 m' n' k F' /\ inv None br m' /\ same m m' /\ aside br i l r m').
Proof.
  intros Hst I Hx Hw Has Hn. assert (forall z iz, m !! z = Some iz -> 0 <= slack iz <= 58) as Hsl by (intros z iz Hz; pose proof (loc_slack _ _ (i_loc _ _ _ I _ _ Hz)); lia).
  run (unfold _compress_after; eapply (compress_after_spec _ true false b3); [exact Hst|exact I|done|exact Hx|exact Hw|set_solver|by eapply st_fuel; [exact Hst|apply I|]|]) as [[s1 c1] y] Hq.
  { intros iy _ Hy. pose proof (Hsl _ _ Hy). destruct b3; simpl in *; lia. }
  simpl in Hq. destruct Hq as [[= -> -> ->]|(-> & -> & Hk & Hu & Hp & m1 & n1 & Hs1 & C & Hb)].
  - eapply settle_spec; try done; [pose proof (Hsl _ _ Hx); destruct b3; simpl in *; lia|destruct b3; simpl in *; lia].
  - destruct (lnk_prefix _ Hk) as [Hlt _]. destruct (next_item _ _ _ _ _ _ _ I Hx Hlt ltac:(done)) as (iy & Hy & Exy & _). pose proof (walk_step _ _ _ _ _ _ _ _ Hw Exy Hy) as Hwy.
    assert (nxt_eq ix ∉ p) as Hyp. { pose proof (walk_nodup _ _ (i_linked _ _ _ I) _ _ _ _ Hwy) as Hnd. apply NoDup_app in Hnd as (_ & Hnd & _). intros Hin. apply (Hnd _ Hin). by left. }
    pose proof (co_ev _ _ _ _ _ _ C [nxt_eq ix] ltac:(set_solver)) as Ev. destruct (ev_item _ _ _ Ev _ _ Hy ltac:(left; set_solver)) as (iy1 & Hy1 & _). destruct (ev_keep _ _ _ Ev _ _ _ _ Hwy ltac:(left; set_solver)) as (p1 & Hw1).
    specialize (Hb _ _ Hy Hy1). pose proof (Hsl _ _ Hy). pose proof (loc_slack _ _ (i_loc _ _ _ (co_inv _ _ _ _ _ _ C) _ _ Hy1)). assert (aside br i l r m1) as Has1 by (by eapply aside_compressed).
    eapply runs_mono; [eapply (settle_spec true v br i l); [exact Hs1|apply C|exact Hy1|exact Hw1|exact Has1|destruct b3; simpl in *; lia|destruct b3; simpl in *; lia]|].
    intros q (Hq2 & m' & n' & F' & H1 & H2 & H3 & H4). split; [done|]. exists m', n', F'. split_and!; try done. eapply same_trans; [by eapply compressed_same|done].
Qed.

(** An item without characters that leads to a single other one disappears. *)
Lemma squeeze_empty_spec (v : Z) br i l x y ix iw iy r p key s m m3 n k : st s m n k [] -> m !! x = Some ix -> mergeable x ix iy m -> m !! prev ix = Some iw -> lnk iw (prev_is_eq ix) = Some x -> loc false iy ->
  prev ix <> x -> x <> nxt_eq ix -> prev ix <> nxt_eq ix -> nxt_eq ix = y -> merged m x y ix iw iy = m3 -> inv None br m3 -> walk m3 r y p key -> aside br i l r m3 -> (n <= 3)%nat ->
  runs ('(s, c1, x) ← _compress_after true false false x s; '(s, c2) ← _compress_before true false false x s; '(s, _) ← (if (c1 || c2)%bool then Ret (s, false) else _minimize_sz false x s); Ret (s, v))
    (fun q => q.2 = v /\ exists m' n' F', st q.1 m' n' k F' /\ inv None br m' /\ same m3 m' /\ aside br i l r m').
Proof.
  intros Hst Hx Hm Hiw Hlw Hly N1 N2 N3 Hny Hm3 I3 Hw3 Has Hn. unfold _compress_after at 1, fuel_of.
  destruct (erase_step (size (items s)) true false false x ix iw iy s m n k [] Hst Hx Hm Hiw Hlw Hly N1 N2 N3 ltac:(set_solver) ltac:(simpl; lia)) as (s3 & Hs3 & ->). rewrite Hny, Hm3 in Hs3. rewrite Hny in *.
  assert (m3 !! y = Some (set_prev (prev ix) (prev_is_eq ix) (prepend_from ix 0 iy))) as Hy3 by (rewrite <- Hm3; unfold merged; mlook). assert (m3 !! prev ix = Some (set_nxt (prev_is_eq ix) y iw)) as Hw by (rewrite <- Hm3; unfold merged; mlook).
  destruct (walk_pred _ _ _ _ _ _ _ _ I3 Hw3 Hy3) as (pw & kw & -> & Hww & Hynw & _); [apply Hm|]. simpl in Hww.
  assert (forall z iz, m3 !! z = Some iz -> 0 <= slack iz <= 58) as Hsl by (intros z iz Hz; pose proof (loc_slack _ _ (i_loc _ _ _ I3 _ _ Hz)); lia).
  assert (length pw <= size (items s))%nat as Hfuel.
  { pose proof (walk_length _ _ (i_linked _ _ _ I3) _ _ _ _ Hww) as Hlen. pose proof (st_size _ _ _ _ _ Hst) as Hsz. assert (size m3 <= size m)%nat; [|lia]. rewrite <- !(size_dom (D := gset Z)). apply subseteq_size. rewrite <- Hm3. unfold merged. rewrite dom_delete, !dom_insert. apply elem_of_dom_2 in Hiw. destruct Hm as (_ & _ & _ & Hy & _). rewrite Hny in Hy. apply elem_of_dom_2 in Hy. set_solver. }
  destruct (compress_after_spec (size (items s)) true false false None br (prev ix) (set_nxt (prev_is_eq ix) y iw) r pw kw s3 m3 (n + Nat.b2n false + Nat.b2n true + Nat.b2n false) k [] Hs3 I3 ltac:(done) Hw Hww ltac:(set_solver) Hfuel) as ([[s4 c4] z4] & -> & Hq).
  { intros iz _ Hz. pose proof (Hsl _ _ Hz). simpl. lia. }
  cbn [mbind outcome_mbind]. simpl in Hq. destruct Hq as [[= -> -> ->]|(_ & _ & Hkw & _ & _ & m4 & n4 & Hs4 & C & Hb)].
  - eapply settle_spec; [exact Hs3|exact I3|exact Hy3|exact Hw3|exact Has|pose proof (Hsl _ _ Hy3); simpl; lia|simpl; lia].
  - assert (prev_is_eq ix = true) as He by (destruct (lnk_prefix iw Hkw); destruct (prev_is_eq ix); congruence). rewrite He in C, Hb. simpl in C, Hb.
    pose proof (co_ev _ _ _ _ _ _ C [y] ltac:(set_solver)) as Ev. destruct (ev_item _ _ _ Ev _ _ Hy3 ltac:(left; set_solver)) as (iy4 & Hy4 & _). destruct (ev_keep _ _ _ Ev _ _ _ _ Hw3 ltac:(left; set_solver)) as (p4 & Hw4).
    specialize (Hb _ _ Hy3 Hy4). pose proof (Hsl _ _ Hy3). pose proof (loc_slack _ _ (i_loc _ _ _ (co_inv _ _ _ _ _ _ C) _ _ Hy4)).
    eapply runs_mono; [eapply (settle_spec true v br i l); [exact Hs4|apply C|exact Hy4|exact Hw4|by eapply aside_compressed|lia|lia]|].
    intros q (Hq2 & m' & n' & F' & H1 & H2 & H3 & H4). split; [done|]. exists m', n', F'. split_and!; try done. eapply same_trans; [by eapply compressed_same|done].
Qed.

Lemma walk_root_ne h br m r x p key n : inv h br m -> walk m r x p key -> r <> n -> n <> 0 -> root m n -> x <> n.
Proof. intros I Hw Hr Hn (it & Hit & Hp) ->. by destruct (walk_unique _ _ (i_linked _ _ _ I) _ _ _ _ _ _ _ Hw (walk_root _ _ _ Hit Hp)) as (-> & _). Qed.

Section prepare.
Context (n i x r : Z) (l : list Z) m ix (b : bool) (p key : list Z) s (k : nat).
Context (I : inv (Some (x, b)) n m) (Hst : st s m 2 k []) (Hx : m !! x = Some ix) (Hw : walk m r x p key) (Has : aside n i l r m) (Hn : x <> n) (Hlk : lnk ix b = Some 0).
Definition compact (v : Z) s x : outcome (file * Z) :=
  '(s, c1, x) ← _compress_after true false false x s; '(s, c2) ← _compress_before true false false x s; '(s, _) ← (if (c1 || c2)%bool then Ret (s, false) else _minimize_sz false x s); Ret (s, v).
Abbreviation post v := (fun q : file * Z => q.2 = v /\ exists m' n' F', st q.1 m' n' k F' /\ inv None n m' /\ same m m' /\ aside n i l r m').

Lemma down_prefix_spec v : kind ix = Prefix -> used ix = true \/ prev ix = 0 -> runs (s ← _mk_down false x s; compact v s x) (post v).
Proof.
  intros Hk Hs. assert (b = true) as Hb by (destruct b; [done|]; destruct (lnk_prefix _ Hk); congruence). rewrite Hb in I, Hlk. unfold _mk_down. cbn [_backup mbind outcome_mbind].
  run (eapply (upd__st _ _ _ _ _ Hst _ _ _ (set_kind Terminal ix) Hx); [|done]) as s1 Hs1.
  { unfold mk_down. rewrite bool_decide_true by done. cbn [swear mbind outcome_mbind]. rewrite (nxt_if_lnk _ _ _ Hlk). cbn [mbind outcome_mbind]. by rewrite Hk. }
  pose proof (close_prefix_inv m n x ix I Hx Hk Hs Hn) as I1. assert (forall r y p k, walk m r y p k -> walk (<[x := set_kind Terminal ix]> m) r y p k) as Hkeep by (by eapply close_prefix_linked).
  eapply runs_mono; [eapply (squeeze_spec false v n i l x); [exact Hs1|exact I1|mlook|apply Hkeep; exact Hw| |simpl; lia]|].
  - eapply aside_kept; [exact I|exact Has|]. intros u iu Hu Hiu. assert (u <> x). { intros ->. eapply (aside_path _ n i l r m x p key x); try done. apply walk_in in Hw as (_ & q & ->). set_solver. } exists iu. by rewrite lookup_insert_ne.
  - intros q (Hq & m' & n' & F' & H1 & H2 & H3 & H4). split; [done|]. exists m', n', F'. split_and!; try done. eapply same_trans; [by eapply close_prefix_same|done].
Qed.
Lemma down_split_run y iy : kind ix = Split -> lnk ix (negb b) = Some y -> m !! y = Some iy -> prev iy = x -> prev_is_eq iy = negb b -> x <> y ->
  runs (_mk_down_split false true x (negb b) s) (fun s' => st s' (<[x := set_kind Prefix (set_nxt true y ix)]> (<[y := set_prev x true iy]> m)) 3 k []).
Proof.
  intros Hk Hly Hy Hpy Hpe Hxy. unfold _mk_down_split. cbn [_backup mbind outcome_mbind].
  assert (runs (if negb b then Ret s else it ← _at x s; nxt ← nxt_if (negb b) it; s ← _backup true nxt s; upd nxt (fun n => set_prev (prev n) true n) s) (fun s' => st s' (<[y := set_prev x true iy]> m) 3 k [])) as Hmid.
  { destruct b; cbn [negb] in *.
    - eapply runs_at; [exact Hst|exact Hx|]. eapply runs_eq; [by apply nxt_if_lnk|]. run (eapply backup_st; [exact Hst|exact Hy|simpl; lia]) as s1 Hs1. eapply runs_mono; [eapply upd_st; [exact Hs1|exact Hy|done]|]. simpl. rewrite Hpy. intros s2 Hs2. exact Hs2.
    - apply runs_ret. rewrite insert_id; [eapply st_weaken; [exact Hst|lia..]|]. rewrite Hy. f_equal. rewrite <- Hpy, <- Hpe. by destruct iy. }
  run (exact Hmid) as s1 Hs1. eapply runs_mono; [eapply (upd__st _ _ _ _ _ Hs1 x ix _ (set_kind Prefix (set_nxt true y ix))); [mlook| |done]|done].
  unfold mk_down_split. rewrite bool_decide_true, negb_involutive, (nxt_if_lnk _ _ _ Hlk) by done. cbn [swear mbind outcome_mbind]. simpl.
  unfold lnk, nx in Hly. rewrite Hk in Hly. destruct b; simpl in *; injection Hly as <-; [by rewrite Hk|]. rewrite Hk. by destruct ix.
Qed.
Lemma down_split_spec v : kind ix = Split -> runs (s ← _mk_down_split false true x (negb b) s; compact v s x) (post v).
Proof.
  intros Hk. assert (exists y, lnk ix (negb b) = Some y) as [y Hly] by (unfold lnk; rewrite Hk; eauto). destruct (next_item _ _ _ _ _ _ _ I Hx Hly) as (iy & Hy & Exy & Hpy & Hpe & Hloc & Hxy); [by destruct b|].
  run (by eapply (down_split_run y iy)) as s1 Hs1. set (ix' := set_kind Prefix (set_nxt true y ix)) in *. set (m2 := <[x := ix']> (<[y := set_prev x true iy]> m)) in *.
  pose proof (close_split_linked m n x y b ix iy I Hx Hn Exy Hy) as [Hl2 Hkeep]. pose proof (close_split_same m n x y b ix iy I Hx Hn Exy Hy) as S2.
  assert (forall u, u ∈ l -> u <> x /\ u <> y) as Hne.
  { intros u Hu. split; intros ->; [eapply (aside_path _ n i l r m x p key x I Has Hw Hu)|eapply (aside_path _ n i l r m y _ _ y I Has (walk_step _ _ _ _ _ _ _ _ Hw Exy Hy) Hu); set_solver]. apply walk_in in Hw as (_ & q & ->). set_solver. }
  assert (aside n i l r m2) as Has2. { eapply aside_kept; [exact I|exact Has|]. intros u iu Hu Hiu. destruct (Hne _ Hu). exists iu. unfold m2. by rewrite !lookup_insert_ne. }
  destruct (decide (prev ix <> 0 /\ chunk_sz ix = 0%nat)) as [[Hp Hc]|Hno].
  - destruct (inv_parent _ _ _ I _ _ Hx Hp) as (iw & Hiw & Ewx). assert (used ix = false) as Hu. { destruct (used ix) eqn:Hu; [|done]. destruct (l_item _ _ (inv_nonroot _ _ _ I _ _ Hx Hp) eq_refl) as [_ Hpos]. rewrite Hc in Hpos. exfalso. cut (0 < 0)%nat; [lia|]. apply Hpos. by right. }
    assert (inv None n (merged m2 x y ix' iw (set_prev x true iy))) as I3 by (by eapply drop_split_inv). assert (same m (merged m2 x y ix' iw (set_prev x true iy))) as S3 by (by eapply drop_split_same).
    assert (keep (fun z => z <> x) m2 (merged m2 x y ix' iw (set_prev x true iy))) as K3 by (by eapply drop_split_linked).
    set (m3 := merged m2 x y ix' iw (set_prev x true iy)) in *. destruct (K3 _ _ _ _ (Hkeep _ _ _ _ (walk_step _ _ _ _ _ _ _ _ Hw Exy Hy)) ltac:(done)) as (p3 & Hw3).
    assert (prev ix <> x /\ prev ix <> y) as [N1 N2] by (split; [eapply E_irrefl; [apply I|exact Ewx|apply (inv_nz _ _ _ I _ _ Hx)]|eapply E_asym; [apply I|exact Ewx|apply (inv_nz _ _ _ I _ _ Hx)|exact Exy|apply (inv_nz _ _ _ I _ _ Hy)]]).
    assert (aside n i l r m3) as Has3. { eapply aside_kept; [exact I|exact Has|]. intros u iu Hul Hiu. destruct (Hne _ Hul). unfold m3, merged, m2, ix'. simpl. destruct (decide (prev ix = u)) as [<-|]; [|exists iu; by rewrite lookup_delete_ne, !lookup_insert_ne by done].
      exists (set_nxt (prev_is_eq ix) y iw). rewrite lookup_delete_ne, lookup_insert_eq by done. rewrite Hiw in Hiu. by injection Hiu as <-. }
    eapply runs_mono; [eapply (squeeze_empty_spec v n i l x y ix' iw (set_prev x true iy)); [exact Hs1|unfold m2; mlook| |unfold m2; simpl; mlook|simpl; by rewrite <- (E_lookup _ _ _ _ Hiw)|by apply loc_set_prev|done|done|done|done|done|exact I3|exact Hw3|exact Has3|lia]|].
    + split_and!; try done; [unfold m2; simpl; mlook|]. simpl. rewrite Hc. apply (l_chunk _ _ Hloc).
    + intros q (Hq & m' & n' & F' & H1 & H2 & H3 & H4). split; [done|]. exists m', n', F'. split_and!; try done. by eapply same_trans.
  - pose proof (close_split_inv m n x y b ix iy I Hx Hk Hn Exy Hy ltac:(intros; lia)) as I2. fold ix' m2 in I2.
    eapply runs_mono; [eapply (squeeze_spec false v n i l x); [exact Hs1|exact I2|unfold m2; mlook|apply Hkeep; exact Hw|exact Has2|simpl; lia]|].
    intros q (Hq & m' & n' & F' & H1 & H2 & H3 & H4). split; [done|]. exists m', n', F'. split_and!; try done. by eapply same_trans.
Qed.
End prepare.

(** ** The detached branch is released *)
Inductive chain m : Z -> list Z -> Prop :=
| chain_end i it : m !! i = Some it -> kind it = Terminal -> chain m i [i]
| chain_step n it l : m !! n = Some it -> kind it = Prefix -> chain m (nxt_eq it) l -> chain m n (n :: l).
Lemma tail_chain h m n i l : linked h m -> tail m n i l -> chain m n l.
Proof.
  intros Hl. induction 1 as [i it Hi Hk|n n' i it l Hn Hk Hu Hu' Ht IH]; [by eapply chain_end|]. eapply chain_step; [exact Hn|done|].
  assert (E m n true = Some n') as He by (apply (lk_up _ _ Hl); [done|by eapply lk_nz]). rewrite (E_lookup _ _ _ _ Hn) in He. destruct (lnk_prefix _ Hk) as [Hlt _]. congruence.
Qed.
Lemma chain_delete m n l u : chain m n l -> u ∉ l -> chain (delete u m) n l.
Proof. induction 1 as [i it Hi Hk|n it l Hn Hk Hc IH]; intros Hu; [eapply chain_end|eapply chain_step]; rewrite ?lookup_delete_ne by set_solver; try done. apply IH. set_solver. Qed.
Lemma pop_forward_all fuel n l s : chain (items s) n l -> NoDup l -> (length l <= fuel)%nat -> pop_forward fuel n s = pop_all l s.
Proof.
  revert fuel s n. induction l as [|n' l IH]; intros fuel s n Hc Hnd Hlen; [inversion Hc|]. destruct fuel as [|fuel]; [simpl in Hlen; lia|]. apply NoDup_cons in Hnd as [Hnl Hnd]. cbn [pop_forward pop_all].
  inversion Hc as [i it Hi Hk|n0 it l0 Hn Hk Hc']; subst; unfold _at.
  - rewrite Hi. cbn [mbind outcome_mbind]. destruct (free n' (sz it) (al s)); [|done..]. cbn [mbind outcome_mbind pop_all]. by rewrite decide_True.
  - rewrite Hn. cbn [mbind outcome_mbind]. destruct (free n' (sz it) (al s)); [|done..]. cbn [mbind outcome_mbind]. rewrite decide_False by congruence. destruct (lnk_prefix _ Hk) as [Hlt _]. rewrite (nxt_if_lnk _ _ _ Hlt). cbn [mbind outcome_mbind].
    apply IH; [simpl; by apply chain_delete|done|simpl in Hlen; lia].
Qed.
Section release.
Context (n i : Z) (l : list Z) m (I : inv None n m) (Hn0 : n <> 0) (Ht : tail m n i l).
Abbreviation m' := (filter (fun q : Z * item => q.1 ∉ l) m).
Lemma release_in z : z ∈ l <-> exists p k, walk m n z p k.
Proof.
  pose proof (i_linked _ _ _ I) as Hl. split.
  - intros Hz. destruct (tail_next _ _ _ _ Ht) as (_ & _ & Hdom). destruct (Hdom _ Hz) as [iz Hiz]. destruct (lk_reach _ _ Hl _ _ Hiz) as (r & p & k & Hw). assert (r = n) as ->; [|eauto].
    apply (tail_under _ _ _ _ _ _ _ _ _ Hl Ht Hw) in Hz. destruct (walk_prefix _ _ _ _ _ _ Hw Hz) as (q & ku & Hwn & _). destruct (i_br _ _ _ I Hn0) as (it & Hit & Hp). by destruct (walk_unique _ _ Hl _ _ _ _ _ _ _ Hwn (walk_root _ _ _ Hit Hp)).
  - intros (p & k & Hw). apply (tail_under _ _ _ _ _ _ _ _ _ Hl Ht Hw). by eapply walk_start.
Qed.
Lemma release_linked : linked None m' /\ forall r z p k, r <> n -> walk m r z p k -> walk m' r z p k.
Proof.
  eapply (linked_drop None m m' n (fun z => z ∈ l)); [apply I|apply release_in|..|done].
  - intros z. rewrite map_lookup_filter_None. split; [intros [?|Hz]; [by right|]|intros [Hz|?]; [|by left]].
    + destruct (m !! z) as [iz|] eqn:Hiz; [|by right]. left. specialize (Hz _ eq_refl). destruct (decide (z ∈ l)); [done|]. by destruct Hz.
    + right. intros iz _ Hnl. by apply Hnl.
  - intros z iz. rewrite map_lookup_filter_Some. by intros [? _].
Qed.
Lemma release_inv : inv None 0 m'.
Proof.
  assert (n ∈ l) as Hnl by apply (tail_next _ _ _ _ Ht). apply inv_intro; [apply release_linked|..|done].
  - intros z iz [Hz Hzl]%map_lookup_filter_Some. simpl in Hzl. assert (is_root 0 z iz = is_root n z iz) as ->; [|by apply (i_loc _ _ _ I)]. unfold is_root. apply bool_decide_ext. assert (z <> n) by (by intros ->). assert (z <> 0) by (by eapply inv_nz). tauto.
  - intros z iz iv [Hz _]%map_lookup_filter_Some Hp [Hv _]%map_lookup_filter_Some Hk. by eapply inv_edge.
Qed.
Lemma release_drops m0 i0 : ~ root m0 n -> drops n i0 m0 m -> drops 0 i0 m0 m'.
Proof.
  intros Hnr [D1 D2 D3]. destruct release_linked as [Hl' Hkeep]. pose proof (i_linked _ _ _ I) as Hl. assert (n ∈ l) as Hnl by apply (tail_next _ _ _ _ Ht).
  assert (forall r z p k, walk m' r z p k -> r <> n) as Hne. { intros r z p k Hw ->. apply walk_from in Hw as (it & [_ Hit]%map_lookup_filter_Some & _). done. }
  split.
  - intros r k j d _. destruct (decide (r = n)) as [->|Hr].
    + split; [intros (p & ij & Hw & _); by destruct (Hne _ _ _ _ Hw)|]. intros [(p & ij & Hw & _) _]. by apply walk_from in Hw.
    + rewrite <- D1 by done. split.
      * intros (p & ij & Hw & [Hj Hjl]%map_lookup_filter_Some & Hu & Hd). destruct (lk_reach _ _ Hl _ _ Hj) as (r0 & p0 & k0 & Hw0). assert (r0 <> n) as Hr0 by (intros ->; apply Hjl, release_in; eauto).
        pose proof (Hkeep _ _ _ _ Hr0 Hw0) as Hw1. destruct (walk_unique _ _ Hl' _ _ _ _ _ _ _ Hw Hw1) as (-> & -> & ->). by exists p0, ij.
      * intros (p & ij & Hw & Hj & Hu & Hd). pose proof (Hkeep _ _ _ _ Hr Hw) as Hw1. exists p, ij. split_and!; try done. destruct (walk_in _ _ _ _ _ Hw1) as ([ij' Hj'] & _). rewrite Hj'. apply map_lookup_filter_Some in Hj' as [? _]. congruence.
  - intros r _. destruct (decide (r = n)) as [->|Hr]; [split; [intros (it & [_ Hit]%map_lookup_filter_Some & _); done|done]|]. rewrite <- D2 by done. split.
    + intros (it & [Hit _]%map_lookup_filter_Some & Hp). by exists it.
    + intros (it & Hit & Hp). eapply walk_from. apply Hkeep; [exact Hr|]. by apply walk_root.
  - intros r p k _ Hw. assert (r <> n) as Hr by (intros ->; by apply walk_from in Hw). destruct (D3 _ _ _ Hr Hw) as (p' & Hw'). exists p'. by apply Hkeep.
Qed.
End release.

Lemma runs_assoc {X Y V} (o : outcome X) (f : X -> outcome Y) (g : Y -> outcome V) Q : runs (o ≫= fun x => f x ≫= g) Q -> runs ((o ≫= f) ≫= g) Q.
Proof. by destruct o. Qed.
Section whole.
Context s m (k : nat) (i : Z) ii (Hst : st s m 0 k []) (I : inv None 0 m) (Hi : m !! i = Some ii) (Hu : used ii = true).
(** An item that leads elsewhere, or a root, stays. *)
Lemma prepare_keep_spec : kind ii <> Terminal \/ prev ii = 0 ->
  runs (pop_prepare d0 i s) (fun q => q.2 = 0 /\ exists m' n' F', st q.1 m' n' k F' /\ inv None 0 m' /\ drops 0 i m m').
Proof.
  intros Hk. unfold pop_prepare. rat. apply runs_swear; [done|]. replace (bool_decide (kind ii = Terminal) && negb (prev ii =? 0))%bool with false by (destruct (bool_decide_reflect (kind ii = Terminal)), (Z.eqb_spec (prev ii) 0); naive_solver).
  run (eapply backup_st; [exact Hst|exact Hi|simpl; lia]) as s1 Hs1. pose proof (i_loc _ _ _ I _ _ Hi) as Hl. pose proof (l_legit _ _ Hl) as Hleg. rewrite Hu in Hleg. pose proof (lo_unused _ (kind ii) Hleg) as Hmax. pose proof (l_chunk _ _ Hl) as Hc. rewrite Hu in Hc.
  run (eapply (upd__st _ _ _ _ _ Hs1 _ _ _ (set_used false (data ii) ii) Hi); [|done]) as s2 Hs2.
  { unfold mk_used. rewrite Hu. cbn [Bool.eqb]. unfold chk_chunk_sz, max_chunk_sz. simpl. destruct (lo_max (sz ii) (kind ii) false) as [-> _]; [split; [apply Hleg|done]|]. cbn [mbind outcome_mbind]. rewrite (proj2 (Z.leb_le _ _)); [done|lia]. }
  pose proof (unuse_inv m i ii I Hi Hu Hk) as I2. destruct (lk_reach _ _ (i_linked _ _ _ I2) i (set_used false (data ii) ii) (lookup_insert_eq _ _ _)) as (r & p & key & Hw).
  eapply runs_mono; [eapply (squeeze_spec true 0 0 0 [] i); [exact Hs2|exact I2|mlook|exact Hw|by left|simpl; lia]|].
  intros q (Hq & m' & n' & F' & H1 & H2 & H3 & _). split; [done|]. exists m', n', F'. split_and!; try done. eapply drops_same; [by apply unuse_drops|done].
Qed.
(** A terminal item goes with the items that only lead to it. *)
Lemma prepare_cut_spec : kind ii = Terminal -> prev ii <> 0 ->
  runs (pop_prepare d0 i s) (fun q => q.2 <> 0 /\ ~ root m q.2 /\ exists m' n' F' l, st q.1 m' n' k F' /\ inv None q.2 m' /\ drops q.2 i m m' /\ tail m' q.2 i l).
Proof.
  intros Hk Hp. unfold pop_prepare. rat. apply runs_swear; [done|]. rewrite bool_decide_true, (proj2 (Z.eqb_neq _ _) Hp) by done. cbn [negb andb]. destruct (lk_reach _ _ (i_linked _ _ _ I) _ _ Hi) as (r & p & key & Hw).
  run (eapply (pop_back_spec _ i r i ii [i]); [exact Hst|exact I|by eapply tail_end|exact Hi|exact Hp|exact Hw|by eapply st_fuel; [|apply I|]]) as [x n] (ix & iy & l & Ht & Hn & Hpn & Hx0 & Hx & Hs). simpl in Ht, Hn, Hpn, Hx0, Hx.
  rat. destruct (detach_ne m x n ix iy I Hx Hn Hpn Hx0) as (Hxn & Hlk & Hn0). apply runs_swear. { rewrite bool_decide_false; [done|]. intros Hkx. unfold lnk in Hlk. by rewrite Hkx in Hlk. }
  rat. destruct (lk_reach _ _ (i_linked _ _ _ I) _ _ Hx) as (rx & px & kx & Hwx). assert (walk (<[n := set_prev 0 true iy]> (<[x := set_nxt (prev_is_eq iy) 0 ix]> m)) rx x px kx /\ rx <> n) as [Hw1 Hrn] by (by eapply detach_walk).
  set (m1 := <[n := set_prev 0 true iy]> (<[x := set_nxt (prev_is_eq iy) 0 ix]> m)) in *. assert (inv (Some (x, prev_is_eq iy)) n m1) as I1 by (by eapply detach_inv). assert (drops n i m m1) as D1 by (by eapply detach_drops). assert (tail m1 n i l) as T1 by (by eapply detach_tail).
  assert (aside n i l rx m1) as Has1 by (right; done). assert (m1 !! x = Some (set_nxt (prev_is_eq iy) 0 ix)) as Hx1 by (unfold m1; mlook).
  assert (runs (_unlnk_before true true n s) (fun s' => st s' m1 2 k [])) as Hun by (unfold _unlnk_before; eapply runs_at; [exact Hst|exact Hn|]; rewrite Hpn; eapply runs_mono; [eapply unlnk_st; [exact Hst|exact Hx|exact Hn|done|exact Hlk|simpl; lia]|done]).
  assert (~ root m n) as Hnr by (intros (it & Hit & Hpr); congruence). assert (lnk (set_nxt (prev_is_eq iy) 0 ix) (prev_is_eq iy) = Some 0) as Hlk1 by (by eapply lnk_set_nxt).
  eapply runs_mono. 
  - instantiate (1 := fun q => q.2 = n /\ exists m' n' F', st q.1 m' n' k F' /\ inv None n m' /\ same m1 m' /\ aside n i l rx m'). destruct (decide (kind ix = Split)) as [Hks|Hks]; apply runs_assoc.
    + run (exact Hun) as s1 Hs1. by eapply (down_split_spec n i x rx l m1 _ (prev_is_eq iy)).
    + assert (kind ix = Prefix) as Hkp by (destruct (kind ix) eqn:Hkx; [|done|done]; unfold lnk in Hlk; by rewrite Hkx in Hlk). run (exact Hun) as s1 Hs1. eapply (down_prefix_spec n i x rx l m1 _ (prev_is_eq iy)); try done. unfold stays in Hs. simpl. destruct Hs as [?|[?|?]]; [done|by left|by right].
  - intros [s2 n2] (Hq & m' & n' & F' & H1 & H2 & H3 & H4). simpl in *. subst n2. split_and!; try done. exists m', n', F', l. split_and!; try done; [by eapply drops_same|]. destruct H4 as [->|(? & _)]; [|done]. by inversion T1.
Qed.
End whole.
Lemma pop_tree_spec s k i ii : clean s k -> inv None 0 (items s) -> items s !! i = Some ii -> used ii = true ->
  runs (_pop d0 i s) (fun s' => clean s' k /\ inv None 0 (items s') /\ drops 0 i (items s) (items s')).
Proof.
  intros Hcl I Hi Hu. pose proof (clean_st _ _ Hcl) as Hst. unfold _pop. destruct (decide (kind ii = Terminal /\ prev ii <> 0)) as [[Hk Hp]|Hno].
  - run (by eapply (prepare_cut_spec s (items s) k i ii)) as [s1 n] (Hn0 & Hnr & m1 & n1 & F1 & l & Hs1 & I1 & D1 & T1). simpl in Hn0, Hnr, Hs1, I1, D1, T1. run (eapply commit_st; exact Hs1) as s2 [Hi2 [C1 C2 C3 C4 (j & Hj & Hroom)]]. rewrite (proj2 (Z.eqb_neq _ _) Hn0).
    assert (NoDup l) as Hnd by (eapply tail_nodup; [apply I1|exact T1]). assert (forall u, u ∈ l -> is_Some (items s2 !! u)) as Hdom by (rewrite Hi2; apply (tail_next _ _ _ _ T1)).
    rewrite (pop_forward_all _ _ l); [|rewrite Hi2; eapply tail_chain; [apply I1|exact T1]|done|].
    2:{ unfold fuel_of. rewrite <- (size_list_to_set (C := gset Z)), <- (size_dom (D := gset Z)) by done. apply le_S, subseteq_size. intros u Hu'. apply elem_of_list_to_set in Hu'. by apply elem_of_dom, Hdom. }
    eapply runs_mono; [eapply (pop_all_ok l s2 j ∅); [by rewrite (left_id_L ∅ (∪))|done|done|]; intros u Hul; split; [done|by apply Hdom]|]. intros s3 (Hi3 & Ho & Hr & Hsv & Hsh & Hsp). rewrite Hi2 in Hi3.
    split_and!; [|rewrite Hi3; by eapply release_inv|rewrite Hi3; by eapply release_drops]. rewrite (left_id_L ∅ (∪)) in Ho. split; try congruence. by exists j.
  - run (eapply (prepare_keep_spec s (items s) k i ii); [done..|]) as [s1 n] (Hn & m1 & n1 & F1 & Hs1 & I1 & D1).
    { destruct (decide (kind ii = Terminal)); [right|by left]. destruct (decide (prev ii = 0)); [done|]. by destruct Hno. }
    simpl in *. run (eapply commit_st; exact Hs1) as s2 [Hi2 Hc2]. subst n. apply runs_ret. by rewrite Hi2.
Qed.
End pop.
