(* ===== verification/PrefixAlloc.v ===== *)
(** * The blocks of prefix trees come from the allocator.

    [MultiPrefixFile] of src/store/prefix.hh is built on [AllocFile] of src/store/alloc.hh with [Mantissa] equal
    to the size of the largest item; what trees rely on is what the allocator provides. *)
From S2P Require Import Prelude.
From S2P Require Import StoreFile.
From S2P Require Import StoreAlloc.
From S2P Require Import StoreAllocFile.
From S2P Require Import StoreAllocInv.
From S2P Require Import PrefixItem.
From S2P Require Import PrefixFile.
Local Open Scope Z_scope.
Import AllocFile.

Section alloc.
Context {P : Params} {HP : ParamsOk P}.
Abbreviation file := (t unit).

Lemma emplace_size n d (f f' : file) i s : _s_sz (_s_bucket n) = Ret s -> 0 <= s -> 0 <= size f < 2 ^ W -> _emplace n d f = Ret (f', i) -> size f' <= size f + s.
Proof.
  intros Hs Hs0 Hf H. unfold _emplace in H. apply bind_ret in H as (h & _ & H). destruct (h =? 0).
  - rewrite Hs in H. cbn [mbind outcome_mbind] in H. apply bind_ret in H as ([b r] & H1 & H). injection H as <- <-. unfold StructFile._emplace_back in H1. apply bind_ret in H1 as (? & _ & H1). apply bind_ret in H1 as (raw' & _ & H1). apply bind_ret in H1 as (f1 & H2 & H1). injection H1 as <- <-.
    unfold StructFile._emplace in H2. inv_ret. subst. unfold size. simpl. unfold uwrap. apply Z.mod_le; [|apply Z.pow_pos_nonneg; pose proof W_ok; lia]. unfold size in Hf. lia.
  - apply bind_ret in H as (n' & _ & H). apply bind_ret in H as (b & H1 & H). injection H as <- <-. unfold StructFile._emplace in H1. inv_ret. subst. unfold size. simpl. lia.
Qed.

(** An item takes one to four cells; each is in a class of its own. *)
Context (HM : Mantissa = Item.MaxSz).
Lemma item_class n : 1 <= n <= Item.MaxSz -> ok_sz n /\ _s_sz (_s_bucket n) = Ret n /\ szv (Alloc.bucket Mantissa n) = n.
Proof.
  intros Hn. pose proof pow_W. pose proof max_sz_big. pose proof NFree_eq as HF. unfold Item.MaxSz in Hn. assert (Mantissa = 4) as HM4 by exact HM. assert (1 <= Mantissa <= 8) as HMr by lia. assert (2 ^ Mantissa = 16) as HM2 by (by rewrite HM).
  assert (Alloc.bucket Mantissa n = n - 1) as Hb by (apply Alloc.bucket_linear; lia). assert (Alloc.bucket Mantissa 16 = 15) as Hb16 by (rewrite Alloc.bucket_linear; lia).
  assert (ok_sz n) as Hok. { apply ok_sz_multi; [lia|]. split; [lia|]. assert (Alloc.bucket Mantissa 16 <= Alloc.bucket Mantissa (2 ^ W - 1)) by (apply Alloc.bucket_mono; lia). lia. }
  destruct (ok_sz_bucket _ Hok) as (Hsb & Hokb & _). rewrite Hsb. unfold szv. assert (_s_sz (Alloc.bucket Mantissa n) = Ret n) as Hsz. { unfold _s_sz. rewrite Hb, Alloc.sz_linear by lia. cbn [mbind outcome_mbind]. f_equal. unfold uwrap. rewrite Z.mod_small; lia. }
  by rewrite Hsz.
Qed.

#[export] Instance alloc_blocks : Blocks file :=
  Build_Blocks file (fun f X => writable f = true /\ repr f ((fun n => (n, tt)) <$> X)) (fun k f => size f + Item.MaxSz * Z.of_nat k < 2 ^ NIdxBits)
    (fun n f => _emplace n tt f) (fun i n f => _pop i n f) (fun i o n f => _shorten i o n f).
Lemma alloc_blocks_ok : BlocksOk file.
Proof.
  pose proof pow_W. pose proof NIdxBits_W. assert (Mantissa = 4) as HM4 by exact HM. split; cbn -[Z.of_nat Z.mul Z.add Z.pow]; unfold Item.MaxSz in *.
  - intros f X k n [Hw Hr] Hk Hn. destruct (item_class n ltac:(done)) as (Hok & Hsz & Hcl). pose proof (emplace_spec f _ n tt Hr Hok) as Hs. pose proof Hr as [cs Hi]. pose proof (inv_size _ _ _ _ Hi).
    destruct (_emplace n tt f) as [[f' i]| |] eqn:He; [|congruence|lia]. destruct Hs as (Hi' & Hi0 & Hr' & Hw'). exists f', i. rewrite lookup_fmap, fmap_None in Hi'. assert (size f' <= size f + n) by (eapply emplace_size; [exact Hsz|lia|lia|exact He]). split_and!; try done; [by rewrite fmap_insert|lia].
  - intros f X k i n [Hw Hr] Hk HX. pose proof (pop_spec f _ i n tt Hr ltac:(by rewrite lookup_fmap, HX)) as Hs. destruct (_pop i n f) as [f'| |]; [|congruence|done]. destruct Hs as (Hr' & Hw' & Hsz). exists f'. rewrite fmap_delete. split_and!; try done. lia.
  - intros f X k i n m [Hw Hr] Hk HX Hm. assert (Mantissa <> 0) as HM0 by lia. assert (0 <= m <= n) as Hm0 by lia. pose proof (shorten_spec f _ i n m tt HM0 Hr ltac:(by rewrite lookup_fmap, HX) Hm0) as Hs. destruct (_shorten i n m f) as [f'| |] eqn:He; [|congruence|done].
    apply shorten_size in He as [Hsz Hwr]; [|lia]. rewrite (proj2 (Z.eqb_neq m 0)) in Hs by lia. exists f'. rewrite fmap_insert. split_and!; try done; [congruence|lia].
Qed.
End alloc.
