(* ===== verification/PrefixThm.v ===== *)
(** * Prefix trees implement maps of names.

    [names] relates a file of src/store/prefix.hh to the map it stands for; [emplace_root], [insert], [pop],
    [search], [longest] and [_key] are those of the map. *)
From S2P Require Import Prelude.
From S2P Require Import StoreFile.
From S2P Require Import StoreAllocFile.
From S2P Require Import StoreAllocInv.
From S2P Require Import PrefixItem.
From S2P Require Import PrefixGraph.
From S2P Require Import PrefixFile.
From S2P Require Import PrefixInv.
From S2P Require Import PrefixSearch.
From S2P Require Import PrefixRun.
From S2P Require Import PrefixTree.
From S2P Require Import PrefixUpd.
From S2P Require Import PrefixInsert.
From S2P Require Import PrefixPop.
From S2P Require Import PrefixLayout.
From S2P Require Import PrefixAlloc.
Local Open Scope Z_scope.
Import Item.

Section thm.
Context {L : Layout} {HL : LayoutOk L} {A : Type} {B : Blocks A} {HB : BlocksOk A} {D : Type} (d0 : D).
Abbreviation item := (Item.t D).
Abbreviation file := (@PrefixFile.t A D).
Import PrefixFile.
Implicit Types (m : gmap Z item) (it ix iy iz : item) (s : file) (M : gmap (Z * list Z) (Z * D)) (R : gset Z).

(** The names of the trees whose roots are [R], with the item and the data of each; there is room to allocate [k] items. *)
Record names s (k : nat) R M : Prop := {
  nm_clean : clean s k;
  nm_inv : inv None 0 (items s);
  nm_root r : r ∈ R <-> root (items s) r;
  nm_has r n i d : M !! (r, n) = Some (i, d) <-> has (items s) r n i d;
}.
Lemma names_root s k R M r : names s k R M -> r ∈ R -> exists ir, items s !! r = Some ir /\ prev ir = 0.
Proof. intros HN Hr. by apply (nm_root _ _ _ _ HN) in Hr. Qed.
Lemma names_item s k R M r n i d : names s k R M -> M !! (r, n) = Some (i, d) -> exists it, items s !! i = Some it /\ used it = true /\ data it = d.
Proof. intros HN (p & it & _ & Hi & Hu & Hd)%(nm_has _ _ _ _ HN). eauto. Qed.
(** An item has one name. *)
Lemma has_inj h m r n i d r' n' d' : linked h m -> has m r n i d -> has m r' n' i d' -> r' = r /\ n' = n /\ d' = d.
Proof.
  intros Hl (p & it & Hw & Hi & _ & Hd) (p' & it' & Hw' & Hi' & _ & Hd'). destruct (walk_unique _ _ Hl _ _ _ _ _ _ _ Hw Hw') as (-> & _ & ->). rewrite Hi in Hi'. injection Hi' as <-. by subst.
Qed.

Lemma search_names s k R M r name : names s k R M -> r ∈ R -> Forall inchar name -> search r name s = Ret (default 0 (fst <$> M !! (r, name))).
Proof.
  intros HN Hr Hname. destruct (names_root _ _ _ _ _ HN Hr) as (ir & Hir & Hp). assert (r <> 0) as Hr0 by (eapply inv_nz; [apply HN|done]).
  destruct (search_has s 0 (nm_inv _ _ _ _ HN) r name Hname ir Hir Hp Hr0) as (i & -> & Hi). f_equal. destruct (M !! (r, name)) as [[j d]|] eqn:HM; simpl.
  - apply (nm_has _ _ _ _ HN) in HM. case_decide; [by destruct (Hi j d)|]. destruct Hi as (_ & _ & Hu). symmetry. by eapply Hu.
  - case_decide; [done|]. destruct Hi as (d & Hd & _). apply (nm_has _ _ _ _ HN) in Hd. congruence.
Qed.
Lemma longest_names s k R M r name : names s k R M -> r ∈ R -> Forall inchar name -> exists i pos, longest r name s = Ret (i, pos) /\
  (i <> 0 -> (pos <= length name)%nat /\ exists d, M !! (r, take pos name) = Some (i, d)) /\
  forall n, n `prefix_of` name -> is_Some (M !! (r, n)) -> i <> 0 /\ (length n <= pos)%nat.
Proof.
  intros HN Hr Hname. destruct (names_root _ _ _ _ _ HN Hr) as (ir & Hir & Hp). assert (r <> 0) as Hr0 by (eapply inv_nz; [apply HN|done]).
  destruct (dvg_digest_spec s 0 (nm_inv _ _ _ _ HN) r name Hname ir Hir Hp Hr0) as (g & Hg & Hres). unfold longest. rewrite Hg. cbn [mbind outcome_mbind]. eexists _, _. split; [done|]. split.
  - intros Hne. destruct (r_has _ _ _ _ Hres Hne) as (Hle & d & Hd). split; [done|]. exists d. by apply (nm_has _ _ _ _ HN).
  - intros n Hn [[j d] HM]. apply (nm_has _ _ _ _ HN) in HM. by eapply (r_max _ _ _ _ Hres).
Qed.

Lemma names_gains s s' k k' R M r name i d : names s k R M -> M !! (r, name) = None -> clean s' k' -> inv None 0 (items s') -> gains (items s) (items s') r name i d -> names s' k' R (<[(r, name) := (i, d)]> M).
Proof.
  intros HN HM Hc I [G1 G2 G3]. split; try done; [intros r'; rewrite G2; apply HN|]. intros r' n' j e. rewrite G1, lookup_insert_Some. split.
  - intros [[[= <- <-] [= <- <-]]|[_ Hj]]; [by right|]. left. by apply (nm_has _ _ _ _ HN).
  - intros [Hj|(-> & -> & -> & ->)]; [|by left]. apply (nm_has _ _ _ _ HN) in Hj. right. split; [|done]. congruence.
Qed.
Lemma insert_names s k R M r name : names s (length name + 2 + k) R M -> r ∈ R -> Forall inchar name -> Z.of_nat (length name) < 2 ^ 64 ->
  match M !! (r, name) with
  | Some (i, _) => insert d0 r name s = Ret (s, i, false)
  | None => exists s' i, insert d0 r name s = Ret (s', i, true) /\ names s' k R (<[(r, name) := (i, d0)]> M)
  end.
Proof.
  intros HN Hr Hname Hlen. destruct (names_root _ _ _ _ _ HN Hr) as (ir & Hir & Hp). pose proof (nm_inv _ _ _ _ HN) as I. assert (r <> 0) as Hr0 by (by eapply inv_nz).
  pose proof (search_names _ _ _ _ _ _ HN Hr Hname) as Hsr. unfold search in Hsr. destruct (dvg_digest_spec s 0 I r name Hname ir Hir Hp Hr0) as (g & Hg & Hres). unfold insert. rewrite Hg in *. cbn [mbind outcome_mbind] in *. injection Hsr as Hsr.
  destruct (r_stop _ _ _ _ Hres) as (p & k0 & it & [S1 S2 S3 [S4 S4'] S5 S6 [S7 S8]]). assert (dvg_idx g <> 0) as Hg0 by (by eapply inv_nz). destruct (M !! (r, name)) as [[i d]|] eqn:HM; simpl in Hsr.
  - assert (i <> 0). { apply (nm_has _ _ _ _ HN) in HM as (? & ? & _ & Hi & _). by eapply inv_nz. } case_decide; [congruence|done].
  - rewrite decide_False; [|by intros Hd; rewrite decide_True in Hsr]. assert (dvg g <> Match) as Hnm by (intros Hd; by rewrite decide_True in Hsr).
    destruct (insert_at_spec d0 r (dvg_idx g) it (chunk_pos g) name (name_pos g) s (items s) k p k0) as ([s' i] & -> & m' & <- & Hc & I' & G); [apply clean_st, HN|done| |done|done|].
    { split; try done. by exists (dvg g). }
    cbn [mbind outcome_mbind]. simpl in *. exists s', i. split; [done|]. by eapply names_gains.
Qed.
Lemma pop_names s k R M r name i d : names s k R M -> M !! (r, name) = Some (i, d) -> exists s', pop d0 i s = Ret s' /\ names s' k R (delete (r, name) M).
Proof.
  intros HN HM. destruct (names_item _ _ _ _ _ _ _ _ HN HM) as (it & Hi & Hu & _). destruct (pop_tree_spec d0 s k i it (nm_clean _ _ _ _ HN) (nm_inv _ _ _ _ HN) Hi Hu) as (s' & Hs' & Hc & I & [D1 D2 D3]). unfold pop. exists s'. split; [done|].
  assert (forall r, root (items s) r -> r <> 0) as Hr0 by (intros r0 (ir & Hir & _); eapply inv_nz; [apply HN|done]). assert (~ root (items s') 0) as Hn0 by (intros (ir & Hir & _); by eapply inv_nz).
  split; try done.
  - intros r'. rewrite (nm_root _ _ _ _ HN). destruct (decide (r' = 0)) as [->|]; [|by rewrite D2]. split; [intros Hr; by destruct (Hr0 _ Hr)|done].
  - intros r' n' j e. rewrite lookup_delete_Some. apply (nm_has _ _ _ _ HN) in HM. destruct (decide (r' = 0)) as [->|].
    + split; [intros [_ (? & ? & Hw & _)%(nm_has _ _ _ _ HN)]; apply walk_from, Hr0 in Hw; done|intros (? & ? & Hw & _); by apply walk_from in Hw].
    + rewrite D1, (nm_has _ _ _ _ HN) by done. split.
      * intros [Hne Hj]. split; [done|]. intros ->. destruct (has_inj _ _ _ _ _ _ _ _ _ (i_linked _ _ _ (nm_inv _ _ _ _ HN)) HM Hj) as (-> & -> & _). done.
      * intros [Hj Hne]. split; [|done]. intros [= <- <-]. apply Hne. apply (nm_has _ _ _ _ HN) in Hj, HM. congruence.
Qed.

Definition root_item : item := Item.mk 0 true MinUsedSz Terminal false 0 0 [] 0 0 0 d0.
Lemma root_inv m r : inv None 0 m -> m !! r = None -> r <> 0 -> inv None 0 (<[r := root_item]> m) /\ (forall r' k i d, has (<[r := root_item]> m) r' k i d <-> has m r' k i d) /\
  forall r', root (<[r := root_item]> m) r' <-> r' = r \/ root m r'.
Proof.
  intros I Hr Hr0. destruct (linked_new None m r root_item (i_linked _ _ _ I) Hr Hr0 eq_refl ltac:(by left)) as (Hl & HW & Hwr). simpl in Hl. pose proof lo_used. split_and!.
  - apply inv_intro; [done|..|done].
    + intros i it [[<- <-]|[_ Hi]]%lookup_insert_Some; [|by apply (i_loc _ _ _ I)]. unfold is_root. rewrite bool_decide_true by done. assert (legit MinUsedSz true) as Hleg by (split; lia). assert (legit MinUsedSz false) as Hleg' by (split; [apply Hleg|done]). split; simpl; try done.
      destruct (lo_max _ Terminal false Hleg'); lia.
    + intros z iz iv [[_ <-]|[_ Hz]]%lookup_insert_Some Hp Hv Hk; [done|]. apply lookup_insert_Some in Hv as [[_ <-]|[_ Hv]]; [done|]. by eapply inv_edge.
  - intros r' k i d. split.
    + intros (p & it & Hw & [[<- <-]|[Hri Hi]]%lookup_insert_Some & Hu & Hd); [done|]. destruct (lk_reach _ _ (i_linked _ _ _ I) _ _ Hi) as (r1 & p1 & k1 & Hw1). destruct (walk_unique _ _ Hl _ _ _ _ _ _ _ Hw (HW _ _ _ _ Hw1)) as (-> & -> & ->). by exists p1, it.
    + intros (p & it & Hw & Hi & Hu & Hd). exists p, it. split_and!; try done; [by apply HW|]. rewrite lookup_insert_ne by congruence. done.
  - intros r'. unfold root. setoid_rewrite lookup_insert_Some. split; [intros (it & [[<- <-]|[_ Hi]] & Hp); eauto|]. intros [->|(it & Hi & Hp)]; [exists root_item; split; [by left|done]|]. exists it. split; [|done]. right. split; [congruence|done].
Qed.
Lemma root_names s k R M : names s (S k) R M -> exists s' r, emplace_root d0 s = Ret (s', r) /\ names s' k ({[r]} ∪ R) M /\ (r ∉ R) /\ forall n, M !! (r, n) = None.
Proof.
  intros HN. pose proof lo_used as HU. pose proof (nm_inv _ _ _ _ HN) as I. assert (legit MinUsedSz true) as Hleg by (split; lia). assert (legit MinUsedSz false) as Hleg' by (split; [apply Hleg|done]). unfold emplace_root.
  assert (new d0 MinUsedSz Terminal false [] 0 0 = Ret root_item) as ->.
  { unfold new. rewrite (proj2 (Z.leb_le 1 _)) by lia. cbn [swear mbind outcome_mbind]. unfold chk_chunk_sz, max_chunk_sz. simpl. destruct (lo_max _ Terminal false Hleg') as [-> ?]. cbn [mbind outcome_mbind]. rewrite (proj2 (Z.leb_le _ _)) by lia. done. }
  cbn [mbind outcome_mbind]. pose proof (clean_st _ _ (nm_clean _ _ _ _ HN)) as Hst. destruct (cl_room _ _ (nm_clean _ _ _ _ HN)) as ([|j] & Hj & Hroom); [lia|].
  destruct (alloc_ok (al s) (sz <$> items s) j MinUsedSz (cl_owned _ _ (nm_clean _ _ _ _ HN)) Hroom) as (a & r & -> & Hr & Hr0 & Ho & Hrm); [lia|]. rewrite lookup_fmap, fmap_None in Hr. cbn [mbind outcome_mbind].
  destruct (root_inv _ _ I Hr Hr0) as (I' & Hhas & Hroot). eexists _, r. split; [done|]. split_and!.
  - destruct (nm_clean _ _ _ _ HN) as [C1 C2 C3 C4 C5]. split; [split; simpl; try done; [by rewrite fmap_insert|exists j; split; [lia|done]]|done| |].
    + intros r'. rewrite elem_of_union, elem_of_singleton, (nm_root _ _ _ _ HN). simpl. by rewrite Hroot.
    + intros r' n i d. rewrite (nm_has _ _ _ _ HN). simpl. by rewrite Hhas.
  - intros (it & Hit & _)%(nm_root _ _ _ _ HN). congruence.
  - intros n. destruct (M !! (r, n)) as [[i d]|] eqn:HM; [|done]. apply (nm_has _ _ _ _ HN) in HM as (p & it & Hw & _). apply walk_from in Hw as (ir & Hir & _). congruence.
Qed.

(** ** From items to names *)
Lemma key_loop_walk s r i p key fuel n nm px : inv None 0 (items s) -> walk (items s) r i p key -> (length p <= fuel)%nat ->
  key_loop fuel i n nm px s = Ret (take (length key - n) key ++ nm, drop (length key - n) key ++ px).
Proof.
  intros I Hw. revert fuel n nm px. induction Hw as [it Hr Hp|x b y it p k Hw IH He Hy]; intros fuel n nm px Hf.
  - destruct fuel as [|fuel]; [simpl in Hf; lia|]. cbn [key_loop]. assert (r <> 0) as Hr0 by (by eapply inv_nz). rewrite (proj2 (Z.eqb_neq _ _) Hr0). unfold _at. rewrite Hr. cbn [mbind outcome_mbind].
    pose proof (loc_length _ _ (i_loc _ _ _ I _ _ Hr)) as Hlen. rewrite Hp, Hlen. destruct (Nat.leb_spec (chunk_sz it) n) as [Hle|Hgt].
    + replace (chunk_sz it - n)%nat with 0%nat by lia. by destruct fuel.
    + by destruct fuel.
  - rewrite length_app in Hf. simpl in Hf. destruct fuel as [|fuel]; [lia|]. cbn [key_loop]. assert (y <> 0) as Hy0 by (by eapply inv_nz). rewrite (proj2 (Z.eqb_neq _ _) Hy0). unfold _at. rewrite Hy. cbn [mbind outcome_mbind].
    destruct (inv_child _ _ _ I _ _ _ _ He Hy) as (-> & _ & _ & Hl). pose proof (loc_length _ _ Hl) as Hlen. rewrite length_app, Hlen. destruct (Nat.leb_spec (chunk_sz it) n) as [Hle|Hgt]; rewrite IH by lia; f_equal; f_equal.
    + rewrite take_app_le by lia. f_equal. f_equal. lia.
    + rewrite drop_app_le by lia. rewrite (assoc_L (++)). f_equal. f_equal. f_equal. lia.
    + rewrite Nat.sub_0_r, take_ge, take_app_ge by lia. rewrite <- (assoc_L (++)). f_equal. f_equal. f_equal. lia.
    + rewrite Nat.sub_0_r, drop_ge, drop_app_ge by lia. simpl. f_equal. f_equal. lia.
Qed.
Lemma key_all_eq s fuel i res px : key_all_loop fuel i res s = ('(n, _) ← key_loop fuel i 0 res px s; Ret n).
Proof.
  revert i res px. induction fuel as [|fuel IH]; intros i res px; cbn [key_all_loop key_loop]; destruct (i =? 0); try done. destruct (_at i s) as [it| |]; cbn [mbind outcome_mbind]; try done.
  destruct (chunk_sz it) as [|c] eqn:Hc; cbn [Nat.ltb Nat.leb Nat.sub]; [apply IH|]. rewrite take_ge by (unfold chunk; rewrite length_reverse, length_take; lia). apply IH.
Qed.
Lemma key_cut_eq s fuel i n res px : key_cut_loop fuel i n res s = ('(n, _) ← key_loop fuel i n res px s; Ret n).
Proof.
  revert i n res px. induction fuel as [|fuel IH]; intros i n res px; cbn [key_cut_loop key_loop]; destruct (i =? 0); try done. destruct (_at i s) as [it| |]; cbn [mbind outcome_mbind]; try done.
  destruct (chunk_sz it <=? n)%nat; apply IH.
Qed.
Lemma key_psfx_names Reverse s k R M r name i d n : names s k R M -> M !! (r, name) = Some (i, d) ->
  _key_psfx Reverse i n s = Ret (in_order Reverse (take (length name - n) name), in_order Reverse (drop (length name - n) name)).
Proof.
  intros HN (p & it & Hw & _)%(nm_has _ _ _ _ HN). pose proof (nm_inv _ _ _ _ HN) as I. unfold _key_psfx. rewrite (key_loop_walk s r i p name (fuel_of s)); [|done|done|eapply st_fuel; [apply clean_st, HN|apply I|done]].
  cbn [mbind outcome_mbind]. by rewrite !app_nil_r.
Qed.

(** ** Sequences of updates *)
Inductive update := Insert (r : Z) (name : list Z) | Remove (r : Z) (name : list Z).
Definition run1 (u : update) s : outcome file :=
  match u with
  | Insert r name => '(s, _, _) ← insert d0 r name s; Ret s
  | Remove r name => i ← search r name s; if i =? 0 then Ret s else pop d0 i s
  end.
Fixpoint run_all (us : list update) s : outcome file :=
  match us with [] => Ret s | u :: us => s ← run1 u s; run_all us s end.
Definition effect (u : update) (N : gset (Z * list Z)) : gset (Z * list Z) :=
  match u with Insert r name => {[(r, name)]} ∪ N | Remove r name => N ∖ {[(r, name)]} end.
Definition target (u : update) : Z * list Z := match u with Insert r name | Remove r name => (r, name) end.
Definition cost (u : update) : nat := match u with Insert _ name => length name + 2 | Remove _ _ => 0 end.
Definition fits R (u : update) : Prop := (target u).1 ∈ R /\ Forall inchar (target u).2 /\ Z.of_nat (length (target u).2) < 2 ^ 64.

Lemma names_weaken s k k' R M : (k' <= k)%nat -> names s k R M -> names s k' R M.
Proof. intros Hk [[C1 C2 C3 C4 (j & Hj & Hr)] H2 H3 H4]. split; try done. split; try done. exists j. split; [lia|done]. Qed.
Lemma run1_names u s k R M : names s (cost u + k) R M -> fits R u -> exists s' M', run1 u s = Ret s' /\ names s' k R M' /\ dom M' = effect u (dom M).
Proof.
  intros HN (Hr & Hn & Hl). destruct u as [r name|r name]; simpl in *.
  - pose proof (insert_names s k R M r name HN Hr Hn Hl) as Hi. destruct (M !! (r, name)) as [[i d]|] eqn:HM.
    + rewrite Hi. exists s, M. split; [done|]. split; [eapply names_weaken; [|exact HN]; lia|]. apply elem_of_dom_2 in HM. set_solver.
    + destruct Hi as (s' & i & -> & HN'). exists s', (<[(r, name) := (i, d0)]> M). split_and!; try done. by rewrite dom_insert_L.
  - rewrite (search_names s k R M r name HN Hr Hn). cbn [mbind outcome_mbind]. destruct (M !! (r, name)) as [[i d]|] eqn:HM; simpl.
    + assert (i <> 0) as Hi by (destruct (names_item _ _ _ _ _ _ _ _ HN HM) as (it & Hit & _); eapply inv_nz; [apply HN|done]). rewrite (proj2 (Z.eqb_neq _ _) Hi).
      destruct (pop_names s k R M r name i d HN HM) as (s' & -> & HN'). exists s', (delete (r, name) M). split_and!; try done. by rewrite dom_delete_L.
    + exists s, M. split_and!; try done. apply not_elem_of_dom in HM. set_solver.
Qed.
Lemma run_names us s k R M : names s (sum_list_with cost us + k) R M -> Forall (fits R) us -> exists s' M', run_all us s = Ret s' /\ names s' k R M' /\ dom M' = foldl (fun N u => effect u N) (dom M) us.
Proof.
  revert s M. induction us as [|u us IH]; intros s M HN Hus; simpl in *; [by exists s, M|]. apply Forall_cons in Hus as [Hu Hus]. rewrite <- Nat.add_assoc in HN. destruct (run1_names u s _ R M HN Hu) as (s1 & M1 & -> & HN1 & <-). cbn [mbind outcome_mbind]. by apply IH.
Qed.
Lemma names_empty (a : A) k : owned a ∅ -> room k a -> names (PrefixFile.mk a ∅ [] [] []) k ∅ ∅.
Proof.
  intros Ho Hr. split; simpl.
  - split; try done. by exists k.
  - apply inv_intro; [|done..]. split; [done|..]; unfold E, U; intros; rewrite ?lookup_empty; simpl; split || done; done.
  - intros r. split; [set_solver|by intros (? & ? & _)].
  - intros r n i d. split; [done|]. intros (p & it & _ & Hi & _). done.
Qed.
End thm.

(** ** The name files: bytes, 32-bit indices and data, blocks from the allocator *)
Module NameFile.
Import AllocFile.
#[export] Instance name_params : Params := {| Mantissa := Item.MaxSz; W := 32; NIdxBits := 24; sizeof_Hdr := 1000; sizeof_Data := 16; PAGE_SZ := 4096 |}.
#[export] Instance name_params_ok : ParamsOk name_params.
Proof. split; simpl; unfold Item.MaxSz; lia. Qed.
#[export] Instance name_blocks_ok : BlocksOk (t unit) := alloc_blocks_ok eq_refl.
Definition a0 : t unit := match init (RawFile.mk 0 true) with Ret f => f | _ => mk (StructFile.mk (RawFile.mk 0 true) 0 ∅) [] end.
Definition s0 : PrefixFile.t := PrefixFile.mk (D := Z) a0 ∅ [] [] [].
Definition s1 : PrefixFile.t := match PrefixFile.emplace_root 0 s0 with Ret (s, _) => s | _ => s0 end.
Lemma s0_names : names s0 1000 ∅ ∅.
Proof.
  apply names_empty.
  - destruct (init_spec (RawFile.mk 0 true) (D := unit) eq_refl eq_refl) as (f & Hf & Hr & Hw). simpl. unfold a0. rewrite Hf. by rewrite fmap_empty.
  - by vm_compute.
Qed.
Lemma s1_names : names s1 999 {[1]} ∅.
Proof.
  destruct (root_names 0 s0 999 ∅ ∅ s0_names) as (s' & r & He & HN & _). assert (match PrefixFile.emplace_root 0 s0 with Ret (_, r) => r | _ => 0 end = 1) as Hr by (vm_compute; reflexivity).
  unfold s1. rewrite He in *. simpl in Hr. rewrite Hr, (right_id_L ∅ (∪)) in HN. exact HN.
Qed.
(** Two names that share a character *)
Definition ab : list Z := [97; 98].
Definition ac : list Z := [97; 99].
Definition add (name : list Z) (s : PrefixFile.t) : PrefixFile.t := match PrefixFile.insert 0 1 name s with Ret (s, _, _) => s | _ => s end.
Definition s2 : PrefixFile.t := add ab s1.
Definition s3 : PrefixFile.t := add ac s2.
Definition i2 : Z := match PrefixFile.insert 0 1 ab s1 with Ret (_, i, _) => i | _ => 0 end.
Definition i3 : Z := match PrefixFile.insert 0 1 ac s2 with Ret (_, i, _) => i | _ => 0 end.
Definition M2 : gmap (Z * list Z) (Z * Z) := <[(1, ab) := (i2, 0)]> ∅.
Definition M3 : gmap (Z * list Z) (Z * Z) := <[(1, ac) := (i3, 0)]> M2.
Lemma M2_ab : M2 !! (1, ab) = Some (i2, 0).
Proof. apply lookup_insert_eq. Qed.
Lemma M2_ac : M2 !! (1, ac) = None.
Proof. unfold M2. by rewrite lookup_insert_ne. Qed.
Lemma M3_ab : M3 !! (1, ab) = Some (i2, 0).
Proof. unfold M3. rewrite lookup_insert_ne by done. apply M2_ab. Qed.
Lemma ab_in : Forall inchar ab.
Proof. unfold ab, inchar, Item.NBits. repeat constructor; vm_compute; congruence. Qed.
Lemma ac_in : Forall inchar ac.
Proof. unfold ac, inchar, Item.NBits. repeat constructor; vm_compute; congruence. Qed.
Lemma s2_names : names s2 995 {[1]} M2.
Proof.
  pose proof (insert_names 0 s1 995 {[1]} ∅ 1 ab s1_names ltac:(set_solver) ab_in ltac:(vm_compute; reflexivity)) as H. rewrite lookup_empty in H. destruct H as (s' & i & He & HN). unfold M2, s2, i2, add. rewrite He. exact HN.
Qed.
Lemma s3_names : names s3 991 {[1]} M3.
Proof.
  pose proof (insert_names 0 s2 991 {[1]} _ 1 ac s2_names ltac:(set_solver) ac_in ltac:(vm_compute; reflexivity)) as H. rewrite M2_ac in H. destruct H as (s' & i & He & HN). unfold M3, s3, i3, add. rewrite He. exact HN.
Qed.
End NameFile.

Section claims.
Context {L : Layout} {HL : LayoutOk L} {A : Type} {B : Blocks A} {HB : BlocksOk A} {D : Type} (d0 : D).
Import PrefixFile.

(** C2 Inserting a name in a tree whose root is [r] returns the item of the name and changes nothing if the name is there; otherwise it creates an item that holds
    the default data, and the file stands for the same names plus that one, whatever the structure of the tree. *)
Theorem prefix_insert (s : PrefixFile.t (A := A) (D := D)) (k : nat) (R : gset Z) (M : gmap (Z * list Z) (Z * D)) r name : names s (length name + 2 + k) R M -> r ∈ R -> Forall inchar name -> Z.of_nat (length name) < 2 ^ 64 ->
  match M !! (r, name) with
  | Some (i, _) => insert d0 r name s = Ret (s, i, false)
  | None => exists s' i, insert d0 r name s = Ret (s', i, true) /\ names s' k R (<[(r, name) := (i, d0)]> M) /\ forall r' name' d, M !! (r', name') <> Some (i, d)
  end.
Proof.
  intros HN Hr Hn Hl. pose proof (insert_names d0 s k R M r name HN Hr Hn Hl) as Hi. destruct (M !! (r, name)) as [[i d]|] eqn:HM; [done|]. destruct Hi as (s' & i & He & HN'). exists s', i. split_and!; try done.
  intros r' name' d Hd. assert ((r, name) <> (r', name')) as Hne by congruence. assert (<[(r, name) := (i, d0)]> M !! (r', name') = Some (i, d)) as Hd' by (by rewrite lookup_insert_ne).
  assert (<[(r, name) := (i, d0)]> M !! (r, name) = Some (i, d0)) as Hi by apply lookup_insert_eq. apply (nm_has _ _ _ _ HN') in Hd', Hi. destruct (has_inj _ _ _ _ _ _ _ _ _ (i_linked _ _ _ (nm_inv _ _ _ _ HN')) Hi Hd') as (-> & -> & _). done.
Qed.
(** C3 Popping the item of a name removes that name and no other one; all other names keep their items and data, and the space is given back to the allocator. *)
Theorem prefix_pop (s : PrefixFile.t (A := A) (D := D)) (k : nat) (R : gset Z) (M : gmap (Z * list Z) (Z * D)) r name i d : names s k R M -> M !! (r, name) = Some (i, d) -> exists s', pop d0 i s = Ret s' /\ names s' k R (delete (r, name) M).
Proof. apply pop_names. Qed.
(** C1 Any sequence of insertions and removals runs to completion on a file with room for it, and then a search finds exactly the names that the same sequence leaves in a set. *)
Theorem prefix_run (us : list update) (s : PrefixFile.t (A := A) (D := D)) (k : nat) (R : gset Z) (M : gmap (Z * list Z) (Z * D)) : names s (sum_list_with cost us + k) R M -> Forall (fits R) us ->
  exists s', run_all d0 us s = Ret s' /\ forall u, fits R u -> exists i, search (target u).1 (target u).2 s' = Ret i /\ (i <> 0 <-> target u ∈ foldl (fun N u => effect u N) (dom M) us).
Proof.
  intros HN Hus. destruct (run_names d0 us s k R M HN Hus) as (s' & M' & Hrun & HN' & <-). exists s'. split; [done|]. intros u (Hr & Hn & Hl). eexists. split; [by apply (search_names s' k R M')|]. rewrite elem_of_dom, <- surjective_pairing.
  destruct (M' !! target u) as [[i d]|] eqn:HM; simpl; [|split; [done|by intros [? ?]]]. split; [eauto|]. intros _. destruct (target u) as [r n]. destruct (names_item _ _ _ _ _ _ _ _ HN' HM) as (it & Hit & _). eapply inv_nz; [apply HN'|done].
Qed.
(** C26 The longest match of a name is the longest of its prefixes that is a name of the tree, and its item; there is none when no prefix is. *)
Theorem prefix_longest (s : PrefixFile.t (A := A) (D := D)) (k : nat) (R : gset Z) (M : gmap (Z * list Z) (Z * D)) r name : names s k R M -> r ∈ R -> Forall inchar name -> exists i pos, longest r name s = Ret (i, pos) /\
  (i <> 0 -> (pos <= length name)%nat /\ exists d, M !! (r, take pos name) = Some (i, d)) /\
  forall n, n `prefix_of` name -> is_Some (M !! (r, n)) -> i <> 0 /\ (length n <= pos)%nat.
Proof. apply longest_names. Qed.
(** C25 The name of an item is read back from the tree, split where asked for, in the order of the characters of the name for both orders of storage. *)
Theorem prefix_key (Reverse : bool) (s : PrefixFile.t (A := A) (D := D)) (k : nat) (R : gset Z) (M : gmap (Z * list Z) (Z * D)) r name i d n : names s k R M -> M !! (r, in_order Reverse name) = Some (i, d) ->
  _key_psfx Reverse i n s = Ret (if Reverse then (drop n name, take n name) else (take (length name - n) name, drop (length name - n) name)).
Proof.
  intros HN HM. rewrite (key_psfx_names Reverse s k R M r _ i d n HN HM). destruct Reverse; cbn [in_order]; [|done]. rewrite length_reverse, take_reverse, drop_reverse, !reverse_involutive.
  destruct (Nat.le_gt_cases n (length name)); [by replace (length name - (length name - n))%nat with n by lia|]. replace (length name - (length name - n))%nat with (length name) by lia. by rewrite !drop_ge, !take_ge by lia.
Qed.
(** Reading a whole name with its own loop, or all but its last characters, gives the first part of what reading both parts at once gives. *)
Theorem prefix_key_equiv Reverse i n (s : PrefixFile.t (A := A) (D := D)) : _key Reverse i n s = ('(name, _) ← _key_psfx Reverse i n s; Ret name).
Proof.
  unfold _key, _key_psfx. destruct (Nat.eqb_spec n 0) as [->|]; [rewrite (key_all_eq s _ i [] [])|rewrite (key_cut_eq s _ i n [] [])]; by destruct (key_loop _ _ _ _ _ _) as [[? ?]| |].
Qed.
End claims.

Module PrefixWitness.
Import NameFile.
Import PrefixFile.
#[local] Opaque insert pop search longest run_all _key_psfx s1 s2 s3 i2 i3.
Lemma prefix_insert_witness : exists s' i, insert 0 1 ac s2 = Ret (s', i, true) /\ names s' 991 {[1]} (<[(1, ac) := (i, 0)]> M2).
Proof.
pose proof (prefix_insert 0 s2 991 {[1]} M2 1 ac s2_names ltac:(set_solver) ac_in ltac:(vm_compute; reflexivity)) as H.
rewrite M2_ac in H. destruct H as (s' & i & He & HN & _). exact (ex_intro _ s' (ex_intro _ i (conj He HN))).
Defined.
Lemma prefix_pop_witness : exists s', pop 0 i2 s3 = Ret s' /\ names s' 991 {[1]} (delete (1, ab) M3).
Proof. exact (prefix_pop 0 s3 991 {[1]} M3 1 ab i2 0 s3_names M3_ab). Defined.
Lemma prefix_run_witness : exists s', run_all 0 [Insert 1 ab; Insert 1 ac; Remove 1 ab] s1 = Ret s' /\ exists i, search 1 ac s' = Ret i /\ i <> 0.
Proof.
assert (fits {[1]} (Insert 1 ab)) as H1 by (split; [by apply elem_of_singleton|split; [apply ab_in|vm_compute; reflexivity]]). assert (fits {[1]} (Insert 1 ac)) as H2 by (split; [by apply elem_of_singleton|split; [apply ac_in|vm_compute; reflexivity]]).
assert (fits {[1]} (Remove 1 ab)) as H3 by exact H1.
destruct (prefix_run 0 [Insert 1 ab; Insert 1 ac; Remove 1 ab] s1 991 {[1]} ∅ s1_names) as (s' & Hs' & Hf); [exact (Forall_cons_2 _ _ _ H1 (Forall_cons_2 _ _ _ H2 (Forall_cons_2 _ _ _ H3 (Forall_nil_2 _))))|]. exists s'. split; [exact Hs'|].
destruct (Hf (Insert 1 ac) H2) as (i & Hi & Hin). exists i. split; [exact Hi|]. apply Hin. clear. simpl. rewrite dom_empty_L. set_solver.
Defined.
Lemma prefix_longest_witness : exists i pos, longest 1 [97; 98; 99] s2 = Ret (i, pos) /\ (2 <= pos)%nat /\ i <> 0.
Proof.
destruct (prefix_longest s2 995 {[1]} M2 1 [97; 98; 99] s2_names) as (i & pos & He & H1 & H2); [by apply elem_of_singleton|unfold inchar, Item.NBits; repeat constructor; vm_compute; congruence|].
destruct (H2 ab) as [Hi Hp]; [by exists [99]|rewrite M2_ab; eauto|]. exists i, pos. split; [exact He|]. split; [exact Hp|exact Hi].
Defined.
Lemma prefix_key_witness : _key_psfx false i2 1 s3 = Ret ([97], [98]).
Proof. exact (prefix_key false s3 991 {[1]} M3 1 ab i2 0 1%nat s3_names M3_ab). Defined.
End PrefixWitness.
