(* ===== verification/Crc.v ===== *)
(** * Checksums: [Hash::_Crc] of src/hash.hh and src/hash.cc.

    A checksum is a value of [Val], the small values standing for what is known of a file without
    its content. The digest of a content itself comes from xxhash and is a parameter. *)
From S2P Require Import Prelude.
From S2P Require Import Arith.
From S2P Require Import Enum.
Local Open Scope Z_scope.

Module Crc.

(** [CrcSpecial] *)
Definition Unknown : Z := 0.
Definition Lnk : Z := 1.
Definition Reg : Z := 2.
Definition None : Z := 3.
Definition Empty : Z := 4.
Definition Plain : Z := 5.
Definition Valid : Z := None.
Definition NSpecial : Z := 6.

Section ops.
(** Number of bits of the checksum *)
Context (Sz : Z).

(** [Val] and its bits *)
Definition ValW : Z := if 64 <? Sz then 128 else 64.
Definition Msk : Z := uwrap ValW (uwrap ValW (Z.shiftl (Z.shiftl 1 (Z.min Sz ValW - 1)) 1) - 1).
Definition HexSz : Z := div_up Sz 8 * 2.
Definition Base64Sz : Z := div_up Sz 6.
Definition NChkBits : Z := 8.
Definition ChkMsk : Z := Z.shiftr Msk NChkBits.

Definition _plain (v : Z) : bool := NSpecial <=? v.
Definition valid (v : Z) : bool := Valid <=? v.
Definition exists_ (v : Z) : bool := negb (v =? 0) && negb (v =? None).
Definition is_lnk (v : Z) : bool := if _plain v then negb (Z.land v 1 =? 0) else v =? Lnk.
Definition is_reg (v : Z) : bool := if _plain v then Z.land v 1 =? 0 else (v =? Reg) || (v =? Empty).

(** [_set_is_lnk] and the constructors *)
Definition _set_is_lnk (l : Bool3) (v : Z) : Z :=
  match l with
  | No => Z.land v (Z.lnot 1)
  | Maybe => v
  | Yes => Z.lor v 1
  end.
Definition of_val (v : Z) (l : Bool3) : Z := _set_is_lnk l v.
Definition of_tag (t : FileTag) : Z :=
  match t with
  | TNone | TDir => None
  | TLnk => Lnk
  | TReg | TExe => Reg
  | TEmpty => Empty
  end.

(** [_Xxh::digest()] from the digest computed by xxhash *)
Definition digest (l : Bool3) (seen_data : bool) (hash : Z) : Z :=
  match l, seen_data with
  | Maybe, false => Unknown
  | _, _ => of_val (Z.land hash Msk) l
  end.

(** [diff_accesses(crc)]: the accesses that can tell the two files apart; a near clash stops *)
Definition diff_accesses (v crc : Z) : outcome Z :=
  let diff := u64 (Z.lxor v crc) in
  if valid v && valid crc && (diff =? 0) then Ret 0
  else if valid v && valid crc && (Z.land diff ChkMsk =? 0) && (_plain v || _plain crc) then Crash
  else Ret (
    if is_reg v then
      if is_reg crc then BitMap.singleton Access.Reg
      else if is_lnk crc then BitMap.compl Access.N (BitMap.singleton Access.Stat)
      else if crc =? None then BitMap.compl Access.N (BitMap.singleton Access.Lnk)
      else Access.FullAccesses
    else if is_lnk v then
      if is_reg crc then BitMap.compl Access.N (BitMap.singleton Access.Stat)
      else if is_lnk crc then BitMap.singleton Access.Lnk
      else if crc =? None then BitMap.compl Access.N (BitMap.singleton Access.Reg)
      else Access.FullAccesses
    else if v =? None then
      if is_reg crc then BitMap.compl Access.N (BitMap.singleton Access.Lnk)
      else if is_lnk crc then BitMap.compl Access.N (BitMap.singleton Access.Reg)
      else Access.FullAccesses
    else Access.FullAccesses).

(** [match(crc,a)], [never_match(a)], [s_sense(a,t)] *)
Definition match_ (v crc a : Z) : outcome bool :=
  d ← diff_accesses v crc; Ret (BitMap.is_empty (BitMap.inter d a)).
Definition never_match (v a : Z) : bool :=
  if v =? Unknown then negb (BitMap.is_empty a)
  else if v =? Lnk then BitMap.mem Access.Lnk a
  else if v =? Reg then BitMap.mem Access.Reg a
  else false.
Definition s_sense (a : Z) (t : FileTag) : outcome bool :=
  m ← match_ (of_tag t) (of_tag t) a; Ret (negb m).

(** ** Text: [hex()], [s_from_hex(sv)], [base64()], [s_from_base64(sv)], strings as codes of characters *)

Definition hex_digit (d : Z) : Z := if d <? 10 then 48 + d else 97 + d - 10.
Definition hex_val (c : Z) : outcome Z :=
  if (48 <=? c) && (c <=? 57) then Ret (c - 48)
  else if (97 <=? c) && (c <=? 102) then Ret (10 + c - 97)
  else Throw "bad hex digit".

Fixpoint hex_loop (n : nat) (v : Z) : list Z :=
  match n with
  | O => []
  | S n => hex_digit (Z.land (Z.shiftr v 4) 15) :: hex_digit (Z.land v 15) :: hex_loop n (Z.shiftr v 8)
  end.
Definition hex (v : Z) : list Z := hex_loop (Z.to_nat (HexSz / 2)) v.

(** Iteration [i] reads the two digits before the last [2*i] ones *)
Fixpoint from_hex_loop (n : nat) (i : Z) (sv : list Z) (val : Z) : outcome Z :=
  match n with
  | O => Ret val
  | S n =>
    match sv !! Z.to_nat (HexSz - 2 * i - 2), sv !! Z.to_nat (HexSz - 2 * i - 1) with
    | Some msb, Some lsb =>
      m ← hex_val msb;
      l ← hex_val lsb;
      let b := u8 (Z.lor (Z.shiftl m 4) l) in
      from_hex_loop n (i + 1) sv (Z.lor (uwrap ValW (Z.shiftl val 8)) b)
    | _, _ => Crash
    end
  end.
Definition s_from_hex (sv : list Z) : outcome Z :=
  _ ← throw_unless (Z.of_nat (length sv) =? HexSz) "bad size";
  from_hex_loop (Z.to_nat (HexSz / 2)) 0 sv 0.

Definition base64_digit (d : Z) : Z :=
  if d <? 26 then 65 + d
  else if d <? 52 then 97 + d - 26
  else if d <? 62 then 48 + d - 52
  else if d =? 62 then 45
  else 95.
Definition base64_val (c : Z) : outcome Z :=
  if (65 <=? c) && (c <=? 90) then Ret (u8 (c - 65))
  else if (97 <=? c) && (c <=? 122) then Ret (u8 (26 + c - 97))
  else if (48 <=? c) && (c <=? 57) then Ret (u8 (52 + c - 48))
  else if c =? 45 then Ret 62
  else if c =? 95 then Ret 63
  else Throw "bad base64 digit".

Fixpoint base64_loop (n : nat) (v : Z) : list Z :=
  match n with
  | O => []
  | S n => base64_digit (u8 (Z.land v 63)) :: base64_loop n (Z.shiftr v 6)
  end.
Definition base64 (v : Z) : list Z := base64_loop (Z.to_nat Base64Sz) v.

Fixpoint from_base64_loop (n : nat) (i : Z) (sv : list Z) (val : Z) : outcome Z :=
  match n with
  | O => Ret val
  | S n =>
    match sv !! Z.to_nat (Base64Sz - i - 1) with
    | Some c =>
      let val := uwrap ValW (Z.shiftl val 6) in
      d ← base64_val c;
      from_base64_loop n (i + 1) sv (Z.lor val d)
    | _ => Crash
    end
  end.
Definition s_from_base64 (sv : list Z) : outcome Z :=
  _ ← throw_unless (Z.of_nat (length sv) =? Base64Sz) "bad size";
  from_base64_loop (Z.to_nat Base64Sz) 0 sv 0.
End ops.

Section text.
Context (Sz : Z) (HSz : 0 < Sz <= 128).

Lemma ValW_cases : ValW Sz = 64 \/ ValW Sz = 128.
Proof. unfold ValW. destruct (64 <? Sz); auto. Qed.

Lemma Sz_ValW : Sz <= ValW Sz.
Proof. unfold ValW. destruct (Z.ltb_spec 64 Sz); lia. Qed.

Lemma pow_Sz_ValW v : v < 2 ^ Sz -> v < 2 ^ ValW Sz.
Proof. intros. pose proof Sz_ValW. assert (2 ^ Sz <= 2 ^ ValW Sz) by (apply Z.pow_le_mono_r; lia). lia. Qed.

Lemma hex_digit_val d : 0 <= d < 16 -> hex_val (hex_digit d) = Ret d.
Proof.
  intros Hd. unfold hex_val, hex_digit. destruct (Z.ltb_spec d 10).
  - rewrite !(proj2 (Z.leb_le _ _)) by lia. simpl. f_equal. lia.
  - rewrite (proj2 (Z.leb_gt (97 + d - 10) 57)), !(proj2 (Z.leb_le _ _)) by lia. simpl. f_equal. lia.
Qed.

Lemma base64_digit_val d : 0 <= d < 64 -> base64_val (base64_digit d) = Ret d.
Proof.
  intros Hd. unfold base64_digit, base64_val.
  assert (forall n, (n < 64)%nat -> match base64_val (base64_digit (Z.of_nat n)) with Ret x => x =? Z.of_nat n | _ => false end = true) as Hall.
  { intros n Hn. do 64 (destruct n as [|n]; [reflexivity|]). lia. }
  specialize (Hall (Z.to_nat d) ltac:(lia)). rewrite Z2Nat.id in Hall by lia. unfold base64_digit, base64_val in Hall.
  match goal with |- ?x = _ => destruct x as [y| |]; [|done|done] end. f_equal. by apply Z.eqb_eq.
Qed.

Lemma hex_loop_lookup n v k : (k < n)%nat ->
  hex_loop n v !! (2 * k)%nat = Some (hex_digit (Z.land (Z.shiftr v (8 * Z.of_nat k + 4)) 15)) /\
  hex_loop n v !! (2 * k + 1)%nat = Some (hex_digit (Z.land (Z.shiftr v (8 * Z.of_nat k)) 15)).
Proof.
  revert v k. induction n as [|n IH]; intros v k Hk; [lia|]. destruct k as [|k].
  - simpl. done.
  - destruct (IH (Z.shiftr v 8) k ltac:(lia)) as [H1 H2].
    replace (2 * S k)%nat with (S (S (2 * k)))%nat by lia. replace (S (S (2 * k)) + 1)%nat with (S (S (2 * k + 1)))%nat by lia.
    assert (forall i, hex_loop (S n) v !! S (S i) = hex_loop n (Z.shiftr v 8) !! i) as Hs by done.
    rewrite !Hs, H1, H2.
    rewrite !Z.shiftr_shiftr by lia. split; do 4 f_equal; lia.
Qed.

Lemma hex_length n v : length (hex_loop n v) = (2 * n)%nat.
Proof. revert v. induction n as [|n IH]; intros v; simpl; [done|]. rewrite IH. lia. Qed.

Lemma hex_byte v k : 0 <= k ->
  u8 (Z.lor (Z.shiftl (Z.land (Z.shiftr v (k + 4)) 15) 4) (Z.land (Z.shiftr v k) 15)) = Z.land (Z.shiftr v k) (Z.ones 8).
Proof.
  intros Hk. apply Z.bits_inj'. intros i Hi. change 15 with (Z.ones 4). unfold u8, uwrap.
  destruct (Z.ltb_spec i 8).
  - rewrite Z.mod_pow2_bits_low, Z.lor_spec, Z.shiftl_spec by lia.
    rewrite (Z.land_spec (Z.shiftr v k) (Z.ones 8)), (Z.land_spec (Z.shiftr v k) (Z.ones 4)).
    rewrite !(Z.testbit_ones_nonneg _ i), (proj2 (Z.ltb_lt i 8)), andb_true_r by lia. destruct (Z.ltb_spec i 4).
    + rewrite (Z.testbit_neg_r _ (i - 4)) by lia. by rewrite andb_true_r.
    + rewrite Z.land_spec, Z.testbit_ones_nonneg, (proj2 (Z.ltb_lt (i - 4) 4)), !Z.shiftr_spec by lia.
      rewrite andb_true_r, andb_false_r, orb_false_r. f_equal. lia.
  - rewrite Z.mod_pow2_bits_high by lia. rewrite Z.land_spec, Z.testbit_ones_nonneg by lia.
    rewrite (proj2 (Z.ltb_ge i 8)) by lia. by rewrite andb_false_r.
Qed.

Lemma from_hex_loop_spec n v m : HexSz Sz = 2 * Z.of_nat n -> 0 <= v < 2 ^ Sz -> (m <= n)%nat ->
  from_hex_loop Sz m (Z.of_nat n - Z.of_nat m) (hex_loop n v) (Z.shiftr v (8 * Z.of_nat m)) = Ret v.
Proof.
  intros Hn Hv. induction m as [|m IH]; intros Hm; [by rewrite Z.shiftr_0_r|]. cbn [from_hex_loop].
  rewrite Hn. replace (Z.to_nat (2 * Z.of_nat n - 2 * (Z.of_nat n - Z.of_nat (S m)) - 2)) with (2 * m)%nat by lia.
  replace (Z.to_nat (2 * Z.of_nat n - 2 * (Z.of_nat n - Z.of_nat (S m)) - 1)) with (2 * m + 1)%nat by lia.
  destruct (hex_loop_lookup n v m ltac:(lia)) as [-> ->].
  rewrite !hex_digit_val by (change 15 with (Z.ones 4); change 16 with (2 ^ 4); apply digit_range; lia). cbn -[u8 uwrap Z.mul Z.sub].
  rewrite hex_byte by lia. replace (Z.of_nat (S m)) with (Z.of_nat m + 1) by lia.
  rewrite digit_step; [|lia|lia|split; [lia|apply pow_Sz_ValW; lia]|destruct ValW_cases; lia].
  replace (Z.of_nat n - (Z.of_nat m + 1) + 1) with (Z.of_nat n - Z.of_nat m) by lia. apply IH. lia.
Qed.

Lemma base64_loop_lookup n v k : (k < n)%nat ->
  base64_loop n v !! k = Some (base64_digit (u8 (Z.land (Z.shiftr v (6 * Z.of_nat k)) 63))).
Proof.
  revert v k. induction n as [|n IH]; intros v k Hk; [lia|]. destruct k as [|k]; [done|].
  cbn [base64_loop]. change ((?a :: ?l) !! S k) with (l !! k). rewrite IH by lia.
  rewrite Z.shiftr_shiftr by lia. by replace (6 + 6 * Z.of_nat k) with (6 * Z.of_nat (S k)) by lia.
Qed.

Lemma base64_length n v : length (base64_loop n v) = n.
Proof. revert v. induction n as [|n IH]; intros v; simpl; [done|]. by rewrite IH. Qed.

Lemma from_base64_loop_spec n v m : Base64Sz Sz = Z.of_nat n -> 0 <= v < 2 ^ Sz -> (m <= n)%nat ->
  from_base64_loop Sz m (Z.of_nat n - Z.of_nat m) (base64_loop n v) (Z.shiftr v (6 * Z.of_nat m)) = Ret v.
Proof.
  intros Hn Hv. induction m as [|m IH]; intros Hm; [by rewrite Z.shiftr_0_r|]. cbn [from_base64_loop].
  rewrite Hn. replace (Z.to_nat (Z.of_nat n - (Z.of_nat n - Z.of_nat (S m)) - 1)) with m by lia.
  rewrite base64_loop_lookup by lia. change 63 with (Z.ones 6). pose proof (digit_range v (6 * Z.of_nat m) 6 ltac:(lia)).
  rewrite u8_small by lia. rewrite base64_digit_val by lia. cbn -[u8 uwrap Z.mul Z.sub Z.ones].
  replace (Z.of_nat (S m)) with (Z.of_nat m + 1) by lia.
  rewrite digit_step; [|lia|lia|split; [lia|apply pow_Sz_ValW; lia]|destruct ValW_cases; lia].
  replace (Z.of_nat n - (Z.of_nat m + 1) + 1) with (Z.of_nat n - Z.of_nat m) by lia. apply IH. lia.
Qed.

Lemma digits_zero w n v : 0 < w -> Sz <= w * n -> 0 <= n -> 0 <= v < 2 ^ Sz -> Z.shiftr v (w * n) = 0.
Proof.
  intros Hw Hn Hn0 Hv. rewrite Z.shiftr_div_pow2 by nia. apply Z.div_small. split; [lia|].
  assert (2 ^ Sz <= 2 ^ (w * n)) by (apply Z.pow_le_mono_r; lia). lia.
Qed.

Lemma hex_back v : 0 <= v < 2 ^ Sz -> s_from_hex Sz (hex Sz v) = Ret v.
Proof.
  intros Hv. pose proof (div_up_ge Sz 8 ltac:(lia) ltac:(lia)) as H8. unfold s_from_hex, hex.
  assert (HexSz Sz / 2 = div_up Sz 8) as Hq by (unfold HexSz; by rewrite Z.div_mul).
  rewrite hex_length, Hq. set (n := Z.to_nat (div_up Sz 8)).
  assert (HexSz Sz = 2 * Z.of_nat n) as Hn by (unfold HexSz, n; lia).
  rewrite (proj2 (Z.eqb_eq _ _)) by lia. cbn -[from_hex_loop].
  pose proof (from_hex_loop_spec n v n Hn Hv ltac:(lia)) as Hs. rewrite Z.sub_diag in Hs.
  by rewrite (digits_zero 8 (Z.of_nat n)) in Hs by (unfold n; lia).
Qed.

Lemma base64_back v : 0 <= v < 2 ^ Sz -> s_from_base64 Sz (base64 Sz v) = Ret v.
Proof.
  intros Hv. pose proof (div_up_ge Sz 6 ltac:(lia) ltac:(lia)) as H6. unfold s_from_base64, base64.
  rewrite base64_length. set (n := Z.to_nat (Base64Sz Sz)).
  assert (Base64Sz Sz = Z.of_nat n) as Hn by (unfold n, Base64Sz; lia).
  rewrite (proj2 (Z.eqb_eq _ _)) by lia. cbn -[from_base64_loop].
  pose proof (from_base64_loop_spec n v n Hn Hv ltac:(lia)) as Hs. rewrite Z.sub_diag in Hs.
  by rewrite (digits_zero 6 (Z.of_nat n)) in Hs by (unfold n, Base64Sz; lia).
Qed.

(** Both texts of a checksum are read back to the same value, whatever the number of bits. *)
Theorem crc_text_roundtrip v : 0 <= v < 2 ^ Sz ->
  s_from_hex Sz (hex Sz v) = Ret v /\ s_from_base64 Sz (base64 Sz v) = Ret v.
Proof. intros Hv. split; [by apply hex_back|by apply base64_back]. Qed.
End text.

(** ** What accesses see *)

(** Checksums that stand for a precise content: no file, an empty file or a digest *)
Definition content (v : Z) : Prop := v = None \/ v = Empty \/ NSpecial <= v < 2 ^ 64.

(** What each access sees of a file: symbolic links are not seen by [open], regular files are not
    seen by [readlink], and [stat] only sees whether there is a file *)
Definition sees (access v : Z) : option Z :=
  if access =? Access.Lnk then if is_lnk v then Some v else Datatypes.None
  else if access =? Access.Reg then if is_reg v then Some v else Datatypes.None
  else if v =? None then Datatypes.None else Some 0.

Lemma content_cases v : content v ->
  v = None \/ (v <> None /\ valid v = true /\ (is_lnk v = true /\ is_reg v = false \/ is_lnk v = false /\ is_reg v = true)).
Proof.
  intros [->|[->|Hv]]; [by left|right; split; [done|]; split; [done|by right]|right].
  unfold valid, Valid, is_lnk, is_reg, _plain, None, NSpecial in *.
  rewrite !(proj2 (Z.leb_le _ _)) by lia. split_and!; [lia|done|].
  destruct (Z.eqb_spec (Z.land v 1) 0); [by right|by left].
Qed.

Lemma content_valid v : content v -> valid v = true.
Proof. intros [->|[->|Hv]]; [done|done|]. unfold valid, Valid, None, NSpecial in *. apply Z.leb_le. lia. Qed.

Lemma content_diff v w : content v -> content w -> u64 (Z.lxor v w) = 0 -> v = w.
Proof.
  intros Hv Hw Hx.
  assert (forall z, content z -> 0 <= z < 2 ^ 64) as Hr.
  { intros z [->|[->|Hz]]; unfold None, Empty, NSpecial in *; lia. }
  apply Hr in Hv, Hw. apply Z.lxor_eq_0_iff. apply Z.bits_inj'. intros i Hi. rewrite Z.bits_0.
  destruct (Z.lt_ge_cases i 64).
  - rewrite <- (Z.mod_pow2_bits_low _ 64) by lia. unfold u64, uwrap in Hx. by rewrite Hx, Z.bits_0.
  - rewrite Z.lxor_spec, <- (Z.mod_small v (2 ^ 64)), <- (Z.mod_small w (2 ^ 64)), !Z.mod_pow2_bits_high by lia. done.
Qed.

(** [diff_accesses] returns exactly the accesses that see a difference between two contents,
    among those that look at the file; it stops only on distinct digests that agree on all the bits
    it checks. *)
Theorem diff_accesses_exact v w : content v -> content w ->
  match diff_accesses 64 v w with
  | Ret d => forall e, e = Access.Lnk \/ e = Access.Reg \/ e = Access.Stat ->
      BitMap.mem e d = true <-> sees e v <> sees e w
  | Throw _ => False
  | Crash => v <> w /\ Z.land (Z.lxor v w) (ChkMsk 64) = 0
  end.
Proof.
  intros Hv Hw. unfold diff_accesses. rewrite (content_valid v Hv), (content_valid w Hw). cbn [andb].
  destruct (Z.eqb_spec (u64 (Z.lxor v w)) 0) as [Hd|Hd].
  { apply content_diff in Hd as ->; [|done|done]. intros e _. change (BitMap.mem e 0) with (BitMap.mem e 0).
    split; [|done]. unfold BitMap.mem. by rewrite Z.shiftr_0_l. }
  assert (v <> w) as Hne by (intros ->; by rewrite Z.lxor_nilpotent in Hd).
  destruct (_ && _)%bool eqn:Hc.
  { apply andb_true_iff in Hc as [Hc _]. apply Z.eqb_eq in Hc. split; [done|].
    apply Z.bits_inj'. intros i Hi. rewrite Z.bits_0, Z.land_spec.
    destruct (Z.lt_ge_cases i 64) as [Hlt|Hge].
    - rewrite <- (Z.mod_pow2_bits_low (Z.lxor v w) 64) by lia. rewrite <- Z.land_spec.
      unfold u64, uwrap in Hc. by rewrite Hc, Z.bits_0.
    - assert (Z.testbit (ChkMsk 64) i = false) as ->; [|by rewrite andb_false_r].
      apply Z.bits_above_log2; [by vm_compute|]. change (Z.log2 (ChkMsk 64)) with 55. lia. }
  intros e He. unfold sees.
  destruct (content_cases v Hv) as [->|(Hv0 & _ & Hv1)], (content_cases w Hw) as [->|(Hw0 & _ & Hw1)]; [done| | |].
  all: rewrite ?(proj2 (Z.eqb_neq v None)), ?(proj2 (Z.eqb_neq w None)) by done.
  all: destruct_or?; destruct_and?; simplify_eq.
  all: repeat match goal with H : is_lnk _ = _ |- _ => rewrite H; clear H | H : is_reg _ = _ |- _ => rewrite H; clear H end.
  all: vm_compute; naive_solver congruence.
Qed.

Lemma diff_accesses_exact_witness :
  diff_accesses 64 None Empty = Ret 14 /\ (BitMap.mem Access.Stat 14 = true <-> sees Access.Stat None <> sees Access.Stat Empty).
Proof.
  split; [by vm_compute|].
  pose proof (diff_accesses_exact None Empty (or_introl eq_refl) (or_intror (or_introl eq_refl))) as H.
  change (diff_accesses 64 None Empty) with (Ret 14) in H. apply H. by right; right.
Defined.

Lemma crc_text_roundtrip_witness :
  s_from_hex 64 (hex 64 81985529216486895) = Ret 81985529216486895 /\
  s_from_base64 64 (base64 64 81985529216486895) = Ret 81985529216486895.
Proof. apply (crc_text_roundtrip 64 ltac:(lia)). lia. Defined.
End Crc.
