(* ===== verification/CacheMatch.v ===== *)
(** * Matching of dependencies in the cache: src/cache/cache_utils.cc and src/cache/engine.cc.

    When a run is uploaded, the checksum of each dependency is generalised to what the job really saw
    of it. A download hits when the dependencies of the repository are compatible with these. *)
From Stdlib Require Import Sorted.
From S2P Require Import Prelude.
From S2P Require Import Arith.
From S2P Require Import Enum.
From S2P Require Import Crc.
Local Open Scope Z_scope.

Module CacheCrc.

(** [CrcOrNone] and [CrcErr] *)
Definition CrcOrNone : Z := Z.shiftl 1 (n_bits Crc.NSpecial).
Definition CrcErr : Z := Z.shiftl 1 (n_bits Crc.NSpecial + 1).

(** [crc_ok(cache_crc,repo_crc)] *)
Definition crc_ok (cache_crc repo_crc : Z) : outcome bool :=
  let strip v := Z.land v (Z.lnot (Z.lor CrcOrNone CrcErr)) in
  let cc := strip cache_crc in
  if Crc.valid cc then Ret (repo_crc =? cache_crc)
  else if negb (Z.land cache_crc CrcErr =? Z.land repo_crc CrcErr) then Ret false
  else
    let rc := strip repo_crc in
    if Crc.valid rc then
      if negb (Z.land cache_crc CrcOrNone =? 0) && (repo_crc =? Crc.None) then Ret true
      else if cc =? Crc.Unknown then Ret (negb (repo_crc =? Crc.None))
      else if cc =? Crc.Lnk then Ret (Crc.is_lnk repo_crc)
      else if cc =? Crc.Reg then Ret (Crc.is_reg repo_crc)
      else Crash
    else
      if negb (Z.land cache_crc CrcOrNone =? 0) && negb (Z.land repo_crc CrcOrNone =? 0) then Ret true
      else if cc =? Crc.Unknown then Ret true
      else if cc =? Crc.Lnk then Ret ((rc =? Crc.Lnk) || (rc =? Crc.Unknown))
      else if cc =? Crc.Reg then Ret ((rc =? Crc.Reg) || (rc =? Crc.Unknown))
      else Crash.

(** The generalisation in [CompileDigest(repo_deps,for_download)] of the checksum of a dependency
    accessed with [a] *)
Definition generalise (a crc : Z) : Z :=
  let s := BitMap.inter a (BitMap.of_list [Access.Lnk; Access.Reg; Access.Stat]) in
  if s =? BitMap.of_list [] then Z.lor Crc.Unknown CrcOrNone
  else if s =? BitMap.of_list [Access.Lnk] then if negb (Crc.is_lnk crc) then Z.lor Crc.Reg CrcOrNone else crc
  else if s =? BitMap.of_list [Access.Reg] then if negb (Crc.is_reg crc) then Z.lor Crc.Lnk CrcOrNone else crc
  else if s =? BitMap.of_list [Access.Stat] then if negb (crc =? Crc.None) then Crc.Unknown else crc
  else if s =? BitMap.of_list [Access.Lnk; Access.Stat] then if Crc.is_reg crc then Crc.Reg else crc
  else if s =? BitMap.of_list [Access.Reg; Access.Stat] then if Crc.is_lnk crc then Crc.Lnk else crc
  else crc.

(** The bit that records a sensed error *)
Definition set_err (err : bool) (crc : Z) : Z :=
  if err then Z.lor crc CrcErr else Z.land crc (Z.lnot CrcErr).

(** Checksum kept for a dependency with accesses [a] and error status [err] *)
Definition dep_crc (for_download : bool) (a : Z) (err : bool) (crc : Z) : Z :=
  let crc := if for_download then crc else generalise a crc in
  set_err (err && BitMap.mem Access.Err a) crc.

(** ** What the stored checksums mean *)

(** Contents, digests being away from the small values used as codes *)
Definition content (v : Z) : Prop := v = Crc.None \/ v = Crc.Empty \/ 32 <= v < 2 ^ 64.

(** The job cannot tell the two contents apart *)
Definition same_seen (a c c' : Z) : bool :=
  forallb (fun e => negb (BitMap.mem e a) || bool_decide (Crc.sees e c = Crc.sees e c')) [Access.Lnk; Access.Reg; Access.Stat].

Lemma ge_32 x : 32 <= x <-> 1 <= Z.shiftr x 5.
Proof.
  rewrite Z.shiftr_div_pow2 by lia. change (2 ^ 5) with 32. split; intros H.
  - apply Z.div_le_lower_bound; lia.
  - pose proof (Z.mul_div_le x 32). lia.
Qed.

(** Facts about a stored digest *)
Lemma digest_facts (e : bool) v : 32 <= v -> let r := set_err e v in
  32 <= r /\ 32 <= Z.land r (Z.lnot 24) /\ Z.land r 1 = Z.land v 1 /\ Z.land r 16 = (if e then 16 else 0).
Proof.
  intros Hv r. assert (Z.shiftr r 5 = Z.shiftr v 5) as Hs.
  { unfold r, set_err. change CrcErr with 16. destruct e.
    - rewrite Z.shiftr_lor. by rewrite Z.lor_0_r.
    - rewrite Z.shiftr_land. change (Z.shiftr (Z.lnot 16) 5) with (-1). by rewrite Z.land_m1_r. }
  split; [apply ge_32; rewrite Hs; by apply ge_32|]. split.
  { apply ge_32. rewrite Z.shiftr_land. change (Z.shiftr (Z.lnot 24) 5) with (-1). rewrite Z.land_m1_r, Hs. by apply ge_32. }
  unfold r, set_err. change CrcErr with 16. destruct e.
  - rewrite !Z.land_lor_distr_l. change (Z.land 16 1) with 0. change (Z.land 16 16) with 16. rewrite Z.lor_0_r. split; [done|].
    rewrite Z.lor_comm. apply Z.bits_inj'. intros i Hi.
    rewrite Z.lor_spec, Z.land_spec. destruct (Z.testbit 16 i), (Z.testbit v i); done.
  - rewrite <- !Z.land_assoc. change (Z.land (Z.lnot 16) 1) with 1. change (Z.land (Z.lnot 16) 16) with 0.
    rewrite Z.land_0_r. done.
Qed.

(** What the download side sees of a content is kept by the stored value, unless a missing file is in error. *)
Lemma stored_facts (e : bool) v : content v -> e = false \/ v <> Crc.None -> let r := set_err e v in
  Crc.valid (Z.land r (Z.lnot 24)) = true /\ Crc.is_lnk r = Crc.is_lnk v /\ Crc.is_reg r = Crc.is_reg v /\
  (r =? Crc.None) = (v =? Crc.None) /\ Z.land r 16 = (if e then 16 else 0).
Proof.
  intros Hv Hn. destruct Hv as [->|[->|Hv]].
  - destruct Hn as [->|?]; [by vm_compute|done].
  - destruct e; by vm_compute.
  - destruct (digest_facts e v ltac:(lia)) as (H1 & H2 & H3 & H4). cbv zeta in *. set (r := set_err e v) in *.
    unfold Crc.valid, Crc.Valid, Crc.is_lnk, Crc.is_reg, Crc._plain, Crc.NSpecial, Crc.None.
    rewrite !(proj2 (Z.leb_le _ _)), H3 by lia. split_and!; try done.
    rewrite !(proj2 (Z.eqb_neq _ _)) by lia. done.
Qed.

(** A code with a special base compares by what it stands for. *)
Lemma crc_ok_code s (o e e' : bool) c' : s = Crc.Unknown \/ s = Crc.Lnk \/ s = Crc.Reg ->
  content c' -> e' = false \/ c' <> Crc.None ->
  crc_ok (set_err e (Z.lor s (if o then CrcOrNone else 0))) (set_err e' c') = Ret (Bool.eqb e e' &&
    ((o && (c' =? Crc.None)) ||
     (if s =? Crc.Unknown then negb (c' =? Crc.None) else if s =? Crc.Lnk then Crc.is_lnk c' else Crc.is_reg c'))).
Proof.
  intros Hs Hc Hn. destruct (stored_facts e' c' Hc Hn) as (H1 & H2 & H3 & H4 & H5). cbv zeta in *.
  unfold crc_ok. change (Z.lor CrcOrNone CrcErr) with 24. set (r := set_err e' c') in *. rewrite H1, H2, H3, H4.
  change CrcErr with 16 in *. rewrite H5.
  destruct Hs as [->|[->| ->]], o, e, e'; cbn; by destruct (c' =? Crc.None), (Crc.is_lnk c'), (Crc.is_reg c').
Qed.

Lemma set_err_bit (e : bool) v : Z.land (set_err e v) 16 = if e then 16 else 0.
Proof.
  unfold set_err. change CrcErr with 16. destruct e.
  - apply Z.bits_inj'. intros i Hi. rewrite Z.land_spec, Z.lor_spec. by destruct (Z.testbit 16 i), (Z.testbit v i).
  - rewrite <- Z.land_assoc. by rewrite Z.land_0_r.
Qed.

Lemma set_err_strip (e : bool) v : Z.land (set_err e v) (Z.lnot 16) = Z.land v (Z.lnot 16).
Proof.
  unfold set_err. change CrcErr with 16. destruct e.
  - rewrite Z.land_lor_distr_l. by rewrite Z.lor_0_r.
  - by rewrite <- Z.land_assoc.
Qed.

(** A content is compared exactly, the error bit included. *)
Lemma crc_ok_exact (e e' : bool) c c' : content c -> (Z.land c (Z.lnot 16) = Z.land c' (Z.lnot 16) -> c = c') ->
  crc_ok (set_err e c) (set_err e' c') = Ret (Bool.eqb e e' && (c =? c')).
Proof.
  intros Hc Hclash. unfold crc_ok. change (Z.lor CrcOrNone CrcErr) with 24.
  assert (Crc.valid (Z.land (set_err e c) (Z.lnot 24)) = true) as ->.
  { destruct Hc as [->|[->|Hc]]; [by destruct e|by destruct e|].
    destruct (digest_facts e c ltac:(lia)) as (_ & H2 & _). unfold Crc.valid, Crc.Valid, Crc.None. apply Z.leb_le. lia. }
  f_equal. apply eq_bool_prop_intro. rewrite !Is_true_true, andb_true_iff, !Z.eqb_eq, Bool.eqb_true_iff. split.
  - intros H. pose proof (set_err_bit e c) as H1. pose proof (set_err_bit e' c') as H2. rewrite H in H2.
    pose proof (set_err_strip e c) as H3. pose proof (set_err_strip e' c') as H4. rewrite H in H4.
    split; [destruct e, e'; congruence|]. apply Hclash. congruence.
  - by intros [-> ->].
Qed.

Lemma content_kinds v : content v -> v = Crc.None \/ v <> Crc.None /\
  (Crc.is_lnk v = true /\ Crc.is_reg v = false \/ Crc.is_lnk v = false /\ Crc.is_reg v = true).
Proof.
  intros Hv. destruct (Crc.content_cases v) as [?|(? & _ & ?)]; [|by left|by right].
  destruct Hv as [->|[->|Hv]]; [by left|by right; left|right; right]. unfold Crc.NSpecial. lia.
Qed.

Lemma accesses_cases a : 0 <= a < 16 -> exists n, (n < 16)%nat /\ a = Z.of_nat n.
Proof. intros Ha. exists (Z.to_nat a). lia. Qed.

Lemma err_code (e : bool) s o : set_err e (Z.lor s (if o : bool then CrcOrNone else 0)) =
  set_err e (if o then Z.lor s CrcOrNone else s).
Proof. destruct o; [done|by rewrite Z.lor_0_r]. Qed.

(** Comparing what is seen, on booleans *)
Lemma some_eq_dec (b b' : bool) (c c' : Z) :
  bool_decide ((if b then Some c else None) = (if b' then Some c' else None)) = if b then b' && (c =? c') else negb b'.
Proof.
  destruct b, b'; simpl; try done. destruct (Z.eqb_spec c c') as [->|]; case_bool_decide; naive_solver.
Qed.

Lemma same_seen_bool a c c' : same_seen a c c' =
  (negb (BitMap.mem Access.Lnk a) || (if Crc.is_lnk c then Crc.is_lnk c' && (c =? c') else negb (Crc.is_lnk c'))) &&
  ((negb (BitMap.mem Access.Reg a) || (if Crc.is_reg c then Crc.is_reg c' && (c =? c') else negb (Crc.is_reg c'))) &&
   (negb (BitMap.mem Access.Stat a) || Bool.eqb (c =? Crc.None) (c' =? Crc.None))).
Proof.
  unfold same_seen. cbn [forallb]. rewrite andb_true_r.
  assert (forall v, Crc.sees Access.Lnk v = if Crc.is_lnk v then Some v else None) as Hl by done.
  assert (forall v, Crc.sees Access.Reg v = if Crc.is_reg v then Some v else None) as Hr by done.
  assert (forall v, Crc.sees Access.Stat v = if v =? Crc.None then None else Some 0) as Hs by done.
  rewrite !Hl, !Hr, !Hs, !some_eq_dec. do 3 f_equal.
  by destruct (c =? Crc.None), (c' =? Crc.None); case_bool_decide.
Qed.

Lemma generalise_bool a c : 0 <= a < 16 -> generalise a c =
  match BitMap.mem Access.Lnk a, BitMap.mem Access.Reg a, BitMap.mem Access.Stat a with
  | false, false, false => Z.lor Crc.Unknown CrcOrNone
  | true, false, false => if Crc.is_lnk c then c else Z.lor Crc.Reg CrcOrNone
  | false, true, false => if Crc.is_reg c then c else Z.lor Crc.Lnk CrcOrNone
  | false, false, true => if c =? Crc.None then c else Crc.Unknown
  | true, false, true => if Crc.is_reg c then Crc.Reg else c
  | false, true, true => if Crc.is_lnk c then Crc.Lnk else c
  | true, true, _ => c
  end.
Proof.
  intros Ha. destruct (accesses_cases a Ha) as (n & Hn & ->). unfold generalise.
  generalize (Crc.is_lnk c), (Crc.is_reg c), (c =? Crc.None). intros l r z.
  do 16 (destruct n as [|n]; [by destruct l, r, z|]). lia.
Qed.

(** Outside a missing file in error, and for digests that do not clash on the bit used for errors *)
Lemma dep_crc_plain a err c a' err' c' : 0 <= a < 16 -> content c -> content c' ->
  (Z.land c (Z.lnot CrcErr) = Z.land c' (Z.lnot CrcErr) -> c = c') ->
  (err' && BitMap.mem Access.Err a')%bool = false \/ c' <> Crc.None ->
  crc_ok (dep_crc false a err c) (dep_crc true a' err' c') =
  Ret (Bool.eqb (err && BitMap.mem Access.Err a) (err' && BitMap.mem Access.Err a') && same_seen a c c').
Proof.
  intros Ha Hc Hc' Hclash Hn. unfold dep_crc.
  set (e := (err && _)%bool). set (e' := (err' && BitMap.mem Access.Err a')%bool) in *. clearbody e e'.
  pose proof (crc_ok_exact e e' c c' Hc Hclash) as Hex.
  pose proof (fun s o Hs => crc_ok_code s o e e' c' Hs Hc' Hn) as Hcode. setoid_rewrite err_code in Hcode.
  pose proof (Hcode Crc.Unknown true ltac:(auto)) as H0o. pose proof (Hcode Crc.Unknown false ltac:(auto)) as H0.
  pose proof (Hcode Crc.Lnk true ltac:(auto)) as H1o. pose proof (Hcode Crc.Lnk false ltac:(auto)) as H1.
  pose proof (Hcode Crc.Reg true ltac:(auto)) as H2o. pose proof (Hcode Crc.Reg false ltac:(auto)) as H2.
  clear Hcode Hclash. rewrite same_seen_bool, generalise_bool by done.
  assert (c = c' \/ (c =? c') = false) as Heq by (destruct (Z.eqb_spec c c'); auto).
  pose proof (content_kinds c Hc) as Hk. pose proof (content_kinds c' Hc') as Hk'. clear Hc Hc' Hn Ha.
  destruct (BitMap.mem Access.Lnk a), (BitMap.mem Access.Reg a), (BitMap.mem Access.Stat a); cbn [negb orb andb].
  all: destruct Hk as [->|(Hc0 & [[HL HR]|[HL HR]])], Hk' as [->|(Hc0' & [[HL' HR']|[HL' HR']])].
  all: rewrite ?HL, ?HR, ?(proj2 (Z.eqb_neq c Crc.None)) by done.
  all: rewrite ?HL', ?HR', ?(proj2 (Z.eqb_neq c' Crc.None)) in * by done.
  all: try change (Crc.is_lnk Crc.None) with false; try change (Crc.is_reg Crc.None) with false; cbn [negb andb].
  all: (etransitivity; [first [exact Hex | exact H0o | exact H0 | exact H1o | exact H1 | exact H2o | exact H2]|]).
  all: f_equal; f_equal.
  all: destruct Heq as [Heq|Heq]; [try (exfalso; congruence)|]; rewrite ?Heq, ?Z.eqb_refl; try done.
Qed.

(** The digest without the bit used for errors *)
Definition blind (c : Z) : Z := Z.land c (Z.lnot CrcErr).

Lemma blind_content c : content c -> content (blind c) /\ Crc.is_lnk (blind c) = Crc.is_lnk c /\
  Crc.is_reg (blind c) = Crc.is_reg c /\ (blind c =? Crc.None) = (c =? Crc.None).
Proof.
  intros Hc. destruct (stored_facts false c Hc (or_introl eq_refl)) as (_ & H1 & H2 & H3 & _).
  split_and!; [|done|done|done]. destruct Hc as [->|[->|Hc]]; [by left|by right; left|right; right].
  destruct (digest_facts false c ltac:(lia)) as [H4 _]. split; [exact H4|].
  assert (c = Z.land c (Z.ones 64)) as Hm by (rewrite Z.land_ones by lia; rewrite Z.mod_small by lia; done).
  unfold blind. rewrite Hm, <- Z.land_assoc, (Z.land_comm (Z.ones 64)), Z.land_assoc, Z.land_ones by lia.
  apply Z.mod_pos_bound. lia.
Qed.

Lemma blind_idem (e : bool) c : set_err e (blind c) = set_err e c.
Proof.
  unfold set_err, blind. change CrcErr with 16. destruct e.
  - apply Z.bits_inj'. intros i Hi. rewrite !Z.lor_spec, Z.land_spec, Z.lnot_spec by done.
    by destruct (Z.testbit c i), (Z.testbit 16 i).
  - by rewrite <- Z.land_assoc.
Qed.

Lemma blind_dep_crc fd a err c : 0 <= a < 16 -> content c -> dep_crc fd a err (blind c) = dep_crc fd a err c.
Proof.
  intros Ha Hc. unfold dep_crc. destruct fd; [apply blind_idem|]. rewrite !generalise_bool by done.
  destruct (blind_content c Hc) as (_ & -> & -> & ->). repeat case_match; (done || apply blind_idem).
Qed.

(** How a repository file both missing and in error is misjudged: [crc_ok] no more recognises [Crc::None]
    once the error bit is set, and takes it as a symbolic link *)
Definition misjudged (a c : Z) : bool :=
  match BitMap.mem Access.Lnk a, BitMap.mem Access.Reg a, BitMap.mem Access.Stat a with
  | true, false, false => negb (Crc.is_lnk c)
  | false, false, true => negb (c =? Crc.None)
  | false, true, true => Crc.is_lnk c
  | _, _, _ => false
  end.

Lemma dep_crc_missing a e c : 0 <= a < 16 -> content c -> blind c = c ->
  crc_ok (set_err e (generalise a c)) (set_err true Crc.None) =
  Ret (Bool.eqb e true && xorb (same_seen a c Crc.None) (misjudged a c)).
Proof.
  intros Ha Hc Hb.
  assert (crc_ok (set_err e c) (set_err true Crc.None) = Ret (Bool.eqb e true && (c =? Crc.None))) as Hex.
  { apply crc_ok_exact; [done|]. unfold blind in Hb. change CrcErr with 16 in Hb. by rewrite Hb. }
  rewrite same_seen_bool, generalise_bool by done. unfold misjudged.
  change (Crc.is_lnk Crc.None) with false. change (Crc.is_reg Crc.None) with false. change (Crc.None =? Crc.None) with true.
  destruct (content_kinds c Hc) as [->|(Hc0 & [[HL HR]|[HL HR]])].
  2,3: rewrite ?HL, ?HR in *; rewrite ?(proj2 (Z.eqb_neq c Crc.None)) in * by done.
  all: destruct (BitMap.mem Access.Lnk a), (BitMap.mem Access.Reg a), (BitMap.mem Access.Stat a); cbn [negb andb orb].
  all: first [exact Hex | destruct e; vm_compute; reflexivity].
Qed.

(** C27 Cache soundness and completeness for one dependency: the checksum stored when a run is uploaded
    accepts the content found by a later download exactly when the sensed error statuses agree and the
    accesses of the run cannot tell the two contents apart, digests being compared without the bit used
    for errors. The one exception is a repository file that is both missing and in error: there the
    answer is inverted in the three cases of [misjudged]: a run that only looked for a link and saw none
    is refused; one that only sensed that the file exists is accepted, as is one that sensed by [open]
    and [stat] that it is a link.
    A content is no file, an empty file or a digest away from the codes. *)
Theorem dep_crc_exact a err c a' err' c' : 0 <= a < 16 -> 0 <= a' < 16 -> content c -> content c' ->
  let e := (err && BitMap.mem Access.Err a)%bool in
  let e' := (err' && BitMap.mem Access.Err a')%bool in
  crc_ok (dep_crc false a err c) (dep_crc true a' err' c') =
  Ret (Bool.eqb e e' && xorb (same_seen a (blind c) (blind c')) (e' && (c' =? Crc.None) && misjudged a c)).
Proof.
  intros Ha Ha' Hc Hc'. cbv zeta. destruct (blind_content c Hc) as (Hb & HL & _ & HN).
  destruct (blind_content c' Hc') as (Hb' & _ & _ & HN').
  assert (forall v, blind (blind v) = blind v) as Hbb by (intros v; unfold blind; by rewrite <- Z.land_assoc).
  assert (misjudged a c = misjudged a (blind c)) as -> by (unfold misjudged; by rewrite HL, HN).
  rewrite <- (blind_dep_crc false a err c), <- (blind_dep_crc true a' err' c'), <- HN' by done.
  destruct (decide ((err' && BitMap.mem Access.Err a')%bool = true /\ blind c' = Crc.None)) as [[He Hn]|Hno].
  - rewrite He, Hn. unfold dep_crc at 2. rewrite He. unfold dep_crc. rewrite dep_crc_missing by done. done.
  - rewrite dep_crc_plain; try done.
    + f_equal. f_equal. destruct (err' && _)%bool; [|by rewrite xorb_false_r].
      destruct (Z.eqb_spec (blind c') Crc.None); [naive_solver|]. by rewrite xorb_false_r.
    + fold (blind (blind c)) (blind (blind c')). by rewrite !Hbb.
    + destruct (err' && _)%bool; [right; naive_solver|by left].
Qed.

Lemma dep_crc_exact_witness :
  crc_ok (dep_crc false (BitMap.of_list [Access.Stat]) false 100) (dep_crc true (BitMap.of_list [Access.Stat]) false 200) = Ret true.
Proof.
  rewrite (dep_crc_exact (BitMap.of_list [Access.Stat]) false 100 (BitMap.of_list [Access.Stat]) false 200);
    [reflexivity|vm_compute; split; congruence|vm_compute; split; congruence|right; right; lia|right; right; lia].
Defined.

(** For a file that is missing and in error the comparison is wrong: a run that saw a symbolic link
    in error through [open] and [stat] is accepted although [stat] sees no file. *)
Theorem crc_ok_missing_in_error c : content c -> Crc.is_lnk c = true ->
  let a := BitMap.of_list [Access.Reg; Access.Stat; Access.Err] in
  crc_ok (dep_crc false a true c) (dep_crc true a true Crc.None) = Ret true /\ same_seen a c Crc.None = false.
Proof.
  intros Hc Hl. cbv zeta. unfold dep_crc. rewrite same_seen_bool, generalise_bool by (vm_compute; split; congruence).
  rewrite Hl. split; [by vm_compute|]. destruct (content_kinds c Hc) as [->|(Hn & _)]; [done|].
  rewrite (proj2 (Z.eqb_neq c Crc.None)) by done. by destruct (Crc.is_reg c).
Qed.

Lemma crc_ok_missing_in_error_witness : 
  crc_ok (dep_crc false (BitMap.of_list [Access.Reg; Access.Stat; Access.Err]) true 101)
         (dep_crc true (BitMap.of_list [Access.Reg; Access.Stat; Access.Err]) true Crc.None) = Ret true.
Proof. apply (crc_ok_missing_in_error 101); [right; right; lia|reflexivity]. Defined.
End CacheCrc.

(** ** [CrunData::match] *)

Arguments CacheCrc.crc_ok : simpl never.
Arguments CacheCrc.CrcErr : simpl never.

Lemma sorted_nodup (l : list Z) : StronglySorted Z.lt l -> NoDup l.
Proof.
  induction 1 as [|x l Hs IH Hf]; [constructor|]. constructor; [|done].
  intros Hin. rewrite list.Forall_forall in Hf. pose proof (Hf x Hin). lia.
Qed.

Module CacheRun.

Inductive CacheHitInfo : Type :=
| HitExhaustive | HitHidden | Match | BadDeps | NoJob | NoRule | BadDownload | NoDownload | BadCache | NoCache.

Definition hit_val (h : CacheHitInfo) : Z :=
  match h with
  | HitExhaustive => 0 | HitHidden => 1 | Match => 2 | BadDeps => 3 | NoJob => 4
  | NoRule => 5 | BadDownload => 6 | NoDownload => 7 | BadCache => 8 | NoCache => 9
  end.
(** [h<=CacheHitInfo::Hit] and [h<CacheHitInfo::Miss] *)
Definition is_hit (h : CacheHitInfo) : bool := hit_val h <=? hit_val HitHidden.
Definition is_match (h : CacheHitInfo) : bool := hit_val h <? hit_val BadDeps.

#[export] Instance CacheHitInfo_eq_dec : EqDecision CacheHitInfo.
Proof. solve_decision. Defined.

(** Dependencies of a run or of a request: nodes sorted statics first, then existing ones, then the
    others, with checksums for all but the last group ([CompileDigest]) *)
Record digest := mkDigest { n_statics : nat; has_hidden : bool; deps : list Z; dep_crcs : list Z }.

Section match_.
(** The cached run, and the request *)
Context (run req : digest).

(** [while ( j<lim && deps_[j]<n ) j++] *)
Fixpoint skip (fuel : nat) (lim j : nat) (n : Z) : nat :=
  match fuel with
  | O => j
  | S fuel =>
    if (j <? lim)%nat && match deps req !! j with Some d => d <? n | None => false end then skip fuel lim (S j) n else j
  end.
Definition scan (lim j : nat) (n : Z) : nat := skip (lim - j) lim j n.

(** [j<lim && deps_[j]==n] *)
Definition found (lim j : nat) (n : Z) : bool := (j <? lim)%nat && bool_decide (deps req !! j = Some n).

(** Positions in the request with and without checksum, result so far, [not_found] *)
Record state := mkState { j1 : nat; j2 : nat; res : CacheHitInfo; not_found : Z }.

Abbreviation n1 := (length (dep_crcs req)).
Abbreviation n2 := (length (deps req)).

Definition crc_at (j : nat) : outcome Z := match dep_crcs req !! j with Some c => Ret c | None => Crash end.

(** Result of a node found nowhere in the request *)
Definition missing (n : Z) (s : state) : state :=
  if is_hit (res s) then mkState (j1 s) (j2 s) Match n else s.

(** First loop: static dependencies; [false] for a mismatch *)
Fixpoint chk_statics (k i : nat) : outcome bool :=
  match k with
  | O => Ret true
  | S k =>
    match deps run !! i, deps req !! i, dep_crcs run !! i with
    | Some dv, Some d, Some cv =>
      _ ← swear (dv =? d);
      c ← crc_at i;
      ok ← CacheCrc.crc_ok cv c;
      if ok : bool then chk_statics k (S i) else Ret false
    | _, _, _ => Crash
    end
  end.

(** Body of the second loop, for a dependency [n] that exists with checksum [cv]; no state for a mismatch *)
Definition step_existing (n cv : Z) (s : state) : outcome (option state) :=
  let s := mkState (scan n1 (j1 s) n) (j2 s) (res s) (not_found s) in
  if found n1 (j1 s) n then
    c ← crc_at (j1 s);
    ok ← CacheCrc.crc_ok cv c;
    if ok : bool then Ret (Some (mkState (S (j1 s)) (j2 s) (res s) (not_found s))) else Ret None
  else
    let s := mkState (j1 s) (scan n2 (j2 s) n) (res s) (not_found s) in
    if found n2 (j2 s) n then
      ok ← CacheCrc.crc_ok cv Crc.None;
      if ok : bool then Ret (Some (mkState (j1 s) (S (j2 s)) (res s) (not_found s))) else Ret None
    else Ret (Some (missing n s)).

(** Bodies of the loops over dependencies that do not exist, in the fast and in the general case *)
Definition step_fast (n : Z) (s : state) : outcome (option state) :=
  let s := mkState (j1 s) (scan n2 (j2 s) n) (res s) (not_found s) in
  if found n2 (j2 s) n then Ret (Some (mkState (j1 s) (S (j2 s)) (res s) (not_found s)))
  else Ret (Some (missing n s)).
Definition step_slow (n : Z) (s : state) : outcome (option state) :=
  let s := mkState (scan n1 (j1 s) n) (j2 s) (res s) (not_found s) in
  if found n1 (j1 s) n then
    c ← crc_at (j1 s);
    ok ← CacheCrc.crc_ok Crc.None c;
    if ok : bool then Ret (Some (mkState (S (j1 s)) (j2 s) (res s) (not_found s))) else Ret None
  else step_fast n s.

(** A loop that may return early *)
Fixpoint run_loop {A} (body : A -> state -> outcome (option state)) (l : list A) (s : state) : outcome (option state) :=
  match l with
  | [] => Ret (Some s)
  | x :: l => os ← body x s; match os with Some s => run_loop body l s | None => Ret None end
  end.

(** The dependencies of the run that exist, not counting statics, and those that do not *)
Definition existing : list (Z * Z) :=
  zip (drop (n_statics run) (deps run)) (drop (n_statics run) (dep_crcs run)).
Definition absent : list Z := drop (length (dep_crcs run)) (deps run).

(** [CrunData::match(compile_digest,not_found)]; [n_statics] is that of the job, shared by both *)
Definition match_ : outcome (CacheHitInfo * Z) :=
  let ns := n_statics run in
  _ ← swear ((ns <=? n1)%nat && (n1 <=? n2)%nat);
  _ ← swear ((ns <=? length (dep_crcs run))%nat && (length (dep_crcs run) <=? length (deps run))%nat);
  ok ← chk_statics ns 0;
  if negb ok then Ret (BadDeps, 0)
  else
    os ← run_loop (fun '(n, cv) => step_existing n cv) existing
           (mkState ns n1 (if has_hidden run then HitHidden else HitExhaustive) 0);
    match os with
    | None => Ret (BadDeps, 0)
    | Some s =>
      os ← (if is_hit (res s) && (n1 =? length (dep_crcs run))%nat then
              _ ← swear (j2 s =? n1)%nat;
              run_loop step_fast absent s
            else run_loop step_slow absent (mkState ns n1 (res s) (not_found s)));
      match os with
      | None => Ret (BadDeps, 0)
      | Some s => Ret (res s, not_found s)
      end
    end.

(** ** Specification *)

(** Position of a node in a part of the request *)
Definition pos (lo lim : nat) (n : Z) : option nat :=
  head (filter (fun k => deps req !! k = Some n) (seq lo (lim - lo))).

(** Checksum the request provides for a node, non-existing nodes having [Crc::None] *)
Definition provided (n : Z) : option Z :=
  match pos (n_statics run) n1 n with
  | Some k => dep_crcs req !! k
  | None => match pos n1 n2 n with Some _ => Some Crc.None | None => None end
  end.

Definition okb (cv c : Z) : bool := match CacheCrc.crc_ok cv c with Ret b => b | _ => false end.

(** Whether what the request provides for a dependency suits the run, if it provides anything *)
Definition verdict (d : Z * Z) : option bool := okb d.2 <$> provided d.1.

Definition run_deps : list (Z * Z) := existing ++ ((fun n => (n, Crc.None)) <$> absent).
Definition statics_ok : bool :=
  forallb (fun '(cv, c) => okb cv c) (zip (take (n_statics run) (dep_crcs run)) (take (n_statics run) (dep_crcs req))).

Definition bad {A} (v : A -> option bool) (l : list A) : bool := existsb (fun x => bool_decide (v x = Some false)) l.
Definition miss {A} (v : A -> option bool) (l : list A) : bool := existsb (fun x => bool_decide (v x = None)) l.

Definition spec : CacheHitInfo :=
  if negb statics_ok then BadDeps
  else if bad verdict run_deps then BadDeps
  else if miss verdict run_deps then Match
  else if has_hidden run then HitHidden else HitExhaustive.

(** Digests as the constructor of [CompileDigest] makes them: sorted within each group, no node twice,
    same static dependencies *)
Record wf : Prop := {
  wf_req_lens : (n_statics run <= n1 <= n2)%nat;
  wf_run_lens : (n_statics run <= length (dep_crcs run) <= length (deps run))%nat;
  wf_statics : take (n_statics run) (deps run) = take (n_statics run) (deps req);
  wf_req_1 i j a b : (n_statics run <= i < j)%nat -> (j < n1)%nat -> deps req !! i = Some a -> deps req !! j = Some b -> a < b;
  wf_req_2 i j a b : (n1 <= i < j)%nat -> deps req !! i = Some a -> deps req !! j = Some b -> a < b;
  wf_run_1 : StronglySorted Z.lt existing.*1;
  wf_run_2 : StronglySorted Z.lt absent;
  wf_run_disj n : n ∈ existing.*1 -> n ∉ absent;
  wf_crcs : Forall (fun c => 0 <= c) (dep_crcs run);
}.

Lemma okb_ret cv c : 0 <= cv -> CacheCrc.crc_ok cv c = Ret (okb cv c).
Proof.
  intros Hcv. unfold okb, CacheCrc.crc_ok. change (Z.lor CacheCrc.CrcOrNone CacheCrc.CrcErr) with 24.
  assert (0 <= Z.land cv (Z.lnot 24)) by (apply Z.land_nonneg; auto).
  set (cc := Z.land cv (Z.lnot 24)) in *. unfold Crc.valid, Crc.Valid, Crc.None.
  destruct (Z.leb_spec 3 cc); [done|]. destruct (negb _); [done|].
  unfold Crc.Unknown, Crc.Lnk, Crc.Reg. destruct (Z.leb_spec 3 (Z.land c (Z.lnot 24))).
  all: destruct (_ && _)%bool; [done|].
  all: destruct (Z.eqb_spec cc 0); [done|]; destruct (Z.eqb_spec cc 1); [done|]; destruct (Z.eqb_spec cc 2); [done|lia].
Qed.

Lemma pos_Some lo lim n k : pos lo lim n = Some k -> (lo <= k < lim)%nat /\ deps req !! k = Some n.
Proof.
  unfold pos. intros Hk. destruct (filter _ _) as [|x l] eqn:Hf; [done|]. injection Hk as ->.
  assert (k ∈ filter (fun k => deps req !! k = Some n) (seq lo (lim - lo))) as Hin by (rewrite Hf; left).
  apply list_elem_of_filter in Hin as [? Hin]. apply elem_of_seq in Hin. split; [lia|done].
Qed.

Lemma pos_None lo lim n k : pos lo lim n = None -> (lo <= k < lim)%nat -> deps req !! k <> Some n.
Proof.
  unfold pos. intros Hk Hr Hn. destruct (filter _ _) as [|x l] eqn:Hf; [|done].
  assert (k ∈ filter (fun k => deps req !! k = Some n) (seq lo (lim - lo))) as Hin.
  { apply list_elem_of_filter. split; [done|]. apply elem_of_seq. lia. }
  rewrite Hf in Hin. by apply not_elem_of_nil in Hin.
Qed.

(** ** Scanning a sorted part *)

(** The nodes before [j] are smaller than [n]. *)
Definition ready (lo lim j : nat) (n : Z) : Prop :=
  (lo <= j <= lim)%nat /\ forall k d, (lo <= k < j)%nat -> deps req !! k = Some d -> d < n.

Lemma skip_spec lo lim fuel j n : (lim <= n2)%nat -> ready lo lim j n -> (lim - j <= fuel)%nat ->
  let j' := skip fuel lim j n in
  ready lo lim j' n /\ (j <= j')%nat /\ (j' = lim \/ exists d, deps req !! j' = Some d /\ n <= d).
Proof.
  intros Hl. revert j. induction fuel as [|fuel IH]; intros j [Hj Hr] Hf; simpl.
  { split; [by split|]. split; [done|]. left. lia. }
  destruct (Nat.ltb_spec j lim) as [Hlt|]; simpl; [|split; [by split|]; split; [done|left; lia]].
  destruct (lookup_lt_is_Some_2 (deps req) j) as [d Hd]; [lia|]. rewrite Hd.
  destruct (Z.ltb_spec d n).
  - destruct (IH (S j)) as (? & ? & ?); [|lia|split_and!; [done|lia|done]]. split; [lia|].
    intros k d' Hk Hd'. destruct (decide (k = j)) as [->|]; [congruence|]. apply (Hr k); [lia|done].
  - split; [by split|]. split; [done|]. right. eauto.
Qed.

Lemma scan_pos_spec lo lim j n : (lim <= n2)%nat ->
  (forall i j a b, (lo <= i < j)%nat -> (j < lim)%nat -> deps req !! i = Some a -> deps req !! j = Some b -> a < b) ->
  ready lo lim j n -> let j' := scan lim j n in
  ready lo lim j' n /\ (j <= j')%nat /\
  (if found lim j' n then pos lo lim n = Some j' else pos lo lim n = None).
Proof.
  intros Hl Hs Hr. cbv zeta. unfold scan. destruct (skip_spec lo lim (lim - j) j n Hl Hr ltac:(lia)) as (Hr' & Hle & Hend).
  set (j' := skip (lim - j) lim j n) in *. cbv zeta in *. split_and!; [done|done|]. destruct Hr' as [Hj' Hr'].
  unfold found. destruct (Nat.ltb_spec j' lim) as [Hlt|Hge]; simpl.
  - destruct Hend as [?|(d & Hd & Hdn)]; [lia|]. rewrite Hd. destruct (pos lo lim n) as [k|] eqn:Hp.
    + apply pos_Some in Hp as [Hk Hkn]. destruct (decide (k = j')) as [->|Hne].
      { rewrite bool_decide_eq_true_2 by congruence. done. }
      destruct (Nat.lt_gt_cases k j') as [Hc _]. destruct (Hc Hne) as [Hkj|Hkj].
      * pose proof (Hr' k n ltac:(lia) Hkn). lia.
      * pose proof (Hs j' k d n ltac:(lia) ltac:(lia) Hd Hkn). lia.
    + rewrite bool_decide_eq_false_2; [done|]. intros [= ->]. by apply (pos_None _ _ _ j' Hp); [lia|].
  - destruct (pos lo lim n) as [k|] eqn:Hp; [|done]. exfalso. apply pos_Some in Hp as [Hk Hkn].
    pose proof (Hr' k n ltac:(lia) Hkn). lia.
Qed.

(** ** Loops *)

(** Result after a dependency with verdict [o] *)
Definition demote (o : option bool) (h : CacheHitInfo) : CacheHitInfo :=
  if is_hit h && bool_decide (o = None) then Match else h.

(** What the body of a loop does for [x]: stop on a mismatch, else be ready for greater nodes. A
    position [m] moves only when [c x] does not hold. *)
Definition step_ok {A} (body : A -> state -> outcome (option state)) (key : A -> Z) (v : A -> option bool)
    (R : state -> Z -> Prop) (m : state -> nat) (c : A -> bool) (x : A) : Prop :=
  forall s, R s (key x) -> exists os, body x s = Ret os /\
    if bool_decide (v x = Some false) then os = None
    else exists s', os = Some s' /\ (forall n', key x < n' -> R s' n') /\ res s' = demote (v x) (res s) /\
      (m s <= m s')%nat /\ (v x <> None -> if c x then m s' = m s else (m s < m s')%nat).

Lemma run_loop_spec {A} body key v R m c (l : list A) :
  (forall x, x ∈ l -> step_ok body key v R m c x) -> StronglySorted Z.lt (key <$> l) ->
  forall s, match l with [] => True | x :: _ => R s (key x) end ->
  exists os, run_loop body l s = Ret os /\
    if bad v l then os = None
    else exists s', os = Some s' /\ res s' = (if is_hit (res s) && miss v l then Match else res s) /\
      (m s <= m s')%nat /\ (miss v l = false -> if forallb c l then m s' = m s else (m s < m s')%nat).
Proof.
  induction l as [|x l IH]; intros Hst Hso s Hr.
  { exists (Some s). split; [done|]. simpl. exists s. rewrite andb_false_r. split_and!; [done|done|done|done]. }
  inversion Hso as [|? ? Hso' Hfa]; subst. destruct (Hst x ltac:(left) s Hr) as (os & Hb & Hos). simpl.
  rewrite Hb. simpl. case_bool_decide as Hv; simpl; [exists None; by rewrite Hos|].
  destruct Hos as (s1 & -> & Hr1 & Hres1 & Hm1 & Hc1).
  destruct (IH ltac:(intros; apply Hst; by right) Hso' s1) as (os & -> & Hos).
  { destruct l as [|y l]; [done|]. apply Hr1. simpl in Hfa. by inversion Hfa. }
  exists os. split; [done|]. unfold bad in *. destruct (existsb _ l); [done|].
  destruct Hos as (s2 & -> & Hres2 & Hm2 & Hc2). exists s2. split; [done|]. rewrite Hres2, Hres1. unfold demote.
  split_and!; [|lia|].
  - destruct (is_hit (res s)) eqn:Hh, (bool_decide (v x = None)); simpl; rewrite ?Hh; done.
  - intros Hmi. apply orb_false_iff in Hmi as [Hm0 Hmi]. apply bool_decide_eq_false in Hm0.
    specialize (Hc1 Hm0). specialize (Hc2 Hmi). destruct (c x), (forallb c l); simpl; lia.
Qed.

Context (Hwf : wf).

Abbreviation ns := (n_statics run).

Definition sready (s : state) (n : Z) : Prop := ready ns n1 (j1 s) n /\ ready n1 n2 (j2 s) n.

Lemma ready_lt lo lim j n n' : ready lo lim j n -> n < n' -> ready lo lim j n'.
Proof. intros [Hj Hr] Hn. split; [done|]. intros k d Hk Hd. pose proof (Hr k d Hk Hd). lia. Qed.

Lemma ready_found lo lim j n n' : ready lo lim j n -> pos lo lim n = Some j -> n < n' -> ready lo lim (S j) n'.
Proof.
  intros [Hj Hr] [Hp Hd]%pos_Some Hn. split; [lia|]. intros k d Hk Hk'.
  destruct (decide (k = j)) as [->|]; [simplify_eq; done|]. pose proof (Hr k d ltac:(lia) Hk'). lia.
Qed.

Lemma scan_1 j n : ready ns n1 j n -> let j' := scan n1 j n in
  ready ns n1 j' n /\ (j <= j')%nat /\ (if found n1 j' n then pos ns n1 n = Some j' else pos ns n1 n = None).
Proof. intros. apply scan_pos_spec; [apply Hwf|apply Hwf|done]. Qed.

Lemma scan_2 j n : ready n1 n2 j n -> let j' := scan n2 j n in
  ready n1 n2 j' n /\ (j <= j')%nat /\ (if found n2 j' n then pos n1 n2 n = Some j' else pos n1 n2 n = None).
Proof.
  intros. apply scan_pos_spec; [done| |done]. intros i k a b ? ?. by apply (wf_req_2 Hwf).
Qed.

Lemma crc_at_ok j n : pos ns n1 n = Some j -> exists c, crc_at j = Ret c /\ provided n = Some c.
Proof.
  intros Hp. unfold provided. rewrite Hp. apply pos_Some in Hp as [Hj _].
  destruct (lookup_lt_is_Some_2 (dep_crcs req) j) as [c Hc]; [lia|]. exists c. unfold crc_at. by rewrite Hc.
Qed.

(** Without a checksum in the request *)
Lemma step_fast_ok n : step_ok step_fast id (fun n => match pos n1 n2 n with Some _ => Some true | None => None end)
  (fun s n => ready n1 n2 (j2 s) n) (fun _ => O) (fun _ => true) n.
Proof.
  intros s Hr. unfold step_fast. destruct (scan_2 (j2 s) n Hr) as (Hr' & _ & Hf). cbn [j1 j2 res not_found].
  destruct (found n2 _ n); rewrite Hf; eexists; (split; [done|]); simpl.
  - eexists. split_and!; [done| |by unfold demote; rewrite andb_false_r|lia|done].
    intros n' Hn. by eapply ready_found.
  - eexists. split_and!; [done| | |lia|done].
    + intros n' Hn. unfold missing. simpl. destruct (is_hit (res s)); by eapply ready_lt.
    + unfold missing, demote. simpl. by destruct (is_hit (res s)).
Qed.

Definition in_1 (n : Z) : bool := match pos ns n1 n with Some _ => true | None => false end.

Lemma sready_missing s n n' : sready s n -> n < n' -> sready (missing n s) n'.
Proof. intros [? ?] Hn. unfold missing. destruct (is_hit _); split; by eapply ready_lt. Qed.

Lemma missing_res n s : res (missing n s) = demote None (res s).
Proof. unfold missing, demote. simpl. by destruct (is_hit (res s)). Qed.

Lemma demote_Some b h : demote (Some b) h = h.
Proof. unfold demote. by rewrite andb_false_r. Qed.

Lemma step_existing_ok d : 0 <= d.2 ->
  step_ok (fun '(n, cv) => step_existing n cv) fst verdict sready j2 (fun d => in_1 d.1) d.
Proof.
  destruct d as [n cv]. simpl. intros Hcv s [Hr1 Hr2]. simpl in *. unfold step_existing. cbn [j1 j2 res not_found].
  destruct (scan_1 (j1 s) n Hr1) as (Hr1' & _ & Hf1). unfold verdict, in_1. cbn [fst snd].
  destruct (found n1 _ n).
  - destruct (crc_at_ok _ _ Hf1) as (c & -> & ->). simpl. rewrite okb_ret by done. simpl.
    destruct (okb cv c); simpl; [|by exists None]. eexists. split; [done|]. eexists. rewrite demote_Some, Hf1.
    split_and!; [done| |done|simpl; lia|done]. intros n' Hn. split; simpl; [by eapply ready_found|by eapply ready_lt].
  - unfold provided. rewrite Hf1. destruct (scan_2 (j2 s) n Hr2) as (Hr2' & Hle & Hf2).
    destruct (found n2 _ n); rewrite Hf2; simpl.
    + rewrite okb_ret by done. simpl. destruct (okb cv Crc.None); simpl; [|by exists None].
      eexists. split; [done|]. eexists. rewrite demote_Some. split_and!; [done| |done|simpl; lia|simpl; lia].
      intros n' Hn. split; simpl; [by eapply ready_lt|by eapply ready_found].
    + eexists. split; [done|]. eexists. rewrite missing_res. split_and!; [done| |done| |done].
      * intros n' Hn. by eapply sready_missing.
      * unfold missing. simpl. destruct (is_hit (res s)); simpl; lia.
Qed.

Lemma step_slow_ok n : step_ok step_slow id (fun n => verdict (n, Crc.None)) sready (fun _ => O) (fun _ => true) n.
Proof.
  intros s [Hr1 Hr2]. unfold id in *. unfold step_slow. cbn [j1 j2 res not_found].
  destruct (scan_1 (j1 s) n Hr1) as (Hr1' & _ & Hf1). unfold verdict. cbn [fst snd].
  destruct (found n1 _ n).
  - destruct (crc_at_ok _ _ Hf1) as (c & -> & ->). cbn [mbind outcome_mbind]. rewrite okb_ret by done. cbn [mbind outcome_mbind option_fmap fmap option_map].
    destruct (okb Crc.None c); simpl; [|by exists None]. eexists. split; [done|]. eexists. rewrite demote_Some.
    split_and!; [done| |done|lia|done]. intros n' Hn. split; simpl; [by eapply ready_found|by eapply ready_lt].
  - unfold provided, step_fast. rewrite Hf1. destruct (scan_2 (j2 s) n Hr2) as (Hr2' & _ & Hf2). cbn [j1 j2 res not_found].
    destruct (found n2 _ n); rewrite Hf2; simpl.
    + eexists. split; [done|]. eexists. rewrite demote_Some. split_and!; [done| |done|lia|done].
      intros n' Hn. split; simpl; [by eapply ready_lt|by eapply ready_found].
    + eexists. split; [done|]. eexists. rewrite missing_res. split_and!; [done| |done|lia|done].
      intros n' Hn. by eapply sready_missing.
Qed.

Lemma chk_statics_spec k i : (k + i = ns)%nat -> chk_statics k i =
  Ret (forallb (fun '(cv, c) => okb cv c) (zip (drop i (take ns (dep_crcs run))) (drop i (take ns (dep_crcs req))))).
Proof.
  destruct Hwf as [Hl1 Hl2 Hst _ _ _ _ _ Hc]. revert i. induction k as [|k IH]; intros i Hi.
  { rewrite !(drop_ge _ i) by (rewrite length_take; lia). done. }
  simpl. destruct (lookup_lt_is_Some_2 (deps run) i) as [dv Hdv]; [lia|].
  destruct (lookup_lt_is_Some_2 (deps req) i) as [d Hd]; [lia|].
  destruct (lookup_lt_is_Some_2 (dep_crcs run) i) as [cv Hcv]; [lia|].
  destruct (lookup_lt_is_Some_2 (dep_crcs req) i) as [c Hcr]; [lia|].
  rewrite Hdv, Hd, Hcv. unfold crc_at. rewrite Hcr.
  assert (dv = d) as ->.
  { apply (f_equal (.!! i)) in Hst. rewrite !lookup_take_lt in Hst by lia. congruence. }
  rewrite Z.eqb_refl. cbn [swear mbind outcome_mbind].
  assert (0 <= cv) as Hcv0 by (by eapply Forall_lookup_1 in Hc).
  rewrite okb_ret by done. cbn [mbind outcome_mbind].
  rewrite (drop_S (take ns (dep_crcs run)) cv i) by (by rewrite lookup_take_lt by lia).
  rewrite (drop_S (take ns (dep_crcs req)) c i) by (by rewrite lookup_take_lt by lia).
  simpl. destruct (okb cv c); [|done]. simpl. rewrite IH by lia. done.
Qed.

Lemma existing_crc d : d ∈ existing -> 0 <= d.2.
Proof.
  intros Hin. apply list_elem_of_lookup in Hin as [k Hk]. unfold existing in Hk. rewrite lookup_zip_with in Hk.
  destruct (drop ns (deps run) !! k); [|done]. destruct (drop ns (dep_crcs run) !! k) as [c|] eqn:Hc; [|done].
  simpl in Hk. simplify_eq. rewrite lookup_drop in Hc. pose proof (wf_crcs Hwf) as Hf. by eapply Forall_lookup_1 in Hf.
Qed.

(** When all dependencies that exist for the run exist in the request, and as many do, the others do not. *)
Lemma all_consumed n : n1 = length (dep_crcs run) -> forallb (fun d => in_1 d.1) existing = true -> n ∈ absent ->
  pos ns n1 n = None.
Proof.
  intros Hlen Hall Hab. destruct (pos ns n1 n) as [k|] eqn:Hp; [exfalso|done].
  apply pos_Some in Hp as [Hk Hkn]. apply (wf_run_disj Hwf n); [|done].
  set (seg := drop ns (take n1 (deps req))). destruct (wf_req_lens Hwf) as [? ?]. destruct (wf_run_lens Hwf) as [? ?].
  assert (forall x, x ∈ existing.*1 -> x ∈ seg) as Hsub.
  { intros x Hx. apply list_elem_of_fmap in Hx as (d & -> & Hd). rewrite forallb_forall in Hall.
    specialize (Hall d ltac:(by apply list_elem_of_In)). revert Hall. unfold in_1.
    destruct (pos ns n1 d.1) as [j|] eqn:Hj; [intros _|done].
    apply pos_Some in Hj as [Hj Hjd]. apply list_elem_of_lookup. exists (j - ns)%nat. unfold seg.
    rewrite lookup_drop, lookup_take_lt by lia. by replace (ns + (j - ns))%nat with j by lia. }
  pose proof (sorted_nodup _ (wf_run_1 Hwf)) as Hnd.
  assert (existing.*1 ≡ₚ seg) as Hperm.
  { apply submseteq_length_Permutation; [by apply NoDup_submseteq|].
    unfold seg, existing. rewrite length_fmap, length_zip_with, !length_drop, length_take. lia. }
  rewrite Hperm. apply list_elem_of_lookup. exists (k - ns)%nat. unfold seg.
  rewrite lookup_drop, lookup_take_lt by lia. by replace (ns + (k - ns))%nat with k by lia.
Qed.

(** The request has as many existing dependencies as the run and all those of the run are found and
    suitable, but one at least as a dependency that does not exist. *)
Definition clash : bool :=
  statics_ok && negb (bad verdict existing) && negb (miss verdict existing) &&
  (n1 =? length (dep_crcs run))%nat && negb (forallb (fun d => in_1 d.1) existing).

Lemma bad_absent : bad verdict ((fun n => (n, Crc.None)) <$> absent) = bad (fun n => verdict (n, Crc.None)) absent.
Proof. unfold bad. induction absent as [|n l IH]; [done|]. simpl. f_equal. exact IH. Qed.
Lemma miss_absent : miss verdict ((fun n => (n, Crc.None)) <$> absent) = miss (fun n => verdict (n, Crc.None)) absent.
Proof. unfold miss. induction absent as [|n l IH]; [done|]. simpl. f_equal. exact IH. Qed.
Lemma bad_app {A} v (l1 l2 : list A) : bad v (l1 ++ l2) = bad v l1 || bad v l2.
Proof. apply existsb_app. Qed.
Lemma miss_app {A} v (l1 l2 : list A) : miss v (l1 ++ l2) = miss v l1 || miss v l2.
Proof. apply existsb_app. Qed.

Lemma sready_init h nf n : sready (mkState ns n1 h nf) n.
Proof. destruct (wf_req_lens Hwf). split; (split; simpl; [lia|intros; lia]). Qed.

(** The loops over absent dependencies *)
Lemma absent_slow h nf : exists os, run_loop step_slow absent (mkState ns n1 h nf) = Ret os /\
  if bad (fun n => verdict (n, Crc.None)) absent then os = None
  else exists s', os = Some s' /\ res s' = (if is_hit h && miss (fun n => verdict (n, Crc.None)) absent then Match else h).
Proof.
  destruct (run_loop_spec step_slow id (fun n => verdict (n, Crc.None)) sready (fun _ => O) (fun _ => true) absent)
    with (s := mkState ns n1 h nf) as (os & Hos & Hres).
  - intros x _. apply step_slow_ok.
  - rewrite list_fmap_id. apply Hwf.
  - destruct absent; [done|]. apply sready_init.
  - exists os. split; [done|]. destruct (bad _ _); [done|]. destruct Hres as (s' & ? & ? & _). eauto.
Qed.

Lemma absent_fast s : n1 = length (dep_crcs run) -> forallb (fun d => in_1 d.1) existing = true -> j2 s = n1 ->
  bad (fun n => verdict (n, Crc.None)) absent = false /\
  exists s', run_loop step_fast absent s = Ret (Some s') /\
    res s' = (if is_hit (res s) && miss (fun n => verdict (n, Crc.None)) absent then Match else res s).
Proof.
  intros Hlen Hall Hj.
  set (fv := fun n => match pos n1 n2 n with Some _ => Some true | None => None end).
  assert (forall n, n ∈ absent -> verdict (n, Crc.None) = fv n) as Hv.
  { intros n Hn. unfold verdict, provided, fv. simpl. rewrite (all_consumed n Hlen Hall Hn).
    by destruct (pos n1 n2 n). }
  assert (bad (fun n => verdict (n, Crc.None)) absent = bad fv absent /\
          miss (fun n => verdict (n, Crc.None)) absent = miss fv absent) as [-> ->].
  { revert Hv. clear. unfold bad, miss. induction absent as [|x l IH]; intros Hv; [done|]. simpl.
    rewrite (Hv x) by left. destruct IH as [-> ->]; [intros; apply Hv; by right|done]. }
  assert (bad fv absent = false) as Hb.
  { clear. subst fv. unfold bad. induction absent as [|x l IH]; [done|]. simpl. rewrite IH. by destruct (pos n1 n2 x). }
  split; [done|]. destruct (run_loop_spec step_fast id fv (fun s n => ready n1 n2 (j2 s) n) (fun _ => O) (fun _ => true) absent)
    with (s := s) as (os & Hos & Hres).
  - intros x _. apply step_fast_ok.
  - rewrite list_fmap_id. apply Hwf.
  - destruct (wf_req_lens Hwf). destruct absent; [done|]. split; rewrite Hj; [lia|intros; lia].
  - rewrite Hb in Hres. destruct Hres as (s' & -> & Hs & _). eauto.
Qed.

(** C28 [match] agrees with the specification of matching, which looks each dependency of the run up in
    the request in any order; the only exception is a request that clashes, on which an assertion fails. *)
Theorem match_correct : if clash then match_ = Crash else exists nf, match_ = Ret (spec, nf).
Proof.
  destruct (wf_req_lens Hwf) as [Hr1 Hr2]. destruct (wf_run_lens Hwf) as [Hr3 Hr4].
  unfold match_. rewrite !(proj2 (Nat.leb_le _ _)) by lia. cbn [andb swear mbind outcome_mbind].
  rewrite chk_statics_spec by lia. cbn [mbind outcome_mbind]. change (drop 0 ?l) with l. fold statics_ok.
  unfold clash, spec. destruct statics_ok; [cbn [andb negb]|by eexists].
  set (h := if has_hidden run then HitHidden else HitExhaustive).
  assert (is_hit h = true) as Hh by (unfold h; by destruct (has_hidden run)).
  destruct (run_loop_spec (fun '(n, cv) => step_existing n cv) fst verdict sready j2 (fun d => in_1 d.1) existing)
    with (s := mkState ns n1 h 0) as (os & -> & Hos).
  { intros d Hd. apply step_existing_ok. by apply existing_crc. }
  { apply Hwf. }
  { destruct existing; [done|]. apply sready_init. }
  cbn [mbind outcome_mbind]. unfold run_deps. rewrite bad_app, miss_app, bad_absent, miss_absent.
  destruct (bad verdict existing); [subst os; by eexists|]. cbn [orb negb andb].
  destruct Hos as (s & -> & Hres & Hj & Hc). cbn [res j2] in *. rewrite Hh in Hres. cbn [andb] in Hres. rewrite Hres.
  destruct (miss verdict existing); cbn [orb negb andb].
  - change (is_hit Match) with false. cbn [andb]. destruct (absent_slow Match (not_found s)) as (os & -> & Hos).
    cbn [mbind outcome_mbind]. destruct (bad _ absent); [subst os; by eexists|].
    destruct Hos as (s' & -> & ->). change (is_hit Match) with false. by eexists.
  - specialize (Hc eq_refl). rewrite Hh. cbn [andb].
    destruct (Nat.eqb_spec n1 (length (dep_crcs run))) as [Hlen|Hlen]; cbn [andb].
    + destruct (forallb _ existing) eqn:Hall; cbn [negb].
      * rewrite Hc, Nat.eqb_refl. cbn [swear mbind outcome_mbind].
        destruct (absent_fast s Hlen Hall ltac:(lia)) as (-> & s' & -> & Hs). cbn [mbind outcome_mbind].
        rewrite Hs, Hres, Hh. cbn [andb]. by eexists.
      * by rewrite (proj2 (Nat.eqb_neq _ _)) by lia.
    + destruct (absent_slow h (not_found s)) as (os & -> & Hos). cbn [mbind outcome_mbind].
      destruct (bad _ absent); [subst os; by eexists|]. destruct Hos as (s' & -> & ->). rewrite Hh. by eexists.
Qed.
End match_.

(** The comparison answers or stops the server; it throws nothing. *)
Definition quiet {A} (o : outcome A) : Prop := match o with Throw _ => False | _ => True end.

Lemma quiet_bind {A B} (o : outcome A) (k : A -> outcome B) : quiet o -> (forall x, quiet (k x)) -> quiet (o ≫= k).
Proof. destruct o; simpl; auto. Qed.

Lemma quiet_crc_ok c r : quiet (CacheCrc.crc_ok c r).
Proof. unfold CacheCrc.crc_ok. by repeat case_match. Qed.

Lemma quiet_crc_at req j : quiet (crc_at req j).
Proof. unfold crc_at. by case_match. Qed.

Lemma quiet_swear b : quiet (swear b).
Proof. by destruct b. Qed.

Lemma quiet_run_loop {A} (body : A -> state -> outcome (option state)) l s : (forall x s, quiet (body x s)) -> quiet (run_loop body l s).
Proof.
  intros Hb. revert s. induction l as [|x l IH]; intros s; simpl; [done|]. apply quiet_bind; [done|]. intros [s'|]; [apply IH|done].
Qed.

#[local] Hint Resolve quiet_crc_ok quiet_crc_at quiet_swear : core.

Lemma quiet_match run req : quiet (match_ run req).
Proof.
  assert (forall n cv s, quiet (step_existing req n cv s)) as He.
  { intros n cv s. unfold step_existing. destruct (found req (length (dep_crcs req)) _ n).
    - apply quiet_bind; [auto|]. intros c. apply quiet_bind; [auto|]. by intros [].
    - destruct (found req (length (deps req)) _ n); [|done]. apply quiet_bind; [auto|]. by intros []. }
  assert (forall n s, quiet (step_fast req n s)) as Hf by (intros n s; unfold step_fast; by case_match).
  assert (forall n s, quiet (step_slow req n s)) as Hs.
  { intros n s. unfold step_slow. case_match; [|apply Hf]. apply quiet_bind; [auto|]. intros c. apply quiet_bind; [auto|]. intros; by case_match. }
  assert (forall k i, quiet (chk_statics run req k i)) as Hc.
  { induction k as [|k IH]; intros i; simpl; [done|]. repeat case_match; try done. apply quiet_bind; [auto|]. intros _.
    apply quiet_bind; [auto|]. intros c. apply quiet_bind; [auto|]. intros []; [apply IH|done]. }
  unfold match_. apply quiet_bind; [auto|]. intros _. apply quiet_bind; [auto|]. intros _. apply quiet_bind; [auto|].
  intros ok. destruct ok; cbn [negb]; [|done]. apply quiet_bind; [apply quiet_run_loop; by intros [] ?|]. intros [s|]; [|done].
  apply quiet_bind; [|by intros []]. case_match; [|by apply quiet_run_loop]. apply quiet_bind; [auto|]. intros _. by apply quiet_run_loop.
Qed.

(** ** Examples *)

(** A static dependency, two that exist and one that does not; the request has one more *)
Definition run_ex : digest := mkDigest 1 true [5; 7; 9; 8] [100; 200; 300].
Definition req_ex : digest := mkDigest 1 false [5; 7; 9; 11; 8] [100; 200; 300; 400].

Lemma sorted_lookups (l : list Z) : StronglySorted Z.lt l -> forall i j a b, (i < j)%nat ->
  l !! i = Some a -> l !! j = Some b -> a < b.
Proof.
  induction 1 as [|x l Hs IH Hf]; intros i j a b Hij Ha Hb; [done|]. destruct j as [|j]; [lia|]. destruct i as [|i].
  - simpl in *. simplify_eq. rewrite list.Forall_forall in Hf. apply Hf. by eapply list_elem_of_lookup_2.
  - simpl in *. apply (IH i j); [lia|done|done].
Qed.

(** The order of the request, group by group *)
Lemma req_sorted run req : StronglySorted Z.lt (drop (n_statics run) (take (length (dep_crcs req)) (deps req))) ->
  StronglySorted Z.lt (drop (length (dep_crcs req)) (deps req)) ->
  (forall i j a b, (n_statics run <= i < j)%nat -> (j < length (dep_crcs req))%nat ->
     deps req !! i = Some a -> deps req !! j = Some b -> a < b) /\
  (forall i j a b, (length (dep_crcs req) <= i < j)%nat -> deps req !! i = Some a -> deps req !! j = Some b -> a < b).
Proof.
  intros H1 H2. split.
  - intros i j a b Hi Hj Ha Hb. apply (sorted_lookups _ H1 (i - n_statics run) (j - n_statics run)); [lia| |];
      rewrite lookup_drop, lookup_take_lt by lia; [by replace (n_statics run + (i - n_statics run))%nat with i by lia|
        by replace (n_statics run + (j - n_statics run))%nat with j by lia].
  - intros i j a b Hi Ha Hb.
    apply (sorted_lookups _ H2 (i - length (dep_crcs req)) (j - length (dep_crcs req))); [lia| |]; rewrite lookup_drop;
      [by replace (length (dep_crcs req) + (i - length (dep_crcs req)))%nat with i by lia|
       by replace (length (dep_crcs req) + (j - length (dep_crcs req)))%nat with j by lia].
Qed.

Ltac solve_wf := repeat first [constructor | lia].

Lemma wf_ex : wf run_ex req_ex.
Proof.
  destruct (req_sorted run_ex req_ex) as [? ?]; [solve_wf|solve_wf|].
  split; try done; [simpl; lia|simpl; lia|solve_wf|solve_wf| |solve_wf].
  change (existing run_ex).*1 with [7; 9]. change (absent run_ex) with [8].
  intros n. rewrite !list_elem_of_In. simpl. lia.
Qed.

Lemma match_correct_witness : match_ run_ex req_ex = Ret (HitHidden, 0).
Proof.
  pose proof (match_correct run_ex req_ex wf_ex) as H. change (clash run_ex req_ex) with false in H.
  destruct H as [nf H]. change (spec run_ex req_ex) with HitHidden in H. rewrite H. f_equal. f_equal.
  vm_compute in H. congruence.
Defined.

(** A plain sequence of events makes the server fail: a run that tried to open a missing file is
    uploaded, then a repository where the file is also missing but that has one more existing
    dependency asks for it. The run should hit, the assertion that all dependencies were found existing
    fails instead. *)
Theorem match_assertion_fails :
  let opened_missing := CacheCrc.dep_crc false (BitMap.of_list [Access.Reg]) false Crc.None in
  let run := mkDigest 0 false [7] [opened_missing] in
  let req := mkDigest 0 false [5; 7] [CacheCrc.dep_crc true (BitMap.of_list [Access.Reg]) false 1000] in
  spec run req = HitExhaustive /\ match_ run req = Crash.
Proof. vm_compute. done. Qed.
End CacheRun.
