(* ===== verification/CacheLru.v ===== *)
(** * LRU lists of the cache: [LruEntry] of src/cache/engine.hh and src/cache/engine.cc.

    A list is threaded through the runs by two links, and its header holds the oldest run in [newer]
    and the newest one in [older]. The operations are shown to act on the list of runs, newest first. *)
From S2P Require Import Prelude.
Local Open Scope Z_scope.

Module Lru.

(** [LruEntry]; run 0 is no run *)
Record entry := mkEntry { newer : Z; older : Z }.

#[export] Instance entry_eq_dec : EqDecision entry.
Proof. solve_decision. Defined.

Definition empty : entry := mkEntry 0 0.

(** [operator+] *)
Definition nonempty (e : entry) : bool := negb (newer e =? 0) || negb (older e =? 0).

(** The links of the runs, for one of the two lists they belong to *)
Abbreviation links := (gmap Z entry).

Definition get (m : links) (r : Z) : entry := default empty (m !! r).
Definition set_newer (r v : Z) (m : links) : links := <[r := mkEntry v (older (get m r))]> m.
Definition set_older (r v : Z) (m : links) : links := <[r := mkEntry (newer (get m r)) v]> m.

(** [insert_top(hdr,run,lru)] on the entry of [run]; the result tells whether it is the first one *)
Definition insert_top (hdr : entry) (run : Z) (m : links) : outcome (entry * links * bool) :=
  _ ← swear (negb (run =? 0));
  let first := older hdr =? 0 in
  let m := <[run := mkEntry 0 (older hdr)]> m in
  let '(hdr, m) :=
    if first then (mkEntry run (older hdr), m)
    else (hdr, set_newer (older hdr) run m) in
  Ret (mkEntry (newer hdr) run, m, first).

(** [erase(hdr,lru)] on the entry of [run]; the result tells whether it was the last one *)
Definition erase (hdr : entry) (run : Z) (m : links) : entry * links * bool :=
  let e := get m run in
  let '(hdr, m, last) :=
    if negb (older e =? 0) then (hdr, set_newer (older e) (newer e) m, false)
    else (mkEntry (newer e) (older hdr), m, true) in
  let '(hdr, m, last) :=
    if negb (newer e =? 0) then (hdr, set_older (newer e) (older e) m, false)
    else (mkEntry (newer hdr) (older e), m, last) in
  (hdr, <[run := empty]> m, last).

(** [mv_to_top(hdr,run,lru)] *)
Definition mv_to_top (hdr : entry) (run : Z) (m : links) : outcome (entry * links) :=
  if newer (get m run) =? 0 then Ret (hdr, m)
  else
    let '(hdr, m, _) := erase hdr run m in
    '(hdr, m, _) ← insert_top hdr run m;
    Ret (hdr, m).

(** [chk(hdr,run,lru)] *)
Definition chk (hdr : entry) (run : Z) (m : links) : outcome unit :=
  let e := get m run in
  _ ← (if negb (newer e =? 0) then throw_unless (older (get m (newer e)) =? run) "newer.older"
       else throw_unless (older hdr =? run) "newest");
  if negb (older e =? 0) then throw_unless (newer (get m (older e)) =? run) "older.newer"
  else throw_unless (newer hdr =? run) "oldest".

(** ** The list a header and links stand for *)

(** [seg nw l od m]: the runs [l], newest first, are linked between [nw] above and [od] below. *)
Fixpoint seg (nw : Z) (l : list Z) (od : Z) (m : links) : Prop :=
  match l with
  | [] => True
  | r :: l' => m !! r = Some (mkEntry nw (hd od l')) /\ seg r l' od m
  end.

(** Last run of [l], or [d] *)
Definition bottom (d : Z) (l : list Z) : Z := default d (last l).

Definition lru (hdr : entry) (l : list Z) (m : links) : Prop :=
  NoDup (0 :: l) /\ hdr = mkEntry (bottom 0 l) (hd 0 l) /\ seg 0 l 0 m.

Lemma bottom_cons d x l : bottom d (x :: l) = bottom x l.
Proof. unfold bottom. rewrite last_cons. by destruct (last l). Qed.

Lemma bottom_app d l1 x l2 : bottom d (l1 ++ x :: l2) = bottom x l2.
Proof. unfold bottom. rewrite last_app, last_cons. by destruct (last l2). Qed.

Lemma bottom_app_nil d l x : bottom d (l ++ [x]) = x.
Proof. unfold bottom. by rewrite last_snoc. Qed.

Lemma seg_frame nw l od m r e : r ∉ l -> seg nw l od (<[r := e]> m) <-> seg nw l od m.
Proof.
  revert nw. induction l as [|x l IH]; intros nw Hr; [done|]. rewrite not_elem_of_cons in Hr. destruct Hr as [Hne Hr].
  simpl. rewrite lookup_insert_ne by done. by rewrite IH.
Qed.

Lemma seg_app nw l1 x l2 od m :
  seg nw (l1 ++ x :: l2) od m <-> seg nw l1 x m /\ seg (bottom nw l1) (x :: l2) od m.
Proof.
  revert nw. induction l1 as [|y l1 IH]; intros nw; [simpl; tauto|]. rewrite bottom_cons. cbn [seg app]. rewrite IH. cbn [seg].
  assert (hd od (l1 ++ x :: l2) = hd x l1) as -> by (by destruct l1). tauto.
Qed.

Lemma get_insert_eq m r e : get (<[r := e]> m) r = e.
Proof. unfold get. by rewrite lookup_insert_eq. Qed.
Lemma get_insert_ne m r r' e : r <> r' -> get (<[r := e]> m) r' = get m r'.
Proof. intros. unfold get. by rewrite lookup_insert_ne. Qed.

(** Changing what is above the first run, or below the last one *)
Lemma seg_set_newer nw nw' x l od m : x ∉ l -> seg nw (x :: l) od m -> seg nw' (x :: l) od (set_newer x nw' m).
Proof.
  intros Hx [Hm Hs]. unfold set_newer, get. rewrite Hm. simpl. rewrite lookup_insert_eq. split; [done|]. by apply seg_frame.
Qed.

Lemma seg_set_older nw l x od od' m : x ∉ l -> seg nw (l ++ [x]) od m -> seg nw (l ++ [x]) od' (set_older x od' m).
Proof.
  intros Hx. rewrite !seg_app. simpl. intros (Hs & Hm & _). unfold set_older, get. rewrite Hm. simpl.
  rewrite lookup_insert_eq. split; [|done]. by apply seg_frame.
Qed.

Lemma lru_get hdr l1 r l2 m : lru hdr (l1 ++ r :: l2) m -> get m r = mkEntry (bottom 0 l1) (hd 0 l2).
Proof. intros (_ & _ & Hs). apply seg_app in Hs as [_ [Hm _]]. unfold get. by rewrite Hm. Qed.

Lemma lru_frame hdr l m r e : r ∉ l -> lru hdr l m -> lru hdr l (<[r := e]> m).
Proof. intros Hr (Hn & Hh & Hs). split_and!; [done|done|]. by apply seg_frame. Qed.

(** ** The operations *)

Lemma insert_top_spec hdr l m r : lru hdr l m -> r <> 0 -> r ∉ l ->
  exists hdr' m', insert_top hdr r m = Ret (hdr', m', bool_decide (l = [])) /\ lru hdr' (r :: l) m' /\
    forall r', r' ∉ r :: l -> m' !! r' = m !! r'.
Proof.
  intros (Hn & -> & Hs) Hr0 Hr. unfold insert_top. rewrite swear_bind by (by apply negb_true_iff, Z.eqb_neq).
  assert (NoDup (0 :: r :: l)) as Hn'.
  { apply NoDup_cons in Hn as [? ?]. apply NoDup_cons. split; [set_solver|]. by constructor. }
  destruct l as [|x l]; cbn [hd older newer].
  - eexists _, _. split; [done|]. split.
    + split_and!; [done|done|]. simpl. by rewrite lookup_insert_eq.
    + intros r' Hr'. apply lookup_insert_ne. set_solver.
  - assert (x <> 0) as Hx0 by (apply NoDup_cons in Hn as [? _]; set_solver).
    destruct (Z.eqb_spec x 0); [done|]. eexists _, _. split; [done|]. split.
    + split_and!; [done|by rewrite !bottom_cons|]. cbn [seg].
      apply NoDup_cons in Hn as [_ Hn]. apply NoDup_cons in Hn as [Hxl Hn]. split.
      * unfold set_newer. rewrite lookup_insert_ne by set_solver. by rewrite lookup_insert_eq.
      * apply (seg_set_newer 0); [done|]. apply seg_frame; [done|]. done.
    + intros r' Hr'. unfold set_newer. rewrite !lookup_insert_ne by set_solver. done.
Qed.

(** Unlinking [r], in the four positions it may have *)
Definition unlinked (l1 : list Z) (r : Z) (l2 : list Z) (m m' : links) : Prop :=
  seg 0 (l1 ++ l2) 0 m' /\ forall r', r' ∉ l1 ++ r :: l2 -> m' !! r' = m !! r'.

Lemma unlinked_both l y r z t m : NoDup ((l ++ [y]) ++ r :: z :: t) -> seg 0 ((l ++ [y]) ++ r :: z :: t) 0 m ->
  unlinked (l ++ [y]) r (z :: t) m (set_older y z (set_newer z y m)).
Proof.
  intros Hn Hs. apply seg_app in Hs as [H1 [Hm H2]]. cbn [hd] in Hm.
  rewrite !NoDup_app, !NoDup_cons in Hn. destruct Hn as ((Hnl & Hly & _) & Hd & Hr & Hz & Ht). split.
  - apply seg_app. rewrite bottom_app_nil. split.
    + apply (seg_set_older 0 l y r); [set_solver|]. apply seg_frame; [set_solver|]. done.
    + apply seg_frame; [set_solver|]. by apply (seg_set_newer r).
  - intros r' Hr'. unfold set_older, set_newer. rewrite !lookup_insert_ne by set_solver. done.
Qed.

Lemma lru_erase hdr l1 r l2 m : lru hdr (l1 ++ r :: l2) m -> exists hdr' m',
  erase hdr r m = (hdr', m', bool_decide (l1 ++ l2 = [])) /\ lru hdr' (l1 ++ l2) m' /\ m' !! r = Some empty /\
  forall r', r' ∉ l1 ++ r :: l2 -> m' !! r' = m !! r'.
Proof.
  intros Hl. pose proof (lru_get _ _ _ _ _ Hl) as Hg. destruct Hl as (Hn & -> & Hs).
  unfold erase. rewrite Hg. cbn [newer older].
  assert (NoDup (0 :: l1 ++ l2) /\ r ∉ l1 ++ l2) as [Hn' Hr].
  { rewrite NoDup_cons, NoDup_app, NoDup_cons in Hn. rewrite NoDup_cons, NoDup_app. set_solver. }
  assert (forall hdr' m', unlinked l1 r l2 m m' -> hdr' = mkEntry (bottom 0 (l1 ++ l2)) (hd 0 (l1 ++ l2)) ->
    lru hdr' (l1 ++ l2) (<[r := empty]> m') /\ <[r := empty]> m' !! r = Some empty /\
    forall r', r' ∉ l1 ++ r :: l2 -> <[r := empty]> m' !! r' = m !! r') as Hfin.
  { intros hdr' m' [Hu Hf] ->. split_and!; [split_and!; [done|done|by apply seg_frame]|apply lookup_insert_eq|].
    intros r' Hr'. rewrite lookup_insert_ne by set_solver. auto. }
  apply NoDup_cons in Hn as [H0 Hn]. destruct l1 as [|y l _] using rev_ind; destruct l2 as [|z t].
  - cbn. eexists _, _. split; [done|]. by apply Hfin.
  - cbn [hd bottom last from_option app] in *. change (default 0 None) with 0 in *.
    rewrite (proj2 (Z.eqb_neq z 0)) by set_solver. cbn. eexists _, _. split; [done|]. apply Hfin.
    + destruct Hs as [_ Hs]. rewrite !NoDup_cons in Hn. destruct Hn as (_ & Hzt & _).
      split; [by apply (seg_set_newer r)|]. intros r' Hr'. apply lookup_insert_ne. set_solver.
    + done.
  - rewrite !bottom_app_nil in *. rewrite (proj2 (Z.eqb_neq y 0)) by set_solver. cbn. eexists _, _.
    rewrite app_nil_r. split; [by destruct l|]. rewrite app_nil_r in *. apply Hfin.
    + split; [|intros r' Hr'; apply lookup_insert_ne; set_solver]. rewrite app_nil_r.
      apply seg_app in Hs as [Hs _]. rewrite NoDup_app in Hn. destruct Hn as (Hn & _). rewrite NoDup_app in Hn.
      apply (seg_set_older 0 l y r); [set_solver|done].
    + rewrite bottom_app_nil. by destruct l.
  - rewrite !bottom_app_nil in *. cbn [hd]. rewrite (proj2 (Z.eqb_neq y 0)) by set_solver. rewrite (proj2 (Z.eqb_neq z 0)) by set_solver.
    cbn -[app]. eexists _, _. split; [by destruct l|]. apply Hfin; [by apply unlinked_both|].
    rewrite !bottom_app. rewrite bottom_cons. by destruct l.
Qed.

Lemma lru_mv_to_top hdr l1 r l2 m : lru hdr (l1 ++ r :: l2) m -> exists hdr' m',
  mv_to_top hdr r m = Ret (hdr', m') /\ lru hdr' (r :: l1 ++ l2) m' /\
  forall r', r' ∉ l1 ++ r :: l2 -> m' !! r' = m !! r'.
Proof.
  intros Hl. unfold mv_to_top. rewrite (lru_get _ _ _ _ _ Hl). cbn [newer].
  pose proof Hl as (Hn & _). rewrite NoDup_cons, NoDup_app, NoDup_cons in Hn.
  destruct l1 as [|y l _] using rev_ind; [by exists hdr, m|].
  rewrite bottom_app_nil. rewrite (proj2 (Z.eqb_neq y 0)) by set_solver.
  destruct (lru_erase _ _ _ _ _ Hl) as (h1 & m1 & -> & Hl1 & _ & Hf1).
  destruct (insert_top_spec h1 _ m1 r Hl1) as (h2 & m2 & -> & Hl2 & Hf2); [set_solver|set_solver|].
  exists h2, m2. split_and!; [done|done|]. intros r' Hr'. rewrite Hf2 by set_solver. by apply Hf1.
Qed.

Lemma lru_chk hdr l1 r l2 m : lru hdr (l1 ++ r :: l2) m -> chk hdr r m = Ret tt.
Proof.
  intros Hl. unfold chk. rewrite (lru_get _ _ _ _ _ Hl). destruct Hl as (Hn & -> & Hs). cbn [newer older].
  rewrite NoDup_cons, NoDup_app, NoDup_cons in Hn.
  apply seg_app in Hs as [Hs1 Hs2]. destruct l1 as [|y l _] using rev_ind.
  - change (bottom 0 []) with 0. simpl. rewrite Z.eqb_refl. simpl. destruct l2 as [|z t]; simpl.
    + by rewrite Z.eqb_refl.
    + rewrite (proj2 (Z.eqb_neq z 0)) by set_solver. simpl. destruct Hs2 as [_ [Hz _]]. unfold get. rewrite Hz. simpl. by rewrite Z.eqb_refl.
  - rewrite !bottom_app_nil in *. rewrite (proj2 (Z.eqb_neq y 0)) by set_solver. simpl.
    apply seg_app in Hs1 as [_ [Hy _]]. unfold get. rewrite Hy. simpl. rewrite Z.eqb_refl. simpl.
    destruct l2 as [|z t]; simpl.
    + rewrite bottom_app. by rewrite Z.eqb_refl.
    + rewrite (proj2 (Z.eqb_neq z 0)) by set_solver. simpl. destruct Hs2 as [_ [Hz _]]. rewrite Hz. simpl. by rewrite Z.eqb_refl.
Qed.

(** ** Sequences of operations on several lists over the same links *)

Lemma lru_frame_links hdr l m m' : (forall r, r ∈ l -> m' !! r = m !! r) -> lru hdr l m -> lru hdr l m'.
Proof.
  intros Hf (Hn & Hh & Hs). split_and!; [done|done|]. clear Hh Hn. revert Hs. generalize 0 at 1 3.
  induction l as [|x l IH]; intros nw; [done|]. intros [Hx Hs]. split; [rewrite Hf by set_solver; done|].
  apply IH; [set_solver|done].
Qed.

(** The header an operation is given is that of list [c] *)
Inductive op := Insert (c r : Z) | Touch (c r : Z) | Erase (c r : Z).

Definition header (hs : gmap Z entry) (c : Z) : entry := default empty (hs !! c).
Definition runs_of (ls : gmap Z (list Z)) (c : Z) : list Z := default [] (ls !! c).

(** What an operation does on the lists of runs, newest first *)
Definition spec (o : op) (ls : gmap Z (list Z)) : gmap Z (list Z) :=
  match o with
  | Insert c r => <[c := r :: runs_of ls c]> ls
  | Touch c r => <[c := r :: filter (fun x => x <> r) (runs_of ls c)]> ls
  | Erase c r => <[c := filter (fun x => x <> r) (runs_of ls c)]> ls
  end.

(** Only runs that are in the list are touched or erased, only runs that are in no list are inserted. *)
Definition admissible (o : op) (ls : gmap Z (list Z)) : bool :=
  match o with
  | Insert _ r => bool_decide (r <> 0 /\ map_Forall (fun _ l => r ∉ l) ls)
  | Touch c r | Erase c r => bool_decide (r ∈ runs_of ls c)
  end.

Definition apply (o : op) (s : gmap Z entry * links) : outcome (gmap Z entry * links) :=
  match o with
  | Insert c r => '(h, m, _) ← insert_top (header s.1 c) r s.2; Ret (<[c := h]> s.1, m)
  | Touch c r => '(h, m) ← mv_to_top (header s.1 c) r s.2; Ret (<[c := h]> s.1, m)
  | Erase c r => let '(h, m, _) := erase (header s.1 c) r s.2 in Ret (<[c := h]> s.1, m)
  end.

Fixpoint exec (os : list op) (s : gmap Z entry * links) : outcome (gmap Z entry * links) :=
  match os with [] => Ret s | o :: os => s ← apply o s; exec os s end.
Fixpoint exec_spec (os : list op) (ls : gmap Z (list Z)) : option (gmap Z (list Z)) :=
  match os with
  | [] => Some ls
  | o :: os => if admissible o ls then exec_spec os (spec o ls) else None
  end.

(** All the lists are represented, and no run is in two of them. *)
Definition lists (hs : gmap Z entry) (ls : gmap Z (list Z)) (m : links) : Prop :=
  (forall c, lru (header hs c) (runs_of ls c) m) /\
  forall c c' r, r ∈ runs_of ls c -> r ∈ runs_of ls c' -> c = c'.

(** Replacing list [c] by means of links that only runs of [fp] have, none in another list *)
Lemma lists_update hs ls m c h l m' (fp : list Z) : lists hs ls m -> lru h l m' ->
  (forall r, r ∉ fp -> m' !! r = m !! r) -> (forall r, r ∈ l -> r ∈ fp) ->
  (forall c' r, r ∈ fp -> r ∈ runs_of ls c' -> c' = c) ->
  lists (<[c := h]> hs) (<[c := l]> ls) m'.
Proof.
  intros [Hl Hd] Hc Hfr Hin Hfp. unfold lists, header, runs_of in *.
  assert (forall c', c' <> c -> forall r, r ∈ default [] (ls !! c') -> r ∉ fp) as Hout by naive_solver.
  split.
  - intros c'. destruct (decide (c = c')) as [<-|Hne]; [by rewrite !lookup_insert_eq|].
    rewrite !lookup_insert_ne by done. apply lru_frame_links with m; [|done]. intros r Hr. apply Hfr. by apply (Hout c').
  - intros c1 c2 r H1 H2. destruct (decide (c = c1)) as [<-|], (decide (c = c2)) as [<-|]; [done| | |].
    all: rewrite ?lookup_insert_eq, ?lookup_insert_ne in * by done; naive_solver.
Qed.

Lemma filter_out (r : Z) l1 l2 : NoDup (l1 ++ r :: l2) -> filter (fun x => x <> r) (l1 ++ r :: l2) = l1 ++ l2.
Proof.
  rewrite NoDup_app, NoDup_cons. intros (_ & Hd & Hr & _). rewrite filter_app, filter_cons.
  rewrite decide_False by tauto. f_equal; apply filter_id; set_solver.
Qed.

Lemma apply_spec o hs ls m : lists hs ls m -> admissible o ls = true ->
  exists hs' m', apply o (hs, m) = Ret (hs', m') /\ lists hs' (spec o ls) m'.
Proof.
  intros Hl Ha. pose proof Hl as [Hr Hd].
  assert (forall c, NoDup (runs_of ls c)) as Hn by (intros c; destruct (Hr c) as (Hn & _); by apply NoDup_cons in Hn as [_ Hn]).
  destruct o as [c r|c r|c r]; simpl in Ha; apply bool_decide_eq_true in Ha; simpl.
  - destruct Ha as [Hr0 Hno]. assert (forall c', r ∉ runs_of ls c') as Hni.
    { intros c'. unfold runs_of. destruct (ls !! c') as [l|] eqn:Hc; [by apply (Hno c')|set_solver]. }
    destruct (insert_top_spec _ _ m r (Hr c) Hr0 (Hni c)) as (h & m' & -> & Hl' & Hfr). eexists _, _. split; [done|].
    apply lists_update with m (r :: runs_of ls c); [done|done|done|done|].
    intros c' r'. rewrite elem_of_cons. intros [->|Hi] Hi'; [by destruct (Hni c')|by eapply Hd].
  - pose proof (Hr c) as Hc. apply list_elem_of_split in Ha as (l1 & l2 & Hs).
    assert (forall c' r', r' ∈ l1 ++ r :: l2 -> r' ∈ runs_of ls c' -> c' = c) as Hfp by (rewrite <- Hs; eauto).
    specialize (Hn c). rewrite Hs in *. rewrite filter_out by done.
    destruct (lru_mv_to_top _ _ _ _ _ Hc) as (h & m' & -> & Hl' & Hfr). eexists _, _. split; [done|].
    apply lists_update with m (l1 ++ r :: l2); [done|done|done|set_solver|done].
  - pose proof (Hr c) as Hc. apply list_elem_of_split in Ha as (l1 & l2 & Hs).
    assert (forall c' r', r' ∈ l1 ++ r :: l2 -> r' ∈ runs_of ls c' -> c' = c) as Hfp by (rewrite <- Hs; eauto).
    specialize (Hn c). rewrite Hs in *. rewrite filter_out by done.
    destruct (lru_erase _ _ _ _ _ Hc) as (h & m' & -> & Hl' & _ & Hfr). eexists _, _. split; [done|].
    apply lists_update with m (l1 ++ r :: l2); [done|done|done|set_solver|done].
Qed.

Lemma exec_lru os hs ls m ls' : lists hs ls m -> exec_spec os ls = Some ls' ->
  exists hs' m', exec os (hs, m) = Ret (hs', m') /\ lists hs' ls' m'.
Proof.
  revert hs ls m. induction os as [|o os IH]; intros hs ls m Hl He; simpl in *; [by simplify_eq; exists hs, m|].
  destruct (admissible o ls) eqn:Ha; [|done].
  destruct (apply_spec _ _ _ _ Hl Ha) as (hs' & m' & -> & Hl'). cbn. by apply (IH hs' (spec o ls) m').
Qed.

(** C29 The doubly linked lists implement a family of least-recently-used lists that share the links of
    the runs. Start with empty lists and make any sequence of operations, each on the list of its
    choice: a run that is in no list is inserted, or a run of the list is accessed or removed. The
    operations succeed, and each list of the family is the one expected: its header names its newest
    and its oldest run, following [older] from the newest one enumerates it, and every run of it
    passes [chk]; no run is in two lists. *)
Theorem lru_refines os ls : exec_spec os ∅ = Some ls -> exists hs m,
  exec os (∅, ∅) = Ret (hs, m) /\
  (forall c, older (header hs c) = hd 0 (runs_of ls c) /\ newer (header hs c) = default 0 (last (runs_of ls c)) /\
    forall k r, runs_of ls c !! k = Some r ->
      older (get m r) = default 0 (runs_of ls c !! S k) /\ chk (header hs c) r m = Ret tt) /\
  forall c c' r, r ∈ runs_of ls c -> r ∈ runs_of ls c' -> c = c'.
Proof.
  intros He. destruct (exec_lru os ∅ ∅ ∅ ls) as (hs & m & Hx & Hl & Hd); [|done|].
  { split; [intros c; split_and!; [apply NoDup_singleton|done|done]|]. intros c c' r Hr. by apply elem_of_nil in Hr. }
  exists hs, m. split_and!; [done| |done]. intros c. specialize (Hl c). pose proof Hl as (_ & Hh & _). rewrite Hh in *.
  split_and!; [done|done|]. intros k r Hk. revert Hl Hh. generalize (runs_of ls c), Hk. clear Hk. intros l Hk Hl Hh.
  apply list_elem_of_split_length in Hk as (l1 & l2 & -> & ->). split; [|by apply (lru_chk _ l1 r l2)].
  rewrite (lru_get _ _ _ _ _ Hl). simpl. rewrite lookup_app_r by lia.
  replace (S (length l1) - length l1)%nat with 1%nat by lia. by destruct l2.
Qed.

Definition sample_ops : list op :=
  [Insert 1 5; Insert 2 7; Insert 1 3; Insert 2 4; Insert 1 8; Touch 1 5; Touch 2 7; Erase 1 3].

Lemma lru_refines_witness : exists hs m, exec sample_ops (∅, ∅) = Ret (hs, m) /\
  older (header hs 1) = 5 /\ newer (header hs 1) = 8 /\ older (header hs 2) = 7 /\ newer (header hs 2) = 4.
Proof.
  destruct (lru_refines sample_ops {[1 := [5; 8]; 2 := [7; 4]]}) as (hs & m & H1 & H2 & _); [by vm_compute|].
  exists hs, m. destruct (H2 1) as (? & ? & _), (H2 2) as (? & ? & _). by split_and!.
Defined.

(** ** Families of lists over the same links

    [cls] tells to which list a run belongs, [hdr] gives the header of each list. *)
Definition family (hdr : Z -> entry) (ls : Z -> list Z) (m : links) (cls : Z -> option Z) : Prop :=
  forall c, lru (hdr c) (ls c) m /\ forall r, r ∈ ls c <-> cls r = Some c.

Section family.
Context (hdr : Z -> entry) (ls : Z -> list Z) (m : links) (cls : Z -> option Z).
Context (Hf : family hdr ls m cls).

(** Replacing one list, the others being framed *)
Lemma family_update c h' l' m' hdr' cls' : lru h' l' m' ->
  (forall r, (forall c', c' <> c -> r ∈ ls c' -> m' !! r = m !! r)) ->
  (forall c', hdr' c' = if decide (c' = c) then h' else hdr c') ->
  (forall r, r ∈ l' <-> cls' r = Some c) ->
  (forall r c', c' <> c -> cls' r = Some c' <-> cls r = Some c') ->
  family hdr' (fun c' => if decide (c' = c) then l' else ls c') m' cls'.
Proof.
  intros Hl Hfr Hh Hc Ho c'. rewrite Hh. case_decide as Hd; [subst; auto|].
  destruct (Hf c') as [Hlc Hcc]. split; [|intros r; rewrite Ho by done; apply Hcc].
  apply lru_frame_links with m; [|done]. intros r Hr. by apply (Hfr r c').
Qed.

Lemma family_insert c r : r <> 0 -> cls r = None -> exists h' m',
  insert_top (hdr c) r m = Ret (h', m', bool_decide (ls c = [])) /\
  (forall hdr' cls', (forall c', hdr' c' = if decide (c' = c) then h' else hdr c') ->
   (forall r', cls' r' = if decide (r' = r) then Some c else cls r') ->
   family hdr' (fun c' => if decide (c' = c) then r :: ls c else ls c') m' cls').
Proof.
  intros Hr Hn. destruct (Hf c) as [Hl Hc].
  assert (forall c', r ∉ ls c') as Hni by (intros c' Hi; apply Hf in Hi; congruence).
  destruct (insert_top_spec _ _ _ r Hl Hr (Hni c)) as (h' & m' & He & Hl' & Hfr). exists h', m'. split; [done|].
  intros hdr' cls' Hh Hcl. apply family_update with h'; [done| |done| |].
  - intros r' c' Hne Hi. apply Hfr. rewrite elem_of_cons. intros [->|Hi']; [by apply (Hni c')|].
    apply Hf in Hi, Hi'. congruence.
  - intros r'. rewrite elem_of_cons, Hcl, Hc. case_decide; naive_solver.
  - intros r' c' Hne. rewrite Hcl. case_decide; naive_solver congruence.
Qed.

Lemma family_split c r : cls r = Some c -> exists l1 l2, ls c = l1 ++ r :: l2.
Proof. intros H. apply list_elem_of_split. by apply Hf. Qed.

Lemma family_erase c r l1 l2 : ls c = l1 ++ r :: l2 -> exists h' m',
  erase (hdr c) r m = (h', m', bool_decide (l1 ++ l2 = [])) /\
  (forall hdr' cls', (forall c', hdr' c' = if decide (c' = c) then h' else hdr c') ->
   (forall r', cls' r' = if decide (r' = r) then None else cls r') ->
   family hdr' (fun c' => if decide (c' = c) then l1 ++ l2 else ls c') m' cls').
Proof.
  intros Hs. destruct (Hf c) as [Hl Hc]. rewrite Hs in Hl, Hc.
  pose proof Hl as (Hn & _). rewrite NoDup_cons, NoDup_app, NoDup_cons in Hn.
  destruct (lru_erase _ _ _ _ _ Hl) as (h' & m' & He & Hl' & _ & Hfr). exists h', m'. split; [done|].
  intros hdr' cls' Hh Hcl. apply family_update with h'; [done| |done| |].
  - intros r' c' Hne Hi. apply Hfr. rewrite Hc. apply Hf in Hi. congruence.
  - intros r'. rewrite Hcl. case_decide as Hd; [subst; set_solver|]. rewrite <- Hc. set_solver.
  - intros r' c' Hne. rewrite Hcl. case_decide as Hd; [|done]. subst. split; [done|]. intros H.
    assert (cls r = Some c) by (apply Hc; set_solver). congruence.
Qed.

Lemma family_touch c r l1 l2 : ls c = l1 ++ r :: l2 -> exists h' m',
  mv_to_top (hdr c) r m = Ret (h', m') /\
  (forall hdr' cls', (forall c', hdr' c' = if decide (c' = c) then h' else hdr c') ->
   (forall r', cls' r' = cls r') ->
   family hdr' (fun c' => if decide (c' = c) then r :: l1 ++ l2 else ls c') m' cls').
Proof.
  intros Hs. destruct (Hf c) as [Hl Hc]. rewrite Hs in Hl, Hc.
  destruct (lru_mv_to_top _ _ _ _ _ Hl) as (h' & m' & He & Hl' & Hfr). exists h', m'. split; [done|].
  intros hdr' cls' Hh Hcl. apply family_update with h'; [done| |done| |].
  - intros r' c' Hne Hi. apply Hfr. rewrite Hc. apply Hf in Hi. congruence.
  - intros r'. rewrite Hcl, <- Hc. set_solver.
  - intros r' c' Hne. by rewrite Hcl.
Qed.

Lemma family_chk c r : cls r = Some c -> chk (hdr c) r m = Ret tt.
Proof.
  intros Hc. destruct (family_split _ _ Hc) as (l1 & l2 & Hs). apply (lru_chk _ l1 r l2). rewrite <- Hs. apply Hf.
Qed.
End family.
End Lru.
