(* ===== verification/CacheEngine.v ===== *)
(** * The cache engine: runs, jobs, rates and room management of src/cache/engine.cc.

    A run is linked in the list of its job and in the list of its rate (see [CacheLru]). The files
    of the store are finite maps here; run indices come from an allocator that keeps the contract
    of [AllocFile] (class [Allocator]). The scores that rank the rates are computed in floating
    point in the source: only their order matters, they are given by [Config]. A cell that is
    dereferenced while it is not allocated stops the server. *)
From S2P Require Import Prelude.
From S2P Require Import CacheMatch.
From S2P Require Import CacheLru.
Local Open Scope Z_scope.

(** What the engine needs of the file that holds the runs *)
Class Allocator (A : Type) := {
  owns : A -> gset Z -> Prop;       (** the file is well formed and holds these cells *)
  room : A -> Prop;                 (** it can hold one more *)
  alloc : A -> outcome (A * Z);     (** [emplace] *)
  free : Z -> A -> outcome A        (** [pop] *)
}.

Class AllocatorOk (A : Type) `{Allocator A} : Prop := {
  alloc_fresh a X a' i : owns a X -> alloc a = Ret (a', i) -> i <> 0 /\ (i ∉ X) /\ owns a' ({[i]} ∪ X);
  alloc_room a X : owns a X -> room a -> exists a' i, alloc a = Ret (a', i);
  free_owned a X i : owns a X -> i ∈ X -> exists a', free i a = Ret a' /\ owns a' (X ∖ {[i]}) /\ (room a -> room a')
}.

(** [CacheConfig], and the floating point functions *)
Class Config := {
  max_sz : Z;
  max_runs_per_job : Z;
  score : Z -> Z -> Z -> Z;                 (** [float(s_now-last_access)*s_rates[rate]] *)
  rate_val : Z -> Z;                        (** [s_rates[rate]] *)
  crossing : Z -> Z -> Z -> Z -> Z -> Z     (** date at which two scores cross *)
}.

Module Engine.

Definition NRates : Z := 255.
(** [Pdate::Never] and [Delay(1)], in ns *)
Definition Never : Z := 2 ^ 64 - 1.
Definition one_second : Z := 10 ^ 9.

Inductive KeyIsLast := No | OverrideFirst | Plain | Yes.

(** [CrunData], its links apart *)
Record run := mkRun {
  last_access : Z; targets_crc : Z; rsz : Z; rjob : Z; rdeps : list Z; rdep_crcs : list Z;
  rkey : Z; rrate : Z; key_is_last : bool; rhas_hidden : bool }.

(** [CjobData] *)
Record job := mkJob { jlru : Lru.entry; n_runs : Z; jn_statics : nat; jname : string }.

(** [CrunHdr::lrus] and the static data of [RateCmp] *)
Record rate_tab := mkTab { lrus : gmap Z Lru.entry; lo : Z; hi : Z; s_tab : list Z; s_now : Z; s_limit : Z }.

Section engine.
Context {A : Type} {HA : Allocator A} {C : Config}.

Record t := mk {
  runs : gmap Z run; ralloc : A; job_links : Lru.links; glb_links : Lru.links; jobs : gmap Z job;
  keys : gmap Z Z; nodes : gmap Z Z; tab : rate_tab; total_sz : Z; reserved_sz : Z;
  job_trash : list Z; node_trash : list Z; files : gset string }.

Definition set_runs (x : gmap Z run) (s : t) : t := mk x (ralloc s) (job_links s) (glb_links s) (jobs s) (keys s) (nodes s) (tab s) (total_sz s) (reserved_sz s) (job_trash s) (node_trash s) (files s).
Definition set_ralloc (x : A) (s : t) : t := mk (runs s) x (job_links s) (glb_links s) (jobs s) (keys s) (nodes s) (tab s) (total_sz s) (reserved_sz s) (job_trash s) (node_trash s) (files s).
Definition set_job_links (x : Lru.links) (s : t) : t := mk (runs s) (ralloc s) x (glb_links s) (jobs s) (keys s) (nodes s) (tab s) (total_sz s) (reserved_sz s) (job_trash s) (node_trash s) (files s).
Definition set_glb_links (x : Lru.links) (s : t) : t := mk (runs s) (ralloc s) (job_links s) x (jobs s) (keys s) (nodes s) (tab s) (total_sz s) (reserved_sz s) (job_trash s) (node_trash s) (files s).
Definition set_jobs (x : gmap Z job) (s : t) : t := mk (runs s) (ralloc s) (job_links s) (glb_links s) x (keys s) (nodes s) (tab s) (total_sz s) (reserved_sz s) (job_trash s) (node_trash s) (files s).
Definition set_keys (x : gmap Z Z) (s : t) : t := mk (runs s) (ralloc s) (job_links s) (glb_links s) (jobs s) x (nodes s) (tab s) (total_sz s) (reserved_sz s) (job_trash s) (node_trash s) (files s).
Definition set_nodes (x : gmap Z Z) (s : t) : t := mk (runs s) (ralloc s) (job_links s) (glb_links s) (jobs s) (keys s) x (tab s) (total_sz s) (reserved_sz s) (job_trash s) (node_trash s) (files s).
Definition set_tab (x : rate_tab) (s : t) : t := mk (runs s) (ralloc s) (job_links s) (glb_links s) (jobs s) (keys s) (nodes s) x (total_sz s) (reserved_sz s) (job_trash s) (node_trash s) (files s).
Definition set_total_sz (x : Z) (s : t) : t := mk (runs s) (ralloc s) (job_links s) (glb_links s) (jobs s) (keys s) (nodes s) (tab s) x (reserved_sz s) (job_trash s) (node_trash s) (files s).
Definition set_reserved_sz (x : Z) (s : t) : t := mk (runs s) (ralloc s) (job_links s) (glb_links s) (jobs s) (keys s) (nodes s) (tab s) (total_sz s) x (job_trash s) (node_trash s) (files s).
Definition set_job_trash (x : list Z) (s : t) : t := mk (runs s) (ralloc s) (job_links s) (glb_links s) (jobs s) (keys s) (nodes s) (tab s) (total_sz s) (reserved_sz s) x (node_trash s) (files s).
Definition set_node_trash (x : list Z) (s : t) : t := mk (runs s) (ralloc s) (job_links s) (glb_links s) (jobs s) (keys s) (nodes s) (tab s) (total_sz s) (reserved_sz s) (job_trash s) x (files s).
Definition set_files (x : gset string) (s : t) : t := mk (runs s) (ralloc s) (job_links s) (glb_links s) (jobs s) (keys s) (nodes s) (tab s) (total_sz s) (reserved_sz s) (job_trash s) (node_trash s) x.

Definition get_run (r : Z) (s : t) : outcome run := match runs s !! r with Some rd => Ret rd | None => Crash end.
Definition get_job (j : Z) (s : t) : outcome job := match jobs s !! j with Some jd => Ret jd | None => Crash end.
Definition set_jlru (e : Lru.entry) (jd : job) : job := mkJob e (n_runs jd) (jn_statics jd) (jname jd).
Definition set_n_runs (n : Z) (jd : job) : job := mkJob (jlru jd) n (jn_statics jd) (jname jd).
Definition upd_job (j : Z) (f : job -> job) (s : t) : outcome t :=
  jd ← get_job j s; Ret (set_jobs (<[j := f jd]> (jobs s)) s).

(** ** Rates: [RateCmp] *)

Definition rate_hdr (s : t) (r : Z) : Lru.entry := default Lru.empty (lrus (tab s) !! r).
Definition set_rate_hdr (r : Z) (e : Lru.entry) (s : t) : t :=
  let b := tab s in set_tab (mkTab (<[r := e]> (lrus b)) (lo b) (hi b) (s_tab b) (s_now b) (s_limit b)) s.
Definition set_s_tab (x : list Z) (s : t) : t :=
  let b := tab s in set_tab (mkTab (lrus b) (lo b) (hi b) x (s_now b) (s_limit b)) s.
Definition set_s_limit (x : Z) (s : t) : t :=
  let b := tab s in set_tab (mkTab (lrus b) (lo b) (hi b) (s_tab b) (s_now b) x) s.
Definition set_bounds (l h : Z) (s : t) : t :=
  let b := tab s in set_tab (mkTab (lrus b) l h (s_tab b) (s_now b) (s_limit b)) s.

(** [s_score(r)]; the oldest run of a rate in [s_tab] exists *)
Definition s_score (s : t) (r : Z) : Z :=
  let la := match runs s !! Lru.newer (rate_hdr s r) with Some rd => last_access rd | None => 0 end in
  score (s_now (tab s)) la r.

(** [operator()(a,b)]: decreasing scores, then decreasing rates *)
Definition before (s : t) (a b : Z) : bool :=
  (s_score s b <? s_score s a) || ((s_score s a =? s_score s b) && (rate_val b <? rate_val a)).

(** [s_stable(a,b)] *)
Definition s_stable (s : t) (a b : Z) : Z :=
  if s_score s a =? s_score s b then Never
  else if Bool.eqb (s_score s b <? s_score s a) (rate_val b <? rate_val a) then Never
  else crossing (s_now (tab s)) (s_score s a) (s_score s b) (rate_val a) (rate_val b).

(** [s_tab.insert(r)], with the neighbours of the iterator it returns *)
Fixpoint tab_insert (s : t) (r : Z) (prev : option Z) (l : list Z) : list Z * option Z * option Z :=
  match l with
  | [] => ([r], prev, None)
  | a :: l' =>
    if before s a r then let '(l', p, n) := tab_insert s r (Some a) l' in (a :: l', p, n)
    else if before s r a then (r :: l, prev, Some a)
    else (l, prev, head l')
  end.

(** [s_tab.erase(r)]: the elements equivalent to [r] *)
Definition tab_erase (r : Z) (s : t) : t :=
  set_s_tab (filter (fun a => before s a r = true \/ before s r a = true) (s_tab (tab s))) s.

(** [s_insert(r)] *)
Definition s_insert (r : Z) (s : t) : t :=
  let '(l, p, n) := tab_insert s r None (s_tab (tab s)) in
  let s := set_s_tab l s in
  let s := match p with Some a => set_s_limit (Z.min (s_limit (tab s)) (s_stable s a r)) s | None => s end in
  match n with Some b => set_s_limit (Z.min (s_limit (tab s)) (s_stable s r b)) s | None => s end.

(** [s_refresh()] at date [now] *)
Fixpoint stable_limit (s : t) (prev : option Z) (l : list Z) (lim : Z) : Z :=
  match l with
  | [] => lim
  | r :: l => stable_limit s (Some r) l (match prev with Some p => Z.min lim (s_stable s r p) | None => lim end)
  end.
Definition s_refresh (now : Z) (s : t) : t :=
  let b := tab s in
  if now <=? s_limit b then s
  else if now <=? s_now b + one_second then s
  else
    let s := set_tab (mkTab (lrus b) (lo b) (hi b) [] now Never) s in
    let s := set_s_tab (fold_left (fun l r => (tab_insert s r None l).1.1)
               (filter (fun r => Lru.nonempty (rate_hdr s r) = true) (seqZ (lo b) (hi b - lo b))) []) s in
    set_s_limit (stable_limit s None (s_tab (tab s)) (s_limit (tab s))) s.

(** [s_init()] on the header of the run file *)
Definition s_init (now : Z) (s : t) : t :=
  let rs := filter (fun r => Lru.nonempty (rate_hdr s r) = true) (seqZ 0 NRates) in
  let s := set_bounds (default (lo (tab s)) (head rs)) (default (hi (tab s)) (Z.succ <$> last rs)) s in
  s_refresh now s.

(** [RateCmp::s_chk()] *)
Definition chk_rate (s : t) (r : Z) : outcome unit :=
  if Lru.nonempty (rate_hdr s r) then
    _ ← throw_unless (lo (tab s) <=? r) "below lower bound";
    _ ← throw_unless (r <? hi (tab s)) "above higher bound";
    throw_unless (bool_decide (r ∈ s_tab (tab s))) "not in s_tab"
  else throw_unless (bool_decide (r ∉ s_tab (tab s))) "in s_tab".
Fixpoint for_each {X} (f : X -> outcome unit) (l : list X) : outcome unit :=
  match l with [] => Ret tt | x :: l => _ ← f x; for_each f l end.
Definition rate_chk (s : t) : outcome unit := for_each (chk_rate s) (seqZ 0 NRates).

(** ** Reference counts *)

(** [Ckey::inc()], [Ckey::dec()] and [Ckey::victimize()] *)
Definition key_inc (k : Z) (s : t) : outcome t :=
  match keys s !! k with Some c => Ret (set_keys (<[k := u32 (c + 1)]> (keys s)) s) | None => Crash end.
Definition key_dec (k : Z) (s : t) : outcome t :=
  match keys s !! k with
  | Some c =>
    _ ← swear (negb (c =? 0));
    let c := u32 (c - 1) in
    if c =? 0 then Ret (set_keys (delete k (keys s)) s) else Ret (set_keys (<[k := c]> (keys s)) s)
  | None => Crash
  end.

(** [CnodeData::inc()], [dec()] and [victimize()] *)
Definition node_inc (n : Z) (s : t) : outcome t :=
  match nodes s !! n with Some c => Ret (set_nodes (<[n := u32 (c + 1)]> (nodes s)) s) | None => Crash end.
Definition node_dec (n : Z) (s : t) : outcome t :=
  match nodes s !! n with
  | Some c =>
    _ ← swear (0 <? c);
    let c := u32 (c - 1) in
    let s := set_nodes (<[n := c]> (nodes s)) s in
    Ret (if c =? 0 then set_node_trash (node_trash s ++ [n]) s else s)
  | None => Crash
  end.
Fixpoint iter {X} (f : X -> t -> outcome t) (l : list X) (s : t) : outcome t :=
  match l with [] => Ret s | x :: l => s ← f x s; iter f l s end.

(** ** Runs: [CrunData] *)

(** [name()], through [run_file] *)
Definition run_file (job : string) (key : string) (last : bool) : string :=
  job +:+ "/" +:+ key +:+ "-" +:+ (if last then "last" else "first").
Definition run_name (rd : run) (s : t) : outcome string :=
  jd ← get_job (rjob rd) s; Ret (run_file (jname jd) (pretty (rkey rd)) (key_is_last rd)).

Definition unlnk_run (name : string) (s : t) : t := set_files (files s ∖ {[name]}) s.
Definition rename_run (old new : string) (s : t) : t := set_files ({[new]} ∪ (files s ∖ {[old]})) s.

(** [CrunData::CrunData(...)] in the cell [r]: lists, then references *)
Definition link_run (r now : Z) (rd : run) (s : t) : outcome t :=
  let s := set_runs (<[r := rd]> (runs s)) s in
  let first := negb (Lru.nonempty (rate_hdr s (rrate rd))) in
  let s := set_total_sz (u64 (total_sz s + rsz rd)) s in
  let s := if first then s_refresh now s else s in
  jd ← get_job (rjob rd) s;
  '(jh, jl, _) ← Lru.insert_top (jlru jd) r (job_links s);
  s ← upd_job (rjob rd) (set_jlru jh) (set_job_links jl s);
  '(gh, gl, _) ← Lru.insert_top (rate_hdr s (rrate rd)) r (glb_links s);
  let s := set_rate_hdr (rrate rd) gh (set_glb_links gl s) in
  Ret (if first then
      let s := if rrate rd <? lo (tab s) then set_bounds (rrate rd) (hi (tab s)) s else s in
      let s := if hi (tab s) <=? rrate rd then set_bounds (lo (tab s)) (rrate rd + 1) s else s in
      s_insert (rrate rd) s
    else s).
Definition retain_run (rd : run) (s : t) : outcome t :=
  s ← key_inc (rkey rd) s;
  jd ← get_job (rjob rd) s;
  _ ← swear (n_runs jd <? max_runs_per_job);
  s ← upd_job (rjob rd) (set_n_runs (u16 (n_runs jd + 1))) s;
  iter node_inc (rdeps rd) s.
Definition init_run (r now : Z) (rd : run) (s : t) : outcome t :=
  s ← link_run r now rd s;
  retain_run rd s.

(** [Crun(New,...)] *)
Definition new_run (now : Z) (rd : run) (s : t) : outcome (t * Z) :=
  '(a, r) ← alloc (ralloc s);
  s ← init_run r now rd (set_ralloc a s);
  Ret (s, r).

(** [access()] at date [now] *)
Definition access (r now : Z) (s : t) : outcome t :=
  rd ← get_run r s;
  let s := tab_erase (rrate rd) s in
  jd ← get_job (rjob rd) s;
  '(jh, jl) ← Lru.mv_to_top (jlru jd) r (job_links s);
  s ← upd_job (rjob rd) (set_jlru jh) (set_job_links jl s);
  '(gh, gl) ← Lru.mv_to_top (rate_hdr s (rrate rd)) r (glb_links s);
  let s := set_rate_hdr (rrate rd) gh (set_glb_links gl s) in
  let rd' := mkRun now (targets_crc rd) (rsz rd) (rjob rd) (rdeps rd) (rdep_crcs rd) (rkey rd) (rrate rd) (key_is_last rd) (rhas_hidden rd) in
  let s := set_runs (<[r := rd']> (runs s)) s in
  Ret (s_insert (rrate rd) s).

(** The two loops that narrow [s_iota] *)
Fixpoint shrink_lo (fuel : nat) (s : t) (l h : Z) : Z :=
  match fuel with
  | O => l
  | S fuel => if (l <? h) && negb (Lru.nonempty (rate_hdr s l)) then shrink_lo fuel s (l + 1) h else l
  end.
Fixpoint shrink_hi (fuel : nat) (s : t) (l h : Z) : Z :=
  match fuel with
  | O => h
  | S fuel => if (l <? h) && negb (Lru.nonempty (rate_hdr s (h - 1))) then shrink_hi fuel s l (h - 1) else h
  end.
Definition shrink (s : t) : t :=
  let '(l, h) := (lo (tab s), hi (tab s)) in
  let l := shrink_lo (Z.to_nat (h - l)) s l h in
  set_bounds l (shrink_hi (Z.to_nat (h - l)) s l h) s.

(** [CjobData::victimize()], the removal of the directory succeeding *)
Definition victimize_job_ (j : Z) (s : t) : t := set_job_trash (job_trash s ++ [j]) s.

(** [victimize(victimize_job)]: lists, then references, files and cell *)
Definition unlink_run (r : Z) (rd : run) (s : t) : outcome (t * bool) :=
  let s := tab_erase (rrate rd) s in
  jd ← get_job (rjob rd) s;
  let '(jh, jl, last) := Lru.erase (jlru jd) r (job_links s) in
  s ← upd_job (rjob rd) (set_jlru jh) (set_job_links jl s);
  let '(gh, gl, _) := Lru.erase (rate_hdr s (rrate rd)) r (glb_links s) in
  let s := set_rate_hdr (rrate rd) gh (set_glb_links gl s) in
  Ret (if Lru.newer (rate_hdr s (rrate rd)) =? 0 then shrink s else s_insert (rrate rd) s, last).
Definition release_run (r : Z) (rd : run) (job_victimized : bool) (s : t) : outcome t :=
  s ← key_dec (rkey rd) s;
  jd ← get_job (rjob rd) s;
  _ ← swear (0 <? n_runs jd);
  s ← upd_job (rjob rd) (set_n_runs (u16 (n_runs jd - 1))) s;
  s ← iter node_dec (rdeps rd) s;
  name ← run_name rd s;
  let s := unlnk_run name s in
  let s := if job_victimized then victimize_job_ (rjob rd) s else s in
  _ ← swear (rsz rd <=? total_sz s);
  let s := set_total_sz (u64 (total_sz s - rsz rd)) s in
  a ← free r (ralloc s);
  Ret (set_runs (delete r (runs s)) (set_ralloc a s)).
Definition victimize (r : Z) (victimize_job : bool) (s : t) : outcome (t * bool) :=
  rd ← get_run r s;
  '(s, last) ← unlink_run r rd s;
  s ← release_run r rd (victimize_job && last) s;
  Ret (s, victimize_job && last).

(** [CrunData::chk()] and [CrunData::s_chk()] *)
Definition run_chk (s : t) (r : Z) : outcome unit :=
  rd ← get_run r s;
  jd ← get_job (rjob rd) s;
  _ ← Lru.chk (jlru jd) r (job_links s);
  Lru.chk (rate_hdr s (rrate rd)) r (glb_links s).

(** Sum over the runs *)
Definition sum_runs (f : run -> Z) (m : gmap Z run) : Z := map_fold (fun _ rd acc => f rd + acc) 0 m.
Definition node_cnt (n : Z) (rd : run) : Z := Z.of_nat (length (filter (fun d => d = n) (rdeps rd))).
Definition key_cnt (k : Z) (rd : run) : Z := if rkey rd =? k then 1 else 0.

Definition s_chk (s : t) : outcome unit :=
  _ ← for_each (run_chk s) (map_to_list (runs s)).*1;
  _ ← for_each (fun '(n, c) => throw_unless (sum_runs (node_cnt n) (runs s) <=? c) "bad ref cnt") (map_to_list (nodes s));
  for_each (fun '(k, c) => throw_unless (sum_runs (key_cnt k) (runs s) <=? c) "bad ref cnt") (map_to_list (keys s)).

(** ** Room: [mk_room(sz,keep_job)] *)

Fixpoint mk_room_loop (fuel : nat) (sz keep_job : Z) (s : t) : outcome t :=
  if negb (total_sz s =? 0) && (max_sz <? u64 (total_sz s + reserved_sz s + sz)) then
    match fuel, s_tab (tab s) with
    | S fuel, best_rate :: _ =>
      let best_run := Lru.newer (rate_hdr s best_rate) in
      rd ← get_run best_run s;
      '(s, _) ← victimize best_run (negb (rjob rd =? keep_job)) s;
      mk_room_loop fuel sz keep_job s
    | _, _ => Crash
    end
  else Ret s.
Definition mk_room (sz keep_job now : Z) (s : t) : outcome t :=
  if max_sz <? u64 (reserved_sz s + sz) then Throw "cache too small"
  else
    let s := s_refresh now s in
    mk_room_loop (size (runs s)) sz keep_job s.

(** ** Jobs: [CjobData] *)

Definition run_digest (jd : job) (rd : run) : CacheRun.digest :=
  CacheRun.mkDigest (jn_statics jd) (rhas_hidden rd) (rdeps rd) (rdep_crcs rd).

(** [match(compile_digest)], from the run [r] of the list *)
Fixpoint match_from (fuel : nat) (jd : job) (cd : CacheRun.digest) (now r : Z) (hit : CacheRun.CacheHitInfo) (s : t) : outcome (t * Z * CacheRun.CacheHitInfo) :=
  if r =? 0 then Ret (s, 0, hit)
  else
    match fuel with
    | O => Crash
    | S fuel =>
      rd ← get_run r s;
      '(hit, _) ← CacheRun.match_ (run_digest jd rd) cd;
      s ← (if CacheRun.is_hit hit then access r now (s_refresh now s) else Ret s);
      if CacheRun.is_match hit then Ret (s, r, hit)
      else match_from fuel jd cd now (Lru.older (Lru.get (job_links s) r)) CacheRun.BadDeps s
    end.
Definition match_job (j : Z) (cd : CacheRun.digest) (now : Z) (s : t) : outcome (t * Z * CacheRun.CacheHitInfo) :=
  jd ← get_job j s;
  match_from (size (runs s)) jd cd now (Lru.older (jlru jd)) CacheRun.NoJob s.

(** First loop of [insert]: the first and last runs with the same key, or nothing if a run matches
    and need not be replaced. The link read after the removal of a run is the one left in its cell. *)
Fixpoint scan_runs (fuel : nat) (jd : job) (cd : CacheRun.digest) (key : Z) (force : bool) (crc r : Z) (found : Z * Z) (s : t) : outcome (t * option (Z * Z)) :=
  if r =? 0 then Ret (s, Some found)
  else
    match fuel with
    | O => Crash
    | S fuel =>
      rd ← get_run r s;
      '(hit, _) ← CacheRun.match_ (run_digest jd rd) cd;
      if CacheRun.is_match hit then
        if force && negb (crc =? targets_crc rd) then
          '(s, _) ← victimize r false s;
          scan_runs fuel jd cd key force crc (Lru.older (Lru.get (job_links s) r)) found s
        else Ret (s, None)
      else
        let next := Lru.older (Lru.get (job_links s) r) in
        if rkey rd =? key then
          if key_is_last rd then _ ← swear (found.2 =? 0); scan_runs fuel jd cd key force crc next (found.1, r) s
          else _ ← swear (found.1 =? 0); scan_runs fuel jd cd key force crc next (r, found.2) s
        else scan_runs fuel jd cd key force crc next found s
    end.

(** The slot of the new run, and whether the present last run may become the first one *)
Definition slot (k : KeyIsLast) (found : Z * Z) : bool * bool :=
  match k with
  | No => (false, false)
  | OverrideFirst => (negb (found.2 =? 0), true)
  | Plain => (negb (found.2 =? 0) || negb (found.1 =? 0), true)
  | Yes => (true, false)
  end.
Definition sel (last : bool) (found : Z * Z) : Z := if last then found.2 else found.1.

Definition free_slot (last mk_first : bool) (found : Z * Z) (s : t) : outcome t :=
  let r := sel last found in
  if r =? 0 then Ret s
  else if mk_first && last && (found.1 =? 0) then
    rd ← get_run r s;
    last_name ← run_name rd s;
    let rd' := mkRun (last_access rd) (targets_crc rd) (rsz rd) (rjob rd) (rdeps rd) (rdep_crcs rd) (rkey rd) (rrate rd) false (rhas_hidden rd) in
    let s := set_runs (<[r := rd']> (runs s)) s in
    first_name ← run_name rd' s;
    Ret (rename_run last_name first_name s)
  else '(s, _) ← victimize r false s; Ret s.

(** [while (n_runs>=max_runs_per_job) lru.newer->victimize(false)] *)
Fixpoint limit_runs (fuel : nat) (j : Z) (s : t) : outcome t :=
  jd ← get_job j s;
  if max_runs_per_job <=? n_runs jd then
    match fuel with
    | O => Crash
    | S fuel => '(s, _) ← victimize (Lru.newer (jlru jd)) false s; limit_runs fuel j s
    end
  else Ret s.

(** [insert(...)]; an empty [reserved_file] is none *)
Definition insert (j : Z) (cd : CacheRun.digest) (key : Z) (kil : KeyIsLast) (la sz rate : Z) (force : bool) (crc : Z)
    (reserved_file : string) (now : Z) (s : t) : outcome (t * bool) :=
  jd ← get_job j s;
  '(s, found) ← scan_runs (size (runs s)) jd cd key force crc (Lru.older (jlru jd)) (0, 0) s;
  match found with
  | None => Ret (if bool_decide (reserved_file = EmptyString) then s else unlnk_run reserved_file s, false)
  | Some found =>
    let '(last, mk_first) := slot kil found in
    s ← free_slot last mk_first found s;
    s ← limit_runs (size (runs s)) j s;
    s ← mk_room sz j now s;
    '(s, r) ← new_run now (mkRun la crc sz j (CacheRun.deps cd) (CacheRun.dep_crcs cd) key rate last (CacheRun.has_hidden cd)) s;
    rd ← get_run r s;
    name ← run_name rd s;
    Ret (if bool_decide (reserved_file = EmptyString) then s else rename_run reserved_file name s, true)
  end.

End engine.
Arguments t : clear implicits.
End Engine.
