(* ===== verification/CacheStore.v ===== *)
(** * The run file of the cache is an allocator.

    [AllocFile] (src/store/alloc.hh) keeps the contract the engine relies on (class [Allocator]): the
    theorems on the engine hold with the file it really uses. Runs take one cell each. *)
From S2P Require Import Prelude.
From S2P Require Import StoreFile.
From S2P Require Import StoreAlloc.
From S2P Require Import StoreAllocFile.
From S2P Require Import StoreAllocInv.
From S2P Require Import StoreAllocThm.
From S2P Require Import CacheEngine.
Local Open Scope Z_scope.

Section run_file.
Context {P : AllocFile.Params} {HP : AllocFile.ParamsOk P} {D : Type} (d0 : D).

Abbreviation file := (AllocFile.t D).
Abbreviation b1 := (Alloc.bucket AllocFile.Mantissa 1).

(** The file is writable and its blocks are the cells [X]. *)
Definition file_owns (f : file) (X : gset Z) : Prop :=
  AllocFile.writable f = true /\ exists h, repr f h /\ dom h = X /\ forall i n d, h !! i = Some (n, d) -> n = 1.
(** A cell is free, or the file can grow. *)
Definition file_room (f : file) : Prop :=
  ~ (AllocFile._free b1 f = Ret 0 /\ 2 ^ AllocFile.NIdxBits <= AllocFile.size f + AllocFile.szv b1).

#[export] Instance file_allocator : Allocator file := {|
  owns := file_owns;
  room := file_room;
  alloc := AllocFile._emplace 1 d0;
  free := fun i f => AllocFile._pop i 1 f
|}.

Lemma ok_sz_1 : AllocFile.ok_sz 1.
Proof.
  destruct (decide (AllocFile.Mantissa = 0)) as [HM|HM]; [unfold AllocFile.ok_sz; by rewrite HM|].
  apply AllocFile.ok_sz_multi; [done|]. destruct (AllocFile.multi HM) as [HM' _]. pose proof AllocFile.pow_W. split; [lia|].
  rewrite AllocFile.NFree_eq. pose proof AllocFile.max_sz_big.
  assert (2 ^ 1 <= 2 ^ AllocFile.Mantissa) by (apply Z.pow_le_mono_r; lia).
  rewrite (Alloc.bucket_linear AllocFile.Mantissa HM' 1) by lia. pose proof (Alloc.bucket_linear AllocFile.Mantissa HM' 2 ltac:(lia)).
  have (Alloc.bucket_mono AllocFile.Mantissa HM' 2 (2 ^ AllocFile.W - 1)). lia.
Qed.

(** A cell that has just been freed can be reused. *)
Lemma pop_room i f f' : i <> 0 -> AllocFile._pop i 1 f = Ret f' -> file_room f'.
Proof.
  intros Hi He [Hf _]. destruct (AllocFile.ok_sz_bucket _ ok_sz_1) as (Hb & [Hok _] & _).
  unfold AllocFile._pop in He. destruct (Z.eqb_spec i 0); [done|]. rewrite Hb in He. unfold AllocFile._dealloc in He.
  inv_ret. subst f'. unfold AllocFile._free, AllocFile._set_free in *. simpl in *. inv_ret.
  destruct (AllocFile.free f !! Z.to_nat b1) eqn:Hl; [|done]. rewrite list_lookup_insert_eq in Hf by (by eapply lookup_lt_Some).
  congruence.
Qed.

#[export] Instance file_allocator_ok : AllocatorOk file.
Proof.
  split.
  - intros f X f' i (Hw & h & Hr & HX & H1) He. pose proof (emplace_spec f h 1 d0 Hr ok_sz_1) as Hs. simpl in He. rewrite He in Hs.
    destruct Hs as (Hi & Hi0 & Hr' & Hw'). split_and!; [done| |].
    + rewrite <- HX. by apply not_elem_of_dom.
    + split; [done|]. exists (<[i := (1, d0)]> h). split_and!; [done|by rewrite dom_insert_L, HX|].
      intros j n d [[_ ?]|[_ Hj]]%lookup_insert_Some; [congruence|eauto].
  - intros f X (Hw & h & Hr & HX & H1) Hroom. pose proof (emplace_spec f h 1 d0 Hr ok_sz_1) as Hs. simpl.
    destruct (AllocFile._emplace 1 d0 f) as [[f' i]| |]; [eauto|congruence|by destruct Hroom].
  - intros f X i (Hw & h & Hr & HX & H1) Hi. rewrite <- HX in Hi. apply elem_of_dom in Hi as [[n d] Hi].
    assert (n = 1) as -> by eauto. pose proof (pop_spec f h i 1 d Hr Hi) as Hs. simpl.
    destruct (AllocFile._pop i 1 f) as [f'| |] eqn:He; [|congruence|done]. destruct Hs as (Hr' & Hw' & _).
    exists f'. split_and!; [done| |].
    + split; [done|]. exists (delete i h). split_and!; [done|by rewrite dom_delete_L, HX|]. intros j n' d' [_ Hj]%lookup_delete_Some. eauto.
    + intros _. destruct (repr_range _ _ _ _ _ Hr Hi) as (Hr1 & _). by apply (pop_room i f); [lia|].
Qed.
End run_file.
