(* ===== verification/CacheEngineInv.v ===== *)
(** * Invariant of the cache engine ([CacheEngine]), part by part.

    Each part of the invariant depends on a few fields of the state; its lemmas tell how it moves
    when a run is added, accessed or removed. [hk] and [hn] are the references held on keys and
    nodes by others than runs (connections and requests being served). *)
From S2P Require Import Prelude.
From S2P Require Import CacheMatch.
From S2P Require Import CacheLru.
From S2P Require Import CacheEngine.
Local Open Scope Z_scope.
Import Engine.

(** The rates have distinct values, and a job may have at least one run. *)
Class ConfigOk (C : Config) : Prop := {
  rate_val_inj a b : 0 <= a < NRates -> 0 <= b < NRates -> rate_val a = rate_val b -> a = b;
  max_runs_range : 1 <= max_runs_per_job < 2 ^ 16;
  max_sz_range : 0 <= max_sz < 2 ^ 62
}.

(** ** Sums over the runs *)
Section sums.
Implicit Types (m : gmap Z run) (f : run -> Z).

Lemma sum_runs_insert f m r rd : m !! r = None -> sum_runs f (<[r := rd]> m) = f rd + sum_runs f m.
Proof. intros Hr. unfold sum_runs. rewrite map_fold_insert_L; [done|intros; lia|done]. Qed.

Lemma sum_runs_delete f m r rd : m !! r = Some rd -> sum_runs f (delete r m) = sum_runs f m - f rd.
Proof. intros Hr. unfold sum_runs. rewrite (map_fold_delete_L _ _ r rd m); [lia|intros; lia|done]. Qed.

Lemma sum_runs_nonneg f m : (forall r rd, m !! r = Some rd -> 0 <= f rd) -> 0 <= sum_runs f m.
Proof.
  induction m as [|r rd m Hr IH] using map_ind; intros Hf; [done|].
  rewrite sum_runs_insert by done. pose proof (Hf r rd ltac:(by rewrite lookup_insert_eq)).
  assert (0 <= sum_runs f m); [|lia]. apply IH.
  intros r' rd' Hr'. apply (Hf r'). rewrite lookup_insert_ne; congruence.
Qed.

Lemma sum_runs_ge f m r rd : (forall r rd, m !! r = Some rd -> 0 <= f rd) -> m !! r = Some rd -> f rd <= sum_runs f m.
Proof.
  intros Hf Hr. pose proof (sum_runs_delete f m r rd Hr). assert (0 <= sum_runs f (delete r m)); [|lia].
  apply sum_runs_nonneg. intros r' rd' H'. apply lookup_delete_Some in H' as [_ H']. eauto.
Qed.

Lemma sum_runs_replace f m r rd rd' : m !! r = Some rd -> f rd' = f rd -> sum_runs f (<[r := rd']> m) = sum_runs f m.
Proof.
  intros Hr Hf. rewrite <- insert_delete_eq, sum_runs_insert by apply lookup_delete_eq.
  rewrite (sum_runs_delete _ _ _ rd) by done. lia.
Qed.

Lemma node_cnt_nonneg n rd : 0 <= node_cnt n rd.
Proof. unfold node_cnt. lia. Qed.
Lemma key_cnt_nonneg k rd : 0 <= key_cnt k rd.
Proof. unfold key_cnt. case_match; lia. Qed.
End sums.

(** ** Lists of the jobs *)
Section job_lists.
Implicit Types (m : gmap Z run) (js : gmap Z job) (l : Lru.links).

Definition job_hdr js (j : Z) : Lru.entry := default Lru.empty (jlru <$> js !! j).
Definition run_job m (r : Z) : option Z := rjob <$> m !! r.
Definition job_inv m js l : Prop :=
  (exists ls, Lru.family (job_hdr js) ls l (run_job m) /\ forall j jd, js !! j = Some jd -> n_runs jd = Z.of_nat (length (ls j)) /\ n_runs jd < 2 ^ 16) /\
  m !! 0 = None /\ forall r rd, m !! r = Some rd -> is_Some (js !! rjob rd).

Lemma job_hdr_insert js j jd j' : job_hdr (<[j := jd]> js) j' = if decide (j' = j) then jlru jd else job_hdr js j'.
Proof. unfold job_hdr. case_decide; [subst; by rewrite lookup_insert_eq|by rewrite lookup_insert_ne]. Qed.
Lemma job_hdr_lookup js j jd : js !! j = Some jd -> job_hdr js j = jlru jd.
Proof. unfold job_hdr. by intros ->. Qed.

Lemma run_job_insert m r rd r' : run_job (<[r := rd]> m) r' = if decide (r' = r) then Some (rjob rd) else run_job m r'.
Proof. unfold run_job. case_decide; [subst; by rewrite lookup_insert_eq|by rewrite lookup_insert_ne]. Qed.
Lemma run_job_delete m r r' : run_job (delete r m) r' = if decide (r' = r) then None else run_job m r'.
Proof. unfold run_job. case_decide; [subst; by rewrite lookup_delete_eq|by rewrite lookup_delete_ne]. Qed.

Lemma job_inv_insert m js l r rd jd : job_inv m js l -> m !! r = None -> r <> 0 -> js !! rjob rd = Some jd ->
  n_runs jd + 1 < 2 ^ 16 -> exists h l' first, Lru.insert_top (jlru jd) r l = Ret (h, l', first) /\ 0 <= n_runs jd /\
    job_inv (<[r := rd]> m) (<[rjob rd := set_n_runs (u16 (n_runs jd + 1)) (set_jlru h jd)]> js) l'.
Proof.
  intros ((ls & Hf & Hn) & H0 & Hj) Hr Hr0 Hjd Hb. destruct (Hn _ _ Hjd) as [Hnj _].
  rewrite <- (job_hdr_lookup _ _ _ Hjd).
  edestruct (Lru.family_insert _ _ _ _ Hf (rjob rd) r) as (h & l' & He & Hf'); [done|unfold run_job; by rewrite Hr|].
  exists h, l', (bool_decide (ls (rjob rd) = [])). rewrite He. split_and!; [done|lia|].
  split; [|split; [by rewrite lookup_insert_ne|]].
  - eexists. split; [apply Hf'; [intros; apply job_hdr_insert|intros; apply run_job_insert]|].
    intros j jd' Hj'. destruct (decide (j = rjob rd)) as [->|Hne].
    + rewrite lookup_insert_eq in Hj'. simplify_eq/=. rewrite decide_True by done. simpl. unfold u16. rewrite uwrap_small by lia. lia.
    + rewrite lookup_insert_ne in Hj' by done. rewrite decide_False by done. eauto.
  - intros r' rd' Hr'. rewrite lookup_insert_is_Some. apply lookup_insert_Some in Hr' as [[<- <-]|[_ Hr']]; [by left|].
    destruct (decide (rjob rd = rjob rd')); [by left|right; eauto].
Qed.

Lemma job_inv_erase m js l r rd : job_inv m js l -> m !! r = Some rd -> exists jd h l' last,
  js !! rjob rd = Some jd /\ Lru.erase (jlru jd) r l = (h, l', last) /\ 0 < n_runs jd < 2 ^ 16 /\ Lru.older (Lru.get l' r) = 0 /\
  (last = true <-> n_runs jd = 1) /\
  job_inv (delete r m) (<[rjob rd := set_n_runs (u16 (n_runs jd - 1)) (set_jlru h jd)]> js) l'.
Proof.
  intros ((ls & Hf & Hn) & H0 & Hj) Hr. destruct (Hj _ _ Hr) as [jd Hjd]. destruct (Hn _ _ Hjd) as [Hnj Hb].
  destruct (Lru.family_split _ _ _ _ Hf (rjob rd) r) as (l1 & l2 & Hs); [unfold run_job; by rewrite Hr|].
  destruct (Hf (rjob rd)) as [Hl _]. rewrite Hs in Hl.
  destruct (Lru.lru_erase _ _ _ _ _ Hl) as (h0 & l0 & He0 & _ & He & _).
  edestruct (Lru.family_erase _ _ _ _ Hf (rjob rd) r) as (h & l' & He' & Hf'); [done|].
  assert (h = h0 /\ l' = l0) as [-> ->] by (split; congruence).
  rewrite (job_hdr_lookup _ _ _ Hjd) in He'. rewrite Hs, length_app in Hnj. simpl in Hnj.
  exists jd, h0, l0, (bool_decide (l1 ++ l2 = [])). split_and!; [done|done|lia|lia|unfold Lru.get; by rewrite He| |].
  { rewrite bool_decide_eq_true, <- length_zero_iff_nil, length_app. lia. }
  split; [|split; [by rewrite lookup_delete_None; auto|]].
  - eexists. split; [apply Hf'; [intros; apply job_hdr_insert|intros; apply run_job_delete]|].
    intros j jd' Hj'. destruct (decide (j = rjob rd)) as [->|Hne].
    + rewrite lookup_insert_eq in Hj'. simplify_eq/=. rewrite decide_True by done. simpl. rewrite length_app. unfold u16. rewrite uwrap_small by lia. lia.
    + rewrite lookup_insert_ne in Hj' by done. rewrite decide_False by done. eauto.
  - intros r' rd' Hr'. rewrite lookup_insert_is_Some. apply lookup_delete_Some in Hr' as [_ Hr'].
    destruct (decide (rjob rd = rjob rd')); [by left|right; eauto].
Qed.

Lemma job_inv_touch m js l r rd rd' : job_inv m js l -> m !! r = Some rd -> rjob rd' = rjob rd -> exists jd h l',
  js !! rjob rd = Some jd /\ Lru.mv_to_top (jlru jd) r l = Ret (h, l') /\
  job_inv (<[r := rd']> m) (<[rjob rd := set_jlru h jd]> js) l'.
Proof.
  intros ((ls & Hf & Hn) & H0 & Hj) Hr Hrj. destruct (Hj _ _ Hr) as [jd Hjd]. destruct (Hn _ _ Hjd) as [Hnj Hb].
  destruct (Lru.family_split _ _ _ _ Hf (rjob rd) r) as (l1 & l2 & Hs); [unfold run_job; by rewrite Hr|].
  edestruct (Lru.family_touch _ _ _ _ Hf (rjob rd) r) as (h & l' & He & Hf'); [done|].
  rewrite (job_hdr_lookup _ _ _ Hjd) in He. rewrite Hs, length_app in Hnj. simpl in Hnj.
  exists jd, h, l'. split_and!; [done|done|]. assert (r <> 0) by congruence.
  split; [|split; [by rewrite lookup_insert_ne|]].
  - eexists. split.
    + apply Hf'; [intros; apply (job_hdr_insert _ _ (set_jlru h jd))|]. intros r'. rewrite run_job_insert. case_decide; [|done].
      subst. rewrite Hrj. unfold run_job. by rewrite Hr.
    + intros j jd' Hj'. destruct (decide (j = rjob rd)) as [->|Hne].
      * rewrite lookup_insert_eq in Hj'. simplify_eq/=. rewrite decide_True by done. simpl. rewrite length_app. lia.
      * rewrite lookup_insert_ne in Hj' by done. rewrite decide_False by done. eauto.
  - intros r' rd2 Hr'. rewrite lookup_insert_is_Some. apply lookup_insert_Some in Hr' as [[<- <-]|[_ Hr']]; [by left|].
    destruct (decide (rjob rd = rjob rd2)); [by left|right; eauto].
Qed.

(** A change of a run that keeps its job *)
Lemma job_inv_same m js l r rd rd' : job_inv m js l -> m !! r = Some rd -> rjob rd' = rjob rd -> job_inv (<[r := rd']> m) js l.
Proof.
  intros ((ls & Hf & Hn) & H0 & Hj) Hr Hrj. assert (r <> 0) by congruence.
  split; [|split; [by rewrite lookup_insert_ne|]].
  - exists ls. split; [|done]. intros c. destruct (Hf c) as [Hl Hc]. split; [done|]. intros r'. rewrite Hc, run_job_insert.
    case_decide; [|done]. subst. rewrite Hrj. unfold run_job. by rewrite Hr.
  - intros r' rd2 Hr'. apply lookup_insert_Some in Hr' as [[<- <-]|[_ Hr']]; [rewrite Hrj|]; eauto.
Qed.
End job_lists.

(** ** Lists of the rates *)
Section rate_lists.
Implicit Types (m : gmap Z run) (rs : gmap Z Lru.entry) (l : Lru.links).

Definition hdr_of rs (r : Z) : Lru.entry := default Lru.empty (rs !! r).
Definition run_rate m (r : Z) : option Z := rrate <$> m !! r.
Definition glb_inv m rs l : Prop :=
  (exists ls, Lru.family (hdr_of rs) ls l (run_rate m)) /\ m !! 0 = None /\
  forall r rd, m !! r = Some rd -> 0 <= rrate rd < NRates.

Lemma hdr_of_insert rs c e c' : hdr_of (<[c := e]> rs) c' = if decide (c' = c) then e else hdr_of rs c'.
Proof. unfold hdr_of. case_decide; [subst; by rewrite lookup_insert_eq|by rewrite lookup_insert_ne]. Qed.
Lemma run_rate_insert m r rd r' : run_rate (<[r := rd]> m) r' = if decide (r' = r) then Some (rrate rd) else run_rate m r'.
Proof. unfold run_rate. case_decide; [subst; by rewrite lookup_insert_eq|by rewrite lookup_insert_ne]. Qed.
Lemma run_rate_delete m r r' : run_rate (delete r m) r' = if decide (r' = r) then None else run_rate m r'.
Proof. unfold run_rate. case_decide; [subst; by rewrite lookup_delete_eq|by rewrite lookup_delete_ne]. Qed.

Lemma glb_inv_insert m rs l r rd : glb_inv m rs l -> m !! r = None -> r <> 0 -> 0 <= rrate rd < NRates ->
  exists h l' first, Lru.insert_top (hdr_of rs (rrate rd)) r l = Ret (h, l', first) /\
    glb_inv (<[r := rd]> m) (<[rrate rd := h]> rs) l'.
Proof.
  intros ((ls & Hf) & H0 & Hj) Hr Hr0 Hrt.
  edestruct (Lru.family_insert _ _ _ _ Hf (rrate rd) r) as (h & l' & He & Hf'); [done|unfold run_rate; by rewrite Hr|].
  exists h, l', (bool_decide (ls (rrate rd) = [])). split; [done|]. split; [|split; [by rewrite lookup_insert_ne|]].
  - eexists. apply Hf'; [intros; apply hdr_of_insert|intros; apply run_rate_insert].
  - intros r' rd' Hr'. apply lookup_insert_Some in Hr' as [[<- <-]|[_ Hr']]; eauto.
Qed.

Lemma glb_inv_erase m rs l r rd : glb_inv m rs l -> m !! r = Some rd -> exists h l' last,
  Lru.erase (hdr_of rs (rrate rd)) r l = (h, l', last) /\ glb_inv (delete r m) (<[rrate rd := h]> rs) l'.
Proof.
  intros ((ls & Hf) & H0 & Hj) Hr.
  destruct (Lru.family_split _ _ _ _ Hf (rrate rd) r) as (l1 & l2 & Hs); [unfold run_rate; by rewrite Hr|].
  edestruct (Lru.family_erase _ _ _ _ Hf (rrate rd) r) as (h & l' & He & Hf'); [done|].
  exists h, l', (bool_decide (l1 ++ l2 = [])). split; [done|]. split; [|split; [by rewrite lookup_delete_None; auto|]].
  - eexists. apply Hf'; [intros; apply hdr_of_insert|intros; apply run_rate_delete].
  - intros r' rd' Hr'. apply lookup_delete_Some in Hr' as [_ Hr']. eauto.
Qed.

Lemma glb_inv_touch m rs l r rd rd' : glb_inv m rs l -> m !! r = Some rd -> rrate rd' = rrate rd -> exists h l',
  Lru.mv_to_top (hdr_of rs (rrate rd)) r l = Ret (h, l') /\ glb_inv (<[r := rd']> m) (<[rrate rd := h]> rs) l'.
Proof.
  intros ((ls & Hf) & H0 & Hj) Hr Hrj.
  destruct (Lru.family_split _ _ _ _ Hf (rrate rd) r) as (l1 & l2 & Hs); [unfold run_rate; by rewrite Hr|].
  edestruct (Lru.family_touch _ _ _ _ Hf (rrate rd) r) as (h & l' & He & Hf'); [done|].
  exists h, l'. assert (r <> 0) by congruence. split; [done|]. split; [|split; [by rewrite lookup_insert_ne|]].
  - eexists. apply Hf'; [intros; apply hdr_of_insert|]. intros r'. rewrite run_rate_insert. case_decide; [|done].
    subst. rewrite Hrj. unfold run_rate. by rewrite Hr.
  - intros r' rd2 Hr'. apply lookup_insert_Some in Hr' as [[<- <-]|[_ Hr']]; [rewrite Hrj|]; eauto.
Qed.

Lemma glb_inv_same m rs l r rd rd' : glb_inv m rs l -> m !! r = Some rd -> rrate rd' = rrate rd -> glb_inv (<[r := rd']> m) rs l.
Proof.
  intros ((ls & Hf) & H0 & Hj) Hr Hrj. assert (r <> 0) by congruence. split; [|split; [by rewrite lookup_insert_ne|]].
  - exists ls. intros c. destruct (Hf c) as [Hl Hc]. split; [done|]. intros r'. rewrite Hc, run_rate_insert.
    case_decide; [|done]. subst. rewrite Hrj. unfold run_rate. by rewrite Hr.
  - intros r' rd2 Hr'. apply lookup_insert_Some in Hr' as [[<- <-]|[_ Hr']]; [rewrite Hrj|]; eauto.
Qed.

(** A rate has a run exactly when its header is not empty, and then its oldest run is one of them. *)
Lemma glb_inv_oldest m rs l c : glb_inv m rs l -> Lru.nonempty (hdr_of rs c) = true ->
  exists rd, m !! Lru.newer (hdr_of rs c) = Some rd /\ rrate rd = c.
Proof.
  intros ((ls & Hf) & H0 & Hj) Hne. destruct (Hf c) as [(Hn & Hh & _) Hc]. rewrite Hh in *.
  destruct (ls c) as [|x l'] eqn:Hl using rev_ind; [done|]. rewrite Lru.bottom_app_nil. simpl.
  specialize (Hc x). unfold run_rate in Hc. destruct Hc as [Hc _]. opose proof* Hc as Hx; [set_solver|].
  destruct (m !! x) as [rd|]; [|done]. exists rd. split; [done|]. by injection Hx.
Qed.

Lemma glb_inv_nonempty m rs l c : glb_inv m rs l -> Lru.nonempty (hdr_of rs c) = negb (Lru.newer (hdr_of rs c) =? 0).
Proof.
  intros ((ls & Hf) & H0 & Hj). destruct (Hf c) as [(Hn & Hh & _) Hc]. rewrite Hh. unfold Lru.nonempty. simpl.
  apply NoDup_cons in Hn as [Hn _].
  destruct (ls c) as [|x l'] eqn:Hl using rev_ind; [done|]. rewrite Lru.bottom_app_nil.
  destruct (Z.eqb_spec x 0); [set_solver|done].
Qed.

Lemma glb_inv_run m rs l r rd : glb_inv m rs l -> m !! r = Some rd -> Lru.nonempty (hdr_of rs (rrate rd)) = true.
Proof.
  intros Hg Hr. rewrite (glb_inv_nonempty m rs l) by done. destruct Hg as ((ls & Hf) & H0 & Hj).
  destruct (Hf (rrate rd)) as [(Hn & Hh & _) Hc]. rewrite Hh. simpl. apply NoDup_cons in Hn as [Hn _].
  assert (r ∈ ls (rrate rd)) as Hi by (apply Hc; unfold run_rate; by rewrite Hr).
  destruct (ls (rrate rd)) as [|x l'] eqn:Hl using rev_ind; [set_solver|]. rewrite Lru.bottom_app_nil.
  destruct (Z.eqb_spec x 0); [set_solver|done].
Qed.
End rate_lists.

(** ** The table of the rates *)
Section rate_table.
Context {A : Type} {C : Config} {HC : ConfigOk C}.
Implicit Types (s : t A) (b : rate_tab).

Definition has_runs b (r : Z) : Prop := Lru.nonempty (hdr_of (lrus b) r) = true.
Definition members b (P : Z -> Prop) : Prop := NoDup (s_tab b) /\ forall x, x ∈ s_tab b <-> P x.
Definition bounds_inv b : Prop := forall x, has_runs b x -> lo b <= x < hi b /\ 0 <= x < NRates.
Definition tab_inv b : Prop := bounds_inv b /\ members b (has_runs b).

Lemma before_irrefl s a : before s a a = false.
Proof. unfold before. rewrite !Z.ltb_irrefl. by destruct (_ =? _). Qed.

Lemma before_total s x y : 0 <= x < NRates -> 0 <= y < NRates -> before s x y = false -> before s y x = false -> x = y.
Proof.
  intros Hx Hy. unfold before. rewrite !orb_false_iff, !andb_false_iff. intros [H1 H2] [H3 H4]. b2p.
  apply rate_val_inj; [done|done|]. destruct H2, H4; b2p; lia.
Qed.

Lemma tab_insert_elem s r p l : 0 <= r < NRates -> (forall a, a ∈ l -> 0 <= a < NRates) ->
  forall x, x ∈ (tab_insert s r p l).1.1 <-> x = r \/ x ∈ l.
Proof.
  intros Hr. revert p. induction l as [|a l IH]; intros p Hl x; simpl; [set_solver|].
  destruct (before s a r) eqn:H1.
  - specialize (IH (Some a) ltac:(set_solver) x). destruct (tab_insert s r (Some a) l) as [[l' p'] n']. simpl in *. set_solver.
  - destruct (before s r a) eqn:H2; simpl; [set_solver|].
    assert (a = r) as -> by (eapply before_total; eauto; apply Hl; set_solver). set_solver.
Qed.

Lemma tab_insert_nodup s r p l : 0 <= r < NRates -> (forall a, a ∈ l -> 0 <= a < NRates) ->
  r ∉ l -> NoDup l -> NoDup (tab_insert s r p l).1.1.
Proof.
  intros Hr. revert p. induction l as [|a l IH]; intros p Hl Hrl Hn; simpl; [apply NoDup_singleton|].
  apply NoDup_cons in Hn as Hn'. destruct Hn' as [Ha Hn']. destruct (before s a r) eqn:H1.
  - specialize (IH (Some a) ltac:(set_solver) ltac:(set_solver) Hn').
    pose proof (tab_insert_elem s r (Some a) l Hr ltac:(set_solver) a) as He.
    destruct (tab_insert s r (Some a) l) as [[l' p'] n']. simpl in *. apply NoDup_cons. split; [|done]. rewrite He. set_solver.
  - destruct (before s r a) eqn:H2; simpl; [|done]. apply NoDup_cons. by split.
Qed.

Lemma tab_erase_spec s r : tab_inv (tab s) -> 0 <= r < NRates -> exists l,
  tab_erase r s = set_s_tab l s /\ NoDup l /\ forall x, x ∈ l <-> x <> r /\ has_runs (tab s) x.
Proof.
  intros [Hb [Hn Hm]] Hr. eexists. split; [reflexivity|]. split; [by apply NoDup_filter|].
  intros x. rewrite list_elem_of_filter, Hm. split.
  - intros [Hx Hx']. split; [|done]. intros ->. rewrite before_irrefl in Hx. naive_solver.
  - intros [Hne Hx]. split; [|done]. destruct (Hb _ Hx) as [_ Hrx].
    destruct (before s x r) eqn:H1; [by left|]. destruct (before s r x) eqn:H2; [by right|].
    destruct Hne. by eapply before_total.
Qed.

Lemma s_insert_spec s r : members (tab s) (fun x => x <> r /\ has_runs (tab s) x) -> bounds_inv (tab s) -> has_runs (tab s) r ->
  exists b, s_insert r s = set_tab b s /\ lrus b = lrus (tab s) /\ tab_inv b.
Proof.
  intros [Hn Hm] Hb Hr. destruct (Hb _ Hr) as [_ Hrr].
  assert (forall a, a ∈ s_tab (tab s) -> 0 <= a < NRates) as Hrg by (intros a Ha; apply Hm in Ha as [_ Ha]; apply (Hb _ Ha)).
  assert (NoDup (tab_insert s r None (s_tab (tab s))).1.1) as Hn'
    by (apply tab_insert_nodup; [done|exact Hrg| |done]; by intros [? _]%Hm).
  pose proof (tab_insert_elem s r None (s_tab (tab s)) Hrr Hrg) as He.
  unfold s_insert. destruct (tab_insert s r None (s_tab (tab s))) as [[l p] n]. simpl in *.
  assert (forall lim, tab_inv (mkTab (lrus (tab s)) (lo (tab s)) (hi (tab s)) l (s_now (tab s)) lim)) as Hinv.
  { intros lim. split; [exact Hb|]. split; [done|]. intros x. unfold has_runs in *. simpl. rewrite He, Hm.
    destruct (decide (x = r)); naive_solver. }
  destruct p, n; (eexists; split; [reflexivity|split; [reflexivity|apply Hinv]]).
Qed.

Lemma shrink_lo_spec s fuel l h : (Z.to_nat (h - l) <= fuel)%nat -> l <= shrink_lo fuel s l h /\
  forall x, l <= x < shrink_lo fuel s l h -> Lru.nonempty (rate_hdr s x) = false.
Proof.
  revert l. induction fuel as [|fuel IH]; intros l Hf; simpl; [split; intros; lia|].
  destruct (Z.ltb_spec l h); simpl; [|split; intros; lia].
  destruct (Lru.nonempty (rate_hdr s l)) eqn:Hl; simpl; [split; intros; lia|].
  destruct (IH (l + 1)) as [H1 H2]; [lia|]. split; [lia|]. intros x Hx. destruct (decide (x = l)); [by subst|]. apply H2. lia.
Qed.
Lemma shrink_hi_spec s fuel l h : (Z.to_nat (h - l) <= fuel)%nat -> shrink_hi fuel s l h <= h /\
  forall x, shrink_hi fuel s l h <= x < h -> Lru.nonempty (rate_hdr s x) = false.
Proof.
  revert h. induction fuel as [|fuel IH]; intros h Hf; simpl; [split; intros; lia|].
  destruct (Z.ltb_spec l h); simpl; [|split; intros; lia].
  destruct (Lru.nonempty (rate_hdr s (h - 1))) eqn:Hl; simpl; [split; intros; lia|].
  destruct (IH (h - 1)) as [H1 H2]; [lia|]. split; [lia|]. intros x Hx. destruct (decide (x = h - 1)); [by subst|]. apply H2. lia.
Qed.

Lemma shrink_spec s : members (tab s) (has_runs (tab s)) -> bounds_inv (tab s) ->
  exists b, shrink s = set_tab b s /\ lrus b = lrus (tab s) /\ tab_inv b.
Proof.
  intros Hm Hb. unfold shrink. eexists. split; [reflexivity|]. split; [done|]. split; [|exact Hm].
  intros x Hx. destruct (Hb x Hx) as [Hlh Hr]. split; [|done]. simpl.
  set (l := shrink_lo _ _ _ _). set (h := shrink_hi _ _ _ _).
  destruct (shrink_lo_spec s (Z.to_nat (hi (tab s) - lo (tab s))) (lo (tab s)) (hi (tab s))) as [Hl1 Hl2]; [lia|].
  destruct (shrink_hi_spec s (Z.to_nat (hi (tab s) - l)) l (hi (tab s))) as [Hh1 Hh2]; [lia|]. fold l in Hl1, Hl2. fold h in Hh1, Hh2.
  assert (Lru.nonempty (rate_hdr s x) <> false) by (intros Hf; unfold has_runs, rate_hdr, hdr_of in *; simpl in *; congruence).
  split; destruct (Z.lt_ge_cases x l), (Z.lt_ge_cases x h); try lia; destruct H; auto with lia.
Qed.

Lemma fold_tab_insert s rs l : (forall a, a ∈ rs -> 0 <= a < NRates) -> (forall a, a ∈ l -> 0 <= a < NRates) ->
  NoDup (rs ++ l) -> NoDup (fold_left (fun l r => (tab_insert s r None l).1.1) rs l) /\
  forall x, x ∈ fold_left (fun l r => (tab_insert s r None l).1.1) rs l <-> x ∈ rs ++ l.
Proof.
  revert l. induction rs as [|r rs IH]; intros l Hrs Hl Hn; simpl; [done|].
  simpl in Hn. apply NoDup_cons in Hn as [Hr Hn]. rewrite NoDup_app in Hn. destruct Hn as (Hn1 & Hd & Hn2).
  assert (0 <= r < NRates) as Hrr by (apply Hrs; set_solver). pose proof (tab_insert_elem s r None l Hrr Hl) as He.
  destruct (IH (tab_insert s r None l).1.1) as [I1 I2]; [set_solver| |apply NoDup_app|].
  - intros a. rewrite He. intros [->|Ha]; auto.
  - split_and!; [done| |apply tab_insert_nodup; [done|done|set_solver|done]]. intros x Hx. rewrite He. set_solver.
  - split; [done|]. intros x. rewrite I2, elem_of_app, He. set_solver.
Qed.

Lemma s_refresh_spec s now : tab_inv (tab s) ->
  exists b, s_refresh now s = set_tab b s /\ lrus b = lrus (tab s) /\ lo b = lo (tab s) /\ hi b = hi (tab s) /\ tab_inv b.
Proof.
  intros Ht. assert (exists b, s = set_tab b s /\ lrus b = lrus (tab s) /\ lo b = lo (tab s) /\ hi b = hi (tab s) /\ tab_inv b) as Hsame.
  { exists (tab s). split_and!; by destruct s. }
  unfold s_refresh. destruct (now <=? s_limit (tab s)); [done|]. destruct (now <=? s_now (tab s) + one_second); [done|].
  clear Hsame. destruct Ht as [Hb _]. eexists. split; [reflexivity|]. simpl. split_and!; [done..|].
  split; [exact Hb|]. unfold members, has_runs, rate_hdr. simpl.
  set (rs := filter _ _). assert (forall x, x ∈ rs <-> has_runs (tab s) x) as Hrs.
  { intros x. unfold rs. rewrite list_elem_of_filter, elem_of_seqZ. unfold has_runs, hdr_of. split; [tauto|].
    intros Hx. pose proof (Hb x Hx). split; [done|]. lia. }
  match goal with |- NoDup (fold_left (fun l r => (tab_insert ?s0 r None l).1.1) rs []) /\ _ =>
    destruct (fold_tab_insert s0 rs []) as [H1 H2] end.
  - intros a Ha. apply Hrs in Ha. by apply Hb.
  - set_solver.
  - rewrite app_nil_r. apply NoDup_filter, NoDup_seqZ.
  - split; [done|]. intros x. rewrite H2, app_nil_r. apply Hrs.
Qed.

Lemma rate_chk_ok s : tab_inv (tab s) -> rate_chk s = Ret tt.
Proof.
  intros [Hb [_ Hm]]. unfold rate_chk. generalize (seqZ 0 NRates). induction l as [|r l IH]; [done|]. simpl.
  assert (chk_rate s r = Ret tt) as ->; [|done]. unfold chk_rate. change (rate_hdr s r) with (hdr_of (lrus (tab s)) r).
  destruct (Lru.nonempty (hdr_of (lrus (tab s)) r)) eqn:Hr.
  - destruct (Hb r Hr) as [Hlh _]. rewrite !throw_unless_bind by lia. rewrite bool_decide_eq_true_2; [done|]. by apply Hm.
  - rewrite bool_decide_eq_true_2; [done|]. intros Hx. apply Hm in Hx. unfold has_runs in Hx. congruence.
Qed.
End rate_table.
