(* ===== verification/CacheEngineOps.v ===== *)
(** * The cache engine keeps its invariant: removal, creation and access of runs, room making.

    [inv kp hk hn s] gathers the parts of [CacheEngineInv]. Each operation of [Engine] is shown to
    succeed from a state that satisfies it, to reestablish it and to change the maps as expected. *)
From S2P Require Import Prelude.
From S2P Require Import CacheMatch.
From S2P Require Import CacheLru.
From S2P Require Import CacheEngine.
From S2P Require Import CacheEngineInv.
Local Open Scope Z_scope.
Import Engine.

(** ** Reference counts *)
Definition ref_inv (h : Z -> Z) (cnt : Z -> run -> Z) (m : gmap Z run) (refs : gmap Z Z) : Prop :=
  forall k, 0 <= h k /\ default 0 (refs !! k) = sum_runs (cnt k) m + h k /\ default 0 (refs !! k) < 2 ^ 32.

Definition occ (n : Z) (l : list Z) : Z := Z.of_nat (length (filter (fun d => d = n) l)).

Section refs.
Context {A : Type}.
Implicit Types (s : t A).

Lemma occ_cons n d l : occ n (d :: l) = (if decide (d = n) then 1 else 0) + occ n l.
Proof. unfold occ. rewrite filter_cons. case_decide; cbn [length]; lia. Qed.
Lemma occ_nonneg n l : 0 <= occ n l.
Proof. unfold occ. lia. Qed.

Lemma key_inc_spec s k c : keys s !! k = Some c -> 0 <= c -> c + 1 < 2 ^ 32 -> key_inc k s = Ret (set_keys (<[k := c + 1]> (keys s)) s).
Proof. intros Hk ? ?. unfold key_inc. rewrite Hk, u32_small; [done|lia]. Qed.

Lemma key_dec_spec s k : 0 < default 0 (keys s !! k) < 2 ^ 32 -> exists ks, key_dec k s = Ret (set_keys ks s) /\
  forall k', default 0 (ks !! k') = default 0 (keys s !! k') - (if decide (k' = k) then 1 else 0).
Proof.
  unfold key_dec. destruct (keys s !! k) as [c|] eqn:Hk; simpl; [|lia]. intros Hc.
  rewrite swear_bind by (apply negb_true_iff, Z.eqb_neq; lia). rewrite u32_small by lia.
  destruct (Z.eqb_spec (c - 1) 0); eexists; (split; [reflexivity|]); intros k'; destruct (decide (k' = k)) as [->|Hne].
  - rewrite lookup_delete_eq, Hk. simpl. lia.
  - rewrite lookup_delete_ne by done. lia.
  - rewrite lookup_insert_eq, Hk. simpl. lia.
  - rewrite lookup_insert_ne by done. lia.
Qed.

Lemma nodes_inc_spec l s : (forall n, n ∈ l -> is_Some (nodes s !! n)) ->
  (forall n, 0 <= default 0 (nodes s !! n) /\ default 0 (nodes s !! n) + occ n l < 2 ^ 32) ->
  exists ns, iter node_inc l s = Ret (set_nodes ns s) /\
    (forall n, is_Some (ns !! n) <-> is_Some (nodes s !! n)) /\ forall n, default 0 (ns !! n) = default 0 (nodes s !! n) + occ n l.
Proof.
  revert s. induction l as [|d l IH]; intros s Hs Hb; cbn [iter].
  { exists (nodes s). split_and!; [by destruct s|done|intros; unfold occ; simpl; lia]. }
  destruct (Hs d) as [c Hc]; [set_solver|]. pose proof (Hb d) as [H0 H1]. rewrite Hc in H0, H1. simpl in H0, H1.
  rewrite occ_cons, decide_True in H1 by done. pose proof (occ_nonneg d l). assert (node_inc d s = Ret (set_nodes (<[d := c + 1]> (nodes s)) s)) as ->
    by (unfold node_inc; rewrite Hc, u32_small by lia; done).
  cbn [mbind outcome_mbind]. destruct (IH (set_nodes (<[d := c + 1]> (nodes s)) s)) as (ns & -> & Hd & Hn).
  - intros n Hn. simpl. rewrite lookup_insert_is_Some. destruct (decide (d = n)); [by left|right; split; [done|apply Hs; set_solver]].
  - intros n. simpl. pose proof (Hb n) as [H2 H3]. rewrite occ_cons in H3. case_decide as Hdn.
    + subst. rewrite lookup_insert_eq. rewrite Hc in *. simpl in *. lia.
    + rewrite lookup_insert_ne by done. lia.
  - exists ns. split_and!; [done| |].
    + intros n. rewrite Hd. simpl. rewrite lookup_insert_is_Some. destruct (decide (d = n)); [subst; rewrite Hc; naive_solver|tauto].
    + intros n. rewrite Hn, occ_cons. simpl. case_decide as Hdn.
      * subst. rewrite lookup_insert_eq, Hc. simpl. lia.
      * rewrite lookup_insert_ne by done. lia.
Qed.

Lemma nodes_dec_spec l s : (forall n, occ n l <= default 0 (nodes s !! n) < 2 ^ 32) ->
  exists ns tr, iter node_dec l s = Ret (set_node_trash tr (set_nodes ns s)) /\
    (forall n, is_Some (ns !! n) <-> is_Some (nodes s !! n)) /\
    (forall n, default 0 (ns !! n) = default 0 (nodes s !! n) - occ n l) /\
    (forall n, n ∈ node_trash s -> n ∈ tr) /\ (forall n, ns !! n = Some 0 -> nodes s !! n = Some 0 \/ n ∈ tr) /\
    (forall n, n ∈ tr -> n ∈ node_trash s \/ is_Some (nodes s !! n)).
Proof.
  revert s. induction l as [|d l IH]; intros s Hb; cbn [iter].
  { exists (nodes s), (node_trash s). split_and!; [by destruct s|done|intros; unfold occ; simpl; lia|done|tauto|tauto]. }
  pose proof (Hb d) as H1. rewrite occ_cons, decide_True in H1 by done. pose proof (occ_nonneg d l).
  destruct (nodes s !! d) as [c|] eqn:Hc; simpl in H1; [|lia].
  set (s0 := set_nodes (<[d := c - 1]> (nodes s)) s).
  set (s1 := if c - 1 =? 0 then set_node_trash (node_trash s ++ [d]) s0 else s0).
  assert (node_dec d s = Ret s1) as ->.
  { unfold node_dec. rewrite Hc, swear_bind by (apply Z.ltb_lt; lia). by rewrite u32_small by lia. }
  cbn [mbind outcome_mbind].
  assert (nodes s1 = <[d := c - 1]> (nodes s)) as Hs1 by (unfold s1; by case_match).
  destruct (IH s1) as (ns & tr & He & Hd & Hn & Htr & Hz & Hin).
  { intros n. rewrite Hs1. pose proof (Hb n) as H2. rewrite occ_cons in H2. case_decide as Hdn.
    + subst. rewrite lookup_insert_eq. rewrite Hc in *. simpl in *. lia.
    + rewrite lookup_insert_ne by done. lia. }
  exists ns, tr. rewrite He. split_and!.
  - unfold s1. by case_match.
  - intros n. rewrite Hd, Hs1, lookup_insert_is_Some. destruct (decide (d = n)); [subst; rewrite Hc; naive_solver|tauto].
  - intros n. rewrite Hn, Hs1, occ_cons. case_decide as Hdn.
    + subst. rewrite lookup_insert_eq, Hc. simpl. lia.
    + rewrite lookup_insert_ne by done. lia.
  - intros n Hi. apply Htr. unfold s1. case_match; simpl; set_solver.
  - intros n Hi. apply Hz in Hi as [Hi|]; [|by right]. rewrite Hs1 in Hi. apply lookup_insert_Some in Hi as [[<- Hc0]|[_ Hi]]; [|by left].
    right. apply Htr. unfold s1. rewrite Hc0. simpl. set_solver.
  - intros n Hi. apply Hin in Hi. rewrite Hs1, lookup_insert_is_Some in Hi.
    destruct (decide (d = n)) as [->|Hne]; [right; rewrite Hc; eauto|]. destruct Hi as [Hi|[?|[_ Hi]]]; [|done|by right].
    left. unfold s1 in Hi. case_match; simpl in Hi; set_solver.
Qed.
End refs.

Lemma ref_inv_insert h cnt m refs refs' r rd : ref_inv h cnt m refs -> m !! r = None ->
  (forall k, default 0 (refs' !! k) = default 0 (refs !! k) + cnt k rd) -> (forall k, default 0 (refs' !! k) < 2 ^ 32) ->
  ref_inv h cnt (<[r := rd]> m) refs'.
Proof.
  intros Hi Hr He Hb k. specialize (Hi k). specialize (He k). specialize (Hb k).
  rewrite sum_runs_insert by done. lia.
Qed.

Lemma ref_inv_delete h cnt m refs refs' r rd : ref_inv h cnt m refs -> m !! r = Some rd -> (forall k, 0 <= cnt k rd) ->
  (forall k, default 0 (refs' !! k) = default 0 (refs !! k) - cnt k rd) -> ref_inv h cnt (delete r m) refs'.
Proof.
  intros Hi Hr Hc He k. specialize (Hi k). specialize (He k). specialize (Hc k).
  rewrite (sum_runs_delete _ _ _ rd) by done. lia.
Qed.

Lemma ref_inv_same h cnt m refs r rd rd' : ref_inv h cnt m refs -> m !! r = Some rd -> (forall k, cnt k rd' = cnt k rd) ->
  ref_inv h cnt (<[r := rd']> m) refs.
Proof. intros Hi Hr Hc k. rewrite (sum_runs_replace _ _ _ rd) by auto. apply Hi. Qed.

Lemma ref_inv_ge h cnt m refs r rd k : ref_inv h cnt m refs -> (forall k rd, 0 <= cnt k rd) -> m !! r = Some rd ->
  cnt k rd <= default 0 (refs !! k) < 2 ^ 32.
Proof. intros Hi Hc Hr. specialize (Hi k). pose proof (sum_runs_ge (cnt k) m r rd ltac:(eauto) Hr). lia. Qed.

(** ** The invariant *)
Section inv.
Context {A : Type} {HA : Allocator A} {HAO : AllocatorOk A} {C : Config} {HC : ConfigOk C}.
Implicit Types (s : t A).

(** The trashes hold existing entries, and every entry without reference but the job [kp]. *)
Definition trash_inv (kp : Z) s : Prop :=
  (forall j, j ∈ job_trash s -> is_Some (jobs s !! j)) /\ (forall n, n ∈ node_trash s -> is_Some (nodes s !! n)) /\
  (forall j jd, jobs s !! j = Some jd -> n_runs jd = 0 -> j = kp \/ j ∈ job_trash s) /\
  (forall n, nodes s !! n = Some 0 -> n ∈ node_trash s) /\ jobs s !! 0 = None /\ nodes s !! 0 = None.

Record inv (kp : Z) (hk hn : Z -> Z) s : Prop := {
  inv_alloc : owns (ralloc s) (dom (runs s));
  inv_jobs : job_inv (runs s) (jobs s) (job_links s);
  inv_glb : glb_inv (runs s) (lrus (tab s)) (glb_links s);
  inv_tab : tab_inv (tab s);
  inv_keys : ref_inv hk key_cnt (runs s) (keys s);
  inv_nodes : ref_inv hn node_cnt (runs s) (nodes s);
  inv_sz : total_sz s = sum_runs rsz (runs s) /\ forall r rd, runs s !! r = Some rd -> 0 <= rsz rd;
  inv_cap : 0 <= reserved_sz s /\ total_sz s + reserved_sz s <= max_sz;
  inv_trash : trash_inv kp s
}.

(** What does not change in the jobs *)
Definition job_id (jd : job) : nat * string := (jn_statics jd, jname jd).
Definition same_jobs s s' : Prop := forall j, job_id <$> jobs s' !! j = job_id <$> jobs s !! j.

Lemma same_jobs_insert (js : gmap Z job) j jd jd' : js !! j = Some jd -> job_id jd' = job_id jd ->
  forall j', job_id <$> <[j := jd']> js !! j' = job_id <$> js !! j'.
Proof.
  intros Hj Hid j'. destruct (decide (j' = j)) as [->|Hne].
  - rewrite lookup_insert_eq, Hj. simpl. by f_equal.
  - by rewrite lookup_insert_ne.
Qed.

Lemma same_runs_insert (js : gmap Z job) j jd jd' : js !! j = Some jd -> n_runs jd' = n_runs jd ->
  forall j', n_runs <$> <[j := jd']> js !! j' = n_runs <$> js !! j'.
Proof.
  intros Hj Hid j'. destruct (decide (j' = j)) as [->|Hne].
  - rewrite lookup_insert_eq, Hj. simpl. by f_equal.
  - by rewrite lookup_insert_ne.
Qed.
Lemma trash_same kp s s' : trash_inv kp s -> job_trash s' = job_trash s -> node_trash s' = node_trash s -> nodes s' = nodes s ->
  (forall j, n_runs <$> jobs s' !! j = n_runs <$> jobs s !! j) -> trash_inv kp s'.
Proof.
  intros (T1 & T2 & T3 & T4 & T5 & T6) E1 E2 E3 E4. unfold trash_inv. rewrite E1, E2, E3. split_and!; [|done| |done| |done].
  - intros j Hj. specialize (T1 j Hj). specialize (E4 j). destruct (jobs s' !! j), (jobs s !! j), T1; naive_solver.
  - intros j jd Hj H0. specialize (E4 j). rewrite Hj in E4. destruct (jobs s !! j) as [jd'|] eqn:Hj'; [|done].
    apply (inj Some) in E4. apply (T3 j jd'); [done|]. congruence.
  - specialize (E4 0). rewrite T5 in E4. by destruct (jobs s' !! 0).
Qed.
Lemma trash_weaken kp s : trash_inv 0 s -> trash_inv kp s.
Proof.
  intros (T1 & T2 & T3 & T4 & T5 & T6). split_and!; try done. intros j jd Hj H0. destruct (T3 j jd Hj H0) as [->|]; [congruence|by right].
Qed.

Definition file_of s (rd : run) : string := match run_name rd s with Ret n => n | _ => EmptyString end.

(** Effect of the removal of a run *)
Definition removed (r : Z) (rd : run) s s' : Prop :=
  runs s' = delete r (runs s) /\ reserved_sz s' = reserved_sz s /\ same_jobs s s' /\
  files s' = files s ∖ {[file_of s rd]} /\ Lru.older (Lru.get (job_links s') r) = 0 /\
  (room (ralloc s) -> room (ralloc s')) /\ (forall n, is_Some (nodes s' !! n) <-> is_Some (nodes s !! n)) /\
  (forall n, n ∈ node_trash s -> n ∈ node_trash s') /\
  (forall n, nodes s' !! n = Some 0 -> nodes s !! n = Some 0 \/ n ∈ node_trash s').

(** *** Updates of the header of a rate *)
Lemma bounds_update b r h l now lim : bounds_inv b -> has_runs b r ->
  bounds_inv (mkTab (<[r := h]> (lrus b)) (lo b) (hi b) l now lim).
Proof.
  intros Hb Hr x. unfold has_runs. simpl. rewrite hdr_of_insert. case_decide; [subst; intros _; by apply Hb|apply Hb].
Qed.
Lemma members_update b r h l lw up now lim : NoDup l -> (forall x, x ∈ l <-> x <> r /\ has_runs b x) ->
  let b' := mkTab (<[r := h]> (lrus b)) lw up l now lim in members b' (fun x => x <> r /\ has_runs b' x).
Proof.
  intros Hn Hl b'. split; [done|]. intros x. unfold b', has_runs. simpl. rewrite Hl, hdr_of_insert. case_decide; [subst; tauto|done].
Qed.

Lemma retab_spec s r : members (tab s) (fun x => x <> r /\ has_runs (tab s) x) -> bounds_inv (tab s) ->
  Lru.nonempty (rate_hdr s r) = negb (Lru.newer (rate_hdr s r) =? 0) ->
  exists b, (if Lru.newer (rate_hdr s r) =? 0 then shrink s else s_insert r s) = set_tab b s /\ lrus b = lrus (tab s) /\ tab_inv b.
Proof.
  intros Hm Hb Hne. destruct (Z.eqb_spec (Lru.newer (rate_hdr s r)) 0) as [H0|H0].
  - apply shrink_spec; [|done]. destruct Hm as [Hn Hm]. split; [done|]. intros x. rewrite Hm. split; [tauto|]. intros Hx.
    split; [|done]. intros ->. unfold has_runs, rate_hdr, hdr_of in *. simpl in *. congruence.
  - apply s_insert_spec; [done|done|done].
Qed.

Lemma get_run_some s r rd : runs s !! r = Some rd -> get_run r s = Ret rd.
Proof. unfold get_run. by intros ->. Qed.
Lemma get_job_some s j jd : jobs s !! j = Some jd -> get_job j s = Ret jd.
Proof. unfold get_job. by intros ->. Qed.
Lemma upd_job_some s j jd f : jobs s !! j = Some jd -> upd_job j f s = Ret (set_jobs (<[j := f jd]> (jobs s)) s).
Proof. intros H. unfold upd_job. by rewrite (get_job_some _ _ _ H). Qed.

Lemma inv_weaken kp hk hn s : inv 0 hk hn s -> inv kp hk hn s.
Proof. intros []. split; try done. by apply trash_weaken. Qed.

(** *** Removal *)
Lemma unlink_spec kp hk hn s r rd : inv kp hk hn s -> runs s !! r = Some rd -> exists jd jh jl gl b last,
  jobs s !! rjob rd = Some jd /\ 0 < n_runs jd < 2 ^ 16 /\ Lru.older (Lru.get jl r) = 0 /\ (last = true <-> n_runs jd = 1) /\
  unlink_run r rd s = Ret (set_tab b (set_glb_links gl (set_jobs (<[rjob rd := set_jlru jh jd]> (jobs s)) (set_job_links jl s))), last) /\
  job_inv (delete r (runs s)) (<[rjob rd := set_n_runs (u16 (n_runs jd - 1)) (set_jlru jh jd)]> (jobs s)) jl /\
  glb_inv (delete r (runs s)) (lrus b) gl /\ tab_inv b.
Proof.
  intros [Ial Ijo Igl Ita _ _ _ _ _] Hr. assert (has_runs (tab s) (rrate rd)) as Hhr by (by eapply glb_inv_run).
  destruct (tab_erase_spec s (rrate rd) Ita) as (l & Htab & Hnl & Hl); [by eapply Ita|].
  destruct (job_inv_erase _ _ _ _ _ Ijo Hr) as (jd & jh & jl & last & Hjd & He & Hn0 & Hold & Hlast & HJ').
  destruct (glb_inv_erase _ _ _ _ _ Igl Hr) as (gh & gl & glast & Hg & HG').
  set (b := mkTab (<[rrate rd := gh]> (lrus (tab s))) (lo (tab s)) (hi (tab s)) l (s_now (tab s)) (s_limit (tab s))).
  set (s2 := set_tab b (set_glb_links gl (set_jobs (<[rjob rd := set_jlru jh jd]> (jobs s)) (set_job_links jl s)))).
  destruct (retab_spec s2 (rrate rd)) as (b' & Hb' & Hlr & Hti).
  { exact (members_update (tab s) (rrate rd) gh l _ _ _ _ Hnl Hl). }
  { by apply (bounds_update (tab s)), Hhr; apply Ita. }
  { eapply glb_inv_nonempty, HG'. }
  exists jd, jh, jl, gl, b', last. split_and!; [done|apply Hn0|apply Hn0|done|done| |done|by rewrite Hlr|done].
  unfold unlink_run. rewrite Htab, (get_job_some (set_s_tab l s) _ jd) by done. cbn [mbind outcome_mbind].
  change (job_links (set_s_tab l s)) with (job_links s). rewrite He.
  rewrite (upd_job_some (set_job_links jl (set_s_tab l s)) _ jd) by done. cbn [mbind outcome_mbind].
  match goal with |- context [rate_hdr ?s0 (rrate rd)] => change (rate_hdr s0 (rrate rd)) with (hdr_of (lrus (tab s)) (rrate rd)) end.
  match goal with |- context [glb_links ?s0] => change (glb_links s0) with (glb_links s) end. rewrite Hg.
  match goal with |- context [shrink ?s0] => change s0 with s2 end. by rewrite Hb'.
Qed.

Lemma release_spec hk hn s r rd jd jv : jobs s !! rjob rd = Some jd -> 0 < n_runs jd -> runs s !! r = Some rd ->
  owns (ralloc s) (dom (runs s)) -> ref_inv hk key_cnt (runs s) (keys s) -> ref_inv hn node_cnt (runs s) (nodes s) ->
  0 <= rsz rd <= total_sz s -> total_sz s < 2 ^ 64 -> exists a ks ns ntr jtr,
  release_run r rd jv s = Ret (mk (delete r (runs s)) a (job_links s) (glb_links s)
    (<[rjob rd := set_n_runs (u16 (n_runs jd - 1)) jd]> (jobs s)) ks ns (tab s) (total_sz s - rsz rd) (reserved_sz s)
    jtr ntr (files s ∖ {[file_of s rd]})) /\
  owns a (dom (delete r (runs s))) /\ (room (ralloc s) -> room a) /\
  ref_inv hk key_cnt (delete r (runs s)) ks /\ ref_inv hn node_cnt (delete r (runs s)) ns /\
  (forall n, is_Some (ns !! n) <-> is_Some (nodes s !! n)) /\ (forall n, n ∈ node_trash s -> n ∈ ntr) /\
  (forall n, ns !! n = Some 0 -> nodes s !! n = Some 0 \/ n ∈ ntr) /\ (forall n, n ∈ ntr -> n ∈ node_trash s \/ is_Some (nodes s !! n)) /\
  jtr = if jv then job_trash s ++ [rjob rd] else job_trash s.
Proof.
  intros Hjd Hn0 Hr Hal Hke Hno Hsz Hto. unfold release_run.
  pose proof (ref_inv_ge _ _ _ _ _ _ (rkey rd) Hke key_cnt_nonneg Hr) as Hk. unfold key_cnt in Hk. rewrite Z.eqb_refl in Hk.
  destruct (key_dec_spec s (rkey rd)) as (ks & -> & Hks); [lia|]. cbn [mbind outcome_mbind].
  rewrite (get_job_some (set_keys ks s) _ jd) by done. cbn [mbind outcome_mbind]. rewrite swear_bind by (by apply Z.ltb_lt).
  rewrite (upd_job_some (set_keys ks s) _ jd) by done. cbn [mbind outcome_mbind].
  match goal with |- context [iter node_dec _ ?s0] => destruct (nodes_dec_spec (rdeps rd) s0) as (ns & ntr & -> & Hd & Hn & Htr & Hz & Hin) end.
  { intros n. apply (ref_inv_ge _ _ _ _ r rd n Hno); [intros; apply node_cnt_nonneg|done]. }
  cbn [mbind outcome_mbind]. unfold run_name, get_job at 1. simpl jobs. rewrite lookup_insert_eq. cbn [mbind outcome_mbind].
  match goal with |- context [unlnk_run ?nm _] => assert (nm = file_of s rd) as -> by (unfold file_of, run_name; by rewrite (get_job_some _ _ _ Hjd)) end.
  match goal with |- context [if jv then ?x else ?y] => set (s' := if jv then x else y) end.
  assert (total_sz s' = total_sz s) as -> by (unfold s'; by destruct jv). rewrite swear_bind by (apply Z.leb_le; lia).
  rewrite u64_small by lia. assert (ralloc (set_total_sz (total_sz s - rsz rd) s') = ralloc s) as -> by (unfold s'; by destruct jv).
  destruct (free_owned (ralloc s) (dom (runs s)) r Hal) as (a & -> & Ha & Hroom); [by apply elem_of_dom_2 in Hr|]. cbn [mbind outcome_mbind].
  exists a, ks, ns, ntr, (job_trash s'). split_and!; try done.
  - f_equal. unfold s'. by destruct jv.
  - by rewrite dom_delete_L.
  - eapply ref_inv_delete; [done|done|intros; apply key_cnt_nonneg|]. intros k. rewrite Hks. unfold key_cnt.
    destruct (decide (k = rkey rd)), (Z.eqb_spec (rkey rd) k); congruence || lia.
  - eapply ref_inv_delete; [done|done|intros; apply node_cnt_nonneg|exact Hn].
  - unfold s'. by destruct jv.
Qed.

Lemma victimize_spec kp hk hn s r rd vj : inv kp hk hn s -> runs s !! r = Some rd -> vj = true \/ rjob rd = kp ->
  exists s' b, victimize r vj s = Ret (s', b) /\ inv kp hk hn s' /\ removed r rd s s'.
Proof.
  intros I Hr Hkp. destruct (unlink_spec _ _ _ _ _ _ I Hr) as (jd & jh & jl & gl & b & last & Hjd & Hn0 & Hold & Hlast & Hu & HJ & HG & HT).
  destruct I as [Ial Ijo Igl Ita Ike Ino [Isz Isz'] Ica Itr].
  pose proof (sum_runs_ge rsz (runs s) r rd Isz' Hr) as Hge. pose proof max_sz_range as Hmx.
  unfold victimize. rewrite (get_run_some _ _ _ Hr). cbn [mbind outcome_mbind]. rewrite Hu. cbn [mbind outcome_mbind].
  match goal with |- context [release_run r rd ?jv ?s0] =>
    destruct (release_spec hk hn s0 r rd (set_jlru jh jd) jv) as (a & ks & ns & ntr & jtr & -> & Ha & Hroom & HK & HN & Hd & Ht & Hz & Hin & Hjtr); simpl; try done end.
  { by rewrite lookup_insert_eq. } { apply Hn0. } { specialize (Isz' _ _ Hr). lia. } { lia. }
  simpl in *. eexists _, _. split; [reflexivity|]. split.
  - split; simpl; try done.
    + by rewrite insert_insert_eq.
    + rewrite (sum_runs_delete _ _ _ rd) by done. split; [lia|]. intros r' rd' H'. apply lookup_delete_Some in H' as [_ H']. eauto.
    + specialize (Isz' _ _ Hr). lia.
    + rewrite insert_insert_eq. destruct Itr as (T1 & T2 & T3 & T4 & T5 & T6). split_and!; simpl.
      * intros j. rewrite Hjtr, lookup_insert_is_Some'. destruct (vj && last); [rewrite elem_of_app, list_elem_of_singleton|]; naive_solver.
      * intros n [Hn|Hn]%Hin; apply Hd; auto.
      * intros j jd' [[<- <-]|[Hne Hj]]%lookup_insert_Some; simpl; [|intros H0; rewrite Hjtr; destruct (T3 _ _ Hj H0); [by left|right; destruct (vj && last); set_solver]].
        unfold u16. rewrite uwrap_small by lia. intros H0. destruct Hkp as [->|]; [right|by left].
        rewrite Hjtr, (proj2 Hlast) by lia. set_solver.
      * intros n [Hn|Hn]%Hz; auto.
      * rewrite lookup_insert_ne by congruence. done.
      * rewrite eq_None_not_Some, Hd, <- eq_None_not_Some. done.
  - split_and!; simpl; try done.
    + intros j. simpl. rewrite insert_insert_eq. by apply (same_jobs_insert _ _ jd).
    + unfold file_of, run_name, get_job. simpl. by rewrite lookup_insert_eq, Hjd.
Qed.

(** *** Refresh and access *)
Lemma inv_set_tab kp hk hn s b : inv kp hk hn s -> lrus b = lrus (tab s) -> tab_inv b -> inv kp hk hn (set_tab b s).
Proof. intros [] Hb Ht. split; simpl; try done. by rewrite Hb. Qed.

Lemma refresh_spec kp hk hn s now : inv kp hk hn s -> exists b, s_refresh now s = set_tab b s /\ inv kp hk hn (set_tab b s).
Proof.
  intros I. destruct (s_refresh_spec s now) as (b & Hb & Hl & _ & _ & Ht); [apply I|]. exists b. split; [done|]. by apply inv_set_tab.
Qed.

(** Changes that keep the runs, up to their dates *)
Definition touched (r : Z) (rd' : run) s s' : Prop :=
  runs s' = <[r := rd']> (runs s) /\ ralloc s' = ralloc s /\ keys s' = keys s /\ nodes s' = nodes s /\ files s' = files s /\
  total_sz s' = total_sz s /\ reserved_sz s' = reserved_sz s /\ job_trash s' = job_trash s /\ node_trash s' = node_trash s /\ same_jobs s s'.

Lemma access_spec kp hk hn s r rd now : inv kp hk hn s -> runs s !! r = Some rd ->
  exists s', access r now s = Ret s' /\ inv kp hk hn s' /\
    touched r (mkRun now (targets_crc rd) (rsz rd) (rjob rd) (rdeps rd) (rdep_crcs rd) (rkey rd) (rrate rd) (key_is_last rd) (rhas_hidden rd)) s s'.
Proof.
  intros [Ial Ijo Igl Ita Ike Ino [Isz Isz'] Ica Itr] Hr. assert (has_runs (tab s) (rrate rd)) as Hhr by (by eapply glb_inv_run).
  set (rd' := mkRun now _ _ _ _ _ _ _ _ _).
  destruct (tab_erase_spec s (rrate rd) Ita) as (l & Htab & Hnl & Hl); [by eapply Ita|].
  destruct (job_inv_touch _ _ _ _ _ rd' Ijo Hr) as (jd & jh & jl & Hjd & He & HJ'); [done|].
  destruct (glb_inv_touch _ _ _ _ _ rd' Igl Hr) as (gh & gl & Hg & HG'); [done|].
  set (b := mkTab (<[rrate rd := gh]> (lrus (tab s))) (lo (tab s)) (hi (tab s)) l (s_now (tab s)) (s_limit (tab s))).
  set (s2 := set_runs (<[r := rd']> (runs s)) (set_tab b (set_glb_links gl (set_jobs (<[rjob rd := set_jlru jh jd]> (jobs s)) (set_job_links jl s))))).
  assert (has_runs b (rrate rd)) as Hhr'.
  { refine (glb_inv_run _ _ _ r rd' HG' _). apply lookup_insert_eq. }
  destruct (s_insert_spec s2 (rrate rd)) as (b' & Hb' & Hlr & Hti).
  { exact (members_update (tab s) (rrate rd) gh l _ _ _ _ Hnl Hl). }
  { apply (bounds_update (tab s)); [apply Ita|exact Hhr]. }
  { done. }
  exists (set_tab b' s2). split; [|split].
  - unfold access. rewrite (get_run_some _ _ _ Hr). cbn [mbind outcome_mbind]. rewrite Htab.
    rewrite (get_job_some (set_s_tab l s) _ jd) by done. cbn [mbind outcome_mbind].
    change (job_links (set_s_tab l s)) with (job_links s). rewrite He. cbn [mbind outcome_mbind].
    rewrite (upd_job_some (set_job_links jl (set_s_tab l s)) _ jd) by done. cbn [mbind outcome_mbind].
    match goal with |- context [rate_hdr ?s0 (rrate rd)] => change (rate_hdr s0 (rrate rd)) with (hdr_of (lrus (tab s)) (rrate rd)) end.
    match goal with |- context [glb_links ?s0] => change (glb_links s0) with (glb_links s) end. rewrite Hg. cbn [mbind outcome_mbind].
    match goal with |- context [s_insert _ ?s0] => change s0 with s2 end. by rewrite Hb'.
  - split; simpl; try done.
    + rewrite dom_insert_lookup_L; [done|eauto].
    + by rewrite Hlr.
    + by eapply ref_inv_same.
    + by eapply ref_inv_same.
    + rewrite (sum_runs_replace _ _ _ rd) by done. split; [done|]. intros r' rd2 H'. apply lookup_insert_Some in H' as [[<- <-]|[_ H']]; [apply (Isz' _ _ Hr)|eauto].
    + eapply trash_same; [exact Itr|done..|]. intros j. simpl. apply (same_runs_insert _ _ jd); [done|done].
  - split_and!; simpl; try done. intros j. by apply (same_jobs_insert _ _ jd).
Qed.

(** *** Creation *)
Lemma tab_first b r h now lim : tab_inv b -> ~ has_runs b r -> 0 <= r < NRates ->
  let l := if r <? lo b then r else lo b in let u := if hi b <=? r then r + 1 else hi b in
  let b' := mkTab (<[r := h]> (lrus b)) l u (s_tab b) now lim in
  members b' (fun x => x <> r /\ has_runs b' x) /\ bounds_inv b'.
Proof.
  intros [Hb [Hn Hm]] Hr Hrr l u b'. split.
  - refine (members_update b r h (s_tab b) l u now lim Hn _). intros x. rewrite Hm. destruct (decide (x = r)); naive_solver.
  - intros x. unfold has_runs, b'. simpl. rewrite hdr_of_insert.
    assert (l <= r < u /\ l <= lo b /\ hi b <= u).
    { unfold l, u. destruct (Z.ltb_spec r (lo b)), (Z.leb_spec (hi b) r); lia. }
    case_decide; [subst; lia|]. intros Hx. pose proof (Hb x Hx). lia.
Qed.

Lemma tab_more b r h now lim : tab_inv b -> has_runs b r -> Lru.nonempty h = true ->
  tab_inv (mkTab (<[r := h]> (lrus b)) (lo b) (hi b) (s_tab b) now lim).
Proof.
  intros [Hb [Hn Hm]] Hr Hh. split; [by apply bounds_update|]. split; [done|]. intros x. unfold has_runs. simpl.
  rewrite hdr_of_insert, Hm. case_decide; [subst; by split|done].
Qed.

Lemma link_spec s r rd jd now : job_inv (runs s) (jobs s) (job_links s) -> glb_inv (runs s) (lrus (tab s)) (glb_links s) ->
  tab_inv (tab s) -> runs s !! r = None -> r <> 0 -> jobs s !! rjob rd = Some jd ->
  n_runs jd + 1 < 2 ^ 16 -> 0 <= rrate rd < NRates -> 0 <= total_sz s + rsz rd < 2 ^ 64 -> exists jh jl gl b,
  0 <= n_runs jd /\
  link_run r now rd s = Ret (set_tab b (set_glb_links gl (set_jobs (<[rjob rd := set_jlru jh jd]> (jobs s)) (set_job_links jl
    (set_total_sz (total_sz s + rsz rd) (set_runs (<[r := rd]> (runs s)) s)))))) /\
  job_inv (<[r := rd]> (runs s)) (<[rjob rd := set_n_runs (u16 (n_runs jd + 1)) (set_jlru jh jd)]> (jobs s)) jl /\
  glb_inv (<[r := rd]> (runs s)) (lrus b) gl /\ tab_inv b.
Proof.
  intros Ijo Igl Ita Hr Hr0 Hjd Hn Hrt Hsz.
  destruct (job_inv_insert _ _ _ _ rd _ Ijo Hr Hr0 Hjd Hn) as (jh & jl & first & He & Hn0 & HJ').
  destruct (glb_inv_insert _ _ _ _ rd Igl Hr Hr0 Hrt) as (gh & gl & gfirst & Hg & HG').
  assert (Lru.nonempty gh = true) as Hgh.
  { pose proof (glb_inv_run _ _ _ r rd HG' (lookup_insert_eq _ _ _)) as H1. by rewrite hdr_of_insert, decide_True in H1. }
  unfold link_run. change (total_sz (set_runs (<[r := rd]> (runs s)) s)) with (total_sz s). rewrite u64_small by lia.
  set (s0 := set_total_sz _ _). match goal with |- context [if negb ?c then s_refresh now s0 else s0] => set (f := negb c) end.
  assert (exists b, (if f then s_refresh now s0 else s0) = set_tab b s0 /\ lrus b = lrus (tab s) /\ tab_inv b) as (b & -> & Hbl & Hbt).
  { destruct f; [|exists (tab s); split_and!; by destruct s].
    destruct (s_refresh_spec s0 now) as (b & Hb & Hl & _ & _ & Ht); [done|]. by exists b. }
  rewrite (get_job_some (set_tab b s0) _ jd) by done. cbn [mbind outcome_mbind].
  change (job_links (set_tab b s0)) with (job_links s). rewrite He. cbn [mbind outcome_mbind].
  rewrite (upd_job_some (set_job_links jl (set_tab b s0)) _ jd) by done. cbn [mbind outcome_mbind].
  match goal with |- context [Lru.insert_top (rate_hdr ?s1 (rrate rd))] => change (rate_hdr s1 (rrate rd)) with (hdr_of (lrus b) (rrate rd)); change (glb_links s1) with (glb_links s) end.
  rewrite Hbl, Hg. cbn [mbind outcome_mbind]. rewrite <- Hbl in HG'.
  assert (f = true <-> ~ has_runs b (rrate rd)) as Hf.
  { unfold f, has_runs. rewrite Hbl, negb_true_iff, not_true_iff_false. reflexivity. }
  destruct f eqn:Hfe.
  - match goal with |- context [s_insert _ ?s1] => set (s2 := s1) end.
    destruct (tab_first b (rrate rd) gh (s_now b) (s_limit b) Hbt) as [Hm Hb2]; [by apply Hf|done|].
    set (b2 := mkTab _ (if rrate rd <? lo b then _ else _) _ _ _ _) in Hm, Hb2.
    assert (s2 = set_tab b2 (set_glb_links gl (set_jobs (<[rjob rd:=set_jlru jh jd]> (jobs s)) (set_job_links jl s0)))) as Hs2.
    { unfold s2, b2. simpl. destruct (rrate rd <? lo b); simpl; destruct (hi b <=? rrate rd); done. }
    destruct (s_insert_spec s2 (rrate rd)) as (b' & Hb' & Hlr & Hti); [by rewrite Hs2|by rewrite Hs2| |].
    { rewrite Hs2. unfold has_runs. simpl. by rewrite hdr_of_insert, decide_True. }
    exists jh, jl, gl, b'. split_and!; [done| |done| |done].
    + rewrite Hb', Hs2. reflexivity.
    + by rewrite Hlr, Hs2.
  - exists jh, jl, gl, (mkTab (<[rrate rd := gh]> (lrus b)) (lo b) (hi b) (s_tab b) (s_now b) (s_limit b)).
    split_and!; [done|reflexivity|done|done|]. apply tab_more; [done| |done].
    destruct (Lru.nonempty (hdr_of (lrus b) (rrate rd))) eqn:Hx; [done|]. unfold has_runs in Hf. naive_solver.
Qed.

(** Room in the reference counts for one more run *)
Definition refs_ok s (key : Z) (deps : list Z) : Prop :=
  is_Some (keys s !! key) /\ default 0 (keys s !! key) + 1 < 2 ^ 32 /\
  (forall n, n ∈ deps -> is_Some (nodes s !! n)) /\ forall n, default 0 (nodes s !! n) + occ n deps < 2 ^ 32.

Lemma ref_inv_nonneg h cnt m refs k : ref_inv h cnt m refs -> (forall k rd, 0 <= cnt k rd) -> 0 <= default 0 (refs !! k).
Proof. intros Hi Hc. specialize (Hi k). pose proof (sum_runs_nonneg (cnt k) m ltac:(auto)). lia. Qed.

Lemma retain_spec hk hn s r rd jd (m : gmap Z run) : jobs s !! rjob rd = Some jd -> 0 <= n_runs jd < max_runs_per_job -> m !! r = None ->
  ref_inv hk key_cnt m (keys s) -> ref_inv hn node_cnt m (nodes s) -> refs_ok s (rkey rd) (rdeps rd) -> exists ks ns,
  retain_run rd s = Ret (set_nodes ns (set_jobs (<[rjob rd := set_n_runs (u16 (n_runs jd + 1)) jd]> (jobs s)) (set_keys ks s))) /\
  ref_inv hk key_cnt (<[r := rd]> m) ks /\ ref_inv hn node_cnt (<[r := rd]> m) ns /\ (forall n, is_Some (ns !! n) <-> is_Some (nodes s !! n)) /\
  (forall n, ns !! n = Some 0 -> nodes s !! n = Some 0).
Proof.
  intros Hjd Hn Hr Hke Hno ([c Hc] & Hc1 & Hnd & Hnb). unfold retain_run. rewrite Hc in Hc1. simpl in Hc1.
  pose proof (ref_inv_nonneg _ _ _ _ (rkey rd) Hke key_cnt_nonneg) as Hc0. rewrite Hc in Hc0. simpl in Hc0.
  rewrite (key_inc_spec _ _ c) by done. cbn [mbind outcome_mbind].
  rewrite (get_job_some (set_keys _ s) _ jd) by done. cbn [mbind outcome_mbind]. rewrite swear_bind by (apply Z.ltb_lt; lia).
  rewrite (upd_job_some (set_keys _ s) _ jd) by done. cbn [mbind outcome_mbind].
  match goal with |- context [iter node_inc _ ?s0] => destruct (nodes_inc_spec (rdeps rd) s0) as (ns & -> & Hd & Hns) end.
  { exact Hnd. } { intros n. split; [|apply Hnb]. apply (ref_inv_nonneg _ _ _ _ n Hno). intros. apply node_cnt_nonneg. }
  eexists _, ns. split_and!; [reflexivity| | |exact Hd|].
  - eapply ref_inv_insert; [done|done| |]; intros k; unfold key_cnt.
    + destruct (Z.eqb_spec (rkey rd) k) as [<-|Hne]; [rewrite lookup_insert_eq, Hc; simpl; lia|rewrite lookup_insert_ne by done; lia].
    + destruct (Z.eqb_spec (rkey rd) k) as [<-|Hne]; [rewrite lookup_insert_eq; simpl; lia|rewrite lookup_insert_ne by done; apply Hke].
  - eapply ref_inv_insert; [done|done|exact Hns|]. intros n. rewrite Hns. apply Hnb.
  - intros n Hz. specialize (Hns n). rewrite Hz in Hns. simpl in Hns. destruct (proj1 (Hd n)) as [c' Hc']; [by eauto|]. simpl in Hc'.
    pose proof (ref_inv_nonneg _ _ _ _ n Hno ltac:(intros; apply node_cnt_nonneg)) as H0. rewrite Hc' in *. simpl in *. pose proof (occ_nonneg n (rdeps rd)).
    f_equal. lia.
Qed.

Definition created (r : Z) (rd : run) s s' : Prop :=
  runs s !! r = None /\ runs s' = <[r := rd]> (runs s) /\ reserved_sz s' = reserved_sz s /\ total_sz s' = total_sz s + rsz rd /\
  same_jobs s s' /\ files s' = files s /\ (forall n, is_Some (nodes s' !! n) <-> is_Some (nodes s !! n)) /\
  job_trash s' = job_trash s /\ node_trash s' = node_trash s.

Lemma new_run_spec kp hk hn s rd jd now : inv kp hk hn s -> kp = rjob rd \/ kp = 0 -> room (ralloc s) -> jobs s !! rjob rd = Some jd -> n_runs jd < max_runs_per_job ->
  0 <= rrate rd < NRates -> 0 <= rsz rd -> total_sz s + reserved_sz s + rsz rd <= max_sz -> refs_ok s (rkey rd) (rdeps rd) ->
  exists s' r, new_run now rd s = Ret (s', r) /\ inv 0 hk hn s' /\ created r rd s s'.
Proof.
  intros I Hkp Hroom Hjd Hnr Hrt Hsz Hcap Hrefs. pose proof max_sz_range. pose proof max_runs_range.
  destruct (alloc_room _ _ (inv_alloc _ _ _ _ I) Hroom) as (a & r & Ha). destruct (alloc_fresh _ _ _ _ (inv_alloc _ _ _ _ I) Ha) as (Hr0 & Hr & Ha').
  apply not_elem_of_dom in Hr. unfold new_run. rewrite Ha. cbn [mbind outcome_mbind]. unfold init_run.
  assert (inv kp hk hn s) as [Ial Ijo Igl Ita Ike Ino [Isz Isz'] Ica Itr] by done.
  pose proof (sum_runs_nonneg rsz (runs s) Isz').
  destruct (link_spec (set_ralloc a s) r rd jd now) as (jh & jl & gl & b & Hn0 & Hl & HJ & HG & HT); try (done || lia).
  { simpl. lia. }
  rewrite Hl. cbn [mbind outcome_mbind].
  match goal with |- context [retain_run rd ?s1] => destruct (retain_spec hk hn s1 r rd (set_jlru jh jd) (runs s)) as (ks & ns & -> & HK & HN & Hd & Hz) end; try done.
  { simpl. by rewrite lookup_insert_eq. }
  cbn [mbind outcome_mbind]. eexists _, r. split; [reflexivity|]. split.
  - split; simpl; try done.
    + by rewrite dom_insert_L.
    + by rewrite insert_insert_eq.
    + rewrite sum_runs_insert by done. split; [lia|]. intros r' rd' H'. apply lookup_insert_Some in H' as [[<- <-]|[_ H']]; eauto.
    + lia.
    + rewrite insert_insert_eq. destruct Itr as (T1 & T2 & T3 & T4 & T5 & T6). split_and!; simpl.
      * intros j Hi. rewrite lookup_insert_is_Some'. auto.
      * intros n Hi. apply Hd. auto.
      * intros j jd' [[<- <-]|[Hne Hj]]%lookup_insert_Some; simpl; [unfold u16; rewrite uwrap_small by lia; lia|].
        intros H0'. destruct (T3 _ _ Hj H0') as [->|]; [|by right]. destruct Hkp; [congruence|by left].
      * intros n Hi. auto.
      * rewrite lookup_insert_ne by congruence. done.
      * rewrite eq_None_not_Some, Hd, <- eq_None_not_Some. done.
  - split_and!; simpl; try done. intros j. simpl. rewrite insert_insert_eq. by apply (same_jobs_insert _ _ jd).
Qed.

(** *** Room *)

(** What a sequence of removals keeps *)
Record shrunk s s' : Prop := {
  shrunk_reserved : reserved_sz s' = reserved_sz s;
  shrunk_jobs : same_jobs s s';
  shrunk_room : room (ralloc s) -> room (ralloc s');
  shrunk_nodes n : is_Some (nodes s' !! n) <-> is_Some (nodes s !! n);
  shrunk_runs r rd : runs s' !! r = Some rd -> runs s !! r = Some rd;
  shrunk_sz : (size (runs s') <= size (runs s))%nat;
  shrunk_key_cnt k : sum_runs (key_cnt k) (runs s') <= sum_runs (key_cnt k) (runs s);
  shrunk_node_cnt n : sum_runs (node_cnt n) (runs s') <= sum_runs (node_cnt n) (runs s)
}.

#[export] Instance shrunk_preorder : PreOrder shrunk.
Proof.
  split.
  - intros s. by split.
  - intros s1 s2 s3 H1 H2. destruct H1, H2. split; eauto with lia; try (etrans; eauto); try congruence.
Qed.

Lemma removed_shrunk r rd s s' : runs s !! r = Some rd -> removed r rd s s' -> shrunk s s'.
Proof.
  intros Hr (H1 & H2 & H3 & H4 & H5 & H6 & H7 & H8 & H9). split; try done; rewrite H1.
  - intros r' rd'. rewrite lookup_delete_Some. tauto.
  - rewrite map_size_delete_Some by eauto. lia.
  - intros k. rewrite (sum_runs_delete _ _ _ rd) by done. pose proof (key_cnt_nonneg k rd). lia.
  - intros k. rewrite (sum_runs_delete _ _ _ rd) by done. pose proof (node_cnt_nonneg k rd). lia.
Qed.

Lemma shrunk_tab s b : shrunk s (set_tab b s).
Proof. by split. Qed.

Lemma mk_room_loop_spec kp hk hn fuel sz kj s : inv kp hk hn s -> kj = kp -> (size (runs s) <= fuel)%nat -> 0 <= sz -> reserved_sz s + sz <= max_sz ->
  exists s', mk_room_loop fuel sz kj s = Ret s' /\ inv kp hk hn s' /\ shrunk s s' /\ total_sz s' + reserved_sz s' + sz <= max_sz.
Proof.
  pose proof max_sz_range. intros I Hkj. revert s I. induction fuel as [|fuel IH]; intros s I Hf Hsz Hres;
    pose proof (inv_sz _ _ _ _ I) as [Hto Hnn]; pose proof (inv_cap _ _ _ _ I); pose proof (sum_runs_nonneg _ _ Hnn).
  - assert (runs s = ∅) as He by (apply map_size_empty_iff; lia). rewrite He in Hto. change (sum_runs rsz ∅) with 0 in Hto.
    simpl. rewrite Hto. simpl. exists s. split_and!; [done|done|reflexivity|lia].
  - simpl. destruct (Z.eqb_spec (total_sz s) 0) as [Ht0|Ht0]; simpl; [exists s; split_and!; [done|done|reflexivity|lia]|].
    rewrite u64_small by lia. destruct (Z.ltb_spec max_sz (total_sz s + reserved_sz s + sz)); [|exists s; split_and!; [done|done|reflexivity|lia]].
    assert (exists c, c ∈ s_tab (tab s)) as [c0 Hc0].
    { destruct (map_choose (runs s)) as (r & rd & Hr).
      - intros He. rewrite He in Hto. by change (sum_runs rsz ∅) with 0 in Hto.
      - exists (rrate rd). apply (inv_tab _ _ _ _ I). eapply glb_inv_run; [apply I|done]. }
    destruct (s_tab (tab s)) as [|c l] eqn:Htab; [set_solver|]. clear c0 Hc0.
    assert (has_runs (tab s) c) as Hc by (apply (inv_tab _ _ _ _ I); rewrite Htab; set_solver).
    destruct (glb_inv_oldest _ _ _ _ (inv_glb _ _ _ _ I) Hc) as (rd & Hr & _).
    change (rate_hdr s c) with (hdr_of (lrus (tab s)) c). rewrite (get_run_some _ _ _ Hr). cbn [mbind outcome_mbind].
    destruct (victimize_spec _ _ _ _ _ _ (negb (rjob rd =? kj)) I Hr) as (s1 & b & -> & I1 & Hrm); [destruct (Z.eqb_spec (rjob rd) kj); [right; congruence|by left]|]. cbn [mbind outcome_mbind].
    pose proof (removed_shrunk _ _ _ _ Hr Hrm) as Hsh. destruct Hrm as (Hruns & Hres1 & _).
    destruct (IH s1) as (s2 & -> & I2 & Hs2 & Hcap); [done| |done|lia|].
    { rewrite Hruns, map_size_delete_Some by eauto. lia. }
    exists s2. split_and!; [done|done|by etrans|done].
Qed.

Lemma mk_room_spec hk hn sz kj now s : inv kj hk hn s -> 0 <= sz < 2 ^ 62 ->
  match mk_room sz kj now s with
  | Ret s' => inv kj hk hn s' /\ shrunk s s' /\ total_sz s' + reserved_sz s' + sz <= max_sz
  | Throw _ => max_sz < reserved_sz s + sz
  | Crash => False
  end.
Proof.
  intros I Hsz. pose proof max_sz_range. pose proof (inv_sz _ _ _ _ I) as [Hto Hnn]. pose proof (inv_cap _ _ _ _ I).
  pose proof (sum_runs_nonneg _ _ Hnn). unfold mk_room. rewrite u64_small by lia.
  destruct (Z.ltb_spec max_sz (reserved_sz s + sz)); [done|]. destruct (refresh_spec _ _ _ _ now I) as (b & -> & I').
  destruct (mk_room_loop_spec kj hk hn (size (runs (set_tab b s))) sz kj (set_tab b s)) as (s' & -> & I2 & Hs & Hc); [done|done|lia|lia|done|].
  split_and!; [done| |done]. etrans; [apply shrunk_tab|done].
Qed.
End inv.
