(* ===== verification/CacheEngineThm.v ===== *)
(** * The cache engine: what [CjobData::match], [CjobData::insert] and [mk_room] guarantee. *)
From S2P Require Import Prelude.
From S2P Require Import CacheMatch.
From S2P Require Import CacheLru.
From S2P Require Import CacheEngine.
From S2P Require Import CacheEngineInv.
From S2P Require Import CacheEngineOps.
Local Open Scope Z_scope.
Import Engine.

Section thm.
Context {A : Type} {HA : Allocator A} {HAO : AllocatorOk A} {C : Config} {HC : ConfigOk C}.
Implicit Types (s : t A).

(** ** The list of a job *)
Lemma job_list kp hk hn s j jd : inv kp hk hn s -> jobs s !! j = Some jd -> exists l,
  Lru.lru (jlru jd) l (job_links s) /\ (forall r, r ∈ l <-> exists rd, runs s !! r = Some rd /\ rjob rd = j) /\
  n_runs jd = Z.of_nat (length l) /\ NoDup l /\ (length l <= size (runs s))%nat.
Proof.
  intros I Hj. destruct (inv_jobs _ _ _ _ I) as ((ls & Hf & Hn) & _ & _). exists (ls j). destruct (Hf j) as [Hl Hc].
  rewrite (job_hdr_lookup _ _ _ Hj) in Hl. pose proof Hl as (Hnd & _). apply NoDup_cons in Hnd as [_ Hnd].
  assert (forall r, r ∈ ls j <-> exists rd, runs s !! r = Some rd /\ rjob rd = j) as Hm.
  { intros r. rewrite Hc. unfold run_job. destruct (runs s !! r); simpl; naive_solver. }
  split_and!; [done|done|by eapply Hn|done|].
  rewrite <- size_dom. rewrite <- (size_list_to_set (C := gset Z) (ls j)) by done. apply subseteq_size.
  intros r Hr. apply elem_of_list_to_set, Hm in Hr as (rd & Hr & _). by apply elem_of_dom_2 in Hr.
Qed.

(** The runs of [s'] come from [s], up to changes that keep [f]. *)
Definition from {X} (f : run -> X) s s' : Prop := forall r rd', runs s' !! r = Some rd' -> exists rd, runs s !! r = Some rd /\ f rd' = f rd.

Lemma n_runs_le kp hk hn kp' hk' hn' s s' j jd jd' : inv kp hk hn s -> inv kp' hk' hn' s' -> from rjob s s' ->
  jobs s !! j = Some jd -> jobs s' !! j = Some jd' -> n_runs jd' <= n_runs jd.
Proof.
  intros I I' Hs Hj Hj'. destruct (job_list _ _ _ _ _ _ I Hj) as (l & _ & Hm & -> & Hn & _).
  destruct (job_list _ _ _ _ _ _ I' Hj') as (l' & _ & Hm' & -> & Hn' & _).
  apply Nat2Z.inj_le, submseteq_length, NoDup_submseteq; [done|]. intros r Hr. apply Hm' in Hr as (rd & Hr & Hrj). apply Hm.
  destruct (Hs _ _ Hr) as (rd0 & Hr0 & He). exists rd0. split; congruence.
Qed.

Lemma n_runs_mono kp hk hn kp' hk' hn' s s' j jd jd' : inv kp hk hn s -> inv kp' hk' hn' s' -> shrunk s s' ->
  jobs s !! j = Some jd -> jobs s' !! j = Some jd' -> n_runs jd' <= n_runs jd.
Proof. intros I I' Hs. apply (n_runs_le _ _ _ _ _ _ _ _ _ _ _ I I'). intros r rd Hr. exists rd. split; [by apply (shrunk_runs _ _ Hs)|done]. Qed.

Lemma sum_runs_from (f : run -> Z) (m m' : gmap Z run) : (forall r rd, m !! r = Some rd -> 0 <= f rd) ->
  (forall r rd', m' !! r = Some rd' -> exists rd, m !! r = Some rd /\ f rd' = f rd) -> sum_runs f m' <= sum_runs f m.
Proof.
  revert m. induction m' as [|r rd' m' Hr IH] using map_ind; intros m Hnn Hf.
  { change (sum_runs f ∅) with 0. by apply sum_runs_nonneg. }
  destruct (Hf r rd') as (rd & Hm & He); [by rewrite lookup_insert_eq|].
  rewrite sum_runs_insert, He by done. specialize (IH (delete r m)). rewrite (sum_runs_delete _ _ _ rd) in IH by done.
  enough (sum_runs f m' <= sum_runs f m - f rd) by lia. apply IH.
  - intros r0 rd0 [_ H0]%lookup_delete_Some. eauto.
  - intros r0 rd0 H0. assert (r0 <> r) by congruence. rewrite lookup_delete_ne by done. apply Hf. by rewrite lookup_insert_ne.
Qed.

Lemma total_sz_le kp hk hn kp' hk' hn' s s' : inv kp hk hn s -> inv kp' hk' hn' s' -> from rsz s s' -> total_sz s' <= total_sz s.
Proof.
  intros I I' Hf. destruct (inv_sz _ _ _ _ I) as [-> Hnn]. destruct (inv_sz _ _ _ _ I') as [-> _]. by apply sum_runs_from.
Qed.

Lemma same_jobs_some s s' j jd : same_jobs s s' -> jobs s !! j = Some jd -> exists jd', jobs s' !! j = Some jd' /\ job_id jd' = job_id jd.
Proof. intros H Hj. specialize (H j). rewrite Hj in H. destruct (jobs s' !! j) as [jd'|]; [|done]. exists jd'. split; [done|]. by apply (inj Some). Qed.

(** ** [while (n_runs>=max_runs_per_job)] *)
Lemma limit_runs_spec hk hn fuel j s : inv j hk hn s -> is_Some (jobs s !! j) -> (size (runs s) <= fuel)%nat ->
  exists s' jd', limit_runs fuel j s = Ret s' /\ inv j hk hn s' /\ shrunk s s' /\ jobs s' !! j = Some jd' /\ n_runs jd' < max_runs_per_job /\
    forall r rd, runs s !! r = Some rd -> runs s' !! r = Some rd \/ rjob rd = j /\ exists jd, jobs s !! j = Some jd /\ max_runs_per_job <= n_runs jd.
Proof.
  pose proof max_runs_range as Hmr. revert s. induction fuel as [|fuel IH]; intros s I [jd Hj] Hf;
    destruct (job_list _ _ _ _ _ _ I Hj) as (l & Hl & Hm & Hn & _ & Hlen); simpl; rewrite (get_job_some _ _ _ Hj); cbn [mbind outcome_mbind].
  - destruct (Z.leb_spec max_runs_per_job (n_runs jd)); [lia|]. exists s, jd. split_and!; [done|done|reflexivity|done|lia|by left].
  - destruct (Z.leb_spec max_runs_per_job (n_runs jd)); [|exists s, jd; split_and!; [done|done|reflexivity|done|lia|by left]].
    destruct l as [|r l' _] using rev_ind; [simpl in Hn; lia|].
    assert (Lru.newer (jlru jd) = r) as ->. { destruct Hl as (_ & -> & _). apply Lru.bottom_app_nil. }
    destruct (proj1 (Hm r)) as (rd & Hr & Hrj); [set_solver|].
    destruct (victimize_spec _ _ _ _ _ _ false I Hr ltac:(by right)) as (s1 & b & -> & I1 & Hrm). cbn [mbind outcome_mbind].
    pose proof (removed_shrunk _ _ _ _ Hr Hrm) as Hsh. destruct Hrm as (Hruns & _).
    destruct (IH s1) as (s2 & jd2 & -> & I2 & Hs2 & Hj2 & Hn2 & Hk2); [done| | |].
    + destruct (same_jobs_some _ _ _ _ (shrunk_jobs _ _ Hsh) Hj) as (? & ? & _). eauto.
    + rewrite Hruns, map_size_delete_Some by eauto. lia.
    + exists s2, jd2. split_and!; [done|done|by etrans|done|done|]. intros r' rd' Hr'. destruct (decide (r' = r)) as [->|Hne].
      * right. split; [congruence|eauto].
      * destruct (Hk2 r' rd') as [?|[? _]]; [by rewrite Hruns, lookup_delete_ne|by left|right; eauto].
Qed.

(** ** [CjobData::match] *)

(** The comparison with the runs of the job returns. *)
Definition matchable s (j : Z) (jd : job) (cd : CacheRun.digest) : Prop :=
  forall r rd, runs s !! r = Some rd -> rjob rd = j -> exists h n, CacheRun.match_ (run_digest jd rd) cd = Ret (h, n).
Definition hit_of (jd : job) (cd : CacheRun.digest) (rd : run) : CacheRun.CacheHitInfo :=
  match CacheRun.match_ (run_digest jd rd) cd with Ret (h, _) => h | _ => CacheRun.BadDeps end.

Definition with_date (now : Z) (rd : run) : run :=
  mkRun now (targets_crc rd) (rsz rd) (rjob rd) (rdeps rd) (rdep_crcs rd) (rkey rd) (rrate rd) (key_is_last rd) (rhas_hidden rd).

(** The lists of the jobs and of the rates, most recently used run first *)
Definition job_ls s (ls : Z -> list Z) : Prop := Lru.family (job_hdr (jobs s)) ls (job_links s) (run_job (runs s)).
Definition rate_ls s (ls : Z -> list Z) : Prop := Lru.family (hdr_of (lrus (tab s))) ls (glb_links s) (run_rate (runs s)).
Definition to_front (r c : Z) (ls : Z -> list Z) (c' : Z) : list Z :=
  if decide (c' = c) then r :: filter (fun x => x <> r) (ls c) else ls c'.

Lemma inv_lists kp hk hn s : inv kp hk hn s -> exists jls rls, job_ls s jls /\ rate_ls s rls.
Proof.
  intros I. destruct (inv_jobs _ _ _ _ I) as ((jls & Hj & _) & _). destruct (inv_glb _ _ _ _ I) as ((rls & Hr) & _). by exists jls, rls.
Qed.

Lemma job_ls_elem s jls j r : job_ls s jls -> r ∈ jls j <-> exists rd, runs s !! r = Some rd /\ rjob rd = j.
Proof. intros Hj. rewrite (proj2 (Hj j)). unfold run_job. destruct (runs s !! r); simpl; naive_solver. Qed.

Lemma job_ls_facts kp hk hn s j jd jls : inv kp hk hn s -> jobs s !! j = Some jd -> job_ls s jls ->
  Lru.lru (jlru jd) (jls j) (job_links s) /\ (length (jls j) <= size (runs s))%nat.
Proof.
  intros I Hj Hls. pose proof (proj1 (Hls j)) as Hl. rewrite (job_hdr_lookup _ _ _ Hj) in Hl. split; [done|].
  destruct Hl as (Hnd & _). apply NoDup_cons in Hnd as [_ Hnd].
  rewrite <- size_dom. rewrite <- (size_list_to_set (C := gset Z) (jls j)) by done. apply subseteq_size.
  intros r Hr. apply elem_of_list_to_set, (job_ls_elem _ _ _ _ Hls) in Hr as (rd & Hr & _). by apply elem_of_dom_2 in Hr.
Qed.

(** Moving a run to the front of one list of a family *)
Lemma family_front (hdr hdr' : Z -> Lru.entry) ls m cls cls' c r h m' : Lru.family hdr ls m cls -> cls r = Some c ->
  Lru.mv_to_top (hdr c) r m = Ret (h, m') -> (forall c', hdr' c' = if decide (c' = c) then h else hdr c') ->
  (forall r', cls' r' = cls r') -> Lru.family hdr' (to_front r c ls) m' cls'.
Proof.
  intros Hf Hc He Hh Hcl. destruct (Lru.family_split _ _ _ _ Hf _ _ Hc) as (l1 & l2 & Hs).
  destruct (Lru.family_touch _ _ _ _ Hf c r l1 l2 Hs) as (h2 & m2 & He2 & Hfam). rewrite He in He2. injection He2 as <- <-.
  intros c'. destruct (Hfam _ _ Hh Hcl c') as [H1 H2]. unfold to_front. case_decide; [|done]. rewrite Hs.
  rewrite Lru.filter_out; [done|]. destruct (proj1 (Hf c)) as (Hn & _). rewrite Hs in Hn. by apply NoDup_cons in Hn as [_ Hn].
Qed.

Lemma s_insert_tab r s : exists b, s_insert r s = set_tab b s /\ lrus b = lrus (tab s).
Proof. unfold s_insert. destruct (tab_insert _ _ _ _) as [[l p] n]. destruct p, n; by eexists. Qed.

Lemma access_lists s r rd now s' jls rls : runs s !! r = Some rd -> is_Some (jobs s !! rjob rd) -> job_ls s jls -> rate_ls s rls ->
  access r now s = Ret s' -> job_ls s' (to_front r (rjob rd) jls) /\ rate_ls s' (to_front r (rrate rd) rls).
Proof.
  intros Hr [jd Hj] Hjl Hrl. unfold access. rewrite (get_run_some _ _ _ Hr). cbn [mbind outcome_mbind].
  rewrite (get_job_some (tab_erase (rrate rd) s) _ jd) by done. cbn [mbind outcome_mbind].
  change (job_links (tab_erase (rrate rd) s)) with (job_links s).
  destruct (Lru.mv_to_top (jlru jd) r (job_links s)) as [[jh jl]| |] eqn:Hm1; [|done|done]. cbn [mbind outcome_mbind].
  rewrite (upd_job_some (set_job_links jl (tab_erase (rrate rd) s)) _ jd) by done. cbn [mbind outcome_mbind].
  match goal with |- context [Lru.mv_to_top (rate_hdr ?s0 (rrate rd)) r (glb_links ?s1)] =>
    change (rate_hdr s0 (rrate rd)) with (hdr_of (lrus (tab s)) (rrate rd)); change (glb_links s1) with (glb_links s) end.
  destruct (Lru.mv_to_top _ r (glb_links s)) as [[gh gl]| |] eqn:Hm2; [|done|done]. cbn [mbind outcome_mbind].
  intros [= <-]. match goal with |- context [s_insert ?c ?s0] => destruct (s_insert_tab c s0) as (b & -> & Hb) end.
  assert (forall r', run_job (runs s) r' = run_job (<[r := with_date now rd]> (runs s)) r') as Ej.
  { intros r'. rewrite run_job_insert. case_decide; [|done]. subst. unfold run_job. by rewrite Hr. }
  assert (forall r', run_rate (runs s) r' = run_rate (<[r := with_date now rd]> (runs s)) r') as Er.
  { intros r'. rewrite run_rate_insert. case_decide; [|done]. subst. unfold run_rate. by rewrite Hr. }
  split.
  - eapply family_front; [exact Hjl|unfold run_job; by rewrite Hr|by rewrite (job_hdr_lookup _ _ _ Hj)| |by intros].
    intros c'. simpl. apply (job_hdr_insert _ _ (set_jlru jh jd)).
  - eapply family_front; [exact Hrl|unfold run_rate; by rewrite Hr|exact Hm2| |by intros].
    intros c'. simpl. rewrite Hb. simpl. apply hdr_of_insert.
Qed.

(** The runs of [l] do not match. *)
Definition none_matches (jd : job) (cd : CacheRun.digest) s (l : list Z) : Prop :=
  forall r rd, r ∈ l -> runs s !! r = Some rd -> CacheRun.is_match (hit_of jd cd rd) = false.

(** Result of [match]: the first run of the list that matches; if it is a hit it is dated and moved to the front of its lists. *)
Definition match_result (jls rls : Z -> list Z) (j : Z) (jd : job) (cd : CacheRun.digest) (now : Z) (none : CacheRun.CacheHitInfo) s
    (res : t A * Z * CacheRun.CacheHitInfo) : Prop :=
  let '(s', r, h) := res in
  (s' = s /\ r = 0 /\ h = none /\ none_matches jd cd s (jls j)) \/
  (exists l1 l2 rd, jls j = l1 ++ r :: l2 /\ runs s !! r = Some rd /\ h = hit_of jd cd rd /\ CacheRun.is_match h = true /\
    none_matches jd cd s l1 /\
    if CacheRun.is_hit h then
      runs s' = <[r := with_date now rd]> (runs s) /\ reserved_sz s' = reserved_sz s /\
      job_ls s' (to_front r j jls) /\ rate_ls s' (to_front r (rrate rd) rls)
    else s' = s).

Lemma match_result_hit jls rls j jd cd now none s s' r h : match_result jls rls j jd cd now none s (s', r, h) -> r <> 0 ->
  CacheRun.is_hit h = true -> job_ls s' (to_front r j jls).
Proof. intros [(_ & ? & _)|(l1 & l2 & rd & _ & _ & _ & _ & _ & H)] Hr Hh; [done|]. rewrite Hh in H. apply H. Qed.

(** The comparison with a run stops the server, none before it in the list matching. *)
Definition stopped (jls : Z -> list Z) (j : Z) (jd : job) (cd : CacheRun.digest) s : Prop :=
  exists l1 r l2 rd, jls j = l1 ++ r :: l2 /\ runs s !! r = Some rd /\ none_matches jd cd s l1 /\
    CacheRun.match_ (run_digest jd rd) cd = Crash.

Lemma match_cases jd cd rd : CacheRun.match_ (run_digest jd rd) cd = Crash \/
  exists n, CacheRun.match_ (run_digest jd rd) cd = Ret (hit_of jd cd rd, n).
Proof.
  pose proof (CacheRun.quiet_match (run_digest jd rd) cd) as Hq. unfold hit_of.
  destruct (CacheRun.match_ _ cd) as [[h n]| |]; [right; by exists n|done|by left].
Qed.

Lemma none_matches_snoc jd cd s l r rd : none_matches jd cd s l -> runs s !! r = Some rd ->
  CacheRun.is_match (hit_of jd cd rd) = false -> none_matches jd cd s (l ++ [r]).
Proof. intros Hl Hr Hm r' rd' [Hi| ->%list_elem_of_singleton]%elem_of_app Hr'; [by eapply Hl|congruence]. Qed.

Lemma match_from_spec kp hk hn jd cd now j fuel jls rls l1 l2 none s : inv kp hk hn s -> jobs s !! j = Some jd ->
  job_ls s jls -> rate_ls s rls -> jls j = l1 ++ l2 -> none_matches jd cd s l1 -> (length l2 <= fuel)%nat ->
  match match_from fuel jd cd now (hd 0 l2) none s with
  | Ret res => inv kp hk hn res.1.1 /\ match_result jls rls j jd cd now (if decide (l2 = []) then none else CacheRun.BadDeps) s res
  | Throw _ => False
  | Crash => stopped jls j jd cd s
  end.
Proof.
  intros I Hj Hjl Hrl. destruct (job_ls_facts _ _ _ _ _ _ _ I Hj Hjl) as [Hl _].
  revert l1 none fuel. induction l2 as [|r l2 IH]; intros l1 none fuel Hs Hno Hf.
  { rewrite app_nil_r in Hs. destruct fuel; simpl; (split; [done|left; split_and!; [done..|by rewrite Hs]]). }
  destruct fuel as [|fuel]; simpl in Hf; [lia|]. simpl. pose proof Hl as (H0 & _). rewrite Hs in H0. apply NoDup_cons in H0 as [H0 _].
  destruct (Z.eqb_spec r 0); [set_solver|]. destruct (proj1 (job_ls_elem _ _ j r Hjl)) as (rd & Hr & Hrj); [rewrite Hs; set_solver|].
  rewrite (get_run_some _ _ _ Hr). cbn [mbind outcome_mbind].
  destruct (match_cases jd cd rd) as [Hc|[n0 ->]]; [rewrite Hc; by exists l1, r, l2, rd|]. cbn [mbind outcome_mbind].
  destruct (CacheRun.is_match (hit_of jd cd rd)) eqn:Hmt.
  - destruct (CacheRun.is_hit (hit_of jd cd rd)) eqn:Hhit; cbn [mbind outcome_mbind].
    2:{ split; [done|]. right. exists l1, l2, rd. by rewrite Hhit. }
    destruct (refresh_spec _ _ _ _ now I) as (b & Hb & I').
    destruct (s_refresh_spec s now) as (b0 & Hb0 & Hlr & _); [apply I|].
    assert (rate_ls (set_tab b s) rls) as Hrl'. { rewrite <- Hb, Hb0. unfold rate_ls. simpl. by rewrite Hlr. }
    rewrite Hb. destruct (access_spec kp hk hn (set_tab b s) r rd now I' Hr) as (s' & Ha & I2 & Ht). rewrite Ha. cbn [mbind outcome_mbind].
    destruct (access_lists (set_tab b s) r rd now s' jls rls Hr) as [Hj' Hr']; [simpl; rewrite Hrj; eauto|exact Hjl|exact Hrl'|done|].
    split; [done|]. right. exists l1, l2, rd. rewrite Hhit. rewrite Hrj in Hj'. split_and!; try done; apply Ht.
  - assert (CacheRun.is_hit (hit_of jd cd rd) = false) as -> by (by destruct (hit_of jd cd rd)). cbn [mbind outcome_mbind].
    assert (Lru.older (Lru.get (job_links s) r) = hd 0 l2) as ->. { rewrite Hs in Hl. by rewrite (Lru.lru_get _ _ _ _ _ Hl). }
    specialize (IH (l1 ++ [r]) CacheRun.BadDeps fuel). rewrite <- app_assoc in IH.
    specialize (IH Hs (none_matches_snoc _ _ _ _ _ _ Hno Hr Hmt) ltac:(lia)).
    destruct (match_from fuel jd cd now (hd 0 l2) CacheRun.BadDeps s) as [[[s' r'] h']| |]; [|done|done].
    destruct IH as [I' Hr']. split; [done|]. by destruct (decide (l2 = [])).
Qed.

Lemma match_job_full kp hk hn s j jd cd now jls rls : inv kp hk hn s -> jobs s !! j = Some jd -> job_ls s jls -> rate_ls s rls ->
  match match_job j cd now s with
  | Ret res => inv kp hk hn res.1.1 /\ match_result jls rls j jd cd now (if decide (jls j = []) then CacheRun.NoJob else CacheRun.BadDeps) s res
  | Throw _ => False
  | Crash => stopped jls j jd cd s
  end.
Proof.
  intros I Hj Hjl Hrl. destruct (job_ls_facts _ _ _ _ _ _ _ I Hj Hjl) as [Hl Hlen].
  unfold match_job. rewrite (get_job_some _ _ _ Hj). cbn [mbind outcome_mbind].
  assert (Lru.older (jlru jd) = hd 0 (jls j)) as -> by (by destruct Hl as (_ & -> & _)).
  by apply (match_from_spec kp hk hn jd cd now j (size (runs s)) jls rls [] (jls j)); [..|intros ? ? ?%elem_of_nil|].
Qed.

(** When the comparisons return *)
Lemma match_job_spec kp hk hn s j jd cd now : inv kp hk hn s -> jobs s !! j = Some jd -> matchable s j jd cd -> exists jls rls s' r h,
  job_ls s jls /\ match_job j cd now s = Ret (s', r, h) /\ inv kp hk hn s' /\
  match_result jls rls j jd cd now (if decide (jls j = []) then CacheRun.NoJob else CacheRun.BadDeps) s (s', r, h).
Proof.
  intros I Hj Hma. destruct (inv_lists _ _ _ _ I) as (jls & rls & Hjl & Hrl). exists jls, rls.
  pose proof (match_job_full kp hk hn s j jd cd now jls rls I Hj Hjl Hrl) as H.
  destruct (match_job j cd now s) as [[[s' r] h]| |]; [destruct H; by exists s', r, h|done|].
  destruct H as (l1 & r & l2 & rd & Hs & Hr & _ & Hc). destruct (proj1 (job_ls_elem _ _ j r Hjl)) as (rd' & Hr' & Hrj); [rewrite Hs; set_solver|].
  destruct (Hma r rd') as (h & n & Hm); [done|done|]. congruence.
Qed.

(** ** [CjobData::insert] *)

(** The job is not empty: no exception is needed for it. *)
Lemma inv_strengthen hk hn s j r rd : inv j hk hn s -> runs s !! r = Some rd -> rjob rd = j -> inv 0 hk hn s.
Proof.
  intros I Hr Hj. assert (inv j hk hn s) as [? ? ? ? ? ? ? ? (T1 & T2 & T3 & T4 & T5 & T6)] by done. split; try done. split_and!; try done.
  intros j' jd Hj' H0. destruct (T3 j' jd Hj' H0) as [->|]; [|by right].
  destruct (job_list _ _ _ _ _ _ I Hj') as (l & _ & Hm & Hn & _). destruct l; [|simpl in Hn; lia].
  assert (r ∈ ([] : list Z)) as Hx by (apply Hm; eauto). by apply not_elem_of_nil in Hx.
Qed.

(** No two runs of a job have the same key and slot. *)
Definition uniq s : Prop := forall r1 r2 rd1 rd2, runs s !! r1 = Some rd1 -> runs s !! r2 = Some rd2 ->
  rjob rd1 = rjob rd2 -> rkey rd1 = rkey rd2 -> key_is_last rd1 = key_is_last rd2 -> r1 = r2.

(** [found] holds, for each slot, the run of [l] with key [key], if any. *)
Definition found_ok s (key : Z) (l : list Z) (found : Z * Z) : Prop := forall last,
  (sel last found = 0 /\ forall r rd, r ∈ l -> runs s !! r = Some rd -> rkey rd = key -> key_is_last rd <> last) \/
  (exists rd, sel last found ∈ l /\ runs s !! sel last found = Some rd /\ rkey rd = key /\ key_is_last rd = last).

Lemma found_ok_skip s key l r rd found : runs s !! r = Some rd -> rkey rd <> key -> found_ok s key l found -> found_ok s key (l ++ [r]) found.
Proof.
  intros Hr Hk Hf last. destruct (Hf last) as [[H0 Hno]|(rd' & Hi & Hrest)]; [left|right; exists rd'; split; [set_solver|done]].
  split; [done|]. intros r' rd' [Hi| ->%list_elem_of_singleton]%elem_of_app Hr' Hk'; [by eapply Hno|]. congruence.
Qed.

Lemma found_ok_add s key l r rd found : runs s !! r = Some rd -> rkey rd = key -> found_ok s key l found ->
  found_ok s key (l ++ [r]) (if key_is_last rd then (found.1, r) else (r, found.2)).
Proof.
  intros Hr Hk Hf last. destruct (decide (key_is_last rd = last)) as [He|He].
  - right. exists rd. assert (sel last (if key_is_last rd then (found.1, r) else (r, found.2)) = r) as ->.
    { rewrite He. by destruct last. } split_and!; [set_solver|done..].
  - assert (sel last (if key_is_last rd then (found.1, r) else (r, found.2)) = sel last found) as ->.
    { destruct (key_is_last rd), last; done. }
    destruct (Hf last) as [[H0 Hno]|(rd' & Hi & Hrest)]; [left|right; exists rd'; split; [set_solver|done]].
    split; [done|]. intros r' rd' [Hi| ->%list_elem_of_singleton]%elem_of_app Hr' Hk'; [by eapply Hno|]. congruence.
Qed.

(** Two runs of the job have the key and the same slot. *)
Definition doubled s (j key : Z) : Prop := exists r1 r2 rd1 rd2, r1 <> r2 /\ runs s !! r1 = Some rd1 /\ runs s !! r2 = Some rd2 /\
  rjob rd1 = j /\ rjob rd2 = j /\ rkey rd1 = key /\ rkey rd2 = key /\ key_is_last rd1 = key_is_last rd2.

Lemma uniq_not_doubled s j key : uniq s -> ~ doubled s j key.
Proof. intros Hu (r1 & r2 & rd1 & rd2 & Hne & H1 & H2 & ? & ? & ? & ? & ?). destruct Hne. eapply Hu; eauto; congruence. Qed.

(** A slot that has already a run gets no other one. *)
Lemma found_ok_fresh s key j l r rd found : (forall r, r ∈ l -> exists rd, runs s !! r = Some rd /\ rjob rd = j) ->
  found_ok s key l found -> r ∉ l -> runs s !! r = Some rd -> rjob rd = j -> rkey rd = key ->
  sel (key_is_last rd) found = 0 \/ doubled s j key.
Proof.
  intros Hl Hf Hr Hrd Hj Hk. destruct (Hf (key_is_last rd)) as [[H0 _]|(rd' & Hi & Hr' & Hk' & Hl')]; [by left|right].
  destruct (Hl _ Hi) as (rd2 & Hrd2 & Hj2). assert (rd2 = rd') as -> by congruence.
  exists r, (sel (key_is_last rd) found), rd, rd'. split_and!; try done. by intros ->.
Qed.

(** The comparison with a run of the job stops the server. *)
Definition stuck s (j : Z) (jd : job) (cd : CacheRun.digest) : Prop :=
  exists r rd, runs s !! r = Some rd /\ rjob rd = j /\ CacheRun.match_ (run_digest jd rd) cd = Crash.

Lemma matchable_not_stuck s j jd cd : matchable s j jd cd -> ~ stuck s j jd cd.
Proof. intros Hm (r & rd & Hr & Hj & Hc). destruct (Hm r rd Hr Hj) as (h & n & Hh). congruence. Qed.

Definition scan_result kp hk hn (jd : job) (cd : CacheRun.digest) (key : Z) (force : bool) (crc : Z) (l1 l2 : list Z) s (res : t A * option (Z * Z)) : Prop :=
  match res with
  | (s', None) => s' = s /\ exists r rd, r ∈ l2 /\ runs s !! r = Some rd /\ CacheRun.is_match (hit_of jd cd rd) = true /\ (force = true -> crc = targets_crc rd)
  | (s', Some f) =>
    (s' = s /\ found_ok s key (l1 ++ l2) f /\ forall r rd, r ∈ l2 -> runs s !! r = Some rd -> CacheRun.is_match (hit_of jd cd rd) = false) \/
    (force = true /\ exists la r lb rd, l2 = la ++ r :: lb /\ runs s !! r = Some rd /\ CacheRun.is_match (hit_of jd cd rd) = true /\
      crc <> targets_crc rd /\ inv kp hk hn s' /\ removed r rd s s' /\ found_ok s key (l1 ++ la) f)
  end.

Lemma scan_result_cons kp hk hn jd cd key force crc l1 r rd l2 s res : runs s !! r = Some rd -> CacheRun.is_match (hit_of jd cd rd) = false ->
  scan_result kp hk hn jd cd key force crc (l1 ++ [r]) l2 s res -> scan_result kp hk hn jd cd key force crc l1 (r :: l2) s res.
Proof.
  intros Hr Hm. destruct res as [s' [f|]]; simpl.
  - rewrite <- app_assoc. intros [(-> & Hf & Hno)|(Hfo & la & r' & lb & rd' & -> & H)]; [left|right].
    + split_and!; [done|done|]. intros r1 rd1 [->|Hi]%elem_of_cons Hr1; [congruence|by eapply Hno].
    + split; [done|]. exists (r :: la), r', lb, rd'. rewrite <- app_assoc in H. done.
  - intros (-> & r' & rd' & Hi & H). split; [done|]. exists r', rd'. split; [set_solver|done].
Qed.

Lemma scan_spec hk hn jd cd key force crc j l1 l2 fuel found s : inv j hk hn s -> Lru.lru (jlru jd) (l1 ++ l2) (job_links s) ->
  (forall r, r ∈ l1 ++ l2 <-> exists rd, runs s !! r = Some rd /\ rjob rd = j) -> (length l2 <= fuel)%nat -> found_ok s key l1 found ->
  match scan_runs fuel jd cd key force crc (hd 0 l2) found s with
  | Ret res => scan_result j hk hn jd cd key force crc l1 l2 s res
  | Throw _ => False
  | Crash => stuck s j jd cd \/ doubled s j key
  end.
Proof.
  intros I Hl Hm. revert l1 found fuel Hl Hm. induction l2 as [|r l2 IH]; intros l1 found fuel Hl Hm Hf Hfo.
  { rewrite app_nil_r in *. destruct fuel; simpl; (left; rewrite app_nil_r; split_and!; [done..|set_solver]). }
  destruct fuel as [|fuel]; simpl in Hf; [lia|]. simpl hd. pose proof Hl as (H0 & _). apply NoDup_cons in H0 as [H0 Hnd].
  assert (r ∉ l1) as Hrl1 by (rewrite NoDup_app in Hnd; set_solver). destruct (proj1 (Hm r)) as (rd & Hr & Hrj); [set_solver|].
  cbn [scan_runs]. rewrite (proj2 (Z.eqb_neq r 0)) by set_solver. rewrite (get_run_some _ _ _ Hr). cbn [mbind outcome_mbind].
  destruct (match_cases jd cd rd) as [Hc|[n0 ->]]; [rewrite Hc; left; by exists r, rd|]. cbn [mbind outcome_mbind].
  destruct (CacheRun.is_match (hit_of jd cd rd)) eqn:Hmt.
  - destruct (force && negb (crc =? targets_crc rd)) eqn:Hfc.
    + apply andb_true_iff in Hfc as [-> Hcrc]. b2p. destruct (victimize_spec _ _ _ _ _ _ false I Hr ltac:(by right)) as (s1 & b & -> & I1 & Hrm). cbn [mbind outcome_mbind].
      assert (Lru.older (Lru.get (job_links s1) r) = 0) as -> by apply Hrm.
      assert (scan_result j hk hn jd cd key true crc l1 (r :: l2) s (s1, Some found)); [|by destruct fuel].
      right. split; [done|]. exists [], r, l2, rd. rewrite app_nil_r. by split_and!.
    + split; [done|]. exists r, rd. split_and!; [set_solver|done|done|].
      intros ->. simpl in Hfc. b2p. done.
  - assert (Lru.older (Lru.get (job_links s) r) = hd 0 l2) as -> by (by rewrite (Lru.lru_get _ _ _ _ _ Hl)).
    assert (forall found', found_ok s key (l1 ++ [r]) found' -> match scan_runs fuel jd cd key force crc (hd 0 l2) found' s with
      | Ret res => scan_result j hk hn jd cd key force crc l1 (r :: l2) s res | Throw _ => False | Crash => stuck s j jd cd \/ doubled s j key end) as Hgo.
    { intros found' Hfo'. specialize (IH (l1 ++ [r]) found' fuel). rewrite <- app_assoc in IH. specialize (IH Hl Hm ltac:(lia) Hfo').
      destruct (scan_runs fuel jd cd key force crc (hd 0 l2) found' s); [|done|done]. by eapply scan_result_cons. }
    destruct (Z.eqb_spec (rkey rd) key) as [Hk|Hk]; [|apply Hgo; by eapply found_ok_skip].
    pose proof (found_ok_add _ _ _ _ _ _ Hr Hk Hfo) as Hadd.
    assert (sel (key_is_last rd) found = 0 \/ doubled s j key) as Hz by (eapply (found_ok_fresh s key j l1); eauto; intros r' Hr'; apply Hm; set_solver).
    destruct (Z.eqb_spec (sel (key_is_last rd) found) 0) as [H1|H1].
    + destruct (key_is_last rd); simpl in H1; rewrite H1, swear_bind by done; by apply Hgo.
    + destruct Hz as [?|Hz]; [done|]. apply Z.eqb_neq in H1. destruct (key_is_last rd); simpl in H1; rewrite H1; by right.
Qed.

(** Runs kept up to their slot *)
Definition relabel (last : bool) (rd : run) : run :=
  mkRun (last_access rd) (targets_crc rd) (rsz rd) (rjob rd) (rdeps rd) (rdep_crcs rd) (rkey rd) (rrate rd) last (rhas_hidden rd).

Record loose s s' : Prop := {
  loose_reserved : reserved_sz s' = reserved_sz s;
  loose_jobs : same_jobs s s';
  loose_room : room (ralloc s) -> room (ralloc s');
  loose_nodes n : is_Some (nodes s' !! n) <-> is_Some (nodes s !! n);
  loose_runs r rd : runs s' !! r = Some rd -> exists last rd0, runs s !! r = Some rd0 /\ rd = relabel last rd0;
  loose_key_cnt k : sum_runs (key_cnt k) (runs s') <= sum_runs (key_cnt k) (runs s);
  loose_node_cnt n : sum_runs (node_cnt n) (runs s') <= sum_runs (node_cnt n) (runs s)
}.

Lemma shrunk_loose s s' : shrunk s s' -> loose s s'.
Proof. intros []. split; try done. intros r rd Hr. exists (key_is_last rd), rd. split; [auto|by destruct rd]. Qed.

#[export] Instance loose_preorder : PreOrder loose.
Proof.
  split; [intros s; apply shrunk_loose; reflexivity|]. intros s1 s2 s3 H1 H2. destruct H1 as [A1 A2 A3 A4 A5 A6 A7], H2 as [B1 B2 B3 B4 B5 B6 B7].
  split; [by rewrite B1|intros j; by rewrite B2|auto|intros n; by rewrite B4| |intros k; specialize (A6 k); specialize (B6 k); lia|intros n; specialize (A7 n); specialize (B7 n); lia].
  - intros r rd Hr. destruct (B5 _ _ Hr) as (l2 & rd2 & Hr2 & ->). destruct (A5 _ _ Hr2) as (l1 & rd1 & Hr1 & ->). by exists l2, rd1.
Qed.

Lemma refs_ok_loose kp hk hn s s' key deps : inv kp hk hn s -> inv kp hk hn s' -> loose s s' -> 0 < hk key -> refs_ok s key deps -> refs_ok s' key deps.
Proof.
  intros I I' Hl Hk (H1 & H2 & H3 & H4).
  pose proof (inv_keys _ _ _ _ I key) as (_ & E1 & _). pose proof (inv_keys _ _ _ _ I' key) as (_ & E2 & _). pose proof (loose_key_cnt _ _ Hl key).
  pose proof (sum_runs_nonneg (key_cnt key) (runs s') ltac:(intros; apply key_cnt_nonneg)). split_and!.
  - destruct (keys s' !! key); [eauto|simpl in E2; lia].
  - lia.
  - intros n Hn. apply (loose_nodes _ _ Hl). auto.
  - intros n. pose proof (inv_nodes _ _ _ _ I n) as (_ & F1 & _). pose proof (inv_nodes _ _ _ _ I' n) as (_ & F2 & _).
    pose proof (loose_node_cnt _ _ Hl n). specialize (H4 n). lia.
Qed.

Definition slot_free s (j key : Z) (last : bool) : Prop :=
  forall r rd, runs s !! r = Some rd -> rjob rd = j -> rkey rd = key -> key_is_last rd <> last.

Lemma relabel_inv kp hk hn s r rd last fs : inv kp hk hn s -> runs s !! r = Some rd ->
  inv kp hk hn (set_files fs (set_runs (<[r := relabel last rd]> (runs s)) s)).
Proof.
  intros [Ial Ijo Igl Ita Ike Ino [Isz Isz'] Ica] Hr. split; simpl; try done.
  - rewrite dom_insert_lookup_L; [done|eauto].
  - by eapply job_inv_same.
  - by eapply glb_inv_same.
  - by eapply ref_inv_same.
  - by eapply ref_inv_same.
  - rewrite (sum_runs_replace _ _ _ rd) by done. split; [done|]. intros r' rd2 H'. apply lookup_insert_Some in H' as [[<- <-]|[_ H']]; [apply (Isz' _ _ Hr)|eauto].
Qed.

Lemma relabel_loose s r rd last fs : runs s !! r = Some rd -> loose s (set_files fs (set_runs (<[r := relabel last rd]> (runs s)) s)).
Proof.
  intros Hr. split; simpl; try done.
  - intros r' rd' H'. apply lookup_insert_Some in H' as [[<- <-]|[_ H']]; [eauto|]. exists (key_is_last rd'), rd'. split; [done|by destruct rd'].
  - intros k. by rewrite (sum_runs_replace _ _ _ rd) by done.
  - intros k. by rewrite (sum_runs_replace _ _ _ rd) by done.
Qed.

Lemma run_name_some s rd jd : jobs s !! rjob rd = Some jd -> run_name rd s = Ret (run_file (jname jd) (pretty (rkey rd)) (key_is_last rd)).
Proof. intros Hj. unfold run_name. by rewrite (get_job_some _ _ _ Hj). Qed.

Lemma free_slot_spec kp hk hn s last mk_first found : inv kp hk hn s ->
  (sel last found = 0 \/ exists rd, runs s !! sel last found = Some rd /\ rjob rd = kp) -> exists s', free_slot last mk_first found s = Ret s' /\ inv kp hk hn s' /\ loose s s' /\
  (sel last found = 0 /\ s' = s \/
   sel last found <> 0 /\ last = true /\ found.1 = 0 /\ (exists rd, runs s !! found.2 = Some rd /\ runs s' = <[found.2 := relabel false rd]> (runs s)) \/
   sel last found <> 0 /\ runs s' = delete (sel last found) (runs s) /\ (mk_first = false \/ last = false \/ found.1 <> 0)).
Proof.
  intros I Hsel. unfold free_slot. destruct (Z.eqb_spec (sel last found) 0) as [H0|H0].
  { exists s. split_and!; [done|done|reflexivity|]. by left. }
  destruct Hsel as [?|(rd & Hr & Hrj)]; [done|]. destruct (mk_first && last && (found.1 =? 0)) eqn:Hc.
  - b2p. subst last. simpl in *. rewrite (get_run_some _ _ _ Hr). cbn [mbind outcome_mbind].
    destruct (inv_jobs _ _ _ _ I) as (_ & _ & Hj). destruct (Hj _ _ Hr) as [jd Hjd].
    rewrite (run_name_some s rd jd Hjd). cbn [mbind outcome_mbind]. erewrite (run_name_some (set_runs _ s)) by exact Hjd. cbn [mbind outcome_mbind].
    eexists. split; [reflexivity|]. split_and!; [by apply relabel_inv|by apply relabel_loose|]. right. left. eauto 10.
  - destruct (victimize_spec _ _ _ _ _ _ false I Hr ltac:(by right)) as (s1 & b & -> & I1 & Hrm). cbn [mbind outcome_mbind].
    exists s1. split_and!; [done|done|by eapply shrunk_loose, removed_shrunk|]. right. right. split_and!; [done|apply Hrm|].
    destruct mk_first, last; simpl in Hc; b2p; auto.
Qed.

Lemma uniq_shrunk s s' : shrunk s s' -> uniq s -> uniq s'.
Proof. intros Hs Hu r1 r2 rd1 rd2 H1 H2. apply (Hu r1 r2 rd1 rd2); by apply (shrunk_runs _ _ Hs). Qed.

Lemma free_slot_uniq s s' j key l last (mk_first : bool) found : uniq s -> runs s !! 0 = None ->
  (forall r, r ∈ l <-> exists rd, runs s !! r = Some rd /\ rjob rd = j) -> found_ok s key l found ->
  (sel last found = 0 /\ s' = s \/
   sel last found <> 0 /\ last = true /\ found.1 = 0 /\ (exists rd, runs s !! found.2 = Some rd /\ runs s' = <[found.2 := relabel false rd]> (runs s)) \/
   sel last found <> 0 /\ runs s' = delete (sel last found) (runs s) /\ (mk_first = false \/ last = false \/ found.1 <> 0)) -> uniq s' /\ slot_free s' j key last.
Proof.
  intros Hu H0 Hl Hf Hc.
  assert (forall lst, sel lst found = 0 -> slot_free s j key lst) as Hz.
  { intros lst He r rd Hr Hj Hk. destruct (Hf lst) as [[_ Hno]|(rd' & _ & Hr' & _)]; [|rewrite He in Hr'; congruence].
    apply (Hno r); [apply Hl; eauto|done|done]. }
  assert (forall lst, sel lst found <> 0 -> exists rd, runs s !! sel lst found = Some rd /\ rjob rd = j /\ rkey rd = key /\ key_is_last rd = lst) as Hnz.
  { intros lst Hne. destruct (Hf lst) as [[He _]|(rd & Hi & Hr & Hk & Hkl)]; [done|]. exists rd. split_and!; try done.
    apply Hl in Hi as (rd' & Hr' & Hj). congruence. }
  destruct Hc as [[He ->]|[(Hne & -> & H1 & rd & Hr & Hrs)|(Hne & Hrs & _)]]; [by auto| |];
    destruct (Hnz _ Hne) as (rd0 & Hr0 & Hj0 & Hk0 & Hl0).
  - simpl in *. assert (rd0 = rd) as -> by congruence. specialize (Hz false H1). unfold uniq, slot_free. rewrite Hrs. split.
    + intros r1 r2 rd1 rd2 [[<- <-]|[Hn1 E1]]%lookup_insert_Some [[<- <-]|[Hn2 E2]]%lookup_insert_Some; simpl; intros Ej Ek El; [done| | |by eapply Hu].
      * destruct (Hz r2 rd2); congruence.
      * destruct (Hz r1 rd1); congruence.
    + intros r rd1 [[<- <-]|[Hn1 E1]]%lookup_insert_Some Ej Ek; [done|]. intros El. destruct Hn1. eapply Hu; eauto; congruence.
  - unfold uniq, slot_free. rewrite Hrs. split.
    + intros r1 r2 rd1 rd2 [_ E1]%lookup_delete_Some [_ E2]%lookup_delete_Some. by eapply Hu.
    + intros r rd1 [Hn1 E1]%lookup_delete_Some Ej Ek El. destruct Hn1. eapply Hu; eauto; congruence.
Qed.

Lemma uniq_insert s s' r rd : runs s !! r = None -> runs s' = <[r := rd]> (runs s) -> uniq s -> slot_free s (rjob rd) (rkey rd) (key_is_last rd) -> uniq s'.
Proof.
  intros Hr Hrs Hu Hs. unfold uniq. rewrite Hrs.
  intros r1 r2 rd1 rd2 [[<- <-]|[Hn1 E1]]%lookup_insert_Some [[<- <-]|[Hn2 E2]]%lookup_insert_Some Ej Ek El; [done| | |by eapply Hu].
  - destruct (Hs r2 rd2); congruence.
  - destruct (Hs r1 rd1); congruence.
Qed.

Lemma slot_free_shrunk s s' j key last : shrunk s s' -> slot_free s j key last -> slot_free s' j key last.
Proof. intros Hs Hf r rd Hr. apply Hf with r. by apply (shrunk_runs _ _ Hs). Qed.

(** Nothing is removed when there is room. *)
Lemma mk_room_keeps kj hk hn sz now s s' : inv kj hk hn s -> 0 <= sz < 2 ^ 62 -> total_sz s + reserved_sz s + sz <= max_sz ->
  mk_room sz kj now s = Ret s' -> runs s' = runs s.
Proof.
  intros I Hsz Hc. pose proof max_sz_range. pose proof (inv_cap _ _ _ _ I). pose proof (inv_sz _ _ _ _ I) as [Hto Hnn].
  pose proof (sum_runs_nonneg _ _ Hnn). unfold mk_room. rewrite u64_small by lia.
  destruct (Z.ltb_spec max_sz (reserved_sz s + sz)); [done|]. destruct (refresh_spec _ _ _ _ now I) as (b & -> & _).
  destruct (size _); simpl; rewrite u64_small, (proj2 (Z.ltb_ge _ _)), andb_false_r by lia; by intros [= <-].
Qed.

(** Why a run may be removed by the second part of [insert] *)
Definition pushed_out s (j sz : Z) (rd : run) : Prop :=
  (rjob rd = j /\ exists jd, jobs s !! j = Some jd /\ max_runs_per_job <= n_runs jd) \/ max_sz < total_sz s + reserved_sz s + sz.

(** Effect of the second part of [insert], once the slot is free *)
Lemma insert_tail hk hn s j cd key last la sz rate crc rf now : inv j hk hn s -> is_Some (jobs s !! j) -> room (ralloc s) -> 0 < hk key ->
  refs_ok s key (CacheRun.deps cd) -> 0 <= rate < NRates -> 0 <= sz < 2 ^ 62 ->
  match (
    s ← limit_runs (size (runs s)) j s; s ← mk_room sz j now s;
    '(s, r) ← new_run now (mkRun la crc sz j (CacheRun.deps cd) (CacheRun.dep_crcs cd) key rate last (CacheRun.has_hidden cd)) s;
    rd ← get_run r s; name ← run_name rd s;
    Ret (if bool_decide (rf = EmptyString) then s else rename_run rf name s, true)) with
  | Ret (s', b) => b = true /\ inv 0 hk hn s' /\ exists s2 r rd, shrunk s s2 /\ rd = mkRun la crc sz j (CacheRun.deps cd) (CacheRun.dep_crcs cd) key rate last (CacheRun.has_hidden cd) /\
      runs s2 !! r = None /\ runs s' = <[r := rd]> (runs s2) /\ reserved_sz s' = reserved_sz s /\ same_jobs s s' /\
      forall r0 rd0, runs s !! r0 = Some rd0 -> runs s2 !! r0 = Some rd0 \/ pushed_out s j sz rd0
  | Throw _ => max_sz < reserved_sz s + sz
  | Crash => False
  end.
Proof.
  intros I Hj Hroom Hk Hrefs Hrt Hsz. destruct (limit_runs_spec hk hn (size (runs s)) j s I Hj) as (s1 & jd1 & -> & I1 & Hs1 & Hj1 & Hn1 & Hk1); [lia|]. cbn [mbind outcome_mbind].
  pose proof (mk_room_spec hk hn sz j now s1 I1 Hsz) as Hmk. rewrite (shrunk_reserved _ _ Hs1) in Hmk.
  destruct (mk_room sz j now s1) as [s2| |] eqn:Hmr; cbn [mbind outcome_mbind]; [|done|done]. destruct Hmk as (I2 & Hs2 & Hcap).
  destruct (same_jobs_some _ _ _ _ (shrunk_jobs _ _ Hs2) Hj1) as (jd2 & Hj2 & _). pose proof (n_runs_mono _ _ _ _ _ _ _ _ _ _ _ I1 I2 Hs2 Hj1 Hj2).
  assert (shrunk s s2) as Hs12 by (by etrans).
  set (rd := mkRun _ _ _ _ _ _ _ _ _ _).
  destruct (new_run_spec j hk hn s2 rd jd2 now I2 (or_introl eq_refl)) as (s3 & r & -> & I3 & Hcr); simpl; try (done || lia).
  { by apply (shrunk_room _ _ Hs12). } { eapply refs_ok_loose; [apply I|done|by apply shrunk_loose|done|done]. }
  cbn [mbind outcome_mbind]. destruct Hcr as (Hr & Hrs & Hre & _ & Hsj & _ & _ & _ & _).
  rewrite (get_run_some s3 r rd) by (by rewrite Hrs, lookup_insert_eq). cbn [mbind outcome_mbind].
  destruct (same_jobs_some _ _ _ _ Hsj Hj2) as (jd3 & Hj3 & _). rewrite (run_name_some s3 rd jd3) by exact Hj3. cbn [mbind outcome_mbind].
  set (s4 := if bool_decide _ then _ else _). assert (exists fs, s4 = set_files fs s3) as [fs ->].
  { unfold s4. case_match; [exists (files s3); by destruct s3|by eexists]. }
  split_and!; [done|destruct I3; by split|]. exists s2, r, rd. split_and!; [done..| | |].
  - simpl. rewrite Hre. apply Hs12.
  - intros j'. simpl. rewrite (Hsj j'). apply Hs12.
  - intros r0 rd0 Hr0. destruct (Hk1 r0 rd0 Hr0) as [Hr1|?]; [|by right; left].
    destruct (Z.le_gt_cases (total_sz s + reserved_sz s + sz) max_sz) as [Hle|Hgt]; [left|right; right; lia].
    rewrite (mk_room_keeps j hk hn sz now s1 s2 I1 Hsz); [done| |done]. rewrite (shrunk_reserved _ _ Hs1).
    enough (total_sz s1 <= total_sz s) by lia. apply (total_sz_le _ _ _ _ _ _ _ _ I I1). intros r1 rd1 H1. exists rd1. split; [by apply (shrunk_runs _ _ Hs1)|done].
Qed.

(** ** What happens to each run *)

(** The job has a run with the key in the slot. *)
Definition occupied s (j key : Z) (last : bool) : Prop :=
  exists r rd, runs s !! r = Some rd /\ rjob rd = j /\ rkey rd = key /\ key_is_last rd = last.

(** The slot of the new run, from the slots in use *)
Definition new_slot s (j key : Z) (kil : KeyIsLast) : Prop :=
  match kil with
  | No => False
  | OverrideFirst => occupied s j key true
  | Plain => occupied s j key true \/ occupied s j key false
  | Yes => True
  end.

Definition same_slot (j key : Z) (last : bool) (rd : run) : Prop := rjob rd = j /\ rkey rd = key /\ key_is_last rd = last.

(** A run is kept, becomes the first one of its key, or is removed as a run of the slot, as one that the
    new run replaces by force, as one above the limit of the job, or to make room. *)
Definition fate s s' (r j : Z) (jd : job) (cd : CacheRun.digest) (key : Z) (kil : KeyIsLast) (last force : bool) (crc sz r0 : Z) (rd0 : run) : Prop :=
  (r0 <> r /\ runs s' !! r0 = Some rd0) \/
  (same_slot j key last rd0 /\ last = true /\ r0 <> r /\ runs s' !! r0 = Some (relabel false rd0)) \/
  (same_slot j key last rd0 /\ (kil = No \/ kil = Yes \/ last = false \/ occupied s j key false)) \/
  (force = true /\ rjob rd0 = j /\ CacheRun.is_match (hit_of jd cd rd0) = true /\ crc <> targets_crc rd0) \/
  (rjob rd0 = j /\ max_runs_per_job <= n_runs jd) \/
  max_sz < total_sz s + reserved_sz s + sz.

(** The state after the scan, if it did not conclude *)
Record scanned hk hn s (j : Z) (jd : job) (cd : CacheRun.digest) (key : Z) (force : bool) (crc : Z) (l : list Z) (f : Z * Z) s0 : Prop := {
  sc_inv : inv j hk hn s0;
  sc_loose : loose s s0;
  sc_sel lst : sel lst f = 0 \/ exists rd, runs s0 !! sel lst f = Some rd /\ same_slot j key lst rd;
  sc_plain : force = false -> s0 = s /\ found_ok s key l f /\ none_matches jd cd s l;
  sc_from r rd : runs s0 !! r = Some rd -> runs s !! r = Some rd;
  sc_kept r rd : runs s !! r = Some rd -> runs s0 !! r = Some rd \/
    force = true /\ rjob rd = j /\ CacheRun.is_match (hit_of jd cd rd) = true /\ crc <> targets_crc rd
}.

Lemma scan_some hk hn s j jd cd key force crc l f s0 : inv j hk hn s -> NoDup l ->
  (forall r, r ∈ l <-> exists rd, runs s !! r = Some rd /\ rjob rd = j) ->
  scan_result j hk hn jd cd key force crc [] l s (s0, Some f) -> scanned hk hn s j jd cd key force crc l f s0.
Proof.
  intros I Hnd Hm [(-> & Hf & Hno)|(-> & la & r & lb & rd & -> & Hr & Hmt & Hcrc & I1 & Hrm & Hf)].
  - split; [done|reflexivity| |done|done|by left]. intros lst. destruct (Hf lst) as [[? _]|(rd & Hi & Hr & Hk)]; [by left|right].
    exists rd. split; [done|]. apply Hm in Hi as (? & ? & ?). split; [congruence|done].
  - pose proof (removed_shrunk _ _ _ _ Hr Hrm) as Hsh. destruct Hrm as (Hrs & _).
    assert (rjob rd = j) as Hrj. { assert (r ∈ la ++ r :: lb) as Hi by set_solver. apply Hm in Hi as (? & ? & ?). congruence. }
    split; [done|by apply shrunk_loose| |done|apply Hsh|].
    + intros lst. destruct (Hf lst) as [[? _]|(rd' & Hi & Hr' & Hk)]; [by left|right]. exists rd'.
      assert (rjob rd' = j). { assert (sel lst f ∈ la ++ r :: lb) as Hi2 by set_solver. apply Hm in Hi2 as (? & ? & ?). congruence. }
      rewrite Hrs, lookup_delete_ne; [by split|]. intros He. rewrite <- He in Hi. rewrite NoDup_app in Hnd. set_solver.
    + intros r0 rd0 Hr0. rewrite Hrs. destruct (decide (r0 = r)) as [->|Hne]; [right|left; by rewrite lookup_delete_ne].
      assert (rd0 = rd) as -> by congruence. done.
Qed.

(** The slot is freed by removal or by making its run the first one. *)
Definition freed s0 s1 (j key : Z) (mk_first last : bool) (f : Z * Z) : Prop :=
  (forall r rd, runs s0 !! r = Some rd -> runs s1 !! r = Some rd \/ same_slot j key last rd /\
    (last = true /\ runs s1 !! r = Some (relabel false rd) \/ mk_first = false \/ last = false \/ f.1 <> 0)) /\
  (forall r rd, runs s1 !! r = Some rd -> runs s0 !! r = Some rd \/
    last = true /\ exists rd0, runs s0 !! r = Some rd0 /\ same_slot j key true rd0 /\ rd = relabel false rd0).

Lemma slot_freed s0 s1 j key mk_first last f :
  (sel last f = 0 \/ exists rd, runs s0 !! sel last f = Some rd /\ same_slot j key last rd) ->
  (sel last f = 0 /\ s1 = s0 \/
   sel last f <> 0 /\ last = true /\ f.1 = 0 /\ (exists rd, runs s0 !! f.2 = Some rd /\ runs s1 = <[f.2 := relabel false rd]> (runs s0)) \/
   sel last f <> 0 /\ runs s1 = delete (sel last f) (runs s0) /\ (mk_first = false \/ last = false \/ f.1 <> 0)) ->
  freed s0 s1 j key mk_first last f.
Proof.
  intros Hsel [[_ ->]|[(Hne & -> & H1 & rd & Hr & Hrs)|(Hne & Hrs & Hc)]]; [split; by left| |];
    destruct Hsel as [?|(rd0 & Hr0 & Hs0)]; try done; unfold freed; rewrite Hrs.
  - simpl in *. assert (rd0 = rd) as -> by congruence. split; intros r rd'.
    + intros Hr'. destruct (decide (r = f.2)) as [->|Hn]; [|left; by rewrite lookup_insert_ne].
      right. assert (rd' = rd) as -> by congruence. split; [done|]. left. by rewrite lookup_insert_eq.
    + intros [[<- <-]|[_ Hr']]%lookup_insert_Some; [right; eauto|by left].
  - split; intros r rd'.
    + intros Hr'. destruct (decide (r = sel last f)) as [->|Hn]; [|left; by rewrite lookup_delete_ne].
      right. assert (rd' = rd0) as -> by congruence. split; [done|]. by right.
    + intros [_ Hr']%lookup_delete_Some. by left.
Qed.

Lemma found_occupied s j key l f last : (forall r, r ∈ l <-> exists rd, runs s !! r = Some rd /\ rjob rd = j) -> runs s !! 0 = None ->
  found_ok s key l f -> sel last f <> 0 <-> occupied s j key last.
Proof.
  intros Hm H0 Hf. destruct (Hf last) as [[Hz Hno]|(rd & Hi & Hr & Hk & Hl)].
  - split; [done|]. intros (r & rd & Hr & Hj & Hk & Hl). destruct (Hno r rd); [apply Hm; eauto|done|done|done].
  - split; [|intros _ Hz; rewrite Hz in Hr; congruence]. intros _. exists (sel last f), rd. split_and!; try done.
    apply Hm in Hi as (? & ? & ?). congruence.
Qed.

Lemma slot_spec s j key kil l f : (forall r, r ∈ l <-> exists rd, runs s !! r = Some rd /\ rjob rd = j) -> runs s !! 0 = None ->
  found_ok s key l f -> (slot kil f).1 = true <-> new_slot s j key kil.
Proof.
  intros Hm H0 Hf. pose proof (found_occupied s j key l f true Hm H0 Hf) as H1. pose proof (found_occupied s j key l f false Hm H0 Hf) as H2.
  simpl in H1, H2. destruct kil; simpl; rewrite <- ?H1, <- ?H2, ?orb_true_iff, ?negb_true_iff, ?Z.eqb_neq; naive_solver.
Qed.

(** What [insert] does *)
Definition insert_result hk hn s (j : Z) (jd : job) (cd : CacheRun.digest) (key : Z) (kil : KeyIsLast) (la sz rate : Z) (force : bool) (crc : Z)
    (res : outcome (t A * bool)) : Prop :=
  match res with
  | Ret (s', false) => inv 0 hk hn s' /\ runs s' = runs s /\ reserved_sz s' = reserved_sz s /\
      exists r rd, runs s !! r = Some rd /\ rjob rd = j /\ CacheRun.is_match (hit_of jd cd rd) = true /\ (force = true -> crc = targets_crc rd)
  | Ret (s', true) => inv 0 hk hn s' /\ reserved_sz s' = reserved_sz s /\ same_jobs s s' /\ exists r last,
      runs s' !! r = Some (mkRun la crc sz j (CacheRun.deps cd) (CacheRun.dep_crcs cd) key rate last (CacheRun.has_hidden cd)) /\
      (forall r' rd', r' <> r -> runs s' !! r' = Some rd' -> runs s !! r' = Some rd' \/
        last = true /\ exists rd0, runs s !! r' = Some rd0 /\ same_slot j key true rd0 /\ rd' = relabel false rd0) /\
      (forall r0 rd0, runs s !! r0 = Some rd0 -> fate s s' r j jd cd key kil last force crc sz r0 rd0) /\
      (force = false -> (last = true <-> new_slot s j key kil) /\ (uniq s -> uniq s') /\
        forall r rd, runs s !! r = Some rd -> rjob rd = j -> CacheRun.is_match (hit_of jd cd rd) = false)
  | Throw _ => max_sz < reserved_sz s + sz
  | Crash => stuck s j jd cd \/ doubled s j key
  end.

Lemma insert_fate hk hn s j jd cd key kil force crc sz l f s0 s1 s2 s' r rd : scanned hk hn s j jd cd key force crc l f s0 -> inv j hk hn s ->
  inv j hk hn s1 -> loose s s1 -> jobs s !! j = Some jd -> freed s0 s1 j key (slot kil f).2 (slot kil f).1 f ->
  runs s2 !! r = None -> runs s' = <[r := rd]> (runs s2) ->
  (forall r0 rd0, runs s1 !! r0 = Some rd0 -> runs s2 !! r0 = Some rd0 \/ pushed_out s1 j sz rd0) ->
  forall r0 rd0, runs s !! r0 = Some rd0 -> fate s s' r j jd cd key kil (slot kil f).1 force crc sz r0 rd0.
Proof.
  intros Sc I I1 Hlo Hj [Hfr _] Hr Hrs Hk r0 rd0 Hr0. unfold fate.
  assert (forall rd1, runs s1 !! r0 = Some rd1 -> rjob rd1 = rjob rd0 -> (r0 <> r /\ runs s' !! r0 = Some rd1) \/
    rjob rd0 = j /\ max_runs_per_job <= n_runs jd \/ max_sz < total_sz s + reserved_sz s + sz) as Hgo.
  { intros rd1 H1 Hj1. destruct (Hk r0 rd1 H1) as [H2|[[Hrj (jd1 & Hjd1 & Hmx)]|Hx]].
    - left. assert (r0 <> r) by congruence. split; [done|]. by rewrite Hrs, lookup_insert_ne.
    - right. left. split; [congruence|]. enough (n_runs jd1 <= n_runs jd) by lia. apply (n_runs_le _ _ _ _ _ _ _ _ j _ _ I I1); [|done|done].
      intros r2 rd2 H2. destruct (loose_runs _ _ Hlo _ _ H2) as (lst & rd3 & H3 & ->). by exists rd3.
    - right. right. rewrite (loose_reserved _ _ Hlo) in Hx. enough (total_sz s1 <= total_sz s) by lia. apply (total_sz_le _ _ _ _ _ _ _ _ I I1).
      intros r2 rd2 H2. destruct (loose_runs _ _ Hlo _ _ H2) as (lst & rd3 & H3 & ->). by exists rd3. }
  destruct (sc_kept _ _ _ _ _ _ _ _ _ _ _ _ Sc _ _ Hr0) as [H0|?]; [|tauto].
  destruct (Hfr _ _ H0) as [H1|[Hss [[Hl H1]|Hw]]]; [destruct (Hgo _ H1 eq_refl); tauto|destruct (Hgo _ H1 eq_refl); tauto|].
  right. right. left. split; [done|]. destruct Hw as [Hw|[Hw|Hw]]; [destruct kil; simpl in Hw; auto; done|auto|].
  right. right. right. destruct (sc_sel _ _ _ _ _ _ _ _ _ _ _ _ Sc false) as [?|(rd1 & H1 & Hs1)]; [done|].
  exists f.1, rd1. split; [by apply (sc_from _ _ _ _ _ _ _ _ _ _ _ _ Sc)|exact Hs1].
Qed.

Lemma insert_full hk hn s j jd cd key kil la sz rate force crc rf now : inv j hk hn s -> room (ralloc s) -> jobs s !! j = Some jd ->
  0 < hk key -> refs_ok s key (CacheRun.deps cd) -> 0 <= rate < NRates -> 0 <= sz < 2 ^ 62 ->
  insert_result hk hn s j jd cd key kil la sz rate force crc (insert j cd key kil la sz rate force crc rf now s).
Proof.
  intros I Hroom Hj Hk Hrefs Hrt Hsz. destruct (job_list _ _ _ _ _ _ I Hj) as (l & Hl & Hm & _ & Hnd & Hlen).
  unfold insert. rewrite (get_job_some _ _ _ Hj). cbn [mbind outcome_mbind].
  assert (Lru.older (jlru jd) = hd 0 l) as -> by (by destruct Hl as (_ & -> & _)).
  pose proof (scan_spec hk hn jd cd key force crc j [] l (size (runs s)) (0, 0) s I Hl Hm Hlen) as Hres.
  specialize (Hres ltac:(intros lst; left; split; [by destruct lst|set_solver])).
  destruct (scan_runs _ _ _ _ _ _ _ _ s) as [[s0 [f|]]| |]; cbn [mbind outcome_mbind]; [| |done|exact Hres].
  2:{ simpl in Hres. destruct Hres as (-> & r & rd & Hi & Hr & Hmt & Hcrc).
    set (s4 := if bool_decide _ then _ else _). assert (exists fs, s4 = set_files fs s) as [fs ->].
    { unfold s4. case_match; [exists (files s); by destruct s|by eexists]. }
    apply Hm in Hi as (rd' & Hr' & Hj'). assert (rd' = rd) as -> by congruence.
    split_and!; [|done|done|by exists r, rd]. assert (inv 0 hk hn s) as I0 by (by eapply inv_strengthen). destruct I0. by split. }
  pose proof (scan_some _ _ _ _ _ _ _ _ _ _ _ _ I Hnd Hm Hres) as Sc. clear Hres.
  rewrite (surjective_pairing (slot kil f)). set (last := (slot kil f).1). set (mk_first := (slot kil f).2).
  pose proof (sc_sel _ _ _ _ _ _ _ _ _ _ _ _ Sc last) as Hsel.
  destruct (free_slot_spec j hk hn s0 last mk_first f (sc_inv _ _ _ _ _ _ _ _ _ _ _ _ Sc)) as (s1 & -> & I2 & Hlo1 & Hcase).
  { destruct Hsel as [?|(rd & ? & ? & _)]; eauto. }
  cbn [mbind outcome_mbind]. pose proof (slot_freed _ _ _ _ _ _ _ Hsel Hcase) as Hfr.
  assert (loose s s1) as Hlo' by (etrans; [apply (sc_loose _ _ _ _ _ _ _ _ _ _ _ _ Sc)|done]).
  destruct (same_jobs_some _ _ _ _ (loose_jobs _ _ Hlo') Hj) as (jd1 & Hj1 & _).
  pose proof (insert_tail hk hn s1 j cd key last la sz rate crc rf now I2 ltac:(eauto) (loose_room _ _ Hlo' Hroom) Hk
    (refs_ok_loose _ _ _ _ _ _ _ I I2 Hlo' Hk Hrefs) Hrt Hsz) as Ht.
  match goal with |- insert_result _ _ _ _ _ _ _ _ _ _ _ _ _ ?e => change e with (
    s ← limit_runs (size (runs s1)) j s1; s ← mk_room sz j now s;
    '(s, r) ← new_run now (mkRun la crc sz j (CacheRun.deps cd) (CacheRun.dep_crcs cd) key rate last (CacheRun.has_hidden cd)) s;
    rd ← get_run r s; name ← run_name rd s;
    Ret (if bool_decide (rf = EmptyString) then s else rename_run rf name s, true)) end.
  destruct (limit_runs (size (runs s1)) j s1 ≫= _) as [[s' b]|m|]; [|simpl; by rewrite <- (loose_reserved _ _ Hlo')|done].
  destruct Ht as (-> & I' & s2 & r & rd & Hsh & -> & Hr & Hrs & Hre & Hsj & Hkp).
  split_and!; [done|by rewrite Hre, (loose_reserved _ _ Hlo')|intros j'; rewrite (Hsj j'); apply Hlo'|]. exists r, last.
  split_and!; [by rewrite Hrs, lookup_insert_eq| |by eapply insert_fate|].
  - intros r' rd' Hne. rewrite Hrs, lookup_insert_ne by done. intros Hr'. apply (shrunk_runs _ _ Hsh) in Hr'.
    pose proof (sc_from _ _ _ _ _ _ _ _ _ _ _ _ Sc) as Hfrom. destruct (proj2 Hfr _ _ Hr') as [?|(? & rd0 & ? & ? & ?)]; [left; auto|right; eauto 10].
  - intros Hfo. destruct (sc_plain _ _ _ _ _ _ _ _ _ _ _ _ Sc Hfo) as (-> & Hf & Hno). destruct (inv_jobs _ _ _ _ I) as (_ & Hz & _).
    split_and!; [by eapply slot_spec| |intros r1 rd1 Hr1 Hj'; apply (Hno r1); [apply Hm; eauto|done]]. intros Hu.
    destruct (free_slot_uniq _ _ _ _ _ _ _ _ Hu Hz Hm Hf Hcase) as [Hu1 Hsf].
    apply (uniq_insert s2 s' r _ Hr Hrs); [by eapply uniq_shrunk|]. by eapply slot_free_shrunk.
Qed.

(** When the comparisons return and no slot has two runs *)
Lemma insert_spec hk hn s j jd cd key kil la sz rate force crc rf now : inv j hk hn s -> uniq s -> room (ralloc s) -> jobs s !! j = Some jd ->
  matchable s j jd cd -> 0 < hk key -> refs_ok s key (CacheRun.deps cd) -> 0 <= rate < NRates -> 0 <= sz < 2 ^ 62 ->
  match insert j cd key kil la sz rate force crc rf now s with
  | Ret (s', false) => inv 0 hk hn s' /\ runs s' = runs s /\ reserved_sz s' = reserved_sz s /\
      exists r rd, runs s !! r = Some rd /\ rjob rd = j /\ CacheRun.is_match (hit_of jd cd rd) = true
  | Ret (s', true) => inv 0 hk hn s' /\ reserved_sz s' = reserved_sz s /\ same_jobs s s' /\
      (exists r rd last, runs s' !! r = Some rd /\ rd = mkRun la crc sz j (CacheRun.deps cd) (CacheRun.dep_crcs cd) key rate last (CacheRun.has_hidden cd) /\
        forall r' rd', r' <> r -> runs s' !! r' = Some rd' -> exists last' rd0, runs s !! r' = Some rd0 /\ rd' = relabel last' rd0) /\
      (force = false -> uniq s' /\ forall r rd, runs s !! r = Some rd -> rjob rd = j -> CacheRun.is_match (hit_of jd cd rd) = false)
  | Throw _ => max_sz < reserved_sz s + sz
  | Crash => False
  end.
Proof.
  intros I Hu Hroom Hj Hma Hk Hrefs Hrt Hsz. pose proof (insert_full hk hn s j jd cd key kil la sz rate force crc rf now I Hroom Hj Hk Hrefs Hrt Hsz) as H.
  destruct (insert j cd key kil la sz rate force crc rf now s) as [[s' [|]]| |]; simpl in H.
  - destruct H as (? & ? & ? & r & last & Hr & Hfrom & _ & Hfo). split_and!; [done|done|done| |naive_solver].
    eexists r, _, last. split_and!; [done|done|]. intros r' rd' Hne Hr'. destruct (Hfrom r' rd' Hne Hr') as [?|(_ & rd0 & ? & _ & ->)]; [|by exists false, rd0].
    exists (key_is_last rd'), rd'. split; [done|by destruct rd'].
  - destruct H as (? & ? & ? & r & rd & ? & ? & ? & _). split_and!; try done. by exists r, rd.
  - done.
  - destruct H as [H|H]; [by eapply matchable_not_stuck|by eapply uniq_not_doubled].
Qed.

(** ** [CrunData::s_chk] *)
Lemma for_each_ok {X} (f : X -> outcome unit) (l : list X) : (forall x, x ∈ l -> f x = Ret tt) -> for_each f l = Ret tt.
Proof. induction l as [|x l IH]; intros H; [done|]. simpl. rewrite H by set_solver. cbn [mbind outcome_mbind]. apply IH. set_solver. Qed.

Lemma ref_chk_ok h cnt m refs : ref_inv h cnt m refs ->
  for_each (fun '(k, c) => throw_unless (sum_runs (cnt k) m <=? c) "bad ref cnt") (map_to_list refs) = Ret tt.
Proof.
  intros Hi. apply for_each_ok. intros [k c] Hk. apply elem_of_map_to_list in Hk. specialize (Hi k). rewrite Hk in Hi. simpl in Hi.
  destruct (Z.leb_spec (sum_runs (cnt k) m) c); [done|lia].
Qed.

Lemma s_chk_ok kp hk hn s : inv kp hk hn s -> s_chk s = Ret tt.
Proof.
  intros [Ial Ijo Igl Ita Ike Ino Isz Ica Itr]. unfold s_chk.
  assert (for_each (run_chk s) (map_to_list (runs s)).*1 = Ret tt) as ->.
  { apply for_each_ok. intros r Hr. apply list_elem_of_fmap in Hr as ([r' rd] & -> & Hr). simpl. apply elem_of_map_to_list in Hr.
    unfold run_chk. rewrite (get_run_some _ _ _ Hr). cbn [mbind outcome_mbind].
    destruct Ijo as ((ls & Hf & _) & _ & Hj). destruct (Hj _ _ Hr) as [jd Hjd]. rewrite (get_job_some _ _ _ Hjd). cbn [mbind outcome_mbind].
    rewrite <- (job_hdr_lookup _ _ _ Hjd). rewrite (Lru.family_chk _ _ _ _ Hf (rjob rd) r') by (unfold run_job; by rewrite Hr). cbn [mbind outcome_mbind].
    destruct Igl as ((ls' & Hf') & _ & _). apply (Lru.family_chk _ _ _ _ Hf' (rrate rd) r'). unfold run_rate. by rewrite Hr. }
  cbn [mbind outcome_mbind]. rewrite (ref_chk_ok hn node_cnt (runs s) (nodes s) Ino). cbn [mbind outcome_mbind]. exact (ref_chk_ok hk key_cnt (runs s) (keys s) Ike).
Qed.

(** ** Properties *)


(** C31 Making room: [mk_room] terminates with enough room for the requested size besides what is stored
    and reserved, by only removing runs; it throws, without any change, exactly when the reservations
    alone leave too little room. *)
Theorem mk_room_correct hk hn sz kj now s : inv kj hk hn s -> 0 <= sz < 2 ^ 62 ->
  (max_sz < reserved_sz s + sz /\ mk_room sz kj now s = Throw "cache too small") \/
  (exists s', mk_room sz kj now s = Ret s' /\ inv kj hk hn s' /\ total_sz s' + reserved_sz s' + sz <= max_sz /\ reserved_sz s' = reserved_sz s /\
    forall r rd, runs s' !! r = Some rd -> runs s !! r = Some rd).
Proof.
  intros I Hsz. pose proof (mk_room_spec hk hn sz kj now s I Hsz) as H. destruct (mk_room sz kj now s) as [s'|m|] eqn:He; [right|left|done].
  - destruct H as (I' & Hsh & Hc). exists s'. split_and!; [done|done|done|apply Hsh|apply Hsh].
  - split; [done|]. unfold mk_room in He. pose proof max_sz_range. pose proof (inv_cap _ _ _ _ I).
    pose proof (inv_sz _ _ _ _ I) as [Hto Hnn]. pose proof (sum_runs_nonneg _ _ Hnn). rewrite u64_small in He by lia.
    destruct (Z.ltb_spec max_sz (reserved_sz s + sz)); [congruence|lia].
Qed.

(** C32 [CjobData::match] goes through the list of the runs of the job, most recently used first, and
    returns the first one that matches the digest. If it is a hit, the run gets the date of the request
    and moves to the front of the list of its job and of the list of its rate, all other lists being
    unchanged; otherwise the cache is unchanged. Without a run that matches, it tells whether the job has
    runs at all. The server stops only if the comparison with a run does, none before it matching. *)
Theorem match_job_correct kp hk hn s j jd cd now jls rls : inv kp hk hn s -> jobs s !! j = Some jd -> job_ls s jls -> rate_ls s rls ->
  (forall r, r ∈ jls j <-> exists rd, runs s !! r = Some rd /\ rjob rd = j) /\
  match match_job j cd now s with
  | Ret res => inv kp hk hn res.1.1 /\ match_result jls rls j jd cd now (if decide (jls j = []) then CacheRun.NoJob else CacheRun.BadDeps) s res
  | Throw _ => False
  | Crash => stopped jls j jd cd s
  end.
Proof. intros I Hj Hjl Hrl. split; [intros r; by apply job_ls_elem|by apply match_job_full]. Qed.
End thm.

(** ** A small cache *)
Module EngineSample.
(** Indices are never reused. *)
#[export] Instance bump : Allocator Z := {|
  owns := fun n X => 0 < n /\ forall i, i ∈ X -> 0 < i < n;
  room := fun _ => True;
  alloc := fun n => Ret (n + 1, n);
  free := fun _ n => Ret n |}.
#[export] Instance bump_ok : AllocatorOk Z.
Proof.
  split; simpl.
  - intros a X a' i [Ha HX] [= <- <-]. split_and!; [lia|intros Hi; specialize (HX a Hi); lia|lia|].
    intros i [->%elem_of_singleton|Hi]%elem_of_union; [lia|]. specialize (HX i Hi). lia.
  - intros a X _ _. eauto.
  - intros a X i [Ha HX] _. exists a. split_and!; [done|done|set_solver|done].
Qed.

#[export] Instance cfg : Config := {|
  max_sz := 1000; max_runs_per_job := 2;
  score := fun now la r => (now - la) * (256 - r); rate_val := fun r => - r; crossing := fun now _ _ _ _ => now |}.
#[export] Instance cfg_ok : ConfigOk cfg.
Proof. split; simpl; intros; lia. Qed.

(** Job 1, without run; keys 7 and 8 are held by connections, node 5 by a request. *)
Definition s0 : t Z := mk ∅ 1 ∅ ∅ {[1 := mkJob Lru.empty 0 0 "job"]} (<[7 := 1]> {[8 := 1]}) {[5 := 1]} (mkTab ∅ 0 0 [] 0 0) 0 0 [] [] ∅.
Definition hk0 (k : Z) : Z := if decide (k = 7) then 1 else if decide (k = 8) then 1 else 0.
Definition hn0 (n : Z) : Z := if decide (n = 5) then 1 else 0.

Lemma s0_inv : inv 1 hk0 hn0 s0.
Proof.
  assert (forall h, Lru.lru Lru.empty [] h) as Hl by (intros h; split_and!; [apply NoDup_singleton|done|done]).
  split; simpl.
  - split; [lia|set_solver].
  - split; [|split; [done|by intros r rd Hr]]. exists (fun _ => []). split.
    + intros c. split; [|intros r; set_solver]. unfold job_hdr. destruct (decide (c = 1)) as [->|Hc]; [done|]. by rewrite lookup_singleton_ne.
    + intros j jd Hj. apply lookup_singleton_Some in Hj as [_ <-]. simpl. lia.
  - split; [|split; [done|by intros r rd Hr]]. exists (fun _ => []). intros c. split; [done|]. intros r. set_solver.
  - split; [by intros x Hx|]. split; [apply NoDup_nil_2|]. intros x. unfold has_runs. simpl. set_solver.
  - intros k. unfold hk0. change (sum_runs (key_cnt k) ∅) with 0. destruct (decide (k = 7)) as [->|H7]; [done|].
    rewrite lookup_insert_ne by done. destruct (decide (k = 8)) as [->|H8]; [done|]. by rewrite lookup_singleton_ne.
  - intros k. unfold hn0. change (sum_runs (node_cnt k) ∅) with 0. destruct (decide (k = 5)) as [->|H7]; [done|]. by rewrite lookup_singleton_ne.
  - split; [done|by intros r rd Hr].
  - lia.
  - split_and!; simpl; [set_solver|set_solver| | |done|done].
    + intros j jd [<- _]%lookup_singleton_Some _. by left.
    + intros n [_ H]%lookup_singleton_Some. done.
Qed.

Definition cd (crc : Z) : CacheRun.digest := CacheRun.mkDigest 0 false [5] [crc].

(** The job gets a run for key 7, then another one for key 8. *)
Definition get (o : outcome (t Z * bool)) : t Z := match o with Ret (s, _) => s | _ => s0 end.
Definition s1 : t Z := get (insert 1 (cd 1000) 7 Plain 50 300 3 false 77 "LMAKE/reserved/1" 60 s0).
Definition s2 : t Z := get (insert 1 (cd 2000) 8 Plain 51 200 3 false 88 "LMAKE/reserved/2" 61 s1).
Definition job1 (s : t Z) : job := default (mkJob Lru.empty 0 0 "") (jobs s !! 1).

Lemma refs_sample (s : t Z) k n crc : nodes s = {[5 := n]} -> 0 <= n < 100 -> is_Some (keys s !! k) -> default 0 (keys s !! k) < 100 ->
  refs_ok s k (CacheRun.deps (cd crc)).
Proof.
  intros Hn Hr Hk Hk1. split_and!; [done|lia| |]; rewrite Hn.
  - intros m Hm. apply list_elem_of_singleton in Hm as ->. by eexists.
  - intros m. simpl. unfold occ. destruct (decide (m = 5)) as [->|Hm].
    + rewrite lookup_singleton_eq. simpl. lia.
    + rewrite lookup_singleton_ne by done. rewrite filter_cons, decide_False by done. done.
Qed.

Lemma s1_inv : inv 1 hk0 hn0 s1.
Proof.
  pose proof (insert_full hk0 hn0 s0 1 (job1 s0) (cd 1000) 7 Plain 50 300 3 false 77 "LMAKE/reserved/1" 60 s0_inv I eq_refl ltac:(done)
    (refs_sample s0 7 1 1000 eq_refl ltac:(lia) ltac:(by eexists) ltac:(by vm_compute)) ltac:(done) ltac:(lia)) as H.
  unfold s1. destruct (insert 1 (cd 1000) 7 Plain 50 300 3 false 77 "LMAKE/reserved/1" 60 s0) as [[s' [|]]|m|]; [..|apply s0_inv|apply s0_inv];
    destruct H as [H _]; by apply inv_weaken.
Qed.

Lemma s1_refs : refs_ok s1 8 (CacheRun.deps (cd 2000)).
Proof. apply (refs_sample s1 8 2); [by vm_compute|lia|by eexists; vm_compute|by vm_compute]. Qed.

Lemma s2_inv : inv 1 hk0 hn0 s2.
Proof.
  pose proof (insert_full hk0 hn0 s1 1 (job1 s1) (cd 2000) 8 Plain 51 200 3 false 88 "LMAKE/reserved/2" 61 s1_inv I ltac:(by vm_compute) ltac:(done)
    s1_refs ltac:(done) ltac:(lia)) as H.
  unfold s2. destruct (insert 1 (cd 2000) 8 Plain 51 200 3 false 88 "LMAKE/reserved/2" 61 s1) as [[s' [|]]|m|]; [..|apply s0_inv|apply s0_inv];
    destruct H as [H _]; by apply inv_weaken.
Qed.


Lemma mk_room_correct_witness : exists s', mk_room 900 1 60 s0 = Ret s' /\ total_sz s' + reserved_sz s' + 900 <= 1000.
Proof.
  destruct (mk_room_correct hk0 hn0 900 1 60 s0 s0_inv ltac:(lia)) as [[H _]|(s' & H & _ & Hc & _)]; [by vm_compute in H|].
  exists s'. split; [done|]. simpl in Hc. lia.
Defined.

(** The job has runs 2 and 1, most recently used first; the digest of run 1 hits it and moves it to the front. *)
Lemma match_job_correct_witness : exists s' ls, match_job 1 (cd 1000) 70 s2 = Ret (s', 1, CacheRun.HitExhaustive) /\
  Lru.older (jlru (job1 s2)) = 2 /\ job_ls s' ls /\ hd 0 (ls 1) = 1.
Proof.
  destruct (inv_lists _ _ _ _ s2_inv) as (jls & rls & Hj & Hr).
  pose proof (match_job_correct 1 hk0 hn0 s2 1 (job1 s2) (cd 1000) 70 jls rls s2_inv ltac:(by vm_compute) Hj Hr) as [_ H].
  assert (exists s', match_job 1 (cd 1000) 70 s2 = Ret (s', 1, CacheRun.HitExhaustive)) as [s' He] by (eexists; vm_compute; reflexivity).
  rewrite He in H. destruct H as [_ H]. apply match_result_hit in H; [|lia|exact eq_refl].
  exists s', (to_front 1 1 jls). split; [exact He|]. split; [vm_compute; reflexivity|]. split; [exact H|]. exact eq_refl.
Defined.

(** Forcing a replacement may leave two runs of the same job with the same key in the same slot: the
    loop that looks for the runs with the same key stops at the first run it removes, as the link to the
    next one has been cleared. Both runs then have the same file name, so the second one overwrites the
    file of the first one. *)
Theorem force_duplicates :
  let run3 := ('(s, _) ← insert 1 (cd 1000) 7 Plain 50 100 3 false 77 "f1" 60 s0;
               '(s, _) ← insert 1 (cd 2000) 8 Plain 51 100 3 false 88 "f2" 61 s;
               insert 1 (cd 2000) 7 Plain 52 100 3 true 99 "f3" 62 s) in
  exists s rd1 rd2, run3 = Ret (s, true) /\ runs s !! 1 = Some rd1 /\ runs s !! 3 = Some rd2 /\ ~ uniq s /\
    run_name rd1 s = run_name rd2 s.
Proof.
  eexists _, _, _. split; [vm_compute; reflexivity|]. split; [vm_compute; reflexivity|]. split; [vm_compute; reflexivity|]. split; [|vm_compute; reflexivity].
  intros Hu. assert (1 = 3) as H by (eapply Hu; vm_compute; reflexivity). lia.
Qed.
End EngineSample.
