(* ===== verification/CacheServer.v ===== *)
(** * The cache server: [CompileDigest] of src/cache/engine.cc and the requests of src/cache/lcache_server.cc.

    Names are resolved by the prefix files: a job, a node or a key is given by the index its name has,
    0 for a name that is not in the file; an index that has no data yet is a new name. *)
From stdpp Require Import sorting.
From S2P Require Import Prelude.
From S2P Require Import Enum.
From S2P Require Import Utils.
From S2P Require Import Crc.
From S2P Require Import CacheMatch.
From S2P Require Import CacheLru.
From S2P Require Import CacheEngine.
Local Open Scope Z_scope.

Module Digest.

(** [DepDigest], as far as the cache uses it *)
Record dep := mkDep { is_name : bool; node : Z; full : bool; static : bool; accesses : Z; dcrc : Z; derr : bool }.

(** [Dep] of the constructor, compared by bucket then node *)
Record item := mkItem { bucket : Z; inode : Z; icrc : Z; iname : bool }.
Definition item_le (a b : item) : Prop := bucket a < bucket b \/ bucket a = bucket b /\ inode a <= inode b.
#[export] Instance item_le_dec a b : Decision (item_le a b).
Proof. unfold item_le. apply _. Defined.

(** [Max<VarIdx>] *)
Definition MaxVarIdx : nat := 255.

(** Loop over the dependencies: number of static ones, whether some are hidden, and the kept ones *)
Fixpoint collect (for_download : bool) (ds : list dep) (ns : nat) (hidden : bool) (acc : list item) : outcome (nat * bool * list item) :=
  match ds with
  | [] => Ret (ns, hidden, acc)
  | d :: ds =>
    let a := if full d then accesses d else 0 in
    _ ← (if full d && negb for_download then swear (negb (Crc.never_match (dcrc d) (accesses d))) else Ret tt);
    _ ← (if static d then swear (ns <? MaxVarIdx)%nat else Ret tt);
    let ns := if static d then S ns else ns in
    if negb (static d) && (a =? 0) then collect for_download ds ns true acc
    else if is_name d && for_download && (node d =? 0) then collect for_download ds ns hidden acc
    else
      let crc := CacheCrc.dep_crc for_download a (derr d) (dcrc d) in
      let bucket := if static d then 0 else if negb (crc =? Crc.None) then 1 else 2 in
      collect for_download ds ns hidden (acc ++ [mkItem bucket (node d) crc (is_name d)])
  end.

(** Checksums of the dependencies before the first one of bucket 2 *)
Fixpoint crcs_of (l : list item) : list Z :=
  match l with
  | [] => []
  | i :: l => if bucket i =? 2 then [] else icrc i :: crcs_of l
  end.

(** The digest and the nodes given by name, without the references taken on the nodes *)
Definition digest_of (for_download : bool) (ds : list dep) : outcome (CacheRun.digest * list Z) :=
  '(ns, hidden, l) ← collect for_download ds 0 false [];
  let l := merge_sort item_le l in
  Ret (CacheRun.mkDigest ns hidden (inode <$> l) (crcs_of l), inode <$> filter (fun i => iname i = true) l).

End Digest.

Module Server.
Import Engine.
Section server.
Context {A : Type} {HA : Allocator A} {C : Config}.

(** [ConnEntry] *)
Record conn := mkConn { ckey : Z; upload_keys : gset Z }.

Record st := mkSt { eng : Engine.t A; g_upload_keys : SmallIds.t; g_reserved_szs : list Z; g_conn_tab : gmap Z conn }.
Definition set_eng (e : Engine.t A) (s : st) : st := mkSt e (g_upload_keys s) (g_reserved_szs s) (g_conn_tab s).
Definition set_conns (x : gmap Z conn) (s : st) : st := mkSt (eng s) (g_upload_keys s) (g_reserved_szs s) x.

(** [CacheUploadKey] is [uint64_t] *)
Definition MaxKey : Z := 2 ^ 64 - 1.

(** [Cnode(New,name)], [Cjob(New,name,n_statics)] and [Ckey(New,name)] for a name of index [i] *)
Definition new_node (i : Z) (e : Engine.t A) : Engine.t A :=
  if decide (is_Some (nodes e !! i)) then e else set_nodes (<[i := 0]> (nodes e)) e.
Definition new_job (i : Z) (name : string) (n_statics : nat) (e : Engine.t A) : outcome (Engine.t A) :=
  match jobs e !! i with
  | None => Ret (set_jobs (<[i := mkJob Lru.empty 0 n_statics name]> (jobs e)) e)
  | Some jd => _ ← swear (jn_statics jd =? n_statics)%nat; Ret e
  end.
Definition new_key (i : Z) (e : Engine.t A) : Engine.t A :=
  if decide (is_Some (keys e !! i)) then e else set_keys (<[i := 0]> (keys e)) e.

(** [CompileDigest(...)] and [~CompileDigest()] *)
Definition new_nodes (l : list Z) (e : Engine.t A) : Engine.t A := foldl (fun e i => new_node i e) e l.
Definition compile (for_download : bool) (ds : list Digest.dep) (e : Engine.t A) : outcome (CacheRun.digest * Engine.t A) :=
  '(cd, named) ← Digest.digest_of for_download ds;
  let e := if for_download then e else new_nodes named e in
  e ← iter node_inc (CacheRun.deps cd) e;
  Ret (cd, e).
Definition release_digest (cd : CacheRun.digest) (e : Engine.t A) : outcome (Engine.t A) := iter node_dec (CacheRun.deps cd) e.

(** [run_sz(...)], with the sizes of [CrunData], [CnodeIdx] and [Crc] *)
Definition run_sz (total_z_sz job_info_sz : Z) (cd : CacheRun.digest) : Z :=
  u64 (total_z_sz + job_info_sz + 64 + Z.of_nat (length (CacheRun.deps cd)) * 4 + Z.of_nat (length (CacheRun.dep_crcs cd)) * 8).

Definition reserved_file (upload_key : Z) : string := "LMAKE/reserved/" +:+ pretty upload_key.

(** [_release_room(sz)] *)
Definition _release_room (sz : Z) (e : Engine.t A) : outcome (Engine.t A) :=
  _ ← swear (sz <=? reserved_sz e);
  let e := set_reserved_sz (u64 (reserved_sz e - sz)) e in
  _ ← swear (u64 (total_sz e + reserved_sz e) <=? max_sz);
  Ret e.

(** [_config(fd,repo_key)] *)
Definition _config (fd key : Z) (s : st) : outcome st :=
  let e := new_key key (eng s) in
  _ ← swear (bool_decide (g_conn_tab s !! fd = None));
  e ← key_inc key e;
  Ret (set_conns (<[fd := mkConn key ∅]> (g_conn_tab s)) (set_eng e s)).

(** Reply of [_download] *)
Record reply := mkReply { hit_info : CacheRun.CacheHitInfo; rep_key : Z; rep_is_last : bool }.

(** [_download(crr)] at date [now] *)
Definition _download (job : Z) (ds : list Digest.dep) (now : Z) (s : st) : outcome (st * reply) :=
  if job =? 0 then Ret (s, mkReply CacheRun.NoJob 0 false)
  else
    '(cd, e) ← compile true ds (eng s);
    jd ← get_job job e;
    _ ← swear (CacheRun.n_statics cd =? jn_statics jd)%nat;
    '(e, r, h) ← match_job job cd now e;
    rep ← (if CacheRun.is_match h then rd ← get_run r e; Ret (mkReply h (rkey rd) (key_is_last rd)) else Ret (mkReply h 0 false));
    e ← release_digest cd e;
    Ret (set_eng e s, rep).

(** [grow(v,i) = x] *)
Definition grow_set (i : nat) (x : Z) (v : list Z) : list Z := <[i := x]> (v ++ replicate (S i - length v) 0).

(** [_upload(fd,reserved_sz)]: the upload key, or the message of the reply *)
Definition _upload (fd sz now : Z) (s : st) : outcome (st * (Z + string)) :=
  match g_conn_tab s !! fd with
  | None => Ret (s, inr "cache is diabled"%string)
  | Some c =>
    match mk_room sz 0 now (eng s) with
    | Throw msg => Ret (s, inr msg)
    | Crash => Crash
    | Ret e =>
      '(ids, key) ← SmallIds.acquire MaxKey (g_upload_keys s);
      Ret (mkSt (set_reserved_sz (u64 (reserved_sz e + sz)) e) ids (grow_set (Z.to_nat key) sz (g_reserved_szs s))
             (<[fd := mkConn (ckey c) ({[key]} ∪ upload_keys c)]> (g_conn_tab s)), inl key)
    end
  end.

(** First lines of [_commit] and [_dismiss]: the reservation is given back *)
Definition end_upload (key : Z) (s : st) : outcome st :=
  sz ← (match g_reserved_szs s !! Z.to_nat key with Some sz => Ret sz | None => Crash end);
  e ← _release_room sz (eng s);
  ids ← SmallIds.release key (g_upload_keys s);
  Ret (mkSt e ids (<[Z.to_nat key := 0]> (g_reserved_szs s)) (g_conn_tab s)).

(** [CacheRpcReq] for a commit; [rate] is the result of [to_rate], computed in floating point *)
Record commit_req := mkCommit {
  job : Z; job_is_name : bool; job_name : string; repo_deps : list Digest.dep; override_first : bool; force : bool;
  req_crc : Z; total_z_sz : Z; job_info_sz : Z; rate : Z; upload_key : Z }.

Definition forget_upload (fd key : Z) (s : st) : outcome (st * conn) :=
  match g_conn_tab s !! fd with
  | None => Crash
  | Some c => let c := mkConn (ckey c) (upload_keys c ∖ {[key]}) in Ret (set_conns (<[fd := c]> (g_conn_tab s)) s, c)
  end.

(** [_commit(fd,crr)] at date [now] *)
Definition _commit (fd : Z) (crr : commit_req) (now : Z) (s : st) : outcome (st * bool) :=
  s ← end_upload (upload_key crr) s;
  '(cd, e) ← compile false (repo_deps crr) (eng s);
  e ← (if job_is_name crr then new_job (job crr) (job_name crr) (CacheRun.n_statics cd) e else Ret e);
  jd ← get_job (job crr) e;
  _ ← swear (jn_statics jd =? CacheRun.n_statics cd)%nat;
  let sz := run_sz (total_z_sz crr) (job_info_sz crr) cd in
  '(s, c) ← forget_upload fd (upload_key crr) s;
  '(e, inserted) ← insert (job crr) cd (ckey c) (if override_first crr then OverrideFirst else Plain) now sz (rate crr)
    (force crr) (req_crc crr) (reserved_file (upload_key crr)) now e;
  e ← release_digest cd e;
  Ret (set_eng e s, inserted).

(** [_dismiss(fd,upload_key)] *)
Definition _dismiss (fd key : Z) (s : st) : outcome st :=
  s ← end_upload key s;
  '(s, _) ← forget_upload fd key s;
  Ret (set_eng (unlnk_run (reserved_file key) (eng s)) s).

(** [CjobData::s_empty_trash()] and [CnodeData::s_empty_trash()], on the sorted trash: [+jd] and [+nd]
    tell the entries retrieved from it *)
Fixpoint pop_trash {X} (used : X -> bool) (trash : list Z) (prev : Z) (m : gmap Z X) : outcome (gmap Z X) :=
  match trash with
  | [] => Ret m
  | i :: trash =>
    if i =? prev then pop_trash used trash prev m
    else
      match m !! i with
      | None => Crash
      | Some x => if used x then pop_trash used trash prev m else pop_trash used trash i (delete i m)
      end
  end.
Definition empty_jobs (e : Engine.t A) : outcome (Engine.t A) :=
  js ← pop_trash (fun jd => negb (n_runs jd =? 0)) (merge_sort Z.le (job_trash e)) 0 (jobs e);
  Ret (set_job_trash [] (set_jobs js e)).
Definition empty_nodes (e : Engine.t A) : outcome (Engine.t A) :=
  ns ← pop_trash (fun c => 0 <? c) (merge_sort Z.le (node_trash e)) 0 (nodes e);
  Ret (set_node_trash [] (set_nodes ns e)).
Definition cache_empty_trash (e : Engine.t A) : outcome (Engine.t A) := e ← empty_jobs e; empty_nodes e.

(** [CjobData::s_rescue()] and [CnodeData::s_rescue()] *)
Definition rescue (e : Engine.t A) : Engine.t A :=
  set_nodes (filter (fun '(_, c) => 0 < c) (nodes e)) (set_jobs (filter (fun '(_, jd) => n_runs jd <> 0) (jobs e)) e).

(** [end_connection(fd)]; [alone] is [n_connections()==1] *)
Fixpoint dismiss_all (fd : Z) (keys : list Z) (s : st) : outcome st :=
  match keys with [] => Ret s | k :: keys => s ← _dismiss fd k s; dismiss_all fd keys s end.
Definition end_connection (fd : Z) (alone : bool) (s : st) : outcome st :=
  s ← (if alone then e ← cache_empty_trash (eng s); Ret (set_eng e s) else Ret s);
  match g_conn_tab s !! fd with
  | None => Ret s
  | Some c =>
    s ← dismiss_all fd (elements (upload_keys c)) s;
    e ← key_dec (ckey c) (eng s);
    Ret (set_conns (delete fd (g_conn_tab s)) (set_eng e s))
  end.

End server.
Arguments st : clear implicits.
End Server.
