(* ===== verification/CacheServerThm.v ===== *)
(** * The requests of the cache server keep its invariant.

    Between two requests, the references on keys are those of the runs and of the connections, those
    on nodes are those of the runs, and the reserved size is the sum of the reservations in progress. *)
From stdpp Require Import sorting.
From S2P Require Import Prelude.
From S2P Require Import Utils.
From S2P Require Import CacheMatch.
From S2P Require Import CacheLru.
From S2P Require Import CacheEngine.
From S2P Require Import CacheEngineInv.
From S2P Require Import CacheEngineOps.
From S2P Require Import CacheEngineThm.
From S2P Require Import CacheServer.
Local Open Scope Z_scope.
Import Engine.
Import Server.

Section server.
Context {A : Type} {HA : Allocator A} {HAO : AllocatorOk A} {C : Config} {HC : ConfigOk C}.
Implicit Types (e : Engine.t A) (s : st A).

(** ** Trash *)
Section pop_trash.
Context {X : Type} (used : X -> bool).
Implicit Types (m : gmap Z X).

Definition kept (l : list Z) m (i : Z) : option X :=
  match m !! i with Some x => if decide (i ∈ l /\ used x = false) then None else Some x | None => None end.

Lemma pop_trash_spec l prev m : StronglySorted Z.le l ->
  ((forall i, i ∈ l -> is_Some (m !! i)) /\ prev ∉ l) \/ ((forall i, i ∈ l -> prev <= i) /\ m !! prev = None /\ forall i, i ∈ l -> i = prev \/ is_Some (m !! i)) ->
  exists m', pop_trash used l prev m = Ret m' /\ forall i, m' !! i = kept l m i.
Proof.
  revert prev m. induction l as [|i l IH]; intros prev m Hs Hm; simpl.
  { exists m. split; [done|]. intros i. unfold kept. destruct (m !! i); [|done]. rewrite decide_False; [done|set_solver]. }
  apply StronglySorted_inv in Hs as [Hs Hle]. rewrite list.Forall_forall in Hle.
  assert (forall m', (forall j, m' !! j = kept l m j) -> (forall x, m !! i = Some x -> used x = true) -> forall j, m' !! j = kept (i :: l) m j) as Hskip.
  { intros m' Hm' Hu j. rewrite Hm'. unfold kept. destruct (m !! j) as [x|] eqn:Hj; [|done].
    destruct (decide (i = j)) as [->|]; [specialize (Hu x Hj); by rewrite !decide_False by naive_solver congruence|].
    apply decide_ext. set_solver. }
  destruct (Z.eqb_spec i prev) as [->|Hne].
  - destruct Hm as [[_ Hm]|(Hp & H0 & Hm)]; [set_solver|]. destruct (IH prev m Hs) as (m' & -> & Hm'); [right; set_solver|].
    exists m'. split; [done|]. apply Hskip; [done|]. intros x Hx. congruence.
  - assert (is_Some (m !! i)) as [x Hx] by (destruct Hm as [[Hm _]|(_ & _ & Hm)]; [apply Hm; set_solver|destruct (Hm i); [set_solver|done|done]]).
    rewrite Hx. destruct (used x) eqn:Hu.
    + destruct (IH prev m Hs) as (m' & -> & Hm'); [set_solver|]. exists m'. split; [done|]. apply Hskip; [done|]. intros y Hy. congruence.
    + destruct (IH i (delete i m) Hs) as (m' & -> & Hm').
      { right. split_and!; [done|apply lookup_delete_eq|]. intros j Hj. destruct (decide (j = i)) as [|Hji]; [by left|right].
        rewrite lookup_delete_ne by done. destruct Hm as [[Hm _]|(Hp & _ & Hm)]; [apply Hm; set_solver|].
        destruct (Hm j) as [->|]; [set_solver| |done]. specialize (Hle prev Hj). specialize (Hp i ltac:(set_solver)). lia. }
      exists m'. split; [done|]. intros j. rewrite Hm'. unfold kept. destruct (decide (j = i)) as [->|Hji].
      * rewrite lookup_delete_eq, Hx. rewrite decide_True; [done|set_solver].
      * rewrite lookup_delete_ne by done. destruct (m !! j); [|done]. apply decide_ext. set_solver.
Qed.
End pop_trash.

Lemma sorted_trash (l : list Z) : StronglySorted Z.le (merge_sort Z.le l) /\ forall i, i ∈ merge_sort Z.le l <-> i ∈ l.
Proof.
  split; [apply (StronglySorted_merge_sort Z.le); apply _|]. intros i. pose proof (merge_sort_Permutation Z.le l) as Hp. by rewrite Hp.
Qed.

Lemma job_inv_filter m js l : job_inv m js l -> job_inv m (filter (fun '(_, jd) => n_runs jd <> 0) js) l.
Proof.
  intros ((ls & Hf & Hn) & H0 & Hj). assert (forall j jd, js !! j = Some jd -> n_runs jd = 0 -> ls j = []) as Hnil.
  { intros j jd Hjd Hz. destruct (Hn j jd Hjd) as [Hl _]. destruct (ls j); [done|simpl in Hl; lia]. }
  assert (forall j, job_hdr (filter (fun '(_, jd) => n_runs jd <> 0) js) j = job_hdr js j) as Hh.
  { intros j. unfold job_hdr. rewrite map_lookup_filter. destruct (js !! j) as [jd|] eqn:Hjd; simpl; [|done].
    destruct (decide (n_runs jd = 0)) as [Hz|Hz]; [|by rewrite option_guard_True]. rewrite option_guard_False by lia. simpl.
    destruct (Hf j) as [(_ & Hl & _) _]. rewrite (Hnil j jd Hjd Hz), (job_hdr_lookup _ _ _ Hjd) in Hl. by rewrite Hl. }
  split; [|split; [done|]].
  - exists ls. split; [|intros j jd [Hjd _]%map_lookup_filter_Some; eauto]. intros c. rewrite Hh. apply Hf.
  - intros r rd Hr. destruct (Hj r rd Hr) as [jd Hjd]. exists jd. apply map_lookup_filter_Some. split; [done|]. intros Hz.
    destruct (Hf (rjob rd)) as [_ Hc]. rewrite (Hnil _ _ Hjd Hz) in Hc. specialize (Hc r). unfold run_job in Hc. rewrite Hr in Hc. set_solver.
Qed.

Lemma ref_inv_filter h cnt m refs : (forall k rd, 0 <= cnt k rd) -> ref_inv h cnt m refs -> ref_inv h cnt m (filter (fun '(_, c) => 0 < c) refs).
Proof.
  intros Hc Hi k. pose proof (ref_inv_nonneg _ _ _ _ k Hi Hc) as H0. rewrite map_lookup_filter. specialize (Hi k).
  destruct (refs !! k) as [c|]; simpl in *; [|done]. destruct (decide (0 < c)); [by rewrite option_guard_True|].
  rewrite option_guard_False by done. simpl. lia.
Qed.

(** Emptying the trash removes every job without run and every node without reference, and nothing else. *)
Definition emptied e e' : Prop :=
  jobs e' = filter (fun '(_, jd) => n_runs jd <> 0) (jobs e) /\ nodes e' = filter (fun '(_, c) => 0 < c) (nodes e) /\
  job_trash e' = [] /\ node_trash e' = [] /\ runs e' = runs e /\ keys e' = keys e /\ reserved_sz e' = reserved_sz e /\ ralloc e' = ralloc e.

Lemma empty_trash_spec hk hn e : inv 0 hk hn e -> exists e', cache_empty_trash e = Ret e' /\ inv 0 hk hn e' /\ emptied e e'.
Proof.
  intros I. assert (inv 0 hk hn e) as [Ial Ijo Igl Ita Ike Ino Isz Ica (T1 & T2 & T3 & T4 & T5 & T6)] by done.
  unfold cache_empty_trash, empty_jobs, empty_nodes.
  destruct (sorted_trash (job_trash e)) as [Hs1 Hm1]. destruct (sorted_trash (node_trash e)) as [Hs2 Hm2].
  destruct (pop_trash_spec (fun jd => negb (n_runs jd =? 0)) _ 0 (jobs e) Hs1) as (js & -> & Hjs).
  { left. split; [intros j Hj; apply T1, Hm1, Hj|]. intros Hj. apply Hm1, T1 in Hj as [? ?]. congruence. }
  cbn [mbind outcome_mbind]. change (nodes (set_job_trash [] (set_jobs js e))) with (nodes e).
  change (node_trash (set_job_trash [] (set_jobs js e))) with (node_trash e).
  destruct (pop_trash_spec (fun c => 0 <? c) _ 0 (nodes e) Hs2) as (ns & -> & Hns).
  { left. split; [intros j Hj; apply T2, Hm2, Hj|]. intros Hj. apply Hm2, T2 in Hj as [? ?]. congruence. }
  cbn [mbind outcome_mbind]. eexists. split; [reflexivity|].
  assert (js = filter (fun '(_, jd) => n_runs jd <> 0) (jobs e)) as ->.
  { apply map_eq. intros j. rewrite Hjs. unfold kept. rewrite map_lookup_filter. destruct (jobs e !! j) as [jd|] eqn:Hj; simpl; [|done].
    destruct (Z.eqb_spec (n_runs jd) 0) as [H0|H0]; simpl.
    - rewrite decide_True by (split; [apply Hm1; destruct (T3 j jd Hj H0); [congruence|done]|done]). by rewrite option_guard_False by lia.
    - rewrite decide_False by naive_solver. by rewrite option_guard_True by lia. }
  assert (ns = filter (fun '(_, c) => 0 < c) (nodes e)) as ->.
  { apply map_eq. intros n. rewrite Hns. unfold kept. rewrite map_lookup_filter. destruct (nodes e !! n) as [c|] eqn:Hn; simpl; [|done].
    pose proof (ref_inv_nonneg _ _ _ _ n Ino ltac:(intros; apply node_cnt_nonneg)) as H0. rewrite Hn in H0. simpl in H0.
    destruct (Z.ltb_spec 0 c); simpl.
    - rewrite decide_False by naive_solver. by rewrite option_guard_True by lia.
    - rewrite decide_True by (split; [apply Hm2, T4; rewrite Hn; f_equal; lia|done]). by rewrite option_guard_False by lia. }
  split; [|by split_and!]. split; simpl; try done.
  - by apply job_inv_filter.
  - apply ref_inv_filter; [apply node_cnt_nonneg|done].
  - split_and!; simpl; [set_solver|set_solver| | |apply map_lookup_filter_None; naive_solver congruence|apply map_lookup_filter_None; naive_solver congruence].
    + intros j jd [_ Hj]%map_lookup_filter_Some. simpl in Hj. done.
    + intros n [_ Hn]%map_lookup_filter_Some. simpl in Hn. lia.
Qed.

(** ** Digests *)

Lemma new_nodes_spec l e : exists ns, new_nodes l e = set_nodes ns e /\ (forall n, default 0 (ns !! n) = default 0 (nodes e !! n)) /\
  (forall n, is_Some (ns !! n) <-> is_Some (nodes e !! n) \/ n ∈ l) /\ (forall n, n ∉ l -> ns !! n = nodes e !! n).
Proof.
  unfold new_nodes. revert e. induction l as [|i l IH]; intros e; simpl.
  { exists (nodes e). split_and!; [by destruct e|done|set_solver|done]. }
  unfold new_node at 2. destruct (decide (is_Some (nodes e !! i))) as [Hi|Hi].
  - destruct (IH e) as (ns & -> & Hd & Hs & Hn). exists ns. split_and!; [done|done| |set_solver]. intros n. rewrite Hs. set_solver.
  - destruct (IH (set_nodes (<[i := 0]> (nodes e)) e)) as (ns & -> & Hd & Hs & Hn). exists ns. simpl in *. split_and!; [done| | |].
    + intros n. rewrite Hd. destruct (decide (i = n)) as [->|]; [rewrite lookup_insert_eq; by rewrite (proj2 (eq_None_not_Some _) Hi)|by rewrite lookup_insert_ne].
    + intros n. rewrite Hs, lookup_insert_is_Some'. set_solver.
    + intros n Hni. rewrite Hn by set_solver. apply lookup_insert_ne. set_solver.
Qed.

Lemma occ_pos n l : n ∈ l -> 0 < occ n l.
Proof.
  intros Hn. unfold occ. assert (n ∈ filter (fun d => d = n) l) as Hf by (apply list_elem_of_filter; done).
  destruct (filter (fun d => d = n) l); [by apply not_elem_of_nil in Hf|simpl; lia].
Qed.

(** The nodes of the digest exist or are created, and can be referenced twice. *)
Definition digest_ok (for_download : bool) (ds : list Digest.dep) (cd : CacheRun.digest) e : Prop := exists named,
  Digest.digest_of for_download ds = Ret (cd, named) /\ (forall n, n ∈ named -> n ∈ CacheRun.deps cd) /\
  (forall n, n ∈ CacheRun.deps cd -> n <> 0 /\ (is_Some (nodes e !! n) \/ for_download = false /\ n ∈ named)) /\
  forall n, default 0 (nodes e !! n) + 2 * occ n (CacheRun.deps cd) < 2 ^ 32.

Lemma compile_spec kp hk hn fd ds cd e : inv kp hk hn e -> digest_ok fd ds cd e -> exists ns,
  compile fd ds e = Ret (cd, set_nodes ns e) /\ inv kp hk (fun n => hn n + occ n (CacheRun.deps cd)) (set_nodes ns e) /\
  (forall n, n ∈ CacheRun.deps cd -> is_Some (ns !! n)) /\ (forall n, default 0 (ns !! n) + occ n (CacheRun.deps cd) < 2 ^ 32).
Proof.
  intros I (named & Hd & Hnm & Hex & Hb). unfold compile. rewrite Hd. cbn [mbind outcome_mbind].
  set (l := CacheRun.deps cd) in *.
  assert (exists ns0, (if fd then e else new_nodes named e) = set_nodes ns0 e /\ (forall n, default 0 (ns0 !! n) = default 0 (nodes e !! n)) /\
    (forall n, n ∈ l -> is_Some (ns0 !! n)) /\ (forall n, n ∉ l -> ns0 !! n = nodes e !! n) /\ (forall n, is_Some (nodes e !! n) -> is_Some (ns0 !! n))) as (ns0 & -> & D0 & E0 & F0 & G0).
  { destruct fd.
    - exists (nodes e). split_and!; [by destruct e|done| |done|done]. intros n Hn. destruct (Hex n Hn) as [_ [?|[? _]]]; done.
    - destruct (new_nodes_spec named e) as (ns0 & -> & Hd0 & Hs0 & Hn0). exists ns0. split_and!; [done|done| | |].
      + intros n Hn. apply Hs0. destruct (Hex n Hn) as [_ [?|[_ ?]]]; auto.
      + intros n Hn. apply Hn0. intros Hi. apply Hn. auto.
      + intros n Hn. apply Hs0. by left. }
  assert (inv kp hk hn e) as [Ial Ijo Igl Ita Ike Ino Isz Ica (T1 & T2 & T3 & T4 & T5 & T6)] by done.
  assert (forall n, 0 <= default 0 (nodes e !! n)) as Hnn by (intros n; apply (ref_inv_nonneg _ _ _ _ n Ino); intros; apply node_cnt_nonneg).
  destruct (nodes_inc_spec l (set_nodes ns0 e)) as (ns & -> & Hs & Hn); [done| |].
  { intros n. simpl. rewrite D0. specialize (Hnn n). specialize (Hb n). pose proof (occ_nonneg n l). lia. }
  simpl in Hs, Hn. exists ns. split_and!; [done| |intros n Hi; apply Hs; auto|].
  2:{ intros n. rewrite Hn, D0. specialize (Hb n). lia. }
  split; simpl; try done.
  - intros n. specialize (Ino n). rewrite Hn, D0. pose proof (occ_nonneg n l). specialize (Hb n). lia.
  - split_and!; simpl; [done|intros n Hi; apply Hs, G0, T2, Hi|done| |done|].
    + intros n Hz. apply T4. destruct (decide (n ∈ l)) as [Hi|Hi].
      * pose proof (occ_pos n l Hi). specialize (Hn n). rewrite Hz, D0 in Hn. simpl in Hn. specialize (Hnn n). lia.
      * rewrite <- F0 by done. specialize (Hn n). rewrite Hz in Hn. destruct (proj1 (Hs n)) as [c Hc]; [eauto|]. rewrite Hc in *. simpl in Hn.
        f_equal. pose proof (occ_nonneg n l). specialize (Hnn n). specialize (D0 n). rewrite Hc in D0. simpl in D0. lia.
    + apply eq_None_not_Some. rewrite Hs. intros Hi. destruct (decide (0 ∈ l)) as [H0|H0]; [by destruct (Hex 0 H0)|].
      rewrite F0, T6 in Hi by done. by destruct Hi.
Qed.

Lemma release_digest_spec kp hk hn cd e : inv kp hk (fun n => hn n + occ n (CacheRun.deps cd)) e -> (forall n, 0 <= hn n) -> exists ns tr,
  release_digest cd e = Ret (set_node_trash tr (set_nodes ns e)) /\ inv kp hk hn (set_node_trash tr (set_nodes ns e)).
Proof.
  intros [Ial Ijo Igl Ita Ike Ino Isz Ica (T1 & T2 & T3 & T4 & T5 & T6)] H0. unfold release_digest.
  destruct (nodes_dec_spec (CacheRun.deps cd) e) as (ns & tr & -> & Hs & Hn & Htr & Hz & Hin).
  { intros n. specialize (Ino n). specialize (H0 n). pose proof (sum_runs_nonneg (node_cnt n) (runs e) ltac:(intros; apply node_cnt_nonneg)). lia. }
  exists ns, tr. split; [done|]. split; simpl; try done.
  - intros n. specialize (Ino n). rewrite Hn. specialize (H0 n). pose proof (occ_nonneg n (CacheRun.deps cd)). lia.
  - split_and!; simpl; [done| |done| |done|].
    + intros n [Hi|Hi]%Hin; apply Hs; auto.
    + intros n [Hi|Hi]%Hz; auto.
    + apply eq_None_not_Some. rewrite Hs. rewrite T6. by intros [? ?].
Qed.

(** ** Connections and reservations *)

Definition conn_refs (cs : gmap Z conn) (k : Z) : Z := map_fold (fun _ c acc => (if ckey c =? k then 1 else 0) + acc) 0 cs.

Lemma conn_refs_insert cs fd c k : cs !! fd = None -> conn_refs (<[fd := c]> cs) k = (if ckey c =? k then 1 else 0) + conn_refs cs k.
Proof. intros Hr. unfold conn_refs. rewrite map_fold_insert_L; [done|intros; lia|done]. Qed.
Lemma conn_refs_delete cs fd c k : cs !! fd = Some c -> conn_refs (delete fd cs) k = conn_refs cs k - (if ckey c =? k then 1 else 0).
Proof. intros Hr. unfold conn_refs. rewrite (map_fold_delete_L _ _ fd c cs); [lia|intros; lia|done]. Qed.
Lemma conn_refs_replace cs fd c c' k : cs !! fd = Some c -> ckey c' = ckey c -> conn_refs (<[fd := c']> cs) k = conn_refs cs k.
Proof.
  intros Hc Hk. rewrite <- insert_delete_eq, conn_refs_insert by apply lookup_delete_eq. rewrite (conn_refs_delete _ _ c) by done. rewrite Hk. lia.
Qed.
Lemma conn_refs_nonneg cs k : 0 <= conn_refs cs k.
Proof.
  induction cs as [|fd c cs Hc IH] using map_ind; [done|]. rewrite conn_refs_insert by done. case_match; lia.
Qed.
Lemma conn_refs_pos cs fd c : cs !! fd = Some c -> 0 < conn_refs cs (ckey c).
Proof.
  intros Hc. pose proof (conn_refs_delete cs fd c (ckey c) Hc) as H. rewrite Z.eqb_refl in H.
  pose proof (conn_refs_nonneg (delete fd cs) (ckey c)). lia.
Qed.

Definition sumz (l : list Z) : Z := foldr Z.add 0 l.
Lemma sumz_app l1 l2 : sumz (l1 ++ l2) = sumz l1 + sumz l2.
Proof. unfold sumz. induction l1; simpl; lia. Qed.
Lemma sumz_insert l i x y : l !! i = Some x -> sumz (<[i := y]> l) = sumz l - x + y.
Proof.
  revert i. unfold sumz. induction l as [|a l IH]; intros [|i] Hi; simpl in *; [done|done|injection Hi as ->; lia|]. rewrite (IH i Hi). lia.
Qed.
Lemma sumz_zeros n : sumz (replicate n 0) = 0.
Proof. unfold sumz. induction n; simpl; lia. Qed.
Lemma sumz_ge l i x : (forall j y, l !! j = Some y -> 0 <= y) -> l !! i = Some x -> x <= sumz l.
Proof.
  revert i. unfold sumz. induction l as [|a l IH]; intros [|i] Hl Hi; simpl in *; [done|done| |].
  - injection Hi as ->. assert (0 <= foldr Z.add 0 l); [|lia]. clear IH. assert (forall j y, l !! j = Some y -> 0 <= y) as Hl' by (intros j y Hj; apply (Hl (S j) y Hj)).
    clear Hl. induction l as [|b l IH]; simpl; [lia|]. pose proof (Hl' O b eq_refl). specialize (IH ltac:(intros j y Hj; apply (Hl' (S j) y Hj))). lia.
  - specialize (IH i ltac:(intros j y Hj; apply (Hl (S j) y Hj)) Hi). pose proof (Hl O a eq_refl). lia.
Qed.

(** The reservations in progress, [U] being their keys *)
Definition res_inv (U : gset Z) (ids : SmallIds.t) (szs : list Z) (reserved : Z) : Prop :=
  SmallIds.inv MaxKey U ids /\ reserved = sumz szs /\ (forall i x, szs !! i = Some x -> 0 <= x) /\
  (forall i x, szs !! i = Some x -> x <> 0 -> Z.of_nat i ∈ U) /\ (forall k, k ∈ U -> 0 <= k /\ is_Some (szs !! Z.to_nat k)).
Definition conn_inv (U : gset Z) (cs : gmap Z conn) : Prop :=
  (forall k, k ∈ U <-> exists fd c, cs !! fd = Some c /\ k ∈ upload_keys c) /\
  (forall fd1 fd2 c1 c2 k, cs !! fd1 = Some c1 -> cs !! fd2 = Some c2 -> k ∈ upload_keys c1 -> k ∈ upload_keys c2 -> fd1 = fd2).

Record sinv s : Prop := {
  s_inv : inv 0 (conn_refs (g_conn_tab s)) (fun _ => 0) (eng s);
  s_uniq : uniq (eng s);
  s_res : exists U, res_inv U (g_upload_keys s) (g_reserved_szs s) (reserved_sz (eng s)) /\ conn_inv U (g_conn_tab s)
}.

Lemma res_release U ids szs reserved k x : res_inv U ids szs reserved -> k ∈ U -> szs !! Z.to_nat k = Some x ->
  exists ids', SmallIds.release k ids = Ret ids' /\ res_inv (U ∖ {[k]}) ids' (<[Z.to_nat k := 0]> szs) (reserved - x).
Proof.
  intros (Hi & -> & Hp & Hz & Hl) Hk Hx. destruct (SmallIds.release_id_spec _ _ _ _ Hi Hk) as (ids' & -> & Hi'). exists ids'. split; [done|].
  destruct (Hl k Hk) as [Hk0 _]. split_and!; [done| | | |].
  - rewrite (sumz_insert _ _ x) by done. lia.
  - intros i y [(<- & <- & _)|[_ Hy]]%list_lookup_insert_Some; [lia|eauto].
  - intros i y [(<- & <- & _)|[Hne Hy]]%list_lookup_insert_Some Hy0; [done|]. apply elem_of_difference. split; [eauto|].
    rewrite elem_of_singleton. intros He. apply Hne. lia.
  - intros k' [Hk' _]%elem_of_difference. destruct (Hl k' Hk') as [? [y Hy]]. split; [done|].
    apply lookup_lt_is_Some. rewrite length_insert. by apply lookup_lt_is_Some.
Qed.

Lemma res_acquire U ids szs reserved ids' k sz : res_inv U ids szs reserved -> 0 <= sz -> SmallIds.acquire MaxKey ids = Ret (ids', k) ->
  (k ∉ U) /\ res_inv ({[k]} ∪ U) ids' (grow_set (Z.to_nat k) sz szs) (reserved + sz).
Proof.
  intros (Hi & -> & Hp & Hz & Hl) Hsz Ha. pose proof (SmallIds.acquire_spec _ _ _ Hi) as H. rewrite Ha in H. destruct H as (Hk & Hk1 & _ & Hi').
  split; [done|]. unfold grow_set. set (szs' := szs ++ replicate (S (Z.to_nat k) - length szs) 0).
  assert (forall i x, szs' !! i = Some x -> szs !! i = Some x \/ x = 0) as Hpre.
  { intros i x [?|[_ Hx]]%lookup_app_Some; [by left|right]. by apply lookup_replicate in Hx as [-> _]. }
  assert (szs' !! Z.to_nat k = Some 0) as Hk0.
  { destruct (szs' !! Z.to_nat k) as [x|] eqn:Hx.
    - destruct (Hpre _ _ Hx) as [Hx'| ->]; [|done]. destruct (decide (x = 0)) as [->|Hne]; [done|]. destruct Hk. specialize (Hz _ _ Hx' Hne). by rewrite Z2Nat.id in Hz by lia.
    - apply lookup_ge_None in Hx. unfold szs' in Hx. rewrite length_app, length_replicate in Hx. lia. }
  split_and!; [done| | | |].
  - rewrite (sumz_insert _ _ 0) by done. unfold szs'. rewrite sumz_app, sumz_zeros. lia.
  - intros i y [(<- & <- & _)|[_ Hy]]%list_lookup_insert_Some; [lia|]. destruct (Hpre _ _ Hy) as [?| ->]; [eauto|lia].
  - intros i y [(<- & <- & _)|[Hne Hy]]%list_lookup_insert_Some Hy0; [rewrite Z2Nat.id by lia; set_solver|]. destruct (Hpre _ _ Hy) as [?|]; [set_solver|done].
  - intros k' [->%elem_of_singleton|Hk']%elem_of_union.
    + split; [lia|]. rewrite list_lookup_insert_eq by (by eapply lookup_lt_Some). eauto.
    + destruct (Hl k' Hk') as [? Hs]. split; [done|]. apply lookup_lt_is_Some. rewrite length_insert. unfold szs'. rewrite length_app.
      apply lookup_lt_is_Some in Hs. lia.
Qed.

Lemma conn_forget U cs fd c k : conn_inv U cs -> cs !! fd = Some c -> k ∈ upload_keys c ->
  conn_inv (U ∖ {[k]}) (<[fd := mkConn (ckey c) (upload_keys c ∖ {[k]})]> cs).
Proof.
  intros [Hu Hd] Hc Hk. split.
  - intros k'. rewrite elem_of_difference, Hu, elem_of_singleton. split.
    + intros [(fd' & c' & Hc' & Hk') Hne]. destruct (decide (fd' = fd)) as [->|Hf].
      * exists fd, (mkConn (ckey c) (upload_keys c ∖ {[k]})). rewrite lookup_insert_eq. set_solver.
      * exists fd', c'. by rewrite lookup_insert_ne.
    + intros (fd' & c' & [[<- <-]|[Hne Hc']]%lookup_insert_Some & Hk'); simpl in *; [set_solver|].
      split; [eauto|]. intros ->. apply Hne. by eapply Hd.
  - intros fd1 fd2 c1 c2 k' [[<- <-]|[Hn1 H1]]%lookup_insert_Some [[<- <-]|[Hn2 H2]]%lookup_insert_Some Hk1 Hk2; simpl in *; [done| | |by eapply Hd].
    + eapply Hd; [exact Hc|exact H2| |done]. set_solver.
    + eapply Hd; [exact H1|exact Hc|done|]. set_solver.
Qed.

Lemma conn_add U cs fd c k : conn_inv U cs -> cs !! fd = Some c -> k ∉ U -> conn_inv ({[k]} ∪ U) (<[fd := mkConn (ckey c) ({[k]} ∪ upload_keys c)]> cs).
Proof.
  intros [Hu Hd] Hc Hk. split.
  - intros k'. rewrite elem_of_union, elem_of_singleton, Hu. split.
    + intros [->|(fd' & c' & Hc' & Hk')].
      * exists fd. eexists. rewrite lookup_insert_eq. split; [done|set_solver].
      * destruct (decide (fd' = fd)) as [->|Hf]; [exists fd; eexists; rewrite lookup_insert_eq; split; [done|set_solver]|].
        exists fd', c'. by rewrite lookup_insert_ne.
    + intros (fd' & c' & [[<- <-]|[Hne Hc']]%lookup_insert_Some & Hk'); simpl in *; [set_solver|]. right. eauto.
  - intros fd1 fd2 c1 c2 k' [[<- <-]|[Hn1 H1]]%lookup_insert_Some [[<- <-]|[Hn2 H2]]%lookup_insert_Some Hk1 Hk2; simpl in *; [done| | |by eapply Hd].
    + apply elem_of_union in Hk1 as [->%elem_of_singleton|Hk1]; [destruct Hk; apply Hu; eauto|by eapply Hd].
    + apply elem_of_union in Hk2 as [->%elem_of_singleton|Hk2]; [destruct Hk; apply Hu; eauto|by eapply Hd].
Qed.

(** ** Requests *)

Lemma inv_hk kp hk hk' hn e : (forall k, hk' k = hk k) -> inv kp hk hn e -> inv kp hk' hn e.
Proof. intros H []. split; try done. intros k. rewrite H. apply inv_keys. Qed.

Lemma inv_reserved kp hk hn e r : inv kp hk hn e -> 0 <= r -> total_sz e + r <= max_sz -> inv kp hk hn (set_reserved_sz r e).
Proof. intros [] ? ?. by split. Qed.

Lemma inv_key kp hk hn e k ks d : inv kp hk hn e -> (forall k', default 0 (ks !! k') = default 0 (keys e !! k') + (if decide (k' = k) then d else 0)) ->
  0 <= hk k + d -> default 0 (keys e !! k) + d < 2 ^ 32 -> inv kp (fun k' => hk k' + (if decide (k' = k) then d else 0)) hn (set_keys ks e).
Proof.
  intros [] Hks Hd Hb. split; try done. simpl. intros k'. specialize (inv_keys k'). rewrite Hks. case_decide; subst; lia.
Qed.

Lemma end_upload_spec s U k : sinv s -> res_inv U (g_upload_keys s) (g_reserved_szs s) (reserved_sz (eng s)) -> k ∈ U ->
  exists x ids, g_reserved_szs s !! Z.to_nat k = Some x /\ 0 <= x <= reserved_sz (eng s) /\
    end_upload k s = Ret (mkSt (set_reserved_sz (reserved_sz (eng s) - x) (eng s)) ids (<[Z.to_nat k := 0]> (g_reserved_szs s)) (g_conn_tab s)) /\
    inv 0 (conn_refs (g_conn_tab s)) (fun _ => 0) (set_reserved_sz (reserved_sz (eng s) - x) (eng s)) /\
    res_inv (U ∖ {[k]}) ids (<[Z.to_nat k := 0]> (g_reserved_szs s)) (reserved_sz (eng s) - x).
Proof.
  intros S Hr Hk. assert (res_inv U (g_upload_keys s) (g_reserved_szs s) (reserved_sz (eng s))) as (_ & Hsum & Hp & _ & Hl) by done.
  destruct (Hl k Hk) as [_ [x Hx]]. destruct (res_release _ _ _ _ _ _ Hr Hk Hx) as (ids & Hids & Hr'). exists x, ids.
  pose proof (sumz_ge _ _ _ Hp Hx). pose proof (Hp _ _ Hx). pose proof (s_inv _ S) as I. pose proof (inv_cap _ _ _ _ I) as [Hc1 Hc2].
  pose proof max_sz_range. pose proof (inv_sz _ _ _ _ I) as [Ht Hnn]. pose proof (sum_runs_nonneg _ _ Hnn).
  split_and!; [done|done|lia| |apply inv_reserved; [done|lia|lia]|done].
  unfold end_upload. rewrite Hx. cbn [mbind outcome_mbind]. unfold _release_room. rewrite swear_bind by (apply Z.leb_le; lia).
  rewrite u64_small by lia. simpl reserved_sz. simpl total_sz. rewrite u64_small by lia. rewrite swear_bind by (apply Z.leb_le; lia).
  cbn [mbind outcome_mbind]. by rewrite Hids.
Qed.

Lemma config_spec s fd k : sinv s -> g_conn_tab s !! fd = None -> default 0 (keys (eng s) !! k) + 1 < 2 ^ 32 ->
  exists s', _config fd k s = Ret s' /\ sinv s'.
Proof.
  intros S Hfd Hb. pose proof (s_inv _ S) as I. unfold _config. rewrite bool_decide_eq_true_2 by done. cbn [swear mbind outcome_mbind].
  assert (exists ks c, new_key k (eng s) = set_keys ks (eng s) /\ ks !! k = Some c /\ forall k', default 0 (ks !! k') = default 0 (keys (eng s) !! k')) as (ks & c & -> & Hc & Hks).
  { unfold new_key. destruct (decide (is_Some (keys (eng s) !! k))) as [[c Hc]|Hn]; [exists (keys (eng s)), c; split_and!; [by destruct (eng s)|done|done]|].
    exists (<[k := 0]> (keys (eng s))), 0. split_and!; [done|apply lookup_insert_eq|]. intros k'. destruct (decide (k' = k)) as [->|Hne].
    - rewrite lookup_insert_eq. by rewrite (proj2 (eq_None_not_Some _) Hn).
    - by rewrite lookup_insert_ne. }
  pose proof (ref_inv_nonneg _ _ _ _ k (inv_keys _ _ _ _ I) key_cnt_nonneg). pose proof (Hks k) as Hkk. rewrite Hc in Hkk. simpl in Hkk.
  rewrite (key_inc_spec (set_keys ks (eng s)) k c) by (done || lia). cbn [mbind outcome_mbind]. eexists. split; [done|]. split; simpl.
  - eapply inv_hk; [|eapply (inv_key _ _ _ _ k _ 1 I)]; [|..].
    + intros k'. simpl. rewrite conn_refs_insert by done. simpl. destruct (Z.eqb_spec k k'), (decide (k' = k)); lia.
    + intros k'. destruct (decide (k' = k)) as [->|Hne]; [rewrite lookup_insert_eq; simpl; lia|rewrite lookup_insert_ne by done; rewrite Hks; lia].
    + pose proof (conn_refs_nonneg (g_conn_tab s) k). lia.
    + lia.
  - apply (s_uniq _ S).
  - destruct (s_res _ S) as (U & Hr & Hu & Hd). exists U. split; [done|]. split.
    + intros k'. rewrite Hu. split; intros (fd' & c' & Hc' & Hk').
      * exists fd', c'. rewrite lookup_insert_ne by congruence. done.
      * apply lookup_insert_Some in Hc' as [[<- <-]|[_ Hc']]; [simpl in Hk'; set_solver|eauto].
    + intros fd1 fd2 c1 c2 k' [[<- <-]|[Hn1 H1]]%lookup_insert_Some [[<- <-]|[Hn2 H2]]%lookup_insert_Some Hk1 Hk2; simpl in *; [done|set_solver|set_solver|by eapply Hd].
Qed.

Lemma upload_spec s fd sz now : sinv s -> 0 <= sz < 2 ^ 62 -> (exists x, 1 <= x < MaxKey /\ forall fd c, g_conn_tab s !! fd = Some c -> x ∉ upload_keys c) ->
  exists s' rep, _upload fd sz now s = Ret (s', rep) /\ sinv s' /\
    match rep with
    | inl k => g_conn_tab s !! fd <> None /\ (forall fd c, g_conn_tab s !! fd = Some c -> k ∉ upload_keys c) /\
        total_sz (eng s') + reserved_sz (eng s') <= max_sz /\ reserved_sz (eng s') = reserved_sz (eng s) + sz
    | inr _ => s' = s /\ (g_conn_tab s !! fd = None \/ max_sz < reserved_sz (eng s) + sz)
    end.
Proof.
  intros S Hsz [x0 [Hx0 Hfree]]. pose proof (s_inv _ S) as I. unfold _upload. destruct (g_conn_tab s !! fd) as [c|] eqn:Hc; [|eexists _, _; split; [done|split; [done|split; [done|by left]]]].
  pose proof (mk_room_spec _ _ sz 0 now (eng s) I Hsz) as Hm. destruct (mk_room sz 0 now (eng s)) as [e|msg|]; [|eexists _, _; split; [done|split; [done|split; [done|by right]]]|done].
  destruct Hm as (I' & Hsh & Hcap). destruct (s_res _ S) as (U & Hr & Hcu). pose proof (inv_cap _ _ _ _ I') as [Hc1 _].
  pose proof (inv_sz _ _ _ _ I') as [Ht Hnn]. pose proof (sum_runs_nonneg _ _ Hnn). pose proof max_sz_range.
  pose proof (SmallIds.acquire_spec _ _ _ (proj1 Hr)) as Ha.
  destruct (SmallIds.acquire MaxKey (g_upload_keys s)) as [[ids k]|m|] eqn:Hacq; [|exfalso|done].
  2:{ specialize (Ha x0 ltac:(lia)). apply (proj1 Hcu) in Ha as (fd' & c' & Hc' & Hk'). by apply (Hfree fd' c'). }
  destruct (res_acquire _ _ _ _ _ _ sz Hr ltac:(lia) Hacq) as [Hk Hr'].
  cbn [mbind outcome_mbind]. rewrite u64_small by lia. rewrite (shrunk_reserved _ _ Hsh) in *. eexists _, _. split; [done|]. split.
  - split; simpl.
    + eapply inv_hk; [intros k'; by rewrite (conn_refs_replace _ _ c)|]. apply inv_reserved; [done|lia|lia].
    + apply (uniq_shrunk _ _ Hsh), (s_uniq _ S).
    + exists ({[k]} ∪ U). split; [done|]. by apply conn_add.
  - simpl. split_and!; [done| |lia|done]. intros fd' c' Hc' Hk'. apply Hk, (proj1 Hcu). eauto.
Qed.

Lemma forget_spec s fd c k : g_conn_tab s !! fd = Some c ->
  forget_upload fd k s = Ret (set_conns (<[fd := mkConn (ckey c) (upload_keys c ∖ {[k]})]> (g_conn_tab s)) s, mkConn (ckey c) (upload_keys c ∖ {[k]})).
Proof. intros Hc. unfold forget_upload. by rewrite Hc. Qed.

Lemma dismiss_spec s fd c k : sinv s -> g_conn_tab s !! fd = Some c -> k ∈ upload_keys c -> exists s', _dismiss fd k s = Ret s' /\ sinv s' /\
  g_conn_tab s' = <[fd := mkConn (ckey c) (upload_keys c ∖ {[k]})]> (g_conn_tab s).
Proof.
  intros S Hc Hk. destruct (s_res _ S) as (U & Hr & Hcu). assert (k ∈ U) as HkU by (apply (proj1 Hcu); eauto).
  destruct (end_upload_spec _ _ _ S Hr HkU) as (x & ids & Hx & Hx0 & He & I' & Hr').
  unfold _dismiss. rewrite He. cbn [mbind outcome_mbind]. erewrite forget_spec by exact Hc. cbn [mbind outcome_mbind]. simpl.
  eexists. split; [done|]. split; [|done]. split; simpl.
  - eapply inv_hk; [intros k'; by rewrite (conn_refs_replace _ _ c)|]. destruct I'. by split.
  - apply (s_uniq _ S).
  - exists (U ∖ {[k]}). split; [done|]. by apply conn_forget.
Qed.

Lemma dismiss_all_spec l s fd c : sinv s -> g_conn_tab s !! fd = Some c -> NoDup l -> (forall k, k ∈ l -> k ∈ upload_keys c) ->
  exists s', dismiss_all fd l s = Ret s' /\ sinv s' /\ g_conn_tab s' = <[fd := mkConn (ckey c) (upload_keys c ∖ list_to_set l)]> (g_conn_tab s).
Proof.
  revert s c. induction l as [|k l IH]; intros s c S Hc Hnd Hl; simpl.
  { exists s. split_and!; [done|done|]. rewrite difference_empty_L. destruct c. simpl. by rewrite insert_id. }
  apply NoDup_cons in Hnd as [Hk Hnd]. destruct (dismiss_spec _ _ _ k S Hc) as (s1 & -> & S1 & Hc1); [apply Hl; set_solver|]. cbn [mbind outcome_mbind].
  destruct (IH s1 (mkConn (ckey c) (upload_keys c ∖ {[k]}))) as (s2 & -> & S2 & Hc2); [done|by rewrite Hc1, lookup_insert_eq|done|set_solver|].
  exists s2. split_and!; [done|done|]. rewrite Hc2, Hc1, insert_insert_eq. simpl. f_equal. f_equal. set_solver.
Qed.

Lemma end_connection_spec s fd alone : sinv s -> exists s', end_connection fd alone s = Ret s' /\ sinv s' /\ g_conn_tab s' = delete fd (g_conn_tab s).
Proof.
  intros S. unfold end_connection.
  assert (exists s1, (if alone then e ← cache_empty_trash (eng s); Ret (set_eng e s) else Ret s) = Ret s1 /\ sinv s1 /\ g_conn_tab s1 = g_conn_tab s) as (s1 & -> & S1 & Hc1).
  { destruct alone; [|by exists s]. destruct (empty_trash_spec _ _ _ (s_inv _ S)) as (e' & -> & I' & Hem). cbn [mbind outcome_mbind].
    eexists. split; [done|]. split; [|done]. destruct Hem as (_ & _ & _ & _ & Hrs & _ & Hre & _). split; simpl; [done| |].
    - unfold uniq. rewrite Hrs. apply (s_uniq _ S).
    - rewrite Hre. apply (s_res _ S). }
  cbn [mbind outcome_mbind]. rewrite Hc1. destruct (g_conn_tab s !! fd) as [c|] eqn:Hc; [|exists s1; split_and!; [done|done|by rewrite Hc1, delete_id]].
  rewrite <- Hc1 in Hc. destruct (dismiss_all_spec (elements (upload_keys c)) s1 fd c S1 Hc) as (s2 & -> & S2 & Hc2); [apply NoDup_elements|set_solver|].
  cbn [mbind outcome_mbind]. set (c' := mkConn _ _) in Hc2. assert (upload_keys c' = ∅) as Hem by (unfold c'; simpl; set_solver).
  pose proof (s_inv _ S2) as I2. rewrite Hc2 in I2. set (cs := <[fd := c']> (g_conn_tab s1)) in *.
  assert (cs !! fd = Some c') as Hcs by apply lookup_insert_eq. pose proof (conn_refs_pos cs fd c' Hcs) as Hpos.
  pose proof (inv_keys _ _ _ _ I2 (ckey c)) as (_ & Hk & Hkb). pose proof (sum_runs_nonneg (key_cnt (ckey c)) (runs (eng s2)) ltac:(intros; apply key_cnt_nonneg)).
  destruct (key_dec_spec (eng s2) (ckey c)) as (ks & -> & Hks); [simpl in *; lia|]. cbn [mbind outcome_mbind]. eexists. split; [done|].
  assert (delete fd (g_conn_tab s2) = delete fd (g_conn_tab s)) as Hdel by (rewrite Hc2; unfold cs; rewrite Hc1; apply delete_insert_eq).
  split; [|by simpl]. split; simpl.
  - rewrite Hc2. eapply inv_hk; [|eapply (inv_key _ _ _ _ (ckey c) ks (-1) I2)]; [|..].
    + intros k'. simpl. rewrite (conn_refs_delete _ _ c') by done. simpl. destruct (Z.eqb_spec (ckey c) k'), (decide (k' = ckey c)); lia.
    + intros k'. rewrite Hks. case_decide; lia.
    + simpl in Hpos. lia.
    + lia.
  - apply (s_uniq _ S2).
  - destruct (s_res _ S2) as (U & Hr & Hu & Hd). exists U. split; [done|]. rewrite Hc2 in *. split.
    + intros k'. rewrite Hu. split; intros (fd' & cx & Hcx & Hk').
      * exists fd', cx. rewrite lookup_delete_ne; [done|]. intros <-. rewrite Hcs in Hcx. injection Hcx as <-. set_solver.
      * apply lookup_delete_Some in Hcx as [_ Hcx]. eauto.
    + intros fd1 fd2 c1 c2 k' [_ H1]%lookup_delete_Some [_ H2]%lookup_delete_Some. by eapply Hd.
Qed.

(** *** Downloads *)

Definition download_ok s (j : Z) (ds : list Digest.dep) (jd : Engine.job) (cd : CacheRun.digest) : Prop :=
  jobs (eng s) !! j = Some jd /\ digest_ok true ds cd (eng s) /\ CacheRun.n_statics cd = jn_statics jd /\ matchable (eng s) j jd cd.

(** The reply names a run of the job that matches, or says that there is none. *)
Definition download_reply e (j : Z) (jd : Engine.job) (cd : CacheRun.digest) (rep : reply) : Prop :=
  if CacheRun.is_match (hit_info rep) then
    exists r rd, runs e !! r = Some rd /\ rjob rd = j /\ rkey rd = rep_key rep /\ key_is_last rd = rep_is_last rep /\ hit_of jd cd rd = hit_info rep
  else forall r rd, runs e !! r = Some rd -> rjob rd = j -> CacheRun.is_match (hit_of jd cd rd) = false.

Lemma uniq_date e e' r rd now : uniq e -> runs e !! r = Some rd -> runs e' = <[r := with_date now rd]> (runs e) -> uniq e'.
Proof.
  intros Hu Hr He r1 r2 rd1 rd2. rewrite He.
  intros [[<- <-]|[Hn1 E1]]%lookup_insert_Some [[<- <-]|[Hn2 E2]]%lookup_insert_Some Ej Ek El; simpl in *; [done| | |by eapply Hu].
  - by apply (Hu r r2 rd rd2).
  - by apply (Hu r1 r rd1 rd).
Qed.

Lemma download_spec s j ds jd cd now : sinv s -> j <> 0 -> download_ok s j ds jd cd ->
  exists s' rep, _download j ds now s = Ret (s', rep) /\ sinv s' /\ download_reply (eng s) j jd cd rep.
Proof.
  intros S Hj0 (Hj & Hd & Hns & Hma). pose proof (s_inv _ S) as I. unfold _download. destruct (Z.eqb_spec j 0); [done|].
  destruct (compile_spec _ _ _ _ _ _ _ I Hd) as (ns & -> & I1 & _ & _). cbn [mbind outcome_mbind].
  rewrite (get_job_some (set_nodes ns (eng s)) j jd) by done. cbn [mbind outcome_mbind]. rewrite Hns, Nat.eqb_refl. cbn [swear mbind outcome_mbind].
  destruct (match_job_spec _ _ _ (set_nodes ns (eng s)) j jd cd now I1 Hj Hma) as (jls & rls & e2 & r & h & Hjl & -> & I2 & Hres). cbn [mbind outcome_mbind].
  pose proof (fun r => job_ls_elem _ _ j r Hjl) as Hl.
  assert (uniq e2 /\ reserved_sz e2 = reserved_sz (eng s) /\ exists rep, (if CacheRun.is_match h then rd ← get_run r e2; Ret (mkReply h (rkey rd) (key_is_last rd)) else Ret (mkReply h 0 false)) = Ret rep /\
    download_reply (eng s) j jd cd rep) as (Hu & Hre & rep & -> & Hrep).
  { destruct Hres as [(-> & -> & -> & Hno)|(l1 & l2 & rd & Hs & Hr & -> & Hmt & _ & Hup)].
    - split_and!; [apply (s_uniq _ S)|done|]. assert (CacheRun.is_match (if decide (jls j = []) then CacheRun.NoJob else CacheRun.BadDeps) = false) as -> by (by case_decide).
      eexists. split; [done|]. unfold download_reply. simpl. replace (CacheRun.is_match _) with false by (by case_decide).
      intros r rd Hr Hrj. apply (Hno r rd); [apply Hl; eauto|done].
    - assert (runs e2 = (if CacheRun.is_hit (hit_of jd cd rd) then <[r := with_date now rd]> (runs (eng s)) else runs (eng s)) /\
        reserved_sz e2 = reserved_sz (eng s)) as [Hrs Hre].
      { destruct (CacheRun.is_hit _); [by destruct Hup as (-> & -> & _)|by subst e2]. }
      rewrite Hmt. assert (exists rd', runs e2 !! r = Some rd' /\ rkey rd' = rkey rd /\ key_is_last rd' = key_is_last rd) as (rd' & Hr' & Hk' & Hl').
      { rewrite Hrs. destruct (CacheRun.is_hit _); [rewrite lookup_insert_eq; by eexists|by exists rd]. }
      split_and!; [|done|].
      + destruct (CacheRun.is_hit (hit_of jd cd rd)); [exact (uniq_date (eng s) e2 r rd now (s_uniq _ S) Hr Hrs)|]. unfold uniq. rewrite Hrs. apply (s_uniq _ S).
      + rewrite (get_run_some _ _ _ Hr'). cbn [mbind outcome_mbind]. eexists. split; [done|]. unfold download_reply. simpl. rewrite Hmt.
        exists r, rd. split_and!; try done. destruct (proj1 (Hl r)) as (rd2 & Hr2 & Hj2); [rewrite Hs; set_solver|]. simpl in *. congruence. }
  cbn [mbind outcome_mbind].
  destruct (release_digest_spec _ _ (fun _ => 0) cd e2 I2) as (ns' & tr & -> & I3); [done|]. cbn [mbind outcome_mbind].
  eexists _, rep. split; [done|]. split; [|done]. split; simpl; [done|done|]. rewrite Hre. apply (s_res _ S).
Qed.

(** *** Commits *)

Lemma new_job_spec hk hn e j name n : inv 0 hk hn e -> j <> 0 -> (forall jd, jobs e !! j = Some jd -> jn_statics jd = n) -> exists js jd,
  new_job j name n e = Ret (set_jobs js e) /\ js !! j = Some jd /\ jn_statics jd = n /\ inv j hk hn (set_jobs js e).
Proof.
  intros I Hj0 Hst. unfold new_job. destruct (jobs e !! j) as [jd|] eqn:Hj.
  { exists (jobs e), jd. rewrite (Hst jd eq_refl), Nat.eqb_refl. cbn [swear mbind outcome_mbind]. split_and!; [by destruct e|done|done|].
    apply inv_weaken. by destruct e. }
  eexists _, (mkJob Lru.empty 0 n name). split_and!; [done|apply lookup_insert_eq|done|].
  destruct I as [Ial ((ls & Hf & Hn) & H0 & Hjr) Igl Ita Ike Ino Isz Ica (T1 & T2 & T3 & T4 & T5 & T6)]. split; simpl; try done.
  - split; [|split; [done|]].
    + exists ls. split.
      * intros c. rewrite job_hdr_insert. case_decide; [|apply Hf]. subst. destruct (Hf j) as [Hl Hc]. unfold job_hdr in Hl. rewrite Hj in Hl. done.
      * intros j' jd' [[<- <-]|[_ Hj']]%lookup_insert_Some; [|eauto]. simpl. destruct (Hf j) as [_ Hc].
        destruct (ls j) as [|r l'] eqn:Hls; [simpl; lia|]. assert (run_job (runs e) r = Some j) as Hr by (apply Hc; set_solver).
        unfold run_job in Hr. destruct (runs e !! r) as [rd|] eqn:Hrd; [|done]. injection Hr as Hr. destruct (Hjr _ _ Hrd). congruence.
    + intros r rd Hr. rewrite lookup_insert_is_Some'. right. eauto.
  - split_and!; simpl; [|done| |done|by rewrite lookup_insert_ne|done].
    + intros j' Hj'. rewrite lookup_insert_is_Some'. right. auto.
    + intros j' jd' [[<- <-]|[_ Hj']]%lookup_insert_Some Hz; [by left|]. right. destruct (T3 _ _ Hj' Hz); [congruence|done].
Qed.

Definition commit_ok s (fd : Z) (crr : commit_req) (c : conn) (cd : CacheRun.digest) (x : Z) : Prop :=
  g_conn_tab s !! fd = Some c /\ upload_key crr ∈ upload_keys c /\ g_reserved_szs s !! Z.to_nat (upload_key crr) = Some x /\
  digest_ok false (repo_deps crr) cd (eng s) /\ job crr <> 0 /\
  (job_is_name crr = false -> is_Some (jobs (eng s) !! job crr)) /\
  (forall jd, jobs (eng s) !! job crr = Some jd -> jn_statics jd = CacheRun.n_statics cd) /\
  (forall jd, jn_statics jd = CacheRun.n_statics cd -> matchable (eng s) (job crr) jd cd) /\
  0 <= rate crr < NRates /\ default 0 (keys (eng s) !! ckey c) + 1 < 2 ^ 32 /\ room (ralloc (eng s)) /\
  (let sz := run_sz (total_z_sz crr) (job_info_sz crr) cd in sz < 2 ^ 62 /\ reserved_sz (eng s) - x + sz <= max_sz).

Lemma commit_spec s fd crr c cd x now : sinv s -> commit_ok s fd crr c cd x -> force crr = false ->
  exists s' inserted, _commit fd crr now s = Ret (s', inserted) /\ sinv s' /\
    (if inserted then exists r rd, runs (eng s') !! r = Some rd /\ rjob rd = job crr /\ rkey rd = ckey c /\ rdeps rd = CacheRun.deps cd /\ rdep_crcs rd = CacheRun.dep_crcs cd
     else runs (eng s') = runs (eng s) /\ exists r rd jd, runs (eng s) !! r = Some rd /\ rjob rd = job crr /\ jn_statics jd = CacheRun.n_statics cd /\ CacheRun.is_match (hit_of jd cd rd) = true).
Proof.
  intros S (Hc & Hk & Hx & Hd & Hj0 & Hjn & Hst & Hma & Hrt & Hkb & Hroom & Hsz & Hfit) Hforce.
  destruct (s_res _ S) as (U & Hr & Hcu). assert (upload_key crr ∈ U) as HkU by (apply (proj1 Hcu); eauto).
  destruct (end_upload_spec _ _ _ S Hr HkU) as (x' & ids & Hx' & Hx0 & He & I' & Hr'). assert (x' = x) as -> by congruence.
  unfold _commit. rewrite He. cbn [mbind outcome_mbind]. simpl eng. set (e0 := set_reserved_sz _ _) in *.
  destruct (compile_spec _ _ _ _ _ _ e0 I' Hd) as (ns & -> & I1 & Hns & Hnb). cbn [mbind outcome_mbind]. set (e1 := set_nodes ns e0) in *.
  assert (exists js jd, (if job_is_name crr then new_job (job crr) (job_name crr) (CacheRun.n_statics cd) e1 else Ret e1) = Ret (set_jobs js e1) /\
    js !! job crr = Some jd /\ jn_statics jd = CacheRun.n_statics cd /\ inv (job crr) (conn_refs (g_conn_tab s)) (fun n => 0 + occ n (CacheRun.deps cd)) (set_jobs js e1)) as (js & jd & -> & Hjd & Hjs & I2).
  { destruct (job_is_name crr); [by apply new_job_spec|]. destruct (Hjn eq_refl) as [jd Hjd]. exists (jobs e1), jd.
    split_and!; [done|done|by apply Hst|]. apply inv_weaken. exact I1. }
  cbn [mbind outcome_mbind]. rewrite (get_job_some (set_jobs js e1) (job crr) jd) by done. cbn [mbind outcome_mbind].
  rewrite Hjs, Nat.eqb_refl. cbn [swear mbind outcome_mbind]. erewrite forget_spec by exact Hc. cbn [mbind outcome_mbind]. simpl ckey.
  set (sz := run_sz _ _ _) in *. set (kil := if override_first crr then _ else _).
  pose proof (insert_spec (conn_refs (g_conn_tab s)) (fun n => 0 + occ n (CacheRun.deps cd)) (set_jobs js e1) (job crr) jd cd (ckey c) kil now sz (rate crr)
    (force crr) (req_crc crr) (reserved_file (upload_key crr)) now I2) as Hins.
  assert (0 <= sz) by (apply uwrap_range; lia).
  assert (refs_ok (set_jobs js e1) (ckey c) (CacheRun.deps cd)) as Hrefs.
  { split_and!; [|done|done|done]. simpl. pose proof (inv_keys _ _ _ _ I2 (ckey c)) as (_ & E & _). simpl in E.
    pose proof (conn_refs_pos _ _ _ Hc). pose proof (sum_runs_nonneg (key_cnt (ckey c)) (runs (eng s)) ltac:(intros; apply key_cnt_nonneg)).
    destruct (keys (eng s) !! ckey c); [eauto|simpl in E; lia]. }
  specialize (Hins (s_uniq _ S) Hroom Hjd (Hma jd Hjs) (conn_refs_pos _ _ _ Hc) Hrefs Hrt (conj H Hsz)).
  assert (forall e3, inv 0 (conn_refs (g_conn_tab s)) (fun n => 0 + occ n (CacheRun.deps cd)) e3 -> uniq e3 -> reserved_sz e3 = reserved_sz (eng s) - x ->
    exists ns3 tr3, release_digest cd e3 = Ret (set_node_trash tr3 (set_nodes ns3 e3)) /\
      sinv (mkSt (set_node_trash tr3 (set_nodes ns3 e3)) ids (<[Z.to_nat (upload_key crr) := 0]> (g_reserved_szs s)) (<[fd := mkConn (ckey c) (upload_keys c ∖ {[upload_key crr]})]> (g_conn_tab s)))) as Hend.
  { intros e3 I3 Hu3 Hre3. destruct (release_digest_spec _ _ (fun _ => 0) cd e3 I3) as (ns3 & tr3 & -> & I4); [done|]. exists ns3, tr3. split; [done|]. split; simpl.
    - eapply inv_hk; [|exact I4]. intros k'. by rewrite (conn_refs_replace _ _ c).
    - exact Hu3.
    - exists (U ∖ {[upload_key crr]}). rewrite Hre3. split; [done|]. by apply conn_forget. }
  match goal with |- context [insert ?a1 ?a2 ?a3 ?a4 ?a5 ?a6 ?a7 ?a8 ?a9 ?a10 ?a11 ?a12] => destruct (insert a1 a2 a3 a4 a5 a6 a7 a8 a9 a10 a11 a12) as [[e3 [|]]|m|] end;
    cbn [mbind outcome_mbind]; [| |simpl in Hins; lia|done].
  - destruct Hins as (I3 & Hre & Hsj & (r & rd & last & Hr3 & -> & _) & Huq). destruct (Huq Hforce) as [Hu3 _].
    destruct (Hend e3 I3 Hu3 Hre) as (ns3 & tr3 & -> & S'). cbn [mbind outcome_mbind]. eexists _, true. split; [done|]. split; [exact S'|]. simpl. eauto 10.
  - destruct Hins as (I3 & Hrs & Hre & r & rd & Hr3 & Hrj & Hmt).
    destruct (Hend e3 I3 ltac:(unfold uniq; rewrite Hrs; apply (s_uniq _ S)) Hre) as (ns3 & tr3 & -> & S'). cbn [mbind outcome_mbind].
    eexists _, false. split; [done|]. split; [exact S'|]. simpl. split; [done|]. exists r, rd, jd. done.
Qed.

(** ** Sequences of requests *)

Inductive request :=
| Config (fd key : Z)
| Download (job : Z) (deps : list Digest.dep) (now : Z)
| Upload (fd sz now : Z)
| Commit (fd : Z) (crr : commit_req) (now : Z)
| Dismiss (fd key : Z)
| End_connection (fd : Z) (alone : bool).

Definition serve (q : request) s : outcome (st A) :=
  match q with
  | Config fd key => _config fd key s
  | Download j ds now => '(s, _) ← _download j ds now s; Ret s
  | Upload fd sz now => '(s, _) ← _upload fd sz now s; Ret s
  | Commit fd crr now => '(s, _) ← _commit fd crr now s; Ret s
  | Dismiss fd key => _dismiss fd key s
  | End_connection fd alone => end_connection fd alone s
  end.

(** What clients have to respect: a connection is opened once, uploads are ended by the connection that
    started them, the committed run fits in the place of its reservation, replacements are not forced,
    and the digests compare with the stored runs. *)
Definition valid (q : request) s : Prop :=
  match q with
  | Config fd key => g_conn_tab s !! fd = None /\ default 0 (keys (eng s) !! key) + 1 < 2 ^ 32
  | Download j ds _ => j = 0 \/ exists jd cd, download_ok s j ds jd cd
  | Upload fd sz _ => 0 <= sz < 2 ^ 62 /\ exists x, 1 <= x < MaxKey /\ forall fd c, g_conn_tab s !! fd = Some c -> x ∉ upload_keys c
  | Commit fd crr _ => force crr = false /\ exists c cd x, commit_ok s fd crr c cd x
  | Dismiss fd key => exists c, g_conn_tab s !! fd = Some c /\ key ∈ upload_keys c
  | End_connection _ _ => True
  end.

Lemma serve_spec q s : sinv s -> valid q s -> exists s', serve q s = Ret s' /\ sinv s'.
Proof.
  intros S V. destruct q as [fd key|j ds now|fd sz now|fd crr now|fd key|fd alone]; simpl in *.
  - destruct V. by apply config_spec.
  - destruct (decide (j = 0)) as [->|Hj]; [by exists s|]. destruct V as [|(jd & cd & Hok)]; [done|].
    destruct (download_spec _ _ _ _ _ now S Hj Hok) as (s' & rep & -> & S' & _). by exists s'.
  - destruct V as [Hsz Hx]. destruct (upload_spec _ fd sz now S Hsz Hx) as (s' & rep & -> & S' & _). by exists s'.
  - destruct V as [Hf (c & cd & x & Hok)]. destruct (commit_spec _ _ _ _ _ _ now S Hok Hf) as (s' & ins & -> & S' & _). by exists s'.
  - destruct V as (c & Hc & Hk). destruct (dismiss_spec _ _ _ _ S Hc Hk) as (s' & -> & S' & _). by exists s'.
  - destruct (end_connection_spec _ fd alone S) as (s' & -> & S' & _). by exists s'.
Qed.

(** An empty cache *)
Definition init (a : A) : st A := mkSt (mk ∅ a ∅ ∅ ∅ ∅ ∅ (mkTab ∅ 0 0 [] 0 0) 0 0 [] [] ∅) SmallIds.init [] ∅.

Inductive reach : st A -> Prop :=
| reach_init a : owns a ∅ -> reach (init a)
| reach_serve q s s' : reach s -> valid q s -> serve q s = Ret s' -> reach s'.

Lemma init_sinv a : owns a ∅ -> sinv (init a).
Proof.
  intros Ha. pose proof max_sz_range. assert (forall h, Lru.lru Lru.empty [] h) as Hl by (intros h; split_and!; [apply NoDup_singleton|done|done]).
  split; simpl.
  - split; simpl.
    + by rewrite dom_empty_L.
    + split; [|split; [done|by intros r rd Hr]]. exists (fun _ => []). split; [|by intros j jd Hj]. intros c. split; [done|]. intros r. set_solver.
    + split; [|split; [done|by intros r rd Hr]]. exists (fun _ => []). intros c. split; [done|]. intros r. set_solver.
    + split; [by intros x Hx|]. split; [apply NoDup_nil_2|]. intros x. unfold has_runs. simpl. set_solver.
    + by intros k.
    + by intros k.
    + split; [done|by intros r rd Hr].
    + lia.
    + split_and!; simpl; [set_solver|set_solver|by intros j jd Hj|by intros n Hn|done|done].
  - by intros r1 r2 rd1 rd2 H1.
  - exists ∅. split.
    + split_and!; [by apply SmallIds.init_inv|done|by intros i x Hx|by intros i x Hx|set_solver].
    + split; [|by intros fd1 fd2 c1 c2 k H1]. intros k. split; [set_solver|]. by intros (fd & c & Hc & _).
Qed.

Lemma reach_sinv s : reach s -> sinv s.
Proof.
  induction 1 as [a Ha|q s s' _ IH V He]; [by apply init_sinv|]. destruct (serve_spec q s IH V) as (s2 & H2 & S2). congruence.
Qed.

(** C33 The cache server is safe: after any sequence of valid requests from an empty cache, the checks of
    [cache_chk] on the lists, the reference counts and the table of rates succeed; the size of the runs
    and of the reservations in progress never exceeds the configured size; every job without run and
    every node without reference is in the trash, so that nothing leaks; and any valid request is
    served without stopping the server. *)
Theorem server_safe s : reach s ->
  s_chk (eng s) = Ret tt /\ rate_chk (eng s) = Ret tt /\
  total_sz (eng s) = sum_runs rsz (runs (eng s)) /\ total_sz (eng s) + reserved_sz (eng s) <= max_sz /\
  reserved_sz (eng s) = sumz (g_reserved_szs s) /\
  (forall j jd, jobs (eng s) !! j = Some jd -> n_runs jd = 0 -> j ∈ job_trash (eng s)) /\
  (forall n, nodes (eng s) !! n = Some 0 -> n ∈ node_trash (eng s)) /\
  forall q, valid q s -> exists s', serve q s = Ret s'.
Proof.
  intros Hr. pose proof (reach_sinv _ Hr) as S. pose proof (s_inv _ S) as I. destruct (inv_trash _ _ _ _ I) as (_ & _ & T3 & T4 & T5 & _).
  destruct (s_res _ S) as (U & (_ & Hres & _) & _). split_and!; [by eapply s_chk_ok|apply rate_chk_ok, I|apply I|apply I|done| |done|].
  - intros j jd Hj H0. destruct (T3 j jd Hj H0); [congruence|done].
  - intros q V. destruct (serve_spec q s S V) as (s' & H & _). eauto.
Qed.

(** C34 Downloads are answered correctly: the reply to a valid request names the key and the slot of a run
    of the job whose dependencies match those of the request, if and only if there is one. *)
Theorem download_correct s j ds jd cd now : reach s -> j <> 0 -> download_ok s j ds jd cd ->
  exists s' rep, _download j ds now s = Ret (s', rep) /\ reach s' /\ download_reply (eng s) j jd cd rep.
Proof.
  intros Hr Hj Hok. destruct (download_spec _ _ _ _ _ now (reach_sinv _ Hr) Hj Hok) as (s' & rep & He & _ & Hrep).
  exists s', rep. split_and!; [done| |done]. apply (reach_serve (Download j ds now) s); [done|simpl; eauto|]. simpl. by rewrite He.
Qed.

(** C35 Emptying the trash when the last client leaves removes exactly the jobs without run and the nodes
    without reference, each of them once although the trash may hold duplicates and entries that are in use
    again; nothing else changes. *)
Theorem empty_trash_correct s : reach s -> exists e', cache_empty_trash (eng s) = Ret e' /\ emptied (eng s) e'.
Proof. intros Hr. destruct (empty_trash_spec _ _ _ (s_inv _ (reach_sinv _ Hr))) as (e' & He & _ & Hem). eauto. Qed.
End server.

Module ServerSample.
Import EngineSample.

(** A client opens connection 3 for repository 7, reserves 400, commits a run of job 1, and reserves 200. *)
Definition dep5 : Digest.dep := Digest.mkDep true 5 true false 2 1000 false.
Definition crr : commit_req := mkCommit 1 true "job" [dep5] false false 77 200 50 3 1.
Definition after (o : outcome (st Z)) : st Z := match o with Ret s => s | _ => init 1 end.
Definition s1 : st Z := after (serve (Config 3 7) (init 1)).
Definition s2 : st Z := after (serve (Upload 3 400 60) s1).
Definition s3 : st Z := after (serve (Commit 3 crr 61) s2).

Lemma reach_config : reach s1.
Proof. eapply (reach_serve (Config 3 7) (init 1)); [apply reach_init; split; [lia|set_solver]|split; done|by vm_compute]. Qed.
Lemma reach2 : reach s2.
Proof.
  eapply (reach_serve (Upload 3 400 60) s1); [apply reach_config| |by vm_compute]. split; [lia|]. exists 1. split; [unfold MaxKey; lia|].
  intros fd c Hc. change (g_conn_tab s1) with (<[3 := mkConn 7 ∅]> (∅ : gmap Z conn)) in Hc. apply lookup_insert_Some in Hc as [[_ <-]|[_ Hc]]; [simpl; set_solver|done].
Qed.

Definition cd5 : CacheRun.digest := CacheRun.mkDigest 0 false [5] [1000].
Lemma occ5 n : 0 <= occ n [5] <= 1.
Proof. unfold occ. rewrite filter_cons. case_decide; simpl; lia. Qed.

Lemma commit3 : commit_ok s2 3 crr (mkConn 7 {[1]}) cd5 400.
Proof.
  assert (runs (eng s2) = ∅) as Hr by (vm_compute; reflexivity). assert (jobs (eng s2) = ∅) as Hj by (vm_compute; reflexivity).
  assert (nodes (eng s2) = ∅) as Hn by (vm_compute; reflexivity).
  unfold commit_ok. rewrite Hj. split_and!.
  - vm_compute. reflexivity.
  - simpl. set_solver.
  - vm_compute. reflexivity.
  - exists [5]. rewrite Hn. split_and!; [vm_compute; reflexivity|done| |].
    + intros n Hi. apply list_elem_of_singleton in Hi as ->. split; [done|]. right. split; [done|set_solver].
    + intros n. change (CacheRun.deps cd5) with [5]. rewrite lookup_empty. cbn [default from_option]. pose proof (occ5 n). lia.
  - done.
  - done.
  - by intros jd.
  - intros jd _ r rd. rewrite Hr. done.
  - done.
  - done.
  - vm_compute. reflexivity.
  - done.
  - vm_compute. reflexivity.
  - assert (reserved_sz (eng s2) = 400) as -> by (vm_compute; reflexivity). vm_compute. done.
Qed.
Lemma reach3 : reach s3.
Proof. eapply (reach_serve (Commit 3 crr 61) s2); [apply reach2| |by vm_compute]. split; [done|]. eexists _, _, _. apply commit3. Qed.

Definition job3 : Engine.job := mkJob (Lru.mkEntry 1 1) 1 0 "job".
Lemma download4 : download_ok s3 1 [dep5] job3 cd5.
Proof.
  split_and!; [vm_compute; reflexivity| |done|].
  - exists [5]. split_and!; [vm_compute; reflexivity|done| |].
    + intros n Hi. apply list_elem_of_singleton in Hi as ->. split; [done|]. left. vm_compute. by eexists.
    + intros n. assert (nodes (eng s3) = {[5 := 1]}) as -> by (vm_compute; reflexivity). pose proof (occ5 n). simpl.
      destruct (decide (n = 5)) as [->|Hne]; [rewrite lookup_singleton_eq; simpl; lia|rewrite lookup_singleton_ne by done; simpl; lia].
  - intros r rd. assert (runs (eng s3) = {[1 := mkRun 61 77 326 1 [5] [1000] 7 3 false false]}) as -> by (vm_compute; reflexivity).
    intros [<- <-]%lookup_singleton_Some _. eexists _, _. vm_compute. reflexivity.
Qed.

Lemma server_safe_witness : s_chk (eng s3) = Ret tt /\ total_sz (eng s3) + reserved_sz (eng s3) <= 1000.
Proof. destruct (server_safe s3 reach3) as (H1 & _ & _ & H2 & _). split; [exact H1|exact H2]. Defined.

Lemma download_correct_witness : exists s' rep, _download 1 [dep5] 70 s3 = Ret (s', rep) /\ download_reply (eng s3) 1 job3 cd5 rep.
Proof. destruct (download_correct s3 1 [dep5] job3 cd5 70 reach3 ltac:(lia) download4) as (s' & rep & H & _ & Hr). exists s', rep. split; [exact H|exact Hr]. Defined.

Lemma empty_trash_correct_witness : exists e', cache_empty_trash (eng s3) = Ret e' /\ jobs e' = jobs (eng s3).
Proof.
  destruct (empty_trash_correct s3 reach3) as (e' & H & Hj & _). exists e'. split; [exact H|]. rewrite Hj. vm_compute. reflexivity.
Defined.
End ServerSample.
