(* ===== verification/BackendRsrc.v ===== *)
(** * Resources of the backends: [round_rsrc] of src/lmake_server/backends/generic.hh, the interface
    [GenericBackend] asks of a backend about its resources, and the two policies that implement it: the
    capacities of the local backend (local.cc) and the bounded submission queues of the slurm and SGE
    backends ([SpawnedMap] of slurm.cc and sge.cc). *)
From S2P Require Import Prelude.
Local Open Scope Z_scope.

Definition Job : Type := Z.
Definition Req : Type := Z.

(** [::vmap_ss] *)
Definition vmap_ss : Type := list (string * string).

(** ** Rounding *)

(** [::bit_width] *)
Definition bit_width (i : Z) : Z := if i =? 0 then 0 else Z.log2 i + 1.

Definition NMsb : Z := 3.

(** [round_rsrc<I>], [w] is the width of [I] *)
Definition round_rsrc (w i : Z) : Z :=
  if i <=? Z.shiftl 1 NMsb then i
  else
    let sw := bit_width i - NMsb in
    uwrap w (Z.shiftl (uwrap w (Z.shiftr (i - 1) sw + 1)) sw).

Lemma bit_width_spec i : 0 < i -> 2 ^ (bit_width i - 1) <= i < 2 ^ bit_width i.
Proof.
  intros Hi. unfold bit_width. rewrite (proj2 (Z.eqb_neq i 0)) by lia.
  replace (Z.log2 i + 1 - 1) with (Z.log2 i) by lia. apply (Z.log2_spec i Hi).
Qed.

Lemma bit_width_le w i : 0 < i < 2 ^ w -> bit_width i <= w.
Proof.
  intros [Hi Hw]. unfold bit_width. rewrite (proj2 (Z.eqb_neq i 0)) by lia.
  assert (Z.log2 i < w) by (apply Z.log2_lt_pow2; lia). lia.
Qed.

(** The rounded value before it is cut to the width: the next multiple of a power of 2 that keeps at most 3
    significant bits *)
Lemma round_rsrc_shape w i : 3 < w -> 8 < i < 2 ^ w ->
  exists q sw, 0 < sw <= w - 3 /\ 4 <= q <= 8 /\ round_rsrc w i = uwrap w (q * 2 ^ sw) /\
    i <= q * 2 ^ sw < i + 2 ^ sw /\ 4 * 2 ^ sw <= i /\ i < 8 * 2 ^ sw.
Proof.
  intros Hw [Hi1 Hi2]. have (bit_width_spec i) as [Hb1 Hb2].
  assert (bit_width i <= w) as Hbw by (apply bit_width_le; lia).
  assert (4 <= bit_width i) as H4.
  { destruct (Z.lt_ge_cases (bit_width i) 4); [|lia].
    assert (2 ^ bit_width i <= 2 ^ 3) by (apply Z.pow_le_mono_r; lia). lia. }
  unfold round_rsrc, NMsb. rewrite (proj2 (Z.leb_gt i _)) by (change (Z.shiftl 1 3) with 8; lia).
  set (sw := bit_width i - 3) in *.
  assert (2 ^ (bit_width i - 1) = 4 * 2 ^ sw) as E1 by (unfold sw; change 4 with (2 ^ 2); rewrite <- Z.pow_add_r by lia; f_equal; lia).
  assert (2 ^ bit_width i = 8 * 2 ^ sw) as E2 by (unfold sw; change 8 with (2 ^ 3); rewrite <- Z.pow_add_r by lia; f_equal; lia).
  assert (0 < 2 ^ sw) by (apply Z.pow_pos_nonneg; unfold sw; lia).
  rewrite Z.shiftr_div_pow2 by (unfold sw; lia). set (d := (i - 1) / 2 ^ sw).
  assert (2 ^ sw * d <= i - 1 < 2 ^ sw * d + 2 ^ sw) as Hd.
  { unfold d. pose proof (Z.div_mod (i - 1) (2 ^ sw)). pose proof (Z.mod_pos_bound (i - 1) (2 ^ sw)). lia. }
  assert (3 <= d <= 7) by nia.
  exists (d + 1), sw. split_and!; [unfold sw; lia..| | |lia|lia|lia].
  - rewrite (uwrap_small w (d + 1)); [by rewrite Z.shiftl_mul_pow2 by (unfold sw; lia)|].
    assert (2 ^ 4 <= 2 ^ w) by (apply Z.pow_le_mono_r; lia). lia.
  - lia.
Qed.

Lemma round_rsrc_bounds w i : 3 < w -> 0 <= i <= 7 * 2 ^ (w - 3) ->
  i <= round_rsrc w i <= 8 * 2 ^ (w - 3) - 2 ^ (w - 3) /\ 4 * (round_rsrc w i - i) <= i.
Proof.
  intros Hw Hi. assert (2 ^ w = 8 * 2 ^ (w - 3)) as Ew by (change 8 with (2 ^ 3); rewrite <- Z.pow_add_r by lia; f_equal; lia).
  assert (2 ^ 1 <= 2 ^ (w - 3)) by (apply Z.pow_le_mono_r; lia).
  destruct (Z.le_gt_cases i 8) as [H8|H8].
  { unfold round_rsrc. rewrite (proj2 (Z.leb_le i _)) by (change (Z.shiftl 1 NMsb) with 8; lia). lia. }
  destruct (round_rsrc_shape w i) as (q & sw & Hsw & Hq & -> & Hr & Hlo & Hhi); [lia..|].
  assert (2 ^ (w - 3) = 2 ^ (w - 3 - sw) * 2 ^ sw) as Es by (rewrite <- Z.pow_add_r by lia; f_equal; lia).
  assert (0 < 2 ^ sw) by lia. assert (0 < 2 ^ (w - 3 - sw)) by (apply Z.pow_pos_nonneg; lia).
  assert (q * 2 ^ sw <= 7 * 2 ^ (w - 3)).
  { destruct (Z.eq_dec sw (w - 3)) as [->|]; [clear Es Ew; assert (q < 8) by nia; nia|].
    assert (2 ^ 1 <= 2 ^ (w - 3 - sw)) by (apply Z.pow_le_mono_r; lia). nia. }
  rewrite uwrap_small by nia. nia.
Qed.

Lemma round_rsrc_overflow w i : 3 < w -> 7 * 2 ^ (w - 3) < i < 2 ^ w -> 8 < i -> round_rsrc w i = 0.
Proof.
  intros Hw Hi H8. assert (2 ^ w = 8 * 2 ^ (w - 3)) as Ew by (change 8 with (2 ^ 3); rewrite <- Z.pow_add_r by lia; f_equal; lia).
  destruct (round_rsrc_shape w i) as (q & sw & Hsw & Hq & -> & Hr & Hlo & Hhi); [lia..|].
  assert (2 ^ (w - 3) = 2 ^ (w - 3 - sw) * 2 ^ sw) as Es by (rewrite <- Z.pow_add_r by lia; f_equal; lia).
  assert (sw = w - 3) as ->.
  { destruct (Z.eq_dec sw (w - 3)) as [->|]; [done|]. assert (0 < 2 ^ sw) by lia.
    assert (2 ^ 1 <= 2 ^ (w - 3 - sw)) by (apply Z.pow_le_mono_r; lia). nia. }
  assert (q = 8) as -> by nia. unfold uwrap. rewrite <- Ew. apply Z_mod_same_full.
Qed.

Lemma round_rsrc_small w i : i <= 8 -> round_rsrc w i = i.
Proof. intros Hi. unfold round_rsrc. by rewrite (proj2 (Z.leb_le i _)) by (change (Z.shiftl 1 NMsb) with 8; lia). Qed.

(** A multiple of a power of 2 with at most 3 significant bits is kept. *)
Lemma round_rsrc_exact w q sw : 3 < w -> 0 <= sw -> 4 <= q <= 8 -> q * 2 ^ sw < 2 ^ w -> round_rsrc w (q * 2 ^ sw) = q * 2 ^ sw.
Proof.
  intros Hw Hsw Hq Hr. destruct (Z.le_gt_cases (q * 2 ^ sw) 8); [by apply round_rsrc_small|].
  destruct (round_rsrc_shape w (q * 2 ^ sw)) as (q' & sw' & Hsw' & Hq' & -> & Hlt & Hlo & Hhi); [lia..|].
  assert (0 < 2 ^ sw) by (apply Z.pow_pos_nonneg; lia). assert (0 < 2 ^ sw') by (apply Z.pow_pos_nonneg; lia).
  assert (sw' <= sw + 1) as Hle.
  { destruct (Z.le_gt_cases sw' (sw + 1)); [done|]. assert (2 ^ (sw + 2) <= 2 ^ sw') as Hp by (apply Z.pow_le_mono_r; lia).
    rewrite Z.pow_add_r in Hp by lia. nia. }
  assert (exists k, q * 2 ^ sw = k * 2 ^ sw') as [k Ek].
  { destruct (Z.eq_dec sw' (sw + 1)) as [->|].
    - exists 4. rewrite Z.pow_add_r in * by lia. change (2 ^ 1) with 2 in *. assert (q = 8) as -> by nia. lia.
    - exists (q * 2 ^ (sw - sw')). rewrite <- Z.mul_assoc, <- Z.pow_add_r by lia. do 2 f_equal. lia. }
  rewrite Ek in Hlt |- *. assert (q' = k) as -> by nia. apply uwrap_small. rewrite <- Ek. nia.
Qed.

(** [round_rsrc] is a rounding up: on the values it can round without overflowing the width, the result is
    at least the value and at most a quarter above it, rounding again changes nothing, and the results are
    multiples [q * 2 ^ k] with [q <= 8], so that the number of queues is logarithmic in the resources. *)
Theorem round_rsrc_ok w i : 3 < w -> 0 <= i <= 7 * 2 ^ (w - 3) ->
  i <= round_rsrc w i <= 7 * 2 ^ (w - 3) /\ 4 * (round_rsrc w i - i) <= i /\
  round_rsrc w (round_rsrc w i) = round_rsrc w i /\
  exists q k, 0 <= k <= w - 3 /\ 0 <= q <= 8 /\ round_rsrc w i = q * 2 ^ k.
Proof.
  intros Hw Hi. destruct (round_rsrc_bounds w i Hw Hi) as [Hb Hq].
  assert (2 ^ w = 8 * 2 ^ (w - 3)) as Ew by (change 8 with (2 ^ 3); rewrite <- Z.pow_add_r by lia; f_equal; lia).
  assert (0 < 2 ^ (w - 3)) by (apply Z.pow_pos_nonneg; lia).
  split; [lia|]. split; [done|]. destruct (Z.le_gt_cases i 8) as [H8|H8].
  { rewrite !(round_rsrc_small w i) by done. split; [done|]. exists i, 0. lia. }
  destruct (round_rsrc_shape w i) as (q & sw & Hsw & Hq8 & E & Hr & Hlo & Hhi); [lia..|].
  assert (round_rsrc w i = q * 2 ^ sw) as E2.
  { rewrite E. apply uwrap_small. split; [nia|]. pose proof (uwrap_range w (q * 2 ^ sw)) as Hu.
    destruct (Z.lt_ge_cases (q * 2 ^ sw) (2 ^ w)) as [|Hge]; [done|].
    assert (sw = w - 3) as ->.
    { destruct (Z.eq_dec sw (w - 3)); [done|]. assert (2 ^ (sw + 1) <= 2 ^ (w - 3)) as Hp by (apply Z.pow_le_mono_r; lia).
      rewrite Z.pow_add_r in Hp by lia. change (2 ^ 1) with 2 in Hp. nia. }
    assert (q = 8) as -> by nia. lia. }
  rewrite E2 in Hb |- *. split; [apply round_rsrc_exact; lia|]. exists q, sw. lia.
Qed.

Lemma round_rsrc_ok_witness : 3 < 32 /\ round_rsrc 32 (round_rsrc 32 1001) = round_rsrc 32 1001.
Proof. split; [lia|]. apply (round_rsrc_ok 32 1001); lia. Defined.

(** ** What [GenericBackend] asks of a backend *)

(** [R] is [RsrcsData], [S] the part of the backend's state that deals with resources. *)
Class RsrcOps (R S : Type) : Type := {
  round : S -> R -> outcome R;
  lacking_rsrc : S -> R -> option (string * string);
  fit_now : S -> R -> bool;
  acquire_rsrcs : R -> S -> outcome S;
  start_rsrcs : R -> S -> outcome S;
  end_rsrcs : R -> S -> outcome S;
  import_ : S -> vmap_ss -> Req -> Job -> outcome R;
  call_launch_after_start : bool;
  call_launch_after_end : bool
}.
#[global] Hint Mode RsrcOps - - : typeclass_instances.

(** What it promises in return: [held s q st] says that the jobs [s] accounts for are the queued ones,
    with resources [q], and the started ones, with resources [st]. [same] says that two states only
    differ by the jobs accounted for, [valid] characterises the imported resources and [allowed] the
    rounded ones. *)
Class RsrcLaws {R S : Type} (O : RsrcOps R S) : Type := {
  held : S -> list R -> list R -> Prop;
  same : S -> S -> Prop;
  valid : S -> R -> Prop;
  allowed : S -> R -> Prop;
  same_equiv : Equivalence same;
  held_perm : forall s, Proper ((≡ₚ) ==> (≡ₚ) ==> iff) (held s);
  valid_same : forall s s' r, same s s' -> valid s r -> valid s' r;
  allowed_same : forall s s' r, same s s' -> allowed s r -> allowed s' r;
  round_same : forall s s' r, same s s' -> round s r = round s' r;
  lacking_same : forall s s' r, same s s' -> lacking_rsrc s r = lacking_rsrc s' r;
  import_valid : forall s q st m k j r, held s q st -> import_ s m k j = Ret r -> valid s r;
  import_total : forall s q st m k j, held s q st -> import_ s m k j <> Crash;
  round_ok : forall s r, valid s r -> lacking_rsrc s r = None -> exists r', round s r = Ret r' /\ allowed s r';
  acquire_ok : forall s r q st, held s q st -> allowed s r -> fit_now s r = true ->
    exists s', acquire_rsrcs r s = Ret s' /\ held s' (r :: q) st /\ same s s';
  start_ok : forall s r q st, held s (r :: q) st ->
    exists s', start_rsrcs r s = Ret s' /\ held s' q (r :: st) /\ same s s';
  end_ok : forall s r q st, held s q (r :: st) ->
    exists s', end_rsrcs r s = Ret s' /\ held s' q st /\ same s s';
  fit_idle : forall s r, held s [] [] -> allowed s r -> fit_now s r = true
}.

(** ** The local backend *)
Module Local.

Definition RsrcsData : Type := list Z.

Record t := mk {
  rsrc_idxs : gmap string Z;
  rsrc_keys : list string;
  capacity_ : RsrcsData;
  occupied : RsrcsData;
  public_capacity : list (string * Z)
}.

Definition init : t := mk ∅ [] [] [] [].
Definition set_occupied (o : RsrcsData) (s : t) : t :=
  mk (rsrc_idxs s) (rsrc_keys s) (capacity_ s) o (public_capacity s).

(** [operator+=] and [operator-=] on 32 bits *)
Definition add (a b : RsrcsData) : outcome RsrcsData :=
  _ ← swear (bool_decide (length a = length b));
  Ret (zip_with (fun x y => u32 (x + y)) a b).
Definition sub (a b : RsrcsData) : outcome RsrcsData :=
  _ ← swear (bool_decide (length a = length b));
  Ret (zip_with (fun x y => u32 (x - y)) a b).

(** [SWEAR(occupied[i]<=capacity_[i])] for all [i] *)
Fixpoint within (a cap : RsrcsData) : bool :=
  match a, cap with
  | [], _ => true
  | x :: a, c :: cap => (x <=? c) && within a cap
  | _ :: _, [] => false
  end.

(** The sum is computed on 32 bits; the three vectors have the same size. *)
Fixpoint fit_loop (occ rds cap : RsrcsData) : bool :=
  match occ, rds, cap with
  | [], _, _ => true
  | o :: occ, r :: rds, c :: cap => if c <? u32 (o + r) then false else fit_loop occ rds cap
  | _, _, _ => false
  end.

Fixpoint lacking_loop (keys : list string) (rs cap : RsrcsData) : option (string * string) :=
  match keys, rs, cap with
  | k :: keys, r :: rs, c :: cap =>
    if c <? r then
      Some ("not enough resource " +:+ k +:+ " (required " +:+ pretty r +:+ " but only " +:+ pretty c +:+ " available)",
            "lmake.config.backends.local." +:+ k +:+ " = " +:+ pretty r)
    else lacking_loop keys rs cap
  | _, _, _ => None
  end.

Fixpoint round_loop (rs cap : RsrcsData) : outcome RsrcsData :=
  match rs, cap with
  | [], _ => Ret []
  | r :: rs, c :: cap =>
    _ ← swear (r <=? c);
    res ← round_loop rs cap;
    Ret (Z.min (round_rsrc 32 r) c :: res)
  | _ :: _, [] => Crash
  end.

Definition acquire (rs : RsrcsData) (s : t) : outcome t :=
  o ← add (occupied s) rs;
  _ ← swear (within o (capacity_ s));
  Ret (set_occupied o s).

Definition release (rs : RsrcsData) (s : t) : outcome t :=
  o ← sub (occupied s) rs;
  _ ← swear (within o (capacity_ s));
  Ret (set_occupied o s).

(** ** Reading resources *)

Section import.
(** [from_string_rsrc<Rsrc,rnd_up>(k,v)]: the standard library's conversion of a decimal number with a
    fractional part, scaled by the unit, to 32 bits *)
Context (from_string_rsrc : bool -> string -> string -> outcome Z).

(** The constructor of [RsrcsData] from a dictionary; the messages of errors are shortened *)
Fixpoint import_loop (rnd_up : bool) (idxs : gmap string Z) (m : vmap_ss) (v : RsrcsData) (non_null : bool) :
  outcome (RsrcsData * bool) :=
  match m with
  | [] => Ret (v, non_null)
  | (k, x) :: m =>
    match idxs !! k with
    | None => Throw ("no resource " +:+ k +:+ " for backend local")
    | Some i =>
      _ ← swear (i <? Z.of_nat (length v));
      match from_string_rsrc rnd_up k x with
      | Ret rsrc => import_loop rnd_up idxs m (<[Z.to_nat i := rsrc]> v) (non_null || negb (rsrc =? 0))
      | _ => Throw ("cannot convert resource " +:+ k +:+ " from " +:+ x +:+ " to a int")
      end
    end
  end.
Definition of_vmap (m : vmap_ss) (idxs : gmap string Z) (rnd_up : bool) : outcome RsrcsData :=
  '(v, non_null) ← import_loop rnd_up idxs m (replicate (size idxs) 0) false;
  _ ← throw_unless non_null "cannot launch local job with no resources";
  Ret v.

(** [sub_config], without the limits of the process and the environment of the jobs: the state it leaves
    and whether it throws, with shortened messages. [first_time] is the static variable. *)
Definition single : string := "<single>".
Definition number_keys (dct : vmap_ss) (ik : gmap string Z * list string) : gmap string Z * list string :=
  foldl (fun ik kv => (<[kv.1 := Z.of_nat (length ik.2)]> ik.1, ik.2 ++ [kv.1])) ik dct.
Definition keep_or_number (first_time : bool) (dct : vmap_ss) (s : t) : t * outcome bool :=
  let dct_single := bool_decide (single ∈ dct.*1) in
  if first_time then
    let ik := number_keys dct (rsrc_idxs s, rsrc_keys s) in
    let ik := if dct_single then ik else number_keys [(single, EmptyString)] ik in
    (mk ik.1 ik.2 (capacity_ s) (replicate (length ik.2) 0) (public_capacity s),
     _ ← swear (bool_decide (rsrc_keys s = [])); Ret dct_single)
  else
    (s, if decide (list_to_set (rsrc_keys s) = ({[single]} ∪ list_to_set dct.*1 : gset string)) then Ret dct_single
        else Throw "cannot change resource names while lmake is running").
Definition set_back (x : Z) (v : RsrcsData) : RsrcsData := <[pred (length v) := x]> v.
Definition sub_config (first_time : bool) (dct : vmap_ss) (s : t) : t * outcome unit :=
  let '(s, seen) := keep_or_number first_time dct s in
  match seen with
  | Throw e => (s, Throw e)
  | Crash => (s, Crash)
  | Ret seen_single =>
    match of_vmap dct (rsrc_idxs s) false with
    | Throw e => (s, Throw e)
    | Crash => (s, Crash)
    | Ret c =>
      let c := if seen_single then c else set_back 1 c in
      (mk (rsrc_idxs s) (rsrc_keys s) c (occupied s) (public_capacity s ++ zip (rsrc_keys s) c),
       swear (bool_decide (length (rsrc_keys s) = length c)))
    end
  end.
End import.

(** [RsrcsData::mk_vmap], over the printing of [to_string_rsrc] *)
Definition mk_vmap (to_string_rsrc : string -> Z -> string) (keys : list string) (v : RsrcsData) : vmap_ss :=
  omap (fun kx => if kx.2 =? 0 then None else Some (kx.1, to_string_rsrc kx.1 kx.2)) (zip keys v).

#[export] Instance ops (from_string_rsrc : bool -> string -> string -> outcome Z) : RsrcOps RsrcsData t := {|
  round s r := round_loop r (capacity_ s);
  lacking_rsrc s r := lacking_loop (rsrc_keys s) r (capacity_ s);
  fit_now s r := fit_loop (occupied s) r (capacity_ s);
  acquire_rsrcs := acquire;
  start_rsrcs _ s := Ret s;
  end_rsrcs := release;
  import_ s m _ _ := of_vmap from_string_rsrc m (rsrc_idxs s) true;
  call_launch_after_start := false;
  call_launch_after_end := true
|}.

(** *** The occupied resources are the sum of the resources of the jobs *)

Definition total (n : nat) (rs : list RsrcsData) : RsrcsData := foldr (zip_with Z.add) (replicate n 0) rs.
Definition le (a b : RsrcsData) : Prop := Forall2 Z.le a b.
Definition u31 (z : Z) : Prop := 0 <= z < 2 ^ 31.
(** A vector of [n] resources *)
Definition vec (n : nat) (r : RsrcsData) : Prop := length r = n /\ Forall (fun z => 0 <= z) r.

(** The configuration has one name, one index and one capacity per resource. *)
Definition configured (s : t) : Prop :=
  length (rsrc_keys s) = length (capacity_ s) /\ size (rsrc_idxs s) = length (capacity_ s) /\
  (forall k i, rsrc_idxs s !! k = Some i -> 0 <= i < Z.of_nat (length (capacity_ s))) /\
  Forall u31 (capacity_ s).

Definition accounts (s : t) (q st : list RsrcsData) : Prop :=
  configured s /\ Forall (vec (length (capacity_ s))) (q ++ st) /\
  occupied s = total (length (capacity_ s)) (q ++ st) /\ le (occupied s) (capacity_ s).

Lemma total_perm n rs rs' : rs ≡ₚ rs' -> total n rs = total n rs'.
Proof.
  induction 1 as [|r rs rs' _ IH|a b rs|? ? ? _ IH1 _ IH2]; simpl; [done|by rewrite IH| |by rewrite IH1].
  generalize (total n rs). intros l. clear. revert b l. induction a as [|x a IH]; intros [|y b] [|z l]; simpl; try done.
  f_equal; [lia|apply IH].
Qed.

Lemma total_vec n rs : Forall (vec n) rs -> vec n (total n rs).
Proof.
  induction 1 as [|r rs [Hl Hr] _ [IHl IHr]]; simpl.
  - split; [by rewrite length_replicate|]. by apply Forall_replicate.
  - split; [rewrite length_zip_with; lia|]. clear Hl IHl. revert IHr. generalize (total n rs).
    induction Hr as [|x r Hx Hr IH]; intros l [|]; simpl; constructor; [lia|by apply IH].
Qed.

Lemma within_le a b : within a b = true <-> le a (take (length a) b).
Proof.
  unfold le. revert b. induction a as [|x a IH]; intros [|c b]; simpl; rewrite ?Forall2_nil, ?Forall2_cons; [done..| |].
  - split; [done|inversion 1].
  - by rewrite andb_true_iff, Z.leb_le, IH.
Qed.

Lemma within_intro a b : le a b -> within a b = true.
Proof. intros H. apply within_le. by rewrite take_ge by (rewrite (Forall2_length _ _ _ H); lia). Qed.

(** On 31-bit capacities the 32-bit sums of [fit_now] and [operator+=] are exact. *)
Lemma fit_loop_spec occ rds cap : le occ cap -> vec (length cap) occ -> Forall u31 cap -> le rds cap ->
  Forall (fun z => 0 <= z) rds ->
  fit_loop occ rds cap = true <-> le (zip_with Z.add rds occ) cap.
Proof.
  intros Ho [Hl Hv] Hc Hr Hp. unfold le, u31 in *. revert rds Hr Hp. clear Hl.
  induction Ho as [|o c occ cap Hoc Ho IH]; intros rds Hr Hp; inversion Hr as [|r ? rds' ? Hrc Hr']; subst; simpl; [done|].
  rewrite Forall_cons in Hv, Hc, Hp. destruct Hv, Hc, Hp. rewrite u32_small, Forall2_cons by lia.
  rewrite <- IH by done. destruct (Z.ltb_spec c (o + r)); intuition (try done; lia).
Qed.

Lemma add_exact occ r cap : le (zip_with Z.add r occ) cap -> Forall u31 cap ->
  vec (length cap) occ -> vec (length cap) r -> add occ r = Ret (zip_with Z.add r occ).
Proof.
  intros Hle Hc [Hlo Ho] [Hlr Hr]. unfold add. rewrite bool_decide_true by congruence. simpl. f_equal.
  unfold le, u31 in *. revert occ r Hle Hlo Ho Hlr Hr.
  induction Hc as [|c cap Hc' _ IH]; intros [|o occ] [|r rr]; simpl; intros; try done.
  apply Forall2_cons in Hle as [??]. rewrite Forall_cons in Ho, Hr. destruct Ho, Hr.
  f_equal; [|apply IH; auto]. rewrite u32_small by lia. lia.
Qed.

Lemma sub_exact t r cap : le (zip_with Z.add r t) cap -> Forall u31 cap ->
  vec (length cap) t -> vec (length cap) r -> sub (zip_with Z.add r t) r = Ret t.
Proof.
  intros Hle Hc [Hlo Ho] [Hlr Hr]. unfold sub. rewrite bool_decide_true by (rewrite length_zip_with; lia).
  simpl. f_equal. unfold le, u31 in *. revert t r Hle Hlo Ho Hlr Hr.
  induction Hc as [|c cap Hc' _ IH]; intros [|o occ] [|r rr]; simpl; intros; try done.
  apply Forall2_cons in Hle as [??]. rewrite Forall_cons in Ho, Hr. destruct Ho, Hr.
  f_equal; [|apply IH; auto]. rewrite u32_small by lia. lia.
Qed.

Lemma add_le_r (r t cap : RsrcsData) : length r = length cap -> le (zip_with Z.add r t) cap -> Forall (fun z => 0 <= z) r ->
  length t = length cap -> le t cap.
Proof.
  unfold le. intros Hl Hle Hr Ht. revert t cap Hl Hle Ht.
  induction Hr as [|x r Hx _ IH]; intros [|y t] [|c cap]; simpl; intros; try done.
  apply Forall2_cons in Hle as [??]. apply Forall2_cons. split; [lia|]. apply IH; auto.
Qed.

Definition u32v (z : Z) : Prop := 0 <= z < 2 ^ 32.

Lemma round_loop_spec rs cap : le rs cap -> Forall (fun z => 0 <= z) rs -> Forall u31 cap ->
  exists rs', round_loop rs cap = Ret rs' /\ le rs' cap /\ le rs rs'.
Proof.
  unfold le, u31. induction 1 as [|r c rs cap Hrc _ IH]; intros Hp Hc; [by exists []|].
  apply Forall_cons in Hp as [Hp1 Hp], Hc as [Hc1 Hc]. destruct (IH Hp Hc) as (rs' & E & Hle & Hge).
  have (round_rsrc_bounds 32 r) as [Hb _].
  simpl. rewrite (proj2 (Z.leb_le r c) Hrc). simpl. rewrite E. simpl. eexists. split; [done|].
  split; constructor; (done || lia).
Qed.

Lemma lacking_loop_spec keys rs cap : length keys = length cap -> length rs = length cap ->
  lacking_loop keys rs cap = None <-> le rs cap.
Proof.
  unfold le. revert keys cap. induction rs as [|r rs IH]; intros [|k keys] [|c cap]; simpl; intros; try done.
  destruct (Z.ltb_spec c r).
  - split; [done|]. rewrite Forall2_cons. lia.
  - rewrite IH, Forall2_cons by lia. intuition lia.
Qed.

Section laws.
Context (from_string_rsrc : bool -> string -> string -> outcome Z).
(** A successful conversion is within 32 bits. *)
Context (parse_u32 : forall rnd_up k x r, from_string_rsrc rnd_up k x = Ret r -> u32v r).

Lemma import_loop_spec rnd_up idxs m v nn :
  (forall k i, idxs !! k = Some i -> 0 <= i < Z.of_nat (length v)) -> Forall u32v v ->
  match import_loop from_string_rsrc rnd_up idxs m v nn with
  | Ret (v', _) => length v' = length v /\ Forall u32v v'
  | Throw _ => True
  | Crash => False
  end.
Proof.
  revert v nn. induction m as [|[k x] m IH]; intros v nn Hi Hv; simpl; [done|].
  destruct (idxs !! k) as [i|] eqn:Ei; [|done].
  rewrite swear_bind by (apply Z.ltb_lt, (Hi _ _ Ei)).
  destruct (from_string_rsrc rnd_up k x) as [r| |] eqn:Er; [|done..].
  specialize (IH (<[Z.to_nat i := r]> v) (nn || negb (r =? 0))). rewrite length_insert in IH.
  apply IH; [done|]. apply Forall_insert; [done|by eapply parse_u32].
Qed.

Lemma of_vmap_spec m idxs rnd_up :
  (forall k i, idxs !! k = Some i -> 0 <= i < Z.of_nat (size idxs)) ->
  match of_vmap from_string_rsrc m idxs rnd_up with
  | Ret v => length v = size idxs /\ Forall u32v v
  | Throw _ => True
  | Crash => False
  end.
Proof.
  intros Hi. unfold of_vmap. pose proof (import_loop_spec rnd_up idxs m (replicate (size idxs) 0) false) as H.
  rewrite length_replicate in H. specialize (H Hi ltac:(apply Forall_replicate; unfold u32v; lia)).
  destruct (import_loop _ _ _ _ _ _) as [[v nn]| |]; simpl; [|done..]. by destruct nn.
Qed.

Definition same_config (s s' : t) : Prop :=
  rsrc_idxs s = rsrc_idxs s' /\ rsrc_keys s = rsrc_keys s' /\ capacity_ s = capacity_ s' /\
  public_capacity s = public_capacity s'.

Lemma same_config_equiv : Equivalence same_config.
Proof. split; unfold same_config; [intros ?|intros ? ? ?|intros ? ? ?]; intuition congruence. Qed.

Definition importable (s : t) (r : RsrcsData) : Prop :=
  configured s /\ length r = length (capacity_ s) /\ Forall u32v r.
Definition admissible (s : t) (r : RsrcsData) : Prop :=
  vec (length (capacity_ s)) r /\ le r (capacity_ s).

Lemma configured_same s s' : same_config s s' -> configured s -> configured s'.
Proof. intros (E1 & E2 & E3 & _). unfold configured. by rewrite E1, E2, E3. Qed.

Lemma local_acquire_spec s r q st : accounts s q st -> admissible s r -> fit_loop (occupied s) r (capacity_ s) = true ->
  exists s', acquire r s = Ret s' /\ accounts s' (r :: q) st /\ same_config s s'.
Proof.
  intros (Hc & Hv & Ho & Hle) [Hr Hrc] Hf. pose proof (total_vec _ _ Hv) as Ht. rewrite <- Ho in Ht.
  pose proof Hc as (_ & _ & _ & Hu).
  apply fit_loop_spec in Hf; [|done..|apply Hr].
  unfold acquire. rewrite (add_exact _ _ _ Hf Hu Ht Hr). simpl. rewrite (within_intro _ _ Hf). simpl.
  eexists. split; [done|]. split; [|by split_and!].
  split; [done|]. simpl. split; [by constructor|]. split; [by rewrite <- Ho|done].
Qed.

Lemma local_release_spec s r q st : accounts s q (r :: st) ->
  exists s', release r s = Ret s' /\ accounts s' q st /\ same_config s s'.
Proof.
  intros (Hc & Hv & Ho & Hle). pose proof Hc as (_ & _ & _ & Hu).
  assert (q ++ r :: st ≡ₚ r :: (q ++ st)) as Hp by (by rewrite Permutation_middle).
  rewrite (total_perm _ _ _ Hp) in Ho. rewrite Hp in Hv. apply Forall_cons in Hv as [Hr Hv].
  pose proof (total_vec _ _ Hv) as Ht. simpl in Ho. rewrite Ho in Hle.
  assert (le (total (length (capacity_ s)) (q ++ st)) (capacity_ s)) as Hle'.
  { eapply add_le_r; [apply Hr|done|apply Hr|apply Ht]. }
  unfold release. rewrite Ho, (sub_exact _ _ _ Hle Hu Ht Hr). simpl. rewrite (within_intro _ _ Hle'). simpl.
  eexists. split; [done|]. by split_and!.
Qed.

Lemma idle_fits s r : accounts s [] [] -> admissible s r -> fit_loop (occupied s) r (capacity_ s) = true.
Proof.
  intros (Hc & Hv & Ho & Hle) [Hr Hrc]. pose proof (total_vec _ _ Hv) as Ht. simpl in *. rewrite <- Ho in Ht.
  pose proof Hc as (_ & _ & _ & Hu). apply fit_loop_spec; [done..|apply Hr|]. rewrite Ho.
  replace (zip_with Z.add r (replicate (length (capacity_ s)) 0)) with r; [done|].
  destruct Hr as [<- _]. clear. induction r as [|x r IH]; simpl; [done|]. by rewrite Z.add_0_r, <- IH.
Qed.

#[export] Instance laws : RsrcLaws (ops from_string_rsrc).
Proof.
  refine {| held := accounts; same := same_config; valid := importable; allowed := admissible;
    same_equiv := same_config_equiv |}; simpl.
  - intros s q q' Hq st st' Hst. unfold accounts. by rewrite (total_perm _ (q ++ st) (q' ++ st')), Hq, Hst by (by rewrite Hq, Hst).
  - intros s s' r H (Hc & Hr). split; [by eapply configured_same|]. destruct H as (_ & _ & <- & _). done.
  - intros s s' r (_ & _ & E & _). unfold admissible. by rewrite E.
  - intros s s' r (_ & _ & -> & _). done.
  - intros s s' r (_ & -> & -> & _). done.
  - intros s q st m k j r (Hc & _) E. pose proof Hc as (_ & Hn & Hi & _). rewrite <- Hn in Hi.
    pose proof (of_vmap_spec m (rsrc_idxs s) true Hi) as H. rewrite E in H. destruct H. split; [done|]. by rewrite <- Hn.
  - intros s q st m k j (Hc & _) E. pose proof Hc as (_ & Hn & Hi & _). rewrite <- Hn in Hi.
    pose proof (of_vmap_spec m (rsrc_idxs s) true Hi) as H. by rewrite E in H.
  - intros s r ((Hk & _ & _ & Hu) & Hl & Hr) Hlack. apply lacking_loop_spec in Hlack; [|done..].
    assert (Forall (fun z => 0 <= z) r) as Hp by (eapply Forall_impl; [done|unfold u32v; simpl; lia]).
    destruct (round_loop_spec r (capacity_ s)) as (r' & E & Hle & Hge); [done..|]. exists r'. split; [done|].
    split; [|done]. split; [by rewrite (Forall2_length _ _ _ Hle)|].
    clear -Hge Hp. unfold le in Hge. induction Hge as [|? ? ? ? ? ? IH]; [done|].
    apply Forall_cons in Hp as [??]. constructor; [lia|]. by apply IH.
  - exact local_acquire_spec.
  - intros s r q st (Hc & Hv & Ho & Hle). exists s. split; [done|]. split; [|by split_and!].
    unfold accounts. split; [done|]. rewrite <- (total_perm _ (r :: q ++ st)) by (simpl; by rewrite Permutation_middle).
    split; [|done]. by rewrite <- Permutation_middle.
  - exact local_release_spec.
  - exact idle_fits.
Defined.
End laws.
End Local.

(** ** The slurm and SGE backends: jobs spawned and not started yet are limited per set of resources *)
Module SpawnedMap.
Section ops.
Context {R : Type} `{Countable R}.
(** [RsrcsData::round] and [import_] of the backend *)
Context (round1 : R -> R) (import1 : vmap_ss -> Req -> Job -> outcome R).

Record t := mk { spawned_rsrcs : gmap R Z; n_max_queued_jobs : Z }.
Definition init (n_max : Z) : t := mk ∅ n_max.

Definition n_spawned (rs : R) (s : t) : Z := default 0 (spawned_rsrcs s !! rs).
Definition inc (rs : R) (s : t) : outcome t :=
  Ret (mk (<[rs := u32 (n_spawned rs s + 1)]> (spawned_rsrcs s)) (n_max_queued_jobs s)).
Definition dec (rs : R) (s : t) : outcome t :=
  match spawned_rsrcs s !! rs with
  | None => Crash
  | Some n =>
    let n := u32 (n - 1) in
    Ret (mk (if n =? 0 then delete rs (spawned_rsrcs s) else <[rs := n]> (spawned_rsrcs s)) (n_max_queued_jobs s))
  end.

#[export] Instance ops : RsrcOps R t := {|
  round _ r := Ret (round1 r);
  lacking_rsrc _ _ := None;
  fit_now s r := n_spawned r s <? n_max_queued_jobs s;
  acquire_rsrcs := inc;
  start_rsrcs := dec;
  end_rsrcs _ s := Ret s;
  import_ _ m q j := import1 m q j;
  call_launch_after_start := true;
  call_launch_after_end := false
|}.

(** The counter of a set of resources is the number of queued jobs that have it, and no counter is 0. *)
Definition count (r : R) (q : list R) : Z := Z.of_nat (length (filter (fun x => x = r) q)).
Definition accounts (s : t) (q st : list R) : Prop :=
  0 < n_max_queued_jobs s < 2 ^ 32 /\
  forall r, spawned_rsrcs s !! r = (if decide (count r q = 0) then None else Some (count r q)) /\
            count r q <= n_max_queued_jobs s.

Lemma count_cons r x q : count r (x :: q) = count r q + (if decide (x = r) then 1 else 0).
Proof. unfold count. rewrite filter_cons. case_decide; simpl; lia. Qed.

Lemma count_pos r q : 0 <= count r q.
Proof. unfold count. lia. Qed.

Lemma count_perm r q q' : q ≡ₚ q' -> count r q = count r q'.
Proof. intros Hq. unfold count. by rewrite Hq. Qed.

Lemma n_spawned_count s q st r : accounts s q st -> n_spawned r s = count r q.
Proof. intros [_ Hs]. unfold n_spawned. destruct (Hs r) as [-> _]. by case_decide. Qed.

Lemma inc_spec s r q st : accounts s q st -> (n_spawned r s <? n_max_queued_jobs s) = true ->
  exists s', inc r s = Ret s' /\ accounts s' (r :: q) st /\ n_max_queued_jobs s = n_max_queued_jobs s'.
Proof.
  intros Ha Hf. b2p. rewrite (n_spawned_count _ _ _ _ Ha) in Hf. pose proof Ha as [Hn Hs].
  eexists. split; [done|]. split; [|done]. split; [done|]. intros r'. simpl.
  rewrite (n_spawned_count _ _ _ _ Ha), count_cons. pose proof (count_pos r q). rewrite u32_small by lia.
  destruct (decide (r = r')) as [->|Hne].
  - rewrite lookup_insert_eq, decide_False by lia. split; [done|lia].
  - rewrite lookup_insert_ne, Z.add_0_r by done. apply Hs.
Qed.

Lemma dec_spec s r q st : accounts s (r :: q) st ->
  exists s', dec r s = Ret s' /\ accounts s' q (r :: st) /\ n_max_queued_jobs s = n_max_queued_jobs s'.
Proof.
  intros [Hn Hs]. pose proof (count_pos r q). destruct (Hs r) as [Er Hr].
  rewrite count_cons, (decide_True _ _ eq_refl) in Er, Hr. rewrite decide_False in Er by lia.
  unfold dec. rewrite Er. rewrite u32_small by lia. replace (count r q + 1 - 1) with (count r q) by lia.
  eexists. split; [done|]. split; [|done]. split; [done|]. intros r'. simpl.
  specialize (Hs r'). rewrite count_cons in Hs.
  destruct (decide (r = r')) as [->|Hne]; [|rewrite Z.add_0_r in Hs; destruct (_ =? 0);
    [by rewrite lookup_delete_ne|by rewrite lookup_insert_ne]].
  split; [|lia]. destruct (Z.eqb_spec (count r' q) 0).
  - by rewrite lookup_delete_eq, decide_True.
  - by rewrite lookup_insert_eq, decide_False.
Qed.

Context (import1_total : forall m q j, import1 m q j <> Crash).

#[export] Instance laws : RsrcLaws ops.
Proof.
  refine {| held := accounts; same s s' := n_max_queued_jobs s = n_max_queued_jobs s';
    valid _ _ := True; allowed _ _ := True |}; simpl.
  - split; [intros ?|intros ? ? ?|intros ? ? ?]; congruence.
  - intros s q q' Hq st st' Hst. unfold accounts.
    assert (forall r, count r q = count r q') as E by (intros; by apply count_perm).
    by split; intros [Hn Hs]; (split; [done|]); intros r; specialize (Hs r); rewrite (E r) in *.
  - done.
  - done.
  - done.
  - done.
  - done.
  - intros. apply import1_total.
  - intros s r _ _. by exists (round1 r).
  - intros s r q st Ha _. by apply inc_spec.
  - exact dec_spec.
  - intros s r q st Ha. by exists s.
  - intros s r Ha _. apply Z.ltb_lt. rewrite (n_spawned_count _ _ _ _ Ha). unfold count. simpl. apply Ha.
Defined.
End ops.
End SpawnedMap.

(** ** Resources of the SGE backend *)
Module Sge.
Record RsrcsData := mk {
  prio : Z; cpu : Z; mem : Z; tmp : Z;
  hard : list string; soft : list string; tokens : list (string * Z)
}.
Definition round (r : RsrcsData) : RsrcsData :=
  mk 0 (round_rsrc 32 (cpu r)) (round_rsrc 32 (mem r)) (round_rsrc 32 (tmp r)) (hard r) []
     ((fun kt => (kt.1, round_rsrc 64 kt.2)) <$> tokens r).

#[export] Instance RsrcsData_eq_dec : EqDecision RsrcsData.
Proof. solve_decision. Defined.
#[export] Instance RsrcsData_countable : Countable RsrcsData.
Proof.
  refine (inj_countable' (fun r => (prio r, cpu r, mem r, tmp r, hard r, soft r, tokens r))
    (fun '(p, c, m, t, h, s, k) => mk p c m t h s k) _). by intros [].
Defined.
End Sge.
