(* ===== verification/Backend.v ===== *)
(** * The job scheduler of a backend: [GenericBackend] of src/lmake_server/backends/generic.hh, with the
    information attached to a submission ([SubmitInfo] of src/lmake_server/job.x.hh, [JobReason] of
    src/rpc_job.hh).

    Handlers run with [_s_mutex] held. The launch thread takes the mutex to choose the jobs it launches, then
    launches them one by one without the mutex; its position is part of the state ([launcher]), so that the
    handlers interleave with it. *)
From S2P Require Import Prelude.
From S2P Require Import BackendRsrc.
Local Open Scope Z_scope.

(** ** [JobReason] *)
Module JobReason.
(** Tags are numbered in the order of [JobReasonTag]. *)
Definition prios : list Z :=
  [0; 1; 1; 20; 21; 22; 23; 41; 60; 61; 61; 62; 63; 64; 90; 10; 30; 31; 32; 33; 34; 35; 50; 50; 50; 51; 51; 70; 71; 71; 71; 80].
Record t := mk { node : Z; tag : Z }.
Definition prio (r : t) : Z := nth (Z.to_nat (tag r)) prios 0.
(** [operator|]: at equal level, prefer older reason *)
Definition or (a b : t) : t := if prio b <=? prio a then a else b.
End JobReason.

(** ** [SubmitInfo] *)
Module SubmitInfo.
(** [deps] holds the names of the dependencies and their digests, which are only compared *)
Record t := mk {
  cache_idx1 : Z; deps : vmap_ss; live_out : bool; local_reason : Z; nice : Z; pressure : Z;
  reason : JobReason.t; timeout : Z; tokens1 : Z
}.
(** Whether the parts that do not depend on the request agree *)
Definition agree_cache (a b : t) : bool := (cache_idx1 a =? 0) || (cache_idx1 b =? 0) || (cache_idx1 a =? cache_idx1 b).
Definition agree_deps (a b : t) : bool :=
  bool_decide (deps a = []) || bool_decide (deps b = []) || bool_decide (deps a = deps b).
(** [operator|=] *)
Definition merge (a b : t) : outcome t :=
  _ ← swear (agree_cache a b);
  _ ← swear (agree_deps a b);
  Ret (mk (if cache_idx1 a =? 0 then cache_idx1 b else cache_idx1 a)
          (if decide (deps a = []) then deps b else deps a)
          (live_out a || live_out b)
          (Z.max (local_reason a) (local_reason b))
          (Z.min (nice a) (nice b))
          (Z.max (pressure a) (pressure b))
          (JobReason.or (reason a) (reason b))
          (if timeout a =? 0 then timeout b else if timeout b =? 0 then timeout a else Z.min (timeout a) (timeout b))
          (Z.max (tokens1 a) (tokens1 b))).
End SubmitInfo.

Module GenericBackend.

(** [SpawnId] *)
Definition NoId : Z := -1.
Definition StartingId : Z := -2.
Definition FailedId : Z := -3.

Inductive HeartbeatState : Type := Alive | Lost | Err.

(** [PressureEntry]: pressure and job; higher pressures are first in a [::set<PressureEntry>] *)
Definition PressureEntry : Type := Z * Job.
Definition before (a b : PressureEntry) : bool := if a.1 =? b.1 then a.2 <=? b.2 else b.1 <? a.1.
(** [begin()] of the set *)
Definition first (q : gset PressureEntry) : option PressureEntry := set_begin before q.

Section backend.
Context {R S : Type} `{Countable R} {OP : RsrcOps R S}.
(** The order of the iteration over the queues of a request *)
Context (walk : gmap R (gset PressureEntry) -> list (R * gset PressureEntry)).

Record WaitEntry := mk_we { we_submit_info : SubmitInfo.t; we_rsrcs : R; we_n_reqs : Z; we_verbose : bool }.
Record SpawnedEntry := mk_se {
  se_rsrcs : R; se_rounded_rsrcs : R; se_timeout : Z; se_id : Z;
  se_started : bool; se_verbose : bool; se_zombie : bool; se_hold : bool
}.
Record ReqEntry := mk_re {
  re_queues : gmap R (gset PressureEntry);
  re_jobs : gmap Job Z;
  re_n_jobs : Z;
  re_verbose : bool
}.
(** [LaunchDescr]; the pointer to the entry is the job *)
Record LaunchDescr := mk_ld { ld_reqs : list Req; ld_prio : Z }.

(** Where the launch thread is; [todo] are the requests not walked through yet. *)
Inductive launcher : Type :=
| Sleeping
| Scanning (todo : list (Req * Z))
| Spawning (todo : list (Req * Z)) (ds : list (Job * LaunchDescr))
| Reporting (e : string) (todo : list (Req * Z)) (j : Job) (ds : list (Job * LaunchDescr))
| Releasing (todo : list (Req * Z)) (j : Job) (ds : list (Job * LaunchDescr)).

Record t := mk {
  reqs : gmap Req ReqEntry;
  n_n_jobs : Z;
  waiting_jobs : gmap Job WaitEntry;
  tab : gmap Job SpawnedEntry;
  zombies : list Job;
  msgs : gmap Job string;
  rsrcs : S;
  oldest : Z;
  wakeup : bool;
  pc : launcher;
  (** the calls to [acquire_cmd_line] *)
  acquired : list (Job * (list Req * SubmitInfo.t))
}.

Definition set_reqs x s := mk x (n_n_jobs s) (waiting_jobs s) (tab s) (zombies s) (msgs s) (rsrcs s) (oldest s) (wakeup s) (pc s) (acquired s).
Definition set_n_n_jobs x s := mk (reqs s) x (waiting_jobs s) (tab s) (zombies s) (msgs s) (rsrcs s) (oldest s) (wakeup s) (pc s) (acquired s).
Definition set_waiting x s := mk (reqs s) (n_n_jobs s) x (tab s) (zombies s) (msgs s) (rsrcs s) (oldest s) (wakeup s) (pc s) (acquired s).
Definition set_tab x z s := mk (reqs s) (n_n_jobs s) (waiting_jobs s) x z (msgs s) (rsrcs s) (oldest s) (wakeup s) (pc s) (acquired s).
Definition set_msgs x s := mk (reqs s) (n_n_jobs s) (waiting_jobs s) (tab s) (zombies s) x (rsrcs s) (oldest s) (wakeup s) (pc s) (acquired s).
Definition set_rsrcs x s := mk (reqs s) (n_n_jobs s) (waiting_jobs s) (tab s) (zombies s) (msgs s) x (oldest s) (wakeup s) (pc s) (acquired s).
Definition set_oldest x w s := mk (reqs s) (n_n_jobs s) (waiting_jobs s) (tab s) (zombies s) (msgs s) (rsrcs s) x w (pc s) (acquired s).
Definition set_pc x s := mk (reqs s) (n_n_jobs s) (waiting_jobs s) (tab s) (zombies s) (msgs s) (rsrcs s) (oldest s) (wakeup s) x (acquired s).
Definition set_acquired x s := mk (reqs s) (n_n_jobs s) (waiting_jobs s) (tab s) (zombies s) (msgs s) (rsrcs s) (oldest s) (wakeup s) (pc s) x.

(** A new backend; [n0] is the initial value of [n_n_jobs] *)
Definition init (n0 : Z) (r : S) : t := mk ∅ n0 ∅ ∅ [] ∅ r 0 false Sleeping [].

(** [at] of a map *)
Definition at_ {K A} `{Countable K} (m : gmap K A) (k : K) : outcome A :=
  match m !! k with Some a => Ret a | None => Crash end.

(** ** [SpawnedTab] *)

Definition size_ (s : t) : Z := Z.of_nat (size (tab s)) - Z.of_nat (length (zombies s)).
Definition find (j : Job) (s : t) : option SpawnedEntry :=
  match tab s !! j with Some se => if se_zombie se then None else Some se | None => None end.

Definition set_started (b : bool) (se : SpawnedEntry) : SpawnedEntry :=
  mk_se (se_rsrcs se) (se_rounded_rsrcs se) (se_timeout se) (se_id se) b (se_verbose se) (se_zombie se) (se_hold se).
Definition set_zombie (b : bool) (se : SpawnedEntry) : SpawnedEntry :=
  mk_se (se_rsrcs se) (se_rounded_rsrcs se) (se_timeout se) (se_id se) (se_started se) (se_verbose se) b (se_hold se).
Definition set_id (i : Z) (se : SpawnedEntry) : SpawnedEntry :=
  mk_se (se_rsrcs se) (se_rounded_rsrcs se) (se_timeout se) i (se_started se) (se_verbose se) (se_zombie se) (se_hold se).
Definition set_hold (b : bool) (se : SpawnedEntry) : SpawnedEntry :=
  mk_se (se_rsrcs se) (se_rounded_rsrcs se) (se_timeout se) (se_id se) (se_started se) (se_verbose se) (se_zombie se) b.
Definition set_verbose (b : bool) (se : SpawnedEntry) : SpawnedEntry :=
  mk_se (se_rsrcs se) (se_rounded_rsrcs se) (se_timeout se) (se_id se) (se_started se) b (se_zombie se) (se_hold se).

(** [create], with the fields the caller sets right after *)
Definition tab_create (j : Job) (rs rounded : R) (timeout : Z) (verbose : bool) (s : t) : outcome t :=
  r ← acquire_rsrcs rounded (rsrcs s);
  let se := default (mk_se rs rounded 0 NoId false false false false) (tab s !! j) in
  let se := mk_se (se_rsrcs se) (se_rounded_rsrcs se) timeout (se_id se) (se_started se) verbose (se_zombie se) (se_hold se) in
  Ret (set_tab (<[j := se]> (tab s)) (zombies s) (set_rsrcs r s)).

Definition tab_start (j : Job) (se : SpawnedEntry) (s : t) : outcome t :=
  _ ← swear (negb (se_zombie se));
  _ ← swear (negb (se_started se));
  r ← start_rsrcs (se_rounded_rsrcs se) (rsrcs s);
  Ret (set_tab (<[j := set_started true se]> (tab s)) (zombies s) (set_rsrcs r s)).

Definition tab_end (j : Job) (se : SpawnedEntry) (s : t) : outcome t :=
  _ ← swear (negb (se_zombie se));
  r ← (if se_started se then Ret (rsrcs s) else start_rsrcs (se_rounded_rsrcs se) (rsrcs s));
  r ← end_rsrcs (se_rounded_rsrcs se) r;
  let s := set_rsrcs r s in
  Ret (if se_hold se then set_tab (<[j := set_zombie true se]> (tab s)) (zombies s ++ [j]) s
       else set_tab (delete j (tab s)) (zombies s) s).

Definition flush (s : t) : t := set_tab (foldr delete (tab s) (zombies s)) [] s.

(** ** Requests *)

(** [ReqEntry::clear] *)
Definition re_clear (re : ReqEntry) : ReqEntry := mk_re ∅ ∅ (re_n_jobs re) (re_verbose re).

(** [n_n_jobs] is on 8 bits *)
Definition open_req (r : Req) (n_jobs : Z) (verbose : bool) (s : t) : outcome t :=
  let inserted := bool_decide (reqs s !! r = None) in
  let s := if inserted then set_reqs (<[r := mk_re ∅ ∅ n_jobs verbose]> (reqs s)) s else s in
  s ← (if n_jobs =? 0 then Ret s
       else let n := u8 (n_n_jobs s + 1) in _ ← swear (negb (n =? 0)); Ret (set_n_n_jobs n s));
  _ ← swear inserted;
  Ret s.

Definition close_req (r : Req) (s : t) : outcome t :=
  match reqs s !! r with
  | None => Ret s
  | Some re =>
    _ ← swear (bool_decide (re_jobs re = ∅));
    s ← (if re_n_jobs re =? 0 then Ret s
         else _ ← swear (negb (n_n_jobs s =? 0)); Ret (set_n_n_jobs (u8 (n_n_jobs s - 1)) s));
    let s := set_reqs (delete r (reqs s)) s in
    if decide (reqs s = ∅) then
      _ ← swear (bool_decide (waiting_jobs s = ∅));
      _ ← swear (bool_decide (tab s = ∅));
      Ret s
    else Ret s
  end.

(** ** Launch requests; [now] is the current date *)

Definition launch (s : t) : t := if oldest s =? 0 then s else set_oldest 0 true s.
Definition note_submit (now : Z) (s : t) : t := if oldest s =? 0 then set_oldest now (wakeup s) s else s.
Definition wake (s : t) : t := set_oldest (oldest s) true s.

(** ** Waiting jobs *)

(** Adds an entry to the queue of resources [key] *)
Definition enqueue (key : R) (pe : PressureEntry) (q : gmap R (gset PressureEntry)) : gmap R (gset PressureEntry) :=
  <[key := {[pe]} ∪ default ∅ (q !! key)]> q.

(** Registers job [j] with pressure [p] in request [r] *)
Definition add_job (key : R) (p : Z) (j : Job) (re : ReqEntry) : ReqEntry :=
  mk_re (enqueue key (p, j) (re_queues re)) (<[j := p]> (re_jobs re)) (re_n_jobs re) (re_verbose re).

Definition submit (now : Z) (j : Job) (r : Req) (si : SubmitInfo.t) (rs : vmap_ss) (s : t) : outcome t :=
  _ ← swear (bool_decide (waiting_jobs s !! j = None));
  rd ← import_ (rsrcs s) rs r j;
  re ← at_ (reqs s) r;
  _ ← swear (bool_decide (re_jobs re !! j = None));
  match lacking_rsrc (rsrcs s) rd with
  | Some (msg, consider) => Throw (msg +:+ " to launch job" +:+ (if decide (consider = EmptyString) then EmptyString else " consider : " +:+ consider))
  | None =>
    key ← round (rsrcs s) rd;
    let re' := add_job key (SubmitInfo.pressure si) j re in
    let s := set_reqs (<[r := re']> (reqs s)) s in
    let s := set_waiting (<[j := mk_we si rd 1 (re_verbose re)]> (waiting_jobs s)) s in
    let s := note_submit now s in
    Ret (if 1000 <? Z.of_nat (size (re_jobs re')) then launch s else s)
  end.

Definition add_pressure (j : Job) (r : Req) (si : SubmitInfo.t) (s : t) : outcome t :=
  re ← at_ (reqs s) r;
  match waiting_jobs s !! j with
  | None =>
    match find j s with
    | None => Ret s
    | Some se => Ret (if re_verbose re then set_tab (<[j := set_verbose true se]> (tab s)) (zombies s) s else s)
    end
  | Some we =>
    _ ← swear (bool_decide (re_jobs re !! j = None));
    key ← round (rsrcs s) (we_rsrcs we);
    let s := set_reqs (<[r := add_job key (SubmitInfo.pressure si) j re]> (reqs s)) s in
    si ← SubmitInfo.merge (we_submit_info we) si;
    Ret (set_waiting (<[j := mk_we si (we_rsrcs we) (u8 (we_n_reqs we + 1)) (we_verbose we || re_verbose re)]> (waiting_jobs s)) s)
  end.

Definition set_pressure (j : Job) (r : Req) (si : SubmitInfo.t) (s : t) : outcome t :=
  re ← at_ (reqs s) r;
  match waiting_jobs s !! j with
  | None => Ret s
  | Some we =>
    old ← at_ (re_jobs re) j;
    key ← round (rsrcs s) (we_rsrcs we);
    q ← at_ (re_queues re) key;
    let p := SubmitInfo.pressure si in
    si ← SubmitInfo.merge (we_submit_info we) si;
    let q := {[(p, j)]} ∪ q ∖ {[(old, j)]} in
    let re := mk_re (<[key := q]> (re_queues re)) (<[j := p]> (re_jobs re)) (re_n_jobs re) (re_verbose re) in
    let s := set_waiting (<[j := mk_we si (we_rsrcs we) (we_n_reqs we) (we_verbose we)]> (waiting_jobs s)) s in
    Ret (set_reqs (<[r := re]> (reqs s)) s)
  end.

(** [kill_waiting_jobs]: the jobs that were waiting; request 0 stands for all requests *)
Definition kill_one (o : outcome (gmap Job WaitEntry * list Job)) (j : Job) : outcome (gmap Job WaitEntry * list Job) :=
  '(w, res) ← o;
  we ← at_ w j;
  _ ← swear (negb (we_n_reqs we =? 0));
  Ret (if we_n_reqs we =? 1 then delete j w
       else <[j := mk_we (we_submit_info we) (we_rsrcs we) (we_n_reqs we - 1) (we_verbose we)]> w,
       res ++ [j]).
Definition kill_waiting_jobs (r : Req) (s : t) : outcome (t * list Job) :=
  if (r =? 0) || (Z.of_nat (size (reqs s)) <=? 1) then
    _ ← (if r =? 0 then Ret tt else swear (bool_decide (dom (reqs s) = {[r]})));
    Ret (set_reqs (re_clear <$> reqs s) (set_waiting ∅ s), (map_to_list (waiting_jobs s)).*1)
  else
    re ← at_ (reqs s) r;
    '(w, res) ← foldl kill_one (Ret (waiting_jobs s, [])) (map_to_list (re_jobs re)).*1;
    Ret (set_reqs (<[r := re_clear re]> (reqs s)) (set_waiting w s), res).

(** ** Spawned jobs *)

(** The handlers below wait until the launch thread has recorded the job: they are only run when the
    identifier of the job is not [StartingId]. *)

Definition start (j : Job) (s : t) : outcome t :=
  match find j s with
  | None => Ret s
  | Some se =>
    s ← tab_start j se s;
    Ret (if call_launch_after_start then wake s else s)
  end.

Definition end_ (j : Job) (s : t) : outcome t :=
  match find j s with
  | None => Ret s
  | Some se =>
    _ ← swear (se_started se);
    s ← tab_end j se s;
    Ret (if negb (n_n_jobs s =? 0) || call_launch_after_end then wake s else s)
  end.

(** [kill_job]; the process is killed by [kill_queued_job], which has no effect on the state *)
Definition kill_job (j : Job) (s : t) : outcome t :=
  match find j s with
  | None => Ret s
  | Some se =>
    _ ← swear (negb (se_started se));
    tab_end j se s
  end.

(** [heartbeat] of the backend, [period] is the configured heartbeat *)
Definition heartbeat (period now : Z) (s : t) : t := if oldest s + period <? now then launch s else s.

(** [heartbeat] of a job; [digest] is what [heartbeat_queued_job] answers *)
Definition heartbeat_job (now : Z) (j : Job) (digest : HeartbeatState) (s : t) : outcome (t * HeartbeatState) :=
  match find j s with
  | None => Crash
  | Some se =>
    _ ← swear (negb (se_started se));
    if (se_id se =? NoId) || (se_id se =? StartingId) then Ret (s, Alive)
    else if se_id se =? FailedId then
      s ← tab_end j se s;
      let s := launch (note_submit now s) in
      _ ← at_ (msgs s) j;
      Ret (set_msgs (delete j (msgs s)) s, Err)
    else
      match digest with
      | Alive => Ret (s, Alive)
      | _ => s ← tab_end j se s; Ret (launch (note_submit now s), digest)
      end
  end.

(** ** The launch thread *)

(** Whether the first pressure of [q] is not above the one of the candidate *)
Definition not_better (q : gset PressureEntry) (cand : option (R * gset PressureEntry)) : outcome bool :=
  match cand with
  | None => Ret false
  | Some (_, qc) =>
    match first q, first qc with Some p, Some pc => Ret (p.1 <=? pc.1) | _, _ => Crash end
  end.

(** The queue whose first job has the highest pressure among the queues that fit *)
Fixpoint find_candidate (rs : S) (l : list (R * gset PressureEntry)) (cand : option (R * gset PressureEntry)) :
  outcome (option (R * gset PressureEntry)) :=
  match l with
  | [] => Ret cand
  | (r, q) :: l =>
    skip ← not_better q cand;
    find_candidate rs l (if (skip : bool) then cand else if fit_now rs r then Some (r, q) else cand)
  end.

(** Removes an entry of a queue, and the queue with its last entry *)
Definition dequeue (key : R) (q : gset PressureEntry) (pe : PressureEntry) (qs : gmap R (gset PressureEntry)) :
  gmap R (gset PressureEntry) :=
  if decide (size q = 1)%nat then delete key qs else <[key := q ∖ {[pe]}]> qs.

(** Another request that waits for the launched job does not wait for it anymore *)
Definition drop_other (key : R) (j : Job) (re : ReqEntry) : outcome ReqEntry :=
  p ← at_ (re_jobs re) j;
  q ← at_ (re_queues re) key;
  _ ← swear (bool_decide ((p, j) ∈ q));
  Ret (mk_re (dequeue key q (p, j) (re_queues re)) (delete j (re_jobs re)) (re_n_jobs re) (re_verbose re)).
Fixpoint drop_others (key : R) (j : Job) (rs : list Req) (m : gmap Req ReqEntry) : outcome (gmap Req ReqEntry) :=
  match rs with
  | [] => Ret m
  | r :: rs =>
    re ← at_ m r;
    re ← drop_other key j re;
    drop_others key j rs (<[r := re]> m)
  end.

(** The other requests that wait for job [j] *)
Definition others (req : Req) (j : Job) (m : gmap Req ReqEntry) : list Req :=
  omap (fun kv => if decide (kv.1 <> req /\ is_Some (re_jobs kv.2 !! j)) then Some kv.1 else None) (map_to_list m).

(** Launches the first job of queue [key] of request [req] *)
Definition launch_one (req : Req) (eta : Z) (key : R) (q : gset PressureEntry) (s : t) : outcome (t * (Job * LaunchDescr)) :=
  match first q with
  | None => Crash
  | Some (p, j) =>
    we ← at_ (waiting_jobs s) j;
    s ← tab_create j (we_rsrcs we) key (SubmitInfo.timeout (we_submit_info we)) (we_verbose we) s;
    re ← at_ (reqs s) req;
    _ ← swear (bool_decide (is_Some (re_jobs re !! j)));
    let rs := req :: others req j (reqs s) in
    let re := mk_re (dequeue key q (p, j) (re_queues re)) (delete j (re_jobs re)) (re_n_jobs re) (re_verbose re) in
    m ← drop_others key j (others req j (reqs s)) (<[req := re]> (reqs s));
    let s := set_acquired (acquired s ++ [(j, (rs, we_submit_info we))]) (set_reqs m s) in
    Ret (set_waiting (delete j (waiting_jobs s)) s, (j, mk_ld rs (eta - p)))
  end.

(** The [while] loop; [n_jobs] is read before the loop. Each iteration removes a waiting job. *)
Fixpoint launch_loop (fuel : nat) (req : Req) (eta n_jobs : Z) (s : t) : outcome (t * list (Job * LaunchDescr)) :=
  match fuel with
  | O => Crash
  | Datatypes.S fuel =>
    if negb (n_jobs =? 0) && (n_jobs <=? size_ s) then Ret (s, [])
    else
      re ← at_ (reqs s) req;
      c ← find_candidate (rsrcs s) (walk (re_queues re)) None;
      match c with
      | None => Ret (s, [])
      | Some (key, q) =>
        '(s, d) ← launch_one req eta key q s;
        '(s, ds) ← launch_loop fuel req eta n_jobs s;
        Ret (s, d :: ds)
      end
  end.

(** [ld.entry->id = StartingId ; ld.entry->hold = true] for the jobs to launch *)
Definition mark_starting (ds : list (Job * LaunchDescr)) (m : gmap Job SpawnedEntry) : gmap Job SpawnedEntry :=
  foldl (fun m d => alter (fun se => set_hold true (set_id StartingId se)) d.1 m) m ds.

(** The part of the loop on requests that runs with the mutex held *)
Definition launch_req (req : Req) (eta : Z) (s : t) : outcome (t * list (Job * LaunchDescr)) :=
  let s := flush s in
  match reqs s !! req with
  | None => Ret (s, [])
  | Some re =>
    '(s, ds) ← launch_loop (Datatypes.S (size (waiting_jobs s))) req eta (re_n_jobs re) s;
    Ret (set_tab (mark_starting ds (tab s)) (zombies s) s, ds)
  end.

(** [SpawnedEntry& se = *ld.entry]: the entry must still be there *)
Definition update (j : Job) (f : SpawnedEntry -> SpawnedEntry) (s : t) : outcome t :=
  se ← at_ (tab s) j;
  Ret (set_tab (<[j := f se]> (tab s)) (zombies s) s).

(** What [launch_job] does: it returns an identifier or throws *)
Definition launch_result : Type := Z + string.

(** A step of the launch thread; [etas] is [Req::s_etas()] and [res] the result of [launch_job] when the
    step needs them *)
Definition launcher_step (etas : list (Req * Z)) (res : launch_result) (s : t) : outcome t :=
  match pc s with
  | Sleeping => Ret (if wakeup s then set_pc (Scanning etas) (set_oldest (oldest s) false s) else s)
  | Scanning [] => Ret (set_pc Sleeping s)
  | Scanning ((req, eta) :: todo) =>
    '(s, ds) ← launch_req req eta s;
    Ret (set_pc (Spawning todo ds) s)
  | Spawning todo [] => Ret (set_pc (Scanning todo) s)
  | Spawning todo ((j, _) :: ds) =>
    se ← at_ (tab s) j;
    if se_zombie se then s ← update j (set_id NoId) s; Ret (set_pc (Releasing todo j ds) s)
    else
      match res with
      | inl id =>
        s ← update j (set_id id) s;
        _ ← swear (0 <=? id);
        Ret (set_pc (Releasing todo j ds) s)
      | inr e =>
        s ← update j (set_id FailedId) s;
        Ret (set_pc (Reporting e todo j ds) s)
      end
  | Reporting e todo j ds => Ret (set_pc (Releasing todo j ds) (set_msgs (<[j := e]> (msgs s)) s))
  | Releasing todo j ds =>
    s ← update j (set_hold false) s;
    Ret (set_pc (Spawning todo ds) s)
  end.

(** Whether the next step of the launch thread takes [_s_mutex]; the launches and what follows them do not *)
Definition needs_mutex (p : launcher) : bool := match p with Scanning (_ :: _) => true | _ => false end.
(** A step of the launch thread while a handler holds the mutex: it waits if it needs it *)
Definition launcher_step_held (etas : list (Req * Z)) (res : launch_result) (s : t) : outcome t :=
  if needs_mutex (pc s) then Ret s else launcher_step etas res s.

(** ** Events *)

Inductive event : Type :=
| OpenReq (r : Req) (n_jobs : Z) (verbose : bool)
| CloseReq (r : Req)
| Submit (now : Z) (j : Job) (r : Req) (si : SubmitInfo.t) (rs : vmap_ss)
| AddPressure (j : Job) (r : Req) (si : SubmitInfo.t)
| SetPressure (j : Job) (r : Req) (si : SubmitInfo.t)
| Start (j : Job)
| End (j : Job)
| KillJob (j : Job)
| KillWaiting (r : Req)
| Heartbeat (period now : Z)
| HeartbeatJob (now : Z) (j : Job) (digest : HeartbeatState)
| Launch
| Launcher (etas : list (Req * Z)) (res : launch_result).

Definition exec (e : event) (s : t) : outcome t :=
  match e with
  | OpenReq r n v => open_req r n v s
  | CloseReq r => close_req r s
  | Submit now j r si rs => submit now j r si rs s
  | AddPressure j r si => add_pressure j r si s
  | SetPressure j r si => set_pressure j r si s
  | Start j => start j s
  | End j => end_ j s
  | KillJob j => kill_job j s
  | KillWaiting r => '(s, _) ← kill_waiting_jobs r s; Ret s
  | Heartbeat period now => Ret (heartbeat period now s)
  | HeartbeatJob now j d => '(s, _) ← heartbeat_job now j d s; Ret s
  | Launch => Ret (launch s)
  | Launcher etas res => launcher_step etas res s
  end.
End backend.
#[global] Arguments t : clear implicits.
#[global] Arguments WaitEntry : clear implicits.
#[global] Arguments SpawnedEntry : clear implicits.
#[global] Arguments ReqEntry R {_ _}.
#[global] Arguments t R S {_ _}.
#[global] Arguments launch : simpl never.
#[global] Arguments note_submit : simpl never.
#[global] Arguments wake : simpl never.
End GenericBackend.
