(* ===== verification/BackendInv.v ===== *)
(** * Invariants of the job scheduler: counting the entries of a map, the resources of the spawned jobs, and
    what holds between two events of [GenericBackend]. *)
From S2P Require Import Prelude.
From S2P Require Import BackendRsrc.
From S2P Require Import Backend.
Local Open Scope Z_scope.

(** ** Counting the entries of a map *)
Section cnt.
Context {K A : Type} `{Countable K} (P : A -> Prop) `{!forall a, Decision (P a)}.
Implicit Types m : gmap K A.

Definition cnt m : Z := Z.of_nat (size (filter (fun kv => P kv.2) m)).
Definition one (a : A) : Z := if decide (P a) then 1 else 0.

Lemma cnt_insert_new m k a : m !! k = None -> cnt (<[k := a]> m) = cnt m + one a.
Proof.
  intros Hk. unfold cnt, one. case_decide as Ha.
  - rewrite map_filter_insert_True, map_size_insert_None by (try done; by apply map_lookup_filter_None_2; left). lia.
  - rewrite map_filter_insert_not' by (intros; simplify_eq/=; congruence). lia.
Qed.

Lemma cnt_delete m k a : m !! k = Some a -> cnt (delete k m) = cnt m - one a.
Proof.
  intros Hk. rewrite <- (insert_delete_id m k a Hk) at 2. rewrite cnt_insert_new by apply lookup_delete_eq. lia.
Qed.

Lemma cnt_insert m k a b : m !! k = Some a -> cnt (<[k := b]> m) = cnt m - one a + one b.
Proof.
  intros Hk. rewrite <- insert_delete_eq, cnt_insert_new by apply lookup_delete_eq. by rewrite (cnt_delete _ _ _ Hk).
Qed.

Lemma cnt_same m k a b : m !! k = Some a -> (P a <-> P b) -> cnt (<[k := b]> m) = cnt m.
Proof. intros Hk E. rewrite (cnt_insert _ _ _ _ Hk). unfold one. repeat case_decide; tauto || lia. Qed.

Lemma cnt_empty : cnt ∅ = 0.
Proof. unfold cnt. by rewrite map_filter_empty, map_size_empty. Qed.

Lemma cnt_nonneg m : 0 <= cnt m.
Proof. unfold cnt. lia. Qed.

Lemma cnt_pos m : 0 < cnt m <-> exists k a, m !! k = Some a /\ P a.
Proof.
  unfold cnt. split.
  - intros Hs. destruct (map_choose (filter (fun kv => P kv.2) m)) as (k & a & Hk).
    { intros E. rewrite E, map_size_empty in Hs. lia. }
    apply map_lookup_filter_Some in Hk as [??]. eauto.
  - intros (k & a & Hk & Ha). destruct (decide (size (filter (fun kv => P kv.2) m) = 0%nat)) as [E|]; [|lia].
    apply map_size_empty_inv in E. assert (filter (fun kv => P kv.2) m !! k = Some a) as Hf by (by apply map_lookup_filter_Some).
    by rewrite E, lookup_empty in Hf.
Qed.

Lemma cnt_le m : cnt m <= Z.of_nat (size m).
Proof.
  unfold cnt. apply inj_le. rewrite <- !size_dom. apply subseteq_size. apply dom_filter_subseteq.
Qed.

Lemma cnt_fmap (f : A -> A) m : (forall a, P (f a) <-> P a) -> cnt (f <$> m) = cnt m.
Proof.
  intros Hf. unfold cnt. rewrite map_filter_fmap, map_size_fmap. do 2 f_equal. apply map_filter_ext. intros k a _. apply Hf.
Qed.

Lemma one_true a : P a -> one a = 1.
Proof. intros. unfold one. by rewrite decide_True. Qed.
Lemma one_false a : ~ P a -> one a = 0.
Proof. intros. unfold one. by rewrite decide_False. Qed.
End cnt.

(** ** What a map holds, as a list *)
Section collect.
Context {K A B : Type} `{Countable K} (f : A -> option B).
Implicit Types m : gmap K A.

Definition collect m : list B := omap (fun kv => f kv.2) (map_to_list m).

Lemma collect_new m k a : m !! k = None -> collect (<[k := a]> m) ≡ₚ option_list (f a) ++ collect m.
Proof.
  intros Hk. unfold collect. rewrite (omap_Permutation _ _ _ (map_to_list_insert m k a Hk)). simpl. by destruct (f a).
Qed.

Lemma collect_delete m k a : m !! k = Some a -> collect m ≡ₚ option_list (f a) ++ collect (delete k m).
Proof.
  intros Hk. rewrite <- (insert_delete_id m k a Hk) at 1. rewrite collect_new by apply lookup_delete_eq. done.
Qed.

Lemma collect_insert m k a : collect (<[k := a]> m) ≡ₚ option_list (f a) ++ collect (delete k m).
Proof. rewrite <- insert_delete_eq. apply collect_new, lookup_delete_eq. Qed.

Lemma collect_replace m k a b : m !! k = Some a -> f a = f b -> collect (<[k := b]> m) ≡ₚ collect m.
Proof. intros Hk E. by rewrite collect_insert, (collect_delete m k a Hk), E. Qed.

Lemma collect_drop m k a : m !! k = Some a -> f a = None -> collect (delete k m) ≡ₚ collect m.
Proof. intros Hk E. by rewrite (collect_delete m k a Hk), E. Qed.
End collect.

Module BackendInv.
Import GenericBackend.

(** [first] is the entry with the highest pressure. *)
Lemma pressure_total a b : before a b = true \/ before b a = true.
Proof. unfold before. destruct (Z.eqb_spec a.1 b.1), (Z.eqb_spec b.1 a.1); try lia; rewrite ?Z.leb_le, ?Z.ltb_lt; lia. Qed.

Lemma before_pressure a b : before a b = true -> b.1 <= a.1.
Proof. unfold before. destruct (Z.eqb_spec a.1 b.1); rewrite ?Z.leb_le, ?Z.ltb_lt; lia. Qed.

Lemma pressure_trans a b c : before a b = true -> before b c = true -> before a c = true.
Proof.
  unfold before. destruct (Z.eqb_spec a.1 b.1), (Z.eqb_spec b.1 c.1), (Z.eqb_spec a.1 c.1); rewrite ?Z.leb_le, ?Z.ltb_lt; lia.
Qed.

Lemma first_spec q : match first q with
  | None => q = ∅
  | Some x => x ∈ q /\ forall y, y ∈ q -> before x y = true
  end.
Proof. apply set_begin_spec; [apply pressure_total|apply pressure_trans]. Qed.

Lemma at_Some {K A} `{Countable K} (m : gmap K A) k a : m !! k = Some a -> at_ m k = Ret a.
Proof. unfold at_. by intros ->. Qed.

Section inv.
Context {R S : Type} `{Countable R} {OP : RsrcOps R S} {L : RsrcLaws OP}.
Implicit Types (s : t R S) (se : SpawnedEntry R) (re : ReqEntry R) (m : gmap Req (ReqEntry R)).

(** Whether a request waits for job [j] *)
Definition awaits (j : Job) (re : ReqEntry R) : Prop := is_Some (re_jobs re !! j).
#[export] Instance awaits_dec j re : Decision (awaits j re).
Proof. unfold awaits. apply _. Defined.
Definition limited (re : ReqEntry R) : Prop := re_n_jobs re <> 0.
#[export] Instance limited_dec re : Decision (limited re).
Proof. unfold limited. apply _. Defined.

(** The queues of a request hold exactly the jobs it waits for, each one at its pressure, in the queue of its
    rounded resources, and no queue is empty. *)
Record queues (w : gmap Job (WaitEntry R)) (rs : S) (re : ReqEntry R) : Prop := {
  q_in : forall key q p j, re_queues re !! key = Some q -> (p, j) ∈ q ->
    re_jobs re !! j = Some p /\ exists we, w !! j = Some we /\ round rs (we_rsrcs we) = Ret key;
  q_out : forall p j, re_jobs re !! j = Some p -> exists we key q,
    w !! j = Some we /\ round rs (we_rsrcs we) = Ret key /\ re_queues re !! key = Some q /\ (p, j) ∈ q;
  q_nonempty : forall key q, re_queues re !! key = Some q -> q <> ∅
}.

(** A waiting job can be launched with its resources; it is counted once per request that waits for it. *)
Definition waits m (rs : S) (j : Job) (we : WaitEntry R) : Prop :=
  valid rs (we_rsrcs we) /\ lacking_rsrc rs (we_rsrcs we) = None /\
  we_n_reqs we = cnt (awaits j) m /\ 0 < we_n_reqs we.

Definition Waits m (w : gmap Job (WaitEntry R)) (rs : S) : Prop :=
  map_Forall (fun _ => queues w rs) m /\ map_Forall (waits m rs) w.

Definition Reqs m (n : Z) : Prop := (forall r, is_Some (m !! r) -> 0 < r < 256) /\ n = cnt limited m.

(** Resources of the queued and of the started jobs *)
Definition queued_rsrcs (se : SpawnedEntry R) : option R :=
  if se_zombie se || se_started se then None else Some (se_rounded_rsrcs se).
Definition started_rsrcs (se : SpawnedEntry R) : option R :=
  if se_zombie se || negb (se_started se) then None else Some (se_rounded_rsrcs se).

(** The resources account for the live jobs, the zombies are listed. *)
Definition Spawned (tb : gmap Job (SpawnedEntry R)) (z : list Job) (rs : S) : Prop :=
  held rs (collect queued_rsrcs tb) (collect started_rsrcs tb) /\ NoDup z /\
  forall j, j ∈ z <-> exists se, tb !! j = Some se /\ se_zombie se = true.

(** The jobs the launch thread still has a pointer to, and those it has not tried to launch yet *)
Definition pending (p : launcher) : list Job :=
  match p with
  | Spawning _ ds => ds.*1
  | Reporting _ _ j ds | Releasing _ j ds => j :: ds.*1
  | _ => []
  end.
Definition starting (p : launcher) : list Job :=
  match p with Spawning _ ds | Reporting _ _ _ ds | Releasing _ _ ds => ds.*1 | _ => [] end.
Definition reports (j : Job) (p : launcher) : Prop := exists e todo ds, p = Reporting e todo j ds.

(** What the launch thread relies on for entry [se] of job [j] *)
Record entry (p : launcher) (msg : gmap Job string) (j : Job) (se : SpawnedEntry R) : Prop := {
  e_hold : se_hold se = true <-> j ∈ pending p;
  e_start : se_id se = StartingId <-> j ∈ starting p;
  e_live : j ∈ starting p -> se_zombie se = false;
  e_msg : se_zombie se = false -> se_id se = FailedId -> is_Some (msg !! j) \/ reports j p
}.
Definition Launches (tb : gmap Job (SpawnedEntry R)) (msg : gmap Job string) (p : launcher) : Prop :=
  NoDup (pending p) /\ (forall j, j ∈ pending p -> is_Some (tb !! j)) /\ map_Forall (entry p msg) tb.

Record Inv s : Prop := {
  i_waits : Waits (reqs s) (waiting_jobs s) (rsrcs s);
  i_reqs : Reqs (reqs s) (n_n_jobs s);
  i_spawned : Spawned (tab s) (zombies s) (rsrcs s);
  i_launches : Launches (tab s) (msgs s) (pc s);
  i_disj : forall j, is_Some (waiting_jobs s !! j) -> find j s = None
}.

Lemma backend_init_inv (rs : S) : held rs [] [] -> Inv (init 0 rs).
Proof.
  intros Hh. split; simpl.
  - split; apply map_Forall_empty.
  - split; [|by rewrite cnt_empty]. intros r [? Hr]. by rewrite lookup_empty in Hr.
  - split_and!; [exact Hh|constructor|]. intros j. split; [intros Hj; by apply not_elem_of_nil in Hj|].
    intros (? & Hj & _). by rewrite lookup_empty in Hj.
  - split_and!; [constructor|set_solver|apply map_Forall_empty].
  - intros j [? Hj]. by rewrite lookup_empty in Hj.
Qed.

(** ** Frames *)

Lemma Waits_same m w rs rs' : same rs rs' -> Waits m w rs -> Waits m w rs'.
Proof.
  intros Hs [Hq Hw]. split.
  - intros r re Hr. destruct (Hq r re Hr) as [Hi Ho Hn]. split; [|by setoid_rewrite <- (round_same _ _ _ Hs)|done].
    intros key q p j Hk Hp. setoid_rewrite <- (round_same _ _ _ Hs). by eapply Hi.
  - intros j we Hj. destruct (Hw j we Hj) as (Hv & Hl & Hn). split; [by eapply valid_same|].
    by rewrite <- (lacking_same _ _ _ Hs).
Qed.

Lemma cnt_reqs m n (P : ReqEntry R -> Prop) `{!forall a, Decision (P a)} : Reqs m n -> cnt P m <= 255.
Proof.
  intros [Hm _]. etransitivity; [apply cnt_le|]. rewrite <- size_dom.
  assert (dom m ⊆ list_to_set (seqZ 1 255)) as Hsub.
  { intros r Hr. apply elem_of_dom in Hr. apply elem_of_list_to_set, elem_of_seqZ. specialize (Hm r Hr). lia. }
  apply subseteq_size in Hsub. rewrite size_list_to_set, length_seqZ in Hsub by apply NoDup_seqZ. lia.
Qed.

(** A waiting job has a queue. *)
Lemma waits_round m w rs j we : Waits m w rs -> w !! j = Some we -> exists key, round rs (we_rsrcs we) = Ret key /\ allowed rs key.
Proof. intros [_ Hw] Hj. destruct (Hw j we Hj) as (Hv & Hl & _). by apply round_ok. Qed.

Lemma find_Some s j se : find j s = Some se <-> tab s !! j = Some se /\ se_zombie se = false.
Proof. unfold find. destruct (tab s !! j) as [se'|]; [destruct (se_zombie se') eqn:E|]; naive_solver congruence. Qed.

(** ** The states of a job: "a job may have 3 states" *)

Inductive JobState : Type :=
| JWaiting (pressures : gmap Req Z)
| JQueued
| JStarted.

(** The requests that wait for job [j], with its pressure for each of them *)
Definition pressures (j : Job) m : gmap Req Z := omap (fun re => re_jobs re !! j) m.

Definition state s (j : Job) : option JobState :=
  if decide (is_Some (waiting_jobs s !! j)) then Some (JWaiting (pressures j (reqs s)))
  else (fun se => if se_started se then JStarted else JQueued) <$> find j s.

Lemma pressures_insert j m r re : pressures j (<[r := re]> m) =
  match re_jobs re !! j with Some p => <[r := p]> (pressures j m) | None => delete r (pressures j m) end.
Proof. unfold pressures. rewrite omap_insert. by destruct (re_jobs re !! j). Qed.

Lemma pressures_lookup j m r p : pressures j m !! r = Some p <-> exists re, m !! r = Some re /\ re_jobs re !! j = Some p.
Proof. unfold pressures. rewrite lookup_omap, bind_Some. done. Qed.

Lemma find_None s j : find j s = None <-> forall se, tab s !! j = Some se -> se_zombie se = true.
Proof. unfold find. destruct (tab s !! j) as [se'|]; [destruct (se_zombie se') eqn:E|]; naive_solver congruence. Qed.
End inv.
End BackendInv.
