(* ===== verification/BackendOps.v ===== *)
(** * The handlers of [GenericBackend] keep its invariant and do not stop the server, and what they do to the
    jobs. *)
From S2P Require Import Prelude.
From S2P Require Import BackendRsrc.
From S2P Require Import Backend.
From S2P Require Import BackendInv.
Local Open Scope Z_scope.

Module BackendOps.
Import GenericBackend BackendInv.
Section ops.
Context {R S : Type} `{Countable R} {OP : RsrcOps R S} {L : RsrcLaws OP}.
Implicit Types (s : t R S) (se : SpawnedEntry R) (re : ReqEntry R) (m : gmap Req (ReqEntry R)) (tb : gmap Job (SpawnedEntry R)) (r : Req) (j : Job).

(** ** Spawned jobs *)

Lemma Launches_update tb msg p j se' : is_Some (tb !! j) -> @entry R p msg j se' -> Launches tb msg p ->
  Launches (<[j := se']> tb) msg p.
Proof.
  intros Hj He (Hd & Hp & Ht). split_and!; [done| |by apply map_Forall_insert_2].
  intros j' Hj'. destruct (decide (j = j')) as [->|]; [rewrite lookup_insert_eq; eauto|rewrite lookup_insert_ne by done; auto].
Qed.

Lemma Launches_delete (tb : gmap Job (SpawnedEntry R)) msg p j : j ∉ pending p -> Launches tb msg p -> Launches (delete j tb) msg p.
Proof.
  intros Hj (Hd & Hp & Ht). split_and!; [done| |by apply map_Forall_delete].
  intros j' Hj'. rewrite lookup_delete_ne by (intros ->; contradiction). auto.
Qed.

Lemma Spawned_zombie tb z (rs : S) j se : tb !! j = Some se -> se_zombie se = false -> Spawned tb z rs -> j ∉ z.
Proof. intros Hj Hz (_ & _ & Hs) Hin. apply Hs in Hin as (se' & Hj' & Hz'). congruence. Qed.

(** Updates of an entry that keep its resources *)
Lemma Spawned_update tb z (rs : S) j se se' : tb !! j = Some se ->
  queued_rsrcs se = queued_rsrcs se' -> started_rsrcs se = started_rsrcs se' -> se_zombie se = se_zombie se' ->
  Spawned tb z rs -> Spawned (<[j := se']> tb) z rs.
Proof.
  intros Hj Hq Hst Hz (Hh & Hd & Hs). split_and!; [|done|].
  - eapply held_perm; [..|exact Hh]; by eapply collect_replace.
  - intros j'. rewrite Hs. destruct (decide (j = j')) as [->|]; [|by rewrite lookup_insert_ne].
    rewrite lookup_insert_eq, Hj. naive_solver congruence.
Qed.

Lemma live_rsrcs se : se_zombie se = false ->
  queued_rsrcs se = (if se_started se then None else Some (se_rounded_rsrcs se)) /\
  started_rsrcs se = (if se_started se then Some (se_rounded_rsrcs se) else None).
Proof. intros Hz. unfold queued_rsrcs, started_rsrcs. rewrite Hz. by destruct (se_started se). Qed.

(** Accounts of a queued job, of a started one *)
Lemma held_queued tb (rs : S) j se : tb !! j = Some se -> se_zombie se = false -> se_started se = false ->
  held rs (collect queued_rsrcs tb) (collect started_rsrcs tb) ->
  held rs (se_rounded_rsrcs se :: collect queued_rsrcs (delete j tb)) (collect started_rsrcs (delete j tb)).
Proof.
  intros Hj Hz Hs Hh. destruct (live_rsrcs se Hz) as [Eq Es]. rewrite Hs in *.
  eapply held_perm; [..|exact Hh]; symmetry.
  - by rewrite (collect_delete _ _ _ _ Hj), Eq.
  - by rewrite (collect_delete _ _ _ _ Hj), Es.
Qed.

Lemma held_started tb (rs : S) j se : tb !! j = Some se -> se_zombie se = false -> se_started se = true ->
  held rs (collect queued_rsrcs tb) (collect started_rsrcs tb) ->
  held rs (collect queued_rsrcs (delete j tb)) (se_rounded_rsrcs se :: collect started_rsrcs (delete j tb)).
Proof.
  intros Hj Hz Hs Hh. destruct (live_rsrcs se Hz) as [Eq Es]. rewrite Hs in *.
  eapply held_perm; [..|exact Hh]; symmetry.
  - by rewrite (collect_delete _ _ _ _ Hj), Eq.
  - by rewrite (collect_delete _ _ _ _ Hj), Es.
Qed.

(** The state differs from [s] only by the resources and the spawned jobs other than by job [j], which is
    described by [o]. *)
Definition only_job (j : Job) (o : option (SpawnedEntry R)) s s' : Prop :=
  reqs s' = reqs s /\ n_n_jobs s' = n_n_jobs s /\ waiting_jobs s' = waiting_jobs s /\ msgs s' = msgs s /\
  oldest s' = oldest s /\ wakeup s' = wakeup s /\ pc s' = pc s /\ acquired s' = acquired s /\
  same (rsrcs s) (rsrcs s') /\ find j s' = o /\ forall j', j' <> j -> find j' s' = find j' s.

Lemma Inv_only_job j o s s' : Inv s -> only_job j o s s' -> (o <> None -> find j s <> None) ->
  Spawned (tab s') (zombies s') (rsrcs s') -> Launches (tab s') (msgs s') (pc s') -> Inv s'.
Proof.
  intros [Hw Hr _ _ Hd] (E1 & E2 & E3 & _ & _ & _ & _ & _ & Hs & Hj & Hj') Ho HS HL.
  split; [|by rewrite E1, E2|done|done|].
  - rewrite E1, E3. by eapply Waits_same.
  - intros j'. rewrite E3. intros Hj2. specialize (Hd j' Hj2). destruct (decide (j' = j)) as [->|]; [|by rewrite Hj'].
    rewrite Hj. destruct o; [|done]. exfalso. by apply Ho.
Qed.

Lemma tab_start_ok s j se : Inv s -> find j s = Some se -> se_started se = false ->
  exists s', tab_start j se s = Ret s' /\ Inv s' /\ only_job j (Some (set_started true se)) s s'.
Proof.
  intros HI Hf Hst. pose proof Hf as [Hj Hz]%find_Some. pose proof (i_spawned _ HI) as HS.
  pose proof (held_queued _ _ _ _ Hj Hz Hst (proj1 HS)) as Hh. apply start_ok in Hh as (rs' & E & Hh & Hs).
  unfold tab_start. rewrite Hz, Hst, E. simpl. eexists. split; [done|].
  assert (only_job j (Some (set_started true se)) s (set_tab (<[j:=set_started true se]> (tab s)) (zombies s) (set_rsrcs rs' s))) as Ho.
  { split_and!; try done; simpl.
    - unfold find. simpl. rewrite lookup_insert_eq. simpl. by rewrite Hz.
    - intros j' Hj'. unfold find. simpl. by rewrite lookup_insert_ne. }
  split; [|done]. eapply Inv_only_job; [done|exact Ho|by rewrite Hf| |].
  - destruct HS as (_ & Hd & HS). split_and!; [|done|].
    + destruct (live_rsrcs (set_started true se) Hz) as [Eq Es].
      eapply held_perm; [..|exact Hh]; simpl; rewrite collect_insert; [by rewrite Eq|by rewrite Es].
    + intros j'. simpl. rewrite HS. destruct (decide (j = j')) as [->|]; [|by rewrite lookup_insert_ne].
      rewrite lookup_insert_eq, Hj. naive_solver congruence.
  - simpl. pose proof (i_launches _ HI) as HL. apply Launches_update; [by rewrite Hj| |done].
    destruct HL as (_ & _ & HL). by destruct (HL j se Hj).
Qed.

(** [SpawnedTab::end] removes a job whose launch is done, keeping its entry when the launch thread holds it. *)
Lemma tab_end_rsrcs s j se : Inv s -> find j s = Some se ->
  exists (r1 rs' : S), (if se_started se then Ret (rsrcs s) else start_rsrcs (se_rounded_rsrcs se) (rsrcs s)) = Ret r1 /\
    end_rsrcs (se_rounded_rsrcs se) r1 = Ret rs' /\ same (rsrcs s) rs' /\
    held rs' (collect queued_rsrcs (delete j (tab s))) (collect started_rsrcs (delete j (tab s))).
Proof.
  intros HI [Hj Hz]%find_Some. pose proof (proj1 (i_spawned _ HI)) as Hh. pose proof same_equiv as Heq.
  destruct (se_started se) eqn:Hst.
  - apply (held_started _ _ _ _ Hj Hz Hst), end_ok in Hh as (rs' & E & Hh & Hs). by exists (rsrcs s), rs'.
  - apply (held_queued _ _ _ _ Hj Hz Hst), start_ok in Hh as (r1 & E1 & Hh & Hs1).
    apply end_ok in Hh as (rs' & E & Hh & Hs). exists r1, rs'. split_and!; [done..|by etransitivity|done].
Qed.

Lemma Spawned_end tb z (rs : S) j se : tb !! j = Some se -> j ∉ z -> se_zombie se = false ->
  held rs (collect queued_rsrcs (delete j tb)) (collect started_rsrcs (delete j tb)) ->
  NoDup z -> (forall j', j' ∈ z <-> exists se, tb !! j' = Some se /\ se_zombie se = true) ->
  Spawned (<[j := set_zombie true se]> tb) (z ++ [j]) rs /\ Spawned (delete j tb) z rs.
Proof.
  intros Hj Hnz Hz Hh Hd HS. split.
  - split_and!.
    + by eapply held_perm; [..|exact Hh]; rewrite collect_insert.
    + apply NoDup_app. split_and!; [done| |apply NoDup_singleton]. intros x Hx ->%list_elem_of_singleton. contradiction.
    + intros j'. rewrite elem_of_app, list_elem_of_singleton, HS. destruct (decide (j = j')) as [->|].
      * rewrite lookup_insert_eq. naive_solver.
      * rewrite lookup_insert_ne by done. naive_solver.
  - split_and!; [done..|]. intros j'. rewrite HS. destruct (decide (j = j')) as [->|].
    + rewrite lookup_delete_eq, Hj. naive_solver congruence.
    + by rewrite lookup_delete_ne.
Qed.

Lemma tab_end_ok s j se : Inv s -> find j s = Some se -> se_id se <> StartingId ->
  exists s', tab_end j se s = Ret s' /\ Inv s' /\ only_job j None s s'.
Proof.
  intros HI Hf Hid. pose proof Hf as [Hj Hz]%find_Some.
  destruct (tab_end_rsrcs s j se HI Hf) as (r1 & rs' & E1 & E2 & Hs & Hh).
  pose proof (i_spawned _ HI) as HS. pose proof (Spawned_zombie _ _ _ _ _ Hj Hz HS) as Hnz.
  destruct HS as (_ & Hd & HS). pose proof (i_launches _ HI) as HL. pose proof (proj2 (proj2 HL) j se Hj) as [He1 He2 He3 He4].
  destruct (Spawned_end _ _ _ _ _ Hj Hnz Hz Hh Hd HS) as [S1 S2].
  unfold tab_end. rewrite Hz, E1. simpl. rewrite E2. simpl.
  eexists. split; [done|]. match goal with |- Inv ?s' /\ _ => assert (only_job j None s s') as Ho end.
  { destruct (se_hold se); (split_and!; [done..| |]); unfold find; simpl.
    - by rewrite lookup_insert_eq.
    - intros j' Hj'. by rewrite lookup_insert_ne.
    - by rewrite lookup_delete_eq.
    - intros j' Hj'. by rewrite lookup_delete_ne. }
  split; [|done]. eapply Inv_only_job; [done|exact Ho|done|by destruct (se_hold se)|].
  destruct (se_hold se) eqn:Hho; simpl.
  - apply Launches_update; [by rewrite Hj| |done]. split; [simpl; by rewrite Hho|exact He2|tauto|done].
  - apply Launches_delete; [|done]. by intros Hin%He1.
Qed.

(** ** Requests and waiting jobs *)

Lemma queues_w (w w' : gmap Job (WaitEntry R)) (rs : S) re : queues w rs re ->
  (forall j we, awaits j re -> w !! j = Some we -> exists we', w' !! j = Some we' /\ we_rsrcs we' = we_rsrcs we) ->
  queues w' rs re.
Proof.
  intros [Hi Ho Hn] Hw. split; [| |done].
  - intros key q p j Hk Hp. destruct (Hi _ _ _ _ Hk Hp) as (Hj & we & Hwe & Er). split; [done|].
    destruct (Hw j we (mk_is_Some _ _ Hj) Hwe) as (we' & ? & Ew). exists we'. by rewrite Ew.
  - intros p j Hj. destruct (Ho p j Hj) as (we & key & q & Hwe & Er & Hk & Hp).
    destruct (Hw j we (mk_is_Some _ _ Hj) Hwe) as (we' & ? & Ew). exists we', key, q. by rewrite Ew.
Qed.

Lemma awaits_waiting m w (rs : S) r re j : Waits m w rs -> m !! r = Some re -> awaits j re -> is_Some (w !! j).
Proof. intros [Hq _] Hr [p Hp]. destruct (q_out _ _ _ (Hq r re Hr) p j Hp) as (we & ? & ? & Hwe & _). eauto. Qed.

Lemma Reqs_insert m n r re re' : m !! r = Some re -> re_n_jobs re = re_n_jobs re' -> Reqs m n -> Reqs (<[r := re']> m) n.
Proof.
  intros Hr E [Hi Hn]. split; [|by rewrite (cnt_same _ _ _ _ _ Hr) by (unfold limited; by rewrite E)]. intros r' Hr'. apply Hi.
  destruct (decide (r = r')) as [<-|]; [eauto|]. by rewrite lookup_insert_ne in Hr'.
Qed.

(** Adding a job to a request: the job gets an entry of the queue of its resources. *)
Lemma queues_add w (rs : S) re j we key p : queues w rs re -> re_jobs re !! j = None ->
  w !! j = Some we -> round rs (we_rsrcs we) = Ret key -> queues w rs (add_job key p j re).
Proof.
  intros [Hi Ho Hn] Hj Hw Er. unfold add_job, enqueue. split; simpl.
  - intros key' q p' j' Hk Hp. destruct (decide (key = key')) as [<-|].
    + rewrite lookup_insert_eq in Hk. simplify_eq. apply elem_of_union in Hp as [Hp|Hp].
      * apply elem_of_singleton in Hp. simplify_eq. rewrite lookup_insert_eq. eauto.
      * destruct (re_queues re !! key) as [q|] eqn:Eq; [|set_solver]. simpl in Hp.
        destruct (Hi _ _ _ _ Eq Hp) as [Hj' ?]. rewrite lookup_insert_ne by congruence. done.
    + rewrite lookup_insert_ne in Hk by done. destruct (Hi _ _ _ _ Hk Hp) as [Hj' ?].
      rewrite lookup_insert_ne by congruence. done.
  - intros p' j' Hj'. destruct (decide (j = j')) as [<-|].
    + rewrite lookup_insert_eq in Hj'. simplify_eq. exists we, key. eexists. rewrite lookup_insert_eq. split_and!; [done..|]. set_solver.
    + rewrite lookup_insert_ne in Hj' by done. destruct (Ho _ _ Hj') as (we' & key' & q & ? & ? & Hk & ?).
      destruct (decide (key = key')) as [<-|]; [|exists we', key', q; by rewrite lookup_insert_ne].
      exists we', key. eexists. rewrite lookup_insert_eq, Hk. split_and!; [done..|]. set_solver.
  - intros key' q Hk. destruct (decide (key = key')) as [<-|]; [|rewrite lookup_insert_ne in Hk by done; by eapply Hn].
    rewrite lookup_insert_eq in Hk. set_solver.
Qed.

Lemma awaits_add key p j j' re : awaits j' (add_job key p j re) <-> j' = j \/ awaits j' re.
Proof.
  unfold awaits, add_job. simpl. destruct (decide (j = j')) as [<-|]; [rewrite lookup_insert_eq; naive_solver|].
  rewrite lookup_insert_ne by done. naive_solver.
Qed.

(** Registration of job [j] in request [r], with a new entry [we] that counts it *)
Lemma Waits_add m w (rs : S) r re j we key p :
  Waits m w rs -> m !! r = Some re -> re_jobs re !! j = None ->
  (forall we0, w !! j = Some we0 -> we_rsrcs we = we_rsrcs we0) ->
  valid rs (we_rsrcs we) -> lacking_rsrc rs (we_rsrcs we) = None -> round rs (we_rsrcs we) = Ret key ->
  we_n_reqs we = cnt (awaits j) m + 1 ->
  Waits (<[r := add_job key p j re]> m) (<[j := we]> w) rs.
Proof.
  intros HW Hr Hj Hwe Hv Hl Er Hn.
  assert (forall r' re', m !! r' = Some re' -> queues (<[j := we]> w) rs re') as Hq'.
  { intros r' re' Hr'. eapply queues_w; [by apply (proj1 HW r')|]. intros j' we' Hj' Hw'.
    destruct (decide (j = j')) as [<-|]; [rewrite lookup_insert_eq; eauto|rewrite lookup_insert_ne by done; eauto]. }
  destruct HW as [Hq Hw]. split.
  - intros r' re' Hr'. destruct (decide (r = r')) as [<-|]; [|rewrite lookup_insert_ne in Hr' by done; by eapply Hq'].
    rewrite lookup_insert_eq in Hr'. simplify_eq. eapply queues_add; [by eapply Hq'|done|by rewrite lookup_insert_eq|done].
  - intros j' we' Hj'. destruct (decide (j = j')) as [<-|].
    + rewrite lookup_insert_eq in Hj'. simplify_eq. pose proof (cnt_nonneg (awaits j) m). split_and!; [done..| |lia].
      rewrite (cnt_insert _ _ _ _ _ Hr), (one_true (awaits j) (add_job key p j re)) by (apply awaits_add; by left).
      rewrite one_false by (unfold awaits; rewrite Hj; by intros [? ?]). lia.
    + rewrite lookup_insert_ne in Hj' by done. destruct (Hw j' we' Hj') as (? & ? & Hn' & ?). split_and!; [done..| |done].
      rewrite Hn', (cnt_same _ _ _ _ _ Hr); [done|]. rewrite awaits_add. naive_solver.
Qed.

(** ** Effect of the handlers *)

(** [s'] has the jobs of [s] except that the state of [j] is [o]. *)
Definition moves (j : Job) (o : option JobState) s s' : Prop :=
  state s' j = o /\ forall j', j' <> j -> state s' j' = state s j'.

Definition same_jobs s s' : Prop := forall j, state s' j = state s j.

Lemma Inv_oldest s x w : Inv s -> Inv (set_oldest x w s).
Proof. by intros [? ? ? ? ?]. Qed.

Lemma state_oldest s x w j : state (set_oldest x w s) j = state s j.
Proof. done. Qed.

Lemma launch_ok s : Inv s -> Inv (launch s) /\ same_jobs s (launch s).
Proof. intros. unfold launch. destruct (_ =? 0); [done|]. split; [by apply Inv_oldest|done]. Qed.

Lemma note_submit_ok now s : Inv s -> Inv (note_submit now s) /\ same_jobs s (note_submit now s).
Proof. intros. unfold note_submit. destruct (_ =? 0); [|done]. split; [by apply Inv_oldest|done]. Qed.

Lemma wake_ok s : Inv s -> Inv (wake s) /\ same_jobs s (wake s).
Proof. intros. split; [by apply Inv_oldest|done]. Qed.

Lemma open_req_ok r n v s : Inv s -> 0 < r < 256 -> reqs s !! r = None ->
  exists s', open_req r n v s = Ret s' /\ Inv s' /\ same_jobs s s' /\ reqs s' = <[r := mk_re ∅ ∅ n v]> (reqs s).
Proof.
  intros [[Hq Hw] HR HS HL HD] Hr Hnone.
  assert (Reqs (<[r := @mk_re R _ _ ∅ ∅ n v]> (reqs s)) (n_n_jobs s + (if decide (n = 0) then 0 else 1))) as HR'.
  { destruct HR as [Hi Hn]. split.
    - intros r' Hr'. destruct (decide (r = r')) as [<-|]; [done|]. rewrite lookup_insert_ne in Hr' by done. by apply Hi.
    - rewrite cnt_insert_new, Hn by done. unfold one, limited. simpl. repeat case_decide; lia. }
  assert (Waits (<[r := @mk_re R _ _ ∅ ∅ n v]> (reqs s)) (waiting_jobs s) (rsrcs s)) as HW'.
  { split; [apply map_Forall_insert_2; [|done]|].
    - split; simpl; [intros ? ? ? ? Hk|intros ? ? Hk|intros ? ? Hk]; by rewrite lookup_empty in Hk.
    - intros j we Hj. destruct (Hw j we Hj) as (? & ? & Hn & ?). split_and!; [done..| |done].
      rewrite cnt_insert_new, one_false by (done || (unfold awaits; simpl; rewrite lookup_empty; by intros [? ?])). lia. }
  assert (forall j, pressures j (<[r := @mk_re R _ _ ∅ ∅ n v]> (reqs s)) = pressures j (reqs s)) as Hp.
  { intros j. rewrite pressures_insert. simpl. rewrite lookup_empty. apply delete_id, eq_None_not_Some.
    intros [p (re & Hre & _)%pressures_lookup]. congruence. }
  unfold open_req. rewrite bool_decide_true by done. simpl.
  pose proof (cnt_reqs _ _ limited HR') as Hc. rewrite <- (proj2 HR') in Hc.
  pose proof (proj2 HR) as Hn0. pose proof (cnt_nonneg limited (reqs s)).
  destruct (Z.eqb_spec n 0) as [Hz|Hz]; simpl.
  - rewrite decide_True in HR' by done. rewrite Z.add_0_r in HR'. eexists. split; [done|]. split_and!; [by split|..].
    + intros j. unfold state. simpl. by rewrite Hp.
    + done.
  - rewrite decide_False in HR', Hc by done. rewrite u8_small by lia.
    rewrite (proj2 (Z.eqb_neq (n_n_jobs s + 1) 0)) by lia. simpl. eexists. split; [done|]. split_and!; [by split|..].
    + intros j. unfold state. simpl. by rewrite Hp.
    + done.
Qed.

Lemma Waits_close m w (rs : S) r re : Waits m w rs -> m !! r = Some re -> re_jobs re = ∅ -> Waits (delete r m) w rs.
Proof.
  intros [Hq Hw] Hr He. split; [by apply map_Forall_delete|]. intros j we Hj.
  destruct (Hw j we Hj) as (? & ? & Hn & ?). split_and!; [done..| |done].
  rewrite (cnt_delete _ _ _ _ Hr), one_false; [lia|]. unfold awaits. rewrite He, lookup_empty. by intros [? ?].
Qed.

Lemma Waits_no_req w (rs : S) : Waits ∅ w rs -> w = ∅.
Proof.
  intros [_ Hw]. apply map_empty. intros j. destruct (w !! j) as [we|] eqn:Hj; [|done].
  destruct (Hw j we Hj) as (_ & _ & Hn & Hp). rewrite cnt_empty in Hn. lia.
Qed.

Lemma pressures_delete j m r re : m !! r = Some re -> re_jobs re !! j = None -> pressures j (delete r m) = pressures j m.
Proof.
  intros Hr He. unfold pressures. rewrite omap_delete. apply delete_id. rewrite lookup_omap, Hr. done.
Qed.

(** Closing a request; the last one is not closed while an entry is left *)
Lemma close_req_ok r s : Inv s -> (forall re, reqs s !! r = Some re -> re_jobs re = ∅) ->
  exists s', close_req r s = (if decide (dom (reqs s) = {[r]} /\ tab s <> ∅) then Crash else Ret s') /\
    Inv s' /\ same_jobs s s' /\ reqs s' = delete r (reqs s).
Proof.
  intros [HW HR HS HL HD] He. unfold close_req. destruct (reqs s !! r) as [re|] eqn:Hr.
  2:{ exists s. rewrite delete_id by done. rewrite decide_False; [done|]. intros [Hd _]. apply not_elem_of_dom in Hr. set_solver. }
  specialize (He re eq_refl). pose proof (Waits_close _ _ _ _ _ HW Hr He) as HW'. rewrite bool_decide_true by done. simpl.
  pose proof (proj2 HR) as Hn. pose proof (cnt_delete limited _ _ _ Hr) as Hd.
  pose proof (cnt_nonneg limited (delete r (reqs s))) as Hp. pose proof (cnt_reqs _ _ limited HR) as Hc.
  assert (forall r', is_Some (delete r (reqs s) !! r') -> 0 < r' < 256) as Hi.
  { intros r' [re' [_ Hr']%lookup_delete_Some]. apply (proj1 HR). eauto. }
  set (n' := if re_n_jobs re =? 0 then n_n_jobs s else n_n_jobs s - 1).
  assert (n' = cnt limited (delete r (reqs s))) as Hn'.
  { unfold n'. rewrite Hd, Hn. destruct (Z.eqb_spec (re_n_jobs re) 0).
    - rewrite one_false by (unfold limited; lia). lia.
    - by rewrite one_true. }
  assert ((if re_n_jobs re =? 0 then Ret s
          else _ ← swear (negb (n_n_jobs s =? 0)); Ret (set_n_n_jobs (u8 (n_n_jobs s - 1)) s)) = Ret (set_n_n_jobs n' s)) as ->.
  { unfold n' in *. destruct (Z.eqb_spec (re_n_jobs re) 0); [by destruct s|].
    rewrite (proj2 (Z.eqb_neq (n_n_jobs s) 0)) by lia. simpl. by rewrite u8_small by lia. }
  simpl. assert (Inv (set_reqs (delete r (reqs s)) (set_n_n_jobs n' s))) as HI' by by split.
  assert (same_jobs s (set_reqs (delete r (reqs s)) (set_n_n_jobs n' s))) as Hj'.
  { intros j. unfold state. simpl. by rewrite (pressures_delete _ _ _ _ Hr) by (by rewrite He). }
  exists (set_reqs (delete r (reqs s)) (set_n_n_jobs n' s)). split; [|done]. change (reqs (set_reqs ?m ?x)) with m.
  assert (delete r (reqs s) = ∅ <-> dom (reqs s) = {[r]}) as Hdom.
  { rewrite <- dom_empty_iff_L, dom_delete_L. assert (r ∈ dom (reqs s)) by (apply elem_of_dom; eauto). split; [|intros ->; set_solver].
    intros E. apply set_eq. intros r'. destruct (decide (r' = r)); set_solver. }
  case_decide as Hm.
  - rewrite Hm in HW'. rewrite (bool_decide_true (waiting_jobs s = ∅)) by (by eapply Waits_no_req). simpl. apply Hdom in Hm.
    case_decide as Ht; [by rewrite bool_decide_false by tauto|]. rewrite bool_decide_true; [done|]. destruct (decide (tab s = ∅)); tauto.
  - rewrite decide_False; [done|]. intros [? _]. tauto.
Qed.

Lemma pressures_add j j' key p m r re : m !! r = Some re ->
  pressures j' (<[r := add_job key p j re]> m) = if decide (j' = j) then <[r := p]> (pressures j m) else pressures j' m.
Proof.
  intros Hr. rewrite pressures_insert. unfold add_job. simpl. case_decide as Hj.
  - subst. by rewrite lookup_insert_eq.
  - rewrite lookup_insert_ne by done. destruct (re_jobs re !! j') as [p'|] eqn:Ej.
    + apply insert_id, pressures_lookup. eauto.
    + apply delete_id, eq_None_not_Some. intros [p' (re' & Hr' & Ep)%pressures_lookup]. congruence.
Qed.

Lemma not_awaited m w (rs : S) j : Waits m w rs -> w !! j = None -> cnt (awaits j) m = 0 /\ pressures j m = ∅.
Proof.
  intros HW Hj. assert (forall r re, m !! r = Some re -> ~ awaits j re) as Hno.
  { intros r re Hr Ha. eapply awaits_waiting in Ha as [? Ha]; [|done..]. congruence. }
  pose proof (cnt_nonneg (awaits j) m). split.
  - destruct (decide (0 < cnt (awaits j) m)) as [(r & re & Hr & Ha)%cnt_pos|]; [|lia]. by destruct (Hno r re Hr).
  - apply map_empty. intros r. apply eq_None_not_Some. intros [p (re & Hr & Hp)%pressures_lookup].
    apply (Hno r re Hr). unfold awaits. eauto.
Qed.

(** [submit] registers the job or reports an error and changes nothing. *)
Lemma submit_ok now j r si l s : Inv s -> is_Some (reqs s !! r) -> waiting_jobs s !! j = None -> find j s = None ->
  (exists e, submit now j r si l s = Throw e) \/
  exists s', submit now j r si l s = Ret s' /\ Inv s' /\
    moves j (Some (JWaiting {[r := SubmitInfo.pressure si]})) s s'.
Proof.
  intros HI [re Hr] Hj Hf. pose proof HI as [HW HR HS HL HD]. unfold submit. rewrite bool_decide_true by done. simpl.
  destruct (import_ (rsrcs s) l r j) as [rd|e|] eqn:Ei; [|left; by exists e|by eapply import_total in Ei; [|apply HS]]. simpl.
  rewrite (at_Some _ _ _ Hr). simpl. destruct (not_awaited _ _ _ _ HW Hj) as [Hc Hp].
  assert (re_jobs re !! j = None) as Hrj.
  { apply eq_None_not_Some. intros Ha. destruct (awaits_waiting _ _ _ _ _ _ HW Hr Ha) as [? ?]. congruence. }
  rewrite bool_decide_true by done. simpl. pose proof (import_valid _ _ _ _ _ _ _ (proj1 HS) Ei) as Hv.
  destruct (lacking_rsrc (rsrcs s) rd) as [[msg consider]|] eqn:El; [left; by eexists|right].
  destruct (round_ok _ _ Hv El) as (key & Ek & Hk). rewrite Ek. simpl.
  match goal with |- context [note_submit now ?s'] => set (s1 := s') end. assert (Inv s1) as HI1.
  { split; simpl.
    - apply Waits_add; simpl; try done; [by intros we0; rewrite Hj|lia].
    - by eapply Reqs_insert.
    - done.
    - done.
    - intros j' Hj'. destruct (decide (j = j')) as [<-|]; [done|]. rewrite lookup_insert_ne in Hj' by done. by apply HD. }
  assert (moves j (Some (JWaiting {[r := SubmitInfo.pressure si]})) s s1) as Hm1.
  { split.
    - unfold state. simpl. rewrite lookup_insert_eq, decide_True, (pressures_add _ _ _ _ _ _ _ Hr), decide_True, Hp by eauto. done.
    - intros j' Hne. unfold state. simpl. by rewrite lookup_insert_ne, (pressures_add _ _ _ _ _ _ _ Hr), (decide_False (P := j' = j)). }
  destruct (note_submit_ok now s1 HI1) as [HI2 Hs2]. destruct (launch_ok _ HI2) as [HI3 Hs3].
  eexists. split; [done|]. destruct (1000 <? _); (split; [done|]); (split; [|intros j' Hne]);
    rewrite ?Hs3, Hs2; [apply Hm1|by apply Hm1|apply Hm1|by apply Hm1].
Qed.

(** Two submissions of a job agree on what does not depend on the request. *)
Definition agree (a b : SubmitInfo.t) : Prop := SubmitInfo.agree_cache a b = true /\ SubmitInfo.agree_deps a b = true.

Lemma merge_ok a b : agree a b -> exists c, SubmitInfo.merge a b = Ret c.
Proof. intros [Hc Hd]. unfold SubmitInfo.merge. rewrite Hc, Hd. by eexists. Qed.

Lemma add_pressure_ok j r si s re : Inv s -> reqs s !! r = Some re ->
  (forall we, waiting_jobs s !! j = Some we -> re_jobs re !! j = None /\ agree (we_submit_info we) si) ->
  exists s', add_pressure j r si s = Ret s' /\ Inv s' /\
    match waiting_jobs s !! j with
    | Some _ => moves j (Some (JWaiting (<[r := SubmitInfo.pressure si]> (pressures j (reqs s))))) s s'
    | None => same_jobs s s'
    end.
Proof.
  intros HI Hr Hg. pose proof HI as [HW HR HS HL HD]. unfold add_pressure. rewrite (at_Some _ _ _ Hr). simpl.
  destruct (waiting_jobs s !! j) as [we|] eqn:Hj.
  2:{ destruct (find j s) as [se|] eqn:Hf; [|by exists s]. destruct (re_verbose re); [|by exists s].
      eexists. split; [done|]. pose proof Hf as [Ht Hz]%find_Some.
      assert (only_job j (Some (set_verbose true se)) s (set_tab (<[j:=set_verbose true se]> (tab s)) (zombies s) s)) as Ho.
      { pose proof same_equiv. split_and!; try done; unfold find; simpl.
        - rewrite lookup_insert_eq. simpl. by rewrite Hz.
        - intros j' Hne. by rewrite lookup_insert_ne. }
      split.
      - eapply Inv_only_job; [done|exact Ho|by rewrite Hf|by eapply Spawned_update|].
        apply Launches_update; [by rewrite Ht| |done]. by destruct (proj2 (proj2 HL) j se Ht).
      - intros j'. unfold state. destruct Ho as (E1 & _ & E3 & _ & _ & _ & _ & _ & _ & E4 & E5). rewrite E1, E3.
        destruct (decide (j' = j)) as [->|Hne]; [by rewrite E4, Hf|by rewrite E5]. }
  destruct (Hg we eq_refl) as [Hn Ha]. rewrite bool_decide_true by done. simpl.
  destruct (waits_round _ _ _ _ _ HW Hj) as (key & Ek & _). rewrite Ek. simpl.
  destruct (merge_ok _ _ Ha) as [si' Em]. rewrite Em. simpl. eexists. split; [done|].
  destruct (proj2 HW j we Hj) as (Hv & Hl & Hc & Hp).
  pose proof (Reqs_insert _ _ _ _ (add_job key (SubmitInfo.pressure si) j re) Hr eq_refl HR) as HR'.
  pose proof (cnt_reqs _ _ (awaits j) HR') as Hc'.
  rewrite (cnt_insert _ _ _ _ _ Hr), (one_true _ (add_job _ _ _ _)), one_false in Hc'
    by ((unfold awaits; rewrite Hn; by intros [? ?]) || (apply awaits_add; by left)).
  split.
  - split; simpl; [|done..|].
    + apply Waits_add; simpl; try done; [intros we0; by rewrite Hj; intros [= ->]|]. rewrite u8_small by lia. lia.
    + intros j' Hj'. destruct (decide (j = j')) as [<-|]; [apply HD; by rewrite Hj|].
      rewrite lookup_insert_ne in Hj' by done. by apply HD.
  - split.
    + unfold state. simpl. by rewrite lookup_insert_eq, decide_True, (pressures_add _ _ _ _ _ _ _ Hr), decide_True by eauto.
    + intros j' Hne. unfold state. simpl.
      by rewrite lookup_insert_ne, (pressures_add _ _ _ _ _ _ _ Hr), (decide_False (P := j' = j)).
Qed.

(** A new pressure *)
Definition set_job (key : R) (q : gset PressureEntry) (old p : Z) (j : Job) re : ReqEntry R :=
  mk_re (<[key := {[(p, j)]} ∪ q ∖ {[(old, j)]}]> (re_queues re)) (<[j := p]> (re_jobs re)) (re_n_jobs re) (re_verbose re).

Lemma queues_set w (rs : S) re j we key q old p : queues w rs re -> re_jobs re !! j = Some old ->
  w !! j = Some we -> round rs (we_rsrcs we) = Ret key -> re_queues re !! key = Some q ->
  queues w rs (set_job key q old p j re).
Proof.
  intros [Hi Ho Hn] Hj Hw Er Hq. unfold set_job. split; simpl.
  - intros key' q' p' j' Hk Hp. assert (j' = j -> key' = key /\ p' = p) as Hjj.
    { intros ->. destruct (decide (key = key')) as [<-|Hne].
      - rewrite lookup_insert_eq in Hk. simplify_eq. split; [done|]. apply elem_of_union in Hp as [Hp|Hp]; [set_solver|].
        apply elem_of_difference in Hp as [Hp Hp2]. destruct (Hi _ _ _ _ Hq Hp) as [Hj' _]. set_solver.
      - rewrite lookup_insert_ne in Hk by done. destruct (Hi _ _ _ _ Hk Hp) as (_ & we' & ? & ?). congruence. }
    destruct (decide (j' = j)) as [->|Hne].
    + destruct (Hjj eq_refl) as [-> ->]. rewrite lookup_insert_eq. eauto.
    + rewrite lookup_insert_ne by done. destruct (decide (key = key')) as [<-|].
      * rewrite lookup_insert_eq in Hk. simplify_eq. eapply Hi; [exact Hq|]. set_solver.
      * rewrite lookup_insert_ne in Hk by done. by eapply Hi.
  - intros p' j' Hj'. destruct (decide (j = j')) as [<-|].
    + rewrite lookup_insert_eq in Hj'. simplify_eq. exists we, key. eexists. rewrite lookup_insert_eq. split_and!; [done..|]. set_solver.
    + rewrite lookup_insert_ne in Hj' by done. destruct (Ho _ _ Hj') as (we' & key' & q' & ? & ? & Hk & ?).
      destruct (decide (key = key')) as [<-|]; [|exists we', key', q'; by rewrite lookup_insert_ne].
      exists we', key. eexists. rewrite lookup_insert_eq. split_and!; [done..|]. simplify_eq. set_solver.
  - intros key' q' Hk. destruct (decide (key = key')) as [<-|]; [|rewrite lookup_insert_ne in Hk by done; by eapply Hn].
    rewrite lookup_insert_eq in Hk. set_solver.
Qed.

Lemma set_pressure_ok j r si s re : Inv s -> reqs s !! r = Some re ->
  (forall we, waiting_jobs s !! j = Some we -> awaits j re /\ agree (we_submit_info we) si) ->
  exists s', set_pressure j r si s = Ret s' /\ Inv s' /\
    match waiting_jobs s !! j with
    | Some _ => moves j (Some (JWaiting (<[r := SubmitInfo.pressure si]> (pressures j (reqs s))))) s s'
    | None => same_jobs s s'
    end.
Proof.
  intros HI Hr Hg. pose proof HI as [HW HR HS HL HD]. unfold set_pressure. rewrite (at_Some _ _ _ Hr). simpl.
  destruct (waiting_jobs s !! j) as [we|] eqn:Hj; [|by exists s].
  destruct (Hg we eq_refl) as [[old Hold] Ha]. rewrite (at_Some _ _ _ Hold). simpl.
  destruct (q_out _ _ _ (proj1 HW r re Hr) old j Hold) as (we' & key & q & Hw' & Ek & Hq & Hin). simplify_eq.
  rewrite Ek. simpl. rewrite (at_Some _ _ _ Hq). simpl. destruct (merge_ok _ _ Ha) as [si' Em]. rewrite Em. simpl.
  eexists. split; [done|]. fold (set_job key q old (SubmitInfo.pressure si) j re).
  set (re' := set_job key q old (SubmitInfo.pressure si) j re).
  assert (forall j', awaits j' re <-> awaits j' re') as Haw.
  { intros j'. unfold awaits, re', set_job. simpl. destruct (decide (j = j')) as [<-|]; [|by rewrite lookup_insert_ne].
    rewrite lookup_insert_eq, Hold. naive_solver. }
  set (we2 := mk_we si' (we_rsrcs we) (we_n_reqs we) (we_verbose we)).
  assert (forall r1 re1, reqs s !! r1 = Some re1 -> queues (<[j := we2]> (waiting_jobs s)) (rsrcs s) re1) as Hq'.
  { intros r1 re1 Hr1. eapply queues_w; [by apply (proj1 HW r1)|]. intros j' we' _ Hw2.
    destruct (decide (j = j')) as [<-|]; [rewrite lookup_insert_eq; simplify_eq; by exists we2|rewrite lookup_insert_ne by done; eauto]. }
  split.
  - split; simpl; [split|by eapply Reqs_insert|done..|].
    + apply map_Forall_insert_2; [|by intros r1 re1 Hr1; by eapply Hq'].
      by eapply (queues_set _ _ _ _ we2); [by eapply Hq'|done|by rewrite lookup_insert_eq|..].
    + intros j' we' Hw2. destruct (decide (j = j')) as [<-|].
      * rewrite lookup_insert_eq in Hw2. simplify_eq. destruct (proj2 HW j we Hj) as (? & ? & Hn & ?).
        split_and!; [done..| |done]. by rewrite (cnt_same _ _ _ _ _ Hr (Haw j)).
      * rewrite lookup_insert_ne in Hw2 by done. destruct (proj2 HW j' we' Hw2) as (? & ? & Hn & ?).
        split_and!; [done..| |done]. by rewrite (cnt_same _ _ _ _ _ Hr (Haw j')).
    + intros j' Hj'. apply HD. destruct (decide (j = j')) as [<-|]; [by rewrite Hj|]. by rewrite lookup_insert_ne in Hj'.
  - split.
    + unfold state. simpl. rewrite lookup_insert_eq, decide_True by eauto. rewrite pressures_insert. simpl. by rewrite lookup_insert_eq.
    + intros j' Hne. unfold state. simpl. rewrite lookup_insert_ne, pressures_insert by done. simpl.
      rewrite lookup_insert_ne by done. case_decide as Hw'; [|done]. do 2 f_equal. destruct (re_jobs re !! j') as [p'|] eqn:Ej.
      * apply insert_id, pressures_lookup. eauto.
      * apply delete_id, eq_None_not_Some. intros [p' (re1 & Hr1 & Ep)%pressures_lookup]. congruence.
Qed.

(** *** Killing the waiting jobs *)

Definition kill_entry (we : WaitEntry R) : option (WaitEntry R) :=
  if we_n_reqs we =? 1 then None
  else Some (mk_we (we_submit_info we) (we_rsrcs we) (we_n_reqs we - 1) (we_verbose we)).

Lemma kill_fold (l : list Job) (w : gmap Job (WaitEntry R)) res : NoDup l ->
  (forall j, j ∈ l -> exists we, w !! j = Some we /\ we_n_reqs we <> 0) ->
  exists w', foldl kill_one (Ret (w, res)) l = Ret (w', res ++ l) /\
    forall j, w' !! j = (if decide (j ∈ l) then w !! j ≫= kill_entry else w !! j).
Proof.
  revert w res. induction l as [|j l IH]; intros w res Hd Hl.
  { exists w. split; [by rewrite app_nil_r|]. intros j. by rewrite decide_False by apply not_elem_of_nil. }
  apply NoDup_cons in Hd as [Hj Hd]. destruct (Hl j ltac:(left)) as (we & Hw & Hn). simpl.
  rewrite (at_Some _ _ _ Hw). simpl. rewrite (proj2 (Z.eqb_neq _ _) Hn). simpl.
  match goal with |- context [foldl kill_one (Ret (?w1, _)) l] => set (w' := w1) end.
  assert (w' !! j = kill_entry we) as Hj1.
  { unfold w', kill_entry. destruct (we_n_reqs we =? 1); [apply lookup_delete_eq|apply lookup_insert_eq]. }
  assert (forall j', j' <> j -> w' !! j' = w !! j') as Hj2.
  { intros j' Hne. unfold w'. destruct (we_n_reqs we =? 1); [by rewrite lookup_delete_ne|by rewrite lookup_insert_ne]. }
  destruct (IH w' (res ++ [j])) as (w2 & E & Hw2); [done| |].
  { intros j' Hj'. rewrite Hj2 by (intros ->; contradiction). apply Hl. by right. }
  exists w2. rewrite E, <- app_assoc. split; [done|]. intros j'. rewrite Hw2. destruct (decide (j' = j)) as [->|Hne].
  - rewrite decide_False, decide_True by (done || left). by rewrite Hj1, Hw.
  - rewrite Hj2 by done. assert (j' ∈ j :: l <-> j' ∈ l) as Hel by (rewrite elem_of_cons; tauto).
    by repeat case_decide; try tauto.
Qed.

(** What a waiting job becomes when request [r] (all of them for 0) is killed *)
Definition kill_state (r : Req) (o : option JobState) : option JobState :=
  match o with
  | Some (JWaiting ps) =>
    if decide (r = 0 \/ delete r ps = ∅) then None else Some (JWaiting (delete r ps))
  | o => o
  end.
(** Whether request [r] (any of them for 0) waits for job [j] *)
Definition waits_for (r : Req) (o : option JobState) : Prop :=
  exists ps, o = Some (JWaiting ps) /\ (r = 0 \/ is_Some (ps !! r)).

Lemma state_waiting s j ps : state s j = Some (JWaiting ps) <-> is_Some (waiting_jobs s !! j) /\ ps = pressures j (reqs s).
Proof.
  unfold state. case_decide; [naive_solver|]. destruct (find j s) as [se|]; simpl; [destruct (se_started se)|]; naive_solver.
Qed.

Lemma waiting_pressures m w (rs : S) j : Waits m w rs -> is_Some (w !! j) -> pressures j m <> ∅.
Proof.
  intros [_ Hw] [we Hj] E. destruct (Hw j we Hj) as (_ & _ & Hn & Hp). rewrite Hn in Hp.
  apply cnt_pos in Hp as (r & re & Hr & p & Hrj). assert (pressures j m !! r = Some p) as Hl by (apply pressures_lookup; eauto).
  by rewrite E in Hl.
Qed.

Lemma kill_all_ok r s : Inv s -> r = 0 \/ dom (reqs s) = {[r]} ->
  let s' := set_reqs (re_clear <$> reqs s) (set_waiting ∅ s) in
  Inv s' /\ (forall j, state s' j = kill_state r (state s j)) /\
  forall j, j ∈ (map_to_list (waiting_jobs s)).*1 <-> waits_for r (state s j).
Proof.
  intros [HW HR HS HL HD] Hr. split_and!.
  - split; simpl; [split|split|done..|].
    + intros r' re'. rewrite lookup_fmap, fmap_Some. intros (re & Hre & ->).
      split; simpl; [intros ? ? ? ? Hk|intros ? ? Hk|intros ? ? Hk]; by rewrite lookup_empty in Hk.
    + apply map_Forall_empty.
    + intros r'. rewrite lookup_fmap, fmap_is_Some. apply HR.
    + rewrite (proj2 HR). unfold cnt. rewrite map_filter_fmap, map_size_fmap. done.
    + intros j [? Hj]. by rewrite lookup_empty in Hj.
  - intros j. unfold state at 1. simpl. rewrite decide_False by (rewrite lookup_empty; by intros [? ?]). unfold state.
    case_decide as Hj; simpl.
    + rewrite decide_True; [by change (find j (set_reqs _ _)) with (find j s); rewrite (HD j Hj)|]. destruct Hr as [->|Hd]; [by left|right].
      apply map_empty. intros r'. destruct (decide (r' = r)) as [->|]; [apply lookup_delete_eq|rewrite lookup_delete_ne by done].
      apply eq_None_not_Some. intros [p (re & Hre & _)%pressures_lookup]. apply elem_of_dom_2 in Hre. set_solver.
    + change (find j (set_reqs _ _)) with (find j s). destruct (find j s) as [se|]; simpl; [destruct (se_started se)|]; done.
  - intros j. rewrite list_elem_of_fmap. unfold waits_for. setoid_rewrite state_waiting. split.
    + intros ([j' we] & -> & Hin%elem_of_map_to_list). simpl. eexists. split; [split; eauto|].
      destruct Hr as [->|Hd]; [by left|right]. pose proof (waiting_pressures _ _ _ _ HW (mk_is_Some _ _ Hin)) as Hne.
      apply map_choose in Hne as (r' & p & Hp). pose proof Hp as (re & Hre & _)%pressures_lookup.
      apply elem_of_dom_2 in Hre. rewrite Hd in Hre. apply elem_of_singleton in Hre as ->. eauto.
    + intros (ps & [[we Hw] _] & _). exists (j, we). split; [done|]. by apply elem_of_map_to_list.
Qed.

Lemma kill_req_ok r s re w' : Inv s -> reqs s !! r = Some re -> r <> 0 ->
  (forall j, w' !! j = (if decide (awaits j re) then waiting_jobs s !! j ≫= kill_entry else waiting_jobs s !! j)) ->
  let s' := set_reqs (<[r := re_clear re]> (reqs s)) (set_waiting w' s) in
  Inv s' /\ forall j, state s' j = kill_state r (state s j).
Proof.
  intros [HW HR HS HL HD] Hr Hr0 Hw'. set (m' := <[r := re_clear re]> (reqs s)).
  assert (forall j, ~ awaits j (re_clear re)) as Hclear by (intros j; unfold awaits; simpl; rewrite lookup_empty; by intros [? ?]).
  assert (forall j, cnt (awaits j) m' = cnt (awaits j) (reqs s) - one (awaits j) re) as Hcnt.
  { intros j. unfold m'. rewrite (cnt_insert _ _ _ _ _ Hr), (one_false _ (re_clear re)) by apply Hclear. lia. }
  assert (forall j we, w' !! j = Some we -> exists we0, waiting_jobs s !! j = Some we0 /\ we_rsrcs we = we_rsrcs we0 /\
    we_n_reqs we = cnt (awaits j) m' /\ 0 < we_n_reqs we) as Hwe.
  { intros j we. rewrite Hw', Hcnt. case_decide as Ha; intros Hj.
    - apply bind_Some in Hj as (we0 & Hj & Ek). destruct (proj2 HW j we0 Hj) as (_ & _ & Hn & Hp). exists we0. split; [done|].
      unfold kill_entry in Ek. destruct (Z.eqb_spec (we_n_reqs we0) 1); [done|]. simplify_eq. simpl. rewrite one_true by done.
      split_and!; [done|lia..].
    - destruct (proj2 HW j we Hj) as (_ & _ & Hn & Hp). exists we. rewrite one_false by done. split_and!; [done..|lia|lia]. }
  assert (forall j, 0 < cnt (awaits j) m' -> is_Some (waiting_jobs s !! j) -> is_Some (w' !! j)) as Hin.
  { intros j Hp [we Hj]. rewrite Hw'. destruct (proj2 HW j we Hj) as (_ & _ & Hn & _). rewrite Hj. simpl.
    case_decide as Ha; [|by eauto]. unfold kill_entry. rewrite Hcnt, one_true in Hp by done.
    rewrite (proj2 (Z.eqb_neq _ _)) by lia. by eauto. }
  split.
  - split; simpl; [split|by eapply Reqs_insert|done..|].
    + fold m'. intros r' re' Hr'. destruct (decide (r = r')) as [<-|Hne].
      * unfold m' in Hr'. rewrite lookup_insert_eq in Hr'. simplify_eq.
        split; simpl; [intros ? ? ? ? Hk|intros ? ? Hk|intros ? ? Hk]; by rewrite lookup_empty in Hk.
      * pose proof Hr' as Hr2. unfold m' in Hr2. rewrite lookup_insert_ne in Hr2 by done.
        eapply queues_w; [by apply (proj1 HW r')|]. intros j we Ha Hj.
        destruct (Hin j) as [we' Hj']; [apply cnt_pos; eauto|eauto|]. destruct (Hwe j we' Hj') as (we0 & ? & ? & _).
        exists we'. by simplify_eq.
    + fold m'. intros j we Hj. destruct (Hwe j we Hj) as (we0 & Hj0 & E & ? & ?).
      destruct (proj2 HW j we0 Hj0) as (? & ? & _). unfold waits. by rewrite E.
    + intros j [we Hj]. destruct (Hwe j we Hj) as (we0 & ? & _). apply HD. eauto.
  - intros j. assert (pressures j m' = delete r (pressures j (reqs s))) as Hps.
    { unfold m'. rewrite pressures_insert. simpl. by rewrite lookup_empty. }
    unfold state. simpl. fold m'. rewrite Hps. destruct (decide (is_Some (waiting_jobs s !! j))) as [Hj|Hj].
    + simpl. destruct (decide (is_Some (w' !! j))) as [Hj'|Hj'].
      * rewrite decide_False; [done|]. intros [?|He]; [done|]. destruct Hj' as [we' Hj'].
        destruct (Hwe j we' Hj') as (_ & _ & _ & Hn & Hp). rewrite Hn in Hp. apply cnt_pos in Hp as (r1 & re1 & Hr1 & p & Hp).
        assert (pressures j m' !! r1 = Some p) as Hl by (apply pressures_lookup; eauto). by rewrite Hps, He in Hl.
      * change (find j (set_reqs _ _)) with (find j s). rewrite (HD j Hj). simpl. rewrite decide_True; [done|right].
        rewrite <- Hps. apply map_empty. intros r1. apply eq_None_not_Some. intros [p (re1 & Hr1 & Hp)%pressures_lookup].
        apply Hj', Hin; [apply cnt_pos; unfold awaits; eauto|done].
    + change (find j (set_reqs _ _)) with (find j s). rewrite decide_False; [by destruct (find j s) as [[]|]; simpl; try case_match|].
      intros [we' Hj']. destruct (Hwe j we' Hj') as (? & ? & _). apply Hj. eauto.
Qed.

Lemma kill_waiting_ok r s : Inv s -> r = 0 \/ is_Some (reqs s !! r) ->
  exists s' res, kill_waiting_jobs r s = Ret (s', res) /\ Inv s' /\
    (forall j, state s' j = kill_state r (state s j)) /\ forall j, j ∈ res <-> waits_for r (state s j).
Proof.
  intros HI Hr. unfold kill_waiting_jobs. destruct (Z.eqb_spec r 0) as [->|Hr0]; simpl.
  { do 2 eexists. split; [done|]. by apply kill_all_ok; [|left]. }
  destruct Hr as [?|[re Hr]]; [done|]. destruct (Z.leb_spec (Z.of_nat (size (reqs s))) 1) as [H1|H1].
  - assert (dom (reqs s) = {[r]}) as Hd.
    { apply set_eq. intros r'. rewrite elem_of_dom, elem_of_singleton. split; [|intros ->; eauto].
      intros [re' Hr']. destruct (decide (r' = r)) as [|Hne]; [done|]. exfalso.
      rewrite <- (insert_delete_id _ _ _ Hr), map_size_insert_None in H1 by apply lookup_delete_eq.
      rewrite <- (insert_delete_id (delete r (reqs s)) r' re'), map_size_insert_None in H1
        by (apply lookup_delete_eq || by rewrite lookup_delete_ne). lia. }
    rewrite bool_decide_true by done. simpl. do 2 eexists. split; [done|]. by apply kill_all_ok; [|right].
  - rewrite (at_Some _ _ _ Hr). simpl. set (l := (map_to_list (re_jobs re)).*1).
    assert (forall j, j ∈ l <-> awaits j re) as Hl.
    { intros j. unfold l, awaits. rewrite list_elem_of_fmap. split.
      - intros ([j' p] & -> & ?%elem_of_map_to_list). eauto.
      - intros [p Hp]. exists (j, p). split; [done|]. by apply elem_of_map_to_list. }
    destruct (kill_fold l (waiting_jobs s) []) as (w' & E & Hw').
    { apply NoDup_fst_map_to_list. }
    { intros j Hj. apply Hl in Hj. destruct (awaits_waiting _ _ _ _ _ _ (i_waits _ HI) Hr Hj) as [we Hwe].
      exists we. split; [done|]. destruct (proj2 (i_waits _ HI) j we Hwe) as (_ & _ & _ & ?). lia. }
    rewrite E. simpl. do 2 eexists. split; [done|].
    destruct (kill_req_ok r s re w') as [HI' Hst]; [done..| |].
    { intros j. rewrite Hw'. destruct (decide (j ∈ l)) as [Hj|Hj]; rewrite Hl in Hj; [by rewrite decide_True|by rewrite decide_False]. }
    split_and!; [done..|]. intros j. rewrite Hl. unfold waits_for. setoid_rewrite state_waiting. split.
    + intros Ha. eexists. split; [split; [by eapply awaits_waiting; [apply HI|..]|done]|right].
      destruct Ha as [p Hp]. exists p. apply pressures_lookup. eauto.
    + intros (ps & [_ ->] & [?|[p (re' & ? & ?)%pressures_lookup]]); [done|]. simplify_eq. unfold awaits. eauto.
Qed.
End ops.
End BackendOps.
