(* ===== verification/BackendLaunch.v ===== *)
(** * The launch thread of [GenericBackend]: the choice of the jobs, and their launch without the mutex. *)
From S2P Require Import Prelude.
From S2P Require Import BackendRsrc.
From S2P Require Import Backend.
From S2P Require Import BackendInv.
From S2P Require Import BackendOps.
Local Open Scope Z_scope.

Module BackendLaunch.
Import GenericBackend BackendInv BackendOps.
Section launch.
Context {R S : Type} `{Countable R} {OP : RsrcOps R S} {L : RsrcLaws OP}.
Context (walk : gmap R (gset PressureEntry) -> list (R * gset PressureEntry)).
(** Iterating over a map goes through all its entries. *)
Context (walk_perm : forall m, walk m ≡ₚ map_to_list m).
Implicit Types (s : t R S) (se : SpawnedEntry R) (re : ReqEntry R) (m : gmap Req (ReqEntry R)) (tb : gmap Job (SpawnedEntry R)) (r : Req) (j : Job).

(** ** The choice of a queue *)

(** The pressure of a queue is the one of its first job. *)
Definition queue_pressure (q : gset PressureEntry) : Z := default 0 (fst <$> first q).

Lemma find_candidate_spec (rs : S) l cand : (forall k q, (k, q) ∈ l -> q <> ∅) ->
  match cand with Some (k, q) => q <> ∅ /\ fit_now rs k = true | None => True end ->
  exists c, find_candidate rs l cand = Ret c /\
    match c with
    | Some (k, q) => ((k, q) ∈ l \/ cand = Some (k, q)) /\ fit_now rs k = true /\
      (forall k' q', (k', q') ∈ l -> fit_now rs k' = true -> queue_pressure q' <= queue_pressure q) /\
      (forall k' q', cand = Some (k', q') -> queue_pressure q' <= queue_pressure q)
    | None => cand = None /\ forall k' q', (k', q') ∈ l -> fit_now rs k' = false
    end.
Proof.
  revert cand. induction l as [|[k q] l IH]; intros cand Hne Hc.
  { exists cand. split; [done|]. destruct cand as [[k q]|].
    - split_and!; [by right|apply Hc|intros ? ? []%not_elem_of_nil|]. intros k' q' [= -> ->]. lia.
    - split; [done|]. intros ? ? []%not_elem_of_nil. }
  assert (q <> ∅) as Hq by (eapply Hne; by left).
  assert (exists p, first q = Some p) as [p Hp].
  { pose proof (first_spec q) as Hf. destruct (first q); [eauto|done]. }
  set (skip := match cand with Some (_, qc) => queue_pressure q <=? queue_pressure qc | None => false end).
  assert (not_better q cand = Ret skip) as Es.
  { unfold not_better, skip, queue_pressure. destruct cand as [[kc qc]|]; [|done]. rewrite Hp.
    pose proof (first_spec qc) as Hf. destruct (first qc); [done|]. naive_solver. }
  simpl. rewrite Es. simpl.
  destruct (IH (if skip then cand else if fit_now rs k then Some (k, q) else cand)) as (c & -> & Hres).
  { intros k' q' Hin. eapply Hne. by right. }
  { destruct skip; [done|]. by destruct (fit_now rs k) eqn:Ef. }
  exists c. split; [done|].
  assert (forall k' q', cand = Some (k', q') -> skip = false -> queue_pressure q' <= queue_pressure q) as Hskip.
  { intros k' q' -> Es'. unfold skip in Es'. apply Z.leb_gt in Es'. lia. }
  assert (skip = true -> exists k' q', cand = Some (k', q') /\ queue_pressure q <= queue_pressure q') as Hskip2.
  { unfold skip. destruct cand as [[k' q']|]; [|done]. intros ?%Z.leb_le. eauto. }
  clearbody skip. destruct c as [[kc qc]|].
  - destruct Hres as (Hin & Hf & Hl & Hlc). split_and!; [|done|..].
    + destruct Hin as [Hin|Hin]; [left; by right|]. destruct skip; [by right|].
      destruct (fit_now rs k); [|by right]. simplify_eq. left. by left.
    + intros k' q' [E|Hin']%elem_of_cons Hf'; [|by eapply Hl]. simplify_eq. destruct skip.
      * destruct (Hskip2 eq_refl) as (k1 & q1 & -> & Hle). etransitivity; [exact Hle|by eapply Hlc].
      * rewrite Hf' in Hlc. by eapply Hlc.
    + intros k' q' E. destruct skip; [by eapply Hlc|]. specialize (Hskip _ _ E eq_refl).
      destruct (fit_now rs k); [|by eapply Hlc]. etransitivity; [exact Hskip|by eapply Hlc].
  - destruct Hres as [E Hl]. destruct skip.
    + destruct (Hskip2 eq_refl) as (k1 & q1 & E1 & _). congruence.
    + destruct (fit_now rs k) eqn:Ef; [done|]. split; [done|].
      intros k' q' [E'|Hin']%elem_of_cons; [by simplify_eq|by eapply Hl].
Qed.

(** The queue chosen for a request *)
Lemma candidate_ok s req re : Inv s -> reqs s !! req = Some re ->
  exists c, find_candidate (rsrcs s) (walk (re_queues re)) None = Ret c /\
    match c with
    | Some (k, q) => re_queues re !! k = Some q /\ fit_now (rsrcs s) k = true /\
      forall k' q', re_queues re !! k' = Some q' -> fit_now (rsrcs s) k' = true -> queue_pressure q' <= queue_pressure q
    | None => forall k' q', re_queues re !! k' = Some q' -> fit_now (rsrcs s) k' = false
    end.
Proof.
  intros HI Hr. assert (forall k q, (k, q) ∈ walk (re_queues re) <-> re_queues re !! k = Some q) as Hw.
  { intros k q. rewrite walk_perm. apply elem_of_map_to_list. }
  destruct (find_candidate_spec (rsrcs s) (walk (re_queues re)) None) as (c & E & Hc).
  { intros k q Hin%Hw. by eapply (q_nonempty _ _ _ (proj1 (i_waits _ HI) req re Hr)). }
  { done. }
  exists c. split; [done|]. destruct c as [[k q]|].
  - destruct Hc as ([Hin|?] & Hf & Hl & _); [|done]. apply Hw in Hin. split_and!; [done..|]. intros k' q' Hk'. apply Hl. by apply Hw.
  - destruct Hc as [_ Hl]. intros k' q' Hk'. eapply Hl. by apply Hw.
Qed.

(** ** The launch of a job *)

(** A request after job [j] of queue [key] is launched *)
Definition drop (key : R) (j : Job) re : ReqEntry R :=
  match re_jobs re !! j with
  | Some p => mk_re (dequeue key (default ∅ (re_queues re !! key)) (p, j) (re_queues re)) (delete j (re_jobs re)) (re_n_jobs re) (re_verbose re)
  | None => re
  end.

Lemma drop_jobs key j re : re_jobs (drop key j re) = delete j (re_jobs re).
Proof. unfold drop. destruct (re_jobs re !! j) eqn:E; [done|]. by rewrite delete_id. Qed.

Lemma drop_n_jobs key j re : re_n_jobs (drop key j re) = re_n_jobs re.
Proof. unfold drop. by destruct (re_jobs re !! j). Qed.

Lemma awaits_drop key j j' re : awaits j' (drop key j re) <-> j' <> j /\ awaits j' re.
Proof.
  unfold awaits. rewrite drop_jobs. destruct (decide (j' = j)) as [->|]; [rewrite lookup_delete_eq; split; [by intros [? ?]|naive_solver]|].
  rewrite lookup_delete_ne by done. tauto.
Qed.

Lemma drop_queues key j re p q key' q' : re_jobs re !! j = Some p -> re_queues re !! key = Some q -> (p, j) ∈ q ->
  re_queues (drop key j re) !! key' = Some q' <->
  (key' = key /\ q' = q ∖ {[(p, j)]} /\ q' <> ∅) \/ (key' <> key /\ re_queues re !! key' = Some q').
Proof.
  intros Hj Hq Hin. unfold drop. rewrite Hj, Hq. simpl. unfold dequeue.
  assert (q ∖ {[(p, j)]} = ∅ <-> size q = 1%nat) as Hs.
  { split; intros E.
    - assert (q ≡ {[(p, j)]}) as ->; [|apply size_singleton]. intros x. rewrite elem_of_singleton. split; [|by intros ->].
      intros Hx. destruct (decide (x = (p, j))) as [|Hne]; [done|]. exfalso. apply (not_elem_of_empty (C := gset PressureEntry) x).
      rewrite <- E. set_solver.
    - apply size_1_elem_of in E as [x Ex]. apply leibniz_equiv. set_solver. }
  case_decide as E.
  - destruct (decide (key' = key)) as [->|]; [rewrite lookup_delete_eq|rewrite lookup_delete_ne by done]; naive_solver.
  - destruct (decide (key' = key)) as [->|]; [rewrite lookup_insert_eq|rewrite lookup_insert_ne by done]; naive_solver.
Qed.

Lemma queues_drop w (rs : S) re j we key : queues w rs re -> w !! j = Some we -> round rs (we_rsrcs we) = Ret key ->
  queues (delete j w) rs (drop key j re).
Proof.
  intros Hqs Hw Ek. pose proof Hqs as [Hi Ho Hn]. destruct (re_jobs re !! j) as [p|] eqn:Hj.
  2:{ unfold drop. rewrite Hj. eapply queues_w; [done|]. intros j' we' [? Ha] Hw'. exists we'. split; [|done].
      rewrite lookup_delete_ne; congruence. }
  destruct (Ho p j Hj) as (we' & key' & q & Hw' & Ek' & Hq & Hin).
  assert (we' = we) as -> by congruence. assert (key' = key) as -> by congruence.
  pose proof (fun k q' => drop_queues key j re p q k q' Hj Hq Hin) as Hdq. split; [|rewrite drop_jobs|].
  - intros k q' p' j' Hk Hp'. rewrite drop_jobs. rewrite Hdq in Hk.
    assert (j' <> j /\ exists q0, re_queues re !! k = Some q0 /\ (p', j') ∈ q0) as (Hne & q0 & Hq0 & Hin0).
    { destruct Hk as [(-> & -> & _)|[Hne Hk]].
      - apply elem_of_difference in Hp' as [Hp' Hp2]. split; [|by eauto]. intros ->.
        destruct (Hi _ _ _ _ Hq Hp') as [? _]. apply Hp2, elem_of_singleton. congruence.
      - split; [|by eauto]. intros ->. destruct (Hi _ _ _ _ Hk Hp') as (_ & we2 & ? & ?). congruence. }
    rewrite !lookup_delete_ne by done. by eapply Hi.
  - intros p' j' Hj'. assert (j' <> j) as Hne by (intros ->; by rewrite lookup_delete_eq in Hj').
    rewrite lookup_delete_ne in Hj' by done. destruct (Ho _ _ Hj') as (we2 & k2 & q2 & Hw2 & Ek2 & Hq2 & Hin2).
    exists we2, k2, (if decide (k2 = key) then q ∖ {[(p, j)]} else q2). rewrite lookup_delete_ne by done.
    case_decide as E; (split_and!; [done..| |]).
    + subst k2. simplify_eq. apply Hdq. left. split_and!; [done..|]. set_solver.
    + subst k2. simplify_eq. set_solver.
    + apply Hdq. by right.
    + done.
  - intros k q' Hk. apply Hdq in Hk. destruct Hk as [(_ & _ & ?)|[_ ?]]; [done|by eapply Hn].
Qed.

Lemma Waits_drop m w (rs : S) j we key : Waits m w rs -> w !! j = Some we -> round rs (we_rsrcs we) = Ret key ->
  Waits (drop key j <$> m) (delete j w) rs.
Proof.
  intros [Hq Hw] Hj Ek. split.
  - intros r re'. rewrite lookup_fmap, fmap_Some. intros (re & Hr & ->). by eapply queues_drop; [apply (Hq r)|..].
  - intros j' we' [Hne Hj']%lookup_delete_Some. destruct (Hw j' we' Hj') as (? & ? & Hn & ?). split_and!; [done..| |done].
    rewrite cnt_fmap; [done|]. intros re. rewrite awaits_drop. naive_solver.
Qed.

Lemma Reqs_drop m n j key : Reqs m n -> Reqs (drop key j <$> m) n.
Proof.
  intros [Hi Hn]. split; [intros r; rewrite lookup_fmap, fmap_is_Some; apply Hi|].
  rewrite cnt_fmap; [done|]. intros re. unfold limited. by rewrite drop_n_jobs.
Qed.

Lemma pressures_drop j' key j m : pressures j' (drop key j <$> m) = if decide (j' = j) then ∅ else pressures j' m.
Proof.
  apply map_eq. intros r. unfold pressures. rewrite lookup_omap, lookup_fmap. case_decide as E.
  - subst. rewrite lookup_empty. destruct (m !! r) as [re|]; simpl; [|done]. by rewrite drop_jobs, lookup_delete_eq.
  - rewrite lookup_omap. destruct (m !! r) as [re|]; simpl; [|done]. by rewrite drop_jobs, lookup_delete_ne.
Qed.

(** The other requests drop the job. *)
Lemma drop_other_ok w (rs : S) re j we key : queues w rs re -> w !! j = Some we -> round rs (we_rsrcs we) = Ret key ->
  awaits j re -> drop_other key j re = Ret (drop key j re).
Proof.
  intros [_ Ho _] Hw Ek [p Hp]. destruct (Ho p j Hp) as (we' & key' & q & Hw' & Ek' & Hq & Hin).
  assert (we' = we) as -> by congruence. assert (key' = key) as -> by congruence.
  unfold drop_other, drop. rewrite (at_Some _ _ _ Hp). simpl. rewrite (at_Some _ _ _ Hq). simpl.
  by rewrite bool_decide_true, Hp, Hq by done.
Qed.

Lemma drop_others_ok w (rs : S) j we key l m : NoDup l -> w !! j = Some we -> round rs (we_rsrcs we) = Ret key ->
  (forall r, r ∈ l -> exists re, m !! r = Some re /\ queues w rs re /\ awaits j re) ->
  exists m', drop_others key j l m = Ret m' /\ forall r, m' !! r = (if decide (r ∈ l) then drop key j <$> m !! r else m !! r).
Proof.
  intros Hd Hw Ek. revert m Hd. induction l as [|r l IH]; intros m Hd Hl.
  { exists m. split; [done|]. intros r. by rewrite decide_False by apply not_elem_of_nil. }
  apply NoDup_cons in Hd as [Hr Hd]. destruct (Hl r ltac:(left)) as (re & Hre & Hq & Ha). simpl.
  rewrite (at_Some _ _ _ Hre). simpl. rewrite (drop_other_ok _ _ _ _ _ _ Hq Hw Ek Ha). simpl.
  destruct (IH (<[r := drop key j re]> m) Hd) as (m' & -> & Hm').
  { intros r' Hr'. rewrite lookup_insert_ne by (intros ->; contradiction). apply Hl. by right. }
  exists m'. split; [done|]. intros r'. rewrite Hm'. destruct (decide (r' = r)) as [->|Hne].
  - rewrite decide_False, decide_True by (done || left). by rewrite lookup_insert_eq, Hre.
  - rewrite lookup_insert_ne by done. assert (r' ∈ r :: l <-> r' ∈ l) as Hel by (rewrite elem_of_cons; tauto).
    destruct (decide (r' ∈ l)); [by rewrite decide_True by tauto|by rewrite decide_False by tauto].
Qed.

Lemma others_spec req j m : NoDup (others req j m) /\
  forall r, r ∈ others req j m <-> r <> req /\ exists re, m !! r = Some re /\ awaits j re.
Proof.
  unfold others. split.
  - assert (forall l : list (Req * ReqEntry R), NoDup l.*1 ->
      NoDup (omap (fun kv => if decide (kv.1 <> req /\ is_Some (re_jobs kv.2 !! j)) then Some kv.1 else None) l)) as Hl.
    { induction l as [|[r re] l IH]; simpl; [constructor|]. intros [Hr Hd]%NoDup_cons. case_decide; [|by apply IH].
      constructor; [|by apply IH]. intros ([r' re'] & Hin & E)%list_elem_of_omap. simpl in E. case_decide; [|done]. simplify_eq.
      apply Hr, list_elem_of_fmap. by exists (r, re'). }
    apply Hl, NoDup_fst_map_to_list.
  - intros r. rewrite list_elem_of_omap. split.
    + intros ([r' re] & Hin%elem_of_map_to_list & E). simpl in E. case_decide as Hc; [|done]. simplify_eq. destruct Hc. eauto.
    + intros (Hne & re & Hr & Ha). exists (r, re). split; [by apply elem_of_map_to_list|]. simpl. by rewrite decide_True.
Qed.

(** The entry of a job that has just been created *)
Definition fresh_entry se : Prop := se_id se = NoId /\ se_started se = false /\ se_zombie se = false /\ se_hold se = false.

(** No zombie is left and the launch thread holds no entry. *)
Definition quiet s : Prop := zombies s = [] /\ pending (pc s) = [] /\ starting (pc s) = [].

Lemma quiet_tab s j : Inv s -> quiet s -> find j s = tab s !! j.
Proof.
  intros HI (Hz & _). unfold find. destruct (tab s !! j) as [se|] eqn:Hj; [|done]. destruct (se_zombie se) eqn:E; [|done].
  pose proof (proj2 (proj2 (proj2 (i_spawned _ HI)) j)) as Hin. rewrite Hz in Hin. exfalso. apply (not_elem_of_nil j). eauto.
Qed.

Lemma Inv_create s s' j se key we : Inv s -> quiet s -> waiting_jobs s !! j = Some we -> round (rsrcs s) (we_rsrcs we) = Ret key ->
  fresh_entry se -> se_rounded_rsrcs se = key ->
  same (rsrcs s) (rsrcs s') -> held (rsrcs s') (key :: collect queued_rsrcs (tab s)) (collect started_rsrcs (tab s)) ->
  reqs s' = drop key j <$> reqs s -> n_n_jobs s' = n_n_jobs s -> waiting_jobs s' = delete j (waiting_jobs s) ->
  tab s' = <[j := se]> (tab s) -> zombies s' = [] -> msgs s' = msgs s -> pc s' = pc s -> Inv s'.
Proof.
  intros HI Hqt Hw Ek (Hid & Hst & Hz & Hho) Hrd Hsame Hh E1 E2 E3 E4 E5 E6 E7.
  pose proof HI as [HW HR HS HL HD]. pose proof (HD j (mk_is_Some _ _ Hw)) as Hf. rewrite (quiet_tab _ _ HI Hqt) in Hf.
  destruct (live_rsrcs se Hz) as [Eq Es]. rewrite Hst in Eq, Es. split.
  - rewrite E1, E3. eapply Waits_same; [done|]. by eapply Waits_drop.
  - rewrite E1, E2. by apply Reqs_drop.
  - rewrite E4, E5. split_and!; [|constructor|].
    + eapply held_perm; [..|exact Hh]; rewrite collect_new by done; [by rewrite Eq, <- Hrd|by rewrite Es].
    + intros j'. rewrite (proj1 Hqt) in HS. rewrite (proj2 (proj2 HS) j'). destruct (decide (j = j')) as [<-|]; [|by rewrite lookup_insert_ne].
      rewrite lookup_insert_eq, Hf. naive_solver congruence.
  - rewrite E4, E6, E7. destruct HL as (Hd & Hp & Ht). destruct Hqt as (_ & Hp0 & Hs0). split_and!; [done| |].
    + intros j'. rewrite Hp0. intros []%not_elem_of_nil.
    + apply map_Forall_insert_2; [|done]. split; rewrite ?Hp0, ?Hs0.
      * split; [congruence|intros []%not_elem_of_nil].
      * split; [by rewrite Hid|intros []%not_elem_of_nil].
      * intros []%not_elem_of_nil.
      * by rewrite Hid.
  - rewrite E3. intros j' [we' [Hne Hj']%lookup_delete_Some]. specialize (HD j' (mk_is_Some _ _ Hj')).
    unfold find in *. by rewrite E4, lookup_insert_ne.
Qed.

(** What request [req] waits for: job [j] with rounded resources [key], at pressure [p] *)
Definition wanted (req : Req) s (j : Job) (key : R) (p : Z) : Prop :=
  pressures j (reqs s) !! req = Some p /\ exists we, waiting_jobs s !! j = Some we /\ round (rsrcs s) (we_rsrcs we) = Ret key.

(** What a launch does *)
Record launched (req : Req) (j : Job) (key : R) s s' : Prop := {
  l_inv : Inv s';
  l_quiet : quiet s';
  l_waited : exists ps, state s j = Some (JWaiting ps) /\ is_Some (ps !! req);
  l_moves : moves j (Some JQueued) s s';
  l_reqs : dom (reqs s') = dom (reqs s) /\ forall r re', reqs s' !! r = Some re' -> exists re, reqs s !! r = Some re /\ re_n_jobs re' = re_n_jobs re;
  l_size : size (waiting_jobs s) = Datatypes.S (size (waiting_jobs s'));
  l_tab : exists se, fresh_entry se /\ tab s !! j = None /\ tab s' = <[j := se]> (tab s);
  l_pc : pc s' = pc s /\ msgs s' = msgs s;
  l_rsrcs : acquire_rsrcs key (rsrcs s) = Ret (rsrcs s');
  l_wanted : forall r j' k p, wanted r s' j' k p <-> j' <> j /\ wanted r s j' k p
}.

Lemma launch_one_ok s req eta re key q p j : Inv s -> quiet s -> reqs s !! req = Some re ->
  re_queues re !! key = Some q -> first q = Some (p, j) -> fit_now (rsrcs s) key = true ->
  exists s' ld, launch_one req eta key q s = Ret (s', (j, ld)) /\ launched req j key s s'.
Proof.
  intros HI Hqt Hre Hq Hfirst Hfit. pose proof HI as [HW HR HS HL HD].
  pose proof (first_spec q) as Hfs. rewrite Hfirst in Hfs. destruct Hfs as [Hin _].
  destruct (q_in _ _ _ (proj1 HW req re Hre) key q p j Hq Hin) as (Hrj & we & Hw & Ek).
  pose proof (HD j (mk_is_Some _ _ Hw)) as Hf. pose proof Hf as Ht. rewrite (quiet_tab _ _ HI Hqt) in Ht.
  destruct (waits_round _ _ _ _ _ HW Hw) as (key' & Ek' & Hal). rewrite Ek in Ek'. injection Ek' as <-.
  destruct (acquire_ok _ _ _ _ (proj1 HS) Hal Hfit) as (rs' & Ea & Hh & Hsame).
  unfold launch_one. rewrite Hfirst, (at_Some _ _ _ Hw). simpl. unfold tab_create. rewrite Ea, Ht. simpl.
  rewrite (at_Some _ _ _ Hre). simpl. rewrite bool_decide_true by eauto. simpl.
  destruct (others_spec req j (reqs s)) as [Hond Hoin].
  assert (mk_re (dequeue key q (p, j) (re_queues re)) (delete j (re_jobs re)) (re_n_jobs re) (re_verbose re) = drop key j re) as ->.
  { unfold drop. by rewrite Hrj, Hq. }
  destruct (drop_others_ok (waiting_jobs s) (rsrcs s) j we key (others req j (reqs s)) (<[req := drop key j re]> (reqs s)))
    as (m' & -> & Hm'); [done..| |].
  { intros r [Hne (re' & Hr & Ha)]%Hoin. exists re'. rewrite lookup_insert_ne by done. split_and!; [done|by apply (proj1 HW r)|done]. }
  assert (m' = drop key j <$> reqs s) as ->.
  { apply map_eq. intros r. rewrite Hm', lookup_fmap. destruct (decide (r ∈ others req j (reqs s))) as [Hr|Hr].
    - apply Hoin in Hr as [Hne _]. by rewrite lookup_insert_ne.
    - destruct (decide (r = req)) as [->|Hne]; [by rewrite lookup_insert_eq, Hre|]. rewrite lookup_insert_ne by done.
      destruct (reqs s !! r) as [re'|] eqn:Hr'; [|done]. simpl. f_equal. unfold drop.
      destruct (re_jobs re' !! j) as [p'|] eqn:E; [|done]. exfalso. apply Hr, Hoin. unfold awaits. naive_solver. }
  simpl. do 2 eexists. split; [done|].
  match goal with |- launched _ _ _ _ ?s2 => set (s' := s2) end.
  assert (exists se, fresh_entry se /\ se_rounded_rsrcs se = key /\ tab s' = <[j := se]> (tab s)) as (se & Hfr & Hrd & Htab).
  { refine (ex_intro _ _ (conj _ (conj _ eq_refl))); [by split_and!|done]. }
  assert (Inv s') as HI'.
  { eapply (Inv_create s s' j se key we); try done. apply Hqt. }
  assert (quiet s') as Hqt' by done.
  split; try done.
  - exists (pressures j (reqs s)). split; [apply state_waiting; eauto|]. exists p. apply pressures_lookup. eauto.
  - split.
    + unfold state. simpl. rewrite lookup_delete_eq, decide_False by (by intros [? ?]).
      rewrite (quiet_tab _ _ HI' Hqt'), Htab, lookup_insert_eq. simpl. destruct Hfr as (_ & -> & _). done.
    + intros j' Hne. unfold state. simpl. rewrite lookup_delete_ne, pressures_drop, (decide_False (P := j' = j)) by done.
      rewrite (quiet_tab _ _ HI' Hqt'), (quiet_tab _ _ HI Hqt), Htab, lookup_insert_ne by done. done.
  - simpl. split; [apply dom_fmap_L|]. intros r re'. rewrite lookup_fmap, fmap_Some. intros (re1 & Hr & ->).
    exists re1. split; [done|]. apply drop_n_jobs.
  - simpl. rewrite <- (insert_delete_id _ _ _ Hw) at 1. by rewrite map_size_insert_None by apply lookup_delete_eq.
  - eauto.
  - intros r j' k p'. unfold wanted. simpl. rewrite pressures_drop. case_decide as E.
    + rewrite lookup_empty. naive_solver.
    + rewrite lookup_delete_ne by done. setoid_rewrite <- (round_same _ _ _ Hsame). naive_solver.
Qed.

(** ** The launches for a request *)

(** What the launch of jobs [js] does *)
Record batch (req : Req) (js : list Job) s s' : Prop := {
  b_inv : Inv s';
  b_quiet : quiet s';
  b_nodup : NoDup js;
  b_waited : forall j, j ∈ js -> exists ps, state s j = Some (JWaiting ps) /\ is_Some (ps !! req);
  b_queued : forall j, j ∈ js -> state s' j = Some JQueued;
  b_other : forall j, j ∉ js -> state s' j = state s j;
  b_reqs : dom (reqs s') = dom (reqs s) /\ forall r re', reqs s' !! r = Some re' -> exists re, reqs s !! r = Some re /\ re_n_jobs re' = re_n_jobs re;
  b_new : forall j, j ∈ js -> tab s !! j = None /\ exists se, tab s' !! j = Some se /\ fresh_entry se;
  b_old : forall j, j ∉ js -> tab s' !! j = tab s !! j;
  b_size : size_ s' = size_ s + Z.of_nat (length js);
  b_count : size (waiting_jobs s) = (length js + size (waiting_jobs s'))%nat;
  b_pc : pc s' = pc s /\ msgs s' = msgs s
}.

Lemma batch_nil req s : Inv s -> quiet s -> batch req [] s s.
Proof.
  intros HI Hq. split; try done; try (intros j []%not_elem_of_nil).
  - constructor.
  - split; [done|]. eauto.
  - simpl. lia.
Qed.

Lemma batch_cons req j key js s s1 s' : quiet s -> launched req j key s s1 -> batch req js s1 s' -> batch req (j :: js) s s'.
Proof.
  intros Hq [HI1 Hq1 (ps & Hst & Hps) [Hm1 Hm2] [Hr1 Hr2] Hsz (se & Hfr & Hn & Ht) [Hp1 Hp2] _ _] [].
  assert (j ∉ js) as Hj by (intros Hin; destruct (b_waited0 j Hin) as (? & ? & _); congruence).
  split; try done.
  - by constructor.
  - intros j' [->|Hin]%elem_of_cons; [eauto|]. rewrite <- Hm2 by congruence. by apply b_waited0.
  - intros j' [->|Hin]%elem_of_cons; [rewrite b_other0|]; auto.
  - intros j' [Hne Hin]%not_elem_of_cons. rewrite b_other0 by done. by apply Hm2.
  - destruct b_reqs0 as [Hd Hd2]. split; [congruence|]. intros r re' Hr. destruct (Hd2 r re' Hr) as (re1 & Hre1 & E1).
    destruct (Hr2 r re1 Hre1) as (re & Hre & E). exists re. split; [done|congruence].
  - intros j' [->|Hin]%elem_of_cons.
    + rewrite b_old0, Ht, lookup_insert_eq by done. eauto.
    + destruct (b_new0 j' Hin) as [Hn' ?]. rewrite Ht, lookup_insert_ne in Hn' by congruence. done.
  - intros j' [Hne Hin]%not_elem_of_cons. by rewrite b_old0, Ht, lookup_insert_ne.
  - rewrite b_size0. unfold size_. rewrite Ht, map_size_insert_None by done. rewrite (proj1 Hq1). simpl.
    rewrite (proj1 Hq). simpl. lia.
  - rewrite Hsz, b_count0. done.
  - destruct b_pc0. split; congruence.
Qed.

(** Why the launches for a request stop: the request has its share of jobs, or nothing it waits for fits *)
Definition exhausted (req : Req) (n_jobs : Z) s : Prop :=
  (n_jobs <> 0 /\ n_jobs <= size_ s) \/
  forall re key q, reqs s !! req = Some re -> re_queues re !! key = Some q -> fit_now (rsrcs s) key = false.

(** Jobs [js] are launched one after the other: each one fits in the resources that the previous ones leave and has the
    highest pressure among those that fit. [w] is what is waited for, [rs] and [rs'] are the resources before and after. *)
Fixpoint greedy (w : Job -> R -> Z -> Prop) (rs : S) (js : list Job) (rs' : S) : Prop :=
  match js with
  | [] => rs' = rs
  | j :: js => exists key p rs1, w j key p /\ fit_now rs key = true /\
    (forall j' key' p', w j' key' p' -> fit_now rs key' = true -> p' <= p) /\
    acquire_rsrcs key rs = Ret rs1 /\ greedy (fun j' key' p' => j' <> j /\ w j' key' p') rs1 js rs'
  end.
Lemma greedy_ext (w w' : Job -> R -> Z -> Prop) rs js rs' : (forall j k p, w j k p <-> w' j k p) -> greedy w rs js rs' -> greedy w' rs js rs'.
Proof.
  revert w w' rs. induction js as [|j js IH]; intros w w' rs Hw; [done|]. intros (key & p & rs1 & ? & ? & Hb & ? & Hg). exists key, p, rs1.
  split_and!; [by apply Hw|done| |done|].
  - intros j' k' p' Hw'. apply (Hb j'). by apply Hw.
  - eapply IH; [|exact Hg]. intros. simpl. by rewrite Hw.
Qed.

(** The chosen job has the highest pressure among those that fit *)
Lemma best_ok req re key q p j s : Inv s -> reqs s !! req = Some re -> re_queues re !! key = Some q -> first q = Some (p, j) ->
  (forall k' q', re_queues re !! k' = Some q' -> fit_now (rsrcs s) k' = true -> queue_pressure q' <= queue_pressure q) ->
  wanted req s j key p /\ forall j' key' p', wanted req s j' key' p' -> fit_now (rsrcs s) key' = true -> p' <= p.
Proof.
  intros HI Hre Hk Hfirst Hbest. pose proof (first_spec q) as Hf. rewrite Hfirst in Hf.
  destruct Hf as [Hin _]. pose proof (proj1 (i_waits _ HI) req re Hre) as HQ.
  destruct (q_in _ _ _ HQ _ _ _ _ Hk Hin) as (Hj & we & Hw & Ek). split; [split; [apply pressures_lookup|]; eauto|].
  intros j' key' p' [(re' & Hre' & Hj')%pressures_lookup (we' & Hw' & Ek')] Hfit. simplify_eq.
  destruct (q_out _ _ _ HQ p' j' Hj') as (we2 & k2 & q2 & Hw2 & Ek2 & Hq2 & Hin2).
  assert (we2 = we') as -> by congruence. assert (k2 = key') as -> by congruence. specialize (Hbest _ _ Hq2 Hfit).
  unfold queue_pressure in Hbest. rewrite Hfirst in Hbest. simpl in Hbest. pose proof (first_spec q2) as Hf2.
  destruct (first q2) as [x|]; [|set_solver]. destruct Hf2 as [_ Hmax]. specialize (Hmax _ Hin2). apply before_pressure in Hmax. simpl in *. lia.
Qed.

Lemma launch_loop_ok fuel req eta n_jobs s : Inv s -> quiet s -> is_Some (reqs s !! req) ->
  (size (waiting_jobs s) < fuel)%nat ->
  exists s' ds, launch_loop walk fuel req eta n_jobs s = Ret (s', ds) /\ batch req ds.*1 s s' /\ exhausted req n_jobs s' /\
    (n_jobs <> 0 -> ds <> [] -> size_ s' <= n_jobs) /\ greedy (wanted req s) (rsrcs s) ds.*1 (rsrcs s').
Proof.
  revert s. induction fuel as [|fuel IH]; intros s HI Hq [re Hre] Hfuel; [lia|]. simpl.
  destruct (negb (n_jobs =? 0) && (n_jobs <=? size_ s)) eqn:Estop.
  { b2p. exists s, []. split; [done|]. split_and!; [by apply batch_nil|by left|done|done]. }
  rewrite (at_Some _ _ _ Hre). simpl. destruct (candidate_ok s req re HI Hre) as (c & -> & Hc). simpl.
  destruct c as [[key q]|].
  2:{ exists s, []. split; [done|]. split_and!; [by apply batch_nil| |done|done]. right. intros re' key q Hre' Hk. simplify_eq. eauto. }
  destruct Hc as (Hk & Hfit & Hbest). pose proof (first_spec q) as Hf. destruct (first q) as [[p j]|] eqn:Efst.
  2:{ exfalso. by eapply (q_nonempty _ _ _ (proj1 (i_waits _ HI) req re Hre)). }
  destruct (launch_one_ok s req eta re key q p j) as (s1 & ld & -> & Hl); [done..|]. simpl. pose proof Hl as [HI1 Hq1 _ _ [Hd _] Hsz (se & _ & Hn & Ht) _ Hrs Hwt].
  destruct (IH s1) as (s' & ds & -> & Hb & Hex & Hbd & Hgr); [done..| |lia|].
  { apply elem_of_dom. rewrite Hd. apply elem_of_dom. eauto. }
  simpl. do 2 eexists. split; [done|]. split_and!; [by eapply batch_cons|done| |].
  - intros Hnj _. assert (size_ s1 = size_ s + 1) as E1.
    { unfold size_. rewrite Ht, map_size_insert_None, (proj1 Hq), (proj1 Hq1) by done. simpl. lia. }
    destruct ds as [|d ds]; [|by apply Hbd]. pose proof (b_size _ _ _ _ Hb) as E2. simpl in E2.
    apply andb_false_iff in Estop as [?|?]; b2p; lia.
  - destruct (best_ok req re key q p j s HI Hre Hk Efst Hbest) as [Hwj Hmax]. exists key, p, (rsrcs s1). split_and!; [done..|].
    eapply greedy_ext; [|exact Hgr]. intros. apply Hwt.
Qed.

(** *** The mutex-protected part *)

Lemma lookup_flush {A} (l : list Job) (m : gmap Job A) j : foldr delete m l !! j = if decide (j ∈ l) then None else m !! j.
Proof.
  induction l as [|j' l IH]; [by rewrite decide_False by apply not_elem_of_nil|]. simpl foldr.
  destruct (decide (j' = j)) as [->|Hne]; [by rewrite lookup_delete_eq, decide_True by left|].
  rewrite lookup_delete_ne, IH by done. assert (j ∈ j' :: l <-> j ∈ l) as Hel by (rewrite elem_of_cons; naive_solver).
  destruct (decide (j ∈ l)); [by rewrite decide_True by tauto|by rewrite decide_False by tauto].
Qed.

Lemma collect_flush {B} (f : SpawnedEntry R -> option B) l tb :
  (forall j, j ∈ l -> exists se, tb !! j = Some se /\ f se = None) -> NoDup l -> collect f (foldr delete tb l) ≡ₚ collect f tb.
Proof.
  intros Hl Hd. induction Hd as [|j l Hj Hd IH]; simpl; [done|].
  destruct (Hl j ltac:(left)) as (se & Hse & Hf). rewrite (collect_drop _ _ _ se).
  - apply IH. intros j' Hj'. apply Hl. by right.
  - by rewrite lookup_flush, decide_False.
  - done.
Qed.

Lemma flush_ok s : Inv s -> pending (pc s) = [] -> starting (pc s) = [] ->
  Inv (flush s) /\ quiet (flush s) /\ same_jobs s (flush s).
Proof.
  intros [HW HR (Hh & Hd & HS) (HL1 & HL2 & HL3) HD] Hp Hs.
  assert (forall j, find j (flush s) = find j s) as Hf.
  { intros j. unfold find, flush. simpl. rewrite lookup_flush. case_decide as Hj; [|done].
    apply HS in Hj as (se & -> & ->). done. }
  split_and!; [|by split_and!|].
  - split; [done..| | |intros j Hj; rewrite Hf; by apply HD]; simpl.
    + split_and!; [|constructor|].
      * assert (forall j, j ∈ zombies s -> exists se, tab s !! j = Some se /\ queued_rsrcs se = None /\ started_rsrcs se = None) as Hz.
        { intros j (se & Hj & Ez)%HS. exists se. split; [done|]. unfold queued_rsrcs, started_rsrcs. by rewrite Ez. }
        eapply held_perm; [..|exact Hh]; (apply collect_flush; [|done]); intros j Hj; destruct (Hz j Hj) as (se & ? & ? & ?); eauto.
      * intros j. split; [intros []%not_elem_of_nil|]. intros (se & Hj & Ez). rewrite lookup_flush in Hj.
        case_decide as Hin; [done|]. exfalso. apply Hin, HS. eauto.
    + split_and!; [done|rewrite Hp; intros j []%not_elem_of_nil|]. intros j se Hj. rewrite lookup_flush in Hj.
      case_decide; [done|]. by apply HL3.
  - intros j. unfold state. by rewrite Hf.
Qed.

Definition mark se : SpawnedEntry R := set_hold true (set_id StartingId se).

Lemma mark_cons d ds tb : mark_starting (d :: ds) tb = mark_starting ds (alter mark d.1 tb).
Proof. done. Qed.

Lemma lookup_mark ds tb j : mark_starting ds tb !! j = if decide (j ∈ ds.*1) then mark <$> tb !! j else tb !! j.
Proof.
  revert tb. induction ds as [|d ds IH]; intros tb; [by rewrite decide_False by apply not_elem_of_nil|].
  rewrite mark_cons, IH. destruct (decide (d.1 = j)) as [<-|Hne].
  - rewrite lookup_alter_eq, (decide_True (P := d.1 ∈ (d :: ds).*1)) by left. case_decide; [|done]. by destruct (tb !! d.1).
  - rewrite lookup_alter_ne by done. assert (j ∈ (d :: ds).*1 <-> j ∈ ds.*1) as Hel by (simpl; rewrite elem_of_cons; naive_solver).
    destruct (decide (j ∈ ds.*1)); [by rewrite decide_True by tauto|by rewrite decide_False by tauto].
Qed.

Lemma Spawned_mark ds tb z (rs : S) : Spawned tb z rs -> Spawned (mark_starting ds tb) z rs.
Proof.
  revert tb. induction ds as [|d ds IH]; intros tb HS; [done|]. rewrite mark_cons. apply IH.
  destruct (tb !! d.1) as [se|] eqn:E.
  - assert (alter mark d.1 tb = <[d.1 := mark se]> tb) as ->; [|by eapply Spawned_update].
    apply map_eq. intros j. destruct (decide (d.1 = j)) as [<-|];
      [by rewrite lookup_insert_eq, lookup_alter_eq, E|by rewrite lookup_insert_ne, lookup_alter_ne].
  - rewrite alter_id; [done|]. intros se. by rewrite E.
Qed.

(** The launches done for request [req] *)
Record scanned (req : Req) (js : list Job) s s' : Prop := {
  s_waited : forall j, j ∈ js -> exists ps, state s j = Some (JWaiting ps) /\ is_Some (ps !! req);
  s_queued : forall j, j ∈ js -> state s' j = Some JQueued;
  s_other : forall j, j ∉ js -> state s' j = state s j;
  s_count : size (waiting_jobs s) = (length js + size (waiting_jobs s'))%nat;
  s_greedy : greedy (wanted req s) (rsrcs s) js (rsrcs s');
  s_exhausted : forall re, reqs s !! req = Some re -> exhausted req (re_n_jobs re) s';
  s_size : size_ s' = size_ s + Z.of_nat (length js);
  s_bound : forall re, reqs s !! req = Some re -> re_n_jobs re <> 0 -> js <> [] -> size_ s' <= re_n_jobs re
}.

Lemma Launches_mark todo ds tb tb' msg p : Launches tb' msg p -> pending p = [] -> starting p = [] -> NoDup ds.*1 ->
  (forall j, j ∈ ds.*1 -> exists se, tb' !! j = Some se /\ fresh_entry se) -> tb = mark_starting ds tb' ->
  Launches tb msg (Spawning todo ds).
Proof.
  intros (_ & _ & Ht) Hp Hs Hd Hf ->. split_and!; [done| |].
  - simpl. intros j Hj. rewrite lookup_mark, decide_True by done. destruct (Hf j Hj) as (se & -> & _). eauto.
  - intros j se'. rewrite lookup_mark. case_decide as Hj.
    + destruct (Hf j Hj) as (se & -> & (Hid & _ & Hz & _)). intros [= <-]. split; simpl; [done..|]. by rewrite Hz.
    + intros Hse. destruct (Ht j se' Hse) as [E1 E2 E3 E4]. rewrite Hp in E1. rewrite Hs in E2, E3.
      pose proof (not_elem_of_nil j). split; simpl; [tauto..|]. intros Hz Hid. destruct (E4 Hz Hid) as [?|(? & ? & ? & ->)]; [by left|].
      discriminate Hp.
Qed.

Lemma size_flush s : Inv s -> size_ (flush s) = size_ s.
Proof.
  intros [_ _ (_ & Hd & HS) _ _]. unfold size_, flush. simpl. assert (forall l (tb : gmap Job (SpawnedEntry R)), NoDup l ->
    (forall j, j ∈ l -> is_Some (tb !! j)) -> (size (foldr delete tb l) + length l = size tb)%nat) as Hl.
  { induction l as [|j l IH]; intros tb Hdl Hin; simpl; [lia|]. apply NoDup_cons in Hdl as [Hj Hdl].
    assert (is_Some (foldr delete tb l !! j)) as [se Hse] by (rewrite lookup_flush, decide_False by done; apply Hin; left).
    specialize (IH tb Hdl ltac:(intros; apply Hin; by right)).
    rewrite <- (insert_delete_id _ _ _ Hse), map_size_insert_None in IH by apply lookup_delete_eq. lia. }
  specialize (Hl (zombies s) (tab s) Hd). feed_lia Hl. rewrite <- Hl; [lia|]. intros j (se & Hj & _)%HS. eauto.
Qed.

Lemma size_mark ds s : size_ (set_tab (mark_starting ds (tab s)) (zombies s) s) = size_ s.
Proof.
  unfold size_. simpl. rewrite <- !size_dom. replace (dom (mark_starting ds (tab s))) with (dom (tab s)); [done|].
  apply set_eq. intros j. rewrite !elem_of_dom, lookup_mark. case_decide; [by rewrite fmap_is_Some|done].
Qed.

Lemma launch_req_ok req eta todo s : Inv s -> pending (pc s) = [] -> starting (pc s) = [] ->
  exists s' ds, launch_req walk req eta s = Ret (s', ds) /\ Inv (set_pc (Spawning todo ds) s') /\ scanned req ds.*1 s s'.
Proof.
  intros HI Hp Hs. destruct (flush_ok s HI Hp Hs) as (HIf & Hqf & Hjf). unfold launch_req. cbv zeta.
  change (reqs (flush s)) with (reqs s). change (waiting_jobs (flush s)) with (waiting_jobs s).
  destruct (reqs s !! req) as [re|] eqn:Hre.
  2:{ do 2 eexists. split; [done|]. split.
      - destruct HIf as [? ? ? HL ?]. split; [done..| |done]. apply (Launches_mark todo [] _ (tab (flush s)) _ (pc s)); try done; [constructor|intros j []%not_elem_of_nil].
      - split; try (intros re'; by rewrite Hre); try (intros j []%not_elem_of_nil); try done. simpl. rewrite (size_flush s HI). lia. }
  destruct (launch_loop_ok (Datatypes.S (size (waiting_jobs s))) req eta (re_n_jobs re) (flush s)) as (s' & ds & -> & Hb & Hex & Hbd & Hbf);
    [done|done|by exists re|simpl; lia|]. cbn [mbind outcome_mbind].
  do 2 eexists. split; [done|]. set (s2 := set_tab (mark_starting ds (tab s')) (zombies s') s').
  destruct Hb as [HI' Hq' Hnd Hwt Hqu Hot Hrq Hnew Hold Hsz Hct [Hpc Hmsg]].
  assert (forall j, state s2 j = state s' j) as Hst.
  { intros j. unfold state. assert ((fun se => if se_started se then JStarted else JQueued) <$> find j s2 =
      (fun se => if se_started se then JStarted else JQueued) <$> find j s') as E; [|by rewrite E].
    unfold find, s2. simpl. rewrite lookup_mark. case_decide; [|done]. destruct (tab s' !! j) as [se|]; [|done]. simpl.
    by destruct (se_zombie se). }
  split.
  - destruct HI' as [HW' HR' HS' HL' HD']. split; simpl; [done..|by apply Spawned_mark| |].
    + eapply (Launches_mark todo ds _ (tab s') _ (pc s')); try done; [by rewrite Hpc|by rewrite Hpc|].
      intros j Hj. destruct (Hnew j Hj) as [_ ?]. done.
    + intros j Hj. specialize (HD' j Hj). unfold find in *. simpl. rewrite lookup_mark. case_decide; [|done].
      destruct (tab s' !! j) as [se|]; [|done]. simpl. by destruct (se_zombie se).
  - split.
    + intros j Hj. destruct (Hwt j Hj) as (ps & E & ?). exists ps. by rewrite <- (Hjf j).
    + intros j Hj. rewrite Hst. auto.
    + intros j Hj. rewrite Hst, Hot by done. apply Hjf.
    + exact Hct.
    + exact Hbf.
    + intros re' Hre'. simplify_eq. destruct Hex as [[Hn Hx]|Hx]; [left|by right]. split; [done|]. unfold s2. by rewrite size_mark.
    + unfold s2. by rewrite size_mark, Hsz, size_flush, length_fmap.
    + intros re' Hre' Hn Hne. simplify_eq. unfold s2. rewrite size_mark. apply Hbd; [done|]. by intros ->.
Qed.

(** ** A step of the launch thread *)

(** Updates of an entry by the launch thread *)
Lemma update_ok s j f p : Inv s -> is_Some (tab s !! j) ->
  (forall se, se_rounded_rsrcs (f se) = se_rounded_rsrcs se /\ se_started (f se) = se_started se /\ se_zombie (f se) = se_zombie se) ->
  (forall se, tab s !! j = Some se -> Launches (<[j := f se]> (tab s)) (msgs s) p) ->
  exists s', update j f s = Ret s' /\ Inv (set_pc p s') /\ same_jobs s (set_pc p s').
Proof.
  intros [HW HR HS HL HD] [se Hj] Hf HL'. unfold update. rewrite (at_Some _ _ _ Hj). simpl. eexists. split; [done|].
  destruct (Hf se) as (E1 & E2 & E3).
  assert (forall j', ((fun se => if se_started se then JStarted else JQueued) <$> find j' (set_tab (<[j:=f se]> (tab s)) (zombies s) s)) =
    ((fun se => if se_started se then JStarted else JQueued) <$> find j' s)) as Hfi.
  { intros j'. unfold find. simpl. destruct (decide (j = j')) as [<-|]; [|by rewrite lookup_insert_ne].
    rewrite lookup_insert_eq, Hj. rewrite E3. destruct (se_zombie se); [done|]. simpl. by rewrite E2. }
  split.
  - split; simpl; [done..| |by apply HL'|].
    + eapply Spawned_update; [done| | |done|done]; unfold queued_rsrcs, started_rsrcs; by rewrite E1, E2, E3.
    + intros j' Hj'. specialize (HD j' Hj'). specialize (Hfi j'). rewrite HD in Hfi.
      change (find j' (set_pc p (set_tab (<[j:=f se]> (tab s)) (zombies s) s))) with (find j' (set_tab (<[j:=f se]> (tab s)) (zombies s) s)).
      by destruct (find j' (set_tab _ _ _)).
  - intros j'. unfold state. simpl. specialize (Hfi j').
    change (find j' (set_pc p (set_tab (<[j:=f se]> (tab s)) (zombies s) s))) with (find j' (set_tab (<[j:=f se]> (tab s)) (zombies s) s)).
    by rewrite Hfi.
Qed.

Lemma Launches_pc tb msg p p' : pending p = pending p' -> starting p = starting p' -> (forall j, ~ reports j p) ->
  Launches tb msg p -> Launches tb msg p'.
Proof.
  intros Ep Es Hr (Hd & Hp & Ht). rewrite Ep in *. split_and!; [done..|]. intros j se Hj. destruct (Ht j se Hj) as [E1 E2 E3 E4].
  split; rewrite <- ?Ep, <- ?Es; [done..|]. intros Hz Hid. destruct (E4 Hz Hid) as [?|?]; [by left|by destruct (Hr j)].
Qed.

Lemma Launches_id tb msg todo j ld ds se id p' : Launches tb msg (Spawning todo ((j, ld) :: ds)) -> tb !! j = Some se ->
  id <> StartingId -> pending p' = j :: ds.*1 -> starting p' = ds.*1 -> (id = FailedId -> reports j p') ->
  Launches (<[j := set_id id se]> tb) msg p'.
Proof.
  intros (Hd & Hp & Ht) Hj Hid Ep Es Hr. simpl in *. apply NoDup_cons in Hd as [Hnin Hd]. split_and!.
  - rewrite Ep. by constructor.
  - intros j'. rewrite Ep. intros Hj'. destruct (decide (j = j')) as [<-|]; [rewrite lookup_insert_eq; eauto|]. rewrite lookup_insert_ne by done. auto.
  - intros j' se' Hse'. destruct (decide (j = j')) as [<-|Hne].
    + rewrite lookup_insert_eq in Hse'. simplify_eq. destruct (Ht j se Hj) as [E1 E2 E3 E4]. split; rewrite ?Ep, ?Es; simpl in *; [done|..].
      * split; [done|contradiction].
      * contradiction.
      * intros _ ?. right. by apply Hr.
    + rewrite lookup_insert_ne in Hse' by done. destruct (Ht j' se' Hse') as [E1 E2 E3 E4]. simpl in *.
      assert (j' ∈ j :: ds.*1 <-> j' ∈ ds.*1) as Hel by (rewrite elem_of_cons; naive_solver).
      split; rewrite ?Ep, ?Es; [done|tauto|tauto|]. intros Hz Hf. destruct (E4 Hz Hf) as [?|(? & ? & ? & ?)]; [by left|done].
Qed.

Lemma Launches_report tb msg e todo j ds : Launches tb msg (Reporting e todo j ds) ->
  Launches tb (<[j := e]> msg) (Releasing todo j ds).
Proof.
  intros (Hd & Hp & Ht). split_and!; [done..|]. intros j' se Hj. destruct (Ht j' se Hj) as [E1 E2 E3 E4]. split; [done..|].
  intros Hz Hf. left. destruct (decide (j = j')) as [<-|Hne]; [rewrite lookup_insert_eq; eauto|]. rewrite lookup_insert_ne by done.
  destruct (E4 Hz Hf) as [?|(? & ? & ? & [=])]; [done|]. congruence.
Qed.

Lemma Launches_release tb msg todo j ds se : Launches tb msg (Releasing todo j ds) -> tb !! j = Some se ->
  Launches (<[j := set_hold false se]> tb) msg (Spawning todo ds).
Proof.
  intros (Hd & Hp & Ht) Hj. simpl in *. apply NoDup_cons in Hd as [Hnin Hd]. split_and!; [done| |].
  - simpl. intros j' Hj'. rewrite lookup_insert_ne by (intros ->; contradiction). apply Hp. by right.
  - intros j' se' Hse'. destruct (decide (j = j')) as [<-|Hne].
    + rewrite lookup_insert_eq in Hse'. simplify_eq. destruct (Ht j se Hj) as [E1 E2 E3 E4]. split; simpl in *.
      * split; [done|contradiction].
      * done.
      * contradiction.
      * intros Hz Hf. destruct (E4 Hz Hf) as [?|(? & ? & ? & ?)]; [by left|done].
    + rewrite lookup_insert_ne in Hse' by done. destruct (Ht j' se' Hse') as [E1 E2 E3 E4]. simpl in *.
      assert (j' ∈ j :: ds.*1 <-> j' ∈ ds.*1) as Hel by (rewrite elem_of_cons; naive_solver).
      split; simpl; [by rewrite <- Hel|done..|]. intros Hz Hf. destruct (E4 Hz Hf) as [?|(? & ? & ? & ?)]; [by left|done].
Qed.

Lemma Inv_pc s p : Inv s -> pending (pc s) = pending p -> starting (pc s) = starting p -> (forall j, ~ reports j (pc s)) ->
  Inv (set_pc p s).
Proof. intros [? ? ? HL ?] Ep Es Hr. split; [done..| |done]. by eapply Launches_pc. Qed.

(** The launch thread is never stopped: whatever [launch_job] answers, the entries it holds pointers to are
    there and are not zombies when their launch is tried. *)
Lemma launcher_step_ok etas res s : Inv s -> (forall id, res = inl id -> 0 <= id) ->
  exists s', launcher_step walk etas res s = Ret s' /\ Inv s' /\
    match pc s with
    | Scanning ((req, _) :: todo) => exists ds, pc s' = Spawning todo ds /\ scanned req ds.*1 s s'
    | _ => same_jobs s s'
    end.
Proof.
  intros HI Hres. unfold launcher_step. pose proof HI as [_ _ _ HL _].
  destruct (pc s) as [|[|[req eta] todo]|todo [|[j ld] ds]|e todo j ds|todo j ds] eqn:Epc.
  - eexists. split; [done|]. destruct (wakeup s); [|done]. split; [|done].
    apply Inv_pc; [by apply Inv_oldest|simpl; by rewrite Epc..|simpl; rewrite Epc; by intros j (? & ? & ? & ?)].
  - eexists. split; [done|]. split; [|done]. apply Inv_pc; [done|by rewrite Epc..|rewrite Epc; by intros j (? & ? & ? & ?)].
  - destruct (launch_req_ok req eta todo s) as (s' & ds & -> & HI' & Hsc); [done|by rewrite Epc..|]. cbn [mbind outcome_mbind].
    eexists. split; [done|]. split; [done|]. exists ds. split; [done|]. by destruct Hsc.
  - eexists. split; [done|]. split; [|done]. apply Inv_pc; [done|by rewrite Epc..|rewrite Epc; by intros j (? & ? & ? & ?)].
  - assert (is_Some (tab s !! j)) as [se Hj] by (apply HL; by left). rewrite (at_Some _ _ _ Hj). cbn [mbind outcome_mbind].
    rewrite (e_live _ _ _ _ (proj2 (proj2 HL) j se Hj)) by (by left).
    assert (forall id p', id <> StartingId -> pending p' = j :: ds.*1 -> starting p' = ds.*1 -> (id = FailedId -> reports j p') ->
      exists s', update j (set_id id) s = Ret s' /\ Inv (set_pc p' s') /\ same_jobs s (set_pc p' s')) as Hup.
    { intros id p' Hid Ep Es Hr. apply update_ok; [done|by eauto|done|]. intros se' Hj'. simplify_eq. by eapply Launches_id. }
    destruct res as [id|e].
    + specialize (Hres id eq_refl). destruct (Hup id (Releasing todo j ds)) as (s' & -> & ? & ?);
        [unfold StartingId; lia|done..|unfold FailedId; lia|]. cbn [mbind outcome_mbind].
      rewrite (proj2 (Z.leb_le 0 id) Hres). by eexists.
    + destruct (Hup FailedId (Reporting e todo j ds)) as (s' & -> & ? & ?); [done..|intros _; by do 3 eexists|]. by eexists.
  - eexists. split; [done|]. split; [|done]. destruct HI as [? ? ? ? ?]. split; [done..| |done]. simpl. by eapply Launches_report.
  - assert (is_Some (tab s !! j)) as [se Hj] by (apply HL; by left).
    destruct (update_ok s j (set_hold false) (Spawning todo ds)) as (s' & -> & ? & ?); [done|by eauto|done| |by eexists].
    intros se' Hj'. simplify_eq. by eapply Launches_release.
Qed.
End launch.
End BackendLaunch.
