(* ===== verification/BackendThm.v ===== *)
(** * Theorems on the job scheduler: the runs of [GenericBackend] under the protocol of its callers are safe,
    follow the life cycle of a job, launch what can be launched, and the launch thread never blocks the
    handlers that wait for it. *)
From S2P Require Import Prelude.
From S2P Require Import BackendRsrc.
From S2P Require Import Backend.
From S2P Require Import BackendInv.
From S2P Require Import BackendOps.
From S2P Require Import BackendLaunch.
Local Open Scope Z_scope.

Module BackendThm.
Import GenericBackend BackendInv BackendOps BackendLaunch.
Section thm.
Context {R S : Type} `{Countable R} {OP : RsrcOps R S} {L : RsrcLaws OP}.
Context (walk : gmap R (gset PressureEntry) -> list (R * gset PressureEntry)).
Context (walk_perm : forall m, walk m ≡ₚ map_to_list m).
Implicit Types (s : t R S) (se : SpawnedEntry R) (re : ReqEntry R) (r : Req) (j : Job).

(** ** The protocol of the callers

    Requests are numbered on 8 bits; a request is closed when it waits for nothing, and the last one when no
    live job is left; a job is submitted once until it ends or is killed; [start], [end] and [kill_job] are run
    when the identifier of the job is known ([id.wait]); a job is started once, ended after its start and
    not killed by [kill_job] or sensed by [heartbeat] after it. Nothing is said of the position of the launch
    thread nor of the entries that it retains, which the callers do not know. *)
Definition enabled s (e : event) : Prop :=
  match e with
  | OpenReq r _ _ => 0 < r < 256 /\ reqs s !! (r : Req) = None
  | CloseReq r => (forall re, reqs s !! r = Some re -> re_jobs re = ∅) /\ (dom (reqs s) = {[r]} -> forall j, find j s = None)
  | Submit _ j r _ _ => is_Some (reqs s !! r) /\ waiting_jobs s !! j = None /\ find j s = None
  | AddPressure j r si => exists re, reqs s !! r = Some re /\
      forall we, waiting_jobs s !! j = Some we -> re_jobs re !! j = None /\ agree (we_submit_info we) si
  | SetPressure j r si => exists re, reqs s !! r = Some re /\
      forall we, waiting_jobs s !! j = Some we -> awaits j re /\ agree (we_submit_info we) si
  | Start j | KillJob j => forall se, find j s = Some se -> se_started se = false /\ se_id se <> StartingId
  | End j => forall se, find j s = Some se -> se_started se = true /\ se_id se <> StartingId
  | KillWaiting r => r = 0 \/ is_Some (reqs s !! (r : Req))
  | HeartbeatJob _ j _ => exists se, find j s = Some se /\ se_started se = false
  | Heartbeat _ _ | Launch => True
  | Launcher _ res => forall id, res = inl id -> 0 <= id
  end.

(** The two events that the launch thread may race with: a heartbeat of a job whose failure is published but not its
    message yet, and the closing of the last request while an ended job is retained for the launch thread *)
Definition races s (e : event) : Prop :=
  match e with
  | HeartbeatJob _ j _ => reports j (pc s) /\ msgs s !! j = None /\ exists se, find j s = Some se /\ se_id se = FailedId
  | CloseReq r => dom (reqs s) = {[r]} /\ zombies s <> []
  | _ => False
  end.

(** ** The life cycle of the jobs *)

Definition upd (j : Job) (o : option JobState) (a a' : Job -> option JobState) : Prop :=
  a' j = o /\ forall j', j' <> j -> a' j' = a j'.
Definition unchanged (a a' : Job -> option JobState) : Prop := forall j, a' j = a j.

(** Jobs that request [req] waits for are launched. *)
Definition queue_some (a a' : Job -> option JobState) : Prop :=
  exists (req : Req) (js : list Job),
    (forall j, j ∈ js -> (exists ps, a j = Some (JWaiting ps) /\ is_Some (ps !! req)) /\ a' j = Some JQueued) /\
    (forall j, j ∉ js -> a' j = a j).

(** What each event may do to the jobs *)
Definition spec (e : event) (a a' : Job -> option JobState) : Prop :=
  match e with
  | OpenReq _ _ _ | CloseReq _ | Heartbeat _ _ | Launch => unchanged a a'
  | Submit _ j r si _ => a j = None /\ upd j (Some (JWaiting {[r := SubmitInfo.pressure si]})) a a'
  | AddPressure j r si | SetPressure j r si =>
    match a j with
    | Some (JWaiting ps) => upd j (Some (JWaiting (<[r := SubmitInfo.pressure si]> ps))) a a'
    | _ => unchanged a a'
    end
  | Start j => match a j with Some JQueued => upd j (Some JStarted) a a' | _ => unchanged a a' end
  | End j => match a j with Some JStarted => upd j None a a' | _ => unchanged a a' end
  | KillJob j => match a j with Some JQueued => upd j None a a' | _ => unchanged a a' end
  | KillWaiting r => forall j, a' j = kill_state r (a j)
  | HeartbeatJob _ j d => a j = Some JQueued /\ (unchanged a a' \/ upd j None a a')
  | Launcher _ _ => unchanged a a' \/ queue_some a a'
  end.

Lemma state_find s j se : Inv s -> find j s = Some se -> state s j = Some (if se_started se then JStarted else JQueued).
Proof.
  intros HI Hf. unfold state. case_decide as Hw; [|by rewrite Hf]. rewrite (i_disj _ HI j Hw) in Hf. done.
Qed.

Lemma state_no_find s j : find j s = None -> forall st, state s j = Some st -> exists ps, st = JWaiting ps.
Proof. intros Hf st. unfold state. rewrite Hf. case_decide; [|done]. intros [= <-]. eauto. Qed.

Lemma only_job_upd j o s s' : Inv s -> find j s <> None -> only_job j o s s' ->
  upd j ((fun se => if se_started se then JStarted else JQueued) <$> o) (state s) (state s').
Proof.
  intros HI Hf (E1 & _ & E3 & _ & _ & _ & _ & _ & _ & Ej & Ej'). split.
  - unfold state. rewrite E3. rewrite decide_False by (intros Hw; by rewrite (i_disj _ HI j Hw) in Hf). by rewrite Ej.
  - intros j' Hne. unfold state. by rewrite E1, E3, Ej'.
Qed.

Lemma upd_same_jobs j o a s s' : upd j o a (state s) -> same_jobs s s' -> upd j o a (state s').
Proof. intros [Hj Hj'] Hs. split; [by rewrite Hs|]. intros j' Hne. rewrite Hs. auto. Qed.

(** The events on a spawned job *)
Lemma start_event_ok j s : Inv s -> enabled s (Start j) ->
  exists s', start j s = Ret s' /\ Inv s' /\ spec (Start j) (state s) (state s').
Proof.
  intros HI He. unfold start. destruct (find j s) as [se|] eqn:Hf.
  - destruct (He se Hf) as [Hst _]. destruct (tab_start_ok s j se HI Hf Hst) as (s' & -> & HI' & Ho). simpl.
    eexists. split; [done|]. rewrite (state_find s j se HI Hf), Hst. pose proof (only_job_upd _ _ _ _ HI ltac:(by rewrite Hf) Ho) as Hu.
    destruct call_launch_after_start; [|done]. destruct (wake_ok s' HI') as [HI2 Hs2]. split; [done|]. by eapply upd_same_jobs.
  - exists s. split; [done|]. split; [done|]. pose proof (state_no_find s j Hf) as Hn. simpl.
    destruct (state s j) as [st|] eqn:E; [|done]. by destruct (Hn st eq_refl) as [ps ->].
Qed.

Lemma end_event_ok j s : Inv s -> enabled s (End j) ->
  exists s', end_ j s = Ret s' /\ Inv s' /\ spec (End j) (state s) (state s').
Proof.
  intros HI He. unfold end_. destruct (find j s) as [se|] eqn:Hf.
  - destruct (He se Hf) as [Hst Hid]. destruct (tab_end_ok s j se HI Hf Hid) as (s' & Et & HI' & Ho). rewrite Hst. simpl. rewrite Et. simpl.
    eexists. split; [done|]. rewrite (state_find s j se HI Hf), Hst. pose proof (only_job_upd _ _ _ _ HI ltac:(by rewrite Hf) Ho) as Hu.
    destruct (_ || _); [|done]. destruct (wake_ok s' HI') as [HI2 Hs2]. split; [done|]. by eapply upd_same_jobs.
  - exists s. split; [done|]. split; [done|]. pose proof (state_no_find s j Hf) as Hn. simpl.
    destruct (state s j) as [st|] eqn:E; [|done]. by destruct (Hn st eq_refl) as [ps ->].
Qed.

Lemma kill_event_ok j s : Inv s -> enabled s (KillJob j) ->
  exists s', kill_job j s = Ret s' /\ Inv s' /\ spec (KillJob j) (state s) (state s').
Proof.
  intros HI He. unfold kill_job. destruct (find j s) as [se|] eqn:Hf.
  - destruct (He se Hf) as [Hst Hid]. destruct (tab_end_ok s j se HI Hf Hid) as (s' & Et & HI' & Ho). rewrite Hst. simpl. rewrite Et.
    exists s'. split; [done|]. split; [done|]. rewrite (state_find s j se HI Hf), Hst. by apply (only_job_upd _ None _ _ HI ltac:(by rewrite Hf)).
  - exists s. split; [done|]. split; [done|]. pose proof (state_no_find s j Hf) as Hn. simpl.
    destruct (state s j) as [st|] eqn:E; [|done]. by destruct (Hn st eq_refl) as [ps ->].
Qed.

Lemma Inv_msgs s j : Inv s -> find j s = None -> Inv (set_msgs (delete j (msgs s)) s).
Proof.
  intros [HW HR HS (Hd & Hp & Ht) HD] Hf. split; simpl; [done..| |done]. split_and!; [done..|]. intros j' se Hj.
  destruct (Ht j' se Hj) as [E1 E2 E3 E4]. split; [done..|]. intros Hz Hid. destruct (decide (j = j')) as [<-|].
  - rewrite find_None in Hf. specialize (Hf se Hj). congruence.
  - rewrite lookup_delete_ne by done. auto.
Qed.

Lemma relaunch_ok now s : Inv s -> Inv (launch (note_submit now s)) /\ same_jobs s (launch (note_submit now s)) /\
  msgs (launch (note_submit now s)) = msgs s /\ forall j, find j (launch (note_submit now s)) = find j s.
Proof.
  intros HI. destruct (note_submit_ok now s HI) as [H1 S1]. destruct (launch_ok _ H1) as [H2 S2]. split_and!; [done| | |].
  - intros j. by rewrite S2, S1.
  - unfold launch, note_submit. by repeat case_match.
  - intros j. unfold launch, note_submit. by repeat case_match.
Qed.

Lemma heartbeat_event_ok now j d s : Inv s -> enabled s (HeartbeatJob now j d) -> ~ races s (HeartbeatJob now j d) ->
  exists s' d', heartbeat_job now j d s = Ret (s', d') /\ Inv s' /\ spec (HeartbeatJob now j d) (state s) (state s').
Proof.
  intros HI (se & Hf & Hst) Hr. unfold heartbeat_job. rewrite Hf, Hst. simpl.
  assert (state s j = Some JQueued) as Hs by (by rewrite (state_find s j se HI Hf), Hst).
  destruct (Z.eqb_spec (se_id se) NoId) as [|_]; simpl; [do 2 eexists; split; [done|]; by split_and!; [..|left]|].
  destruct (Z.eqb_spec (se_id se) StartingId) as [|Hid]; simpl; [do 2 eexists; split; [done|]; by split_and!; [..|left]|].
  destruct (tab_end_ok s j se HI Hf Hid) as (s1 & Et & HI1 & Ho).
  pose proof (only_job_upd _ None _ _ HI ltac:(by rewrite Hf) Ho) as Hu. pose proof Ho as (_ & _ & _ & Em & _ & _ & _ & _ & _ & Efj & _).
  destruct (relaunch_ok now s1 HI1) as (HI2 & Hs2 & Hm2 & Hf2).
  destruct (Z.eqb_spec (se_id se) FailedId) as [Hfail|_]; simpl.
  - rewrite Et. simpl. pose proof Hf as [Hj Hz]%find_Some. pose proof (proj2 (proj2 (i_launches _ HI)) j se Hj) as [_ _ _ He4].
    destruct (msgs s !! j) as [msg|] eqn:Hmsg.
    2:{ exfalso. destruct (He4 Hz Hfail) as [[? ?]|?]; [done|]. apply Hr. simpl. eauto 10. }
    rewrite Hm2, Em, (at_Some _ _ _ Hmsg). simpl. do 2 eexists. split; [done|]. split; [rewrite <- Em, <- Hm2; apply Inv_msgs; [done|by rewrite Hf2]|].
    split; [done|right]. eapply (upd_same_jobs _ _ _ s1); [exact Hu|]. exact Hs2.
  - destruct d; simpl; [do 2 eexists; split; [done|]; by split_and!; [..|left]|..];
      rewrite Et; simpl; (do 2 eexists; split; [done|]; split; [done|]; split; [done|right; by eapply upd_same_jobs]).
Qed.

(** The races: they stop the server *)
Lemma idle_tab s : Inv s -> (forall j, find j s = None) -> zombies s = [] -> tab s = ∅.
Proof.
  intros HI Hn Hz. apply map_empty. intros j. destruct (tab s !! j) as [se|] eqn:E; [|done]. exfalso.
  assert (j ∈ zombies s) as Hj by (apply (i_spawned _ HI); exists se; split; [done|]; by apply (proj1 (find_None s j) (Hn j))).
  rewrite Hz in Hj. by apply not_elem_of_nil in Hj.
Qed.

Lemma race_dec s e : Inv s -> races s e \/ ~ races s e.
Proof.
  intros HI. destruct e; simpl; try (by right); try tauto.
  - destruct (decide (dom (reqs s) = {[r]} /\ zombies s <> [])); auto.
  - destruct (find j s) as [se|] eqn:Hf; [|right; naive_solver]. destruct (decide (se_id se = FailedId)) as [Hid|]; [|right; naive_solver].
    destruct (msgs s !! j) eqn:Hm; [right; naive_solver|left]. split_and!; [|done|eauto].
    pose proof Hf as [Hj Hz]%find_Some. pose proof (proj2 (proj2 (i_launches _ HI)) j se Hj) as [_ _ _ H4].
    destruct (H4 Hz Hid) as [[? ?]|?]; [congruence|done].
Qed.

Lemma race_stops s e : Inv s -> enabled s e -> races s e -> exec walk e s = Crash.
Proof.
  intros HI. destruct e; simpl; try done.
  - intros [He _] [Hd Hz]. destruct (close_req_ok r s HI He) as (s' & -> & _). rewrite decide_True; [done|]. split; [done|].
    intros Ht. destruct (zombies s) as [|j z] eqn:E; [done|]. destruct (proj1 (proj2 (proj2 (i_spawned _ HI)) j)) as (se & Hj & _).
    { rewrite E. left. }
    by rewrite Ht in Hj.
  - intros (se & Hf & Hst) (_ & Hm & se' & Hf' & Hid). simplify_eq. unfold heartbeat_job. rewrite Hf, Hst, Hid. simpl.
    destruct (tab_end_ok s j se HI Hf) as (s1 & -> & _ & Ho); [by rewrite Hid|]. simpl. destruct Ho as (_ & _ & _ & Em & _).
    unfold at_. replace (msgs (launch (note_submit now s1))) with (msgs s1); [by rewrite Em, Hm|]. unfold launch, note_submit. by repeat case_match.
Qed.

(** ** Runs *)

(** The effect of a new pressure, in terms of the state of the job *)
Lemma pressure_spec j r p s s' :
  match waiting_jobs s !! j with
  | Some _ => moves j (Some (JWaiting (<[r := p]> (pressures j (reqs s))))) s s'
  | None => same_jobs s s'
  end ->
  match state s j with
  | Some (JWaiting ps) => upd j (Some (JWaiting (<[r := p]> ps))) (state s) (state s')
  | _ => unchanged (state s) (state s')
  end.
Proof.
  intros Hm. destruct (waiting_jobs s !! j) eqn:Ew.
  - assert (state s j = Some (JWaiting (pressures j (reqs s)))) as -> by (apply state_waiting; rewrite Ew; eauto). exact Hm.
  - destruct (state s j) as [[ps| |]|] eqn:Es; [|done..]. apply state_waiting in Es as [[? ?] _]. congruence.
Qed.

Lemma event_ok s e : Inv s -> enabled s e -> ~ races s e ->
  (exists s', exec walk e s = Ret s' /\ Inv s' /\ spec e (state s) (state s')) \/
  (exists now j r si l msg, e = Submit now j r si l /\ exec walk e s = Throw msg).
Proof.
  intros HI He Hrace. destruct e as [r n v|r|now j r si l|j r si|j r si|j|j|j|r|period now|now j d| |etas res]; simpl in He |- *.
  - left. destruct He as [Hr' Hn]. simpl. destruct (open_req_ok r n v s HI Hr' Hn) as (s' & -> & ? & ? & _). eauto.
  - left. destruct He as [He Hn]. simpl. destruct (close_req_ok r s HI He) as (s' & -> & ? & ? & _). rewrite decide_False; [eauto|].
    intros [Hd Ht]. apply Hrace. split; [done|]. intros Hz. by apply Ht, idle_tab; auto.
  - destruct He as (Hr & Hw & Hf). destruct (submit_ok now j r si l s HI Hr Hw Hf) as [[msg ->]|(s' & -> & ? & Hm)].
    + right. by do 6 eexists.
    + left. exists s'. split_and!; [done..| |exact Hm].
      unfold state. rewrite decide_False, Hf by (rewrite Hw; by intros [? ?]). done.
  - left. destruct He as (re & Hr & Hg). destruct (add_pressure_ok j r si s re HI Hr Hg) as (s' & -> & ? & Hm).
    exists s'. split_and!; [done..|]. by apply pressure_spec.
  - left. destruct He as (re & Hr & Hg). destruct (set_pressure_ok j r si s re HI Hr Hg) as (s' & -> & ? & Hm).
    exists s'. split_and!; [done..|]. by apply pressure_spec.
  - left. by apply start_event_ok.
  - left. by apply end_event_ok.
  - left. by apply kill_event_ok.
  - left. destruct (kill_waiting_ok r s HI He) as (s' & res & -> & ? & ? & _). simpl. eauto.
  - left. eexists. split; [done|]. unfold heartbeat. destruct (_ <? _); [|done]. by apply launch_ok.
  - left. destruct (heartbeat_event_ok now j d s HI He Hrace) as (s' & d' & -> & ? & ?). simpl. eauto.
  - left. eexists. split; [done|]. by apply launch_ok.
  - left. destruct (launcher_step_ok walk walk_perm etas res s HI He) as (s' & -> & ? & Hm). exists s'. split_and!; [done..|].
    destruct (pc s) as [|[|[req eta] todo]|todo ds|e todo j ds|todo j ds]; try (left; exact Hm).
    destruct Hm as (ds & _ & [Hw Hq Ho _ _ _ _]). right. exists req, ds.*1. split; [|done]. intros j Hj. split; auto.
Qed.

(** The states reached from a backend whose resources account for no job *)
Inductive reach (rs0 : S) : t R S -> Prop :=
| reach_init : held rs0 [] [] -> reach rs0 (init 0 rs0)
| reach_step s e s' : reach rs0 s -> enabled s e -> exec walk e s = Ret s' -> reach rs0 s'.

Lemma event_ret s e s' : Inv s -> enabled s e -> exec walk e s = Ret s' -> Inv s' /\ spec e (state s) (state s').
Proof.
  intros HI He Hx. destruct (race_dec s e HI) as [Hr|Hr]; [rewrite (race_stops s e HI He Hr) in Hx; done|].
  destruct (event_ok s e HI He Hr) as [(s2 & E & HI' & Hs)|(? & ? & ? & ? & ? & ? & _ & E)]; [|congruence]. rewrite Hx in E. by injection E as <-.
Qed.

Lemma reach_backend_inv rs0 s : reach rs0 s -> Inv s.
Proof. induction 1 as [Hh|s e s' _ IH He Hx]; [by apply backend_init_inv|]. by eapply event_ret. Qed.

(** ** The launch thread alone *)

Fixpoint launcher_run (etas : list (Req * Z)) (l : list launch_result) s : outcome (t R S) :=
  match l with
  | [] => Ret s
  | res :: l => s' ← launcher_step walk etas res s; launcher_run etas l s'
  end.

(** Bounds the steps left before the launch thread sleeps *)
Definition steps_left s : nat :=
  3 * size (waiting_jobs s) +
  match pc s with
  | Sleeping => 0
  | Scanning todo => 2 * length todo + 1
  | Spawning todo ds => 2 * length todo + 2 + 3 * length ds
  | Releasing todo _ ds => 2 * length todo + 2 + 3 * length ds + 1
  | Reporting _ todo _ ds => 2 * length todo + 2 + 3 * length ds + 2
  end.

Lemma update_frame j f s s' : update j f s = Ret s' -> waiting_jobs s' = waiting_jobs s.
Proof. unfold update. intros E. inv_ret. by subst. Qed.

Lemma steps_left_decreases etas res s s' : Inv s -> (forall id, res = inl id -> 0 <= id) -> pc s <> Sleeping ->
  launcher_step walk etas res s = Ret s' -> (steps_left s' < steps_left s)%nat.
Proof.
  intros HI Hres Hpc E. destruct (launcher_step_ok walk walk_perm etas res s HI Hres) as (s2 & E2 & _ & Hm). rewrite E in E2.
  injection E2 as <-. unfold launcher_step in E.
  destruct (pc s) as [|[|[req eta] todo]|todo [|[j ld] ds]|e todo j ds|todo j ds] eqn:Epc; [done|..].
  - injection E as <-. unfold steps_left. rewrite Epc. simpl. lia.
  - destruct Hm as (ds & Epc' & Hsc). unfold steps_left. rewrite Epc, Epc', (s_count _ _ _ _ Hsc), length_fmap. simpl. lia.
  - injection E as <-. unfold steps_left. rewrite Epc. simpl. lia.
  - apply bind_ret in E as (se & _ & E). destruct (se_zombie se).
    { apply bind_ret in E as (s1 & Eu & E). injection E as <-. unfold steps_left. simpl. rewrite (update_frame _ _ _ _ Eu), Epc. simpl. lia. }
    destruct res as [id|e].
    + apply bind_ret in E as (s1 & Eu & E). apply bind_ret in E as (_ & _ & E). injection E as <-. unfold steps_left. simpl.
      rewrite (update_frame _ _ _ _ Eu), Epc. simpl. lia.
    + apply bind_ret in E as (s1 & Eu & E). injection E as <-. unfold steps_left. simpl. rewrite (update_frame _ _ _ _ Eu), Epc. simpl. lia.
  - injection E as <-. unfold steps_left. rewrite Epc. simpl. lia.
  - apply bind_ret in E as (s1 & Eu & E). injection E as <-. unfold steps_left. simpl. rewrite (update_frame _ _ _ _ Eu), Epc. simpl. lia.
Qed.

Lemma launcher_run_ends etas l s : Inv s -> Forall (fun res => forall id, res = inl id -> 0 <= id) l -> (steps_left s <= length l)%nat ->
  exists l1 l2 s', l = l1 ++ l2 /\ launcher_run etas l1 s = Ret s' /\ pc s' = Sleeping.
Proof.
  revert s. induction l as [|res l IH]; intros s HI Hl Hlen.
  - exists [], [], s. split_and!; [done..|]. unfold steps_left in Hlen. simpl in Hlen. destruct (pc s); try lia. done.
  - assert (pc s = Sleeping \/ pc s <> Sleeping) as [Hp|Hp] by (destruct (pc s); [by left|by right..]); [by exists [], (res :: l), s|].
    apply Forall_cons in Hl as [Hres Hl]. destruct (launcher_step_ok walk walk_perm etas res s HI Hres) as (s1 & E1 & HI1 & _).
    pose proof (steps_left_decreases _ _ _ _ HI Hres Hp E1). destruct (IH s1 HI1 Hl) as (l1 & l2 & s' & -> & E & ?); [simpl in Hlen; lia|].
    exists (res :: l1), l2, s'. split_and!; [done| |done]. simpl. by rewrite E1.
Qed.

Lemma find_state s j : Inv s -> (exists se, find j s = Some se) <-> state s j = Some JQueued \/ state s j = Some JStarted.
Proof.
  intros HI. split.
  - intros [se Hf]. rewrite (state_find s j se HI Hf). destruct (se_started se); auto.
  - unfold state. case_decide; [intros [?|?]; done|]. destruct (find j s) as [se|]; [eauto|]. by intros [?|?].
Qed.

(** *** The launch thread while a handler holds the mutex *)

Fixpoint held_run (etas : list (Req * Z)) (l : list launch_result) s : outcome (t R S) :=
  match l with
  | [] => Ret s
  | res :: l => s' ← launcher_step_held walk etas res s; held_run etas l s'
  end.

(** Bounds the steps left before all the chosen jobs are launched *)
Definition launches_left s : nat :=
  match pc s with
  | Spawning _ ds => 3 * length ds
  | Releasing _ _ ds => 3 * length ds + 1
  | Reporting _ _ _ ds => 3 * length ds + 2
  | _ => 0
  end.

Lemma starting_pending s j se : Inv s -> find j s = Some se -> se_id se = StartingId -> j ∈ pending (pc s).
Proof.
  intros HI [Hj _]%find_Some Hid. apply (e_start _ _ _ _ (proj2 (proj2 (i_launches _ HI)) j se Hj)) in Hid.
  destruct (pc s); simpl in *; try done; by right.
Qed.

Lemma launches_left_decreases etas res s s' j : Inv s -> (forall id, res = inl id -> 0 <= id) -> j ∈ pending (pc s) ->
  launcher_step walk etas res s = Ret s' -> (launches_left s' < launches_left s)%nat.
Proof.
  intros HI Hres Hj E. unfold launcher_step in E. destruct (pc s) as [|[|[req eta] todo]|todo [|[j' ld] ds]|e todo j' ds|todo j' ds] eqn:Epc;
    try by apply not_elem_of_nil in Hj.
  - apply bind_ret in E as (se & _ & E). destruct (se_zombie se); [|destruct res as [id|e]]; inv_ret; subst; unfold launches_left; rewrite Epc; simpl; lia.
  - injection E as <-. unfold launches_left. rewrite Epc. simpl. lia.
  - inv_ret. subst. unfold launches_left. rewrite Epc. simpl. lia.
Qed.

Lemma launcher_unblocks etas l s j : Inv s -> Forall (fun res => forall id, res = inl id -> 0 <= id) l ->
  (launches_left s <= length l)%nat -> j ∈ pending (pc s) -> is_Some (find j s) ->
  exists l1 l2 s', l = l1 ++ l2 /\ held_run etas l1 s = Ret s' /\ Inv s' /\ is_Some (find j s') /\ j ∉ pending (pc s').
Proof.
  revert s. induction l as [|res l IH]; intros s HI Hl Hlen Hj Hf.
  - unfold launches_left in Hlen. simpl in Hlen. destruct (pc s) as [| |todo [|]| |]; simpl in *; try lia; by apply not_elem_of_nil in Hj.
  - apply Forall_cons in Hl as [Hres Hl]. destruct (launcher_step_ok walk walk_perm etas res s HI Hres) as (s1 & E1 & HI1 & Hm).
    pose proof (launches_left_decreases etas res s s1 j HI Hres Hj E1) as Hlt.
    assert (launcher_step_held walk etas res s = Ret s1) as E2.
    { unfold launcher_step_held. destruct (pc s) as [|[|]| | |]; try done. by apply not_elem_of_nil in Hj. }
    assert (state s1 j = state s j) as Es.
    { destruct (pc s) as [|[|[]]| | |]; try apply Hm. by apply not_elem_of_nil in Hj. }
    assert (is_Some (find j s1)) as Hf1 by (apply find_state; [done|]; rewrite Es; by apply find_state).
    destruct (decide (j ∈ pending (pc s1))) as [Hj1|Hj1].
    + destruct (IH s1 HI1 Hl) as (l1 & l2 & s' & -> & E & ?); [simpl in Hlen; lia|done..|].
      exists (res :: l1), l2, s'. split_and!; [done| |tauto..]. simpl. by rewrite E2.
    + exists [res], l, s1. split_and!; [done| |done..]. simpl. by rewrite E2.
Qed.

(** ** Progress *)

Lemma all_idle s : Inv s -> (forall j, find j s = None) -> collect queued_rsrcs (tab s) = [] /\ collect started_rsrcs (tab s) = [].
Proof.
  intros HI Hn. assert (forall (f : SpawnedEntry R -> option R), (forall se, se_zombie se = true -> f se = None) -> collect f (tab s) = []) as Hc.
  { intros f Hf. destruct (collect f (tab s)) as [|x l] eqn:E; [done|].
    assert (x ∈ collect f (tab s)) as Hx by (rewrite E; left). unfold collect in Hx.
    apply list_elem_of_omap in Hx as ([j se] & Hin%elem_of_map_to_list & Hs). simpl in Hs.
    pose proof (proj1 (find_None s j) (Hn j) se Hin). rewrite Hf in Hs by done. done. }
  split; apply Hc; intros se Hz; unfold queued_rsrcs, started_rsrcs; by rewrite Hz.
Qed.

(** Nothing of what request [req] waits for fits in the free resources. *)
Definition nothing_fits (req : Req) s : Prop :=
  forall j p we key, pressures j (reqs s) !! req = Some p -> waiting_jobs s !! j = Some we ->
    round (rsrcs s) (we_rsrcs we) = Ret key -> fit_now (rsrcs s) key = false.

Lemma exhausted_fits req n s : Inv s -> exhausted req n s -> (n <> 0 /\ n <= size_ s) \/ nothing_fits req s.
Proof.
  intros HI [?|Hx]; [by left|right]. intros j p we key (re & Hre & Hj)%pressures_lookup Hw Ek.
  destruct (q_out _ _ _ (proj1 (i_waits _ HI) req re Hre) p j Hj) as (we' & key' & q & Hw' & Ek' & Hq & _).
  assert (we' = we) as -> by congruence. assert (key' = key) as -> by congruence. by eapply Hx.
Qed.

Lemma idle_size s : Inv s -> (forall j, find j s = None) -> size_ s = 0.
Proof.
  intros HI Hn. unfold size_. pose proof (i_spawned _ HI) as (_ & Hd & Hz).
  assert (dom (tab s) = list_to_set (zombies s)) as E.
  { apply set_eq. intros j. rewrite elem_of_dom, elem_of_list_to_set, Hz. split.
    - intros [se Hj]. exists se. split; [done|]. by apply (proj1 (find_None s j) (Hn j)).
    - intros (se & Hj & _). eauto. }
  rewrite <- size_dom, E, size_list_to_set by done. lia.
Qed.

(** An idle backend launches a job. *)
Lemma idle_launches req js s s' : Inv s -> Inv s' -> scanned req js s s' -> (forall j, find j s = None) ->
  forall re, reqs s !! req = Some re -> 0 <= re_n_jobs re -> re_jobs re <> ∅ -> js <> [].
Proof.
  intros HI HI' [Hwt _ Hot _ _ Hex _] Hn re Hre Hnj Hne ->.
  assert (forall j, state s' j = state s j) as Hst by (intros j; apply Hot, not_elem_of_nil).
  assert (forall j, find j s' = None) as Hn'.
  { intros j. destruct (find j s') as [se|] eqn:Hf; [|done]. exfalso.
    assert (exists se, find j s = Some se) as [? ?]; [|by rewrite Hn in *].
    apply find_state; [done|]. rewrite <- Hst. apply find_state; eauto. }
  destruct (exhausted_fits req (re_n_jobs re) s' HI' (Hex re Hre)) as [[? ?]|Hfit].
  { rewrite (idle_size s' HI' Hn') in *. lia. }
  apply map_choose in Hne as (j & p & Hj). destruct (awaits_waiting _ _ _ _ _ _ (i_waits _ HI) Hre (mk_is_Some _ _ Hj)) as [we Hw].
  assert (state s' j = Some (JWaiting (pressures j (reqs s)))) as Hs by (rewrite Hst; apply state_waiting; rewrite Hw; eauto).
  apply state_waiting in Hs as [[we' Hw'] Hps]. destruct (waits_round _ _ _ _ _ (i_waits _ HI') Hw') as (key & Ek & Hal).
  assert (pressures j (reqs s') !! req = Some p) as Hp by (rewrite <- Hps; apply pressures_lookup; eauto).
  specialize (Hfit j p we' key Hp Hw' Ek). pose proof (proj1 (i_spawned _ HI')) as Hh. destruct (all_idle s' HI' Hn') as [E1 E2].
  rewrite E1, E2 in Hh. rewrite (fit_idle _ _ Hh Hal) in Hfit. done.
Qed.

(** ** Theorems *)


(** C7 Every event moves the jobs along their life cycle as the header of generic.hh describes it: a job is
    waiting, with one pressure per request, then queued, then started, and leaves the backend when it ends or
    is killed; a launch only queues jobs of the request it scans, and killing a request only drops the jobs
    nobody else waits for. *)
Theorem backend_refines rs0 s e s' : reach rs0 s -> enabled s e -> exec walk e s = Ret s' ->
  spec e (state s) (state s').
Proof.
  intros Hr He E. by apply (event_ret s e s' (reach_backend_inv _ _ Hr) He E).
Qed.

(** C8 The launches for a request are complete and in order. The jobs that are handed to the launch thread, in this
    order, are those that the request was waiting for and that become queued, all other jobs being unchanged.
    Each one fits in the resources that the previous ones leave and has the highest pressure of those that fit
    at this point. They stop when the request has its share of jobs ([-j]) or when no job it waits for fits; they
    never make the spawned jobs exceed this share; and when no job is spawned, a request that waits for a job
    gets one launched. *)
Theorem launch_complete rs0 s etas res s' req eta todo re :
  reach rs0 s -> pc s = Scanning ((req, eta) :: todo) -> reqs s !! req = Some re -> 0 <= re_n_jobs re ->
  (forall id, res = inl id -> 0 <= id) -> launcher_step walk etas res s = Ret s' ->
  exists ds, pc s' = Spawning todo ds /\
    (forall j, j ∈ ds.*1 -> (exists ps, state s j = Some (JWaiting ps) /\ is_Some (ps !! req)) /\ state s' j = Some JQueued) /\
    (forall j, j ∉ ds.*1 -> state s' j = state s j) /\
    greedy (wanted req s) (rsrcs s) ds.*1 (rsrcs s') /\
    ((re_n_jobs re <> 0 /\ re_n_jobs re <= size_ s') \/ nothing_fits req s') /\
    size_ s' = size_ s + Z.of_nat (length ds) /\ (re_n_jobs re <> 0 -> ds <> [] -> size_ s' <= re_n_jobs re) /\
    ((forall j, find j s = None) -> re_jobs re <> ∅ -> ds <> []).
Proof.
  intros Hr Hpc Hre Hn Hres E. pose proof (reach_backend_inv _ _ Hr) as HI.
  destruct (launcher_step_ok walk walk_perm etas res s HI Hres) as (s2 & E2 & HI' & Hm). rewrite E in E2. injection E2 as <-.
  rewrite Hpc in Hm. destruct Hm as (ds & Hpc' & Hsc). exists ds. pose proof (s_size _ _ _ _ Hsc) as Hsz. rewrite length_fmap in Hsz.
  assert (ds <> [] -> ds.*1 <> []) as Hne by by destruct ds. split_and!; [done|..|done| |].
  - intros j Hj. split; [by apply (s_waited _ _ _ _ Hsc)|by apply (s_queued _ _ _ _ Hsc)].
  - apply (s_other _ _ _ _ Hsc).
  - apply (s_greedy _ _ _ _ Hsc).
  - apply exhausted_fits; [done|]. by apply (s_exhausted _ _ _ _ Hsc).
  - intros Hnj Hd. apply (s_bound _ _ _ _ Hsc); auto.
  - intros Hidle Hj ->. by apply (idle_launches req [] s s' HI HI' Hsc Hidle re).
Qed.

(** C36 A round of the launch thread ends: whatever the processes answer, it goes through all the requests and
    sleeps after at most [steps_left] steps. *)
Theorem launcher_ends rs0 s etas l : reach rs0 s -> Forall (fun res => forall id, res = inl id -> 0 <= id) l ->
  (steps_left s <= length l)%nat ->
  exists l1 l2 s', l = l1 ++ l2 /\ launcher_run etas l1 s = Ret s' /\ pc s' = Sleeping.
Proof. intros Hr. apply launcher_run_ends, (reach_backend_inv _ _ Hr). Qed.

(** C37 The handlers that wait for a job being launched ([id.wait(StartingId)]) are released although they hold the mutex
    meanwhile: no other handler runs and the launch thread stops if it needs the mutex, but it does not before
    it has recorded the identifier of the job, or its failure, and notified the waiter, which it does in a bounded
    number of its own steps, whatever the processes answer; and the job is still there. *)
Theorem handlers_released rs0 s etas l j se : reach rs0 s -> Forall (fun res => forall id, res = inl id -> 0 <= id) l ->
  (launches_left s <= length l)%nat -> find j s = Some se -> se_id se = StartingId ->
  exists l1 l2 s' se', l = l1 ++ l2 /\ held_run etas l1 s = Ret s' /\ find j s' = Some se' /\
    se_id se' <> StartingId /\ se_hold se' = false.
Proof.
  intros Hr%reach_backend_inv Hl Hlen Hf Hid. pose proof (starting_pending s j se Hr Hf Hid) as Hj.
  destruct (launcher_unblocks etas l s j Hr Hl Hlen Hj) as (l1 & l2 & s' & -> & E & HI & [se' Hf'] & Hj'); [eauto|].
  exists l1, l2, s', se'. split_and!; [done..| |]; pose proof Hf' as [Ht _]%find_Some.
  - intros Hid'. by apply Hj', (starting_pending s' j se').
  - pose proof (e_hold _ _ _ _ (proj2 (proj2 (i_launches _ HI)) j se' Ht)) as He. destruct (se_hold se'); [tauto|done].
Qed.
End thm.

(** ** The local backend *)
Section local.
Context (from_string_rsrc : bool -> string -> string -> outcome Z).
Context (parse_u32 : forall rnd_up k x r, from_string_rsrc rnd_up k x = Ret r -> Local.u32v r).
Context (walk : gmap Local.RsrcsData (gset PressureEntry) -> list (Local.RsrcsData * gset PressureEntry)).
Context (walk_perm : forall m, walk m ≡ₚ map_to_list m).
#[local] Existing Instance Local.laws.

(** Rounded resources of a live job *)
Definition live_rounded (se : SpawnedEntry Local.RsrcsData) : option Local.RsrcsData :=
  if se_zombie se then None else Some (se_rounded_rsrcs se).

Lemma collect_live (tb : gmap Job (SpawnedEntry Local.RsrcsData)) :
  collect queued_rsrcs tb ++ collect started_rsrcs tb ≡ₚ collect live_rounded tb.
Proof.
  unfold collect. induction (map_to_list tb) as [|[j se] l IH]; [done|]. simpl.
  unfold queued_rsrcs at 1, started_rsrcs at 1, live_rounded at 1.
  destruct (se_zombie se), (se_started se); simpl; [exact IH..| |by rewrite IH]. rewrite <- Permutation_middle. by rewrite IH.
Qed.

(** C38 The local backend never promises more than it has, for capacities below 2^31 that do not change: in all the
    states reached from such a configuration, the occupied resources are exactly the sum of the rounded resources
    of the spawned jobs, and are within the capacity, component by component. [fit_wraps] and [lower_capacity]
    below show what happens above 2^31 and when a new configuration lowers a capacity. *)
Theorem local_capacity (rs0 : Local.t) (s : t Local.RsrcsData Local.t) :
  reach (L := Local.laws from_string_rsrc parse_u32) walk rs0 s ->
  Local.occupied (rsrcs s) = Local.total (length (Local.capacity_ (rsrcs s))) (collect live_rounded (tab s)) /\
  Forall2 Z.le (Local.occupied (rsrcs s)) (Local.capacity_ (rsrcs s)).
Proof.
  intros Hr. pose proof (proj1 (i_spawned _ (reach_backend_inv walk walk_perm _ _ Hr))) as (_ & _ & Ho & Hle).
  split; [|done]. rewrite Ho. apply Local.total_perm, collect_live.
Qed.
End local.
End BackendThm.

(** ** A run of the local backend with 4 cpus *)
Module BackendSample.
Import GenericBackend BackendInv BackendOps BackendLaunch BackendThm.

(** Numbers of one digit *)
Definition digit (rnd_up : bool) (k x : string) : outcome Z :=
  match x with
  | String c EmptyString =>
    let n := Z.of_N (Ascii.N_of_ascii c) - 48 in
    if (0 <=? n) && (n <? 10) then Ret n else Throw "unrecognized value"
  | _ => Throw "unrecognized value"
  end.

Lemma digit_u32 rnd_up k x r : digit rnd_up k x = Ret r -> Local.u32v r.
Proof.
  unfold digit, Local.u32v. destruct x as [|c [|]]; [done| |done]. destruct (_ && _) eqn:E; [|done].
  intros [= <-]. b2p. lia.
Qed.

Definition walk : gmap Local.RsrcsData (gset PressureEntry) -> list (Local.RsrcsData * gset PressureEntry) := map_to_list.
Lemma walk_perm m : walk m ≡ₚ map_to_list m.
Proof. done. Qed.

#[export] Instance sample_ops : RsrcOps Local.RsrcsData Local.t := Local.ops digit.
#[export] Instance sample_laws : RsrcLaws sample_ops := Local.laws digit digit_u32.

Definition config : Local.t := (Local.sub_config digit true [("cpu"%string, "4"%string)] Local.init).1.
Definition info (p : Z) : SubmitInfo.t := SubmitInfo.mk 0 [] false 0 255 p (JobReason.mk 0 0) 0 0.

Definition keys : list (string * Z) := [("cpu"%string, 0); ("<single>"%string, 1)].
Lemma config_eq : config = Local.mk (list_to_map keys) ["cpu"%string; "<single>"%string] [4; 1] [0; 0]
  [("cpu"%string, 4); ("<single>"%string, 1)].
Proof. vm_compute. reflexivity. Qed.

Lemma config_held : held config [] [].
Proof.
  rewrite config_eq. split; [split; [|split; [|split]]|split; [|split]].
  - reflexivity.
  - vm_compute. reflexivity.
  - intros k i Hk. apply elem_of_list_to_map_2 in Hk. unfold keys in Hk. simpl Local.capacity_. simpl length.
    apply elem_of_cons in Hk as [Hk|Hk%list_elem_of_singleton]; injection Hk as -> ->; lia.
  - unfold Local.u31. simpl. rewrite !Forall_cons, Forall_nil. lia.
  - constructor.
  - reflexivity.
  - unfold Local.le. simpl. rewrite !Forall2_cons, Forall2_nil. lia.
Qed.

(** Two jobs are submitted; the second one has the highest pressure and leaves no room for the first one *)
Definition events : list event :=
  [ OpenReq 1 0 false;
    Submit 10 7 1 (info 5) [("cpu"%string, "2"%string)];
    Submit 11 8 1 (info 6) [("cpu"%string, "3"%string)];
    Launch;
    Launcher [(1, 100)] (inl 0);
    Launcher [] (inl 0);
    Launcher [] (inl 42) ].

Fixpoint run (l : list event) (s : t Local.RsrcsData Local.t) : outcome (t Local.RsrcsData Local.t) :=
  match l with [] => Ret s | e :: l => s' ← exec walk e s; run l s' end.
Definition after (n : nat) : t Local.RsrcsData Local.t :=
  match run (take n events) (init 0 config) with Ret s => s | _ => init 0 config end.

Lemma after_steps : Forall (fun n => forall e, events !! n = Some e -> exec walk e (after n) = Ret (after (S n))) (seq 0 7).
Proof. repeat constructor; intros e [= <-]; vm_compute; reflexivity. Qed.

Lemma after_enabled : Forall (fun n => forall e, events !! n = Some e -> enabled (after n) e) (seq 0 7).
Proof.
  repeat constructor; intros e [= <-]; simpl.
  - split; [lia|done].
  - split_and!; [apply (bool_decide_eq_true_1 _)|..]; vm_compute; reflexivity.
  - split_and!; [apply (bool_decide_eq_true_1 _)|..]; vm_compute; reflexivity.
  - done.
  - intros id [= <-]. lia.
  - intros id [= <-]. lia.
  - intros id [= <-]. lia.
Qed.

Lemma reach_after n : (n <= 7)%nat -> reach walk config (after n).
Proof.
  induction n as [|n IH]; intros Hn; [apply reach_init, config_held|].
  destruct (events !! n) as [e|] eqn:E; [|apply lookup_ge_None in E; simpl in E; lia].
  eapply (reach_step _ _ _ e); [apply IH; lia| |].
  - eapply (proj1 (Forall_forall _ _) after_enabled n); [|done]. apply elem_of_seq. lia.
  - eapply (proj1 (Forall_forall _ _) after_steps n); [|done]. apply elem_of_seq. lia.
Qed.



Lemma backend_refines_witness : spec (Submit 11 8 1 (info 6) [("cpu"%string, "3"%string)]) (state (after 2)) (state (after 3)).
Proof.
  apply (backend_refines walk walk_perm config (after 2)); [apply reach_after; lia| |].
  - split_and!; [apply (bool_decide_eq_true_1 _)|..]; vm_compute; reflexivity.
  - vm_compute. reflexivity.
Defined.

Definition request : ReqEntry Local.RsrcsData := default (mk_re ∅ ∅ 0 false) (reqs (after 5) !! 1).

(** Job 8 is launched, job 7 has to wait *)
Lemma launch_complete_witness : exists ds, pc (after 6) = Spawning [] ds /\
    (forall j, j ∈ ds.*1 -> (exists ps, state (after 5) j = Some (JWaiting ps) /\ is_Some (ps !! 1)) /\ state (after 6) j = Some JQueued) /\
    (forall j, j ∉ ds.*1 -> state (after 6) j = state (after 5) j) /\
    greedy (wanted 1 (after 5)) (rsrcs (after 5)) ds.*1 (rsrcs (after 6)) /\
    ((re_n_jobs request <> 0 /\ re_n_jobs request <= size_ (after 6)) \/ nothing_fits 1 (after 6)) /\
    size_ (after 6) = size_ (after 5) + Z.of_nat (length ds) /\ (re_n_jobs request <> 0 -> ds <> [] -> size_ (after 6) <= re_n_jobs request) /\
    ((forall j, find j (after 5) = None) -> re_jobs request <> ∅ -> ds <> []).
Proof.
  apply (launch_complete walk walk_perm config (after 5) [] (inl 0) (after 6) 1 100 [] request); [apply reach_after; lia|..].
  - vm_compute. reflexivity.
  - vm_compute. reflexivity.
  - vm_compute. discriminate.
  - intros id [= <-]. lia.
  - vm_compute. reflexivity.
Defined.

Definition answers (n : nat) : list launch_result := replicate n (inl 42).
Lemma answers_ok n : Forall (fun res => forall id, res = inl id -> 0 <= id) (answers n).
Proof. apply Forall_replicate. intros id [= <-]. lia. Qed.

Lemma launcher_ends_witness : exists l1 l2 s', answers 9 = l1 ++ l2 /\ launcher_run walk [] l1 (after 5) = Ret s' /\ pc s' = Sleeping.
Proof.
  apply (launcher_ends walk walk_perm config (after 5) [] (answers 9)); [apply reach_after; lia|apply answers_ok|].
  vm_compute. lia.
Defined.

Definition entry_8 : SpawnedEntry Local.RsrcsData := default (mk_se [] [] 0 0 false false false false) (find 8 (after 6)).

Lemma handlers_released_witness : exists l1 l2 s' se', answers 3 = l1 ++ l2 /\ held_run walk [] l1 (after 6) = Ret s' /\
  find 8 s' = Some se' /\ se_id se' <> StartingId /\ se_hold se' = false.
Proof.
  apply (handlers_released walk walk_perm config (after 6) [] (answers 3) 8 entry_8); [apply reach_after; lia|apply answers_ok|..].
  - vm_compute. lia.
  - vm_compute. reflexivity.
  - vm_compute. reflexivity.
Defined.

Lemma local_capacity_witness :
  Local.occupied (rsrcs (after 7)) = Local.total (length (Local.capacity_ (rsrcs (after 7)))) (collect live_rounded (tab (after 7))) /\
  Forall2 Z.le (Local.occupied (rsrcs (after 7))) (Local.capacity_ (rsrcs (after 7))).
Proof.
  apply (local_capacity digit digit_u32 walk walk_perm config (after 7)). apply reach_after. lia.
Defined.

(** ** Corner cases *)

(** The launch of job 8 fails *)
Definition failed : t Local.RsrcsData Local.t :=
  match exec walk (Launcher [] (inr "cannot fork"%string)) (after 6) with Ret s => s | _ => after 6 end.

Lemma failed_reach : reach walk config failed.
Proof.
  eapply (reach_step _ _ _ (Launcher [] (inr "cannot fork"%string))); [apply (reach_after 6); lia|by intros id [=]|].
  vm_compute. reflexivity.
Qed.

(** [_launch] publishes the failure of a launch before its message: a heartbeat in between does not find the
    message it swears to find. *)
Lemma heartbeat_race : reach walk config failed /\ enabled failed (HeartbeatJob 20 8 Alive) /\
  exec walk (HeartbeatJob 20 8 Alive) failed = Crash.
Proof.
  split; [exact failed_reach|]. split; [|vm_compute; reflexivity].
  exists (default entry_8 (find 8 failed)). split; vm_compute; reflexivity.
Qed.

(** Job 8 starts and ends, and job 7 is killed, before the launch thread releases the entry of job 8 *)
Definition ended : t Local.RsrcsData Local.t :=
  match run [Start 8; End 8; KillWaiting 1] (after 7) with Ret s => s | _ => after 7 end.

(** Closing the last request swears that no entry is left, including the entries that wait for the launch
    thread to forget them. *)
Lemma close_with_zombie : run [Start 8; End 8; KillWaiting 1] (after 7) = Ret ended /\
  Forall (fun j => find j ended = None) [7; 8] /\ waiting_jobs ended = ∅ /\ exec walk (CloseReq 1) ended = Crash.
Proof. split_and!; [|repeat constructor|..]; vm_compute; reflexivity. Qed.

(** [fit_now] adds on 32 bits: above 2^31, jobs that do not fit are launched. *)
Lemma fit_wraps : Local.fit_loop [3000000000] [2000000000] [3000000000] = true.
Proof. vm_compute. reflexivity. Qed.

(** A resource above 7 * 2^29 is rounded to 0. *)
Lemma round_wraps : round_rsrc 32 4000000000 = 0.
Proof. vm_compute. reflexivity. Qed.

(** A new configuration may lower a capacity below what is in use: the next end of job stops the server. *)
Lemma lower_capacity :
  let s := (Local.sub_config digit false [("cpu"%string, "1"%string)] (Local.set_occupied [4; 0] config)).1 in
  Local.release [1; 0] s = Crash.
Proof. vm_compute. reflexivity. Qed.

(** Each configuration appends to [public_capacity], the first one found by its readers stays the old one. *)
Lemma public_capacity_grows :
  Local.public_capacity (Local.sub_config digit false [("cpu"%string, "2"%string)] config).1 =
  [("cpu"%string, 4); ("<single>"%string, 1); ("cpu"%string, 2); ("<single>"%string, 1)].
Proof. vm_compute. reflexivity. Qed.

(** When the first configuration names [<single>] before another resource and a later one does not name it, the
    capacity of the last resource is set to 1 instead of the one of [<single>]. *)
Lemma single_misplaced :
  let s0 := (Local.sub_config digit true [("<single>"%string, "1"%string); ("cpu"%string, "4"%string)] Local.init).1 in
  let s1 := (Local.sub_config digit false [("cpu"%string, "4"%string)] s0).1 in
  zip (Local.rsrc_keys s1) (Local.capacity_ s1) = [("<single>"%string, 0); ("cpu"%string, 1)].
Proof. vm_compute. reflexivity. Qed.
End BackendSample.
