(* ===== verification/Workload.v ===== *)
(** * Workload book-keeping of the server: [Backend::Workload] of src/lmake_server/backend.x.hh and
    src/lmake_server/backend.cc. Dates and delays are in nanoseconds. *)
From Stdlib Require Import QArith.
From S2P Require Import Prelude.
From S2P Require Import BackendRsrc.
Local Open Scope Z_scope.

(** ** Sums over the entries of a map *)
Section sum.
Context {K A : Type} `{Countable K} (f : K -> A -> Z).
Implicit Types m : gmap K A.

Definition sumZ m : Z := foldr (fun kv acc => f kv.1 kv.2 + acc) 0 (map_to_list m).

Lemma sum_perm (l l' : list (K * A)) : l ≡ₚ l' ->
  foldr (fun kv acc => f kv.1 kv.2 + acc) 0 l = foldr (fun kv acc => f kv.1 kv.2 + acc) 0 l'.
Proof. induction 1; simpl; lia. Qed.

Lemma sum_empty : sumZ ∅ = 0.
Proof. unfold sumZ. by rewrite map_to_list_empty. Qed.

Lemma sum_insert m k a : m !! k = None -> sumZ (<[k := a]> m) = f k a + sumZ m.
Proof. intros Hk. unfold sumZ. by rewrite (sum_perm _ _ (map_to_list_insert m k a Hk)). Qed.

Lemma sum_delete m k a : m !! k = Some a -> sumZ m = f k a + sumZ (delete k m).
Proof. intros Hk. rewrite <- (insert_delete_id m k a Hk) at 1. by rewrite sum_insert by apply lookup_delete_eq. Qed.

Lemma sum_bound m b : (forall k a, m !! k = Some a -> 0 <= f k a <= b) -> 0 <= sumZ m <= b * Z.of_nat (size m).
Proof.
  induction m as [|k a m Hk IH] using map_ind; intros Hb; [rewrite sum_empty, map_size_empty; lia|].
  rewrite sum_insert, map_size_insert_None by done. pose proof (Hb k a (lookup_insert_eq m k a)).
  assert (0 <= sumZ m <= b * Z.of_nat (size m)) by (apply IH; intros k' a' Hk'; apply (Hb k'); rewrite lookup_insert_ne; congruence).
  lia.
Qed.
End sum.

Lemma sum_ext {K A} `{Countable K} (f g : K -> A -> Z) (m : gmap K A) :
  (forall k a, m !! k = Some a -> f k a = g k a) -> sumZ f m = sumZ g m.
Proof.
  induction m as [|k a m Hk IH] using map_ind; intros Hfg; [by rewrite !sum_empty|].
  rewrite !sum_insert by done. rewrite (Hfg k a) by apply lookup_insert_eq. f_equal. apply IH.
  intros k' a' Hk'. apply Hfg. rewrite lookup_insert_ne; congruence.
Qed.

Lemma sum_shift {K A} `{Countable K} (f : K -> A -> Z) (g : K -> Z) (d : Z) (m : gmap K A) :
  sumZ (fun k a => f k a - g k * d) m = sumZ f m - sumZ (fun k _ => g k) m * d.
Proof.
  induction m as [|k a m Hk IH] using map_ind; [by rewrite !sum_empty|]. rewrite !sum_insert by done. lia.
Qed.

Lemma sum_le {K A B} `{Countable K} (g : K -> Z) (m1 : gmap K A) (m2 : gmap K B) :
  (forall k, 0 <= g k) -> dom m1 ⊆ dom m2 -> sumZ (fun k _ => g k) m1 <= sumZ (fun k _ => g k) m2.
Proof.
  revert m2. induction m1 as [|k a m1 Hk IH] using map_ind; intros m2 Hg Hsub.
  - rewrite sum_empty. pose proof (sum_bound (fun k (_ : B) => g k) m2). clear -Hg.
    induction m2 as [|k b m Hk IH] using map_ind; [by rewrite sum_empty|]. rewrite sum_insert by done. specialize (Hg k). lia.
  - assert (is_Some (m2 !! k)) as [b Hb] by (apply elem_of_dom, Hsub; rewrite dom_insert; set_solver).
    rewrite sum_insert, (sum_delete _ m2 k b Hb) by done. assert (sumZ (fun k _ => g k) m1 <= sumZ (fun k _ => g k) (delete k m2)); [|lia].
    apply IH; [done|]. rewrite dom_delete. intros k' Hk'. assert (k' <> k) by (intros ->; by apply not_elem_of_dom in Hk).
    rewrite dom_insert in Hsub. set_solver.
Qed.

(** The part of the sum for the first component [r] of the keys *)
Section part.
Context {K1 K2 : Type} `{Countable K1, Countable K2}.
Implicit Types m : gmap (K1 * K2) Z.

Definition on (r : K1) (k : K1 * K2) (a : Z) : Z := if decide (k.1 = r) then a else 0.
Definition amount m (k : K1 * K2) : Z := default 0 (m !! k).

Lemma part_set r m k a : sumZ (on r) (<[k := a]> m) = sumZ (on r) m + (if decide (k.1 = r) then a - amount m k else 0).
Proof.
  unfold amount. destruct (m !! k) as [b|] eqn:Hk; simpl.
  - rewrite <- insert_delete_eq, sum_insert by apply lookup_delete_eq. rewrite (sum_delete _ m k b Hk). unfold on. case_decide; lia.
  - rewrite sum_insert by done. unfold on. case_decide; lia.
Qed.

Lemma part_ge r j m : (forall k a, m !! k = Some a -> 0 <= a) -> amount m (r, j) <= sumZ (on r) m.
Proof.
  intros Hnn. assert (forall m', (forall k a, m' !! k = Some a -> 0 <= a) -> 0 <= sumZ (on r) m') as Hs.
  { induction m' as [|k a m' Hk IH] using map_ind; intros Hm; [by rewrite sum_empty|]. rewrite sum_insert by done.
    pose proof (Hm k a (lookup_insert_eq _ _ _)). enough (0 <= sumZ (on r) m') by (change (on r k a) with (if decide (k.1 = r) then a else 0); case_decide; lia).
    apply IH. intros k' a' Hk'. apply (Hm k'). rewrite lookup_insert_ne; congruence. }
  unfold amount. destruct (m !! (r, j)) as [b|] eqn:Hk; simpl; [|by apply Hs].
  rewrite (sum_delete _ m _ b Hk). unfold on at 1. simpl. rewrite decide_True by done.
  enough (0 <= sumZ (on r) (delete (r, j) m)) by lia. apply Hs. intros k a [_ Hm]%lookup_delete_Some. eauto.
Qed.

Lemma part_filter r r' m : sumZ (on r') (filter (fun kv => kv.1.1 <> r) m) = if decide (r' = r) then 0 else sumZ (on r') m.
Proof.
  induction m as [|k a m Hk IH] using map_ind; [rewrite map_filter_empty, sum_empty; by case_decide|].
  rewrite (sum_insert _ m) by done. destruct (decide (k.1 = r)) as [He|He].
  - rewrite map_filter_insert_False by (simpl; tauto). rewrite delete_id by done. rewrite IH. change (on r' k a) with (if decide (k.1 = r') then a else 0). repeat case_decide; congruence || lia.
  - rewrite map_filter_insert_True by done. rewrite sum_insert, IH.
    + change (on r' k a) with (if decide (k.1 = r') then a else 0). repeat case_decide; congruence || lia.
    + apply map_lookup_filter_None. by left.
Qed.
End part.

Module Workload.

Definition ms : Z := 1000000.
(** [Pdate::round_msec], [Delay::round_msec], [Delay::msec] on non-negative values *)
Definition round_msec (d : Z) : Z := d - d mod ms.
Definition msec (d : Z) : Z := Z.quot d ms.

Section workload.
(** [Job::tokens1] *)
Context (tokens1 : Job -> Z).
Definition tokens (j : Job) : Z := tokens1 j + 1.

(** [_queued_cost] has one entry per request *)
Record t := mk {
  _ref_workload : Z;
  _ref_date : Z;
  _eta_tab : gmap Job Z;
  _eta_set : gset (Z * Job);
  _reasonable_workload : Z;
  _running_tokens : Z;
  _reasonable_tokens : Z;
  _queued_cost : gmap Req Z
}.
Definition init : t := mk 0 0 ∅ ∅ 0 0 0 ∅.
Definition set_queued x s := mk (_ref_workload s) (_ref_date s) (_eta_tab s) (_eta_set s) (_reasonable_workload s) (_running_tokens s) (_reasonable_tokens s) x.

Definition queued (r : Req) (s : t) : Z := default 0 (_queued_cost s !! r).

(** [cost] is the value of [Delay(j->cost())]; the counters are 64-bit signed atomics *)
Definition submit (r : Req) (cost : Z) (s : t) : t := set_queued (<[r := queued r s + cost]> (_queued_cost s)) s.
Definition add (r : Req) (j : Job) (cost : Z) (s : t) : t :=
  match _eta_tab s !! j with None => submit r cost s | Some _ => s end.
Definition kill (r : Req) (cost : Z) (s : t) : outcome t :=
  _ ← swear (cost <=? queued r s);
  Ret (set_queued (<[r := queued r s - cost]> (_queued_cost s)) s).
Definition open_req (r : Req) (s : t) : t := set_queued (<[r := 0]> (_queued_cost s)) s.

(** [_eta_set.begin()]: the set is ordered by date, then by job *)
Definition before (a b : Z * Job) : bool := if a.1 =? b.1 then a.2 <=? b.2 else a.1 <? b.1.
Definition first (q : gset (Z * Job)) : option (Z * Job) := set_begin before q.

(** Forgets the workload left by a job whose end was planned at [eta] *)
Definition forget (eta : Z) (j : Job) (s : t) : outcome t :=
  let left_workload := u64 (tokens j * msec (eta - _ref_date s)) in
  _ ← swear (tokens j <=? _reasonable_tokens s);
  _ ← swear (left_workload <=? _reasonable_workload s);
  Ret (mk (_ref_workload s) (_ref_date s) (delete j (_eta_tab s)) (_eta_set s ∖ {[(eta, j)]})
          (_reasonable_workload s - left_workload) (_running_tokens s) (_reasonable_tokens s - tokens j) (_queued_cost s)).

(** The loop of [_refresh] on the jobs whose planned end is passed; each iteration removes a job *)
Fixpoint refresh_loop (fuel : nat) (now : Z) (s : t) : outcome t :=
  match fuel with
  | O => Crash
  | S fuel =>
    match first (_eta_set s) with
    | None => Ret s
    | Some (eta, j) => if eta <=? now then s ← forget eta j s; refresh_loop fuel now s else Ret s
    end
  end.

(** [now] is the current date *)
Definition _refresh (now : Z) (s : t) : outcome t :=
  let now := round_msec now in
  s ← refresh_loop (S (size (_eta_set s))) now s;
  let delta_date := u64 (msec (now - _ref_date s)) in
  let delta_workload := u64 (delta_date * _reasonable_tokens s) in
  let ref_workload := u64 (_ref_workload s + delta_date * _running_tokens s) in
  _ ← swear (delta_workload <=? _reasonable_workload s);
  let reasonable := _reasonable_workload s - delta_workload in
  _ ← swear (negb (_reasonable_tokens s =? 0) || (reasonable =? 0));
  Ret (mk ref_workload now (_eta_tab s) (_eta_set s) reasonable (_running_tokens s) (_reasonable_tokens s) (_queued_cost s)).

(** [exe_time] is the value of [Delay(j->exe_time())] *)
Fixpoint unqueue (reqs : list Req) (cost : Z) (s : t) : outcome t :=
  match reqs with
  | [] => Ret s
  | r :: reqs =>
    _ ← swear (cost <=? queued r s);
    unqueue reqs cost (set_queued (<[r := queued r s - cost]> (_queued_cost s)) s)
  end.
Definition schedule (j : Job) (exe_time : Z) (s : t) : t :=
  let jet := round_msec exe_time in
  if jet =? 0 then s
  else
    let jed := _ref_date s + jet in
    mk (_ref_workload s) (_ref_date s)
       (match _eta_tab s !! j with None => <[j := jed]> (_eta_tab s) | Some _ => _eta_tab s end)
       ({[(jed, j)]} ∪ _eta_set s)
       (u64 (_reasonable_workload s + tokens j * msec jet)) (_running_tokens s)
       (u32 (_reasonable_tokens s + tokens j)) (_queued_cost s).
Definition run_tokens (n : Z) (s : t) : t :=
  mk (_ref_workload s) (_ref_date s) (_eta_tab s) (_eta_set s) (_reasonable_workload s) n (_reasonable_tokens s) (_queued_cost s).
Definition start (now : Z) (reqs : list Req) (j : Job) (cost exe_time : Z) (s : t) : outcome (t * Z) :=
  s ← unqueue reqs cost s;
  s ← _refresh now s;
  let s := schedule j exe_time s in
  let s := run_tokens (u32 (_running_tokens s + tokens j)) s in
  Ret (s, _ref_workload s).

Definition end_ (now : Z) (j : Job) (s : t) : outcome (t * Z) :=
  s ← _refresh now s;
  s ← match _eta_tab s !! j with
      | Some eta => _ ← swear (_ref_date s <=? eta); forget eta j s
      | None => Ret s
      end;
  _ ← swear (tokens j <=? _running_tokens s);
  let s := run_tokens (_running_tokens s - tokens j) s in
  Ret (s, _ref_workload s).

(** [cost(job,start_workload,start_date)], in seconds; the doubles of the source are exact numbers here *)
Definition cost (j : Job) (start_workload start_date : Z) (s : t) : outcome Q :=
  let start_date := round_msec start_date in
  _ ← swear (start_date <=? _ref_date s);
  let dly_ms := u64 (msec (_ref_date s - start_date)) in
  let workload := Z.max (u64 (_ref_workload s - start_workload)) 1 in
  Ret (inject_Z dly_ms / inject_Z 1000 * inject_Z dly_ms * inject_Z (tokens j) / inject_Z workload)%Q.

(** ** The accounts are exact

    [run] are the running jobs, each one with the workload and the date at its start. *)

Context (tokens1_u8 : forall j, 0 <= tokens1 j <= 255).

Definition max_ms : Z := 2 ^ 31.
Definition tokens_of (j : Job) (_ : Z) : Z := tokens j.
Definition work_of (ref : Z) (j : Job) (eta : Z) : Z := tokens j * ((eta - ref) / ms).

Record Inv (run : gmap Job (Z * Z)) (s : t) : Prop := {
  w_mirror : forall d j, (d, j) ∈ _eta_set s <-> _eta_tab s !! j = Some d;
  w_ref : _ref_date s mod ms = 0;
  w_dates : forall j d, _eta_tab s !! j = Some d -> _ref_date s < d <= _ref_date s + max_ms * ms /\ d mod ms = 0;
  w_tokens : _reasonable_tokens s = sumZ tokens_of (_eta_tab s);
  w_work : _reasonable_workload s = sumZ (work_of (_ref_date s)) (_eta_tab s);
  w_run : _running_tokens s = sumZ (fun j _ => tokens j) run;
  w_dom : dom (_eta_tab s) ⊆ dom run;
  w_size : Z.of_nat (size run) < 2 ^ 24;
  w_pos : 0 <= _ref_workload s;
  w_adv : forall j w0 d0, run !! j = Some (w0, d0) -> d0 mod ms = 0 /\ d0 <= _ref_date s /\
    tokens j * ((_ref_date s - d0) / ms) <= _ref_workload s - w0;
  w_start : forall j w0 d0, run !! j = Some (w0, d0) -> 0 <= w0
}.

Lemma tokens_bound j : 1 <= tokens j <= 256.
Proof. pose proof (tokens1_u8 j). unfold tokens. lia. Qed.

Lemma msec_div d : 0 <= d -> msec d = d / ms.
Proof. intros. unfold msec. by rewrite Z.quot_div_nonneg by (unfold ms; lia). Qed.

(** Dates that are multiples of 1 ms *)
Lemma ms_diff a b : a mod ms = 0 -> b mod ms = 0 -> (a - b) / ms = a / ms - b / ms.
Proof.
  unfold ms. intros Ha Hb. pose proof (Z.div_mod a 1000000). pose proof (Z.div_mod b 1000000).
  replace (a - b) with ((a / 1000000 - b / 1000000) * 1000000) by lia. by rewrite Z.div_mul by lia.
Qed.

Lemma round_msec_mod d : round_msec d mod ms = 0.
Proof. unfold round_msec, ms. pose proof (Z.div_mod d 1000000). replace (d - d mod 1000000) with (d / 1000000 * 1000000) by lia. by apply Z.mod_mul. Qed.

Lemma round_msec_le d : round_msec d <= d < round_msec d + ms.
Proof. unfold round_msec, ms. pose proof (Z.mod_pos_bound d 1000000). lia. Qed.

(** A multiple of 1 ms is not passed by rounding *)
Lemma round_msec_ge a d : a mod ms = 0 -> a <= d -> a <= round_msec d.
Proof.
  intros Ha Hd. pose proof (round_msec_le d) as Hr. pose proof (round_msec_mod d) as Hm. unfold ms in *.
  pose proof (Z.div_mod a 1000000). pose proof (Z.div_mod (round_msec d) 1000000). lia.
Qed.

Lemma work_term run s j d : Inv run s -> _eta_tab s !! j = Some d -> 0 <= work_of (_ref_date s) j d <= 256 * max_ms.
Proof.
  intros HI Hj. destruct (w_dates _ _ HI j d Hj) as [Hd _]. unfold work_of. pose proof (tokens_bound j).
  assert (0 <= (d - _ref_date s) / ms <= max_ms).
  { split; [apply Z.div_pos; unfold ms; lia|]. apply Z.div_le_upper_bound; unfold ms in *; lia. }
  unfold max_ms in *. nia.
Qed.

Lemma work_bound run s : Inv run s -> 0 <= sumZ (work_of (_ref_date s)) (_eta_tab s) < 2 ^ 64.
Proof.
  intros HI. assert (Z.of_nat (size (_eta_tab s)) < 2 ^ 24) as Hsz.
  { pose proof (w_size _ _ HI). pose proof (subseteq_size _ _ (w_dom _ _ HI)) as Hs. rewrite !size_dom in Hs. lia. }
  pose proof (sum_bound (work_of (_ref_date s)) (_eta_tab s) (256 * max_ms)) as Hb. destruct Hb as [Hb1 Hb2].
  { intros j d. by eapply work_term. }
  split; [done|]. unfold max_ms in *. nia.
Qed.

Lemma tokens_sum_bound {A} (m : gmap Job A) n : Z.of_nat (size m) <= n -> 0 <= sumZ (fun j _ => tokens j) m <= 256 * n.
Proof.
  intros Hs. pose proof (sum_bound (fun j (_ : A) => tokens j) m 256) as Hb. destruct Hb as [? ?]; [|lia].
  intros j a _. pose proof (tokens_bound j). lia.
Qed.

Lemma eta_total a b : before a b = true \/ before b a = true.
Proof. unfold before. destruct (Z.eqb_spec a.1 b.1), (Z.eqb_spec b.1 a.1); try lia; rewrite ?Z.leb_le, ?Z.ltb_lt; lia. Qed.
Lemma eta_trans a b c : before a b = true -> before b c = true -> before a c = true.
Proof.
  unfold before. destruct (Z.eqb_spec a.1 b.1), (Z.eqb_spec b.1 c.1), (Z.eqb_spec a.1 c.1); rewrite ?Z.leb_le, ?Z.ltb_lt; lia.
Qed.
Lemma eta_date a b : before a b = true -> a.1 <= b.1.
Proof. unfold before. destruct (Z.eqb_spec a.1 b.1); rewrite ?Z.leb_le, ?Z.ltb_lt; lia. Qed.

(** Forgetting a planned end *)
Lemma forget_ok run s eta j : Inv run s -> _eta_tab s !! j = Some eta ->
  exists s', forget eta j s = Ret s' /\ Inv run s' /\ _eta_tab s' = delete j (_eta_tab s) /\
    _eta_set s' = _eta_set s ∖ {[(eta, j)]} /\ _ref_date s' = _ref_date s /\ _ref_workload s' = _ref_workload s /\
    _running_tokens s' = _running_tokens s /\ _queued_cost s' = _queued_cost s.
Proof.
  intros HI Hj. pose proof (work_bound _ _ HI) as Hwb. pose proof HI as [Hmi Hre Hda Hto Hwo Hru Hdo Hsi Hpo Had Hst].
  destruct (Hda j eta Hj) as [Hd Hdm]. pose proof (sum_delete tokens_of _ _ _ Hj) as Et.
  pose proof (sum_delete (work_of (_ref_date s)) _ _ _ Hj) as Ew. unfold tokens_of at 2 in Et. unfold work_of at 2 in Ew.
  assert (0 <= sumZ tokens_of (delete j (_eta_tab s))) as Ht0 by (apply (tokens_sum_bound (delete j (_eta_tab s)) _ ltac:(reflexivity))).
  assert (0 <= sumZ (work_of (_ref_date s)) (delete j (_eta_tab s))) as Hw0.
  { pose proof (sum_bound (work_of (_ref_date s)) (delete j (_eta_tab s)) (256 * max_ms)) as [Hb _]; [|done].
    intros j' d' [_ Hj']%lookup_delete_Some. by eapply work_term. }
  pose proof (work_term _ _ _ _ HI Hj) as Hl0. unfold work_of at 1 in Hl0.
  unfold forget. rewrite msec_div by lia. rewrite u64_small by lia.
  rewrite !swear_bind by (apply Z.leb_le; lia). eexists. split; [done|]. split_and!; [|done..]. split; simpl; try done.
  - intros d j'. rewrite elem_of_difference, elem_of_singleton, Hmi, lookup_delete_Some. split.
    + intros [Hj' Hne]. split; [|done]. intros <-. congruence.
    + intros [Hne Hj']. split; [done|]. congruence.
  - intros j' d [_ Hj']%lookup_delete_Some. exact (Hda j' d Hj').
  - lia.
  - lia.
  - rewrite dom_delete. set_solver.
Qed.

(** The loop ends, with the jobs planned to end after [now]. *)
Lemma refresh_loop_ok fuel run s now : Inv run s -> (size (_eta_set s) < fuel)%nat ->
  exists s', refresh_loop fuel now s = Ret s' /\ Inv run s' /\ (forall j d, _eta_tab s' !! j = Some d -> now < d /\ _eta_tab s !! j = Some d) /\
    _ref_date s' = _ref_date s /\ _ref_workload s' = _ref_workload s /\ _running_tokens s' = _running_tokens s /\ _queued_cost s' = _queued_cost s.
Proof.
  revert s. induction fuel as [|fuel IH]; intros s HI Hf; [lia|]. simpl. pose proof (w_mirror _ _ HI) as Hmi.
  pose proof (set_begin_spec before (_eta_set s) eta_total eta_trans) as Hb. fold (first (_eta_set s)) in Hb.
  destruct (first (_eta_set s)) as [[eta j]|].
  2:{ exists s. split_and!; [done..| |done|done|done|done]. intros j d Hj%Hmi. rewrite Hb in Hj. by apply elem_of_empty in Hj. }
  destruct Hb as [Hin Hmin]. destruct (Z.leb_spec eta now) as [Hle|Hgt].
  - destruct (forget_ok run s eta j HI) as (s1 & -> & HI1 & Et & Es & E1 & E2 & E3 & E4); [by apply Hmi|]. simpl.
    destruct (IH s1 HI1) as (s' & -> & HI' & Hd & F1 & F2 & F3 & F4).
    { rewrite Es. assert (size (_eta_set s ∖ {[(eta, j)]}) < size (_eta_set s))%nat; [|lia]. apply subset_size. set_solver. }
    exists s'. split_and!; [done|done| |congruence..]. intros j' d Hj'. destruct (Hd j' d Hj') as [? Hj2]. split; [done|].
    rewrite Et in Hj2. by apply lookup_delete_Some in Hj2 as [_ ?].
  - exists s. split_and!; [done..| |done|done|done|done]. intros j' d Hj'. split; [|done].
    apply Hmi, Hmin, eta_date in Hj'. simpl in Hj'. lia.
Qed.

(** The clock is not before the last refresh, and the workload fits its 64 bits. *)
Definition clock_ok (now : Z) (s : t) : Prop :=
  _ref_date s <= now < 2 ^ 64 /\ 0 <= _ref_date s /\
  _ref_workload s + (round_msec now - _ref_date s) / ms * _running_tokens s < 2 ^ 64.

Lemma refresh_ok run s now : Inv run s -> clock_ok now s ->
  exists s', _refresh now s = Ret s' /\ Inv run s' /\ _ref_date s' = round_msec now /\
    _ref_workload s' = _ref_workload s + (round_msec now - _ref_date s) / ms * _running_tokens s /\
    _running_tokens s' = _running_tokens s /\ _queued_cost s' = _queued_cost s /\
    forall j d, _eta_tab s' !! j = Some d -> round_msec now < d /\ _eta_tab s !! j = Some d.
Proof.
  intros HI ([Hnow Hn64] & Hr0 & Hfit). unfold _refresh. set (n := round_msec now) in *.
  pose proof (round_msec_ge _ _ (w_ref _ _ HI) Hnow) as Hge. fold n in Hge. pose proof (round_msec_le now) as Hrl. fold n in Hrl.
  destruct (refresh_loop_ok (S (size (_eta_set s))) run s n HI) as (s1 & -> & HI1 & Hd & E1 & E2 & E3 & E4); [lia|]. simpl.
  pose proof (round_msec_mod now) as Hnm. fold n in Hnm.
  set (dd := (n - _ref_date s) / ms) in *. assert (0 <= dd) as Hdd by (apply Z.div_pos; unfold ms; lia).
  assert (dd < 2 ^ 64) as Hdd2 by (apply Z.div_lt_upper_bound; unfold ms; lia).
  rewrite E1, msec_div by lia. fold dd. rewrite (u64_small dd) by lia.
  pose proof HI1 as [Hmi Hre Hda Hto Hwo Hru Hdo Hsi Hpo Had Hst].
  assert (sumZ (work_of n) (_eta_tab s1) = sumZ (work_of (_ref_date s)) (_eta_tab s1) - _reasonable_tokens s1 * dd) as Hshift.
  { rewrite Hto. unfold tokens_of. rewrite <- (sum_shift (work_of (_ref_date s)) tokens dd (_eta_tab s1)).
    apply sum_ext. intros j d Hj. destruct (Hda j d Hj) as [_ Hm]. unfold work_of, dd. rewrite E1 in Hre. rewrite !ms_diff by done. lia. }
  assert (forall j d, _eta_tab s1 !! j = Some d -> 0 <= work_of n j d <= 256 * max_ms) as Hterm.
  { intros j d Hj. destruct (Hd j d Hj) as [Hlt _]. destruct (Hda j d Hj) as [Hb Hm]. rewrite E1 in Hb. unfold work_of. pose proof (tokens_bound j).
    assert (0 <= (d - n) / ms <= max_ms).
    { split; [apply Z.div_pos; unfold ms; lia|]. apply Z.div_le_upper_bound; unfold ms in *; lia. }
    unfold max_ms in *. nia. }
  pose proof (sum_bound (work_of n) (_eta_tab s1) (256 * max_ms) Hterm) as [Hw0 _].
  pose proof (work_bound _ _ HI1) as Hwb. rewrite E1 in Hwo, Hwb. rewrite <- Hwo in Hwb, Hshift.
  assert (0 <= _reasonable_tokens s1) as Ht0 by (rewrite Hto; apply (tokens_sum_bound (_eta_tab s1) _ ltac:(reflexivity))).
  rewrite (u64_small (dd * _reasonable_tokens s1)) by nia. rewrite swear_bind by (apply Z.leb_le; lia).
  rewrite swear_bind.
  2:{ destruct (Z.eqb_spec (_reasonable_tokens s1) 0) as [E0|]; simpl; [|done]. apply Z.eqb_eq.
      assert (_eta_tab s1 = ∅) as Hemp.
      { apply map_empty. intros j. destruct (_eta_tab s1 !! j) as [d|] eqn:Hj; [|done]. exfalso.
        pose proof (sum_delete tokens_of _ _ _ Hj) as Et. unfold tokens_of at 2 in Et. pose proof (tokens_bound j).
        pose proof (tokens_sum_bound (delete j (_eta_tab s1)) _ ltac:(reflexivity)) as [? _]. unfold tokens_of in *. lia. }
      rewrite Hwo, Hemp, sum_empty. lia. }
  assert (0 <= _running_tokens s) as Hrun0 by (rewrite (w_run _ _ HI); apply (tokens_sum_bound run _ ltac:(reflexivity))).
  pose proof (w_pos _ _ HI). rewrite E2, E3, (u64_small (_ref_workload s + _)) by nia.
  eexists. split; [done|]. split_and!; [|done..]. split; simpl; try done.
  - intros j d Hj. destruct (Hd j d Hj) as [Hlt _]. destruct (Hda j d Hj) as [Hb Hm]. rewrite E1 in Hb. split; [lia|done].
  - lia.
  - by rewrite <- E3.
  - nia.
  - intros j w0 d0 Hj. destruct (Had j w0 d0 Hj) as (Hm0 & Hd0 & Hw). split; [done|]. split; [lia|]. rewrite E1, E2 in *.
    assert (tokens j <= _running_tokens s).
    { rewrite (w_run _ _ HI), (sum_delete _ _ _ _ Hj). pose proof (tokens_sum_bound (delete j run) _ ltac:(reflexivity)). lia. }
    pose proof (w_ref _ _ HI). unfold dd. rewrite !ms_diff in * by done. assert (_ref_date s / ms <= n / ms) by (apply Z.div_le_mono; unfold ms; lia). nia.
Qed.

(** ** Starts and ends *)

Lemma unqueue_ok reqs cost s : NoDup reqs -> (forall r, r ∈ reqs -> cost <= queued r s) ->
  exists q, unqueue reqs cost s = Ret (set_queued q s) /\
    forall r, default 0 (q !! r) = queued r s - if decide (r ∈ reqs) then cost else 0.
Proof.
  revert s. induction reqs as [|r reqs IH]; intros s Hd Hq; [exists (_queued_cost s); split; [by destruct s|]; intros r; unfold queued; rewrite decide_False by set_solver; lia|].
  apply NoDup_cons in Hd as [Hr Hd]. simpl. rewrite swear_bind by (apply Z.leb_le, Hq; left).
  destruct (IH (set_queued (<[r := queued r s - cost]> (_queued_cost s)) s)) as (q & -> & Hq'); [done| |exists q; split; [done|]].
  - intros r' Hr'. unfold queued. simpl. rewrite lookup_insert_ne by (intros ->; contradiction). apply Hq. by right.
  - intros r'. rewrite Hq'. unfold queued. simpl. destruct (decide (r' = r)) as [->|Hne].
    + rewrite lookup_insert_eq, decide_False, decide_True by set_solver. simpl. unfold queued. lia.
    + rewrite lookup_insert_ne by done. f_equal. destruct (decide (r' ∈ reqs)), (decide (r' ∈ r :: reqs)); set_solver.
Qed.

Lemma Inv_queued run s q : Inv run s -> Inv run (set_queued q s).
Proof. by intros []. Qed.

Lemma schedule_ok run s j exe_time w0 d0 : Inv run s -> run !! j = None -> Z.of_nat (size run) + 1 < 2 ^ 24 ->
  0 <= exe_time <= max_ms * ms -> w0 = _ref_workload s -> d0 = _ref_date s ->
  let s' := schedule j exe_time s in
  Inv (<[j := (w0, d0)]> run) (run_tokens (u32 (_running_tokens s' + tokens j)) s').
Proof.
  intros HI Hj Hsz Hx -> ->. pose proof HI as [Hmi Hre Hda Hto Hwo Hru Hdo Hsi Hpo Had Hst]. simpl.
  assert (_eta_tab s !! j = None) as Hej by (apply not_elem_of_dom; intros Hin%Hdo; by apply not_elem_of_dom in Hj).
  pose proof (tokens_bound j). pose proof (tokens_sum_bound run _ ltac:(reflexivity)) as Hrs.
  assert (forall s2, _running_tokens s2 = _running_tokens s -> u32 (_running_tokens s2 + tokens j) = sumZ (fun j _ => tokens j) (<[j := (_ref_workload s, _ref_date s)]> run)) as Hu.
  { intros s2 ->. rewrite sum_insert, Hru, u32_small by (done || lia). lia. }
  assert (Z.of_nat (size (<[j := (_ref_workload s, _ref_date s)]> run)) < 2 ^ 24) as Hsz' by (rewrite map_size_insert_None by done; lia).
  assert (forall j' w0 d0, <[j := (_ref_workload s, _ref_date s)]> run !! j' = Some (w0, d0) -> d0 mod ms = 0 /\ d0 <= _ref_date s /\
    tokens j' * ((_ref_date s - d0) / ms) <= _ref_workload s - w0) as Had'.
  { intros j' w d. destruct (decide (j = j')) as [<-|]; [|rewrite lookup_insert_ne by done; apply Had].
    rewrite lookup_insert_eq. intros [= <- <-]. rewrite !Z.sub_diag, Z.div_0_l by done. split_and!; [done|lia|lia]. }
  assert (forall j' w0 d0, <[j := (_ref_workload s, _ref_date s)]> run !! j' = Some (w0, d0) -> 0 <= w0) as Hst'.
  { intros j' w d [[_ [= <- _]]|[_ Hj']]%lookup_insert_Some; [done|eauto]. }
  unfold schedule. pose proof (round_msec_mod exe_time) as Hm. pose proof (round_msec_le exe_time) as Hle.
  assert (0 <= round_msec exe_time) as Hr0 by (apply round_msec_ge; [done|lia]). set (jet := round_msec exe_time) in *.
  destruct (Z.eqb_spec jet 0) as [E0|E0].
  { split; simpl; try done; [by rewrite Hu|]. rewrite dom_insert. set_solver. }
  rewrite Hej. set (jed := _ref_date s + jet).
  assert (0 <= work_of (_ref_date s) j jed <= 256 * max_ms) as Hwj.
  { unfold work_of, jed. replace (_ref_date s + jet - _ref_date s) with jet by lia.
    assert (0 <= jet / ms <= max_ms) by (split; [apply Z.div_pos; unfold ms; lia|apply Z.div_le_upper_bound; unfold ms in *; lia]).
    unfold max_ms in *. nia. }
  assert (Z.of_nat (size (_eta_tab s)) <= Z.of_nat (size run)) as Hes.
  { pose proof (subseteq_size _ _ Hdo) as Hs. rewrite !size_dom in Hs. lia. }
  pose proof (tokens_sum_bound (_eta_tab s) _ Hes) as Hts.
  pose proof (sum_bound (work_of (_ref_date s)) (_eta_tab s) (256 * max_ms) ltac:(intros ? ?; by eapply work_term)) as Hws.
  split; simpl; try done.
  - intros d j'. rewrite elem_of_union, elem_of_singleton, Hmi. destruct (decide (j = j')) as [<-|].
    + rewrite lookup_insert_eq, Hej. naive_solver.
    + rewrite lookup_insert_ne by done. naive_solver.
  - intros j' d. destruct (decide (j = j')) as [<-|]; [|rewrite lookup_insert_ne by done; apply Hda].
    rewrite lookup_insert_eq. intros [= <-]. split; [unfold jed; lia|]. unfold jed. rewrite Z.add_mod by done. by rewrite Hre, Hm.
  - rewrite sum_insert by done. unfold tokens_of at 1. rewrite Hto, u32_small; unfold tokens_of in *; lia.
  - rewrite sum_insert by done. rewrite Hwo. unfold work_of at 2. unfold jed. replace (_ref_date s + jet - _ref_date s) with jet by lia.
    rewrite msec_div by lia. unfold work_of, jed in Hwj. replace (_ref_date s + jet - _ref_date s) with jet in Hwj by lia.
    rewrite u64_small; unfold max_ms in *; lia.
  - by rewrite Hu.
  - rewrite !dom_insert. set_solver.
Qed.

Lemma start_ok run s now reqs j cost exe_time : Inv run s -> clock_ok now s -> run !! j = None -> Z.of_nat (size run) + 1 < 2 ^ 24 ->
  0 <= exe_time <= max_ms * ms -> NoDup reqs -> (forall r, r ∈ reqs -> cost <= queued r s) ->
  exists s' w, start now reqs j cost exe_time s = Ret (s', w) /\ Inv (<[j := (w, _ref_date s')]> run) s' /\ _ref_date s' = round_msec now /\
    forall r, queued r s' = queued r s - if decide (r ∈ reqs) then cost else 0.
Proof.
  intros HI Hc Hj Hsz Hx Hd Hq. unfold start. destruct (unqueue_ok reqs cost s Hd Hq) as (q & -> & Hq'). simpl.
  destruct (refresh_ok run (set_queued q s) now (Inv_queued _ _ _ HI) Hc) as (s1 & -> & HI1 & E1 & _ & _ & E4 & _). simpl.
  do 2 eexists. split; [done|]. assert (forall s2, _ref_workload (schedule j exe_time s2) = _ref_workload s2 /\ _ref_date (schedule j exe_time s2) = _ref_date s2 /\
    _queued_cost (schedule j exe_time s2) = _queued_cost s2) as Hs.
  { intros s2. unfold schedule. by case_match. }
  destruct (Hs s1) as (Ew & Ed & Eq). split_and!; [|by simpl; rewrite Ed|intros r; unfold queued at 1; simpl; rewrite Eq, E4; apply Hq'].
  apply (schedule_ok run s1 j exe_time); try done; simpl; by rewrite ?Ew, ?Ed.
Qed.

Lemma end_ok run s now j w0 d0 : Inv run s -> clock_ok now s -> run !! j = Some (w0, d0) ->
  exists s' w, end_ now j s = Ret (s', w) /\ Inv (delete j run) s' /\ _ref_date s' = round_msec now /\
    tokens j * ((_ref_date s' - d0) / ms) <= w - w0 /\ 0 <= w0 /\ d0 <= _ref_date s' /\ d0 mod ms = 0 /\ w = _ref_workload s' /\ w < 2 ^ 64 /\
    _queued_cost s' = _queued_cost s.
Proof.
  intros HI Hc Hj. unfold end_. destruct (refresh_ok run s now HI Hc) as (s1 & -> & HI1 & E1 & Ew & E3 & E4 & _). simpl.
  assert (exists s2, match _eta_tab s1 !! j with Some eta => _ ← swear (_ref_date s1 <=? eta); forget eta j s1 | None => Ret s1 end = Ret s2 /\
    Inv run s2 /\ _eta_tab s2 !! j = None /\ _ref_date s2 = _ref_date s1 /\ _ref_workload s2 = _ref_workload s1 /\ _running_tokens s2 = _running_tokens s1 /\ _queued_cost s2 = _queued_cost s1) as (s2 & -> & HI2 & Hn & F1 & F2 & F3 & F4).
  { destruct (_eta_tab s1 !! j) as [eta|] eqn:He; [|by exists s1]. destruct (w_dates _ _ HI1 j eta He) as [Hd _].
    rewrite swear_bind by (apply Z.leb_le; lia). destruct (forget_ok run s1 eta j HI1 He) as (s2 & -> & ? & Et & _ & ? & ? & ? & ?).
    exists s2. split_and!; [done..| |done|done|done|done]. rewrite Et. apply lookup_delete_eq. }
  simpl. pose proof (sum_delete (fun j (_ : Z * Z) => tokens j) _ _ _ Hj) as Hsd. cbv beta in Hsd.
  pose proof (tokens_sum_bound (delete j run) _ ltac:(reflexivity)) as [Hs0 _]. pose proof HI2 as [Hmi Hre Hda Hto Hwo Hru Hdo Hsi Hpo Had Hst].
  rewrite swear_bind by (apply Z.leb_le; lia). do 2 eexists. split; [done|]. split_and!; simpl.
  - split; simpl; try done.
    + lia.
    + rewrite dom_delete. intros j' Hj'. assert (j' <> j) by (intros ->; by apply not_elem_of_dom in Hn). set_solver.
    + pose proof (sum_delete (fun _ (_ : Z * Z) => 1) _ _ _ Hj) as Hcnt. rewrite <- (insert_delete_id _ _ _ Hj), map_size_insert_None in Hsi by apply lookup_delete_eq. lia.
    + intros j' w d [_ Hj']%lookup_delete_Some. by apply Had.
    + intros j' w d [_ Hj']%lookup_delete_Some. by eapply Hst.
  - congruence.
  - destruct (Had j w0 d0 Hj) as (_ & _ & ?). done.
  - by eapply Hst.
  - by destruct (Had j w0 d0 Hj) as (_ & ? & _).
  - by destruct (Had j w0 d0 Hj) as (? & _).
  - done.
  - rewrite F2, Ew. apply Hc.
  - congruence.
Qed.

(** ** Runs *)

(** [due] is the ledger of the costs queued for each request and job, and not started or killed since. *)
Abbreviation ledger := (gmap (Req * Job) Z).
Definition credit (r : Req) (j : Job) (cost : Z) (due : ledger) : ledger := <[(r, j) := amount due (r, j) + cost]> due.
Definition settle (reqs : list Req) (j : Job) (cost : Z) (due : ledger) : ledger :=
  foldr (fun r due => credit r j (- cost) due) due reqs.

(** A job is started once, with a sensible execution time, and it was queued at this cost for each of its requests. *)
Definition startable (run : gmap Job (Z * Z)) (due : ledger) (s : t) (now : Z) (reqs : list Req) (j : Job) (cost exe_time : Z) : Prop :=
  clock_ok now s /\ run !! j = None /\ Z.of_nat (size run) + 1 < 2 ^ 24 /\ 0 <= exe_time <= max_ms * ms /\
  NoDup reqs /\ forall r, r ∈ reqs -> cost <= amount due (r, j).

Inductive wreach : gmap Job (Z * Z) -> ledger -> t -> Prop :=
| wr_init : wreach ∅ ∅ init
| wr_submit run due s r j cost : wreach run due s -> 0 <= cost -> wreach run (credit r j cost due) (submit r cost s)
| wr_add run due s r j cost : wreach run due s -> 0 <= cost ->
    wreach run (if decide (is_Some (_eta_tab s !! j)) then due else credit r j cost due) (add r j cost s)
| wr_kill run due s r j cost s' : wreach run due s -> cost <= amount due (r, j) -> kill r cost s = Ret s' ->
    wreach run (credit r j (- cost) due) s'
| wr_open run due s r : wreach run due s -> wreach run (filter (fun kv => kv.1.1 <> r) due) (open_req r s)
| wr_start run due s now reqs j cost exe_time s' w : wreach run due s -> startable run due s now reqs j cost exe_time ->
    start now reqs j cost exe_time s = Ret (s', w) -> wreach (<[j := (w, _ref_date s')]> run) (settle reqs j cost due) s'
| wr_end run due s now j s' w : wreach run due s -> clock_ok now s -> is_Some (run !! j) ->
    end_ now j s = Ret (s', w) -> wreach (delete j run) due s'.

Lemma workload_init : Inv ∅ init.
Proof.
  split; simpl; try done.
Qed.

(** The queued cost of a request is what is due for it. *)
Definition Acc (due : ledger) (s : t) : Prop :=
  (forall k a, due !! k = Some a -> 0 <= a) /\ forall r, queued r s = sumZ (on r) due.

Lemma Acc_queued due s r j : Acc due s -> amount due (r, j) <= queued r s.
Proof. intros [Hnn Hq]. rewrite Hq. by apply part_ge. Qed.

Lemma credit_nonneg r j cost due : (forall k a, due !! k = Some a -> 0 <= a) -> 0 <= amount due (r, j) + cost ->
  forall k a, credit r j cost due !! k = Some a -> 0 <= a.
Proof. intros Hnn Hc k a. unfold credit. intros [[_ <-]|[_ Hk]]%lookup_insert_Some; [done|eauto]. Qed.

Lemma credit_sum r r' j cost due : sumZ (on r') (credit r j cost due) = sumZ (on r') due + if decide (r = r') then cost else 0.
Proof. unfold credit. rewrite part_set. simpl. case_decide; lia. Qed.

Lemma Acc_credit due s r j cost s' : Acc due s -> 0 <= amount due (r, j) + cost ->
  (forall r', queued r' s' = queued r' s + if decide (r = r') then cost else 0) -> Acc (credit r j cost due) s'.
Proof.
  intros [Hnn Hq] Hc Hs. split; [by apply credit_nonneg|]. intros r'. by rewrite Hs, Hq, credit_sum.
Qed.

Lemma queued_set r r' v s : queued r' (set_queued (<[r := v]> (_queued_cost s)) s) = if decide (r = r') then v else queued r' s.
Proof. unfold queued. simpl. case_decide; [subst; by rewrite lookup_insert_eq|by rewrite lookup_insert_ne]. Qed.

Lemma settle_sums reqs j cost due : NoDup reqs -> (forall k a, due !! k = Some a -> 0 <= a) -> (forall r, r ∈ reqs -> cost <= amount due (r, j)) ->
  (forall k a, settle reqs j cost due !! k = Some a -> 0 <= a) /\
  (forall r, sumZ (on r) (settle reqs j cost due) = sumZ (on r) due - if decide (r ∈ reqs) then cost else 0) /\
  forall r, r ∉ reqs -> amount (settle reqs j cost due) (r, j) = amount due (r, j).
Proof.
  intros Hd Hnn. induction reqs as [|r reqs IH]; intros Hc; simpl.
  { split_and!; [done| |done]. intros r. lia. }
  apply NoDup_cons in Hd as [Hr Hd]. destruct IH as (H1 & H2 & H3); [done|set_solver|]. specialize (H3 r Hr) as Ha. specialize (Hc r ltac:(set_solver)).
  split_and!; [apply credit_nonneg; [done|lia]| |].
  - intros r'. rewrite credit_sum, H2. destruct (decide (r = r')) as [<-|]; [rewrite decide_False, decide_True by set_solver; lia|].
    destruct (decide (r' ∈ reqs)); [rewrite decide_True by set_solver|rewrite decide_False by set_solver]; lia.
  - intros r' Hr'. unfold credit, amount. rewrite lookup_insert_ne by set_solver. apply H3. set_solver.
Qed.

Lemma wreach_inv run due s : wreach run due s -> Inv run s /\ Acc due s.
Proof.
  induction 1 as [|run due s r j cost _ [IH HA] Hc|run due s r j cost _ [IH HA] Hc|run due s r j cost s' _ [IH HA] Hc E|run due s r _ [IH HA]|
    run due s now reqs j cost exe s' w _ [IH HA] (Hc & Hj & Hs & Hx & Hd & Hq) E|run due s now j s' w _ [IH HA] Hc [[w0 d0] Hj] E].
  - split; [apply workload_init|]. split; [done|]. intros r. by rewrite sum_empty.
  - split; [by apply Inv_queued|]. pose proof (proj1 HA) as Hnn. apply (Acc_credit due s); [done| |].
    + unfold amount. destruct (due !! (r, j)) as [a|] eqn:Ha; simpl; [specialize (Hnn _ _ Ha)|]; lia.
    + intros r'. unfold submit. rewrite queued_set. case_decide; subst; lia.
  - unfold add. destruct (_eta_tab s !! j) eqn:He; [by rewrite decide_True by eauto|]. rewrite decide_False by (by intros []).
    split; [by apply Inv_queued|]. pose proof (proj1 HA) as Hnn. apply (Acc_credit due s); [done| |].
    + unfold amount. destruct (due !! (r, j)) as [a|] eqn:Ha; simpl; [specialize (Hnn _ _ Ha)|]; lia.
    + intros r'. unfold submit. rewrite queued_set. case_decide; subst; lia.
  - unfold kill in E. inv_ret. subst s'. split; [by apply Inv_queued|]. apply (Acc_credit due s); [done|lia|].
    intros r'. rewrite queued_set. case_decide; subst; lia.
  - split; [by apply Inv_queued|]. destruct HA as [Hnn Hq]. split.
    + intros k a [Hk _]%map_lookup_filter_Some. eauto.
    + intros r'. unfold open_req. rewrite queued_set, part_filter, Hq. repeat case_decide; congruence.
  - destruct HA as [Hnn HA]. assert (forall r, r ∈ reqs -> cost <= queued r s) as Hq'.
    { intros r Hr. specialize (Hq r Hr). pose proof (Acc_queued due s r j (conj Hnn HA)). lia. }
    destruct (start_ok run s now reqs j cost exe) as (s2 & w2 & E2 & HI & _ & Hqs); [done..|]. rewrite E in E2. injection E2 as <- <-.
    split; [done|]. destruct (settle_sums reqs j cost due Hd Hnn Hq) as (H1 & H2 & _). split; [done|]. intros r. by rewrite Hqs, H2, HA.
  - destruct (end_ok run s now j w0 d0) as (s2 & w2 & E2 & HI & _ & _ & _ & _ & _ & _ & _ & Eq); [done..|]. rewrite E in E2. injection E2 as <- <-.
    split; [done|]. destruct HA as [Hnn HA]. split; [done|]. intros r. unfold queued. rewrite Eq. apply HA.
Qed.

(** What is charged for a job that has just ended *)
Lemma cost_spec j w0 d start_date s : 0 <= start_date -> round_msec start_date <= _ref_date s -> 0 <= w0 -> _ref_workload s < 2 ^ 64 -> _ref_date s < 2 ^ 64 ->
  d = (_ref_date s - round_msec start_date) / ms -> tokens j * d <= _ref_workload s - w0 ->
  exists c, cost j w0 start_date s = Ret c /\ (0 <= c)%Q /\ (c <= inject_Z d / inject_Z 1000)%Q.
Proof.
  intros Hs Hr Hw Hw2 Hd2 -> Ht. assert (0 <= round_msec start_date) as H0 by (apply round_msec_ge; [done|lia]).
  unfold cost. rewrite swear_bind by (by apply Z.leb_le). rewrite msec_div by lia. set (d := (_ref_date s - round_msec start_date) / ms) in *.
  assert (0 <= d) by (apply Z.div_pos; unfold ms; lia). assert (d < 2 ^ 64) by (apply Z.div_lt_upper_bound; unfold ms; lia).
  rewrite (u64_small d) by lia. pose proof (tokens_bound j). rewrite u64_small by nia. set (W := Z.max _ 1).
  assert (tokens j * d <= W /\ 1 <= W) as [Hle HW] by (unfold W; lia).
  assert (forall z, 0 <= z -> (0 <= inject_Z z)%Q) as Hz by (intros z Hz; change 0%Q with (inject_Z 0); by rewrite <- Zle_Qle).
  assert (0 < inject_Z W)%Q as HWq by (change 0%Q with (inject_Z 0); rewrite <- Zlt_Qlt; lia).
  assert (0 <= inject_Z d / inject_Z 1000)%Q as Hd by (apply Qle_shift_div_l; [done|rewrite Qmult_0_l; by apply Hz]).
  assert (inject_Z d * inject_Z (tokens j) <= inject_Z W)%Q as Hq by (rewrite <- inject_Z_mult, <- Zle_Qle; lia).
  eexists. split; [done|]. split.
  - apply Qle_shift_div_l; [done|]. rewrite Qmult_0_l. repeat apply Qmult_le_0_compat; try apply Hz; (done || lia).
  - apply Qle_shift_div_r; [done|]. rewrite <- Qmult_assoc, !(Qmult_comm (inject_Z d / inject_Z 1000)). by apply Qmult_le_compat_r.
Qed.

(** C39 The workload accounts are exact, so that none of the checks of [Workload] stops the server. Take any
    sequence of operations in which the clock does not step back, the workload fits its 64 bits, less than
    2^24 jobs run at once, estimated execution times are below 2^31 ms, and a job that is not running is
    started for requests it was submitted or added for at the same cost and not started or killed since.
    Then the running tokens are those of the started jobs, the reasonable tokens and workload are those of
    the jobs whose planned end is not passed, and the queued cost of a request is what is due for it;
    starts, kills and ends succeed; while a job runs the workload grows by at least its tokens every ms; and
    once it has ended its cost is computed, which is not more than its elapsed time if its start date and
    its start were recorded in the same ms. *)
Theorem workload_exact run due s : wreach run due s ->
  _running_tokens s = sumZ (fun j _ => tokens j) run /\
  _reasonable_tokens s = sumZ tokens_of (_eta_tab s) /\
  _reasonable_workload s = sumZ (work_of (_ref_date s)) (_eta_tab s) /\
  (forall r, queued r s = sumZ (on r) due) /\
  (forall r j cost, cost <= amount due (r, j) -> exists s', kill r cost s = Ret s') /\
  (forall now reqs j cost exe_time, startable run due s now reqs j cost exe_time ->
     exists s' w, start now reqs j cost exe_time s = Ret (s', w)) /\
  (forall now j w0 d0, clock_ok now s -> run !! j = Some (w0, d0) ->
     exists s' w, end_ now j s = Ret (s', w) /\ tokens j * ((round_msec now - d0) / ms) <= w - w0 /\
       forall start_date, 0 <= start_date -> round_msec start_date = d0 ->
         exists c, cost j w0 start_date s' = Ret c /\ (0 <= c)%Q /\ (c <= inject_Z ((round_msec now - d0) / ms) / inject_Z 1000)%Q).
Proof.
  intros Hr. pose proof (wreach_inv _ _ _ Hr) as [HI HA]. split_and!; [apply HI..|apply HA| | |].
  - intros r j c Hc. unfold kill. rewrite swear_bind; [eauto|]. apply Z.leb_le. pose proof (Acc_queued due s r j HA). lia.
  - intros now reqs j c exe (Hc & Hj & Hs & Hx & Hd & Hq). destruct (start_ok run s now reqs j c exe) as (s' & w & E & _); [done..| |eauto].
    intros r Hr'. pose proof (Acc_queued due s r j HA). specialize (Hq r Hr'). lia.
  - intros now j w0 d0 Hc Hj. destruct (end_ok run s now j w0 d0 HI Hc Hj) as (s' & w & E & _ & E2 & Hw & Hw0 & Hd & _ & -> & Hw2 & _).
    eexists s', _. split; [done|]. rewrite E2 in *. split; [done|]. intros sd Hsd Hrd.
    apply cost_spec; rewrite ?E2, ?Hrd; try done. pose proof (round_msec_le now). destruct Hc as [Hc _]. lia.
Qed.
End workload.

(** ** A job of 2 tokens submitted for request 5 at a cost of 1 us, that runs for 5 ms *)
Definition sample_tokens1 (j : Job) : Z := 1.
Definition sample_start : outcome (t * Z) := start sample_tokens1 7000000 [5] 3 1000 4000000 (submit 5 1000 init).
Definition sample : t := match sample_start with Ret (s, _) => s | _ => init end.

Lemma sample_tokens_ok j : 0 <= sample_tokens1 j <= 255.
Proof. unfold sample_tokens1. lia. Qed.

Lemma sample_reach : wreach sample_tokens1 (<[3 := (0, 7000000)]> ∅) (settle [5] 3 1000 (credit 5 3 1000 ∅)) sample.
Proof.
  eapply (wr_start _ ∅ (credit 5 3 1000 ∅) (submit 5 1000 init) 7000000 [5] 3 1000 4000000 sample 0); [constructor; [constructor|lia]| |vm_compute; reflexivity].
  unfold startable, clock_ok. split_and!; try (vm_compute; (discriminate || reflexivity)); [apply NoDup_singleton|].
  intros r ->%list_elem_of_singleton. vm_compute. discriminate.
Qed.

Lemma workload_exact_witness : exists s' w c, end_ sample_tokens1 12000000 3 sample = Ret (s', w) /\
  cost sample_tokens1 3 0 7000500 s' = Ret c /\ (c <= inject_Z 5 / inject_Z 1000)%Q /\ queued 5 sample = 0.
Proof.
  destruct (workload_exact sample_tokens1 sample_tokens_ok _ _ _ sample_reach) as (_ & _ & _ & Hq & _ & _ & He).
  destruct (He 12000000 3 0 7000000) as (s' & w & H1 & _ & H2).
  - unfold clock_ok. vm_compute. split_and!; (discriminate || reflexivity).
  - reflexivity.
  - destruct (H2 7000500) as (c & H3 & _ & H4); [lia|reflexivity|]. exists s', w, c. split; [exact H1|]. split; [exact H3|].
    split; [exact H4|]. rewrite (Hq 5). vm_compute. reflexivity.
Defined.

(** A request that joins a running job whose planned end is unknown or passed is charged for a queued job, and
    nothing takes the charge back when the job ends. *)
Definition joined : t := add 5 3 1000 (match start sample_tokens1 7000000 [] 3 0 0 init with Ret (s, _) => s | _ => init end).
Lemma queued_cost_leaks : queued 5 joined = 1000 /\
  match end_ sample_tokens1 12000000 3 joined with Ret (s, _) => queued 5 s = 1000 | _ => False end.
Proof. split; vm_compute; reflexivity. Qed.
End Workload.
