(* ===== verification/Path.v ===== *)
(** * File names: the path name library of src/disk.hh and src/disk.cc

    A [::string] is the list of its characters. [operator\[\]] at the size of a string reads the terminating
    nul, as [nth] with default [nul] does. *)
From S2P Require Import Prelude.
From Stdlib Require Import Ascii.

Definition path : Type := list ascii.
Definition nul : ascii := Ascii.zero.
Definition slash : ascii := "/"%char.
Definition dot : ascii := "."%char.
Definition str (s : string) : path := String.list_ascii_of_string s.

Module Disk.

(** ** Canonical names *)

Record CanonAction := mk_ca { extern_ok : bool; empty_ok : bool; dot_ok : bool; has_pfx : bool; has_sfx : bool }.
Definition default_action : CanonAction := mk_ca true false false false false.

(** [handle_slash] of [is_canon]: [r] are the characters before the slash, the last one first, so that
    [p\[-k\]] is [e k]. *)
Definition handle_slash (action : CanonAction) (r : path) : bool :=
  let sz := length r in
  let e k := nth (pred k) r nul in
  if (sz =? 0)%nat then true
  else if Ascii.eqb (e 1) slash then false
  else if negb (Ascii.eqb (e 1) dot) then true
  else if (sz =? 1)%nat then dot_ok action || has_pfx action
  else if Ascii.eqb (e 2) slash then false
  else if negb (Ascii.eqb (e 2) dot) then true
  else if (sz =? 2)%nat then extern_ok action
  else if negb (Ascii.eqb (e 3) slash) then true
  else if (sz =? 3)%nat then has_pfx action && extern_ok action
  else if negb (Ascii.eqb (e 4) dot) then false
  else if (sz =? 4)%nat then has_pfx action && extern_ok action
  else if negb (Ascii.eqb (e 5) dot) then false
  else if (sz =? 5)%nat then extern_ok action
  else if Ascii.eqb (e 6) slash then extern_ok action
  else false.

Definition no_nul (c : ascii) : outcome unit := throw_unless (negb (Ascii.eqb c nul)) "file contains nul char".

Fixpoint is_canon_loop (action : CanonAction) (r p : path) : outcome bool :=
  match p with
  | [] => Ret (Ascii.eqb (nth 0 r nul) slash || has_sfx action || handle_slash action r)
  | c :: p =>
    _ ← no_nul c;
    if Ascii.eqb c slash && negb (handle_slash action r) then Ret false else is_canon_loop action (c :: r) p
  end.
Definition is_canon (p : path) (action : CanonAction) : outcome bool :=
  match p with [] => Ret (empty_ok action) | _ :: _ => is_canon_loop action [] p end.

(** [res.resize(pos)] at label [DotDot] of [mk_canon]: keeps the characters up to the last slash *)
Fixpoint rfind_slash (r : path) : path :=
  match r with [] => [] | c :: r' => if Ascii.eqb c slash then r else rfind_slash r' end.

(** [handle] of [mk_canon]: [r] is [res], the last character first *)
Definition handle (is_abs : bool) (r : path) (c : ascii) : path :=
  if negb (Ascii.eqb c slash) then c :: r
  else
    let sz := length r in
    let e k := nth (pred k) r nul in
    let DotDot := rfind_slash (drop 3 r) in
    if (sz =? 0)%nat then if is_abs then c :: r else r
    else if Ascii.eqb (e 1) slash then r
    else if negb (Ascii.eqb (e 1) dot) then c :: r
    else if (sz =? 1)%nat then drop 1 r
    else if Ascii.eqb (e 2) slash then drop 1 r
    else if negb (Ascii.eqb (e 2) dot) then c :: r
    else if (sz =? 2)%nat then c :: r
    else if negb (Ascii.eqb (e 3) slash) then c :: r
    else if (sz =? 3)%nat then drop 2 r
    else if negb (Ascii.eqb (e 4) dot) then DotDot
    else if (sz =? 4)%nat then DotDot
    else if negb (Ascii.eqb (e 5) dot) then DotDot
    else if (sz =? 5)%nat then c :: r
    else if Ascii.eqb (e 6) slash then c :: r
    else DotDot.

Fixpoint canon_loop (is_abs : bool) (r p : path) : outcome path :=
  match p with
  | [] => Ret r
  | c :: p => _ ← no_nul c; canon_loop is_abs (handle is_abs r c) p
  end.
Definition mk_canon (p : path) : outcome path :=
  match p with
  | [] => Ret []
  | c0 :: _ =>
    let is_abs := Ascii.eqb c0 slash in
    res ← canon_loop is_abs [] p;
    if bool_decide (last p = Some slash) then Ret (reverse res)
    else
      match handle is_abs res slash with
      | [] => Ret [dot]
      | _ :: res => Ret (reverse res)
      end
  end.

(** ** Relative and absolute names *)

Definition starts_with (s pfx : path) : bool := bool_decide (pfx `prefix_of` s).
Definition is_abs (file : path) : bool := Ascii.eqb (nth 0 file nul) slash.
Definition is_dir_name (file : path) : bool := bool_decide (file = []) || bool_decide (last file = Some slash).
Definition is_lcl (file : path) : bool := negb (is_abs file || starts_with file (str "../") || bool_decide (file = str "..")).

(** The loop of [mk_lcl]: the position after the last common slash. The read of [dir_s] at its size gives the
    terminating nul, which no path contains. *)
Fixpoint lcl_scan (i last_slash1 : nat) (p dir_s : path) : nat :=
  match p, dir_s with
  | c :: p, c' :: dir_s =>
    if negb (Ascii.eqb c c') then last_slash1
    else lcl_scan (S i) (if Ascii.eqb c slash then S i else last_slash1) p dir_s
  | _, _ => last_slash1
  end.
Definition mk_lcl (p dir_s : path) : outcome path :=
  _ ← swear (is_dir_name dir_s);
  _ ← swear (Bool.eqb (is_abs p) (is_abs dir_s));
  let last_slash1 := lcl_scan 0 0 p dir_s in
  Ret (concat (map (fun c => if Ascii.eqb c slash then str "../" else []) (drop last_slash1 dir_s)) ++ drop last_slash1 p).

(** The loop of [mk_glb] *)
Fixpoint glb_loop (d_s p : path) : outcome path :=
  match p with
  | c1 :: c2 :: c3 :: p' =>
    if Ascii.eqb c1 dot && Ascii.eqb c2 dot && Ascii.eqb c3 slash && bool_decide (d_s <> []) then
      let d := drop 1 (reverse d_s) in
      match rfind_slash d with
      | [] => _ ← swear (bool_decide (d <> [])); glb_loop [] p'
      | d => glb_loop (reverse d) p'
      end
    else Ret (d_s ++ p)
  | _ => Ret (d_s ++ p)
  end.
Definition mk_glb (p dir_s : path) : outcome path := if is_abs p then Ret p else glb_loop dir_s p.

Definition mk_rel (file ref_dir_s : path) : outcome path :=
  if Bool.eqb (is_abs file) (is_abs ref_dir_s) then mk_lcl file ref_dir_s else Ret file.

Definition ends_with (s sfx : path) : bool := bool_decide (sfx `suffix_of` s).
Definition lies_within (file dir : path) : bool :=
  let in_repo := is_lcl file && bool_decide (file <> str ".") in
  let inside d :=
    if negb (ends_with d (str "/..")) && bool_decide (d <> str "..") then starts_with file d && Ascii.eqb (nth (length d) file nul) slash
    else if is_abs file then false
    else if negb (starts_with file d) then true
    else let sv := drop (length d) file in negb (starts_with sv (str "/../")) && bool_decide (sv <> str "/..")
  in
  if is_dir_name dir then if bool_decide (dir = []) then in_repo else inside (removelast dir)
  else if bool_decide (dir = str ".") then in_repo else inside dir.

(** [_dir_base_name]: [slash] is [None] when no slash is left; [file.rfind('/',slash-1)] looks at the first
    [slash] characters *)
Definition rfind (file : path) (upto : nat) : option nat :=
  match rfind_slash (reverse (take upto file)) with [] => None | r => Some (pred (length r)) end.
Definition walk_error (n : nat) (file : path) : string :=
  if (n =? 1)%nat then "cannot walk uphill from " +:+ String.string_of_list_ascii file
  else "cannot walk uphill " +:+ pretty n +:+ " dirs from " +:+ String.string_of_list_ascii file.
Fixpoint uphill (n : nat) (file : path) (pos : option nat) : outcome (option nat) :=
  match n with
  | O => Ret pos
  | S n' =>
    match pos with
    | None => Throw (walk_error n file)
    | Some O => uphill n' file None
    | Some prev_slash =>
      match rfind file prev_slash with
      | None => if bool_decide (take prev_slash file = str "..") then Throw (walk_error n file) else uphill n' file None
      | Some i => if bool_decide (take (prev_slash - i) (drop i file) = str "/..") then Throw (walk_error n file) else uphill n' file (Some i)
      end
    end
  end.
Definition _dir_base_name (do_base : bool) (file : path) (n : nat) : outcome path :=
  let is_dir := is_dir_name file in
  if (n =? 0)%nat then
    if negb is_dir then Throw (walk_error n file) else if do_base then Ret [] else Ret file
  else if bool_decide (file = []) then Throw (walk_error n file)
  else
    pos ← uphill n file (Some (length file - (if is_dir then 1 else 0)));
    if do_base then Ret (match pos with None => file | Some i => drop (S i) file end)
    else Ret (match pos with None => [] | Some i => take (S i) file end).
Definition dir_name_s (file : path) (n : nat) : outcome path := _dir_base_name false file n.
Definition base_name (file : path) (n : nat) : outcome path := _dir_base_name true file n.

Definition has_dir (file : path) : bool :=
  if (length file <? 3)%nat then false else bool_decide (slash ∈ take (length file - 3) (drop 1 file)).

(** The number of leading [..] *)
Fixpoint uphill_lvl (dir : path) : nat :=
  match dir with
  | c1 :: c2 :: c3 :: dir' => if Ascii.eqb c1 dot && Ascii.eqb c2 dot && Ascii.eqb c3 slash then S (uphill_lvl dir') else 0
  | _ => if bool_decide (dir = str "..") then 1 else 0
  end.

(** ** Names as lists of components *)

(** The components between slashes *)
Fixpoint split (s : path) : list path :=
  match s with
  | [] => [[]]
  | c :: s =>
    if decide (c = slash) then [] :: split s
    else match split s with p :: l => (c :: p) :: l | [] => [[c]] end
  end.
Definition cur : path := [dot].
Definition up : path := [dot; dot].

(** Adds a component below the directories [st], the deepest one first *)
Definition push (is_abs : bool) (st : list path) (p : path) : list path :=
  if decide (p = [] \/ p = cur) then st
  else if decide (p = up) then
    match st with
    | [] => if is_abs then [] else [up]
    | d :: st' => if decide (d = up) then up :: st else st'
    end
  else p :: st.
(** The directory [st], with its trailing slash *)
Definition render (is_abs : bool) (st : list path) : path :=
  (if is_abs then [slash] else []) ++ concat (map (fun p => p ++ [slash]) (reverse st)).

Definition canon (p : path) : path :=
  match p with
  | [] => []
  | c0 :: p' =>
    let is_abs := Ascii.eqb c0 slash in
    let d := render is_abs (foldl (push is_abs) [] (split (if is_abs then p' else p))) in
    if decide (last p = Some slash) then d else match reverse d with [] => cur | _ :: r => reverse r end
  end.

(** *** Components *)

Definition noslash (s : path) : Prop := slash ∉ s.

Lemma noslash_nil : noslash [].
Proof. apply not_elem_of_nil. Qed.

Lemma noslash_cons c s : noslash (c :: s) <-> c <> slash /\ noslash s.
Proof. unfold noslash. rewrite not_elem_of_cons. naive_solver. Qed.

Lemma noslash_reverse s : noslash (reverse s) <-> noslash s.
Proof. unfold noslash. by rewrite elem_of_reverse. Qed.

Lemma split_slash s : split (slash :: s) = [] :: split s.
Proof. reflexivity. Qed.

Lemma split_char c s : c <> slash -> split (c :: s) = match split s with p :: l => (c :: p) :: l | [] => [[c]] end.
Proof. intros Hc. simpl. by rewrite decide_False. Qed.

Lemma split_app a s : noslash a -> split (a ++ slash :: s) = a :: split s.
Proof.
  induction a as [|c a IH]; intros Ha; [done|]. apply noslash_cons in Ha as [Hc Ha].
  rewrite <- app_comm_cons, split_char, IH by done. done.
Qed.

Lemma split_noslash a : noslash a -> split a = [a].
Proof.
  induction a as [|c a IH]; intros Ha; [done|]. apply noslash_cons in Ha as [Hc Ha]. by rewrite split_char, IH by done.
Qed.

Lemma split_parts s p : p ∈ split s -> noslash p.
Proof.
  revert p. induction s as [|c s IH]; intros p Hp.
  - apply list_elem_of_singleton in Hp as ->. apply noslash_nil.
  - destruct (decide (c = slash)) as [->|Hc].
    + rewrite split_slash in Hp. apply elem_of_cons in Hp as [->|Hp]; [apply noslash_nil|auto].
    + rewrite split_char in Hp by done. destruct (split s) as [|q l] eqn:E.
      * apply list_elem_of_singleton in Hp as ->. by apply noslash_cons; split; [|apply noslash_nil].
      * apply elem_of_cons in Hp as [->|Hp]; [|apply IH; by right]. apply noslash_cons. split; [done|]. apply IH. by left.
Qed.

(** *** [res] during [mk_canon] *)

(** The directory [st] as it is in [res] *)
Definition rdir (is_abs : bool) (st : list path) : path :=
  concat (map (fun p => slash :: reverse p) st) ++ (if is_abs then [slash] else []).

Lemma rdir_cons a d st : rdir a (d :: st) = slash :: reverse d ++ rdir a st.
Proof. unfold rdir. simpl. by rewrite app_assoc. Qed.

Lemma render_cons a d st : render a (d :: st) = render a st ++ d ++ [slash].
Proof. unfold render. rewrite reverse_cons, map_app, concat_app. simpl. by rewrite app_nil_r, app_assoc. Qed.

Lemma reverse_render a st : reverse (render a st) = rdir a st.
Proof.
  induction st as [|d st IH]; [by destruct a|]. by rewrite render_cons, !reverse_app, IH, rdir_cons.
Qed.

Lemma rdir_head a st : rdir a st = [] \/ exists r, rdir a st = slash :: r.
Proof. destruct st as [|d st]; [destruct a; [right; by exists []|by left]|]. right. rewrite rdir_cons. eauto. Qed.

(** Canonical directories *)
Fixpoint wf (is_abs : bool) (st : list path) : Prop :=
  match st with
  | [] => True
  | d :: st' => noslash d /\ d <> [] /\ d <> cur /\ (d = up -> is_abs = false /\ Forall (eq up) st') /\ wf is_abs st'
  end.

Lemma noslash_up : noslash up.
Proof. apply noslash_cons. split; [done|]. apply noslash_cons. split; [done|apply noslash_nil]. Qed.

Lemma push_wf a st p : noslash p -> wf a st -> wf a (push a st p).
Proof.
  intros Hp Hw. unfold push. case_decide as Hn; [done|]. case_decide as Hu; [subst p|].
  - destruct st as [|d st]; [destruct a; [done|]|].
    + simpl; split_and!; (done || apply noslash_up || by intros _).
    + destruct Hw as (Hd & Hne & Hc & Hup & Hw). case_decide as E; [subst d|done]. destruct (Hup eq_refl) as [-> Hall].
      simpl. split_and!; try done. intros _. split; [done|by constructor].
  - simpl. split_and!; try done; tauto.
Qed.

Lemma rfind_slash_app d r : noslash d -> r = [] \/ (exists r', r = slash :: r') -> rfind_slash (d ++ r) = r.
Proof.
  intros Hd Hr. induction d as [|c d IH]; simpl.
  - destruct Hr as [->|[r' ->]]; done.
  - apply noslash_cons in Hd as [Hc Hd]. rewrite (proj2 (Ascii.eqb_neq c slash)) by done. auto.
Qed.

Ltac eqbs := rewrite ?Ascii.eqb_refl; repeat match goal with
  | |- context [Ascii.eqb ?x ?y] => rewrite (proj2 (Ascii.eqb_neq x y)) by (done || congruence)
  end; simpl.

Lemma handle_up a d st : noslash d -> d <> [] -> d <> cur -> (d = up -> a = false) ->
  handle a (reverse up ++ rdir a (d :: st)) slash = rdir a (if decide (d = up) then up :: d :: st else st).
Proof.
  intros Hd Hne Hc Hup. rewrite rdir_cons. unfold handle. simpl. apply noslash_reverse in Hd.
  rewrite drop_0, (rfind_slash_app _ _ Hd (rdir_head a st)).
  assert (reverse d <> []) as Hne' by (intros E; apply Hne; by rewrite <- (reverse_involutive d), E).
  assert (d = reverse (reverse d)) as Ed by by rewrite reverse_involutive.
  destruct (reverse d) as [|x [|y [|z l]]]; [done|..]; unfold up, cur in *; [cbn in Ed|cbn in Ed|]; simpl.
  - destruct (decide (x = dot)) as [->|Hx]; [done|]. eqbs. rewrite decide_False; [done|congruence].
  - destruct (decide (x = dot)) as [->|Hx]; [|eqbs; rewrite decide_False; [done|congruence]]. simpl.
    destruct (decide (y = dot)) as [->|Hy]; [|eqbs; rewrite decide_False; [done|congruence]]. simpl.
    rewrite decide_True by done. rewrite !rdir_cons. destruct (rdir_head a st) as [E|[r E]]; rewrite E, Ed; done.
  - rewrite decide_False by (subst d; rewrite !reverse_cons; intros E; apply (f_equal length) in E; rewrite !length_app in E; simpl in E; lia).
    apply noslash_cons in Hd as [_ Hd]. apply noslash_cons in Hd as [_ Hd]. apply noslash_cons in Hd as [Hz _].
    eqbs. by repeat case_match.
Qed.

(** A component that is neither empty, [.] nor [..] *)
Lemma handle_plain a st x rp : noslash (x :: rp) -> x :: rp <> reverse cur -> x :: rp <> reverse up ->
  handle a ((x :: rp) ++ rdir a st) slash = slash :: (x :: rp) ++ rdir a st.
Proof.
  intros Hn Hc Hu. apply noslash_cons in Hn as [Hx Hn]. unfold handle. simpl. eqbs.
  destruct (decide (x = dot)) as [->|Hd]; [simpl|by eqbs].
  destruct rp as [|y rp]; [done|]. apply noslash_cons in Hn as [Hy Hn]. simpl. eqbs.
  destruct (decide (y = dot)) as [->|Hd]; [simpl|by eqbs].
  destruct rp as [|z rp]; [done|]. apply noslash_cons in Hn as [Hz Hn]. simpl. by eqbs.
Qed.

Lemma handle_push a st rp : noslash rp -> wf a st -> handle a (rp ++ rdir a st) slash = rdir a (push a st (reverse rp)).
Proof.
  intros Hn Hw. unfold push. destruct rp as [|x rp].
  - rewrite decide_True by by left. simpl. destruct (rdir_head a st) as [E|[r E]]; rewrite E; [|done].
    unfold handle. simpl. destruct a; [|done]. destruct st; [done|]. by rewrite rdir_cons in E.
  - case_decide as Hc; [|case_decide as Hu].
    + destruct Hc as [Hc|Hc]; apply (f_equal reverse) in Hc; rewrite reverse_involutive in Hc; [done|]. injection Hc as -> ->.
      destruct (rdir_head a st) as [E|[r E]]; rewrite E; done.
    + apply (f_equal reverse) in Hu. rewrite reverse_involutive in Hu. rewrite Hu. destruct st as [|d st].
      * by destruct a.
      * destruct Hw as (Hd & Hne & Hcu & Hup & Hw). rewrite handle_up by (done || tauto). by case_decide; subst.
    + rewrite handle_plain; [by rewrite rdir_cons, reverse_involutive|done|..].
      * intros E. apply Hc. right. rewrite E. by rewrite reverse_involutive.
      * intros E. apply Hu. rewrite E. by rewrite reverse_involutive.
Qed.

Definition nonul (p : path) : Prop := nul ∉ p.

Lemma no_nul_cons {B} c p (k : unit -> outcome B) : nonul (c :: p) -> (no_nul c ≫= k) = k tt /\ nonul p.
Proof.
  unfold nonul. rewrite not_elem_of_cons. intros [Hc Hp]. split; [|done]. unfold no_nul. apply throw_unless_bind.
  rewrite (proj2 (Ascii.eqb_neq c nul)); [done|congruence].
Qed.

Lemma canon_loop_ok a p rp st : noslash rp -> wf a st -> nonul p ->
  exists ds q, split (reverse rp ++ p) = ds ++ [q] /\ noslash q /\ wf a (foldl (push a) st ds) /\
    canon_loop a (rp ++ rdir a st) p = Ret (reverse q ++ rdir a (foldl (push a) st ds)).
Proof.
  revert rp st. induction p as [|c p IH]; intros rp st Hn Hw Hz.
  - exists [], (reverse rp). rewrite app_nil_r, reverse_involutive. apply noslash_reverse in Hn. by rewrite split_noslash.
  - cbn [canon_loop]. destruct (no_nul_cons c p (fun _ => canon_loop a (handle a (rp ++ rdir a st) c) p) Hz) as [-> Hz'].
    destruct (decide (c = slash)) as [->|Hc].
    + rewrite handle_push by done. apply noslash_reverse in Hn.
      destruct (IH [] (push a st (reverse rp))) as (ds & q & E & Hq & Hw' & E'); [apply noslash_nil|by apply push_wf|done|].
      exists (reverse rp :: ds), q. rewrite split_app by done. simpl in E. by rewrite E.
    + destruct (IH (c :: rp) st) as (ds & q & E & Hq & Hw' & E'); [by apply noslash_cons|done..|].
      exists ds, q. rewrite reverse_cons, <- app_assoc in E. split_and!; [done..|]. unfold handle. by eqbs.
Qed.

(** A name is its directories, then its last component *)
Definition dirs (ds : list path) : path := concat (map (fun p => p ++ [slash]) ds).

Lemma split_join s : exists ds q, split s = ds ++ [q] /\ s = dirs ds ++ q.
Proof.
  induction s as [|c s (ds & q & E & Es)]; [by exists [], []|]. destruct (decide (c = slash)) as [->|Hc].
  - exists ([] :: ds), q. rewrite split_slash, E. by rewrite Es at 1.
  - rewrite split_char, E by done. destruct ds as [|d ds]; simpl.
    + exists [], (c :: q). split; [done|]. by rewrite Es at 1.
    + exists ((c :: d) :: ds), q. split; [done|]. by rewrite Es at 1.
Qed.

Lemma split_dirs ds q : Forall noslash ds -> noslash q -> split (dirs ds ++ q) = ds ++ [q].
Proof.
  intros Hds Hq. induction Hds as [|d ds Hd _ IH]; [by apply split_noslash|].
  unfold dirs. simpl. rewrite <- !app_assoc. simpl. by rewrite split_app, <- IH.
Qed.

Lemma last_dirs ds q : noslash q -> dirs ds ++ q <> [] -> last (dirs ds ++ q) = Some slash <-> q = [].
Proof.
  intros Hq Hne. destruct q as [|c q] using rev_ind.
  - rewrite app_nil_r in *. destruct ds as [|d ds] using rev_ind; [done|].
    unfold dirs. rewrite map_app, concat_app. simpl. by rewrite app_nil_r, app_assoc, last_snoc.
  - rewrite app_assoc, last_snoc. split; [|by destruct q]. intros [= ->]. exfalso. apply Hq, elem_of_app. right. by apply list_elem_of_singleton.
Qed.

Lemma split_last s ds q : split s = ds ++ [q] -> s <> [] -> last s = Some slash <-> q = [].
Proof.
  intros E Hne. assert (noslash q) by (apply (split_parts s); rewrite E; set_solver).
  destruct (split_join s) as (ds' & q' & E' & Es). rewrite E in E'. apply app_inj_tail in E' as [<- <-].
  rewrite Es in Hne |- *. by apply last_dirs.
Qed.

(** After the last character *)
Lemma mk_canon_finish a p st q : noslash q -> wf a st -> (last p = Some slash <-> q = []) ->
  (if bool_decide (last p = Some slash) then Ret (reverse (reverse q ++ rdir a st))
   else match handle a (reverse q ++ rdir a st) slash with [] => Ret [dot] | _ :: res => Ret (reverse res) end) =
  Ret (let d := render a (push a st q) in
       if decide (last p = Some slash) then d else match reverse d with [] => cur | _ :: r => reverse r end).
Proof.
  intros Hq Hw Hl. cbv zeta. case_bool_decide as Hs.
  - rewrite decide_True by done. rewrite (proj1 Hl Hs). unfold push. rewrite decide_True by by left.
    by rewrite reverse_nil, app_nil_l, <- reverse_render, reverse_involutive.
  - rewrite decide_False by done. rewrite handle_push by (done || by apply noslash_reverse).
    rewrite reverse_involutive, reverse_render. by destruct (rdir _ _).
Qed.

(** [mk_canon] computes [canon] *)
Lemma mk_canon_canon p : nonul p -> mk_canon p = Ret (canon p).
Proof.
  intros Hz. destruct p as [|c p]; [done|]. cbn [mk_canon canon]. destruct (decide (c = slash)) as [->|Hc].
  - rewrite Ascii.eqb_refl. cbn [canon_loop]. destruct (no_nul_cons slash p (fun _ => canon_loop true (handle true [] slash) p) Hz) as [-> Hz'].
    destruct (canon_loop_ok true p [] []) as (ds & q & E & Hq & Hw & E'); [apply noslash_nil|done..|].
    change (handle true [] slash) with ([] ++ rdir true []). rewrite E'. cbn [mbind outcome_mbind]. simpl in E. rewrite E, foldl_app.
    apply mk_canon_finish; [done..|]. destruct p as [|c p]; [|rewrite last_cons_cons; by apply (split_last _ ds)].
    simpl in E. destruct ds as [|? [|]]; simplify_eq/=. done.
  - rewrite (proj2 (Ascii.eqb_neq c slash)) by done.
    destruct (canon_loop_ok false (c :: p) [] []) as (ds & q & E & Hq & Hw & E'); [apply noslash_nil|done..|].
    change (canon_loop false [] (c :: p)) with (canon_loop false ([] ++ rdir false []) (c :: p)). rewrite E'.
    cbn [mbind outcome_mbind]. change (reverse [] ++ c :: p) with (c :: p) in E. rewrite E, foldl_app.
    apply mk_canon_finish; [done..|]. by apply (split_last _ ds).
Qed.

(** *** What [is_canon] accepts *)

(** The default actions, possibly refusing names outside the repository *)
Definition strict (ext empty : bool) : CanonAction := mk_ca ext empty false false false.

(** A component [mk_canon] keeps below [st] *)
Definition plain (a ext : bool) (st : list path) (p : path) : Prop :=
  p <> [] /\ p <> cur /\ (p = up -> ext = true /\ a = false /\ Forall (eq up) st).
Fixpoint plains (a ext : bool) (st ds : list path) : Prop :=
  match ds with [] => True | d :: ds => plain a ext st d /\ plains a ext (d :: st) ds end.

Lemma plains_app a ext st ds q : plains a ext st (ds ++ [q]) <-> plains a ext st ds /\ plain a ext (reverse ds ++ st) q.
Proof.
  revert st. induction ds as [|d ds IH]; intros st; simpl; [tauto|]. rewrite IH, reverse_cons, <- app_assoc. simpl. tauto.
Qed.

Lemma plains_wf a st : Forall noslash st -> wf a st <-> plains a true [] (reverse st).
Proof.
  induction 1 as [|d st Hd _ IH]; [done|]. rewrite reverse_cons, plains_app, <- IH, reverse_involutive, app_nil_r. unfold plain. simpl. tauto.
Qed.

Lemma plain_push a ext st p : plain a ext st p -> push a st p = p :: st.
Proof.
  intros (Hne & Hc & Hu). unfold push. rewrite decide_False by tauto. case_decide as E; [|done]. subst p.
  destruct (Hu eq_refl) as (_ & -> & Hall). destruct Hall as [|d st <- _]; [done|]. by rewrite decide_True.
Qed.

Lemma plains_push a ext st ds : plains a ext st ds -> foldl (push a) st ds = reverse ds ++ st.
Proof.
  revert st. induction ds as [|d ds IH]; intros st; [done|]. intros [Hd Hds]. simpl.
  rewrite (plain_push _ _ _ _ Hd), IH by done. by rewrite reverse_cons, <- app_assoc.
Qed.

Lemma handle_slash_up a ext empty d st : noslash d -> d <> [] -> d <> cur -> (d = up -> a = false) ->
  handle_slash (strict ext empty) (reverse up ++ rdir a (d :: st)) = if decide (d = up) then ext else false.
Proof.
  intros Hd Hne Hc Hup. rewrite rdir_cons. unfold handle_slash. simpl. apply noslash_reverse in Hd.
  assert (reverse d <> []) as Hne' by (intros E; apply Hne; by rewrite <- (reverse_involutive d), E).
  assert (d = reverse (reverse d)) as Ed by by rewrite reverse_involutive.
  destruct (reverse d) as [|x [|y [|z l]]]; [done|..]; unfold up, cur in *; [cbn in Ed|cbn in Ed|]; simpl.
  - destruct (decide (x = dot)) as [->|Hx]; [done|]. eqbs. rewrite decide_False; [done|congruence].
  - destruct (decide (x = dot)) as [->|Hx]; [|eqbs; rewrite decide_False; [done|congruence]]. simpl.
    destruct (decide (y = dot)) as [->|Hy]; [|eqbs; rewrite decide_False; [done|congruence]]. simpl.
    rewrite decide_True by done. destruct (rdir_head a st) as [E|[r E]]; rewrite E; done.
  - rewrite decide_False by (subst d; rewrite !reverse_cons; intros E; apply (f_equal length) in E; rewrite !length_app in E; simpl in E; lia).
    apply noslash_cons in Hd as [_ Hd]. apply noslash_cons in Hd as [_ Hd]. apply noslash_cons in Hd as [Hz _].
    eqbs. by repeat case_match.
Qed.

Lemma handle_slash_plain a ext empty st rp : noslash rp -> wf a st -> rp ++ rdir a st <> [] ->
  handle_slash (strict ext empty) (rp ++ rdir a st) = true <-> plain a ext st (reverse rp).
Proof.
  intros Hn Hw Hr. unfold plain. destruct rp as [|x rp].
  - destruct (rdir_head a st) as [E|[r E]]; rewrite E in *; [done|]. simpl. unfold handle_slash. simpl. naive_solver.
  - assert (forall q, reverse (x :: rp) = q <-> x :: rp = reverse q) as Eq.
    { intros q. split; [intros <-; by rewrite reverse_involutive|intros ->; by rewrite reverse_involutive]. }
    rewrite !Eq. destruct (decide (x :: rp = reverse cur)) as [Hc|Hc]; [|destruct (decide (x :: rp = reverse up)) as [Hu|Hu]].
    + rewrite Hc. destruct (rdir_head a st) as [E|[r E]]; rewrite E; unfold handle_slash; simpl; naive_solver.
    + rewrite Hu. destruct st as [|d st].
      * destruct a; unfold handle_slash; simpl; [naive_solver|]. split; [|naive_solver]. intros ->. naive_solver.
      * destruct Hw as (Hd & Hne & Hcu & Hup & Hw). rewrite handle_slash_up by (done || tauto). case_decide as E.
        -- destruct (Hup E) as [-> Hall]. split; [|naive_solver]. intros ->. split_and!; try done. intros _. split_and!; try done. by constructor.
        -- split; [done|]. intros (_ & _ & Hall). destruct (Hall eq_refl) as (_ & _ & Hall'). by inversion Hall'.
    + assert (handle_slash (strict ext empty) ((x :: rp) ++ rdir a st) = true) as ->; [|naive_solver].
      apply noslash_cons in Hn as [Hx Hn]. unfold handle_slash. simpl. eqbs.
      destruct (decide (x = dot)) as [->|Hd]; [simpl|by eqbs].
      destruct rp as [|y rp]; [done|]. apply noslash_cons in Hn as [Hy Hn]. simpl. eqbs.
      destruct (decide (y = dot)) as [->|Hd]; [simpl|by eqbs].
      destruct rp as [|z rp]; [done|]. apply noslash_cons in Hn as [Hz Hn]. simpl. by eqbs.
Qed.

Lemma is_canon_loop_ok a ext empty p rp st : noslash rp -> wf a st -> nonul p -> rp ++ rdir a st <> [] ->
  exists ds q b, split (reverse rp ++ p) = ds ++ [q] /\
    is_canon_loop (strict ext empty) (rp ++ rdir a st) p = Ret b /\
    (b = true <-> plains a ext st ds /\ (q = [] \/ plain a ext (reverse ds ++ st) q)).
Proof.
  revert rp st. induction p as [|c p IH]; intros rp st Hn Hw Hz Hr.
  - exists [], (reverse rp), (Ascii.eqb (nth 0 (rp ++ rdir a st) nul) slash || handle_slash (strict ext empty) (rp ++ rdir a st)).
    rewrite app_nil_r, split_noslash by by apply noslash_reverse. split_and!; [done|simpl; by rewrite orb_false_r|].
    rewrite orb_true_iff, handle_slash_plain, Ascii.eqb_eq by done. simpl. destruct rp as [|x rp].
    + destruct (rdir_head a st) as [E|[r E]]; rewrite E in *; [done|]. simpl. tauto.
    + apply noslash_cons in Hn as [Hx _]. simpl. assert (reverse (x :: rp) <> []); [|tauto].
      rewrite reverse_cons. by destruct (reverse rp).
  - cbn [is_canon_loop]. destruct (no_nul_cons c p (fun _ => if Ascii.eqb c slash && negb (handle_slash (strict ext empty) (rp ++ rdir a st)) then Ret false else is_canon_loop (strict ext empty) (c :: rp ++ rdir a st) p) Hz) as [-> Hz'].
    destruct (decide (c = slash)) as [->|Hc].
    + rewrite Ascii.eqb_refl. rewrite split_app by by apply noslash_reverse. cbn [andb].
      pose proof (handle_slash_plain a ext empty st rp Hn Hw Hr) as Hp. destruct (handle_slash _ _); cbn [negb].
      * pose proof (proj1 Hp eq_refl) as Hpl. destruct Hpl as (Hp1 & Hp2 & Hp3) eqn:Epl. clear Epl. destruct (IH [] (reverse rp :: st)) as (ds & q & b & E & Eb & Hb); [apply noslash_nil| |done|by rewrite rdir_cons|].
        { split_and!; [by apply noslash_reverse|done..| |done]. intros E. by destruct (Hp3 E) as (_ & -> & ?). }
        exists (reverse rp :: ds), q, b. rewrite rdir_cons, reverse_involutive in Eb. simpl in E. rewrite E. split_and!; [done..|].
        rewrite Hb. simpl. rewrite reverse_cons, <- app_assoc. simpl. tauto.
      * destruct (split_join p) as (ds & q & E & _). exists (reverse rp :: ds), q, false. rewrite E. split_and!; [done..|].
        split; [done|]. simpl. intros [[Hp' _] _]. by apply Hp.
    + destruct (IH (c :: rp) st) as (ds & q & b & E & Eb & Hb); [by apply noslash_cons|done..|].
      exists ds, q, b. rewrite reverse_cons, <- app_assoc in E. rewrite (proj2 (Ascii.eqb_neq c slash)) by done. done.
Qed.

(** A name is a root, directories and a last component *)
Definition root (a : bool) : path := if a then [slash] else [].
Record parts (p : path) (a : bool) (ds : list path) (q : path) : Prop := {
  pa_eq : p = root a ++ dirs ds ++ q;
  pa_rel : a = false -> head p <> Some slash;
  pa_ds : Forall noslash ds;
  pa_q : noslash q
}.

Lemma parts_of p : p <> [] -> exists a ds q, parts p a ds q.
Proof.
  intros Hne. destruct p as [|c p]; [done|]. destruct (decide (c = slash)) as [->|Hc].
  - destruct (split_join p) as (ds & q & E & Ep). exists true, ds, q. split; [by rewrite Ep at 1|done|..].
    + apply Forall_forall. intros d Hd. apply (split_parts p). rewrite E. set_solver.
    + apply (split_parts p). rewrite E. set_solver.
  - destruct (split_join (c :: p)) as (ds & q & E & Ep). exists false, ds, q. split; [done|by intros _ [= ->]|..].
    + apply Forall_forall. intros d Hd. apply (split_parts (c :: p)). rewrite E. set_solver.
    + apply (split_parts (c :: p)). rewrite E. set_solver.
Qed.

Lemma parts_unique p a ds q a' ds' q' : parts p a ds q -> parts p a' ds' q' -> a = a' /\ ds = ds' /\ q = q'.
Proof.
  intros [E Hr Hds Hq] [E' Hr' Hds' Hq']. assert (a = a') as <-.
  { destruct a, a'; try done; subst p; [by destruct (Hr' eq_refl)|]. rewrite E' in Hr. by destruct (Hr eq_refl). }
  split; [done|]. rewrite E in E'. apply app_inv_head in E'. apply (f_equal split) in E'.
  rewrite !split_dirs in E' by done. by apply app_inj_tail in E'.
Qed.

Lemma is_canon_parts p a ds q ext empty : parts p a ds q -> p <> [] -> nonul p ->
  exists b, is_canon p (strict ext empty) = Ret b /\ (b = true <-> plains a ext [] ds /\ (q = [] \/ plain a ext (reverse ds) q)).
Proof.
  intros [Ep Hrel Hds Hq] Hne Hz. destruct p as [|c p]; [done|]. cbn [is_canon].
  pose proof (split_dirs ds q Hds Hq) as Es. cbn [is_canon_loop].
  destruct (no_nul_cons c p (fun _ => if Ascii.eqb c slash && negb (handle_slash (strict ext empty) []) then Ret false else is_canon_loop (strict ext empty) [c] p) Hz) as [-> Hz'].
  change (handle_slash (strict ext empty) []) with true. rewrite andb_false_r.
  destruct a.
  - injection Ep as -> Ep. destruct (is_canon_loop_ok true ext empty p [] []) as (ds' & q' & b & E & Eb & Hb); [apply noslash_nil|done..|].
    simpl in E. rewrite Ep, Es in E. apply app_inj_tail in E as [<- <-]. exists b. rewrite app_nil_r in Hb. done.
  - simpl in Ep. destruct (is_canon_loop_ok false ext empty p [c] []) as (ds' & q' & b & E & Eb & Hb); [|done..|].
    + apply noslash_cons. split; [|apply noslash_nil]. intros ->. by apply Hrel.
    + change (reverse [c] ++ p) with (c :: p) in E. rewrite Ep, Es in E. apply app_inj_tail in E as [<- <-]. exists b. rewrite app_nil_r in Hb. done.
Qed.

Lemma canon_parts p a ds q : parts p a ds q -> p <> [] ->
  canon p = let d := render a (foldl (push a) [] (ds ++ [q])) in
            if decide (q = []) then d else match reverse d with [] => cur | _ :: r => reverse r end.
Proof.
  intros [Ep Hrel Hds Hq] Hne. assert (last p = Some slash <-> q = []) as Hl.
  { destruct a; simpl in Ep; [|rewrite Ep in *; by apply last_dirs]. subst p. destruct (dirs ds ++ q) as [|c p] eqn:E.
    - apply app_eq_nil in E as [_ ->]. done.
    - rewrite last_cons_cons, <- E. apply last_dirs; [done|by rewrite E]. }
  destruct p as [|c p]; [done|]. unfold canon. destruct a.
  - injection Ep as -> Ep. rewrite Ascii.eqb_refl. cbv zeta. rewrite Ep, split_dirs, <- Ep by done. by rewrite (decide_ext _ _ _ _ Hl).
  - simpl in Ep. rewrite (proj2 (Ascii.eqb_neq c slash)); [|intros ->; by apply Hrel]. cbv zeta.
    assert (split (c :: p) = ds ++ [q]) as -> by (rewrite Ep; by apply split_dirs). by rewrite (decide_ext _ _ _ _ Hl).
Qed.

Lemma root_dirs a st : render a st = root a ++ dirs (reverse st).
Proof. done. Qed.

(** [is_canon] only accepts names [mk_canon] keeps as they are *)
Lemma canon_fixed p a ds q ext : parts p a ds q -> p <> [] -> plains a ext [] ds -> q = [] \/ plain a ext (reverse ds) q -> canon p = p.
Proof.
  intros Hp Hne Hds Hq. rewrite (canon_parts p a ds q Hp Hne), foldl_app, (plains_push _ _ _ _ Hds), app_nil_r. cbn [foldl]. cbv zeta.
  rewrite (pa_eq _ _ _ _ Hp). destruct Hq as [->|Hq].
  - unfold push. rewrite decide_True, decide_True by (done || by left). by rewrite root_dirs, reverse_involutive, app_nil_r.
  - rewrite (plain_push _ _ _ _ Hq), decide_False by apply Hq. rewrite render_cons, app_assoc, reverse_snoc.
    by rewrite reverse_involutive, root_dirs, reverse_involutive, app_assoc.
Qed.

(** What [mk_canon] returns *)
Lemma push_all_wf a st ds : Forall noslash ds -> wf a st -> wf a (foldl (push a) st ds).
Proof. intros Hds. revert st. induction Hds as [|d ds Hd _ IH]; intros st Hw; [done|]. apply IH. by apply push_wf. Qed.

Lemma wf_noslash a st : wf a st -> Forall noslash st.
Proof. induction st as [|d st IH]; [done|]. intros (Hd & _ & _ & _ & Hw). constructor; auto. Qed.

Lemma plains_nonempty a ext st es : plains a ext st es -> Forall (fun e => e <> []) es.
Proof. revert st. induction es as [|e es IH]; intros st; [done|]. intros [[He _] Hes]. constructor; eauto. Qed.

Lemma head_dirs ds q : Forall noslash ds -> noslash q -> Forall (fun e => e <> []) ds -> head (dirs ds ++ q) <> Some slash.
Proof.
  intros Hds Hq Hp. destruct Hds as [|d ds Hd _].
  - destruct q as [|c q]; [done|]. apply noslash_cons in Hq as [Hc _]. simpl. congruence.
  - apply Forall_cons in Hp as [Hne _]. destruct d as [|c d]; [done|]. apply noslash_cons in Hd as [Hc _]. simpl. congruence.
Qed.

Lemma wf_parts a st q : wf a st -> q = [] \/ wf a (q :: st) ->
  let p := root a ++ dirs (reverse st) ++ q in
  parts p a (reverse st) q /\ plains a true [] (reverse st) /\ (q = [] \/ plain a true (reverse (reverse st)) q).
Proof.
  intros Hw Hq p. pose proof (wf_noslash _ _ Hw) as Hns. pose proof (proj1 (plains_wf a st Hns) Hw) as Hpl.
  assert (noslash q) as Hnq by (destruct Hq as [->|[? _]]; [apply noslash_nil|done]). split_and!; [|done|].
  - split; [done| |by rewrite Forall_reverse|done]. intros ->. apply head_dirs; [by rewrite Forall_reverse|done|by eapply plains_nonempty].
  - rewrite reverse_involutive. destruct Hq as [->|(_ & ? & ? & Hu & _)]; [by left|]. right. split_and!; [done..|]. intros E. by destruct (Hu E).
Qed.

Lemma canon_good p : canon p = [] \/ canon p = cur \/
  exists a ds q, parts (canon p) a ds q /\ plains a true [] ds /\ (q = [] \/ plain a true (reverse ds) q).
Proof.
  destruct (decide (p = [])) as [->|Hne]; [by left|]. destruct (parts_of p Hne) as (a & ds & q & Hp).
  rewrite (canon_parts p a ds q Hp Hne). cbv zeta. assert (wf a (foldl (push a) [] (ds ++ [q]))) as Hw.
  { apply push_all_wf; [|done]. apply Forall_app. split; [apply (pa_ds _ _ _ _ Hp)|]. constructor; [apply (pa_q _ _ _ _ Hp)|done]. }
  destruct (foldl _ _ _) as [|d st]; case_decide as Eq.
  - right. right. exists a, [], []. apply (wf_parts a [] []); [done|by left].
  - destruct a; [by left|by right; left].
  - right. right. exists a, (reverse (d :: st)), []. rewrite root_dirs, <- (app_nil_r (dirs _)). by apply (wf_parts a (d :: st) []); [|left].
  - right. right. exists a, (reverse st), d. rewrite render_cons, app_assoc, reverse_snoc, reverse_involutive, root_dirs, <- app_assoc.
    apply (wf_parts a st d); [apply Hw|by right].
Qed.

(** No nul character appears *)
Lemma nonul_app p q : nonul (p ++ q) <-> nonul p /\ nonul q.
Proof. unfold nonul. rewrite not_elem_of_app. done. Qed.

Lemma nonul_reverse p : nonul (reverse p) <-> nonul p.
Proof. unfold nonul. by rewrite elem_of_reverse. Qed.

Lemma nonul_dirs ds q : nonul (dirs ds ++ q) <-> Forall nonul ds /\ nonul q.
Proof.
  rewrite nonul_app. assert (nonul (dirs ds) <-> Forall nonul ds); [|tauto]. induction ds as [|d ds IH]; [split; [done|by intros _ ?%elem_of_nil]|].
  unfold dirs in *. simpl. rewrite !nonul_app, Forall_cons, IH. assert (nonul [slash]); [|tauto].
  intros Hs. by apply list_elem_of_singleton in Hs.
Qed.

Lemma push_nonul a st ds : Forall nonul ds -> Forall nonul st -> Forall nonul (foldl (push a) st ds).
Proof.
  intros Hds. revert st. induction Hds as [|d ds Hd _ IH]; intros st Hst; [done|]. apply IH. unfold push.
  assert (nonul up) by (intros Hu; repeat apply elem_of_cons in Hu as [?|Hu]; try done; by apply elem_of_nil in Hu).
  case_decide; [done|]. case_decide; [|by constructor]. destruct Hst as [|d' st Hd' Hst]; [destruct a; by repeat constructor|].
  case_decide; [by repeat constructor|done].
Qed.

Lemma nonul_root a p : nonul (root a ++ p) <-> nonul p.
Proof.
  rewrite nonul_app. assert (nonul (root a)); [|tauto]. destruct a; intros Hs; [by apply list_elem_of_singleton in Hs|by apply elem_of_nil in Hs].
Qed.

Lemma nonul_canon p : nonul p -> nonul (canon p).
Proof.
  intros Hz. destruct (decide (p = [])) as [->|Hne]; [done|]. destruct (parts_of p Hne) as (a & ds & q & Hp).
  rewrite (canon_parts p a ds q Hp Hne). cbv zeta. rewrite (pa_eq _ _ _ _ Hp), nonul_root, nonul_dirs in Hz. destruct Hz as [Hds Hq].
  assert (Forall nonul (foldl (push a) [] (ds ++ [q]))) as Hst by (apply push_nonul; [apply Forall_app; by repeat constructor|done]).
  assert (nonul (render a (foldl (push a) [] (ds ++ [q])))) as Hr.
  { rewrite root_dirs, nonul_root, <- (app_nil_r (dirs _)), nonul_dirs, Forall_reverse. split; [done|by intros ?%elem_of_nil]. }
  case_decide; [done|]. apply nonul_reverse in Hr. destruct (reverse _) as [|c r].
  - intros Hc. by apply list_elem_of_singleton in Hc.
  - apply nonul_reverse. intros Hc. apply Hr. by right.
Qed.

Lemma plain_ext a ext st p : plain a ext st p <-> plain a true st p /\ (ext = true \/ p <> up).
Proof. unfold plain. destruct (decide (p = up)), ext; naive_solver. Qed.

Lemma plains_ext a ext st ds : plains a ext st ds <-> plains a true st ds /\ (ext = true \/ up ∉ ds).
Proof.
  revert st. induction ds as [|d ds IH]; intros st; simpl; [set_solver|]. rewrite plain_ext, IH, not_elem_of_cons. naive_solver.
Qed.

Lemma up_split p a ds q : parts p a ds q -> (up ∉ split p) <-> (up ∉ ds) /\ up <> q.
Proof.
  intros [Ep _ Hds Hq]. assert ((up ∉ ds ++ [q]) <-> (up ∉ ds) /\ up <> q) as <- by (rewrite not_elem_of_app; set_solver).
  rewrite <- (split_dirs ds q Hds Hq), Ep. destruct a; simpl; [|done]. rewrite not_elem_of_cons. naive_solver.
Qed.

(** C11 [mk_canon] and [is_canon], which work in place on characters, agree with the definition of a canonical
    name on components: [mk_canon] computes [canon], applying it again changes nothing, and [is_canon] accepts
    exactly the non-empty names other than [.] that [mk_canon] leaves unchanged, without [..] if names outside
    the repository are refused. *)
Theorem canonical p : nonul p ->
  mk_canon p = Ret (canon p) /\ mk_canon (canon p) = Ret (canon p) /\
  forall ext empty, is_canon p (strict ext empty) =
    Ret (if decide (p = []) then empty else bool_decide (p <> cur /\ canon p = p /\ (ext = true \/ up ∉ split p))).
Proof.
  intros Hz. split; [by apply mk_canon_canon|]. split.
  - rewrite mk_canon_canon by by apply nonul_canon. f_equal. destruct (canon_good p) as [->|[->|(a & ds & q & Hp & Hds & Hq)]]; [done|by vm_compute|].
    destruct (decide (canon p = [])) as [->|Hne]; [done|]. by apply (canon_fixed _ a ds q true).
  - intros ext empty. case_decide as Hne; [by rewrite Hne|]. destruct (parts_of p Hne) as (a & ds & q & Hp).
    destruct (is_canon_parts p a ds q ext empty Hp Hne Hz) as (b & -> & Hb). f_equal.
    apply eq_true_iff_eq. rewrite Hb, bool_decide_eq_true, (up_split p a ds q Hp). split.
    + intros [Hds Hq]. split_and!.
      * intros ->. assert (ds = [] /\ q = cur) as [-> ->].
        { assert (parts cur false [] cur) as Hp' by (split; try done; apply noslash_cons; split; [done|apply noslash_nil]).
          by destruct (parts_unique _ _ _ _ _ _ _ Hp Hp') as (_ & -> & ->). }
        destruct Hq as [Hq|(_ & Hq & _)]; done.
      * by apply (canon_fixed p a ds q ext).
      * apply plains_ext in Hds as [_ [->|Hds]]; [by left|]. destruct Hq as [->|Hq%plain_ext]; [by right|].
        destruct Hq as [_ [->|Hq]]; [by left|]. right. naive_solver.
    + intros (Hc & E & Hext). destruct (canon_good p) as [?|[?|(a' & ds' & q' & Hp' & Hds & Hq)]]; [congruence..|]. rewrite E in Hp'.
      assert (a' = a /\ ds' = ds /\ q' = q) as (-> & -> & ->) by by apply (parts_unique p a' ds' q' a ds q).
      rewrite plains_ext, plain_ext. naive_solver.
Qed.

(** *** Names seen from a directory *)

Lemma dirs_app l m : dirs (l ++ m) = dirs l ++ dirs m.
Proof. unfold dirs. by rewrite map_app, concat_app. Qed.

Lemma dirs_cons d l : dirs (d :: l) = d ++ slash :: dirs l.
Proof. unfold dirs. simpl. by rewrite <- app_assoc. Qed.

Lemma dirs_snoc l d : dirs (l ++ [d]) = (dirs l ++ d) ++ [slash].
Proof. rewrite dirs_app, dirs_cons. by rewrite <- app_assoc. Qed.

Lemma is_abs_parts p a ds q : parts p a ds q -> is_abs p = a.
Proof.
  intros [E Hr _ _]. destruct a; [by rewrite E|]. specialize (Hr eq_refl). destruct p as [|c p]; [done|].
  apply Ascii.eqb_neq. simpl in *. congruence.
Qed.

Lemma lcl_scan_ok i l p d : exists pre, pre `prefix_of` p /\ pre `prefix_of` d /\
  ((pre = [] /\ lcl_scan i l p d = l) \/ (last pre = Some slash /\ lcl_scan i l p d = (i + length pre)%nat)).
Proof.
  revert i l d. induction p as [|c p IH]; intros i l d; [exists []; simpl; split_and!; [apply prefix_nil..|by left]|].
  destruct d as [|c' d]; [exists []; split_and!; [apply prefix_nil..|by left]|]. simpl.
  destruct (Ascii.eqb_spec c c') as [<-|Hc]; simpl; [|exists []; split_and!; [apply prefix_nil..|by left]].
  destruct (IH (S i) (if Ascii.eqb c slash then S i else l) d) as (pre & Hp & Hd & [[-> ->]|[Hl ->]]).
  - destruct (Ascii.eqb_spec c slash) as [->|Hs].
    + exists [slash]. split_and!; [by apply prefix_cons..|right; simpl; split; [done|lia]].
    + exists []. split_and!; [apply prefix_nil..|by left].
  - exists (c :: pre). split_and!; [by apply prefix_cons..|]. right. destruct pre; [done|]. rewrite last_cons_cons. simpl in *. split; [done|lia].
Qed.

Lemma lcl_scan_self i l d x : last d = Some slash -> lcl_scan i l (d ++ x) d = (i + length d)%nat.
Proof.
  revert i l. induction d as [|c d IH]; intros i l Hl; [done|]. simpl. rewrite Ascii.eqb_refl. simpl.
  destruct d as [|c' d]; [|rewrite IH by done; simpl; lia]. injection Hl as ->. destruct x; simpl; lia.
Qed.

Lemma prefix_dirs pre es r : pre = [] \/ last pre = Some slash -> Forall noslash es -> noslash r -> pre `prefix_of` dirs es ++ r ->
  exists es1 es2, es = es1 ++ es2 /\ pre = dirs es1.
Proof.
  intros Hl Hes Hr [x Hx]. destruct (split_join pre) as (l & q & El & Ep).
  assert (q = []) as ->.
  { destruct Hl as [->|Hl]; [simpl in El; by apply (app_inj_tail [] l [] q) in El as [_ <-]|]. apply (split_last pre l); [done| |done]. by intros ->. }
  rewrite app_nil_r in Ep. subst pre. assert (Forall noslash l) as Hnl.
  { apply Forall_forall. intros d Hd. apply (split_parts (dirs l)). rewrite El. set_solver. }
  destruct (split_join x) as (m & q & Em & Ex). assert (es ++ [r] = (l ++ m) ++ [q]) as E.
  { rewrite <- split_dirs, Hx by done. rewrite Ex, app_assoc, <- dirs_app. apply split_dirs; [apply Forall_app; split; [done|]|].
    - apply Forall_forall. intros d Hd. apply (split_parts x). rewrite Em. set_solver.
    - apply (split_parts x). rewrite Em. set_solver. }
  apply app_inj_tail in E as [-> _]. eauto.
Qed.

Lemma ups_dirs es : Forall noslash es ->
  concat (map (fun c => if Ascii.eqb c slash then str "../" else []) (dirs es)) = dirs (replicate (length es) up).
Proof.
  induction 1 as [|d es Hd _ IH]; [done|]. rewrite dirs_cons, map_app, concat_app. cbn [map concat length replicate]. rewrite Ascii.eqb_refl, IH, dirs_cons.
  assert (concat (map (fun c => if Ascii.eqb c slash then str "../" else []) d) = []) as ->; [|done].
  clear IH. induction d as [|c d IH]; [done|]. apply noslash_cons in Hd as [Hc Hd]. simpl. rewrite (proj2 (Ascii.eqb_neq c slash)) by done. auto.
Qed.

Lemma glb_loop_up a l e x : noslash e -> e <> [] -> glb_loop (root a ++ dirs (l ++ [e])) (dirs [up] ++ x) = glb_loop (root a ++ dirs l) x.
Proof.
  intros Hn Hne. change (dirs [up] ++ x) with (dot :: dot :: slash :: x). cbn [glb_loop]. rewrite dirs_app.
  change (Ascii.eqb dot dot && Ascii.eqb dot dot && Ascii.eqb slash slash) with true. rewrite bool_decide_eq_true_2; [cbn [andb]|].
  2: { rewrite app_assoc. unfold dirs at 2. simpl. rewrite app_nil_r, app_assoc. by destruct (_ ++ e). }
  rewrite dirs_cons, app_assoc. change (dirs []) with (@nil ascii). rewrite app_assoc, reverse_snoc, reverse_app. cbn [drop]. rewrite drop_0.
  assert (reverse (root a ++ dirs l) = rdir a (reverse l)) as E by by rewrite <- reverse_render, root_dirs, reverse_involutive.
  rewrite E, rfind_slash_app; [|by apply noslash_reverse|apply rdir_head]. rewrite <- E. destruct (reverse (root a ++ dirs l)) as [|c r] eqn:Er.
  - rewrite app_nil_r, bool_decide_eq_true_2; [cbn|intros E'; apply Hne; by rewrite <- (reverse_involutive e), E'].
    by rewrite <- (reverse_involutive (root a ++ dirs l)), Er.
  - by rewrite <- Er, reverse_involutive.
Qed.

Lemma glb_loop_ups a l es x : Forall noslash es -> Forall (fun e => e <> []) es ->
  glb_loop (root a ++ dirs (l ++ es)) (dirs (replicate (length es) up) ++ x) = glb_loop (root a ++ dirs l) x.
Proof.
  revert x. induction es as [|e es IH] using rev_ind; intros x Hn Hne; [by rewrite app_nil_r|].
  apply Forall_app in Hn as [Hn He]. apply Forall_app in Hne as [Hne He']. rewrite Forall_singleton in He, He'.
  rewrite length_app. simpl. rewrite Nat.add_1_r. cbn [replicate]. change (up :: replicate (length es) up) with ([up] ++ replicate (length es) up).
  rewrite (dirs_app [up]), <- (app_assoc (dirs [up])), (app_assoc l es), glb_loop_up by done. by apply IH.
Qed.

(** The loop stops on a name that does not go up *)
Lemma glb_loop_end d ds q : Forall noslash ds -> noslash q -> d = [] \/ head ds <> Some up -> glb_loop d (dirs ds ++ q) = Ret (d ++ dirs ds ++ q).
Proof.
  intros Hds Hq Hd. destruct (dirs ds ++ q) as [|c1 [|c2 [|c3 x]]] eqn:E; try done. cbn [glb_loop].
  destruct (Ascii.eqb_spec c1 dot) as [->|?]; [|done]. destruct (Ascii.eqb_spec c2 dot) as [->|?]; [|done].
  destruct (Ascii.eqb_spec c3 slash) as [->|?]; [|done]. cbn [andb]. case_bool_decide as Hne; [|done]. destruct Hd as [->|Hd]; [done|].
  exfalso. apply (f_equal split) in E. rewrite split_dirs in E by done. change (dot :: dot :: slash :: x) with (up ++ slash :: x) in E.
  rewrite split_app in E by apply noslash_up. destruct ds as [|d' ds]; [|simpl in E; injection E as -> _; by apply Hd].
  injection E as _ E. clear -E. destruct x; simpl in E; repeat case_match; done.
Qed.

(** Going up as many levels as one went down *)
Lemma push_ups a st es : plains a false st es -> foldl (push a) st (es ++ replicate (length es) up) = st.
Proof.
  revert st. induction es as [|e es IH]; intros st; [done|]. intros [He Hes]. cbn [app foldl length].
  rewrite (plain_push _ _ _ _ He), <- Nat.add_1_r, replicate_add, app_assoc, foldl_app, IH by done. cbn.
  unfold push. destruct He as (Hne & Hc & Hu). rewrite decide_False by (intros [?|?]; done). rewrite decide_True by done.
  rewrite decide_False; [done|]. intros E. by destruct (Hu E).
Qed.

Lemma plains_split a ext st l m : plains a ext st (l ++ m) <-> plains a ext st l /\ plains a ext (reverse l ++ st) m.
Proof.
  revert st. induction l as [|d l IH]; intros st; simpl; [tauto|]. rewrite IH, reverse_cons, <- app_assoc. simpl. tauto.
Qed.

(** The two names below their common directory *)
Lemma lcl_common p d a ds q es : parts p a ds q -> parts d a es [] ->
  exists es1 es2 ds2, es = es1 ++ es2 /\ ds = es1 ++ ds2 /\
    drop (lcl_scan 0 0 p d) d = dirs es2 /\ drop (lcl_scan 0 0 p d) p = dirs ds2 ++ q.
Proof.
  intros [Ep _ Hds Hq] [Ed _ Hes _]. rewrite app_nil_r in Ed.
  assert (exists pre, pre `prefix_of` dirs ds ++ q /\ pre `prefix_of` dirs es /\ (pre = [] \/ last pre = Some slash) /\
    lcl_scan 0 0 p d = length (root a ++ pre)) as (pre & [x Hx] & [y Hy] & Hl & Hn).
  { rewrite Ep, Ed. destruct a; simpl.
    - destruct (lcl_scan_ok 1 1 (dirs ds ++ q) (dirs es)) as (pre & Hp & Hd & [[-> ->]|[Hl ->]]); [exists []|exists pre]; split_and!; (done || auto).
    - destruct (lcl_scan_ok 0 0 (dirs ds ++ q) (dirs es)) as (pre & Hp & Hd & [[-> ->]|[Hl ->]]); [exists []|exists pre]; split_and!; (done || auto). }
  rewrite <- (app_nil_r (dirs es)) in Hy. destruct (prefix_dirs pre es [] Hl Hes noslash_nil) as (es1 & es2 & -> & ->); [by exists y|].
  rewrite app_nil_r in Hy. destruct (prefix_dirs (dirs es1) ds q) as (es1' & ds2 & -> & E); [|done..|by exists x|].
  { destruct es1 as [|e es1]; [by left|]. right. rewrite <- (app_nil_r (dirs _)). by apply last_dirs; [apply noslash_nil|rewrite dirs_cons; destruct e|]. }
  apply Forall_app in Hes as [Hes1 Hes2]. apply Forall_app in Hds as [Hds1 Hds2].
  assert (es1' = es1) as ->.
  { apply (f_equal split) in E. rewrite <- (app_nil_r (dirs es1)), <- (app_nil_r (dirs es1')), !split_dirs in E by (done || apply noslash_nil). by apply app_inj_tail in E as [-> _]. }
  exists es1, es2, ds2. rewrite Hn, Ep, Ed, !dirs_app, !(app_assoc (root a)). split_and!; [done..| |]; [apply drop_app_length|].
  rewrite <- app_assoc. apply drop_app_length.
Qed.

(** A canonical directory *)
Lemma canon_dir d : nonul d -> is_canon d (strict false true) = Ret true -> is_dir_name d = true ->
  exists es, parts d (is_abs d) es [] /\ plains (is_abs d) false [] es.
Proof.
  intros Hz Hc Hd. destruct (decide (d = [])) as [->|Hne]; [exists []; by split; [split; [|intros _| |apply noslash_nil]|]|].
  destruct (parts_of d Hne) as (a & es & q & Hp). assert (q = []) as ->.
  { unfold is_dir_name in Hd. rewrite bool_decide_eq_false_2 in Hd by done. apply bool_decide_eq_true in Hd.
    destruct Hp as [E _ Hes Hq]. destruct a; simpl in E.
    - subst d. destruct (dirs es ++ q) as [|c x] eqn:E; [by apply app_eq_nil in E as [_ ->]|]. rewrite last_cons_cons, <- E in Hd.
      apply (last_dirs es); [done|by rewrite E|done].
    - subst d. by apply (last_dirs es). }
  exists es. rewrite (is_abs_parts _ _ _ _ Hp). split; [done|]. destruct (is_canon_parts d a es [] false true Hp Hne Hz) as (b & Eb & Hb).
  rewrite Hc in Eb. injection Eb as <-. by apply Hb.
Qed.

Section lcl.
Context (p d : path) (a : bool) (es1 es2 ds2 : list path) (q : path).
Context (Hp : parts p a (es1 ++ ds2) q) (Hd : parts d a (es1 ++ es2) []) (Hne : p <> []).
Context (Hes : plains a false [] (es1 ++ es2)) (Hds : plains a true [] (es1 ++ ds2)) (Hq : q = [] \/ plain a true (reverse (es1 ++ ds2)) q).
Definition lcl_name : path := dirs (replicate (length es2) up ++ ds2) ++ q.

Lemma lcl_comps : Forall noslash es2 /\ Forall noslash (replicate (length es2) up ++ ds2) /\ Forall (fun e => e <> []) (replicate (length es2) up ++ ds2).
Proof.
  pose proof (pa_ds _ _ _ _ Hd) as H1. pose proof (pa_ds _ _ _ _ Hp) as H2. pose proof (plains_nonempty _ _ _ _ Hds) as H3.
  apply Forall_app in H1 as [_ H1]. apply Forall_app in H2 as [_ H2]. apply Forall_app in H3 as [_ H3].
  split_and!; [done|apply Forall_app; split; [apply Forall_replicate, noslash_up|done]|]. apply Forall_app. split; [by apply Forall_replicate|done].
Qed.

Lemma lcl_denotes : canon (d ++ lcl_name) = p.
Proof.
  destruct lcl_comps as (H1 & H2 & H3). pose proof (pa_ds _ _ _ _ Hd) as H4. pose proof (plains_nonempty _ _ _ _ Hes) as H5.
  assert (d ++ lcl_name = root a ++ dirs ((es1 ++ es2) ++ replicate (length es2) up ++ ds2) ++ q) as E.
  { unfold lcl_name. rewrite (pa_eq _ _ _ _ Hd), app_nil_r, (dirs_app (es1 ++ es2)), <- !app_assoc. done. }
  assert (parts (d ++ lcl_name) a ((es1 ++ es2) ++ replicate (length es2) up ++ ds2) q) as Hdq.
  { split; [done|intros ->; rewrite E; apply head_dirs; [by apply Forall_app|apply (pa_q _ _ _ _ Hp)|by apply Forall_app]|by apply Forall_app|apply (pa_q _ _ _ _ Hp)]. }
  apply plains_split in Hes as [Hes1 Hes2]. rewrite <- (canon_fixed p a (es1 ++ ds2) q true Hp Hne Hds Hq), (canon_parts _ _ _ _ Hp Hne).
  rewrite (canon_parts _ _ _ _ Hdq).
  - cbv zeta. rewrite !foldl_app, <- (foldl_app (push a) es2 _ _), (plains_push _ _ _ _ Hes1), push_ups by done. done.
  - intros E0. apply app_eq_nil in E0 as [-> E0]. apply Hne. rewrite (pa_eq _ _ _ _ Hp). destruct Hd as [Ed _ _ _].
    symmetry in Ed. apply app_eq_nil in Ed as [-> Ed]. rewrite app_nil_r, dirs_app in Ed. apply app_eq_nil in Ed as [Ed Ed2].
    unfold lcl_name in E0. rewrite dirs_app, <- app_assoc in E0. apply app_eq_nil in E0 as [_ E0]. by rewrite dirs_app, Ed.
Qed.

Lemma lcl_back : mk_glb lcl_name d = Ret p.
Proof.
  destruct lcl_comps as (H1 & H2 & H3). pose proof (plains_nonempty _ _ _ _ Hes) as H5. apply Forall_app in H5 as [_ H5].
  unfold mk_glb. assert (is_abs lcl_name = false) as ->.
  { pose proof (head_dirs _ q H2 (pa_q _ _ _ _ Hp) H3) as Hh. unfold lcl_name. destruct (dirs _ ++ q); [done|]. apply Ascii.eqb_neq. simpl in *. congruence. }
  unfold lcl_name. rewrite (pa_eq _ _ _ _ Hd), app_nil_r, (dirs_app (replicate _ _)), <- (app_assoc (dirs (replicate _ _))), glb_loop_ups by done. apply Forall_app in H2 as [_ H2].
  rewrite glb_loop_end; [by rewrite (pa_eq _ _ _ _ Hp), dirs_app, <- !app_assoc|done|apply (pa_q _ _ _ _ Hp)|].
  destruct ds2 as [|e ds3]; [by right|]. destruct (decide (e = up)) as [->|He]; [|right; simpl; congruence].
  apply plains_split in Hds as [_ [(_ & _ & Hu) _]]. destruct (Hu eq_refl) as (_ & Ha & Hall). rewrite Ha. rewrite app_nil_r in Hall.
  rewrite Forall_reverse in Hall. apply plains_ext in Hes as [_ [?|Hn]]; [done|]. destruct es1 as [|e1 l]; [by left|].
  apply Forall_cons in Hall as [<- _]. exfalso. apply Hn. by left.
Qed.
End lcl.

(** C12 The name [mk_lcl] gives to a file as seen from a directory denotes this file: appended to the directory,
    it leads to the file, [mk_glb] gives the file back, and a file below the directory is seen as the rest of
    its name. *)
Theorem lcl_glb p d : nonul p -> nonul d -> is_canon p default_action = Ret true ->
  is_canon d (strict false true) = Ret true -> is_dir_name d = true -> is_abs p = is_abs d ->
  exists q, mk_lcl p d = Ret q /\ canon (d ++ q) = p /\ mk_glb q d = Ret p /\ forall x, p = d ++ x -> q = x.
Proof.
  intros Hz Hzd Hcp Hcd Hdir Ha. destruct (canon_dir d Hzd Hcd Hdir) as (es & Hd & Hes).
  assert (p <> []) as Hne by by intros ->. destruct (parts_of p Hne) as (a & ds & q & Hp).
  assert (a = is_abs d) as -> by (rewrite <- Ha; symmetry; by apply (is_abs_parts p a ds q)).
  destruct (is_canon_parts p _ ds q true false Hp Hne Hz) as (b & Eb & Hb). change (strict true false) with default_action in Eb.
  rewrite Hcp in Eb. injection Eb as <-. destruct (proj1 Hb eq_refl) as [Hds Hq].
  destruct (lcl_common p d _ ds q es Hp Hd) as (es1 & es2 & ds2 & -> & -> & Ed & Ep).
  assert (mk_lcl p d = Ret (lcl_name es2 ds2 q)) as El.
  { unfold mk_lcl. rewrite swear_bind by done. rewrite swear_bind by (rewrite Ha; by destruct (is_abs d)). cbv zeta.
    pose proof (pa_ds _ _ _ _ Hd) as Hnes. apply Forall_app in Hnes as [_ Hnes2].
    unfold lcl_name. by rewrite Ed, Ep, ups_dirs, dirs_app, <- app_assoc by done. }
  exists (lcl_name es2 ds2 q). split_and!; [done|by eapply lcl_denotes|by eapply lcl_back|].
  intros x ->. unfold mk_lcl in El. rewrite swear_bind in El by done. rewrite swear_bind in El by (rewrite Ha; by destruct (is_abs d)).
  injection El as <-. destruct (decide (d = [])) as [->|Hdn]; [by destruct x|]. unfold is_dir_name in Hdir.
  rewrite bool_decide_eq_false_2 in Hdir by done. apply bool_decide_eq_true in Hdir. rewrite lcl_scan_self by done. simpl.
  by rewrite drop_all, drop_app_length.
Qed.

(** *** The directory and the base of a name *)

Lemma rfind_slash_split r : exists x, r = x ++ rfind_slash r /\ (rfind_slash r = [] \/ exists r', rfind_slash r = slash :: r').
Proof.
  induction r as [|c r (x & E & H)]; [exists []; auto|]. simpl. destruct (Ascii.eqb_spec c slash) as [->|Hc].
  - exists []. split; [done|]. right. eauto.
  - exists (c :: x). split; [by rewrite E at 1|done].
Qed.

Lemma rfind_spec file k i : rfind file k = Some i -> file !! i = Some slash.
Proof.
  unfold rfind. destruct (rfind_slash_split (reverse (take k file))) as (x & E & [H|[r H]]); rewrite H in *; [done|].
  intros [= <-]. apply (f_equal reverse) in E. rewrite reverse_involutive, reverse_app, reverse_cons, <- app_assoc in E.
  assert (take k file !! length r = Some slash) as Hl by (rewrite E, lookup_app_r, length_reverse, Nat.sub_diag by (by rewrite length_reverse); done).
  apply lookup_take_Some in Hl as [Hl _]. done.
Qed.

Lemma uphill_slash n file pos : match uphill n file pos with
  | Ret (Some i) => (n = 0%nat /\ pos = Some i) \/ file !! i = Some slash
  | Crash => False
  | _ => True
  end.
Proof.
  revert pos. induction n as [|n IH]; intros pos; cbn [uphill]; [destruct pos; auto|]. destruct pos as [[|k]|]; [..|done].
  - specialize (IH None). destruct (uphill n file None) as [[i|]|e|]; [|done..]. right. by destruct IH as [[_ ?]|?].
  - destruct (rfind file (S k)) as [i|] eqn:Ei; case_bool_decide; try done.
    + specialize (IH (Some i)). apply rfind_spec in Ei. destruct (uphill n file (Some i)) as [[i'|]|e|]; [|done..]. right. by destruct IH as [[_ [= <-]]|?].
    + specialize (IH None). destruct (uphill n file None) as [[i'|]|e|]; [|done..]. right. by destruct IH as [[_ ?]|?].
Qed.

(** The invariant of [dir_name_s] and [base_name]: both fail together, otherwise the name is the directory
    followed by the base *)
Lemma dir_base file n : match dir_name_s file n, base_name file n with
  | Ret d, Ret b => d ++ b = file /\ is_dir_name d = true
  | Throw e, Throw e' => e = e'
  | _, _ => False
  end.
Proof.
  unfold dir_name_s, base_name, _dir_base_name. destruct n as [|n].
  - simpl. destruct (is_dir_name file) eqn:E; simpl; [by rewrite app_nil_r|done].
  - cbn [Nat.eqb]. case_bool_decide; [done|]. pose proof (uphill_slash (S n) file (Some (length file - (if is_dir_name file then 1 else 0)))) as Hs.
    destruct (uphill _ _ _) as [[i|]|e|]; simpl; try done. destruct Hs as [[? _]|Hs]; [done|].
    split; [apply (take_drop (S i))|]. unfold is_dir_name. rewrite (take_S_r _ _ _ Hs), last_snoc. by rewrite orb_true_r.
Qed.

(** *** Files below a directory *)

(** [lies_within] on a directory that is not made of [..] only: the file has its components *)
Lemma starts_slash (f d : path) : starts_with f d && Ascii.eqb (nth (length d) f nul) slash = true <-> d ++ [slash] `prefix_of` f.
Proof.
  unfold starts_with. rewrite andb_true_iff, bool_decide_eq_true, Ascii.eqb_eq. split.
  - intros [[x ->] E]. rewrite app_nth2, Nat.sub_diag in E by lia. destruct x as [|c x]; [done|]. simpl in E. subst c. exists x. by rewrite <- app_assoc.
  - intros [x ->]. rewrite <- app_assoc. split; [by exists (slash :: x)|]. by rewrite app_nth2, Nat.sub_diag by lia.
Qed.

Lemma not_ups b l e : noslash e -> e <> up ->
  negb (ends_with (root b ++ dirs l ++ e) (str "/..")) && bool_decide (root b ++ dirs l ++ e <> str "..") = true.
Proof.
  intros Hn He. rewrite andb_true_iff, negb_true_iff. unfold ends_with. rewrite bool_decide_eq_false, bool_decide_eq_true. split.
  - intros [x E]. change (str "/..") with (slash :: up) in E. rewrite app_assoc in E. apply (f_equal reverse) in E.
    rewrite !reverse_app, reverse_cons in E. change (reverse up) with up in E. apply He. apply noslash_reverse in Hn.
    destruct (reverse e) as [|c1 [|c2 [|c3 r]]] eqn:Er.
    + exfalso. simpl in E. destruct (reverse (dirs l)) as [|c r] eqn:Ed.
      * destruct b; done.
      * destruct l as [|d l _] using rev_ind; [done|]. rewrite dirs_snoc, reverse_snoc in Ed. by simplify_eq/=.
    + exfalso. injection E as -> E. destruct l as [|d l _] using rev_ind; [by destruct b|]. rewrite dirs_snoc, reverse_snoc in E. by simplify_eq/=.
    + injection E as -> -> _. rewrite <- (reverse_involutive e), Er. done.
    + injection E as -> -> -> _. do 2 apply noslash_cons in Hn as [_ Hn]. by apply noslash_cons in Hn as [? _].
  - intros E. apply He. destruct b; [done|]. destruct l as [|d l]; [done|]. exfalso.
    assert (slash ∈ str "..") as Hs by (rewrite <- E; simpl; rewrite dirs_cons; set_solver). change (str "..") with up in Hs. by apply noslash_up in Hs.
Qed.

Lemma prefix_comps a b ds q es : Forall noslash ds -> noslash q -> Forall noslash es -> Forall (fun e => e <> []) es -> es <> [] -> (a = false -> head (dirs ds ++ q) <> Some slash) ->
  root b ++ dirs es `prefix_of` root a ++ dirs ds ++ q <-> a = b /\ es `prefix_of` ds.
Proof.
  intros Hds Hq Hes Hn Hne Ha. split.
  - intros [x E]. rewrite <- app_assoc in E. assert (a = b) as ->.
    { destruct a, b; try done; exfalso.
      - pose proof (head_dirs es [] Hes noslash_nil Hn) as Hh. rewrite app_nil_r in Hh. destruct es as [|e es]; [done|]. rewrite dirs_cons in *. destruct e; simplify_eq/=; done.
      - apply Ha; [done|]. simpl in E. by rewrite E. }
    split; [done|]. apply app_inv_head in E. destruct (prefix_dirs (dirs es) ds q) as (es1 & es2 & -> & E'); [|done..|by exists x|].
    + right. rewrite <- (app_nil_r (dirs es)). apply last_dirs; [apply noslash_nil| |done]. destruct es as [|e es]; [done|]. rewrite dirs_cons. by destruct e.
    + apply (f_equal split) in E'. rewrite <- (app_nil_r (dirs es)), <- (app_nil_r (dirs es1)) in E'. apply Forall_app in Hds as [? _].
      rewrite !split_dirs in E' by (done || apply noslash_nil). apply app_inj_tail in E' as [-> _]. by exists es2.
  - intros [-> [x ->]]. rewrite dirs_app, <- app_assoc, app_assoc. by apply prefix_app_r.
Qed.

Lemma lies_within_dirs f a ds q b l e : parts f a ds q -> Forall noslash (l ++ [e]) -> Forall (fun e => e <> []) (l ++ [e]) -> e <> up ->
  lies_within f (root b ++ dirs (l ++ [e])) = bool_decide (a = b /\ l ++ [e] `prefix_of` ds).
Proof.
  intros [Ef Hr Hds Hq] Hl Hn Hu. assert (root b ++ dirs (l ++ [e]) = (root b ++ dirs l ++ e) ++ [slash]) as Ed by by rewrite dirs_snoc, <- !app_assoc.
  pose proof Hl as [_ He]%Forall_app. rewrite Forall_singleton in He. unfold lies_within, is_dir_name. rewrite Ed, last_snoc, removelast_last.
  rewrite bool_decide_eq_false_2 by by destruct (root b ++ dirs l ++ e). rewrite bool_decide_eq_true_2 by done. cbn [orb]. cbv zeta. rewrite not_ups by done.
  apply eq_true_iff_eq. rewrite starts_slash, bool_decide_eq_true, <- Ed, Ef. apply prefix_comps; try done; [by destruct l|].
  intros ->. rewrite Ef in Hr. by apply Hr.
Qed.

(** [uphill_lvl] counts the leading [..] *)
Fixpoint ups (l : list path) : nat := match l with c :: l => if decide (c = up) then S (ups l) else 0 | [] => 0 end.

Lemma uphill_lvl_char c s : ~ (str "../" `prefix_of` c :: s) -> c :: s <> up -> uphill_lvl (c :: s) = 0%nat.
Proof.
  intros Hp Hu. destruct s as [|c2 [|c3 s]]; cbn [uphill_lvl]; try (by rewrite bool_decide_eq_false_2).
  destruct (Ascii.eqb_spec c dot) as [->|]; [|done]. destruct (Ascii.eqb_spec c2 dot) as [->|]; [|done].
  destruct (Ascii.eqb_spec c3 slash) as [->|]; [|done]. exfalso. apply Hp. by exists s.
Qed.

Lemma uphill_lvl_ups ds q : Forall noslash ds -> noslash q -> uphill_lvl (dirs ds ++ q) = ups (ds ++ [q]).
Proof.
  intros Hds Hq. induction Hds as [|d ds Hd Hds IH].
  - simpl. case_decide as E; [by subst q|]. destruct q as [|c q]; [done|]. apply uphill_lvl_char; [|done].
    intros [x Hx]. apply Hq. rewrite Hx. right. right. by left.
  - rewrite dirs_cons, <- app_assoc, <- !app_comm_cons. cbn [ups]. case_decide as E; [subst d; simpl; by rewrite IH|].
    destruct (d ++ slash :: dirs ds ++ q) as [|c s] eqn:Es; [by destruct d|]. apply uphill_lvl_char.
    + intros [x Hx]. rewrite <- Es in Hx. change (str "../" ++ x) with (up ++ slash :: x) in Hx. apply (f_equal split) in Hx.
      rewrite !split_app in Hx by (done || apply noslash_up). by injection Hx.
    + rewrite <- Es. intros Hx. assert (slash ∈ up) as Hs by (rewrite <- Hx; set_solver). by apply noslash_up in Hs.
Qed.

(** ** Samples *)

Lemma canonical_witness : mk_canon (str "/a/./b//../../../c/") = Ret (str "/c/") /\ is_canon (str "/a//b") default_action = Ret false.
Proof.
  assert (nonul (str "/a/./b//../../../c/")) as H1 by (unfold nonul; apply (bool_decide_eq_true_1 _); vm_compute; reflexivity).
  assert (nonul (str "/a//b")) as H2 by (unfold nonul; apply (bool_decide_eq_true_1 _); vm_compute; reflexivity).
  split; [apply (canonical _ H1)|apply (canonical _ H2)].
Defined.

Lemma lcl_glb_witness : exists q, mk_lcl (str "/repo/src/x.c") (str "/repo/obj/dbg/") = Ret q /\
  canon (str "/repo/obj/dbg/" ++ q) = str "/repo/src/x.c" /\ mk_glb q (str "/repo/obj/dbg/") = Ret (str "/repo/src/x.c") /\
  forall x, str "/repo/src/x.c" = str "/repo/obj/dbg/" ++ x -> q = x.
Proof.
  apply (lcl_glb (str "/repo/src/x.c") (str "/repo/obj/dbg/"));
    (unfold nonul; apply (bool_decide_eq_true_1 _); vm_compute; reflexivity) || (vm_compute; reflexivity).
Defined.

(** The root, reached without a trailing slash, is given the empty name, which denotes the current directory. *)
Lemma root_is_lost : mk_canon (str "/usr/..") = Ret [] /\ mk_canon (str "/usr/../") = Ret (str "/").
Proof. split; vm_compute; reflexivity. Qed.

(** [..] is left as is by [mk_glb], unless it is followed by a slash. *)
Lemma glb_of_up : mk_glb (str "..") (str "/a/b/") = Ret (str "/a/b/..") /\ mk_glb (str "../") (str "/a/b/") = Ret (str "/a/").
Proof. split; vm_compute; reflexivity. Qed.
End Disk.
