(* ===== verification/RealPath.v ===== *)
(** * Resolution of symbolic links: [RealPathEnv] and [RealPath] of src/real_path.hh and src/real_path.cc

    The file system is a parameter: [read_lnk] reads a link and [read_hdr] the beginning of a file. It is taken
    not to change during a call. *)
From S2P Require Import Prelude.
From S2P Require Import Enum.
From S2P Require Import Path.
From Stdlib Require Import Ascii.

Module RealPath.
Import Disk.

Inductive FileLoc : Type := Repo | SrcDir | RepoRoot | Tmp | Proc | Admin | Ext | Unknown.
Inductive LnkSupport : Type := LNone | LFile | LFull | LFullExt.
#[export] Instance FileLoc_eq_dec : EqDecision FileLoc.
Proof. solve_decision. Defined.
#[export] Instance LnkSupport_eq_dec : EqDecision LnkSupport.
Proof. solve_decision. Defined.
Definition FileLoc_rank (l : FileLoc) : nat :=
  match l with Repo => 0 | SrcDir => 1 | RepoRoot => 2 | Tmp => 3 | Proc => 4 | Admin => 5 | Ext => 6 | Unknown => 7 end.
Definition LnkSupport_rank (l : LnkSupport) : nat := match l with LNone => 0 | LFile => 1 | LFull => 2 | LFullExt => 3 end.

Record RealPathEnv := mk_env { lnk_support : LnkSupport; repo_root_s : path; tmp_dir_s : path; src_dirs_s : list path }.

(** [PrivateAdminDirS] without its slash *)
Definition s_private_admin_dir : path := str "LMAKE/lmake".
Definition _lcl_file_loc (file : path) : FileLoc :=
  if negb (starts_with file s_private_admin_dir) then Repo
  else if (length file =? length s_private_admin_dir)%nat then Admin
  else if Ascii.eqb (nth (length s_private_admin_dir) file nul) slash then Admin
  else Repo.

(** [P_tmpdir "/"] *)
Definition default_tmp_s : path := str "/tmp/".

(** The loop of [file_loc] over the source directories *)
Fixpoint in_src_dirs (abs_real lcl_real : path) (sds : list path) : bool :=
  match sds with
  | [] => false
  | sd_s :: sds => if lies_within (if is_abs sd_s then abs_real else lcl_real) sd_s then true else in_src_dirs abs_real lcl_real sds
  end.
Definition env_file_loc (e : RealPathEnv) (real : path) : outcome FileLoc :=
  abs_real ← mk_glb real (repo_root_s e);
  if starts_with abs_real (if bool_decide (tmp_dir_s e <> []) then tmp_dir_s e else default_tmp_s) then Ret Tmp
  else if starts_with abs_real (str "/proc/") then Ret Proc
  else
    let other :=
      lcl_real ← mk_lcl real (repo_root_s e);
      Ret (if in_src_dirs abs_real lcl_real (src_dirs_s e) then SrcDir else Ext) in
    let sz := length (repo_root_s e) in
    if starts_with abs_real (removelast (repo_root_s e)) then
      let c := nth (pred sz) abs_real nul in
      if Ascii.eqb c nul then Ret RepoRoot
      else if Ascii.eqb c slash then Ret (_lcl_file_loc (drop sz abs_real))
      else other
    else other.

(** ** [_Dvg]: where we are with respect to a directory *)

Record Dvg := mk_dvg { ok : bool; dvg : nat }.
(** The first position from [i] on, among [n], where the two names differ *)
Fixpoint first_diff (n i : nat) (a b : path) : option nat :=
  match n with
  | O => None
  | S n => if negb (Ascii.eqb (nth i a nul) (nth i b nul)) then Some i else first_diff n (S i) a b
  end.
Definition update (domain_s chk : path) (g : Dvg) : outcome Dvg :=
  if bool_decide (domain_s = []) then Ret g
  else
    _ ← swear (bool_decide (last domain_s = Some slash));
    let ds := pred (length domain_s) in
    let start := dvg g in
    let ok := (ds <=? length chk)%nat in
    let dvg := if ok then ds else length chk in
    match first_diff (dvg - start) start domain_s chk with
    | Some i => Ret (mk_dvg false i)
    | None => Ret (mk_dvg (if (ds <? length chk)%nat then Ascii.eqb (nth ds chk nul) slash else ok) dvg)
    end.
Definition Dvg_new (domain_s chk : path) : outcome Dvg := update domain_s chk (mk_dvg false 0).

(** ** [RealPath] *)

Record SolveReport := mk_sr { sr_real : path; sr_lnks : list path; sr_file_accessed : Bool3; sr_file_loc : FileLoc }.

(** The result of [read_lnk]: [Absent] when [errno] is [ENOENT] *)
Inductive lnk : Type := Target (t : path) | NotLnk | Absent.

(** [MAXSYMLINKS] of Linux *)
Definition NMaxLnks : nat := 20.

Section real_path.
Context (read_lnk : path -> lnk).
Context (env : RealPathEnv) (abs_src_dirs_s : list path).

Definition repo_root_sz : nat := length (repo_root_s env).
Definition tmp_s : path := if bool_decide (tmp_dir_s env <> []) then tmp_dir_s env else default_tmp_s.

Definition _find_src_idx (real : path) : option nat :=
  fst <$> list_find (fun sd => sd `prefix_of` real) abs_src_dirs_s.

(** The variables of the loop of [solve] *)
Record state := mk_st { real : path; in_repo : Dvg; in_tmp : Dvg; in_proc : Dvg; in_dev : Dvg; exists_ : bool; lnks : list path }.
Definition set_real x st := mk_st x (in_repo st) (in_tmp st) (in_proc st) (in_dev st) (exists_ st) (lnks st).
Definition set_exists b st := mk_st (real st) (in_repo st) (in_tmp st) (in_proc st) (in_dev st) b (lnks st).
Definition set_lnks x st := mk_st (real st) (in_repo st) (in_tmp st) (in_proc st) (in_dev st) (exists_ st) x.

Definition update_all (st : state) : outcome state :=
  in_repo ← update (repo_root_s env) (real st) (in_repo st);
  in_tmp ← update tmp_s (real st) (in_tmp st);
  in_proc ← update (str "/proc/") (real st) (in_proc st);
  in_dev ← update (str "/dev/") (real st) (in_dev st);
  Ret (mk_st (real st) in_repo in_tmp in_proc in_dev (exists_ st) (lnks st)).

(** [real.resize(real.rfind('/'))]: resizing to [Npos] throws [length_error] *)
Definition parent (real : path) : outcome path :=
  match rfind_slash (reverse real) with [] => Crash | _ :: r => Ret (reverse r) end.

(** The part of the loop between the handling of [..] and label [HandleLnk], on [real] with its new component:
    [None] to continue with the next component, otherwise [src_idx] *)
Definition must_read (no_follow last : bool) (st : state) : option (option nat) :=
  if negb (exists_ st) then None
  else if no_follow && last then None
  else if ok (in_tmp st) || ok (in_proc st) || ok (in_dev st) then Some None
  else
    let supported src_idx :=
      match lnk_support env with
      | LNone => None
      | LFile => if negb last then None else Some src_idx
      | _ => Some src_idx
      end in
    if ok (in_repo st) then if (length (real st) <? repo_root_sz)%nat then None else supported None
    else if decide (lnk_support env <> LFullExt) then
      match _find_src_idx (real st) with None => None | Some i => supported (Some i) end
    else supported None.

(** The link recorded as accessed *)
Definition note_lnk (src_idx : option nat) (st : state) : state :=
  if ok (in_repo st) && negb (ok (in_tmp st)) then set_lnks (lnks st ++ [drop repo_root_sz (real st)]) st
  else
    match src_idx with
    | Some i => set_lnks (lnks st ++ [nth i (src_dirs_s env) [] ++ drop (length (nth i abs_src_dirs_s [])) (real st)]) st
    | None => st
    end.

Inductive digest : Type :=
| Continue (st : state)
| Follow (st : state) (nxt : path).

(** The body of the loop, before the updates of the [for] *)
Definition component (no_follow : bool) (c : path) (last : bool) (st : state) : outcome digest :=
  if decide (c = []) then Ret (Continue st)
  else if decide (c = cur) then Ret (Continue st)
  else if decide (c = up) then
    if decide (real st = []) then Ret (Continue st) else r ← parent (real st); Ret (Continue (set_real r st))
  else
    let prev_real := real st in
    let st := set_real (real st ++ slash :: c) st in
    match must_read no_follow last st with
    | None => Ret (Continue st)
    | Some src_idx =>
      match read_lnk (real st) with
      | NotLnk | Target [] => Ret (Continue st)
      | Absent => Ret (Continue (set_exists false st))
      | Target nxt => Ret (Follow (set_real (if is_abs nxt then [] else prev_real) (note_lnk src_idx st)) nxt)
      end
    end.

(** The unprocessed part of the file, which is read up to the nul that ends its buffer: [tail] are the
    characters of the buffer after the view *)
Fixpoint join (comps : list path) : path :=
  match comps with [] => [] | [c] => c | c :: comps => c ++ slash :: join comps end.
Definition next_file (nxt : path) (rest : list path) (tail : path) : path :=
  nxt ++ match rest with [] => [] | _ => slash :: join rest ++ tail end.
(** The components from [pos] on *)
Definition components (file : path) : list path := split (if is_abs file then drop 1 file else file).

(** The loop of [solve]: [n] links may still be followed; [inl] when there are too many links *)
Fixpoint follow (no_follow : bool) (n : nat) : path -> list path -> state -> outcome (list path + state) :=
  fix walk (tail : path) (comps : list path) (st : state) : outcome (list path + state) :=
  match comps with
  | [] => Ret (inr st)
  | c :: rest =>
    d ← component no_follow c (bool_decide (rest = [])) st;
    match d with
    | Continue st => st ← update_all st; walk tail rest st
    | Follow st nxt =>
      match n with
      | O => Ret (inl (lnks st))
      | S n => st ← update_all st; follow no_follow n [] (components (next_file nxt rest tail)) st
      end
    end
  end.

(** The end of [solve] *)
Definition report (no_follow : bool) (st : state) : SolveReport :=
  let accessed (has_dir : bool) :=
    if (LnkSupport_rank LFile <=? LnkSupport_rank (lnk_support env))%nat && negb no_follow then Yes
    else if (LnkSupport_rank LFull <=? LnkSupport_rank (lnk_support env))%nat && has_dir then Maybe
    else No in
  if ok (in_tmp st) then mk_sr (real st) (lnks st) No Tmp
  else if ok (in_proc st) then mk_sr (real st) (lnks st) No Proc
  else if ok (in_dev st) then mk_sr (real st) (lnks st) No Proc
  else if ok (in_repo st) then
    if (length (real st) <? repo_root_sz)%nat then mk_sr (real st) (lnks st) No RepoRoot
    else
      let r := drop repo_root_sz (real st) in
      let loc := _lcl_file_loc r in
      mk_sr r (lnks st) (if decide (loc = Repo) then accessed (bool_decide (slash ∈ r)) else No) loc
  else
    match _find_src_idx (real st) with
    | Some i =>
      let sd := nth i (src_dirs_s env) [] in
      let r := drop (length (nth i abs_src_dirs_s [])) (real st) in
      mk_sr (sd ++ r) (lnks st) (accessed (bool_decide (slash ∈ r))) SrcDir
    | None => mk_sr (real st) (lnks st) No Ext
    end.

(** [at_] is the directory a relative file is relative to, empty when unknown *)
Definition solve (at_ file tail : path) (no_follow : bool) : outcome SolveReport :=
  if negb (is_abs file) && bool_decide (at_ = []) then Ret (mk_sr [] [] No Ext)
  else
    let real := if is_abs file then [] else if (length at_ =? 1)%nat then [] else at_ in
    in_repo ← Dvg_new (repo_root_s env) real;
    in_tmp ← Dvg_new tmp_s real;
    in_proc ← Dvg_new (str "/proc/") real;
    in_dev ← Dvg_new (str "/dev/") real;
    r ← follow no_follow NMaxLnks tail (components file) (mk_st real in_repo in_tmp in_proc in_dev true []);
    match r with
    | inl lnks => Ret (mk_sr [] lnks No Ext)
    | inr st => Ret (report no_follow st)
    end.

(** ** [exec]: the interpreters of a script *)

(** [read_hdr] gives the first 256 characters of a file, if it can be read; [cwd] is the current directory *)
Context (read_hdr : path -> option path) (cwd : path).

Definition newline : ascii := "010"%char.
Definition is_blank (c : ascii) : bool := Ascii.eqb c " "%char || Ascii.eqb c "009"%char.
Fixpoint upto (p : ascii -> bool) (s : path) : path * path :=
  match s with
  | [] => ([], [])
  | c :: s' => if p c then ([], s) else let '(a, b) := upto p s' in (c :: a, b)
  end.
(** A moved string is empty *)
Definition moved (sr : SolveReport) : SolveReport :=
  mk_sr (if (FileLoc_rank (sr_file_loc sr) <=? FileLoc_rank SrcDir)%nat then [] else sr_real sr) (map (fun _ => []) (sr_lnks sr))
        (sr_file_accessed sr) (sr_file_loc sr).

Fixpoint exec_loop (n : nat) (sr : SolveReport) (res : list (path * Z)) : outcome (list (path * Z)) :=
  match n with
  | O => Ret res
  | S n =>
    let res := res ++ map (fun l => (l, BitMap.of_list [Access.Lnk])) (sr_lnks sr) in
    if (FileLoc_rank SrcDir <? FileLoc_rank (sr_file_loc sr))%nat && bool_decide (sr_file_loc sr <> Tmp) then Ret res
    else
      abs_real ← mk_glb (sr_real sr) (repo_root_s env);
      let a := BitMap.of_list (Access.Reg :: match sr_file_accessed sr with Yes => [Access.Lnk] | _ => [] end) in
      let res := if (FileLoc_rank (sr_file_loc sr) <=? FileLoc_rank SrcDir)%nat then res ++ [(sr_real sr, a)] else res in
      match read_hdr abs_real with
      | None => Ret res
      | Some hdr =>
        if negb (starts_with hdr (str "#!")) then Ret res
        else
          let hdr := (upto (Ascii.eqb newline) hdr).1 in
          let hdr := (upto (fun c => negb (is_blank c)) (drop 2 hdr)).2 in
          let '(interpreter, rest) := upto is_blank hdr in
          if decide (interpreter = []) then exec_loop n (moved sr) res
          else sr ← solve cwd interpreter (upto (Ascii.eqb nul) rest).1 false; exec_loop n sr res
      end
  end.
Definition exec (sr : SolveReport) : outcome (list (path * Z)) := exec_loop 5 sr [].
End real_path.

(** [RealPathEnv::chk] on the names *)
Definition chk (e : RealPathEnv) (for_cache : bool) : outcome unit :=
  let is_dir p := bool_decide (last p = Some slash) in
  _ ← throw_unless (bool_decide (tmp_dir_s e = []) || is_dir (tmp_dir_s e)) "bad tmp_dir";
  _ ← throw_unless (forallb (fun sd => bool_decide (sd <> []) && is_dir sd) (src_dirs_s e)) "bad src dir";
  if for_cache then throw_unless (bool_decide (repo_root_s e = [])) "bad repo_root"
  else throw_unless (bool_decide (repo_root_s e = []) || is_dir (repo_root_s e)) "bad repo_root".

(** The constructor of [RealPath]: [_abs_src_dirs_s] *)
Definition mk_abs_src_dirs (e : RealPathEnv) : outcome (list path) :=
  _ ← swear (is_abs (repo_root_s e));
  _ ← swear (bool_decide (tmp_dir_s e = []) || is_abs (tmp_dir_s e));
  foldr (fun sd l => d ← mk_glb sd (repo_root_s e); l ← l; Ret (d :: l)) (Ret []) (src_dirs_s e).
End RealPath.
