(* ===== verification/RealPathThm.v ===== *)
(** * Theorems on the resolution of symbolic links (RealPath.v)

    The resolution of [solve], on characters and with incremental tracking of the domains, is compared with
    [lookup_name], on components and with the domains looked at each time, through [resolve], which has the flag
    of [solve] on existence. *)
From S2P Require Import Prelude.
From S2P Require Import Enum.
From S2P Require Import Path.
From S2P Require Import RealPath.
From Stdlib Require Import Ascii.

Module RealPathThm.
Import Disk RealPath.

(** ** Domains *)

(** [chk] is the directory [dom_s] or a name below it *)
Definition inside (dom_s chk : path) : bool := bool_decide (removelast dom_s = chk) || bool_decide (dom_s `prefix_of` chk).

(** What a [_Dvg] knows about [chk] *)
Record tracks (dom_s chk : path) (g : Dvg) : Prop := {
  t_ok : ok g = inside dom_s chk;
  t_dom : (dvg g <= pred (length dom_s))%nat;
  t_chk : (dvg g <= length chk)%nat;
  t_agree : forall i, (i < dvg g)%nat -> nth i dom_s nul = nth i chk nul
}.

Lemma first_diff_ok n i a b : match first_diff n i a b with
  | Some k => (i <= k < i + n)%nat /\ nth k a nul <> nth k b nul /\ forall m, (i <= m < k)%nat -> nth m a nul = nth m b nul
  | None => forall m, (i <= m < i + n)%nat -> nth m a nul = nth m b nul
  end.
Proof.
  revert i. induction n as [|n IH]; intros i; cbn [first_diff]; [intros; lia|].
  destruct (Ascii.eqb_spec (nth i a nul) (nth i b nul)) as [E|Hne]; cbn [negb].
  - specialize (IH (S i)). destruct (first_diff n (S i) a b) as [k|].
    + destruct IH as (Hk & Hd & Ha). split_and!; [lia..|done|]. intros m Hm. destruct (decide (m = i)) as [->|]; [done|]. apply Ha. lia.
    + intros m Hm. destruct (decide (m = i)) as [->|]; [done|]. apply IH. lia.
  - split_and!; [lia..|done|]. intros; lia.
Qed.

Lemma prefix_nth (a b : path) : (length a <= length b)%nat -> (forall i, (i < length a)%nat -> nth i a nul = nth i b nul) -> a `prefix_of` b.
Proof.
  revert b. induction a as [|c a IH]; intros b Hl Ha; [apply prefix_nil|]. destruct b as [|c' b]; [simpl in Hl; lia|].
  pose proof (Ha 0%nat ltac:(simpl; lia)) as E. simpl in E. subst c'. apply prefix_cons, IH; [simpl in Hl; lia|].
  intros i Hi. apply (Ha (S i)). simpl. lia.
Qed.

Lemma nth_prefix (a b : path) i : a `prefix_of` b -> (i < length a)%nat -> nth i a nul = nth i b nul.
Proof. intros [x ->] Hi. by rewrite app_nth1. Qed.

(** [inside] seen on characters *)
Lemma inside_chars dom chk : inside (dom ++ [slash]) chk = true <->
  (length dom <= length chk)%nat /\ (forall i, (i < length dom)%nat -> nth i dom nul = nth i chk nul) /\
  (length dom = length chk \/ nth (length dom) chk nul = slash).
Proof.
  unfold inside. rewrite removelast_last, orb_true_iff, !bool_decide_eq_true. split.
  - intros [<-|Hp]; [naive_solver|]. pose proof (prefix_length _ _ Hp) as Hl. rewrite length_app in Hl. simpl in Hl. split_and!; [lia| |].
    + intros i Hi. rewrite <- (nth_prefix _ _ i Hp) by (rewrite length_app; simpl; lia). by rewrite app_nth1.
    + right. rewrite <- (nth_prefix _ _ _ Hp) by (rewrite length_app; simpl; lia). by rewrite app_nth2, Nat.sub_diag by lia.
  - intros (Hl & Ha & Hd). destruct (prefix_nth dom chk Hl Ha) as [x ->]. destruct x as [|c x]; [left; by rewrite app_nil_r|].
    right. destruct Hd as [Hd|Hd]; [rewrite length_app in Hd; simpl in Hd; lia|]. rewrite app_nth2, Nat.sub_diag in Hd by lia. simpl in Hd. subst c.
    exists x. by rewrite <- app_assoc.
Qed.

(** [update] on a name that agrees with what is known *)
Lemma dvg_update_ok dom_s chk g : last dom_s = Some slash -> (dvg g <= pred (length dom_s))%nat ->
  (forall i, (i < dvg g)%nat -> (i < length chk)%nat -> nth i dom_s nul = nth i chk nul) ->
  exists g', update dom_s chk g = Ret g' /\ tracks dom_s chk g'.
Proof.
  intros Hl Hg Ha. apply last_Some in Hl as [dom ->]. unfold update. rewrite bool_decide_eq_false_2 by by destruct dom.
  rewrite last_snoc, bool_decide_eq_true_2 by done. cbn [swear mbind outcome_mbind]. cbv zeta. rewrite length_app, Nat.add_1_r in *. cbn [pred length] in *.
  assert (forall i, (i < length dom)%nat -> nth i (dom ++ [slash]) nul = nth i dom nul) as Hdom by (intros; by apply app_nth1).
  set (stop := if (length dom <=? length chk)%nat then length dom else length chk).
  assert (stop <= length dom /\ stop <= length chk)%nat as [Hs1 Hs2] by (subst stop; destruct (Nat.leb_spec (length dom) (length chk)); lia).
  pose proof (first_diff_ok (stop - dvg g) (dvg g) (dom ++ [slash]) chk) as Hd. destruct (first_diff _ _ _ _) as [k|].
  - destruct Hd as (Hk & Hne & Hm). exists (mk_dvg false k). split; [done|]. split; cbn [ok dvg].
    + symmetry. apply not_true_iff_false. rewrite inside_chars. intros (_ & Hall & _). apply Hne. rewrite Hdom by lia. apply Hall. lia.
    + rewrite length_app. simpl. lia.
    + lia.
    + intros i Hi. destruct (decide (i < dvg g)%nat); [apply Ha; lia|apply Hm; lia].
  - assert (forall i, (i < stop)%nat -> nth i (dom ++ [slash]) nul = nth i chk nul) as Hall.
    { intros i Hi. destruct (decide (i < dvg g)%nat); [apply Ha; lia|apply Hd; lia]. }
    eexists. split; [done|]. split; cbn [ok dvg]; [|rewrite length_app; simpl; lia|lia|done].
    apply eq_true_iff_eq. rewrite inside_chars. subst stop.
    destruct (Nat.ltb_spec (length dom) (length chk)) as [Hlt|Hge].
    + rewrite Ascii.eqb_eq. destruct (Nat.leb_spec (length dom) (length chk)); [|lia]. split; [|naive_solver lia].
      intros E. split_and!; [lia| |by right]. intros i Hi. rewrite <- Hdom by done. auto.
    + destruct (Nat.leb_spec (length dom) (length chk)) as [Hle|Hgt]; [|split; [done|intros; lia]]. split; [|done]. intros _.
      split_and!; [lia| |left; lia]. intros i Hi. rewrite <- Hdom by done. auto.
Qed.

(** From a name to the next one *)
Lemma update_next dom_s old chk g : last dom_s = Some slash -> tracks dom_s old g -> chk `prefix_of` old \/ old `prefix_of` chk ->
  exists g', update dom_s chk g = Ret g' /\ tracks dom_s chk g'.
Proof.
  intros Hl [_ H1 H2 H3] Hp. apply dvg_update_ok; [done..|]. intros i Hi Hc. rewrite H3 by done. destruct Hp as [Hp|Hp].
  - symmetry. by apply nth_prefix.
  - apply nth_prefix; [done|lia].
Qed.

Lemma Dvg_new_ok dom_s chk : last dom_s = Some slash -> exists g, Dvg_new dom_s chk = Ret g /\ tracks dom_s chk g.
Proof. intros Hl. apply dvg_update_ok; [done|simpl; lia|simpl; intros; lia]. Qed.

(** ** The resolution on components *)

(** Absolute names without [.], [..] nor empty component *)
Definition rooted (l : list path) : path := concat (map (cons slash) l).
Definition proper (c : path) : Prop := noslash c /\ c <> [] /\ c <> cur /\ c <> up.

Lemma rooted_snoc l c : rooted (l ++ [c]) = rooted l ++ slash :: c.
Proof. unfold rooted. rewrite map_app, concat_app. simpl. by rewrite app_nil_r. Qed.

Lemma rooted_nil l : Forall proper l -> rooted l = [] <-> l = [].
Proof. destruct l; [done|]. intros _. split; done. Qed.

Lemma parent_snoc l c : noslash c -> parent (rooted (l ++ [c])) = Ret (rooted l).
Proof.
  intros Hc. unfold parent. rewrite rooted_snoc, reverse_app, reverse_cons, <- app_assoc.
  rewrite rfind_slash_app; [|by apply noslash_reverse|right; by eexists]. simpl. by rewrite reverse_involutive.
Qed.

Section resolve.
Context (read_lnk : path -> lnk) (env : RealPathEnv) (abs_src_dirs_s : list path).
Context (root_dir : last (repo_root_s env) = Some slash) (tmp_dir : tmp_dir_s env = [] \/ last (tmp_dir_s env) = Some slash).

(** Are the links of directory [dir] followed ? [child] is the name in [dir] *)
Definition followed (dir child : path) (last : bool) : bool :=
  inside (tmp_s env) dir || inside (str "/proc/") dir || inside (str "/dev/") dir ||
  match lnk_support env with
  | LNone => false
  | LFile => last && (inside (repo_root_s env) dir || bool_decide (is_Some (_find_src_idx abs_src_dirs_s child)))
  | LFull => inside (repo_root_s env) dir || bool_decide (is_Some (_find_src_idx abs_src_dirs_s child))
  | LFullExt => true
  end.

(** [n] links may be followed; [ex] is false once a component does not exist *)
Fixpoint resolve (no_follow : bool) (n : nat) : bool -> list path -> list path -> option (list path) :=
  fix walk (ex : bool) (l todo : list path) : option (list path) :=
  match todo with
  | [] => Some l
  | c :: rest =>
    let last := bool_decide (rest = []) in
    if decide (c = [] \/ c = cur) then walk ex l rest
    else if decide (c = up) then walk ex (removelast l) rest
    else if ex && negb (no_follow && last) && followed (rooted l) (rooted (l ++ [c])) last then
      match read_lnk (rooted (l ++ [c])) with
      | NotLnk | Target [] => walk ex (l ++ [c]) rest
      | Absent => walk false (l ++ [c]) rest
      | Target t =>
        match n with
        | O => None
        | S n => resolve no_follow n ex (if is_abs t then [] else l) (components t ++ rest)
        end
      end
    else walk ex (l ++ [c]) rest
  end.

(** The state of [solve] is [ex] and [l] *)
Record sim (st : state) (ex : bool) (l : list path) : Prop := {
  s_real : real st = rooted l;
  s_exists : exists_ st = ex;
  s_proper : Forall proper l;
  s_repo : tracks (repo_root_s env) (real st) (in_repo st);
  s_tmp : tracks (tmp_s env) (real st) (in_tmp st);
  s_proc : tracks (str "/proc/") (real st) (in_proc st);
  s_dev : tracks (str "/dev/") (real st) (in_dev st)
}.

Lemma tmp_s_dir : last (tmp_s env) = Some slash.
Proof. unfold tmp_s. case_bool_decide as E; [|done]. by destruct tmp_dir. Qed.

(** The updates after a component: the flags are those of the previous name *)
Lemma update_all_ok st ex l ex' l' ls : sim st ex l -> Forall proper l' ->
  rooted l' `prefix_of` rooted l \/ rooted l `prefix_of` rooted l' ->
  exists st', update_all env (set_lnks ls (set_exists ex' (set_real (rooted l') st))) = Ret st' /\ sim st' ex' l'.
Proof.
  intros [E _ _ H1 H2 H3 H4] Hl' Hp. unfold update_all. cbn [set_lnks set_exists set_real real in_repo in_tmp in_proc in_dev exists_ lnks]. rewrite E in *.
  destruct (update_next _ _ (rooted l') _ root_dir H1 Hp) as (g1 & -> & T1). destruct (update_next _ _ (rooted l') _ tmp_s_dir H2 Hp) as (g2 & E2 & T2).
  destruct (update_next (str "/proc/") _ (rooted l') _ eq_refl H3 Hp) as (g3 & E3 & T3). destruct (update_next (str "/dev/") _ (rooted l') _ eq_refl H4 Hp) as (g4 & E4 & T4).
  cbn [mbind outcome_mbind]. rewrite E2. cbn [mbind outcome_mbind]. rewrite E3. cbn [mbind outcome_mbind]. rewrite E4. cbn [mbind outcome_mbind].
  eexists. split; [done|]. by split.
Qed.

Lemma sim_eta st ex l : sim st ex l -> st = set_lnks (lnks st) (set_exists ex (set_real (rooted l) st)).
Proof. intros [E1 E2 _ _ _ _ _]. destruct st. simpl in *. by subst. Qed.

(** Below the repository, a name is longer than the repository root *)
Lemma inside_longer dom_s dir c : last dom_s = Some slash -> inside dom_s dir = true -> (length dom_s <= length (dir ++ slash :: c))%nat.
Proof.
  intros Hl Hi. apply last_Some in Hl as [dom ->]. apply inside_chars in Hi as (Hd & _). rewrite !length_app. simpl. lia.
Qed.

(** [solve] reads the links it must follow *)
Lemma must_read_ok nf c last st ex l : sim st ex l ->
  is_Some (must_read env abs_src_dirs_s nf last (set_real (rooted (l ++ [c])) st)) <->
  ex && negb (nf && last) && followed (rooted l) (rooted (l ++ [c])) last = true.
Proof.
  intros [E <- _ [H1 _ _ _] [H2 _ _ _] [H3 _ _ _] [H4 _ _ _]]. rewrite E in *. unfold must_read. cbn [set_real exists_ in_tmp in_proc in_dev in_repo real].
  unfold followed. rewrite H1, H2, H3, H4. destruct (exists_ st); cbn [negb andb]; [|split; [by intros []|done]].
  destruct (nf && last); cbn [negb andb]; [split; [by intros []|done]|].
  destruct (inside (tmp_s env) (rooted l) || inside (str "/proc/") (rooted l) || inside (str "/dev/") (rooted l)); cbn [orb]; [split; [done|eauto]|].
  destruct (inside (repo_root_s env) (rooted l)) eqn:Ei.
  - pose proof (inside_longer _ _ c root_dir Ei) as Hlen. rewrite <- rooted_snoc in Hlen. unfold repo_root_sz.
    destruct (Nat.ltb_spec (length (rooted (l ++ [c]))) (length (repo_root_s env))); [lia|].
    destruct (lnk_support env), last; simpl; split; intros; (done || eauto || by destruct H).
  - destruct (_find_src_idx abs_src_dirs_s (rooted (l ++ [c]))) as [i|].
    + rewrite bool_decide_eq_true_2 by eauto. destruct (lnk_support env), last; simpl; split; intros; (done || eauto || by destruct H).
    + rewrite bool_decide_eq_false_2 by by intros []. destruct (lnk_support env), last; simpl; split; intros; (done || eauto || by destruct H).
Qed.

Lemma resolve_nil nf n ex l : resolve nf n ex l [] = Some l.
Proof. by destruct n. Qed.

Lemma resolve_cons nf n ex l c rest : resolve nf n ex l (c :: rest) =
  let last := bool_decide (rest = []) in
  if decide (c = [] \/ c = cur) then resolve nf n ex l rest
  else if decide (c = up) then resolve nf n ex (removelast l) rest
  else if ex && negb (nf && last) && followed (rooted l) (rooted (l ++ [c])) last then
    match read_lnk (rooted (l ++ [c])) with
    | NotLnk | Target [] => resolve nf n ex (l ++ [c]) rest
    | Absent => resolve nf n false (l ++ [c]) rest
    | Target t =>
      match n with
      | O => None
      | S n => resolve nf n ex (if is_abs t then [] else l) (components t ++ rest)
      end
    end
  else resolve nf n ex (l ++ [c]) rest.
Proof. by destruct n. Qed.

Lemma note_lnk_lnks src st : exists ls, note_lnk env abs_src_dirs_s src st = set_lnks ls st.
Proof. unfold note_lnk. repeat case_match; eauto. exists (lnks st). by destruct st. Qed.

(** One component, and the updates of the [for] *)
Definition stepped (nf : bool) (c : path) (last ex : bool) (l : list path) (d : digest) : Prop :=
  match d with
  | Continue st1 => exists st2 ex' l', update_all env st1 = Ret st2 /\ sim st2 ex' l' /\
      forall n rest, bool_decide (rest = []) = last -> resolve nf n ex l (c :: rest) = resolve nf n ex' l' rest
  | Follow st1 t => t <> [] /\ exists st2 l', update_all env st1 = Ret st2 /\ sim st2 ex l' /\
      forall n rest, bool_decide (rest = []) = last ->
        resolve nf n ex l (c :: rest) = match n with O => None | S n => resolve nf n ex l' (components t ++ rest) end
  end.

Lemma proper_ups l : Forall proper l -> Forall proper (removelast l).
Proof. destruct l as [|c l] using rev_ind; [done|]. rewrite removelast_last. by intros [? _]%Forall_app. Qed.

Lemma step_skip nf c last st ex l : sim st ex l -> c = [] \/ c = cur ->
  exists d, component read_lnk env abs_src_dirs_s nf c last st = Ret d /\ stepped nf c last ex l d.
Proof.
  intros Hs Hc. exists (Continue st). split; [unfold component; repeat case_decide; naive_solver|].
  destruct (update_all_ok st ex l ex l (lnks st) Hs (s_proper _ _ _ Hs)) as (st2 & E2 & Hs2); [by left|]. rewrite <- (sim_eta _ _ _ Hs) in E2.
  exists st2, ex, l. split_and!; [done..|]. intros n rest _. rewrite resolve_cons. cbv zeta. by rewrite decide_True.
Qed.

Lemma step_up nf last st ex l : sim st ex l ->
  exists d, component read_lnk env abs_src_dirs_s nf up last st = Ret d /\ stepped nf up last ex l d.
Proof.
  intros Hs. pose proof (s_real _ _ _ Hs) as E. pose proof (s_proper _ _ _ Hs) as Hp. unfold component.
  rewrite !(decide_False (P := up = _)), decide_True by done. assert (forall n rest, resolve nf n ex l (up :: rest) = resolve nf n ex (removelast l) rest) as Hr.
  { intros n rest. rewrite resolve_cons. cbv zeta. rewrite decide_False, decide_True by (done || by intros [?|?]). done. }
  destruct l as [|c l _] using rev_ind.
  - rewrite decide_True by done. exists (Continue st). split; [done|].
    destruct (update_all_ok st ex [] ex [] (lnks st) Hs Hp) as (st2 & E2 & Hs2); [by left|]. rewrite <- (sim_eta _ _ _ Hs) in E2. exists st2, ex, []. auto.
  - apply Forall_app in Hp as [Hl [[Hc _] _]%Forall_cons]. rewrite decide_False by (rewrite E, rooted_snoc; by destruct (rooted l)).
    rewrite E, parent_snoc by done. exists (Continue (set_real (rooted l) st)). split; [done|].
    destruct (update_all_ok st ex (l ++ [c]) ex l (lnks st) Hs Hl) as (st2 & E2 & Hs2); [left; rewrite rooted_snoc; by apply prefix_app_r|].
    exists st2, ex, l. split_and!; [|done|intros n rest _; by rewrite Hr, removelast_last]. rewrite <- E2. f_equal.
    rewrite (sim_eta _ _ _ Hs) at 1. done.
Qed.

Lemma step_proper nf c last st ex l : sim st ex l -> proper c ->
  exists d, component read_lnk env abs_src_dirs_s nf c last st = Ret d /\ stepped nf c last ex l d.
Proof.
  intros Hs (Hn & Hne & Hc & Hu). assert (Forall proper (l ++ [c])) as Hp by (apply Forall_app; split; [apply Hs|by repeat constructor]).
  assert (rooted l `prefix_of` rooted (l ++ [c])) as Hpre by (rewrite rooted_snoc; by apply prefix_app_r).
  pose proof (must_read_ok nf c last st ex l Hs) as Hm. unfold component. rewrite !decide_False by done. cbv zeta.
  rewrite (s_real _ _ _ Hs), <- rooted_snoc.
  assert (forall ex', exists st2, update_all env (set_exists ex' (set_real (rooted (l ++ [c])) st)) = Ret st2 /\ sim st2 ex' (l ++ [c])) as Hup.
  { intros ex'. destruct (update_all_ok st ex l ex' (l ++ [c]) (lnks st) Hs Hp) as (st2 & E2 & Hs2); [by right|]. exists st2. split; [|done]. rewrite <- E2. by destruct st. }
  assert (set_exists ex (set_real (rooted (l ++ [c])) st) = set_real (rooted (l ++ [c])) st) as Eex by (destruct Hs as [_ <- _ _ _ _ _]; by destruct st).
  pose proof (Hup ex) as (st2 & E2 & Hs2). rewrite Eex in E2.
  assert (forall n rest, bool_decide (rest = []) = last -> resolve nf n ex l (c :: rest) =
    if ex && negb (nf && last) && followed (rooted l) (rooted (l ++ [c])) last then
      match read_lnk (rooted (l ++ [c])) with
      | NotLnk | Target [] => resolve nf n ex (l ++ [c]) rest
      | Absent => resolve nf n false (l ++ [c]) rest
      | Target t => match n with O => None | S n => resolve nf n ex (if is_abs t then [] else l) (components t ++ rest) end
      end
    else resolve nf n ex (l ++ [c]) rest) as Hr.
  { intros n rest <-. rewrite resolve_cons. cbv zeta. rewrite !decide_False by (done || by intros [?|?]). done. }
  destruct (must_read env abs_src_dirs_s nf last _) as [src|].
  - rewrite (proj1 Hm (mk_is_Some _ _ eq_refl)) in Hr. cbn [real set_real]. destruct (read_lnk (rooted (l ++ [c]))) as [[|x t]| |].
    + eexists. split; [done|]. exists st2, ex, (l ++ [c]). auto.
    + eexists. split; [done|]. split; [done|]. destruct (note_lnk_lnks src (set_real (rooted (l ++ [c])) st)) as [ls ->].
      set (l' := if is_abs (x :: t) then [] else l) in *.
      destruct (update_all_ok st ex l ex l' ls Hs) as (st3 & E3 & Hs3); [subst l'; case_match; [done|apply Hs]|left; subst l'; case_match; [apply prefix_nil|done]|].
      exists st3, l'. split_and!; [|done..]. rewrite <- E3. f_equal. subst l'. destruct Hs as [Er <- _ _ _ _ _]. unfold set_lnks, set_exists, set_real. simpl. by case_match; rewrite ?Er.
    + eexists. split; [done|]. exists st2, ex, (l ++ [c]). auto.
    + destruct (Hup false) as (st3 & E3 & Hs3). eexists. split; [done|]. exists st3, false, (l ++ [c]). auto.
  - eexists. split; [done|]. exists st2, ex, (l ++ [c]). split_and!; [done..|]. intros n rest Hl. rewrite (Hr n rest Hl).
    destruct (ex && negb (nf && last) && followed _ _ _); [|done]. by destruct (proj2 Hm eq_refl).
Qed.

(** The unprocessed part of the name comes after the target of a link *)
Lemma split_slash_app a b : split (a ++ slash :: b) = split a ++ split b.
Proof.
  induction a as [|c a IH]; [done|]. rewrite <- app_comm_cons. destruct (decide (c = slash)) as [->|Hc].
  - by rewrite !split_slash, IH.
  - rewrite !split_char, IH by done. destruct (split_join a) as (ds & q & -> & _). by destruct ds.
Qed.

Lemma split_of_join rest : rest <> [] -> Forall noslash rest -> split (join rest) = rest.
Proof.
  intros Hne Hf. induction Hf as [|c rest Hc Hr IH]; [done|]. destruct rest as [|c' rest]; [by apply split_noslash|].
  cbn [join]. rewrite split_app by done. f_equal. by apply IH.
Qed.

Lemma components_next t rest : t <> [] -> Forall noslash rest -> components (next_file t rest []) = components t ++ rest.
Proof.
  intros Ht Hr. unfold next_file, components. destruct rest as [|c rest]; [by rewrite !app_nil_r|]. rewrite app_nil_r.
  destruct t as [|x t]; [done|]. rewrite <- app_comm_cons. unfold is_abs. cbn [nth drop].
  destruct (Ascii.eqb x slash); rewrite ?drop_0, ?app_comm_cons, split_slash_app; by rewrite (split_of_join (c :: rest)).
Qed.

Lemma components_noslash t : Forall noslash (components t).
Proof. apply Forall_forall. intros c. apply split_parts. Qed.

Lemma step_ok nf c last st ex l : sim st ex l -> noslash c ->
  exists d, component read_lnk env abs_src_dirs_s nf c last st = Ret d /\ stepped nf c last ex l d.
Proof.
  intros Hs Hn. destruct (decide (c = [] \/ c = cur)) as [Hc|Hc]; [by apply step_skip|].
  destruct (decide (c = up)) as [->|Hu]; [by apply step_up|]. apply step_proper; [done|]. split_and!; tauto.
Qed.

Lemma follow_cons nf n tail c rest st : follow read_lnk env abs_src_dirs_s nf n tail (c :: rest) st =
  (d ← component read_lnk env abs_src_dirs_s nf c (bool_decide (rest = [])) st;
   match d with
   | Continue st => st ← update_all env st; follow read_lnk env abs_src_dirs_s nf n tail rest st
   | Follow st nxt =>
     match n with
     | O => Ret (inl (lnks st))
     | S n => st ← update_all env st; follow read_lnk env abs_src_dirs_s nf n [] (components (next_file nxt rest tail)) st
     end
   end).
Proof. by destruct n. Qed.

(** The loop of [solve] computes [resolve] *)
Definition resolved (o : option (list path)) (res : list path + state) : Prop :=
  match o, res with
  | None, inl _ => True
  | Some l, inr st => exists ex, sim st ex l
  | _, _ => False
  end.

Lemma follow_ok nf n : forall comps st ex l, sim st ex l -> Forall noslash comps ->
  exists res, follow read_lnk env abs_src_dirs_s nf n [] comps st = Ret res /\ resolved (resolve nf n ex l comps) res.
Proof.
  induction n as [|n IHn]; intros comps; induction comps as [|c rest IH]; intros st ex l Hs Hc;
    try (eexists; split; [done|]; rewrite resolve_nil; exists ex; exact Hs).
  all: apply Forall_cons in Hc as [Hc Hrest]; destruct (step_ok nf c (bool_decide (rest = [])) st ex l Hs Hc) as ([st1|st1 t] & E & Hd);
    rewrite follow_cons, E; cbn [mbind outcome_mbind].
  1,3: destruct Hd as (st2 & ex' & l' & E2 & Hs2 & Hr); rewrite (Hr _ rest eq_refl), E2; by apply IH.
  - destruct Hd as (_ & st2 & l' & _ & _ & Hr). rewrite (Hr _ rest eq_refl). eexists. split; done.
  - destruct Hd as (Ht & st2 & l' & E2 & Hs2 & Hr). rewrite (Hr _ rest eq_refl), E2. cbn [mbind outcome_mbind].
    rewrite components_next by done. apply IHn; [done|]. apply Forall_app. split; [apply components_noslash|done].
Qed.

(** ** The result *)

(** The domain of a name, and the name the job is given *)
Definition locate (full : path) : path * FileLoc :=
  if inside (tmp_s env) full then (full, Tmp)
  else if inside (str "/proc/") full || inside (str "/dev/") full then (full, Proc)
  else if inside (repo_root_s env) full then
    if decide (full = removelast (repo_root_s env)) then (full, RepoRoot)
    else let r := drop (length (repo_root_s env)) full in (r, _lcl_file_loc r)
  else
    match _find_src_idx abs_src_dirs_s full with
    | Some i => (nth i (src_dirs_s env) [] ++ drop (length (nth i abs_src_dirs_s [])) full, SrcDir)
    | None => (full, Ext)
    end.

Lemma inside_root dom_s full : last dom_s = Some slash -> inside dom_s full = true ->
  (length full < length dom_s)%nat <-> full = removelast dom_s.
Proof.
  intros Hl Hi. apply last_Some in Hl as [dom ->]. rewrite removelast_last, length_app, Nat.add_1_r. split; [|intros ->; lia].
  unfold inside in Hi. rewrite removelast_last, orb_true_iff, !bool_decide_eq_true in Hi. intros Hlt. destruct Hi as [->|Hi]; [done|].
  apply prefix_length in Hi. rewrite length_app in Hi. simpl in Hi. lia.
Qed.

Lemma report_ok nf st ex l : sim st ex l -> let r := report env abs_src_dirs_s nf st in (sr_real r, sr_file_loc r) = locate (rooted l).
Proof.
  intros [E _ _ [H1 _ _ _] [H2 _ _ _] [H3 _ _ _] [H4 _ _ _]]. rewrite E in *. cbv zeta. unfold report, locate. rewrite H1, H2, H3, H4, E.
  destruct (inside (tmp_s env) _); [done|]. destruct (inside (str "/proc/") _); [done|]. destruct (inside (str "/dev/") _); [done|]. cbn [orb].
  destruct (inside (repo_root_s env) (rooted l)) eqn:Ei; [|by destruct (_find_src_idx _ _)].
  pose proof (inside_root _ _ root_dir Ei) as Hr. unfold repo_root_sz. destruct (Nat.ltb_spec (length (rooted l)) (length (repo_root_s env))).
  - rewrite decide_True by tauto. done.
  - rewrite (decide_False (P := rooted l = _)); [done|]. intros Hx. apply Hr in Hx. lia.
Qed.

(** *** The result is free of links *)

Definition is_link (r : lnk) : bool := match r with Target (_ :: _) => true | _ => false end.
(** No component of a followed directory is a link, possibly except the last one *)
Definition link_free (nf : bool) (l : list path) : Prop :=
  forall a c b, l = a ++ c :: b -> nf = false \/ b <> [] -> followed (rooted a) (rooted (a ++ [c])) false = true ->
  is_link (read_lnk (rooted (a ++ [c]))) = false.

Lemma followed_last dir child : followed dir child false = true -> followed dir child true = true.
Proof. unfold followed. rewrite !orb_true_iff. intros [H|H]; [by left|]. right. by destruct (lnk_support env). Qed.

Lemma snoc_inv {A} (l a b : list A) c c' : l ++ [c] = a ++ c' :: b -> (b = [] /\ c' = c /\ a = l) \/ exists b', b = b' ++ [c] /\ l = a ++ c' :: b'.
Proof.
  destruct b as [|x b _] using rev_ind; intros E; [apply app_inj_tail in E as [-> ->]; auto|]. right. exists b.
  rewrite app_comm_cons, app_assoc in E. by apply app_inj_tail in E as [-> ->].
Qed.

Lemma link_free_snoc l c : link_free false l -> (followed (rooted l) (rooted (l ++ [c])) false = true -> is_link (read_lnk (rooted (l ++ [c]))) = false) ->
  link_free false (l ++ [c]).
Proof. intros Hl Hc a c' b E _ Hf. apply snoc_inv in E as [(-> & -> & ->)|(b' & -> & ->)]; [auto|]. apply (Hl a c' b'); auto. Qed.

Lemma link_free_up l : link_free false l -> link_free false (removelast l).
Proof.
  destruct l as [|c l _] using rev_ind; [done|]. rewrite removelast_last. intros Hl a c' b -> _ Hf. apply (Hl a c' (b ++ [c])); [by rewrite <- app_assoc|by left|done].
Qed.

Lemma link_free_last l c : link_free false l -> link_free true (l ++ [c]).
Proof. intros Hl a c' b E [?|Hb] Hf; [done|]. apply snoc_inv in E as [(-> & _)|(b' & -> & ->)]; [done|]. apply (Hl a c' b'); auto. Qed.

(** *** The resolution without flag *)

(** The resolved name, or the first component that does not exist, with what precedes it and what is left *)
Inductive resolution : Type := Found (l : list path) | Missing (l : list path) (c : path) (rest : list path).

(** As a file system does: [l] is the directory reached, without links *)
Fixpoint lookup_name (no_follow : bool) (n : nat) : list path -> list path -> option resolution :=
  fix walk (l todo : list path) : option resolution :=
  match todo with
  | [] => Some (Found l)
  | c :: rest =>
    let last := bool_decide (rest = []) in
    if decide (c = [] \/ c = cur) then walk l rest
    else if decide (c = up) then walk (removelast l) rest
    else if negb (no_follow && last) && followed (rooted l) (rooted (l ++ [c])) last then
      match read_lnk (rooted (l ++ [c])) with
      | NotLnk | Target [] => walk (l ++ [c]) rest
      | Absent => Some (Missing l c rest)
      | Target t =>
        match n with
        | O => None
        | S n => lookup_name no_follow n (if is_abs t then [] else l) (components t ++ rest)
        end
      end
    else walk (l ++ [c]) rest
  end.
(** What follows a missing component is only cleaned up *)
Definition lexical (l todo : list path) : list path := reverse (foldl (push true) (reverse l) todo).
Definition final (r : resolution) : list path := match r with Found l => l | Missing l c rest => lexical (l ++ [c]) rest end.

Lemma lookup_nil nf n l : lookup_name nf n l [] = Some (Found l).
Proof. by destruct n. Qed.
Lemma lookup_cons nf n l c rest : lookup_name nf n l (c :: rest) =
  let last := bool_decide (rest = []) in
  if decide (c = [] \/ c = cur) then lookup_name nf n l rest
  else if decide (c = up) then lookup_name nf n (removelast l) rest
  else if negb (nf && last) && followed (rooted l) (rooted (l ++ [c])) last then
    match read_lnk (rooted (l ++ [c])) with
    | NotLnk | Target [] => lookup_name nf n (l ++ [c]) rest
    | Absent => Some (Missing l c rest)
    | Target t =>
      match n with
      | O => None
      | S n => lookup_name nf n (if is_abs t then [] else l) (components t ++ rest)
      end
    end
  else lookup_name nf n (l ++ [c]) rest.
Proof. by destruct n. Qed.

(** Without links, or once a component is missing, the resolution is the one of [mk_canon] *)
Lemma resolve_lexical nf n : forall todo ex l, (ex = true -> forall q, is_link (read_lnk q) = false) -> Forall proper l ->
  Forall noslash todo -> resolve nf n ex l todo = Some (lexical l todo).
Proof.
  unfold lexical. induction todo as [|c rest IH]; intros ex l Hno Hp Hn; [by rewrite resolve_nil; simpl; rewrite reverse_involutive|].
  apply Forall_cons in Hn as [Hc Hn]. rewrite resolve_cons. cbv zeta. cbn [foldl]. unfold push at 2. case_decide as H1; [by apply IH|]. case_decide as H2.
  - rewrite IH by (done || by apply proper_ups). do 2 f_equal. destruct l as [|d l _] using rev_ind; [done|]. rewrite removelast_last, reverse_snoc.
    apply Forall_app in Hp as [_ Hd]. rewrite Forall_singleton in Hd. rewrite decide_False by apply Hd. done.
  - assert (Forall proper (l ++ [c])) by (apply Forall_app; split; [done|]; apply Forall_singleton; split_and!; tauto).
    rewrite <- (reverse_snoc l c). destruct ex; cbn [andb]; [|by apply IH]. specialize (Hno eq_refl) as Hc'. specialize (Hc' (rooted (l ++ [c]))).
    destruct (_ && followed _ _ _); [|by apply IH]. destruct (read_lnk (rooted (l ++ [c]))) as [[|]| |]; try done; by apply IH.
Qed.

Lemma resolve_lookup nf n : forall todo l, Forall proper l -> Forall noslash todo -> resolve nf n true l todo = final <$> lookup_name nf n l todo.
Proof.
  induction n as [|n IHn]; intros todo; induction todo as [|c rest IH]; intros l Hp Hn; try (by rewrite resolve_nil, lookup_nil).
  all: apply Forall_cons in Hn as [Hc Hn]; rewrite resolve_cons, lookup_cons; cbv zeta; cbn [andb]; case_decide; [by apply IH|];
    case_decide; [apply IH; [by apply proper_ups|done]|].
  all: assert (Forall proper (l ++ [c])) by (apply Forall_app; split; [done|]; apply Forall_singleton; split_and!; tauto).
  all: destruct (_ && followed _ _ _); [|by apply IH]; destruct (read_lnk (rooted (l ++ [c]))) as [[|x t]| |]; try (by apply IH).
  all: try done; try (by apply resolve_lexical).
  apply IHn; [by case_match|]. apply Forall_app. split; [apply components_noslash|done].
Qed.

(** A file that is found has a name without links; otherwise, the name has no link up to its missing component *)
Definition no_link (nf : bool) (r : resolution) : Prop :=
  match r with Found l => link_free nf l | Missing l c _ => link_free false l /\ read_lnk (rooted (l ++ [c])) = Absent end.

Lemma lookup_link_free nf n : forall todo l r, lookup_name nf n l todo = Some r -> link_free false l -> no_link nf r.
Proof.
  induction n as [|n IHn]; intros todo; induction todo as [|c rest IH]; intros l r E Hl.
  1,3: rewrite lookup_nil in E; injection E as <-; intros a c b El _; apply (Hl a c b); auto.
  all: rewrite lookup_cons in E; cbv zeta in E; case_decide; [by eapply IH|]; case_decide; [eapply IH; [exact E|by apply link_free_up]|].
  all: destruct (negb (nf && bool_decide (rest = [])) && followed _ _ _) eqn:Ec;
    [destruct (read_lnk (rooted (l ++ [c]))) as [[|x t]| |] eqn:Er|].
  all: try (eapply IH; [exact E|]; apply link_free_snoc; [done|]; intros _; by rewrite Er).
  all: try (injection E as <-; by split).
  all: try discriminate E.
  2: { eapply IHn; [exact E|]. destruct (is_abs (x :: t)); [by intros [|]|done]. }
  all: apply andb_false_iff in Ec as [Ec|Ec].
  1,3: apply negb_false_iff, andb_true_iff in Ec as [-> Ec]; apply bool_decide_eq_true in Ec as ->;
    rewrite lookup_nil in E; injection E as <-; by apply link_free_last.
  all: eapply IH; [exact E|]; apply link_free_snoc; [done|]; intros Hf;
    destruct (bool_decide (rest = [])); [apply followed_last in Hf|]; congruence.
Qed.

(** C10 [solve] resolves a name, which ends its buffer, as [lookup_name] does on components. Relative to a directory
    whose absolute name is canonical, and whatever the links and the name, it returns. Unless there are more than
    [NMaxLnks] links, in which case no name is returned, the name it returns is the one of the resolved file in
    its domain and this file has a canonical absolute name. When all components exist, no component of this name in a directory
    whose links are followed is a link, the last one excepted when it is not followed; otherwise this holds up to
    the first missing component, and what follows it is cleaned up as a text. *)
Theorem solve_resolves at_ l0 file nf : at_ <> [] -> (at_ = [slash] /\ l0 = []) \/ (at_ = rooted l0 /\ Forall proper l0) ->
  exists sr, solve read_lnk env abs_src_dirs_s at_ file [] nf = Ret sr /\
    match lookup_name nf NMaxLnks (if is_abs file then [] else l0) (components file) with
    | None => sr_real sr = [] /\ sr_file_loc sr = Ext
    | Some r => (sr_real sr, sr_file_loc sr) = locate (rooted (final r)) /\ Forall proper (final r) /\
      (is_abs file = true \/ link_free false l0 -> no_link nf r)
    end.
Proof.
  intros Hat Hl0. set (l := if is_abs file then [] else l0). assert (Forall proper l) as Hp by (subst l; destruct (is_abs file), Hl0 as [[_ ->]|[_ ?]]; done).
  assert ((if is_abs file then [] else if (length at_ =? 1)%nat then [] else at_) = rooted l) as Er.
  { subst l. destruct (is_abs file); [done|]. destruct Hl0 as [[-> ->]|[-> Hp0]]; [done|]. destruct l0 as [|c l1]; [done|].
    apply Forall_cons in Hp0 as [(_ & Hc & _) _]. unfold rooted. simpl. rewrite length_app. by destruct c. }
  unfold solve. rewrite bool_decide_eq_false_2, andb_false_r by done. cbv zeta. rewrite Er.
  destruct (Dvg_new_ok _ (rooted l) root_dir) as (g1 & -> & T1). destruct (Dvg_new_ok _ (rooted l) tmp_s_dir) as (g2 & E2 & T2).
  destruct (Dvg_new_ok (str "/proc/") (rooted l) eq_refl) as (g3 & E3 & T3). destruct (Dvg_new_ok (str "/dev/") (rooted l) eq_refl) as (g4 & E4 & T4).
  cbn [mbind outcome_mbind]. rewrite E2. cbn [mbind outcome_mbind]. rewrite E3. cbn [mbind outcome_mbind]. rewrite E4. cbn [mbind outcome_mbind].
  destruct (follow_ok nf NMaxLnks (components file) (mk_st (rooted l) g1 g2 g3 g4 true []) true l) as (res & E & Hr); [by split|apply components_noslash|].
  rewrite E. cbn [mbind outcome_mbind]. unfold resolved in Hr. rewrite resolve_lookup in Hr by (done || apply components_noslash).
  destruct (lookup_name nf NMaxLnks l (components file)) as [m|] eqn:Em, res as [ls|st]; try done.
  - destruct Hr as [ex Hs]. eexists. split; [done|]. split_and!; [by apply (report_ok nf st ex)|apply Hs|].
    intros Hfree. apply (lookup_link_free nf _ _ _ _ Em). subst l. destruct (is_abs file); [by intros [|]|]. by destruct Hfree.
  - by eexists.
Qed.

(** [RealPathEnv::file_loc] and [solve] agree on files inside the domains; source directories apart *)
Lemma starts_inside dom_s full : last dom_s = Some slash -> full <> removelast dom_s -> starts_with full dom_s = inside dom_s full.
Proof. intros Hl Hne. unfold inside, starts_with. by rewrite (bool_decide_eq_false_2 (removelast _ = _)) by congruence. Qed.

Lemma file_loc_sync full : is_abs full = true -> nonul full -> full <> removelast (tmp_s env) -> full <> str "/proc" -> inside (str "/dev/") full = false ->
  match (locate full).2 with SrcDir | Ext | Unknown => True | loc => env_file_loc env full = Ret loc end.
Proof.
  intros Ha Hz Ht Hp Hd. unfold env_file_loc, mk_glb. rewrite Ha. cbn [mbind outcome_mbind]. change (if bool_decide (tmp_dir_s env <> []) then tmp_dir_s env else default_tmp_s) with (tmp_s env).
  rewrite (starts_inside _ _ tmp_s_dir Ht), (starts_inside (str "/proc/") full eq_refl Hp). unfold locate. rewrite Hd.
  destruct (inside (tmp_s env) full); [done|]. destruct (inside (str "/proc/") full); [done|]. cbn [orb].
  destruct (inside (repo_root_s env) full) eqn:Ei; [|by destruct (_find_src_idx _ _)].
  pose proof root_dir as Hl. apply last_Some in Hl as [dom E]. rewrite E in *. rewrite removelast_last, length_app, Nat.add_1_r. cbn [pred length].
  pose proof Ei as Ei2. apply inside_chars in Ei2 as (Hlen & Hch & Hor). unfold starts_with. rewrite bool_decide_eq_true_2 by by apply prefix_nth. case_decide as Hr.
  - subst full. cbn [snd]. rewrite (nth_overflow dom) by lia. done.
  - cbn [snd]. assert (nth (length dom) full nul = slash) as Hs.
    { destruct Hor as [Hor|]; [|done]. exfalso. apply Hr. destruct (prefix_nth dom full Hlen Hch) as [x ->]. rewrite length_app in Hor.
      destruct x; [by rewrite app_nil_r|simpl in Hor; lia]. }
    rewrite Hs. cbn. by destruct (_lcl_file_loc _).
Qed.
End resolve.

(** ** Samples *)

Definition sample_env : RealPathEnv := mk_env LFull (str "/repo/") [] [str "../ext/"].
(** [lnk] leads to directory [bin] *)
Definition sample_lnk (p : path) : lnk := if decide (p = str "/repo/lnk") then Target (str "bin") else NotLnk.
Definition sample_abs : list path := [str "/ext/"].

Lemma sample_abs_ok : mk_abs_src_dirs sample_env = Ret sample_abs.
Proof. vm_compute. reflexivity. Qed.

Lemma sample_at : link_free sample_lnk sample_env sample_abs false [str "repo"].
Proof.
  intros a c b E _ Hf. exfalso. destruct a as [|x [|]]; simplify_eq/=; vm_compute in Hf; done.
Qed.

Lemma solve_resolves_witness : exists sr, solve sample_lnk sample_env sample_abs (str "/repo") (str "./lnk//sh") [] false = Ret sr /\
  (sr_real sr, sr_file_loc sr) = (str "bin/sh", Repo) /\ link_free sample_lnk sample_env sample_abs false [str "repo"; str "bin"; str "sh"].
Proof.
  destruct (solve_resolves sample_lnk sample_env sample_abs eq_refl (or_introl eq_refl) (str "/repo") [str "repo"] (str "./lnk//sh") false) as (sr & E & H).
  - discriminate.
  - right. split; [reflexivity|]. constructor; [|constructor]. split_and!; try discriminate. unfold noslash. apply (bool_decide_eq_true_1 _). vm_compute. reflexivity.
  - exists sr. split; [exact E|].
    assert (lookup_name sample_lnk sample_env sample_abs false NMaxLnks [str "repo"] (components (str "./lnk//sh")) = Some (Found [str "repo"; str "bin"; str "sh"])) as Er
      by (vm_compute; reflexivity).
    change (is_abs (str "./lnk//sh")) with false in H. cbv iota in H. rewrite Er in H. destruct H as (-> & _ & Hn). split; [vm_compute; reflexivity|].
    apply Hn. right. apply sample_at.
Defined.

(** The name of an interpreter is a part of the first line of a script: when it goes through a link to a directory,
    the arguments of the interpreter are taken as a part of its name. *)
Lemma interpreter_with_arguments :
  solve sample_lnk sample_env sample_abs (str "/repo") (str "/repo/lnk/sh") (str " -e") false =
    Ret (mk_sr (str "bin/sh -e") [str "lnk"] Yes Repo) /\
  exec sample_lnk sample_env sample_abs (fun p => if decide (p = str "/repo/x") then Some (str "#!/repo/lnk/sh -e") else None) (str "/repo")
    (mk_sr (str "x") [] No Repo) = Ret [(str "x", 2%Z); (str "lnk", 1%Z); (str "bin/sh -e", 3%Z)].
Proof. split; vm_compute; reflexivity. Qed.

(** A script without interpreter gives accesses to the empty name. *)
Lemma no_interpreter :
  exec sample_lnk sample_env sample_abs (fun p => if decide (p = str "/repo/x") then Some (str "#!") else None) (str "/repo")
    (mk_sr (str "x") [str "l"] No Repo) = Ret [(str "l", 1%Z); (str "x", 2%Z); ([], 1%Z); ([], 2%Z)].
Proof. vm_compute. reflexivity. Qed.

(** A name relative to a pipe: there is no slash to go up to. *)
Lemma strange_at : solve sample_lnk sample_env sample_abs (str "pipe:[7]") (str "../x") [] false = Crash.
Proof. vm_compute. reflexivity. Qed.

(** [file_loc] and [solve] differ on the root of a domain and in [/dev]. *)
Lemma file_loc_differs : env_file_loc sample_env (str "/tmp") = Ret Ext /\ (locate sample_env sample_abs (str "/tmp")).2 = Tmp /\
  env_file_loc sample_env (str "/dev/null") = Ret Ext /\ (locate sample_env sample_abs (str "/dev/null")).2 = Proc.
Proof. split_and!; vm_compute; reflexivity. Qed.

(** [file_loc] stops on the name of a file of a source directory relative to the repository. *)
Lemma file_loc_relative : env_file_loc sample_env (str "../ext/f") = Crash.
Proof. vm_compute. reflexivity. Qed.
End RealPathThm.
