(* ===== verification/Serdes.v ===== *)
(** * Serialisation: src/serialize.hh

    The types that are serialised are described by [ty]; the members of an aggregate are serialised one after the
    other, as nested pairs. A stream is the list of its bytes. *)
From S2P Require Import Prelude.
From Stdlib Require Import Ascii Sorted.
Local Open Scope Z_scope.

Definition bytes : Type := list ascii.

Module Serdes.

(** ** Bytes of an integer *)

(** The object representation of an unsigned integer of [n] bytes, in little-endian order *)
Fixpoint encode_int (n : nat) (x : Z) : bytes :=
  match n with O => [] | S n => ascii_of_N (Z.to_N (x mod 256)) :: encode_int n (x / 256) end.
Fixpoint decode_int (b : bytes) : Z :=
  match b with [] => 0 | c :: b => Z.of_N (N_of_ascii c) + 256 * decode_int b end.

Lemma encode_length n x : length (encode_int n x) = n.
Proof. revert x. induction n as [|n IH]; intros x; simpl; [done|]. by rewrite IH. Qed.

Lemma decode_encode n x : 0 <= x < 256 ^ Z.of_nat n -> decode_int (encode_int n x) = x.
Proof.
  revert x. induction n as [|n IH]; intros x Hx; [simpl in *; lia|]. cbn [encode_int decode_int].
  pose proof (Z.mod_pos_bound x 256 ltac:(lia)) as Hm. rewrite N_ascii_embedding by lia. rewrite Z2N.id by lia.
  rewrite IH; [pose proof (Z.div_mod x 256); lia|].
  rewrite Nat2Z.inj_succ, Z.pow_succ_r in Hx by lia. split; [apply Z.div_pos; lia|]. apply Z.div_lt_upper_bound; lia.
Qed.

(** ** Types *)

(** Keys of maps: integers and strings *)
Inductive kty : Type := KInt (n : nat) | KStr.
Inductive ty : Type :=
| TInt (n : nat)
| TEmpty
| TBool
| TStr
| TOpt (t : ty)
| TPair (t u : ty)
| TArr (n : nat) (t : ty)
| TVec (t : ty)
| TMap (k : kty) (t : ty).

Definition kval (k : kty) : Type := match k with KInt _ => Z | KStr => bytes end.
Fixpoint val (t : ty) : Type :=
  match t with
  | TInt _ => Z
  | TEmpty => unit
  | TBool => bool
  | TStr => bytes
  | TOpt t => option (val t)
  | TPair t u => val t * val u
  | TArr _ t | TVec t => list (val t)
  | TMap k t => list (kval k * val t)
  end%type.

(** The order of the keys; characters are compared as unsigned *)
Fixpoint str_lt (a b : bytes) : bool :=
  match a, b with
  | _, [] => false
  | [], _ :: _ => true
  | x :: a, y :: b => if Ascii.eqb x y then str_lt a b else (N_of_ascii x <? N_of_ascii y)%N
  end.
Definition key_lt (k : kty) : kval k -> kval k -> bool :=
  match k with KInt _ => Z.ltb | KStr => str_lt end.

(** ** Writing *)

Definition SerdesSz : nat := 4.
Definition _serdes_sz {A} (l : list A) : outcome bytes :=
  let sz := Z.of_nat (length l) in
  _ ← swear (uwrap 32 sz =? sz);
  Ret (encode_int SerdesSz (uwrap 32 sz)).

Fixpoint ser_all {A} (f : A -> outcome bytes) (l : list A) : outcome bytes :=
  match l with [] => Ret [] | x :: l => b ← f x; r ← ser_all f l; Ret (b ++ r) end.
Definition ser_str (s : bytes) : outcome bytes := b ← _serdes_sz s; Ret (b ++ s).
Definition ser_key (k : kty) : kval k -> outcome bytes :=
  match k with KInt n => fun x => Ret (encode_int n x) | KStr => ser_str end.
Definition ser_entry {V} (k : kty) (f : V -> outcome bytes) (p : kval k * V) : outcome bytes := a ← ser_key k p.1; b ← f p.2; Ret (a ++ b).

Fixpoint ser (t : ty) : val t -> outcome bytes :=
  match t with
  | TInt n => fun x => Ret (encode_int n x)
  | TEmpty => fun _ => Ret []
  | TBool => fun b => Ret (encode_int 1 (if b then 1 else 0))
  | TStr => ser_str
  | TOpt t => fun o => match o with None => Ret (encode_int 1 0) | Some x => b ← ser t x; Ret (encode_int 1 1 ++ b) end
  | TPair t u => fun p => a ← ser t p.1; b ← ser u p.2; Ret (a ++ b)
  | TArr _ t => fun l => ser_all (ser t) l
  | TVec t => fun l => a ← _serdes_sz l; b ← ser_all (ser t) l; Ret (a ++ b)
  | TMap k t => fun l => a ← _serdes_sz l; b ← ser_all (ser_entry k (ser t)) l; Ret (a ++ b)
  end.

(** ** Reading *)

(** The first [n] bytes, and what follows *)
Definition take_bytes (n : nat) (ist : bytes) : outcome (bytes * bytes) :=
  _ ← throw_unless (n <=? length ist)%nat "truncated stream";
  Ret (take n ist, drop n ist).
Definition des_int (n : nat) (ist : bytes) : outcome (Z * bytes) := '(b, ist) ← take_bytes n ist; Ret (decode_int b, ist).
Definition des_str (ist : bytes) : outcome (bytes * bytes) :=
  '(sz, ist) ← des_int SerdesSz ist;
  take_bytes (Z.to_nat sz) ist.
Fixpoint des_all {A} (f : bytes -> outcome (A * bytes)) (n : nat) (ist : bytes) : outcome (list A * bytes) :=
  match n with
  | O => Ret ([], ist)
  | S n => '(x, ist) ← f ist; '(l, ist) ← des_all f n ist; Ret (x :: l, ist)
  end.

Definition des_key (k : kty) : bytes -> outcome (kval k * bytes) := match k with KInt n => des_int n | KStr => des_str end.
Definition des_entry {V} (k : kty) (d : bytes -> outcome (V * bytes)) (ist : bytes) : outcome ((kval k * V) * bytes) :=
  '(a, ist) ← des_key k ist; '(b, ist) ← d ist; Ret ((a, b), ist).

(** [insert] of a [::map], which keeps the value of a known key *)
Fixpoint insert_key {K V} (lt : K -> K -> bool) (kv : K * V) (m : list (K * V)) : list (K * V) :=
  match m with
  | [] => [kv]
  | kv' :: m' => if lt kv'.1 kv.1 then kv' :: insert_key lt kv m' else if lt kv.1 kv'.1 then kv :: m else m
  end.

(** A byte other than 0 is read as [true] *)
Fixpoint des (t : ty) : bytes -> outcome (val t * bytes) :=
  match t with
  | TInt n => des_int n
  | TEmpty => fun ist => Ret (tt, ist)
  | TBool => fun ist => '(x, ist) ← des_int 1 ist; Ret (negb (x =? 0), ist)
  | TStr => des_str
  | TOpt t => fun ist => '(has_v, ist) ← des_int 1 ist; if has_v =? 0 then Ret (None, ist) else '(v, ist) ← des t ist; Ret (Some v, ist)
  | TPair t u => fun ist => '(x, ist) ← des t ist; '(y, ist) ← des u ist; Ret ((x, y), ist)
  | TArr n t => fun ist => des_all (des t) n ist
  | TVec t => fun ist => '(n, ist) ← des_int SerdesSz ist; des_all (des t) (Z.to_nat n) ist
  | TMap k t => fun ist =>
    '(n, ist) ← des_int SerdesSz ist;
    '(l, ist) ← des_all (des_entry k (des t)) (Z.to_nat n) ist;
    Ret (foldl (fun m kv => insert_key (key_lt k) kv m) [] l, ist)
  end.

(** ** Round trip *)

(** Values of their types: integers within their width, sizes on 32 bits, keys in order *)
Definition small {A} (l : list A) : Prop := Z.of_nat (length l) < 2 ^ 32.
Definition kfits (k : kty) : kval k -> Prop := match k with KInt n => fun x => 0 <= x < 256 ^ Z.of_nat n | KStr => small end.
Fixpoint fits (t : ty) : val t -> Prop :=
  match t with
  | TInt n => fun x => 0 <= x < 256 ^ Z.of_nat n
  | TEmpty | TBool => fun _ => True
  | TStr => small
  | TOpt t => fun o => match o with None => True | Some x => fits t x end
  | TPair t u => fun p => fits t p.1 /\ fits u p.2
  | TArr n t => fun l => length l = n /\ Forall (fits t) l
  | TVec t => fun l => small l /\ Forall (fits t) l
  | TMap k t => fun l => small l /\ Forall (fun p => kfits k p.1 /\ fits t p.2) l /\ StronglySorted (fun p q => key_lt k p.1 q.1 = true) l
  end.

(** [d] reads back [x] from what [b] writes, and refuses any part of it *)
Definition reads {A} (d : bytes -> outcome (A * bytes)) (x : A) (b : bytes) : Prop :=
  (forall rest, d (b ++ rest) = Ret (x, rest)) /\ forall p, p `prefix_of` b -> p <> b -> d p = Throw "truncated stream".

Lemma prefix_app_cases (p a b : bytes) : p `prefix_of` a ++ b -> p <> a ++ b ->
  (p `prefix_of` a /\ p <> a) \/ exists q, p = a ++ q /\ q `prefix_of` b /\ q <> b.
Proof.
  intros [x Hx] Hne. destruct (app_eq_inv _ _ _ _ Hx) as [(k & -> & ->)|(k & -> & ->)].
  - destruct (decide (k = [])) as [->|Hk].
    + right. exists []. rewrite app_nil_r in *. split_and!; [by rewrite app_nil_r|apply prefix_nil|]. intros <-. by rewrite app_nil_r in Hne.
    + left. split; [by exists k|]. intros E. apply Hk. apply (f_equal length) in E. rewrite length_app in E. destruct k; [done|simpl in E; lia].
  - right. exists k. split_and!; [done|by exists x|]. intros E. apply Hne. by rewrite <- E.
Qed.

Lemma reads_bind {A B} (d : bytes -> outcome (A * bytes)) (k : A -> bytes -> outcome (B * bytes)) x y a b :
  reads d x a -> reads (k x) y b -> reads (fun ist => '(x, ist) ← d ist; k x ist) y (a ++ b).
Proof.
  intros [Hd Hdt] [Hk Hkt]. split.
  - intros rest. rewrite <- app_assoc, Hd. apply Hk.
  - intros p Hp Hne. destruct (prefix_app_cases _ _ _ Hp Hne) as [[Hp1 Hp2]|(q & -> & Hq & Hq')]; [by rewrite Hdt|]. rewrite Hd. by apply Hkt.
Qed.

Lemma reads_ret {A} (x : A) : reads (fun ist => Ret (x, ist)) x [].
Proof. split; [done|]. intros p Hp Hne. by apply prefix_nil_inv in Hp. Qed.

Lemma reads_map {A B} (d : bytes -> outcome (A * bytes)) (f : A -> B) x b : reads d x b -> reads (fun ist => '(x, ist) ← d ist; Ret (f x, ist)) (f x) b.
Proof. intros Hd. rewrite <- (app_nil_r b). eapply (reads_bind d (fun x ist => Ret (f x, ist)) x (f x) b []); [done|apply reads_ret]. Qed.

Lemma reads_take b : reads (take_bytes (length b)) b b.
Proof.
  unfold take_bytes. split.
  - intros rest. rewrite throw_unless_bind by (apply Nat.leb_le; rewrite length_app; lia). by rewrite take_app_length, drop_app_length.
  - intros p [x Hx] Hne. subst b. rewrite length_app. assert (x <> []) as Hx by (intros ->; by rewrite app_nil_r in Hne).
    destruct (Nat.leb_spec (length p + length x) (length p)); [|done]. destruct x; [done|simpl in *; lia].
Qed.

Lemma reads_int n x : 0 <= x < 256 ^ Z.of_nat n -> reads (des_int n) x (encode_int n x).
Proof.
  intros Hx. unfold des_int. rewrite <- (decode_encode n x Hx) at 1. apply (reads_map (take_bytes n) decode_int).
  rewrite <- (encode_length n x) at 1. apply reads_take.
Qed.

Lemma serdes_sz_ok {A} (l : list A) : small l -> _serdes_sz l = Ret (encode_int SerdesSz (Z.of_nat (length l))) /\
  reads (des_int SerdesSz) (Z.of_nat (length l)) (encode_int SerdesSz (Z.of_nat (length l))).
Proof.
  intros Hl. unfold small in Hl. unfold _serdes_sz. rewrite uwrap_small by lia. rewrite swear_bind by lia. split; [done|]. apply reads_int. unfold SerdesSz. lia.
Qed.

(** Same element of a stream, written by [f] and read by [d] *)
Definition serdes_ok {A} (f : A -> outcome bytes) (d : bytes -> outcome (A * bytes)) (x : A) : Prop := exists b, f x = Ret b /\ reads d x b.

Lemma serdes_all {A} (f : A -> outcome bytes) d l : Forall (serdes_ok f d) l -> exists b, ser_all f l = Ret b /\ reads (des_all d (length l)) l b.
Proof.
  induction 1 as [|x l (b & E & Hb) _ (r & Er & Hr)]; [exists []; split; [done|apply reads_ret]|].
  exists (b ++ r). simpl. rewrite E, Er. split; [done|]. eapply (reads_bind d (fun x ist => '(l, ist) ← des_all d (length l) ist; Ret (x :: l, ist))); [done|].
  by apply (reads_map _ (cons x)).
Qed.

Lemma serdes_str s : small s -> serdes_ok ser_str des_str s.
Proof.
  intros Hs. destruct (serdes_sz_ok s Hs) as [E Hr]. eexists. unfold ser_str. rewrite E. split; [done|].
  eapply (reads_bind (des_int SerdesSz) (fun sz => take_bytes (Z.to_nat sz)) _ _ _ _ Hr). rewrite Nat2Z.id. apply reads_take.
Qed.

Lemma serdes_key k x : kfits k x -> serdes_ok (ser_key k) (des_key k) x.
Proof. destruct k; intros Hx; [eexists; split; [done|by apply reads_int]|by apply serdes_str]. Qed.

(** Insertion in the order of the keys *)
Lemma insert_keys {K V} (lt : K -> K -> bool) (l m : list (K * V)) :
  StronglySorted (fun p q => lt p.1 q.1 = true) (m ++ l) -> foldl (fun m kv => insert_key lt kv m) m l = m ++ l.
Proof.
  revert m. induction l as [|kv l IH]; intros m Hs; simpl; [by rewrite app_nil_r|].
  assert (insert_key lt kv m = m ++ [kv]) as ->.
  { clear IH. induction m as [|kv' m IH]; [done|]. simpl in *. apply StronglySorted_inv in Hs as [Hs Hall].
    apply Forall_app in Hall as [_ Hall]. apply Forall_cons in Hall as [-> _]. by rewrite IH. }
  rewrite IH; by rewrite <- app_assoc.
Qed.

Lemma serdes_pair {A B} (f : A -> outcome bytes) (g : B -> outcome bytes) d e x y : serdes_ok f d x -> serdes_ok g e y ->
  serdes_ok (fun p => a ← f p.1; b ← g p.2; Ret (a ++ b)) (fun ist => '(x, ist) ← d ist; '(y, ist) ← e ist; Ret ((x, y), ist)) (x, y).
Proof.
  intros (a & Ea & Ha) (b & Eb & Hb). exists (a ++ b). simpl. rewrite Ea, Eb. split; [done|].
  eapply (reads_bind d (fun x ist => '(y, ist) ← e ist; Ret ((x, y), ist)) _ _ _ _ Ha). by apply (reads_map e (fun y => (x, y))).
Qed.

Lemma serdes_fits t x : fits t x -> serdes_ok (ser t) (des t) x.
Proof.
  induction t as [n| | | |t IH|t IHt u IHu|n t IH|t IH|k t IH]; intros Hx; simpl in Hx.
  - eexists. split; [done|by apply reads_int].
  - exists []. destruct x. split; [done|apply (reads_ret tt)].
  - eexists. split; [done|]. simpl. destruct x.
    + apply (reads_map (des_int 1) (fun x => negb (x =? 0)) 1). by apply reads_int.
    + apply (reads_map (des_int 1) (fun x => negb (x =? 0)) 0). by apply reads_int.
  - by apply serdes_str.
  - simpl. destruct x as [x|].
    + destruct (IH x Hx) as (b & E & Hb). exists (encode_int 1 1 ++ b). cbn [ser des]. rewrite E. split; [done|].
      eapply (reads_bind (des_int 1) (fun has_v ist => if has_v =? 0 then Ret (None, ist) else '(v, ist) ← des t ist; Ret (Some v, ist)) 1); [by apply reads_int|].
      by apply (reads_map (des t) Some).
    + exists (encode_int 1 0). split; [done|]. rewrite <- (app_nil_r (encode_int 1 0)).
      eapply (reads_bind (des_int 1) (fun has_v ist => if has_v =? 0 then Ret (None, ist) else '(v, ist) ← des t ist; Ret (Some v, ist)) 0); [by apply reads_int|apply (reads_ret None)].
  - destruct x as [x y], Hx as [Hx Hy]. apply serdes_pair; auto.
  - destruct Hx as [Hl Hx]. destruct (serdes_all (ser t) (des t) x) as (b & E & Hb); [eapply Forall_impl; [exact Hx|auto]|]. exists b. split; [done|]. cbn [des]. by rewrite <- Hl.
  - destruct Hx as [Hs Hx]. destruct (serdes_sz_ok x Hs) as [E Hr]. destruct (serdes_all (ser t) (des t) x) as (b & Eb & Hb); [eapply Forall_impl; [exact Hx|auto]|].
    eexists. simpl. rewrite E, Eb. split; [done|]. eapply (reads_bind (des_int SerdesSz) (fun n => des_all (des t) (Z.to_nat n)) _ _ _ _ Hr). by rewrite Nat2Z.id.
  - destruct Hx as (Hs & Hx & Hk). destruct (serdes_sz_ok x Hs) as [E Hr].
    destruct (serdes_all (ser_entry k (ser t)) (des_entry k (des t)) x) as (b & Eb & Hb).
    { eapply Forall_impl; [exact Hx|]. intros [a b] [Ha Hb]. apply serdes_pair; [by apply serdes_key|auto]. }
    eexists. cbn [ser des]. rewrite E, Eb. split; [done|].
    rewrite <- (insert_keys (key_lt k) x [] Hk) at 1.
    eapply (reads_bind (des_int SerdesSz) (fun n ist => '(l, ist) ← des_all (des_entry k (des t)) (Z.to_nat n) ist; Ret (foldl (fun m kv => insert_key (key_lt k) kv m) [] l, ist)) _ _ _ _ Hr).
    rewrite Nat2Z.id. by apply (reads_map _ (fun l => foldl (fun m kv => insert_key (key_lt k) kv m) [] l)).
Qed.

(** C17 Serialisation is reversible, for all types made of integers, booleans, strings, optional values, pairs,
    aggregates, arrays, vectors and maps: writing a value succeeds, reading gives back the value and leaves what
    follows it in the stream, and any truncated stream is refused with an error. *)
Theorem serdes_roundtrip t x : fits t x ->
  exists b, ser t x = Ret b /\ (forall rest, des t (b ++ rest) = Ret (x, rest)) /\
    forall p, p `prefix_of` b -> p <> b -> des t p = Throw "truncated stream".
Proof. apply serdes_fits. Qed.

Definition sample_ty : ty := TPair (TVec TStr) (TMap (KInt 2) (TOpt TBool)).
Definition sample_val : val sample_ty := ([["a"%char]; []], [(3, None); (515, Some true)]).

Lemma serdes_roundtrip_witness : exists b, ser sample_ty sample_val = Ret b /\ (forall rest, des sample_ty (b ++ rest) = Ret (sample_val, rest)) /\
  forall p, p `prefix_of` b -> p <> b -> des sample_ty p = Throw "truncated stream".
Proof.
  apply (serdes_roundtrip sample_ty sample_val). unfold sample_ty, sample_val, small. simpl.
  repeat match goal with |- _ /\ _ => split | |- Forall _ _ => constructor | |- StronglySorted _ _ => constructor end; simpl; unfold small; simpl; (done || lia).
Defined.

(** ** Junk *)

(** From any stream, [d] reads a value with property [P] and leaves the end of the stream, or finds the stream too short *)
Definition typed {A} (P : A -> Prop) (d : bytes -> outcome (A * bytes)) : Prop :=
  forall ist, match d ist with Ret (x, r) => P x /\ r `suffix_of` ist | Throw e => e = "truncated stream"%string | Crash => False end.

Lemma typed_bind {A B} (P : A -> Prop) (Q : B -> Prop) d (k : A -> bytes -> outcome (B * bytes)) :
  typed P d -> (forall x, P x -> typed Q (k x)) -> typed Q (fun ist => '(x, ist) ← d ist; k x ist).
Proof.
  intros Hd Hk ist. pose proof (Hd ist) as H. destruct (d ist) as [[x r]| |]; [|done..]. destruct H as [Hx Hr]. cbn [mbind outcome_mbind].
  pose proof (Hk x Hx r) as H. destruct (k x r) as [[y r']| |]; [|done..]. destruct H as [Hy Hr']. split; [done|]. by transitivity r.
Qed.
Lemma typed_ret {A} (P : A -> Prop) x : P x -> typed P (fun ist => Ret (x, ist)).
Proof. by intros Hx ist. Qed.
Lemma typed_map {A B} (P : A -> Prop) (Q : B -> Prop) d (f : A -> B) : typed P d -> (forall x, P x -> Q (f x)) -> typed Q (fun ist => '(x, ist) ← d ist; Ret (f x, ist)).
Proof. intros Hd Hf. apply (typed_bind P Q d (fun x ist => Ret (f x, ist)) Hd). intros x Hx. by apply typed_ret, Hf. Qed.
Lemma typed_take n : typed (fun b => length b = n) (take_bytes n).
Proof.
  intros ist. unfold take_bytes. destruct (Nat.leb_spec n (length ist)); [|done]. cbn [throw_unless mbind outcome_mbind]. split; [by rewrite length_take_le|apply suffix_drop].
Qed.
Lemma decode_range b : 0 <= decode_int b < 256 ^ Z.of_nat (length b).
Proof.
  induction b as [|c b IH]; [done|]. cbn [decode_int length]. rewrite Nat2Z.inj_succ, Z.pow_succ_r by lia. pose proof (N_ascii_bounded c). lia.
Qed.
Lemma typed_int n : typed (fun x => 0 <= x < 256 ^ Z.of_nat n) (des_int n).
Proof. apply (typed_map _ _ _ decode_int (typed_take n)). intros b <-. apply decode_range. Qed.
Lemma typed_all {A} (P : A -> Prop) d n : typed P d -> typed (fun l => length l = n /\ Forall P l) (des_all d n).
Proof.
  intros Hd. induction n as [|n IH]; [apply typed_ret; by split|]. cbn [des_all]. apply (typed_bind P _ d (fun x ist => '(l, ist) ← des_all d n ist; Ret (x :: l, ist)) Hd). intros x Hx.
  apply (typed_map _ _ _ (cons x) IH). intros l [Hl Ha]. split; [simpl; lia|by constructor].
Qed.
Lemma typed_str : typed small des_str.
Proof.
  apply (typed_bind _ _ _ (fun sz => take_bytes (Z.to_nat sz)) (typed_int SerdesSz)). intros sz Hsz ist. pose proof (typed_take (Z.to_nat sz) ist) as H.
  destruct (take_bytes (Z.to_nat sz) ist) as [[x r]| |]; [|done..]. destruct H as [Hl Hr]. split; [|done]. unfold small, SerdesSz in *. lia.
Qed.
Lemma typed_key k : typed (kfits k) (des_key k).
Proof. destruct k; [apply typed_int|apply typed_str]. Qed.

Lemma str_lt_trans a b c : str_lt a b = true -> str_lt b c = true -> str_lt a c = true.
Proof.
  revert b c. induction a as [|x a IH]; intros [|y b] [|z c]; simpl; try done. destruct (Ascii.eqb_spec x y) as [->|Hxy].
  - destruct (Ascii.eqb_spec y z); [apply IH|done].
  - destruct (Ascii.eqb_spec y z) as [->|Hyz]; intros Hab Hbc.
    + by rewrite (proj2 (Ascii.eqb_neq x z)).
    + apply N.ltb_lt in Hab, Hbc. destruct (Ascii.eqb_spec x z) as [->|]; [lia|]. apply N.ltb_lt. lia.
Qed.
Lemma key_lt_trans k a b c : key_lt k a b = true -> key_lt k b c = true -> key_lt k a c = true.
Proof. destruct k; simpl in *; [rewrite !Z.ltb_lt; lia|apply str_lt_trans]. Qed.

Lemma insert_key_forall {K V} (lt : K -> K -> bool) (P : K * V -> Prop) kv m : P kv -> Forall P m -> Forall P (insert_key lt kv m) /\ (length (insert_key lt kv m) <= S (length m))%nat.
Proof.
  intros Hk Hm. induction Hm as [|x m Hx Hm [IH IHl]]; simpl; [by repeat constructor|]. destruct (lt x.1 kv.1); [|destruct (lt kv.1 x.1)]; simpl; split; try lia; repeat constructor; done.
Qed.
Lemma insert_key_sorted {K V} (lt : K -> K -> bool) (kv : K * V) m : (forall a b c, lt a b = true -> lt b c = true -> lt a c = true) ->
  StronglySorted (fun p q => lt p.1 q.1 = true) m -> StronglySorted (fun p q => lt p.1 q.1 = true) (insert_key lt kv m).
Proof.
  intros Ht Hs. induction Hs as [|x m Hs IH Hx]; simpl; [by repeat constructor|]. destruct (lt x.1 kv.1) eqn:E1.
  - constructor; [done|]. by apply insert_key_forall.
  - destruct (lt kv.1 x.1) eqn:E2; constructor; try done; [by constructor|]. constructor; [done|]. eapply Forall_impl; [exact Hx|]. intros y Hy. by eapply Ht.
Qed.
Lemma insert_all_ok {K V} (lt : K -> K -> bool) (P : K * V -> Prop) l m : (forall a b c, lt a b = true -> lt b c = true -> lt a c = true) ->
  Forall P l -> Forall P m -> StronglySorted (fun p q => lt p.1 q.1 = true) m ->
  let r := foldl (fun m kv => insert_key lt kv m) m l in
  Forall P r /\ StronglySorted (fun p q => lt p.1 q.1 = true) r /\ (length r <= length m + length l)%nat.
Proof.
  intros Ht Hl. revert m. induction Hl as [|kv l Hk Hl IH]; intros m Hm Hs; [simpl; split_and!; [done..|lia]|]. cbn [foldl].
  destruct (insert_key_forall lt P kv m Hk Hm) as [Hi Hil]. destruct (IH _ Hi (insert_key_sorted lt kv m Ht Hs)) as (? & ? & ?). simpl. split_and!; [done..|lia].
Qed.

(** C18 Whatever the bytes in a stream, deserialisation ends with a value that is well formed (integers within their width, sizes
    on 32 bits, arrays of their size, maps in the order of their keys and without duplicates) and leaves the end of
    the stream, or throws because the stream is too short; it never stops the program. *)
Theorem des_typed t : typed (fits t) (des t).
Proof.
  induction t as [n| | | |t IH|t IHt u IHu|n t IH|t IH|k t IH].
  - apply typed_int.
  - by apply (typed_ret _ tt).
  - by apply (typed_map _ _ _ (fun x => negb (x =? 0)) (typed_int 1)).
  - apply typed_str.
  - apply (typed_bind _ _ _ (fun has_v ist => if has_v =? 0 then Ret (None, ist) else '(v, ist) ← des t ist; Ret (Some v, ist)) (typed_int 1)).
    intros v _ ist. destruct (v =? 0); [by apply typed_ret|]. by apply (typed_map _ _ _ Some IH).
  - apply (typed_bind _ _ _ (fun x ist => '(y, ist) ← des u ist; Ret ((x, y), ist)) IHt). intros x Hx. by apply (typed_map _ _ _ (fun y => (x, y)) IHu).
  - apply (typed_all _ _ _ IH).
  - apply (typed_bind _ _ _ (fun n => des_all (des t) (Z.to_nat n)) (typed_int SerdesSz)). intros n Hn ist. pose proof (typed_all _ _ (Z.to_nat n) IH ist) as H.
    destruct (des_all _ _ ist) as [[l r]| |]; [|done..]. destruct H as [[Hl Ha] Hr]. split; [|done]. split; [|done]. unfold small, SerdesSz in *. cbv beta in Hn. change (256 ^ Z.of_nat 4) with (2 ^ 32) in Hn. assert (Z.of_nat (length l) < 2 ^ 32) as Hs by (rewrite Hl; lia). exact Hs.
  - apply (typed_bind _ _ _ (fun n ist => '(l, ist) ← des_all (des_entry k (des t)) (Z.to_nat n) ist; Ret (foldl (fun m kv => insert_key (key_lt k) kv m) [] l, ist)) (typed_int SerdesSz)).
    intros n Hn. assert (typed (fun p => kfits k p.1 /\ fits t p.2) (des_entry k (des t))) as He.
    { apply (typed_bind _ _ _ (fun x ist => '(y, ist) ← des t ist; Ret ((x, y), ist)) (typed_key k)). intros x Hx. by apply (typed_map _ _ _ (fun y => (x, y)) IH). }
    apply (typed_map _ _ _ (fun l => foldl (fun m kv => insert_key (key_lt k) kv m) [] l) (typed_all _ _ (Z.to_nat n) He)). intros l [Hl Ha].
    destruct (insert_all_ok (key_lt k) _ l [] (key_lt_trans k) Ha (Forall_nil_2 _) (SSorted_nil _)) as (Hf & Hs & Hlen). split_and!; [|done..]. unfold small, SerdesSz in *. change (256 ^ Z.of_nat 4) with (2 ^ 32) in Hn. cbn [length Nat.add] in Hlen.
    assert (Z.of_nat (length (foldl (fun m kv => insert_key (key_lt k) kv m) [] l)) < 2 ^ 32) as Hz by lia. exact Hz.
Qed.
End Serdes.
