(* ===== verification/Msg.v ===== *)
(** * Messages over a stream: [IMsgBuf] and [OMsgBuf] of src/msg.hh *)
From S2P Require Import Prelude.
From S2P Require Import Enum.
From S2P Require Import Serdes.
Local Open Scope Z_scope.

Module Msg.
Import Serdes.

Definition sizeof_Len : Z := 4.
Definition sizeof_Key : Z := 8.
Definition ChunkSz : Z := 4096.

(** ** Receiving *)

(** The result of [::read]: [Retry] for [EAGAIN], [EWOULDBLOCK] and [EINTR], [Closed] for end of file and
    [ECONNRESET] *)
Inductive read_res : Type := Got (b : bytes) | Retry | Closed | Failed (e : string).

(** [buf] are the first [_buf_sz] bytes of [_buf] *)
Record IMsgBuf := mk_i { buf : bytes; msg_start : Z; msg_len : Z }.
Definition i_new : IMsgBuf := mk_i [] 0 0.
Definition buf_sz (m : IMsgBuf) : Z := Z.of_nat (length (buf m)).
Definition sub (m : IMsgBuf) (sz : Z) : bytes := take (Z.to_nat sz) (drop (Z.to_nat (msg_start m)) (buf m)).

Section receive.
(** The type of the messages, and [T()] *)
Context (T : ty) (dflt : val T).
(** The socket: [read fd cnt] reads at most [cnt] bytes *)
Context {fd : Type} (read : fd -> Z -> read_res * fd).

(** What [advance] returns; [Eof] when it sets the result to [T()] *)
Inductive advanced : Type := Ready | Waiting | Eof.
Definition advance (fetch : Bool3) (can_read : bool) (sz : Z) (m : IMsgBuf) (f : fd) : outcome (advanced * bool * IMsgBuf * fd) :=
  let end_ := u32 (msg_start m + sz) in
  if end_ <=? buf_sz m then Ret (Ready, can_read, m, f)
  else if negb can_read then Ret (Waiting, can_read, m, f)
  else
    let new_sz := u32 (end_ + match fetch with Yes => ChunkSz | _ => 0 end) in
    match read f (u32 (new_sz - buf_sz m)) with
    | (Got b, f) =>
      let m := mk_i (buf m ++ b) (msg_start m) (msg_len m) in
      Ret (if end_ <=? buf_sz m then Ready else Waiting, false, m, f)
    | (Retry, f) => Ret (Waiting, can_read, m, f)
    | (Closed, f) => Ret (Eof, can_read, m, f)
    | (Failed e, f) => Throw e
    end.

(** The header: key and length *)
Definition header (key : Z) (m : IMsgBuf) : outcome (option (IMsgBuf)) :=
  if negb (key =? 0) && negb (decode_int (sub m sizeof_Key) =? key) then Ret None
  else
    let m := if key =? 0 then m else mk_i (buf m) (u32 (msg_start m + sizeof_Key)) (msg_len m) in
    let len := decode_int (sub m sizeof_Len) in
    _ ← swear (negb (len =? 0));
    Ret (Some (mk_i (buf m) (u32 (msg_start m + sizeof_Len)) len)).

(** Reading the message, once all its bytes are there *)
Definition message (m : IMsgBuf) : outcome (val T * IMsgBuf) :=
  '(x, bv) ← des T (sub m (msg_len m));
  _ ← swear (bool_decide (bv = []));
  let start := u32 (msg_start m + msg_len m) in
  Ret (x, if buf_sz m - start <=? start then mk_i (drop (Z.to_nat start) (buf m)) 0 0 else mk_i (buf m) start 0).

Definition data (fetch : Bool3) (can_read : bool) (m : IMsgBuf) (f : fd) : outcome (option (val T) * IMsgBuf * fd) :=
  '(a, _, m, f) ← advance fetch can_read (msg_len m) m f;
  match a with
  | Ready => '(x, m) ← message m; Ret (Some x, m, f)
  | Waiting => Ret (None, m, f)
  | Eof => Ret (Some dflt, m, f)
  end.

Definition receive_step (fetch : Bool3) (key : Z) (m : IMsgBuf) (f : fd) : outcome (option (val T) * Z * IMsgBuf * fd) :=
  let can_read := match fetch with No => false | _ => true end in
  if msg_len m =? 0 then
    '(a, can_read, m, f) ← advance fetch can_read ((if key =? 0 then 0 else sizeof_Key) + sizeof_Len) m f;
    match a with
    | Waiting => Ret (None, key, m, f)
    | Eof => Ret (Some dflt, key, m, f)
    | Ready =>
      h ← header key m;
      match h with
      | None => Ret (Some dflt, key, m, f)
      | Some m => '(x, m, f) ← data fetch can_read m f; Ret (x, 0, m, f)
      end
    end
  else
    _ ← swear (key =? 0);
    '(x, m, f) ← data fetch can_read m f;
    Ret (x, key, m, f).

(** The loops of [receive] *)
Definition fetch_of (once : Bool3) (m : IMsgBuf) : Bool3 :=
  match once with No => Yes | Maybe => Bool3Ops.or_bool Maybe (msg_len m =? 0) | Yes => Maybe end.
Fixpoint receive (fuel : nat) (once : Bool3) (key : Z) (m : IMsgBuf) (f : fd) : outcome (val T * Z * IMsgBuf * fd) :=
  match fuel with
  | O => Crash
  | S fuel =>
    '(x, key, m, f) ← receive_step (fetch_of once m) key m f;
    match x with Some x => Ret (x, key, m, f) | None => receive fuel once key m f end
  end.
End receive.

(** ** Sending *)

Record OMsgBuf := mk_o { o_buf : bytes; o_pos : Z }.
Definition o_new : OMsgBuf := mk_o (replicate (Z.to_nat sizeof_Key) Ascii.zero) 0.

(** [_add] of serialised data *)
Definition add_serialized (s : bytes) (o : OMsgBuf) : outcome OMsgBuf :=
  let l := Z.of_nat (length s) in
  _ ← swear (u32 l =? l);
  Ret (mk_o (o_buf o ++ encode_int (Z.to_nat sizeof_Len) (u32 l) ++ s) (o_pos o)).
Definition add (T : ty) (x : val T) (o : OMsgBuf) : outcome OMsgBuf := s ← ser T x; add_serialized s o.

(** [write b] is the number of bytes of [b] that are written *)
Definition send_step (write : bytes -> Z) (key : Z) (o : OMsgBuf) : outcome (bool * OMsgBuf * bytes) :=
  o ← (if key =? 0 then Ret (mk_o (o_buf o) sizeof_Key)
       else
         _ ← swear (o_pos o =? 0);
         Ret (mk_o (encode_int (Z.to_nat sizeof_Key) key ++ drop (Z.to_nat sizeof_Key) (o_buf o)) (o_pos o)));
  let todo := drop (Z.to_nat (o_pos o)) (o_buf o) in
  let cnt := write todo in
  _ ← throw_unless (0 <? cnt) "cannot send";
  let pos := u32 (o_pos o + cnt) in
  Ret (pos =? Z.of_nat (length (o_buf o)), mk_o (o_buf o) pos, take (Z.to_nat cnt) todo).
(** [send]: the bytes that are written; one writer per call *)
Fixpoint send (writes : list (bytes -> Z)) (key : Z) (o : OMsgBuf) : outcome bytes :=
  match writes with
  | [] => Crash
  | w :: writes =>
    '(complete, o, b) ← send_step w key o;
    if (complete : bool) then Ret b else r ← send writes 0 o; Ret (b ++ r)
  end.

(** ** A socket

    The bytes that arrive, and how many of them each read gives at most, [None] when it must be retried; when
    nothing is said, a read gives all it can. *)
Definition sock : Type := bytes * list (option nat).
Definition sock_read (s : sock) (cnt : Z) : read_res * sock :=
  let give n sched :=
    match take n s.1 with [] => (Closed, (s.1, sched)) | b => (Got b, (drop n s.1, sched)) end in
  match s.2 with
  | [] => give (Z.to_nat cnt) []
  | None :: sched => (Retry, (s.1, sched))
  | Some n :: sched => give (Nat.min (Datatypes.S n) (Z.to_nat cnt)) sched
  end.
Definition remains (s : sock) : nat := length s.1 + length s.2.

(** ** The messages to come *)

(** Messages on the wire *)
Definition framed (ps : list bytes) : bytes := concat (map (fun p => encode_int 4 (Z.of_nat (length p)) ++ p) ps).
Definition key_bytes (key : Z) : bytes := if key =? 0 then [] else encode_int 8 key.
Definition avail (m : IMsgBuf) : bytes := drop (Z.to_nat (msg_start m)) (buf m).

(** There is room in the buffer, whose indices are on 32 bits *)
Definition room (m : IMsgBuf) (s : sock) : Prop :=
  0 <= msg_start m <= buf_sz m /\ buf_sz m + Z.of_nat (length s.1) + ChunkSz + 12 < 2 ^ 32.

Definition pending (key : Z) (m : IMsgBuf) (s : sock) (ps : list bytes) : Prop :=
  if msg_len m =? 0 then avail m ++ s.1 = key_bytes key ++ framed ps
  else key = 0 /\ exists p ps', ps = p :: ps' /\ msg_len m = Z.of_nat (length p) /\ avail m ++ s.1 = p ++ framed ps'.

Lemma avail_length m : 0 <= msg_start m <= buf_sz m -> Z.of_nat (length (avail m)) = buf_sz m - msg_start m.
Proof. unfold avail, buf_sz. intros Hs. rewrite length_drop. lia. Qed.

(** One call to [advance], on a stream that has the bytes asked for *)
Record step_ok (fetch : Bool3) (can_read : bool) (sz : Z) (m : IMsgBuf) (s : sock) (a : advanced) (can' : bool) (m' : IMsgBuf) (s' : sock) : Prop := {
  a_start : msg_start m' = msg_start m;
  a_len : msg_len m' = msg_len m;
  a_room : room m' s';
  a_data : avail m' ++ s'.1 = avail m ++ s.1;
  a_ready : a = Ready -> sz <= Z.of_nat (length (avail m'));
  a_eof : a <> Eof;
  a_read : (can' = can_read /\ s' = s /\ m' = m /\ (a = Waiting -> can_read = false)) \/ (remains s' < remains s)%nat;
  a_tight : fetch <> Yes -> Z.of_nat (length (avail m)) <= sz -> Z.of_nat (length (avail m')) <= sz
}.

Lemma advance_ok fetch can_read sz m s : room m s -> 0 <= sz <= Z.of_nat (length (avail m ++ s.1)) ->
  exists a can' m' s', advance sock_read fetch can_read sz m s = Ret (a, can', m', s') /\ step_ok fetch can_read sz m s a can' m' s'.
Proof.
  intros [Hs Hr] Hsz. pose proof (avail_length m Hs) as Ha. rewrite length_app in Hsz. unfold advance, u32. unfold ChunkSz in Hr.
  assert (0 <= buf_sz m) by (unfold buf_sz; lia). rewrite (uwrap_small 32 (msg_start m + sz)) by lia. cbv zeta.
  destruct (Z.leb_spec (msg_start m + sz) (buf_sz m)).
  { exists Ready, can_read, m, s. split; [done|]. split; first [done|split; [done|unfold ChunkSz; lia]|left; done|intros; lia]. }
  destruct can_read; cbn [negb].
  2: { exists Waiting, false, m, s. split; [done|]. split; first [done|split; [done|unfold ChunkSz; lia]|left; done|intros; lia]. }
  set (extra := match fetch with Yes => ChunkSz | _ => 0 end). assert (0 <= extra <= 4096) by (subst extra; unfold ChunkSz; destruct fetch; lia).
  rewrite (uwrap_small 32 (msg_start m + sz + extra)) by lia. rewrite (uwrap_small 32) by lia. set (cnt := msg_start m + sz + extra - buf_sz m).
  assert (forall n sched, (0 < n <= Z.to_nat cnt)%nat -> (length sched <= length s.2)%nat ->
    let f := match take n s.1 with [] => (Closed, (s.1, sched)) | b => (Got b, (drop n s.1, sched)) end in
    exists a can' m' s', match f with
      | (Got b, f) => let m := mk_i (buf m ++ b) (msg_start m) (msg_len m) in
                      Ret (if msg_start m + sz <=? buf_sz m then Ready else Waiting, false, m, f)
      | (Retry, f) => Ret (Waiting, true, m, f) | (Closed, f) => Ret (Eof, true, m, f) | (Failed e, f) => Throw e
      end = Ret (a, can', m', s') /\ step_ok fetch true sz m s a can' m' s') as Hgive.
  { intros n sched Hn Hsched f. subst f. destruct (take n s.1) as [|c b] eqn:Et.
    { exfalso. apply (f_equal length) in Et. rewrite length_take in Et. simpl in Et. lia. }
    rewrite <- Et in *. pose proof (f_equal length Et) as Hlen. rewrite length_take in Hlen. simpl in Hlen.
    eexists _, _, _, _. split; [done|]. assert (avail (mk_i (buf m ++ take n s.1) (msg_start m) (msg_len m)) = avail m ++ take n s.1) as Eav.
    { unfold avail, buf_sz in *. cbn [buf msg_start]. by rewrite drop_app_le by lia. }
    split; cbn [msg_start msg_len fst]; rewrite ?Eav; try done.
    - unfold room, buf_sz in *. cbn [buf msg_start fst]. rewrite length_app, length_take, length_drop. unfold ChunkSz. lia.
    - rewrite <- app_assoc. simpl. by rewrite take_drop.
    - unfold buf_sz in *. cbn [buf]. rewrite !length_app in *. intros Ha'. destruct (Z.leb_spec (msg_start m + sz) (Z.of_nat (length (buf m) + length (take n s.1)))); [lia|done].
    - by destruct (_ <=? _).
    - right. unfold remains. simpl. rewrite length_drop. lia.
    - intros Hf Ht. rewrite length_app, length_take. assert (extra = 0) by (subst extra; by destruct fetch). lia. }
  unfold sock_read. destruct (s.2) as [|[n|] sched] eqn:Es.
  - apply Hgive; [lia|simpl; lia].
  - apply Hgive; [lia|simpl; lia].
  - eexists _, _, _, _. split; [done|]. split; first [done|split; [done|unfold ChunkSz; simpl; lia]|right; unfold remains; rewrite Es; simpl; lia].
Qed.

Lemma app_cut {A} (a r x b : list A) : a ++ r = x ++ b -> (length x <= length a)%nat -> take (length x) a = x /\ drop (length x) a ++ r = b.
Proof.
  intros E Hl. assert (take (length x) (a ++ r) = x) as Et by (rewrite E; apply take_app_length). rewrite take_app_le in Et by done. split; [done|].
  rewrite <- (take_drop (length x) a), Et, <- app_assoc in E. by apply app_inv_head in E.
Qed.

Lemma sub_avail m sz : sub m sz = take (Z.to_nat sz) (avail m).
Proof. done. Qed.

Lemma avail_move b start n len len' : 0 <= start -> 0 <= n -> avail (mk_i b (start + n) len') = drop (Z.to_nat n) (avail (mk_i b start len)).
Proof. intros Hs Hn. unfold avail. cbn [buf msg_start]. rewrite drop_drop. f_equal. lia. Qed.

Lemma framed_cons p ps : framed (p :: ps) = encode_int 4 (Z.of_nat (length p)) ++ p ++ framed ps.
Proof. unfold framed. cbn [map concat]. by rewrite <- app_assoc. Qed.

(** The bytes needed before the next progress *)
Definition head_sz (key : Z) : Z := (if key =? 0 then 0 else sizeof_Key) + sizeof_Len.
Definition tight (key : Z) (m : IMsgBuf) : Prop := Z.of_nat (length (avail m)) <= (if msg_len m =? 0 then head_sz key else msg_len m).

Lemma header_ok key m s p ps : room m s -> 0 <= key < 2 ^ 64 -> p <> [] -> avail m ++ s.1 = key_bytes key ++ framed (p :: ps) -> head_sz key <= Z.of_nat (length (avail m)) ->
  exists m', header key m = Ret (Some m') /\ room m' s /\ msg_len m' = Z.of_nat (length p) /\ avail m' ++ s.1 = p ++ framed ps /\
    Z.of_nat (length (avail m')) = Z.of_nat (length (avail m)) - head_sz key.
Proof.
  intros [Hs Hr] Hk Hp E Hh. pose proof (avail_length m Hs) as Hal. unfold ChunkSz, head_sz, sizeof_Key, sizeof_Len in *.
  set (kl := Z.of_nat (length (key_bytes key))). assert (kl = if key =? 0 then 0 else 8) as Ekl by (subst kl; unfold key_bytes; by destruct (key =? 0); [|rewrite encode_length]).
  assert (Z.of_nat (length p) < 2 ^ 32) as Hpl.
  { apply (f_equal length) in E. rewrite !length_app, framed_cons, !length_app in E. unfold buf_sz in *. lia. }
  destruct (app_cut _ _ _ _ E) as [E1 E2]; [lia|]. rewrite framed_cons in E2.
  destruct (app_cut _ _ _ _ E2) as [E3 E4]; [rewrite length_drop, encode_length; lia|]. rewrite encode_length in E3, E4.
  set (m1 := mk_i (buf m) (msg_start m + kl) (msg_len m)).
  assert (avail m1 = drop (length (key_bytes key)) (avail m)) as Em1 by (subst m1 kl; destruct m; cbn [buf msg_start msg_len] in *; rewrite (avail_move _ _ _ msg_len0) by lia; by rewrite Nat2Z.id).
  assert (header key m = Ret (Some (mk_i (buf m) (u32 (msg_start m1 + 4)) (Z.of_nat (length p))))) as Eh.
  { unfold header. rewrite sub_avail. assert (negb (key =? 0) && negb (decode_int (take (Z.to_nat sizeof_Key) (avail m)) =? key) = false) as ->.
    { unfold key_bytes in E1. destruct (Z.eqb_spec key 0) as [|Hk0]; [done|]. rewrite encode_length in E1. change (Z.to_nat sizeof_Key) with 8%nat. rewrite E1, decode_encode by done. by rewrite Z.eqb_refl. }
    assert ((if key =? 0 then m else mk_i (buf m) (u32 (msg_start m + sizeof_Key)) (msg_len m)) = m1) as ->.
    { subst m1. unfold sizeof_Key, u32. rewrite Ekl. destruct (key =? 0); [rewrite Z.add_0_r; by destruct m|]. rewrite uwrap_small by lia. done. }
    cbv zeta. change (Z.to_nat sizeof_Len) with 4%nat. rewrite sub_avail, Em1. change (Z.to_nat sizeof_Len) with 4%nat. rewrite E3, decode_encode by lia. rewrite swear_bind; [done|]. apply negb_true_iff, Z.eqb_neq. destruct p; [done|]. simpl length. lia. }
  eexists. split; [exact Eh|]. unfold u32. subst m1. cbn [msg_start]. rewrite uwrap_small by lia.
  assert (avail (mk_i (buf m) (msg_start m + kl + 4) (Z.of_nat (length p))) = drop 4 (drop (length (key_bytes key)) (avail m))) as Eav.
  { rewrite <- Em1. by rewrite (avail_move _ _ _ (msg_len m)) by lia. }
  rewrite Eav. unfold room, buf_sz, ChunkSz in *. cbn [msg_start msg_len buf]. rewrite ?length_drop.
  destruct (key =? 0); split_and!; (done || lia).
Qed.

Section messages.
Context (T : ty) (dflt : val T).
(** [p] is the message [x] on the wire *)
Definition carries (x : val T) (p : bytes) : Prop := fits T x /\ ser T x = Ret p /\ p <> [].

Lemma message_ok m s x p ps : room m s -> carries x p -> msg_len m = Z.of_nat (length p) -> avail m ++ s.1 = p ++ framed ps ->
  msg_len m <= Z.of_nat (length (avail m)) ->
  exists m', message T m = Ret (x, m') /\ room m' s /\ msg_len m' = 0 /\ avail m' ++ s.1 = framed ps /\
    Z.of_nat (length (avail m')) = Z.of_nat (length (avail m)) - msg_len m.
Proof.
  intros [Hs Hr] (Hf & Es & Hne) Hlen E Hl. pose proof (avail_length m Hs) as Hal. unfold ChunkSz in Hr.
  destruct (app_cut _ _ _ _ E) as [E1 E2]; [lia|]. destruct (serdes_fits T x Hf) as (b & Eb & [Hrd _]). rewrite Es in Eb. injection Eb as <-.
  specialize (Hrd []). rewrite app_nil_r in Hrd. unfold message. rewrite sub_avail, Hlen, Nat2Z.id, E1, Hrd. cbn [mbind outcome_mbind]. rewrite bool_decide_eq_true_2 by done.
  unfold u32. rewrite uwrap_small by lia. cbn [swear]. cbv zeta. eexists. split; [done|].
  assert (forall l, avail (mk_i (buf m) (msg_start m + Z.of_nat (length p)) l) = drop (length p) (avail m)) as Eav.
  { intros l. destruct m. cbn [buf msg_start] in *. rewrite (avail_move _ _ _ msg_len0) by lia. by rewrite Nat2Z.id. }
  assert (Z.of_nat (length (drop (length p) (avail m))) = Z.of_nat (length (avail m)) - Z.of_nat (length p)) by (rewrite length_drop; lia).
  unfold room, ChunkSz. destruct (_ <=? _); cbn [msg_len].
  - assert (avail (mk_i (drop (Z.to_nat (msg_start m + Z.of_nat (length p))) (buf m)) 0 0) = drop (length p) (avail m)) as -> by (rewrite <- (Eav 0); done).
    unfold buf_sz in *. cbn [msg_start buf]. rewrite length_drop. split_and!; (done || lia).
  - rewrite Eav. unfold buf_sz in *. cbn [msg_start buf]. split_and!; (done || lia).
Qed.

(** What a step gives, from a state in which [p] is the next message: the message, or progress *)
Definition progress (fetch : Bool3) (x : val T) (p : bytes) (ps : list bytes) (was_tight : Prop) (left : nat) (r : option (val T)) (key : Z) (m : IMsgBuf) (s : sock) : Prop :=
  room m s /\ 0 <= key < 2 ^ 64 /\
  match r with
  | Some y => y = x /\ key = 0 /\ msg_len m = 0 /\ pending 0 m s ps /\ (remains s <= left)%nat /\ (fetch <> Yes -> was_tight -> avail m = [])
  | None => pending key m s (p :: ps) /\ (remains s < left)%nat /\ (fetch <> Yes -> was_tight -> tight key m)
  end.

Lemma data_ok fetch can_read m s x p ps left : room m s -> carries x p -> msg_len m = Z.of_nat (length p) -> avail m ++ s.1 = p ++ framed ps ->
  (can_read = false -> (remains s < left)%nat) -> (remains s <= left)%nat ->
  exists r m' s', data T dflt sock_read fetch can_read m s = Ret (r, m', s') /\ progress fetch x p ps (tight 0 m) left r 0 m' s'.
Proof.
  intros Hr Hc Hlen E Hcan Hleft. pose proof Hc as (_ & _ & Hne). assert (msg_len m <> 0) as Hnz by (destruct p; [done|]; simpl length in Hlen; lia).
  destruct (advance_ok fetch can_read (msg_len m) m s Hr) as (a & can' & m' & s' & Ea & Hst); [rewrite E, length_app; lia|].
  unfold data. rewrite Ea. cbn [mbind outcome_mbind]. destruct Hst as [_ Hl Hroom Hd Hready Heof Hrd Htight]. rewrite E in Hd. unfold progress, tight.
  rewrite (proj2 (Z.eqb_neq (msg_len m) 0)) by done. destruct a; [| |done].
  - destruct (message_ok m' s' x p ps Hroom Hc) as (m2 & E2 & Hr2 & Hl2 & Hd2 & Hs2); [congruence|done|rewrite Hl; by apply Hready|].
    rewrite E2. cbn [mbind outcome_mbind]. eexists (Some x), m2, s'. split; [done|]. split_and!; try done. 
    + unfold pending. by rewrite Hl2.
    + destruct Hrd as [(_ & -> & _)|]; lia.
    + intros Hf Ht. specialize (Htight Hf Ht). apply length_zero_iff_nil. lia.
  - eexists None, m', s'. split; [done|]. rewrite Hl, (proj2 (Z.eqb_neq (msg_len m) 0)) by done. split_and!; try done.
    + unfold pending. rewrite Hl, (proj2 (Z.eqb_neq (msg_len m) 0)) by done. split; [done|]. exists p, ps. by rewrite Hlen.
    + destruct Hrd as [(-> & -> & _ & Hw)|]; [apply Hcan, Hw; done|lia].
Qed.

Lemma head_sz_length key : head_sz key = Z.of_nat (length (key_bytes key)) + 4.
Proof. unfold head_sz, key_bytes, sizeof_Key, sizeof_Len. destruct (key =? 0); [done|]. by rewrite encode_length. Qed.

(** From a state in which [p] is the next message, with a step that may read *)
Lemma receive_step_ok fetch key m s x p ps : fetch <> No -> room m s -> 0 <= key < 2 ^ 64 -> carries x p -> pending key m s (p :: ps) ->
  exists r key' m' s', receive_step T dflt sock_read fetch key m s = Ret (r, key', m', s') /\ progress fetch x p ps (tight key m) (remains s) r key' m' s'.
Proof.
  intros Hf Hr Hk Hc Hp. pose proof Hc as (_ & _ & Hne). unfold receive_step. set (can := match fetch with No => false | _ => true end).
  assert (can = true) as -> by (by destruct fetch). unfold pending in Hp. destruct (Z.eqb_spec (msg_len m) 0) as [H0|H0].
  2: { destruct Hp as (-> & p' & ps' & Eps & Hlen & E). injection Eps as <- <-. rewrite swear_bind by done.
       destruct (data_ok fetch true m s x p ps (remains s) Hr Hc Hlen E) as (r & m' & s' & Ed & Hg); [done|lia|].
       rewrite Ed. by exists r, 0, m', s'. }
  destruct (advance_ok fetch true (head_sz key) m s Hr) as (a & can' & m' & s' & Ea & Hst).
  { rewrite Hp, head_sz_length, framed_cons, !length_app, encode_length. lia. }
  unfold head_sz in Ea at 1. rewrite Ea. cbn [mbind outcome_mbind]. destruct Hst as [_ Hl Hroom Hd Hready Heof Hrd Htight]. rewrite Hp in Hd. destruct a; [| |done].
  - destruct (header_ok key m' s' p ps Hroom Hk Hne Hd) as (m2 & E2 & Hr2 & Hl2 & Hd2 & Hs2); [by apply Hready|].
    rewrite E2. cbn [mbind outcome_mbind]. destruct (data_ok fetch can' m2 s' x p ps (remains s) Hr2 Hc Hl2 Hd2) as (r & m3 & s3 & E3 & Hg).
    + intros ->. destruct Hrd as [(? & _)|]; done.
    + destruct Hrd as [(_ & -> & _)|]; lia.
    + cbn [mbind outcome_mbind]. rewrite E3. exists r, 0, m3, s3. split; [done|].
      assert (fetch <> Yes -> tight key m -> tight 0 m2) as Ht.
      { unfold tight at 1. rewrite H0. intros Hy Ht. specialize (Htight Hy Ht). unfold tight. destruct (msg_len m2 =? 0); [change (head_sz 0) with 4|]; lia. }
      revert Hg. unfold progress. destruct r; naive_solver.
  - exists None, key, m', s'. split; [done|]. unfold progress, pending, tight. rewrite Hl, H0. simpl Z.eqb. cbv iota. split_and!; try (done || lia).
    destruct Hrd as [(_ & _ & _ & Hw)|]; [by discriminate Hw|done].
Qed.

Lemma receive_ok once fuel : forall key m s x p ps, room m s -> 0 <= key < 2 ^ 64 -> carries x p -> pending key m s (p :: ps) -> (remains s < fuel)%nat ->
  exists m' s', receive T dflt sock_read fuel once key m s = Ret (x, 0, m', s') /\
    room m' s' /\ msg_len m' = 0 /\ pending 0 m' s' ps /\ (remains s' <= remains s)%nat /\ (once = Yes -> tight key m -> avail m' = []).
Proof.
  induction fuel as [|fuel IH]; intros key m s x p ps Hr Hk Hc Hp Hfuel; [lia|].
  destruct (receive_step_ok (fetch_of once m) key m s x p ps) as (r & key' & m' & s' & E & Hg); [by destruct once; simpl; try destruct (_ =? 0)|done..|].
  cbn [receive]. rewrite E. cbn [mbind outcome_mbind]. destruct Hg as (Hr' & Hk' & Hg). destruct r as [y|].
  - destruct Hg as (-> & -> & Hl & Hpd & Hrem & Ht). exists m', s'. split_and!; try done. intros -> Htg. by apply Ht.
  - destruct Hg as (Hpd & Hrem & Ht). destruct (IH key' m' s' x p ps) as (m2 & s2 & E2 & Hr2 & Hl2 & Hp2 & Hrem2 & Ht2); [done..|lia|].
    exists m2, s2. split_and!; try (done || lia). intros -> Htg. apply Ht2; [done|]. by apply Ht.
Qed.

(** *** A conversation: messages are added, sent together, and received one by one *)

Fixpoint add_all (xs : list (val T)) (o : OMsgBuf) : outcome OMsgBuf :=
  match xs with [] => Ret o | x :: xs => o ← add T x o; add_all xs o end.
Fixpoint receive_all (fuel : nat) (once : Bool3) (xs : list (val T)) (key : Z) (m : IMsgBuf) (s : sock) : outcome (list (val T) * IMsgBuf * sock) :=
  match xs with
  | [] => Ret ([], m, s)
  | _ :: xs =>
    '(x, key, m, s) ← receive T dflt sock_read fuel once key m s;
    '(xs, m, s) ← receive_all fuel once xs key m s;
    Ret (x :: xs, m, s)
  end.

Lemma add_all_ok xs ps : Forall2 carries xs ps -> forall o, Z.of_nat (length (framed ps)) < 2 ^ 32 ->
  add_all xs o = Ret (mk_o (o_buf o ++ framed ps) (o_pos o)).
Proof.
  induction 1 as [|x p xs ps (Hf & Es & Hne) _ IH]; intros o Hl; [rewrite app_nil_r; by destruct o|].
  rewrite framed_cons, !length_app, encode_length in Hl. cbn [add_all]. unfold add, add_serialized. rewrite Es. cbn [mbind outcome_mbind].
  unfold u32. rewrite uwrap_small by lia. rewrite Z.eqb_refl. cbn [swear mbind outcome_mbind]. rewrite IH by lia. cbn [o_buf o_pos]. rewrite framed_cons, <- !app_assoc. done.
Qed.

Lemma receive_all_ok once fuel xs ps qs : Forall2 carries xs ps -> forall key m s, room m s -> 0 <= key < 2 ^ 64 -> (xs = [] -> key = 0) -> msg_len m = 0 ->
  pending key m s (ps ++ qs) -> (remains s < fuel)%nat ->
  exists m' s', receive_all fuel once xs key m s = Ret (xs, m', s') /\ avail m' ++ s'.1 = framed qs /\ (once = Yes -> avail m = [] -> avail m' = []).
Proof.
  induction 1 as [|x p xs ps Hc _ IH]; intros key m s Hr Hk Hkey Hl Hp Hfuel.
  { exists m, s. unfold pending in Hp. rewrite Hl, (Hkey eq_refl) in Hp. done. }
  destruct (receive_ok once fuel key m s x p (ps ++ qs) Hr Hk Hc Hp Hfuel) as (m1 & s1 & E1 & Hr1 & Hl1 & Hp1 & Hrem & Ht1).
  destruct (IH 0 m1 s1) as (m2 & s2 & E2 & Hd & Ht2); [done|lia|done..|lia|].
  exists m2, s2. cbn [receive_all]. rewrite E1. cbn [mbind outcome_mbind]. rewrite E2. split_and!; try done.
  intros Ho Ha. apply Ht2; [done|]. apply Ht1; [done|]. unfold tight. rewrite Hl, Ha, head_sz_length. simpl. lia.
Qed.

(** All the buffer is written at once *)
Definition whole (b : bytes) : Z := Z.of_nat (length b).
Lemma send_whole key fr : 0 <= key < 2 ^ 64 -> fr <> [] -> Z.of_nat (length fr) + 8 < 2 ^ 32 ->
  send [whole] key (mk_o (o_buf o_new ++ fr) 0) = Ret (key_bytes key ++ fr).
Proof.
  intros Hk Hne Hl. assert (0 < Z.of_nat (length fr)) by (destruct fr; [done|]; simpl; lia). unfold send, send_step, key_bytes, whole, u32.
  destruct (Z.eqb_spec key 0) as [->|Hk0]; cbn [mbind outcome_mbind o_pos o_buf o_new Z.eqb swear].
  - change (drop (Z.to_nat sizeof_Key) (replicate (Z.to_nat sizeof_Key) Ascii.zero ++ fr)) with fr. rewrite throw_unless_bind by lia.
    rewrite uwrap_small, length_app, length_replicate by (unfold sizeof_Key; lia). unfold sizeof_Key. rewrite (proj2 (Z.eqb_eq _ _)) by lia.
    by rewrite Nat2Z.id, firstn_all.
  - change (drop (Z.to_nat sizeof_Key) (replicate (Z.to_nat sizeof_Key) Ascii.zero ++ fr)) with fr. rewrite drop_0, length_app, encode_length, Nat2Z.inj_add. change (Z.to_nat sizeof_Key) with 8%nat.
    rewrite throw_unless_bind by (apply Z.ltb_lt; lia). rewrite uwrap_small by lia. rewrite (proj2 (Z.eqb_eq _ _)) by lia. rewrite take_ge; [done|]. rewrite length_app, encode_length. lia.
Qed.
End messages.

(** C16 Messages that are added to an output buffer and written by a single call to [write], for all types of messages
    and all values whose serialisation is not empty, less than 2^32 bytes in all, whether or not the connection starts with a key, are received
    as they were, in order, by a peer that reads the stream in pieces of any size: for every schedule of short and
    interrupted reads, and for the three reading modes, as many calls to [receive] as messages return exactly
    these messages, within a number of steps bounded by what there is to read. What was sent after them is still to
    be received; a peer that asks to read a single message has left all of it in the stream. Both conditions are
    needed: [partial_send_restarts] and [empty_message_stops] below. *)
Theorem msg_received T dflt once key xs ys ps qs sched :
  Forall2 (carries T) xs ps -> Forall2 (carries T) ys qs -> xs <> [] -> 0 <= key < 2 ^ 64 ->
  Z.of_nat (length (framed (ps ++ qs))) + ChunkSz + 32 < 2 ^ 32 ->
  exists o w m s, add_all T (xs ++ ys) o_new = Ret o /\ send [whole] key o = Ret w /\
    receive_all T dflt (S (length w + length sched)) once xs key i_new (w, sched) = Ret (xs, m, s) /\
    avail m ++ s.1 = framed qs /\ (once = Yes -> s.1 = framed qs).
Proof.
  intros Hx Hy Hne Hk Hl. unfold ChunkSz in Hl. assert (framed (ps ++ qs) <> []) as Hfr.
  { destruct Hx as [|x p xs ps]; [done|]. intros E%(f_equal length). cbn [app] in E. rewrite framed_cons, length_app, encode_length in E. simpl in E. lia. }
  pose proof (add_all_ok T (xs ++ ys) (ps ++ qs) (Forall2_app Hx Hy) o_new ltac:(lia)) as Ea.
  assert (length (key_bytes key) <= 8)%nat as Hkl by (unfold key_bytes; destruct (key =? 0); [simpl; lia|by rewrite encode_length]).
  destruct (receive_all_ok T dflt once (S (length (key_bytes key ++ framed (ps ++ qs)) + length sched)) xs ps qs Hx key i_new (key_bytes key ++ framed (ps ++ qs), sched)) as (m & s & Er & Hd & Ht).
  { unfold room, buf_sz, ChunkSz. simpl. rewrite length_app. lia. }
  1-5: try done. { unfold remains. simpl. lia. }
  eexists _, _, m, s. split; [exact Ea|]. split; [by apply send_whole; [| |lia]|]. split; [exact Er|]. split; [done|].
  intros Ho. rewrite (Ht Ho eq_refl) in Hd. done.
Qed.

Definition sample_msg : ty := TPair (TInt 1) TStr.
Local Abbreviation c := Ascii.ascii_of_nat.
Lemma msg_received_witness : exists o w m s, add_all sample_msg ([(7, [c 97; c 98])] ++ [(8, [])]) o_new = Ret o /\ send [whole] 258 o = Ret w /\
  receive_all sample_msg (0, []) (S (length w + length [Some 2%nat; None])) Yes [(7, [c 97; c 98])] 258 i_new (w, [Some 2%nat; None]) = Ret ([(7, [c 97; c 98])], m, s) /\
  avail m ++ s.1 = framed [[c 8; c 0; c 0; c 0; c 0]] /\ (Yes = Yes -> s.1 = framed [[c 8; c 0; c 0; c 0; c 0]]).
Proof.
  apply (msg_received sample_msg (0, []) Yes 258 [(7, [c 97; c 98])] [(8, [])] [[c 7; c 2; c 0; c 0; c 0; c 97; c 98]] [[c 8; c 0; c 0; c 0; c 0]] [Some 2%nat; None]).
  - repeat constructor; unfold small; simpl; (done || lia).
  - repeat constructor; unfold small; simpl; (done || lia).
  - done.
  - lia.
  - vm_compute. done.
Defined.

(** ** Partial writes

    Without a key, [send_step] starts again from the first message each time it is called: a message that is not
    written by a single call never is, and what is written is its start, again and again. *)
Lemma partial_send_restarts n ws o : Forall (fun w => forall b, w b <= n) ws -> 0 <= n -> 8 + n < Z.of_nat (length (o_buf o)) < 2 ^ 32 ->
  forall b, send ws 0 o <> Ret b.
Proof.
  intros Hws Hn. revert o. induction Hws as [|w ws Hw _ IH]; intros o Ho b; [done|]. cbn [send]. unfold send_step. cbn [Z.eqb mbind outcome_mbind o_pos o_buf].
  set (todo := drop _ _). specialize (Hw todo). destruct (Z.ltb_spec 0 (w todo)); cbn [throw_unless mbind outcome_mbind]; [|done].
  unfold u32, sizeof_Key. rewrite uwrap_small by lia. rewrite (proj2 (Z.eqb_neq _ _)) by lia.
  destruct (send ws 0 _) as [r| |] eqn:E; [|done..]. by apply IH in E.
Qed.

(** A message with no data stops its receiver *)
Lemma empty_message_stops dflt : exists o w, add TEmpty tt o_new = Ret o /\ send [whole] 0 o = Ret w /\
  receive TEmpty dflt sock_read 1 No 0 i_new (w, []) = Crash.
Proof. eexists _, _. split_and!; reflexivity. Qed.
End Msg.
