(* ===== verification/Text.v ===== *)
(** * Text forms: printable strings, lists and maps of src/utils.hh and src/utils.cc, quoting for shells and Python

    A position in a text is represented by what follows it. *)
From S2P Require Import Prelude.
From S2P Require Import Serdes.
From Stdlib Require Import Ascii.
Local Open Scope Z_scope.

Module Text.

Definition chr (n : N) : ascii := ascii_of_N n.
Definition backslash : ascii := chr 92.
Definition quote : ascii := chr 39.
Definition dquote : ascii := chr 34.

(** ** Strings *)

Definition is_printable (c : ascii) : bool := ((0x20 <=? N_of_ascii c) && (N_of_ascii c <=? 0x7e))%N.
Definition between (a c b : ascii) : bool := ((N_of_ascii a <=? N_of_ascii c) && (N_of_ascii c <=? N_of_ascii b))%N.
Definition _can_be_delimiter (c : ascii) : bool :=
  negb (Ascii.eqb c backslash) && negb (between "a" c "z") && negb (between "0" c "9").

Definition esc (c : ascii) : option ascii :=
  match N_of_ascii c with
  | 0%N => Some "0"%char
  | 7%N => Some "a"%char
  | 8%N => Some "b"%char
  | 0x1b%N => Some "e"%char
  | 12%N => Some "f"%char
  | 10%N => Some "n"%char
  | 13%N => Some "r"%char
  | 9%N => Some "t"%char
  | 11%N => Some "v"%char
  | 92%N => Some backslash
  | _ => None
  end.
Definition hex_digit (d : N) : ascii := if (10 <=? d)%N then chr (97 + d - 10) else chr (48 + d).
Definition mk_char (delim c : ascii) : bytes :=
  match esc c with
  | Some e => [backslash; e]
  | None =>
    if is_printable c && negb (Ascii.eqb c delim) then [c]
    else [backslash; "x"%char; hex_digit (N_of_ascii c / 16); hex_digit (N_of_ascii c mod 16)]
  end.
Fixpoint mk_printable (delim : ascii) (s : bytes) : bytes :=
  match s with [] => [] | c :: s => mk_char delim c ++ mk_printable delim s end.

(** The overload for a temporary; [delim] is not passed on *)
Definition mk_printable_move (delim : ascii) (txt : bytes) : bytes :=
  if existsb (fun c => negb (is_printable c) || (negb (Ascii.eqb delim zero) && Ascii.eqb c delim)) txt then mk_printable zero txt
  else txt.

Definition unesc (e : ascii) : option ascii :=
  match N_of_ascii e with
  | 48%N => Some zero
  | 97%N => Some (chr 7)
  | 98%N => Some (chr 8)
  | 101%N => Some (chr 0x1b)
  | 102%N => Some (chr 12)
  | 110%N => Some (chr 10)
  | 114%N => Some (chr 13)
  | 116%N => Some (chr 9)
  | 118%N => Some (chr 11)
  | 92%N => Some backslash
  | _ => None
  end.
Definition illegal (msg : string) (d : ascii) : string := String.append msg (String d EmptyString).
Definition hex_val (d : ascii) : outcome N :=
  if between "0" d "9" then Ret (N_of_ascii d - 48)%N
  else if between "a" d "f" then Ret (10 + N_of_ascii d - 97)%N
  else Throw (illegal "illegal \x hex digit " d).
Definition push (c : ascii) (r : outcome (bytes * bytes)) : outcome (bytes * bytes) := '(res, rest) ← r; Ret (c :: res, rest).
Fixpoint parse_printable (delim : ascii) (x : bytes) : outcome (bytes * bytes) :=
  match x with
  | [] => Ret ([], [])
  | c :: x' =>
    if Ascii.eqb c zero then Ret ([], x)
    else if Ascii.eqb c delim then Ret ([], x)
    else if negb (is_printable c) then Ret ([], x)
    else if negb (Ascii.eqb c backslash) then push c (parse_printable delim x')
    else
      match x' with
      | [] => Throw "\ at end of string"
      | e :: x' =>
        match unesc e with
        | Some c => push c (parse_printable delim x')
        | None =>
          if Ascii.eqb e "x" then
            match x' with
            | d1 :: d2 :: x' => h1 ← hex_val d1; h2 ← hex_val d2; push (chr (16 * h1 + h2)) (parse_printable delim x')
            | _ => Throw "\x near end of string"
            end
          else Throw (illegal "illegal \" e)
        end
      end
  end.

(** ** Lists and maps *)

(** [txt[pos++]!=c] leads to [Fail] *)
Definition expect (c : ascii) (txt : bytes) : outcome bytes :=
  match txt with x :: txt => _ ← throw_unless (Ascii.eqb x c) "bad format"; Ret txt | [] => Throw "bad format" end.
Definition at_char (c : ascii) (txt : bytes) : bool := match txt with x :: _ => Ascii.eqb x c | [] => false end.

(** The elements that are kept, with commas between them *)
Fixpoint mk_elems {A} (keep : A -> bool) (pr : A -> bytes) (first : bool) (l : list A) : bytes :=
  match l with
  | [] => []
  | x :: l => if keep x then (if first then [] else [","%char]) ++ pr x ++ mk_elems keep pr false l else mk_elems keep pr first l
  end.
Fixpoint parse_elems {A} (fuel : nat) (close : ascii) (keep : A -> bool) (elem : bytes -> outcome (A * bytes)) (first : bool) (txt : bytes) : outcome (list A * bytes) :=
  match fuel with
  | O => Crash
  | S fuel =>
    if at_char close txt then txt ← expect close txt; Ret ([], txt)
    else
      txt ← (if first then Ret txt else expect "," txt);
      '(x, txt) ← elem txt;
      '(l, txt) ← parse_elems fuel close keep elem false txt;
      Ret (if keep x then x :: l else l, txt)
  end.

Definition nonempty {A} (l : list A) : bool := match l with [] => false | _ => true end.
Definition mk_quoted (s : bytes) : bytes := [dquote] ++ mk_printable dquote s ++ [dquote].
Definition parse_quoted (txt : bytes) : outcome (bytes * bytes) :=
  txt ← expect dquote txt;
  '(v, txt) ← parse_printable dquote txt;
  txt ← expect dquote txt;
  Ret (v, txt).

Definition mk_vec (v : list bytes) (empty_ok : bool) : bytes :=
  ["("%char] ++ mk_elems (fun _ => empty_ok || nonempty v) mk_quoted true v ++ [")"%char].
Definition parse_vec (txt : bytes) (empty_ok : bool) : outcome (list bytes * bytes) :=
  txt ← expect "(" txt;
  parse_elems (S (length txt)) ")" (fun v => empty_ok || nonempty v) parse_quoted true txt.

Definition entry {V} (pr : V -> bytes) (kv : bytes * V) : bytes := mk_quoted kv.1 ++ [":"%char] ++ pr kv.2.
Definition parse_entry {V} (elem : bytes -> outcome (V * bytes)) (txt : bytes) : outcome ((bytes * V) * bytes) :=
  '(k, txt) ← parse_quoted txt;
  txt ← expect ":" txt;
  '(v, txt) ← elem txt;
  Ret ((k, v), txt).

Definition mk_map (m : list (bytes * bytes)) (empty_ok : bool) : bytes :=
  ["{"%char] ++ mk_elems (fun kv => empty_ok || nonempty kv.2) (entry mk_quoted) true m ++ ["}"%char].
Definition parse_map (txt : bytes) (empty_ok : bool) : outcome (list (bytes * bytes) * bytes) :=
  txt ← expect "{" txt;
  parse_elems (S (length txt)) "}" (fun kv => empty_ok || nonempty kv.2) (parse_entry parse_quoted) true txt.

Definition mk_vmap (m : list (bytes * list bytes)) (empty_ok : bool) : bytes :=
  ["{"%char] ++ mk_elems (fun kv => empty_ok || nonempty kv.2) (entry (fun v => mk_vec v true)) true m ++ ["}"%char].
Definition parse_vmap (txt : bytes) (empty_ok : bool) : outcome (list (bytes * list bytes) * bytes) :=
  txt ← expect "{" txt;
  parse_elems (S (length txt)) "}" (fun kv => empty_ok || nonempty kv.2) (parse_entry (fun txt => parse_vec txt true)) true txt.

(** ** Round trips *)

Lemma ascii_all (P : ascii -> bool) : forallb P (map ascii_of_nat (seq 0 256)) = true -> forall c, P c = true.
Proof.
  intros H c. rewrite forallb_forall in H. apply H. rewrite <- (ascii_nat_embedding c). apply in_map, in_seq.
  pose proof (nat_ascii_bounded c). lia.
Qed.

(** What parsing a string stops at *)
Definition stops (delim : ascii) (rest : bytes) : Prop :=
  match rest with [] => True | c :: _ => c = zero \/ c = delim \/ is_printable c = false end.

Lemma esc_back c e : esc c = Some e -> unesc e = Some c /\ is_printable e = true.
Proof.
  intros E. pose proof (ascii_all (fun c => match esc c with Some e => match unesc e with Some c' => Ascii.eqb c' c | None => false end && is_printable e | None => true end) ltac:(vm_compute; reflexivity) c) as H.
  cbv beta in H. rewrite E in H. apply andb_true_iff in H as [H ?]. destruct (unesc e); [|done]. by apply Ascii.eqb_eq in H as ->.
Qed.

Lemma hex_char_back c : hex_val (hex_digit (N_of_ascii c / 16)) = Ret (N_of_ascii c / 16)%N /\ hex_val (hex_digit (N_of_ascii c mod 16)) = Ret (N_of_ascii c mod 16)%N.
Proof.
  pose (ok := fun d => match hex_val (hex_digit d) with Ret v => (v =? d)%N | _ => false end).
  assert (forall d, ok d = true -> hex_val (hex_digit d) = Ret d) as Hok.
  { intros d. subst ok. cbv beta. destruct (hex_val (hex_digit d)); [|done..]. intros E%N.eqb_eq. by subst. }
  pose proof (ascii_all (fun c => ok (N_of_ascii c / 16)%N && ok (N_of_ascii c mod 16)%N) ltac:(vm_compute; reflexivity) c) as H.
  cbv beta in H. apply andb_true_iff in H as [? ?]. split; by apply Hok.
Qed.

Lemma hex_printable d : (d < 16)%N -> is_printable (hex_digit d) = true /\ (between "a" (hex_digit d) "z" || between "0" (hex_digit d) "9") = true.
Proof.
  intros Hd. rewrite <- (N2Nat.id d). assert (N.to_nat d < 16)%nat as Hn by lia. revert Hn. generalize (N.to_nat d). intros n Hn.
  do 16 (destruct n as [|n]; [by split|]). lia.
Qed.

(** A character that is written is read back *)
Lemma parse_mk_char delim c x : _can_be_delimiter delim = true -> parse_printable delim (mk_char delim c ++ x) = push c (parse_printable delim x).
Proof.
  intros Hd. assert (Ascii.eqb backslash delim = false) as Hb.
  { unfold _can_be_delimiter in Hd. destruct (Ascii.eqb_spec backslash delim) as [<-|]; [done|done]. }
  unfold mk_char. destruct (esc c) as [e|] eqn:He.
  { destruct (esc_back c e He) as [Hu _]. cbn [app parse_printable]. rewrite Hb. simpl. by rewrite Hu. }
  destruct (is_printable c) eqn:Hp, (Ascii.eqb c delim) eqn:Hcd; cbn [andb negb app parse_printable].
  2: { assert (Ascii.eqb c zero = false) as -> by (by destruct (Ascii.eqb_spec c zero) as [->|]).
       assert (Ascii.eqb c backslash = false) as -> by (by destruct (Ascii.eqb_spec c backslash) as [->|]). by rewrite Hcd, Hp. }
  all: rewrite Hb; simpl; destruct (hex_char_back c) as [-> ->]; cbn [mbind outcome_mbind]; do 2 f_equal;
    unfold chr; rewrite <- (N.div_mod' (N_of_ascii c) 16); apply ascii_N_embedding.
Qed.

Lemma parse_stops delim rest : stops delim rest -> parse_printable delim rest = Ret ([], rest).
Proof.
  destruct rest as [|c rest]; [done|]. simpl. intros Hs. destruct (Ascii.eqb_spec c zero) as [|Hz]; [done|]. destruct (Ascii.eqb_spec c delim) as [|Hn]; [done|].
  destruct Hs as [ | [ | ->]]; done.
Qed.

Lemma parse_mk delim s rest : _can_be_delimiter delim = true -> stops delim rest -> parse_printable delim (mk_printable delim s ++ rest) = Ret (s, rest).
Proof.
  intros Hd Hs. induction s as [|c s IH]; [by apply parse_stops|]. cbn [mk_printable]. rewrite <- app_assoc, parse_mk_char, IH; done.
Qed.

(** Only printable characters are written, and never the delimiter *)
Definition plain (delim c : ascii) : Prop := is_printable c = true /\ c <> delim.
Lemma mk_char_plain delim c : _can_be_delimiter delim = true -> Forall (plain delim) (mk_char delim c).
Proof.
  intros Hd. unfold _can_be_delimiter in Hd. apply andb_true_iff in Hd as [[Hb Ha]%andb_true_iff H0]. rewrite negb_true_iff in Ha, H0, Hb. unfold plain.
  assert (forall x, between "a" x "z" || between "0" x "9" = true -> x <> delim) as Hal by (intros x Hx ->; rewrite Ha, H0 in Hx; done).
  assert (backslash <> delim) by (intros <-; done).
  unfold mk_char. destruct (esc c) as [e|] eqn:He.
  { pose proof (ascii_all (fun c => match esc c with Some e => Ascii.eqb e backslash || between "a" e "z" || between "0" e "9" | None => true end) ltac:(vm_compute; reflexivity) c) as H1.
    cbv beta in H1. rewrite He, <- orb_assoc in H1. destruct (esc_back c e He) as [_ Hp]. repeat constructor; try done.
    apply orb_true_iff in H1 as [->%Ascii.eqb_eq|]; [done|by apply Hal]. }
  destruct (is_printable c && negb (Ascii.eqb c delim)) eqn:E.
  { apply andb_true_iff in E as [? E2]. rewrite negb_true_iff in E2. repeat constructor; [done|]. by apply Ascii.eqb_neq. }
  pose proof (N_ascii_bounded c) as Hc.
  destruct (hex_printable (N_of_ascii c / 16)) as [Hp1 Hh1]; [apply N.Div0.div_lt_upper_bound; lia|]. destruct (hex_printable (N_of_ascii c mod 16)) as [Hp2 Hh2]; [apply N.mod_lt; lia|].
  repeat constructor; (done || by apply Hal).
Qed.
Lemma mk_printable_plain delim s : _can_be_delimiter delim = true -> Forall (plain delim) (mk_printable delim s).
Proof. intros Hd. induction s as [|c s IH]; [constructor|]. apply Forall_app. split; [by apply mk_char_plain|done]. Qed.

Lemma expect_hd c txt : expect c (c :: txt) = Ret txt.
Proof. unfold expect. by rewrite Ascii.eqb_refl. Qed.

(** What an element is printed as says where it ends *)
Definition reads_back {A} (elem : bytes -> outcome (A * bytes)) (pr : A -> bytes) : Prop :=
  forall x, (forall rest, elem (pr x ++ rest) = Ret (x, rest)) /\ exists r, pr x = dquote :: r.

Lemma quoted_back : reads_back parse_quoted mk_quoted.
Proof.
  intros s. split; [|by eexists]. intros rest. unfold parse_quoted, mk_quoted. rewrite <- !app_assoc. cbn [app]. rewrite expect_hd. cbn [mbind outcome_mbind].
  rewrite parse_mk; [|done|simpl; auto]. cbn [mbind outcome_mbind]. by rewrite expect_hd.
Qed.

Lemma elems_back {A} keep1 keep2 close (elem : bytes -> outcome (A * bytes)) pr : reads_back elem pr -> close <> dquote -> close <> ","%char ->
  forall l first rest fuel, (length (mk_elems keep1 pr first l) < fuel)%nat ->
  parse_elems fuel close keep2 elem first (mk_elems keep1 pr first l ++ close :: rest) = Ret (filter (fun x => keep2 x = true) (filter (fun x => keep1 x = true) l), rest).
Proof.
  intros Hb Hq Hc. induction l as [|x l IH]; intros first rest fuel Hf.
  { destruct fuel; [simpl in Hf; lia|]. cbn [mk_elems app parse_elems at_char]. by rewrite Ascii.eqb_refl, expect_hd. }
  cbn [mk_elems] in *. destruct (keep1 x) eqn:Hk; [|rewrite (filter_cons_False (fun x => keep1 x = true)) by congruence; by apply IH].
  rewrite filter_cons_True by done. destruct (Hb x) as [Hel [r Hr]]. rewrite !length_app in Hf. destruct fuel; [lia|]. cbn [parse_elems].
  set (more := mk_elems keep1 pr false l ++ close :: rest).
  assert (exists txt : bytes, ((if first then [] else [","%char]) ++ pr x ++ mk_elems keep1 pr false l) ++ close :: rest = txt /\ at_char close txt = false /\
    ((if first then Ret txt else expect "," txt) : outcome bytes) = Ret (pr x ++ more)) as (txt & -> & -> & ->).
  { eexists. split; [done|]. rewrite <- !app_assoc, Hr. destruct first; cbn [app at_char]; rewrite ?expect_hd; (split; [by apply Ascii.eqb_neq|done]). }
  cbn [mbind outcome_mbind]. rewrite Hel. cbn [mbind outcome_mbind]. subst more. rewrite IH by (rewrite Hr in Hf; simpl in Hf; lia). cbn [mbind outcome_mbind].
  by destruct (keep2 x) eqn:Hk2; [rewrite filter_cons_True by done|rewrite filter_cons_False by congruence].
Qed.

Lemma brackets_back {A} o close keep1 keep2 (elem : bytes -> outcome (A * bytes)) pr l rest : reads_back elem pr -> close <> dquote -> close <> ","%char ->
  (txt ← expect o (([o] ++ mk_elems keep1 pr true l ++ [close]) ++ rest); parse_elems (S (length txt)) close keep2 elem true txt) =
  Ret (filter (fun x => keep2 x = true) (filter (fun x => keep1 x = true) l), rest).
Proof.
  intros Hb Hq Hc. rewrite <- !app_assoc. cbn [app]. rewrite expect_hd. cbn [mbind outcome_mbind]. rewrite elems_back; try done. rewrite length_app. lia.
Qed.

Lemma entry_back {V} (elem : bytes -> outcome (V * bytes)) pr : (forall v rest, elem (pr v ++ rest) = Ret (v, rest)) -> reads_back (parse_entry elem) (entry pr).
Proof.
  intros Hb [k v]. unfold entry, parse_entry. cbn [fst snd]. destruct (quoted_back k) as [Hk [r Hr]]. split; [|rewrite Hr; by eexists].
  intros rest. rewrite <- !app_assoc, Hk. cbn [mbind outcome_mbind app]. rewrite expect_hd. cbn [mbind outcome_mbind]. by rewrite Hb.
Qed.

Lemma filter_all {A} (keep : A -> bool) l : Forall (fun x => keep x = true) l -> filter (fun x => keep x = true) l = l.
Proof. induction 1 as [|x l Hx _ IH]; [done|]. rewrite filter_cons_True by done. by rewrite IH. Qed.

(** The condition [empty_ok] has no effect when a list is printed *)
Lemma vec_back v empty_ok empty_ok' rest : parse_vec (mk_vec v empty_ok ++ rest) empty_ok' = Ret (filter (fun x => empty_ok' || nonempty x = true) v, rest).
Proof.
  unfold parse_vec, mk_vec. rewrite brackets_back; [|apply quoted_back|done..]. do 3 f_equal. apply filter_all.
  destruct v; [constructor|]. apply Forall_true. intros. apply orb_true_r.
Qed.

Lemma map_back m empty_ok empty_ok' rest : parse_map (mk_map m empty_ok ++ rest) empty_ok' =
  Ret (filter (fun kv => empty_ok && empty_ok' || nonempty kv.2 = true) m, rest).
Proof.
  unfold parse_map, mk_map. rewrite brackets_back; [|apply entry_back, quoted_back|done..]. do 2 f_equal. rewrite list_filter_filter. apply list_filter_iff.
  intros [k v]. cbn [snd]. destruct empty_ok, empty_ok', (nonempty v); naive_solver.
Qed.

Lemma vmap_back m empty_ok empty_ok' rest : parse_vmap (mk_vmap m empty_ok ++ rest) empty_ok' =
  Ret (filter (fun kv => empty_ok && empty_ok' || nonempty kv.2 = true) m, rest).
Proof.
  unfold parse_vmap, mk_vmap. rewrite brackets_back; [|apply entry_back|done..].
  - do 2 f_equal. rewrite list_filter_filter. apply list_filter_iff. intros [k v]. cbn [snd]. destruct empty_ok, empty_ok', (nonempty v); naive_solver.
  - intros v r. rewrite vec_back. do 2 f_equal. by apply filter_all, Forall_true.
Qed.

(** Nothing is lost when there is nothing empty *)
Lemma vec_back_all v rest : Forall (fun x => nonempty x = true) v -> parse_vec (mk_vec v false ++ rest) false = Ret (v, rest).
Proof. intros H. rewrite vec_back. do 2 f_equal. by apply filter_all. Qed.
Lemma map_back_all m rest : Forall (fun kv => nonempty kv.2 = true) m -> parse_map (mk_map m false ++ rest) false = Ret (m, rest).
Proof. intros H. rewrite map_back. do 2 f_equal. by apply filter_all. Qed.
Lemma vmap_back_all m rest : Forall (fun kv => nonempty kv.2 = true) m -> parse_vmap (mk_vmap m false ++ rest) false = Ret (m, rest).
Proof. intros H. rewrite vmap_back. do 2 f_equal. by apply filter_all. Qed.

(** ** Any text is either read or rejected *)

Definition shrinks {A} (strict : nat) (elem : bytes -> outcome (A * bytes)) : Prop :=
  forall txt, match elem txt with Ret (_, r) => (strict + length r <= length txt)%nat | Throw _ => True | Crash => False end.

Lemma push_shrinks c r n m : (n <= m)%nat ->
  match r with Ret (_, r) => (length r <= n)%nat | Throw _ => True | Crash => False end ->
  match push c r with Ret (_, r) => (length r <= m)%nat | Throw _ => True | Crash => False end.
Proof. intros Hn. destruct r as [[? r]| |]; simpl; [lia|done..]. Qed.

Lemma hex_val_ok d : (exists h, hex_val d = Ret h) \/ exists e, hex_val d = Throw e.
Proof. unfold hex_val. destruct (between "0" d "9"); [eauto|]. destruct (between "a" d "f"); eauto. Qed.

Lemma parse_shrinks delim : shrinks 0 (parse_printable delim).
Proof.
  intros txt. change (0 + ?a)%nat with a. remember (length txt) as n eqn:Hn. assert (length txt <= n)%nat as Hle by lia. clear Hn. revert txt Hle. induction (lt_wf n) as [n _ IH]. intros txt Hle.
  destruct txt as [|c txt]; [done|]. cbn [parse_printable length] in *. destruct (Ascii.eqb c zero); [simpl; lia|]. destruct (Ascii.eqb c delim); [simpl; lia|].
  destruct (negb (is_printable c)); [simpl; lia|]. destruct (negb (Ascii.eqb c backslash)).
  { apply (push_shrinks _ _ (length txt)); [lia|]. apply IH; lia. }
  destruct txt as [|e txt]; [done|]. cbn [length] in Hle. destruct (unesc e).
  { apply (push_shrinks _ _ (length txt)); [lia|]. apply IH; lia. }
  destruct (Ascii.eqb e "x"); [|done]. destruct txt as [|d1 [|d2 txt]]; [done..|]. cbn [length] in Hle.
  destruct (hex_val_ok d1) as [[h1 ->]|[? ->]], (hex_val_ok d2) as [[h2 ->]|[? ->]]; try done. cbn [mbind outcome_mbind].
  apply (push_shrinks _ _ (length txt)); [lia|]. apply IH; lia.
Qed.

Lemma expect_shrinks c txt : (exists r, expect c txt = Ret r /\ length txt = S (length r)) \/ exists e, expect c txt = Throw e.
Proof. destruct txt as [|x txt]; [by right; eexists|]. unfold expect. destruct (Ascii.eqb x c); [left; by eexists|right; by eexists]. Qed.

Lemma quoted_shrinks : shrinks 2 parse_quoted.
Proof.
  intros txt. unfold parse_quoted. destruct (expect_shrinks dquote txt) as [(r & -> & Hl)|[e ->]]; [|done]. cbn [mbind outcome_mbind].
  pose proof (parse_shrinks dquote r) as Hp. destruct (parse_printable dquote r) as [[v r1]| |]; [|done..]. cbn [mbind outcome_mbind].
  destruct (expect_shrinks dquote r1) as [(r2 & -> & Hl2)|[e ->]]; [|done]. simpl in *. lia.
Qed.

Lemma elems_shrinks {A} close keep (elem : bytes -> outcome (A * bytes)) first txt fuel : shrinks 2 elem -> (length txt < fuel)%nat ->
  match parse_elems fuel close keep elem first txt with Ret (_, r) => (length r <= length txt)%nat | Throw _ => True | Crash => False end.
Proof.
  intros Hs. revert txt first. induction fuel as [|fuel IH]; intros txt first Hf; [lia|]. cbn [parse_elems]. destruct (at_char close txt).
  { destruct (expect_shrinks close txt) as [(r & -> & Hl)|[e ->]]; [|done]. simpl. lia. }
  assert ((exists r, (if first then Ret txt else expect "," txt) = Ret r /\ (length r <= length txt)%nat) \/ exists e, (if first then Ret txt else expect "," txt) = Throw e) as Hc.
  { destruct first; [left; by eexists|]. destruct (expect_shrinks "," txt) as [(r & -> & Hl)|[e ->]]; [left; eexists; split; [done|lia]|right; by eexists]. }
  destruct Hc as [(r & Er & Hl)|[e Ee]]; [|by destruct first; [done|]; simpl in Ee; rewrite Ee].
  assert (forall k : bytes -> outcome (list A * bytes), ((if first then Ret txt else expect "," txt) ≫= k) = k r) as -> by (intros k; destruct first; simpl in Er; [by injection Er as ->|by rewrite Er]).
  pose proof (Hs r) as He. destruct (elem r) as [[x r1]| |]; [|done..]. cbn [mbind outcome_mbind]. pose proof (IH r1 false ltac:(lia)) as Hi.
  destruct (parse_elems fuel close keep elem false r1) as [[l r2]| |]; [|done..]. simpl. lia.
Qed.

Lemma brackets_shrinks {A} o close keep (elem : bytes -> outcome (A * bytes)) : shrinks 2 elem ->
  shrinks 1 (fun txt => txt ← expect o txt; parse_elems (S (length txt)) close keep elem true txt).
Proof.
  intros Hs txt. destruct (expect_shrinks o txt) as [(r & -> & Hl)|[e ->]]; [|done]. cbn [mbind outcome_mbind].
  pose proof (elems_shrinks close keep elem true r (S (length r)) Hs ltac:(lia)) as He. destruct (parse_elems _ _ _ _ _ r) as [[l r2]| |]; [|done..]. lia.
Qed.

Lemma entry_shrinks {V} n (elem : bytes -> outcome (V * bytes)) : shrinks n elem -> shrinks 2 (parse_entry elem).
Proof.
  intros Hs txt. unfold parse_entry. pose proof (quoted_shrinks txt) as Hq. destruct (parse_quoted txt) as [[k r]| |]; [|done..]. cbn [mbind outcome_mbind].
  destruct (expect_shrinks ":" r) as [(r1 & -> & Hl)|[e ->]]; [|done]. cbn [mbind outcome_mbind]. pose proof (Hs r1) as He.
  destruct (elem r1) as [[v r2]| |]; [|done..]. simpl. lia.
Qed.

Lemma parsers_end txt empty_ok delim : parse_printable delim txt <> Crash /\ parse_vec txt empty_ok <> Crash /\ parse_map txt empty_ok <> Crash /\ parse_vmap txt empty_ok <> Crash.
Proof.
  assert (forall A n (elem : bytes -> outcome (A * bytes)), shrinks n elem -> elem txt <> Crash) as H.
  { intros A n elem Hs E. pose proof (Hs txt) as Ht. by rewrite E in Ht. }
  assert (forall e, shrinks 1 (fun txt => parse_vec txt e)) as Hv by (intros e; by apply brackets_shrinks, quoted_shrinks).
  split_and!; [by apply (H _ 0%nat), parse_shrinks|by apply (H _ 1%nat (fun txt => parse_vec txt empty_ok))|apply (H _ 1%nat (fun txt => parse_map txt empty_ok))|apply (H _ 1%nat (fun txt => parse_vmap txt empty_ok))].
  - by eapply brackets_shrinks, entry_shrinks, quoted_shrinks.
  - eapply brackets_shrinks, entry_shrinks, Hv.
Qed.

(** Lists and maps are printable too *)
Definition printable (t : bytes) : Prop := Forall (fun c => is_printable c = true) t.
Lemma quoted_printable s : printable (mk_quoted s).
Proof.
  unfold printable, mk_quoted. repeat (apply Forall_app; split); [by repeat constructor| |by repeat constructor].
  eapply Forall_impl; [by apply (mk_printable_plain dquote)|]. by intros c [? _].
Qed.
Lemma elems_printable {A} keep (pr : A -> bytes) first l : (forall x, printable (pr x)) -> printable (mk_elems keep pr first l).
Proof.
  unfold printable. intros Hp. revert first. induction l as [|x l IH]; intros first; cbn [mk_elems]; [constructor|]. destruct (keep x); [|by apply IH].
  repeat (apply Forall_app; split); [destruct first; by repeat constructor|done|apply IH].
Qed.
Lemma brackets_printable {A} o c keep (pr : A -> bytes) l : is_printable o = true -> is_printable c = true -> (forall x, printable (pr x)) ->
  printable ([o] ++ mk_elems keep pr true l ++ [c]).
Proof. intros Ho Hc Hp. repeat (apply Forall_app; split); [by repeat constructor|by apply elems_printable|by repeat constructor]. Qed.
Lemma entry_printable {V} (pr : V -> bytes) kv : (forall v, printable (pr v)) -> printable (entry pr kv).
Proof. intros Hp. apply Forall_app. split; [apply quoted_printable|]. apply Forall_app. split; [by repeat constructor|apply Hp]. Qed.
#[local] Hint Resolve quoted_printable entry_printable brackets_printable : core.

(** The two overloads of [mk_printable] agree, unless the string has a delimiter, or a backslash and only printable
    characters *)
Definition movable (delim : ascii) (s : bytes) : Prop :=
  (delim = zero \/ delim ∉ s) /\ (backslash ∈ s -> exists c, c ∈ s /\ is_printable c = false).
Lemma mk_char_raw delim c : is_printable c = true -> c <> delim -> c <> backslash -> mk_char delim c = [c].
Proof.
  intros Hp Hd Hb. unfold mk_char. pose proof (ascii_all (fun c => match esc c with Some _ => Ascii.eqb c backslash || negb (is_printable c) | None => true end) ltac:(vm_compute; reflexivity) c) as H.
  cbv beta in H. destruct (esc c); [|by rewrite Hp, (proj2 (Ascii.eqb_neq c delim))]. rewrite Hp, orb_false_r in H. by apply Ascii.eqb_eq in H.
Qed.
Lemma mk_char_zero delim c : c <> delim -> mk_char zero c = mk_char delim c.
Proof.
  intros Hd. unfold mk_char. destruct (esc c); [done|]. rewrite (proj2 (Ascii.eqb_neq c delim)) by done.
  destruct (Ascii.eqb_spec c zero) as [->|]; done.
Qed.
Lemma move_same delim s : movable delim s -> mk_printable_move delim s = mk_printable delim s.
Proof.
  intros [Hd Hb]. unfold mk_printable_move. destruct (existsb _ s) eqn:E.
  - destruct Hd as [->|Hd]; [done|]. clear -Hd. induction s as [|c s IH]; [done|]. apply not_elem_of_cons in Hd as [? ?].
    cbn [mk_printable]. by rewrite IH, (mk_char_zero delim).
  - assert (forall c, c ∈ s -> is_printable c = true /\ (delim = zero \/ c <> delim)) as Hs.
    { intros c Hc. apply not_true_iff_false in E. rewrite existsb_exists in E. destruct (is_printable c) eqn:Ep; [|exfalso; apply E; exists c; rewrite Ep; by rewrite <- list_elem_of_In].
      split; [done|]. destruct (decide (delim = zero)); [by left|right]. intros ->. apply E. exists delim. rewrite <- list_elem_of_In. split; [done|].
      by rewrite Ascii.eqb_refl, (proj2 (Ascii.eqb_neq delim zero)), orb_true_r. }
    assert (backslash ∉ s) as Hn by (intros (c & Hc & Ec)%Hb; destruct (Hs c Hc); congruence). clear -Hs Hn. symmetry.
    induction s as [|c s IH]; [done|]. apply not_elem_of_cons in Hn as [? ?]. cbn [mk_printable]. rewrite IH; [|intros; apply Hs; by right|done].
    destruct (Hs c) as [Hp Hd]; [left|]. rewrite mk_char_raw; [done..| |done]. destruct Hd as [->|]; [|done]. by intros ->.
Qed.

(** C19 Printable forms are faithful. [mk_printable] writes only printable characters and never its delimiter, and
    [parse_printable] reads the string back, for all strings of bytes, and stops exactly at the delimiter that
    follows, or at the end. This holds for strings that are passed by reference; the overload for temporaries writes the same
    text for the strings without delimiter that have no backslash or a character to encode ([move_keeps_backslash] and
    [move_keeps_delimiter] are the other cases). Lists, maps and maps of lists of strings are written
    with printable characters and are read back with what follows left in place, except for the empty
    values that one side is asked to skip. Reading any text ends, with a value or with a message. *)
Theorem printable_roundtrip delim s v m vm empty_ok empty_ok' rest : _can_be_delimiter delim = true ->
  Forall (plain delim) (mk_printable delim s) /\
  (stops delim rest -> parse_printable delim (mk_printable delim s ++ rest) = Ret (s, rest)) /\
  (movable delim s -> mk_printable_move delim s = mk_printable delim s) /\
  (printable (mk_vec v empty_ok) /\ printable (mk_map m empty_ok) /\ printable (mk_vmap vm empty_ok)) /\
  parse_vec (mk_vec v empty_ok ++ rest) empty_ok' = Ret (filter (fun x => empty_ok' || nonempty x = true) v, rest) /\
  parse_map (mk_map m empty_ok ++ rest) empty_ok' = Ret (filter (fun kv => empty_ok && empty_ok' || nonempty kv.2 = true) m, rest) /\
  parse_vmap (mk_vmap vm empty_ok ++ rest) empty_ok' = Ret (filter (fun kv => empty_ok && empty_ok' || nonempty kv.2 = true) vm, rest) /\
  (forall txt, parse_printable delim txt <> Crash /\ parse_vec txt empty_ok <> Crash /\ parse_map txt empty_ok <> Crash /\ parse_vmap txt empty_ok <> Crash).
Proof.
  intros Hd. split_and!; [by apply mk_printable_plain|intros Hs; by apply parse_mk|apply move_same| | | |apply vec_back|apply map_back|apply vmap_back|intros txt; apply parsers_end].
  - by apply brackets_printable.
  - apply brackets_printable; auto.
  - apply brackets_printable; [done..|]. intros kv. apply entry_printable. intros v'. by apply brackets_printable.
Qed.

Lemma printable_roundtrip_witness : Forall (plain "*") (mk_printable "*" ["a"; "*"; zero; backslash]%char) /\
  parse_printable "*" (mk_printable "*" ["a"; "*"; zero; backslash]%char ++ ["*"; "b"]%char) = Ret (["a"; "*"; zero; backslash]%char, ["*"; "b"]%char) /\
  parse_vec (mk_vec [[]; ["b"%char]] false ++ ["*"; "b"]%char) false = Ret ([["b"%char]], ["*"; "b"]%char).
Proof.
  destruct (printable_roundtrip "*" ["a"; "*"; zero; backslash]%char [[]; ["b"%char]] [] [] false false ["*"; "b"]%char eq_refl) as (H1 & H2 & _ & _ & H3 & _).
  split; [exact H1|]. split; [apply H2; simpl; auto|exact H3].
Defined.

(** The overload for temporaries keeps backslashes as they are, so that another string is read back, and lets the
    delimiter through when there is something else to encode *)
Lemma move_keeps_backslash : parse_printable zero (mk_printable_move zero [backslash; "n"%char]) = Ret ([chr 10], []).
Proof. reflexivity. Qed.
Lemma move_keeps_delimiter : mk_printable_move dquote [dquote; "a"%char] = [dquote; "a"%char].
Proof. reflexivity. Qed.

(** ** Quoting for a shell *)

Definition word_char (c : ascii) : bool :=
  existsb (Ascii.eqb c) ["+"; ","; "-"; "."; "/"; ":"; "="; "@"; "^"; "_"]%char || between "0" c "9" || between "a" c "z" || between "A" c "Z".
Definition complex_char (c : ascii) : bool := existsb (Ascii.eqb c) ["!"%char; dquote; "$"%char; backslash; "`"%char].
Fixpoint protect (s : bytes) : bytes :=
  match s with [] => [] | c :: s => (if Ascii.eqb c quote then [quote; backslash; quote; quote] else [c]) ++ protect s end.
Definition mk_shell_str (s : bytes) : bytes :=
  if negb (nonempty s) then [quote; quote]
  else if forallb word_char s then s
  else if negb (existsb (Ascii.eqb quote) s) then [quote] ++ s ++ [quote]
  else if negb (existsb complex_char s) then [dquote] ++ s ++ [dquote]
  else [quote] ++ protect s ++ [quote].

(** The word that a shell makes of a text, with the rules of POSIX on quotes; [None] if an expansion or a separator
    takes place, or if a quote is not closed *)
Inductive quoting : Type := Unquoted | Single | Double.
Definition sh_special (c : ascii) : bool :=
  existsb (Ascii.eqb c) (["|"; "&"; ";"; "<"; ">"; "("; ")"; "$"; "`"; " "; "*"; "?"; "["; "#"; "~"; "%"; "!"; "{"; "}"]%char ++ [chr 9; chr 10]).
Fixpoint sh_word (q : quoting) (s : bytes) : option bytes :=
  match q, s with
  | Unquoted, [] => Some []
  | _, [] => None
  | Unquoted, c :: s =>
    if Ascii.eqb c quote then sh_word Single s
    else if Ascii.eqb c dquote then sh_word Double s
    else if Ascii.eqb c backslash then match s with c :: s => cons c <$> sh_word Unquoted s | [] => None end
    else if sh_special c then None
    else cons c <$> sh_word Unquoted s
  | Single, c :: s => if Ascii.eqb c quote then sh_word Unquoted s else cons c <$> sh_word Single s
  | Double, c :: s =>
    if Ascii.eqb c dquote then sh_word Unquoted s
    else if complex_char c then None
    else cons c <$> sh_word Double s
  end.

Lemma word_char_ordinary c : word_char c = true -> Ascii.eqb c quote = false /\ Ascii.eqb c dquote = false /\ Ascii.eqb c backslash = false /\ sh_special c = false.
Proof.
  intros Hw. pose proof (ascii_all (fun c => implb (word_char c) (negb (Ascii.eqb c quote || Ascii.eqb c dquote || Ascii.eqb c backslash || sh_special c))) ltac:(vm_compute; reflexivity) c) as H.
  cbv beta in H. rewrite Hw in H. simpl in H. rewrite negb_true_iff, !orb_false_iff in H. tauto.
Qed.

(** A shell reads what [mk_shell_str] writes as one word, which is the string *)
Lemma shell_word s : mk_shell_str s <> [] /\ sh_word Unquoted (mk_shell_str s) = Some s.
Proof.
  unfold mk_shell_str. destruct s as [|c0 s0]; [done|]. cbn [nonempty negb]. remember (c0 :: s0) as s eqn:Es. assert (s <> []) as Hne by (by subst). clear Es c0 s0.
  destruct (forallb word_char s) eqn:Hw.
  { split; [done|]. clear Hne. induction s as [|c s IH]; [done|]. cbn [forallb] in Hw. apply andb_true_iff in Hw as [Hc Hw].
    destruct (word_char_ordinary c Hc) as (E1 & E2 & E3 & E4). cbn [sh_word]. rewrite E1, E2, E3, E4, IH; done. }
  destruct (existsb (Ascii.eqb quote) s) eqn:Hq; cbn [negb].
  2: { split; [done|]. cbn [app sh_word]. simpl (Ascii.eqb quote quote). cbv iota. clear Hw Hne. induction s as [|c s IH]; [done|]. cbn [existsb] in Hq. apply orb_false_iff in Hq as [Hc Hq].
       cbn [app sh_word]. rewrite Ascii.eqb_sym in Hc. rewrite Hc, IH; done. }
  destruct (existsb complex_char s) eqn:Hx; cbn [negb].
  2: { split; [done|]. cbn [app sh_word]. simpl (Ascii.eqb dquote quote). simpl (Ascii.eqb dquote dquote). cbv iota. clear Hw Hne Hq. induction s as [|c s IH]; [done|]. cbn [existsb] in Hx. apply orb_false_iff in Hx as [Hc Hx].
       cbn [app sh_word]. rewrite Hc, IH by done. destruct (Ascii.eqb_spec c dquote) as [->|]; done. }
  split; [done|]. cbn [app sh_word]. simpl (Ascii.eqb quote quote). cbv iota. clear Hw Hne Hq Hx. induction s as [|c s IH]; [done|]. cbn [protect].
  destruct (Ascii.eqb_spec c quote) as [->|Hc]; cbn [app sh_word].
  - simpl. rewrite IH. done.
  - rewrite (proj2 (Ascii.eqb_neq c quote)), IH by done. done.
Qed.

(** ** Quoting for Python *)

Definition py_esc (c : ascii) : option ascii :=
  match N_of_ascii c with
  | 7%N => Some "a"%char
  | 8%N => Some "b"%char
  | 12%N => Some "f"%char
  | 10%N => Some "n"%char
  | 13%N => Some "r"%char
  | 9%N => Some "t"%char
  | 11%N => Some "v"%char
  | 92%N => Some backslash
  | 39%N => Some quote
  | _ => None
  end.
(** An integer below 100 in decimal: what [operator<<] does of an [int] *)
Definition dec2 (n : N) : bytes := [chr (48 + n / 10); chr (48 + n mod 10)].
Definition py_char (c : ascii) : bytes :=
  match py_esc c with
  | Some e => [backslash; e]
  | None => if is_printable c then [c] else [backslash; "x"%char] ++ dec2 (48 + N_of_ascii c / 16) ++ dec2 (48 + N_of_ascii c mod 16)
  end.
Fixpoint py_chars (s : bytes) : bytes := match s with [] => [] | c :: s => py_char c ++ py_chars s end.
Definition mk_py_str (s : bytes) : bytes := [quote] ++ py_chars s ++ [quote].

(** The characters before the closing quote, as Python reads them *)
Fixpoint py_read (s : bytes) : option bytes :=
  match s with
  | [] => None
  | c :: s =>
    if Ascii.eqb c quote then if nonempty s then None else Some []
    else if Ascii.eqb c backslash then
      match s with
      | e :: s =>
        match find (fun c => match py_esc c with Some e' => Ascii.eqb e' e | None => false end) (map ascii_of_nat (seq 0 256)) with
        | Some c => cons c <$> py_read s
        | None =>
          match s with
          | d1 :: d2 :: s =>
            match hex_val d1, hex_val d2 with
            | Ret h1, Ret h2 => if Ascii.eqb e "x" then cons (chr (16 * h1 + h2)) <$> py_read s else None
            | _, _ => None
            end
          | _ => None
          end
        end
      | [] => None
      end
    else cons c <$> py_read s
  end.

(** Python reads the string back when it has no other control character than those with an escape of their own *)
Lemma py_str_back s : forallb (fun c => is_printable c || match py_esc c with Some _ => true | None => false end) s = true ->
  exists t, mk_py_str s = quote :: t /\ py_read t = Some s.
Proof.
  intros Hs. eexists. split; [done|]. induction s as [|c s IH]; [done|]. cbn [forallb] in Hs. apply andb_true_iff in Hs as [Hc Hs]. specialize (IH Hs).
  cbn [py_chars]. rewrite <- app_assoc. unfold py_char. destruct (py_esc c) as [e|] eqn:Ee.
  - assert (find (fun c => match py_esc c with Some e' => Ascii.eqb e' e | None => false end) (map ascii_of_nat (seq 0 256)) = Some c) as Hf.
    { pose proof (ascii_all (fun c => match py_esc c with Some e => match find (fun c => match py_esc c with Some e' => Ascii.eqb e' e | None => false end) (map ascii_of_nat (seq 0 256)) with Some c' => Ascii.eqb c' c | None => false end | None => true end) ltac:(vm_compute; reflexivity) c) as H.
      cbv beta in H. rewrite Ee in H. destruct (find _ _); [|done]. by apply Ascii.eqb_eq in H as ->. }
    cbn [app py_read]. rewrite Hf, IH. done.
  - rewrite orb_false_r in Hc. rewrite Hc. cbn [app py_read]. rewrite IH.
    destruct (Ascii.eqb_spec c quote) as [->|]; [done|]. destruct (Ascii.eqb_spec c backslash) as [->|]; done.
Qed.

(** Other characters are written with two decimal numbers: escape, of code 27, becomes [\x4959] *)
Lemma py_str_hex : exists t, mk_py_str [chr 27] = quote :: t /\ py_read t = Some ["I"; "5"; "9"]%char.
Proof. eexists. split; [done|]. vm_compute. reflexivity. Qed.
End Text.
