(* ===== verification/Codec.v ===== *)
(** * Codecs: names of codec files, lines of codec tables and text of remote tables

    [Entry], [CodecFile] and [CodecRemoteSide] of src/rpc_job_exec.hh, src/rpc_job_exec.cc and src/autodep/env.cc *)
From S2P Require Import Prelude.
From S2P Require Import Crc.
From S2P Require Import Path.
From S2P Require Import Serdes.
From S2P Require Import Text.
From Stdlib Require Import Ascii.
Local Open Scope Z_scope.

Module Codec.
Import Text.

(** ** Lines of a codec table *)

Module Entry.
Record t := mk { ctx : bytes; code : bytes; val : bytes }.

(** [line[pos]=='\t'], then [pos++] *)
Definition tab (txt : bytes) : outcome bytes :=
  match txt with c :: txt => _ ← throw_unless (Ascii.eqb c (chr 9)) "bad codec line format"; Ret txt | [] => Throw "bad codec line format" end.
Definition of_line (line : bytes) : outcome t :=
  pos ← tab line;
  '(code, pos) ← parse_printable zero pos;
  pos ← tab pos;
  '(ctx, pos) ← parse_printable zero pos;
  pos ← tab pos;
  '(val, pos) ← parse_printable zero pos;
  _ ← throw_unless (Ascii.eqb (nth 0 pos zero) zero) "bad codec line format";
  Ret (mk ctx code val).

Definition add_nl (txt : bytes) : bytes := if nonempty txt && negb (bool_decide (last txt = Some (chr 10))) then txt ++ [chr 10] else txt.
Definition line (with_nl : bool) (e : t) : bytes :=
  let res := [chr 9] ++ mk_printable zero (code e) ++ [chr 9] ++ mk_printable zero (ctx e) ++ [chr 9] ++ mk_printable zero (val e) in
  if with_nl then add_nl res else res.

Lemma tab_hd txt : tab (chr 9 :: txt) = Ret txt.
Proof. done. Qed.
Lemma line_back e : of_line (line false e) = Ret e.
Proof.
  destruct e as [x c v]. unfold of_line, line. cbn [ctx code val]. cbn [app]. rewrite tab_hd. cbn [mbind outcome_mbind].
  rewrite parse_mk; [|done|simpl; auto]. cbn [mbind outcome_mbind]. rewrite tab_hd. cbn [mbind outcome_mbind].
  rewrite parse_mk; [|done|simpl; auto]. cbn [mbind outcome_mbind]. rewrite tab_hd. cbn [mbind outcome_mbind].
  rewrite <- (app_nil_r (mk_printable zero v)), parse_mk; done.
Qed.
End Entry.

(** ** Names of codec files *)

Definition CodecSep : ascii := "*"%char.
Definition DecodeSfx : bytes := str ".decode".
Definition EncodeSfx : bytes := str ".encode".
Definition CrcSz : Z := 96.

(** [rfind(c,pos)]: the last index of [c] up to [pos] *)
Fixpoint rfind_in (c : ascii) (i : nat) (s : bytes) : option nat :=
  match s with
  | [] => None
  | x :: s => match rfind_in c (S i) s with Some p => Some p | None => if Ascii.eqb x c then Some i else None end
  end.
Definition rfind (c : ascii) (s : bytes) : option nat := rfind_in c 0 s.
Definition rfind_upto (c : ascii) (pos : nat) (s : bytes) : option nat := rfind c (take (S pos) s).
Definition substr (s : bytes) (pos len : nat) : bytes := take len (drop pos s).
Definition ends_with (s sfx : bytes) : bool := bool_decide (sfx `suffix_of` s).

(** The name of a value is its code for decoding, its checksum for encoding *)
Inductive key : Type := Code (c : bytes) | ValCrc (v : Z).
Record CodecFile := mk_cf { file : bytes; ctx : bytes; code_val_crc : key }.

Definition s_pfx_s (tmp : bool) : bytes := str (if tmp then "LMAKE/lmake/codec_tmp/" else "LMAKE/lmake/codec/").
Definition add_slash (f : bytes) : bytes :=
  if negb (nonempty f) then f
  else if bool_decide (f = str ".") then []
  else if negb (bool_decide (last f = Some slash)) then f ++ [slash] else f.
Definition s_dir_s (tab : bytes) (tmp : bool) : outcome bytes :=
  if Disk.is_dir_name tab then _ ← swear (negb tmp); Ret tab
  else Ret (add_slash (s_pfx_s tmp ++ tab)).

Definition crc_text (v : Z) : bytes := map (fun z => ascii_of_N (Z.to_N z)) (Crc.base64 CrcSz v).
Definition crc_of_text (s : bytes) : outcome Z := Crc.s_from_base64 CrcSz (map (fun c => Z.of_N (N_of_ascii c)) s).

Definition ctx_dir_s (cf : CodecFile) (tmp : bool) : outcome bytes :=
  res ← s_dir_s (file cf) tmp;
  Ret (res ++ (if Disk.is_dir_name (file cf) then str "tab/" ++ ctx cf else [CodecSep] ++ mk_printable CodecSep (ctx cf)) ++ [slash]).
(** The last component of a name *)
Definition key_text (k : key) : bytes := match k with ValCrc v => crc_text v ++ EncodeSfx | Code c => mk_printable slash c ++ DecodeSfx end.
Definition name (cf : CodecFile) (tmp : bool) : outcome bytes :=
  res ← ctx_dir_s cf tmp;
  Ret (res ++ key_text (code_val_crc cf)).

(** What follows the last slash, at [pos3] *)
Definition parse_key (node : bytes) (pos3 : nat) : outcome key :=
  if ends_with node DecodeSfx then
    let sz := (length node - 7 - pos3)%nat in
    '(c, _) ← parse_printable slash (substr node pos3 sz); Ret (Code c)
  else if ends_with node EncodeSfx then
    let sz := (length node - 7 - pos3)%nat in
    _ ← swear (Z.of_nat sz =? Crc.Base64Sz CrcSz);
    v ← crc_of_text (substr node pos3 sz); Ret (ValCrc v)
  else Crash.

Definition of_local (node : bytes) : outcome CodecFile :=
  _ ← swear (Disk.is_lcl node);
  let pos1 := length (s_pfx_s false) in
  match rfind slash node with
  | None => Crash
  | Some pos3 =>
    _ ← swear (pos1 <? pos3)%nat;
    match rfind_upto CodecSep (pos3 - 1)%nat node with
    | None => Crash
    | Some pos2 =>
      _ ← swear ((pos1 <? pos2)%nat && Ascii.eqb (nth (pos2 - 1)%nat node nul) slash);
      let file := substr node pos1 (pos2 - pos1)%nat in
      let file := take (length file - 1)%nat file in
      k ← parse_key node (pos3 + 1)%nat;
      '(ctx, _) ← parse_printable CodecSep (substr node (pos2 + 1)%nat (pos3 - (pos2 + 1))%nat);
      Ret (mk_cf file ctx k)
    end
  end.

Definition of_external (node ext_codec_dir_s : bytes) : outcome CodecFile :=
  _ ← swear (negb (Disk.is_lcl node));
  match rfind slash node with
  | None => Crash
  | Some pos3 =>
    _ ← swear (0 <? pos3)%nat;
    let pos2 := length ext_codec_dir_s in
    _ ← swear (Disk.starts_with node ext_codec_dir_s);
    _ ← throw_unless (Disk.starts_with (drop pos2 node) (str "tab/")) "is not a codec file";
    k ← parse_key node (pos3 + 1)%nat;
    Ret (mk_cf (take pos2 node) (substr node (pos2 + 4)%nat (pos3 - (pos2 + 4))%nat) k)
  end.

(** ** Round trip of names *)

Lemma rfind_in_none c i s : c ∉ s -> rfind_in c i s = None.
Proof.
  revert i. induction s as [|x s IH]; intros i Hn; [done|]. cbn [rfind_in]. apply not_elem_of_cons in Hn as [Hx Hn]. rewrite IH by done.
  by rewrite (proj2 (Ascii.eqb_neq x c)).
Qed.
Lemma rfind_last c a b : c ∉ b -> rfind c (a ++ c :: b) = Some (length a).
Proof.
  intros Hn. unfold rfind. rewrite <- (Nat.add_0_l (length a)). generalize 0%nat. induction a as [|x a IH]; intros i.
  - cbn [app rfind_in length]. rewrite rfind_in_none, Ascii.eqb_refl by done. by rewrite Nat.add_0_r.
  - cbn [app rfind_in length]. rewrite IH. f_equal. lia.
Qed.

Lemma substr_mid a b c : substr (a ++ b ++ c) (length a) (length b) = b.
Proof. unfold substr. by rewrite drop_app_length, take_app_length. Qed.

Definition key_ok (k : key) : Prop := match k with ValCrc v => 0 <= v < 2 ^ CrcSz | Code _ => True end.

Lemma plain_not_in delim s : Forall (plain delim) s -> delim ∉ s.
Proof. rewrite Forall_forall. intros H Hin. by destruct (H _ Hin). Qed.

Lemma base64_codes n v : Forall (fun z => 0 <= z < 256 /\ z <> 47) (Crc.base64_loop n v).
Proof.
  revert v. induction n as [|n IH]; intros v; cbn [Crc.base64_loop]; constructor; [|done]. unfold Crc.base64_digit. change 63 with (Z.ones 6).
  rewrite Z.land_ones by lia. pose proof (Z.mod_pos_bound v (2 ^ 6) ltac:(lia)). unfold u8. rewrite uwrap_small by lia.
  repeat case_match; lia.
Qed.

Lemma crc_text_back v : 0 <= v < 2 ^ CrcSz -> crc_of_text (crc_text v) = Ret v.
Proof.
  intros Hv. unfold crc_of_text, crc_text. rewrite map_map. transitivity (Crc.s_from_base64 CrcSz (Crc.base64 CrcSz v)); [|by apply Crc.base64_back].
  f_equal. rewrite <- (map_id (Crc.base64 CrcSz v)) at 2. apply map_ext_Forall. apply (Forall_impl _ _ _ (base64_codes _ v)). intros z [Hz _].
  rewrite N_ascii_embedding by lia. lia.
Qed.
Lemma crc_text_slash v : slash ∉ crc_text v.
Proof.
  intros Hin. unfold crc_text in Hin. apply list_elem_of_In, in_map_iff in Hin as (z & Ez & Hz%list_elem_of_In).
  pose proof (base64_codes (Z.to_nat (Crc.Base64Sz CrcSz)) v) as Hf. rewrite Forall_forall in Hf. destruct (Hf _ Hz) as [Hb Hn].
  apply (f_equal N_of_ascii) in Ez. rewrite N_ascii_embedding in Ez by lia. change (N_of_ascii slash) with 47%N in Ez. lia.
Qed.
Lemma crc_text_length v : Z.of_nat (length (crc_text v)) = Crc.Base64Sz CrcSz.
Proof. unfold crc_text, Crc.base64. rewrite length_map, Crc.base64_length. done. Qed.

Lemma key_text_slash k : slash ∉ key_text k.
Proof.
  destruct k as [c|v]; unfold key_text; apply not_elem_of_app; (split; [|by apply (bool_decide_unpack _)]).
  - by apply plain_not_in, mk_printable_plain.
  - apply crc_text_slash.
Qed.

Lemma suffix_decode a : ends_with (a ++ EncodeSfx) DecodeSfx = false.
Proof. unfold ends_with. apply bool_decide_eq_false. intros [k E]. by apply app_inj_2 in E as [_ E]. Qed.
Lemma suffix_same a sfx : ends_with (a ++ sfx) sfx = true.
Proof. unfold ends_with. apply bool_decide_eq_true. by exists a. Qed.

Lemma key_back a k : key_ok k -> parse_key (a ++ key_text k) (length a) = Ret k.
Proof.
  intros Hk. unfold parse_key, key_text. destruct k as [c|v].
  - rewrite app_assoc, suffix_same, <- app_assoc. cbv zeta.
    replace (length (a ++ mk_printable slash c ++ DecodeSfx) - 7 - length a)%nat with (length (mk_printable slash c)) by (rewrite !length_app; simpl; lia).
    rewrite substr_mid, <- (app_nil_r (mk_printable slash c)), parse_mk; done.
  - rewrite app_assoc, suffix_decode, suffix_same, <- app_assoc. cbv zeta.
    replace (length (a ++ crc_text v ++ EncodeSfx) - 7 - length a)%nat with (length (crc_text v)) by (rewrite !length_app; simpl; lia).
    rewrite substr_mid, crc_text_length. rewrite swear_bind by done. by rewrite crc_text_back.
Qed.

Lemma last_not_slash p f : f <> [] -> last f <> Some slash -> (1 < length (p ++ f))%nat -> add_slash (p ++ f) = p ++ f ++ [slash].
Proof.
  intros Hf Hl El. unfold add_slash.
  rewrite (bool_decide_eq_false_2 (p ++ f = str ".")) by (intros E; rewrite E in El; simpl in El; lia).
  destruct f as [|c f]; [done|]. assert (last (p ++ c :: f) = last (c :: f)) as -> by (rewrite last_app; destruct (last (c :: f)) eqn:E; [done|by apply last_None in E]).
  rewrite bool_decide_eq_false_2 by done. destruct (p ++ c :: f) eqn:E; [by destruct p|]. cbn [nonempty negb]. by rewrite <- E, <- app_assoc.
Qed.

(** A name in the repository *)
Lemma of_local_node f x k : key_ok k -> of_local (s_pfx_s false ++ f ++ slash :: CodecSep :: mk_printable CodecSep x ++ slash :: key_text k) = Ret (mk_cf f x k).
Proof.
  intros Hk. set (P := s_pfx_s false). set (M := mk_printable CodecSep x). set (K := key_text k). pose proof (key_text_slash k) as HK. fold K in HK.
  pose proof (mk_printable_plain CodecSep x eq_refl) as HM%plain_not_in. fold M in HM.
  set (node := P ++ f ++ slash :: CodecSep :: M ++ slash :: K). unfold of_local.
  assert (node = (P ++ f ++ slash :: CodecSep :: M) ++ slash :: K) as E1 by (unfold node; rewrite <- !app_assoc; cbn [app]; by rewrite <- ?app_assoc).
  assert (rfind slash node = Some (length (P ++ f ++ slash :: CodecSep :: M))) as -> by (rewrite E1; by apply rfind_last).
  assert (length (P ++ f ++ slash :: CodecSep :: M) = length P + length f + 2 + length M)%nat as El by (rewrite !length_app; simpl; lia).
  rewrite swear_bind by done. cbv zeta. fold P. rewrite swear_bind by (apply Nat.ltb_lt; lia).
  assert (rfind_upto CodecSep (length (P ++ f ++ slash :: CodecSep :: M) - 1) node = Some (length (P ++ f ++ [slash]))) as ->.
  { unfold rfind_upto. rewrite E1, take_app_le, take_ge by lia. rewrite <- (rfind_last CodecSep (P ++ f ++ [slash]) M HM). f_equal. by rewrite <- !app_assoc. }
  assert (length (P ++ f ++ [slash]) = length P + length f + 1)%nat as El2 by (rewrite !length_app; simpl; lia).
  assert (nth (length (P ++ f ++ [slash]) - 1) node nul = slash) as ->.
  { rewrite El2. unfold node. rewrite app_assoc, app_nth2 by (rewrite length_app; lia). rewrite length_app. by replace (_ - _ - _)%nat with 0%nat by lia. }
  rewrite swear_bind by (apply andb_true_iff; split; [apply Nat.ltb_lt; lia|done]).
  assert (parse_key node (length (P ++ f ++ slash :: CodecSep :: M) + 1) = Ret k) as ->.
  { replace (length (P ++ f ++ slash :: CodecSep :: M) + 1)%nat with (length ((P ++ f ++ slash :: CodecSep :: M) ++ [slash])) by (rewrite length_app; done).
    rewrite E1. change (slash :: K) with ([slash] ++ K). rewrite app_assoc. by apply key_back. }
  cbn [mbind outcome_mbind].
  assert (substr node (length (P ++ f ++ [slash]) + 1) (length (P ++ f ++ slash :: CodecSep :: M) - (length (P ++ f ++ [slash]) + 1)) = M) as ->.
  { replace (length (P ++ f ++ [slash]) + 1)%nat with (length (P ++ f ++ [slash; CodecSep])) by (rewrite !length_app; simpl; lia).
    replace (_ - _)%nat with (length M) by (rewrite El, !length_app; simpl; lia). rewrite <- (substr_mid (P ++ f ++ [slash; CodecSep]) M (slash :: K)) at 2. f_equal. unfold node. by rewrite <- !app_assoc. }
  rewrite <- (app_nil_r M). subst M. rewrite parse_mk by done. cbn [mbind outcome_mbind]. do 2 f_equal.
  assert (substr node (length P) (length (P ++ f ++ [slash]) - length P) = f ++ [slash]) as ->.
  { replace (_ - _)%nat with (length (f ++ [slash])) by (rewrite !length_app; simpl; lia). unfold node.
    change (slash :: CodecSep :: ?t) with ([slash] ++ CodecSep :: t). rewrite (app_assoc f). apply substr_mid. }
  rewrite length_app. replace (_ - _)%nat with (length f) by (simpl; lia). apply take_app_length.
Qed.

Lemma local_back cf : Disk.is_dir_name (file cf) = false -> key_ok (code_val_crc cf) ->
  exists node, name cf false = Ret node /\ of_local node = Ret cf.
Proof.
  destruct cf as [f x k]. cbn [file code_val_crc]. intros Hd Hk. unfold name, ctx_dir_s, s_dir_s. cbn [file ctx code_val_crc]. rewrite Hd. cbn [mbind outcome_mbind].
  assert (f <> [] /\ last f <> Some slash) as [Hf Hl].
  { unfold Disk.is_dir_name in Hd. rewrite orb_false_iff, !bool_decide_eq_false in Hd. done. }
  rewrite (last_not_slash (s_pfx_s false) f Hf Hl) by (simpl; lia). eexists. split; [done|]. rewrite <- !app_assoc. by apply of_local_node.
Qed.

(** A name in an external directory *)
Lemma external_back cf : Disk.is_dir_name (file cf) = true -> Disk.is_lcl (file cf) = false -> key_ok (code_val_crc cf) ->
  exists node, name cf false = Ret node /\ of_external node (file cf) = Ret cf.
Proof.
  destruct cf as [f x k]. cbn [file code_val_crc]. intros Hd Hn Hk. unfold name, ctx_dir_s, s_dir_s. cbn [file ctx code_val_crc]. rewrite Hd. cbn [mbind outcome_mbind negb swear].
  eexists. split; [done|]. rewrite <- !app_assoc. set (K := key_text k). change ([slash] ++ K) with (slash :: K). pose proof (key_text_slash k) as HK. fold K in HK. unfold of_external.
  assert (Disk.is_lcl (f ++ str "tab/" ++ x ++ slash :: K) = false) as ->.
  { unfold Disk.is_lcl, Disk.is_abs, Disk.starts_with in *. rewrite negb_false_iff, !orb_true_iff in *. destruct Hn as [[Ha|Ha]|Ha].
    - left. left. by destruct f.
    - left. right. rewrite bool_decide_eq_true in *. by apply prefix_app_r.
    - exfalso. apply bool_decide_eq_true in Ha as ->. done. }
  assert (f ++ str "tab/" ++ x ++ slash :: K = (f ++ str "tab/" ++ x) ++ slash :: K) as E1 by (by rewrite <- !app_assoc).
  assert (rfind slash (f ++ str "tab/" ++ x ++ slash :: K) = Some (length (f ++ str "tab/" ++ x))) as -> by (rewrite E1; by apply rfind_last).
  assert (length (f ++ str "tab/" ++ x) = length f + 4 + length x)%nat as El by (rewrite !length_app; simpl; lia).
  rewrite !swear_bind; [|by apply bool_decide_eq_true, prefix_app_r|apply Nat.ltb_lt; lia|done].
  rewrite drop_app_length. rewrite throw_unless_bind by (by apply bool_decide_eq_true, prefix_app_r).
  assert (parse_key (f ++ str "tab/" ++ x ++ slash :: K) (length (f ++ str "tab/" ++ x) + 1) = Ret k) as ->.
  { replace (length (f ++ str "tab/" ++ x) + 1)%nat with (length ((f ++ str "tab/" ++ x) ++ [slash])) by (rewrite length_app; done).
    rewrite E1. change (slash :: K) with ([slash] ++ K). rewrite app_assoc. by apply key_back. }
  cbn [mbind outcome_mbind]. rewrite take_app_length. do 2 f_equal.
  replace (length f + 4)%nat with (length (f ++ str "tab/")) by (by rewrite length_app). replace (_ - _)%nat with (length x) by (rewrite El, length_app; simpl; lia).
  rewrite app_assoc. apply substr_mid.
Qed.

(** ** Remote tables *)

Module FileSync.
Inductive t : Type := Auto | None | Dir | Readdir | Afs | Beegfs | Ceph | Gpfs | Lustre | Nfs | Ocfs2.
End FileSync.

Definition octal (c : ascii) : outcome Z := _ ← swear (between "0" c "7"); Ret (Z.of_N (N_of_ascii c) - 48).
Definition mod_from_str (s : bytes) : outcome Z :=
  match s with
  | [c0; c1; c2; c3] =>
    if bool_decide (s = str "auto") then Ret (2 ^ 32 - 1)
    else
      _ ← swear (Ascii.eqb c0 "0");
      u ← octal c1; g ← octal c2; o ← octal c3;
      Ret (Z.lor (Z.lor (Z.shiftl u 6) (Z.shiftl g 3)) o)
  | _ => Crash
  end.
Definition digit (d : Z) : ascii := ascii_of_N (Z.to_N (48 + d)).
Definition mod_to_str (m : Z) : bytes :=
  if m =? 2 ^ 32 - 1 then str "auto"
  else ["0"%char; digit (Z.land (Z.shiftr m 6) 7); digit (Z.land (Z.shiftr m 3) 7); digit (Z.land m 7)].

Record CodecRemoteSide := mk_crs { tab : bytes; file_sync : FileSync.t; umask : Z }.
Definition sync_char (f : FileSync.t) : ascii :=
  match f with
  | FileSync.Auto => "?" | FileSync.None => "-" | FileSync.Dir => "D" | FileSync.Readdir => "R" | FileSync.Afs => "A" | FileSync.Beegfs => "B"
  | FileSync.Ceph => "C" | FileSync.Gpfs => "G" | FileSync.Lustre => "L" | FileSync.Nfs => "N" | FileSync.Ocfs2 => "O"
  end%char.
Definition sync_of_char (c : ascii) : outcome FileSync.t :=
  if Ascii.eqb c "?" then Ret FileSync.Auto else if Ascii.eqb c "-" then Ret FileSync.None else if Ascii.eqb c "D" then Ret FileSync.Dir
  else if Ascii.eqb c "R" then Ret FileSync.Readdir else if Ascii.eqb c "A" then Ret FileSync.Afs else if Ascii.eqb c "B" then Ret FileSync.Beegfs
  else if Ascii.eqb c "C" then Ret FileSync.Ceph else if Ascii.eqb c "G" then Ret FileSync.Gpfs else if Ascii.eqb c "L" then Ret FileSync.Lustre
  else if Ascii.eqb c "N" then Ret FileSync.Nfs else if Ascii.eqb c "O" then Ret FileSync.Ocfs2 else Crash.
Definition crs_of_string (descr : bytes) : outcome CodecRemoteSide :=
  let sz := length descr in
  _ ← swear (6 <=? sz)%nat;
  _ ← swear (Ascii.eqb (nth (sz - 6) descr nul) ":");
  f ← sync_of_char (nth (sz - 5) descr nul);
  m ← mod_from_str (drop (sz - 4) descr);
  Ret (mk_crs (take (sz - 6) descr) f m).
Definition crs_string (c : CodecRemoteSide) : bytes := tab c ++ [":"%char; sync_char (file_sync c)] ++ mod_to_str (umask c).

(** File modes: none, or permissions *)
Definition mode_ok (m : Z) : Prop := m = 2 ^ 32 - 1 \/ 0 <= m < 512.
Lemma all_below (P : nat -> bool) n m : forallb P (seq 0 n) = true -> (m < n)%nat -> P m = true.
Proof. rewrite forallb_forall. intros H Hm. apply H, in_seq. lia. Qed.
Lemma mod_back m : mode_ok m -> mod_from_str (mod_to_str m) = Ret m /\ length (mod_to_str m) = 4%nat.
Proof.
  intros [->|Hm]; [by split|].
  pose proof (all_below (fun n => match mod_from_str (mod_to_str (Z.of_nat n)) with Ret x => x =? Z.of_nat n | _ => false end) 512 (Z.to_nat m) ltac:(vm_compute; reflexivity) ltac:(lia)) as H.
  unfold mod_to_str at 2. rewrite (proj2 (Z.eqb_neq m (2 ^ 32 - 1))) by lia. split; [|done]. cbv beta in H. rewrite Z2Nat.id in H by lia.
  destruct (mod_from_str (mod_to_str m)); [|done..]. by apply Z.eqb_eq in H as ->.
Qed.

Lemma crs_back c : mode_ok (umask c) -> crs_of_string (crs_string c) = Ret c.
Proof.
  destruct c as [t f m]. cbn [umask]. intros [Hb Hl]%mod_back. unfold crs_of_string, crs_string. cbn [tab file_sync umask]. rewrite !length_app, Hl. cbn [length].
  rewrite swear_bind by (apply Nat.leb_le; lia). replace (length t + (2 + 4) - 6)%nat with (length t) by lia. replace (length t + (2 + 4) - 5)%nat with (length t + 1)%nat by lia.
  replace (length t + (2 + 4) - 4)%nat with (length t + 2)%nat by lia. rewrite (app_nth2 t _ nul (le_n (length t))), Nat.sub_diag. rewrite swear_bind by done.
  rewrite (app_nth2 t _ nul (Nat.le_add_r (length t) 1)).  replace (length t + 1 - length t)%nat with 1%nat by lia. cbn [app nth]. assert (sync_of_char (sync_char f) = Ret f) as -> by (by destruct f).
  cbn [mbind outcome_mbind]. rewrite drop_app_ge by lia. replace (length t + 2 - length t)%nat with 2%nat by lia. cbn [skipn app]. rewrite drop_0, Hb, take_app_length. done.
Qed.

(** C20 Codec data survive their text forms. The line of an entry of a codec table is read back as this entry. The file
    name under which a code or a value is recorded, for a table of the repository and for an external directory,
    is analysed back into the table, the context and the code or checksum, whatever the bytes of the context and
    of the code; none of the assertions of this analysis fails. The description of a remote table that is passed
    to jobs is read back as well. *)
Theorem codec_roundtrip e cf c : key_ok (code_val_crc cf) -> mode_ok (umask c) ->
  Entry.of_line (Entry.line false e) = Ret e /\
  (Disk.is_dir_name (file cf) = false -> exists node, name cf false = Ret node /\ of_local node = Ret cf) /\
  (Disk.is_dir_name (file cf) = true -> Disk.is_lcl (file cf) = false -> exists node, name cf false = Ret node /\ of_external node (file cf) = Ret cf) /\
  crs_of_string (crs_string c) = Ret c.
Proof. intros Hk Hm. split_and!; [apply Entry.line_back|intros Hd; by apply local_back|intros Hd Hl; by apply external_back|by apply crs_back]. Qed.

Definition sample_file : CodecFile := mk_cf (str "tables/t*b") (str "a*/b") (ValCrc 123456789).
Lemma codec_roundtrip_witness : exists node, name sample_file false = Ret node /\ of_local node = Ret sample_file.
Proof.
  destruct (codec_roundtrip (Entry.mk [] [] []) sample_file (mk_crs [] FileSync.Dir 63)) as (_ & H & _); [done|right; done|]. by apply H.
Defined.
End Codec.
