(* ===== verification/Env.v ===== *)
(** * The environment of jobs: services of src/fd.hh and src/fd.cc, and [AutodepEnv] of src/autodep/env.hh and src/autodep/env.cc

    The server passes to each job, in a variable, the text of an [AutodepEnv], which the job reads to know where and
    how to report its accesses. *)
From S2P Require Import Prelude.
From S2P Require Import Arith.
From S2P Require Import Path.
From S2P Require Import RealPath.
From S2P Require Import Serdes.
From S2P Require Import Text.
From S2P Require Import Codec.
From Stdlib Require Import Ascii.
Local Open Scope Z_scope.

Module Env.
Import Text.
Import RealPath.

(** ** Numbers *)

(** An unsigned number in decimal: [operator<<] *)
Fixpoint dec_go (fuel : nat) (n : N) (acc : bytes) : bytes :=
  match fuel with
  | O => acc
  | S fuel => let acc := chr (48 + n mod 10) :: acc in if (n <? 10)%N then acc else dec_go fuel (n / 10) acc
  end.
Definition dec (n : Z) : bytes := dec_go (S (N.to_nat (N.log2 (Z.to_N n)))) (Z.to_N n) [].

Definition is_space (c : ascii) : bool := existsb (Ascii.eqb c) [chr 12; chr 10; chr 13; chr 9; chr 11; " "%char].
Fixpoint skip_spaces (s : bytes) : bytes := match s with c :: s' => if is_space c then skip_spaces s' else s | [] => [] end.
Definition trim (s : bytes) : bytes := rev (skip_spaces (rev (skip_spaces s))).

(** The digits at the start of a text *)
Fixpoint digits (acc : N) (s : bytes) : N * bytes :=
  match s with c :: s' => if between "0" c "9" then digits (10 * acc + (N_of_ascii c - 48)) s' else (acc, s) | [] => (acc, s) end.
(** [from_string] for an unsigned integer of [w] bits *)
Definition from_string (w : Z) (empty_ok : bool) (txt : bytes) : outcome Z :=
  if empty_ok && negb (nonempty txt) then Ret 0
  else
    let txt := trim txt in
    let '(n, rest) := digits 0 txt in
    _ ← throw_unless (negb (length rest =? length txt)%nat) "Invalid argument";
    _ ← throw_unless (Z.of_N n <? 2 ^ w) "Numerical result out of range";
    _ ← throw_unless (negb (nonempty rest)) "trailing garbage";
    Ret (Z.of_N n).

(** ** Services *)

Definition s_addr_str (addr : Z) : bytes :=
  if addr =? 0 then []
  else
    let b i := dec (Z.land (Z.shiftr addr i) 255) in
    b 24 ++ ["."%char] ++ b 16 ++ ["."%char] ++ b 8 ++ ["."%char] ++ b 0.

(** The loop on dot notation; [None] when the host must be looked up by name *)
Record dots := mk_dots { d_addr : Z; d_byte : Z; d_n : Z; d_first : bool; d_first0 : bool }.
Fixpoint dot_loop (host : bytes) (d : dots) : option dots :=
  match host with
  | [] => Some d
  | c :: host =>
    if Ascii.eqb c "." then
      if d_first d then None
      else dot_loop host (mk_dots (Z.lor (u32 (Z.shiftl (d_addr d) 8)) (d_byte d)) 0 (d_n d) true (d_first0 d))
    else if between "0" c "9" then
      let v := Z.of_N (N_of_ascii c) - 48 in
      let byte := d_byte d * 10 + v in
      if negb (d_first d) && d_first0 d then None
      else
        let d := if d_first d then mk_dots (d_addr d) byte (d_n d + 1) false (v =? 0) else mk_dots (d_addr d) byte (d_n d) false (d_first0 d) in
        if 256 <=? byte then None else dot_loop host d
    else None
  end.
Definition dot_addr (host : bytes) : option Z :=
  match dot_loop host (mk_dots 0 0 0 true false) with
  | Some d => if d_first d || negb (d_n d =? 4) then None else Some (Z.lor (u32 (Z.shiftl (d_addr d) 8)) (d_byte d))
  | None => None
  end.
Definition s_is_loopback (a : Z) : bool := Z.land a 0xff000000 =? Z.land 0x7f000001 0xff000000.
(** Without [name_ok] *)
Definition s_addr (host : bytes) : outcome Z :=
  if negb (nonempty host) then Ret 0
  else match dot_addr host with Some a => Ret (if s_is_loopback a then 0 else a) | None => Throw "cannot get addr" end.

Record KeyedService := mk_ks { addr : Z; port : Z; key : Z }.
Definition ks_new : KeyedService := mk_ks 0 0 0.
Definition ks_set (s : KeyedService) : bool := negb (addr s =? 0) || negb (port s =? 0).
Definition ks_str (s : KeyedService) : bytes := s_addr_str (addr s) ++ [":"%char] ++ dec (port s) ++ (if key s =? 0 then [] else [slash] ++ dec (key s)).

(** [find(c)]: what is before the first [c], and what is after it *)
Fixpoint split_at (c : ascii) (s : bytes) : option (bytes * bytes) :=
  match s with
  | [] => None
  | x :: s => if Ascii.eqb x c then Some ([], s) else (fun p => (x :: p.1, p.2)) <$> split_at c s
  end.
Definition service_of_string (s : bytes) : outcome (Z * Z) :=
  match Codec.rfind ":" s with
  | None => a ← s_addr s; Ret (a, 0)
  | Some pos => a ← s_addr (take pos s); p ← from_string 16 true (drop (pos + 1)%nat s); Ret (a, p)
  end.
Definition ks_of_string (s : bytes) : outcome KeyedService :=
  match split_at slash s with
  | None => '(a, p) ← service_of_string s; Ret (mk_ks a p 0)
  | Some (s, k) => '(a, p) ← service_of_string s; k ← from_string 64 false k; Ret (mk_ks a p k)
  end.

(** ** The environment *)

Record options := mk_opts {
  auto_mkdir : bool; deps_in_system : bool; disabled : bool; ignore_stat : bool; mount_chroot_ok : bool; readdir_ok : bool;
  file_sync : Codec.FileSync.t; lnk : LnkSupport }.
Definition no_opts : options := mk_opts false false false false false false Codec.FileSync.Auto LFull.

(** The entries of a [::umap] are listed in the order of iteration when it is written, in the order of insertion when it is
    read *)
Record AutodepEnv := mk_ade {
  service : KeyedService; fast_mail : bytes; fast_report_pipe : bytes; opts : options; fqdn : bytes; tmp_dir_s : bytes; repo_root_s : bytes;
  sub_repo_s : bytes; src_dirs_s : list bytes; codecs : list (bytes * Codec.CodecRemoteSide); views_s : list (bytes * list bytes) }.

Definition flag (b : bool) (c : ascii) : bytes := if b then [c] else [].
Definition sync_opt (f : Codec.FileSync.t) : ascii :=
  match f with
  | Codec.FileSync.Auto => "?" | Codec.FileSync.None => "-" | Codec.FileSync.Dir => "d" | Codec.FileSync.Readdir => "r" | Codec.FileSync.Afs => "a" | Codec.FileSync.Beegfs => "b"
  | Codec.FileSync.Ceph => "c" | Codec.FileSync.Gpfs => "g" | Codec.FileSync.Lustre => "l" | Codec.FileSync.Nfs => "n" | Codec.FileSync.Ocfs2 => "o"
  end%char.
Definition lnk_opt (l : LnkSupport) : ascii := match l with LNone => "n" | LFile => "f" | LFull => "a" | LFullExt => "x" end%char.
Definition opts_text (o : options) : bytes :=
  flag (auto_mkdir o) "m" ++ flag (deps_in_system o) "X" ++ flag (disabled o) "d" ++ flag (ignore_stat o) "i" ++ flag (mount_chroot_ok o) "M" ++ flag (readdir_ok o) "D" ++
  ["s"%char; sync_opt (file_sync o)] ++ ["l"%char; lnk_opt (lnk o)].
Definition colon : ascii := ":"%char.
Definition service_text (s : KeyedService) : bytes := if ks_set s then ks_str s else [colon].
Definition to_string (e : AutodepEnv) : bytes :=
  service_text (service e) ++
  [colon] ++ mk_quoted (fast_mail e) ++ [colon] ++ mk_quoted (fast_report_pipe e) ++
  [colon] ++ opts_text (opts e) ++
  [colon] ++ mk_quoted (fqdn e) ++ [colon] ++ mk_quoted (tmp_dir_s e) ++ [colon] ++ mk_quoted (repo_root_s e) ++ [colon] ++ mk_quoted (sub_repo_s e) ++
  [colon] ++ mk_vec (src_dirs_s e) false ++
  [colon] ++ mk_map (map (fun kc => (kc.1, Codec.crs_string kc.2)) (codecs e)) false ++
  [colon] ++ mk_vmap (views_s e) false.

(** [if (env[pos++]!=c) goto Fail], which stops the program *)
Definition must (c : ascii) (txt : bytes) : outcome bytes :=
  match txt with x :: txt => _ ← swear (Ascii.eqb x c); Ret txt | [] => Crash end.
Definition field (txt : bytes) : outcome (bytes * bytes) :=
  txt ← must colon txt;
  txt ← must dquote txt;
  '(v, txt) ← parse_printable dquote txt;
  txt ← must dquote txt;
  Ret (v, txt).

Definition lnk_of_opt (c : ascii) : outcome LnkSupport :=
  if Ascii.eqb c "n" then Ret LNone else if Ascii.eqb c "f" then Ret LFile else if Ascii.eqb c "a" then Ret LFull else if Ascii.eqb c "x" then Ret LFullExt else Crash.
Definition sync_of_opt (c : ascii) : outcome Codec.FileSync.t :=
  if Ascii.eqb c "?" then Ret Codec.FileSync.Auto else if Ascii.eqb c "-" then Ret Codec.FileSync.None else if Ascii.eqb c "d" then Ret Codec.FileSync.Dir
  else if Ascii.eqb c "r" then Ret Codec.FileSync.Readdir else if Ascii.eqb c "a" then Ret Codec.FileSync.Afs else if Ascii.eqb c "b" then Ret Codec.FileSync.Beegfs
  else if Ascii.eqb c "c" then Ret Codec.FileSync.Ceph else if Ascii.eqb c "g" then Ret Codec.FileSync.Gpfs else if Ascii.eqb c "l" then Ret Codec.FileSync.Lustre
  else if Ascii.eqb c "n" then Ret Codec.FileSync.Nfs else if Ascii.eqb c "o" then Ret Codec.FileSync.Ocfs2 else Crash.
Definition set_flag (c : ascii) (o : options) : option options :=
  let '(mk_opts m X d i M D f l) := o in
  if Ascii.eqb c "d" then Some (mk_opts m X true i M D f l)
  else if Ascii.eqb c "D" then Some (mk_opts m X d i M true f l)
  else if Ascii.eqb c "i" then Some (mk_opts m X d true M D f l)
  else if Ascii.eqb c "m" then Some (mk_opts true X d i M D f l)
  else if Ascii.eqb c "M" then Some (mk_opts m X d i true D f l)
  else if Ascii.eqb c "X" then Some (mk_opts m true d i M D f l)
  else None.
Definition set_lnk (l : LnkSupport) (o : options) : options := let '(mk_opts m X d i M D f _) := o in mk_opts m X d i M D f l.
Definition set_sync (f : Codec.FileSync.t) (o : options) : options := let '(mk_opts m X d i M D _ l) := o in mk_opts m X d i M D f l.
Fixpoint parse_opts (txt : bytes) (o : options) : outcome (options * bytes) :=
  match txt with
  | [] => Crash
  | c :: txt' =>
    if Ascii.eqb c colon then Ret (o, txt)
    else
      match set_flag c o with
      | Some o => parse_opts txt' o
      | None =>
        match txt' with
        | x :: txt' =>
          if Ascii.eqb c "l" then l ← lnk_of_opt x; parse_opts txt' (set_lnk l o)
          else if Ascii.eqb c "s" then f ← sync_of_opt x; parse_opts txt' (set_sync f o)
          else Crash
        | [] => Crash
        end
      end
  end.

(** [mk_umap]: an entry whose key is already there is ignored *)
Fixpoint mk_umap (m : list (bytes * bytes)) (acc : list (bytes * Codec.CodecRemoteSide)) : outcome (list (bytes * Codec.CodecRemoteSide)) :=
  match m with
  | [] => Ret acc
  | (k, d) :: m => c ← Codec.crs_of_string d; mk_umap m (if existsb (fun kc => bool_decide (kc.1 = k)) acc then acc else acc ++ [(k, c)])
  end.

(** What follows the service *)
Definition of_text (service : KeyedService) (txt : bytes) : outcome AutodepEnv :=
  '(fast_mail, txt) ← field txt;
  '(fast_report_pipe, txt) ← field txt;
  txt ← must colon txt;
  '(opts, txt) ← parse_opts txt no_opts;
  '(fqdn, txt) ← field txt;
  '(tmp_dir_s, txt) ← field txt;
  '(repo_root_s, txt) ← field txt;
  '(sub_repo_s, txt) ← field txt;
  txt ← must colon txt;
  '(src_dirs_s, txt) ← parse_vec txt false;
  txt ← must colon txt;
  '(cs, txt) ← parse_map txt false;
  codecs ← mk_umap cs [];
  txt ← must colon txt;
  '(views_s, txt) ← parse_vmap txt false;
  _ ← swear (Ascii.eqb (nth 0 txt zero) zero);
  _ ← swear (forallb Disk.is_dir_name src_dirs_s);
  Ret (mk_ade service fast_mail fast_report_pipe opts fqdn tmp_dir_s repo_root_s sub_repo_s src_dirs_s codecs views_s).

Definition of_string (cwd_s env : bytes) : outcome AutodepEnv :=
  if negb (nonempty env) then
    Ret (mk_ade ks_new [] [] (mk_opts false false false false false true Codec.FileSync.None LFull) [] [] cwd_s [] [] [] [])
  else
    match split_at colon env with
    | None => Crash
    | Some (a, env) =>
      match split_at colon env with
      | None => Crash
      | Some (p, env) => service ← ks_of_string (a ++ [colon] ++ p); of_text service (colon :: env)
      end
    end.

(** ** Numbers are read back *)

Definition is_digit (c : ascii) : bool := between "0" c "9".
Lemma digit_code d : (d < 10)%N -> is_digit (chr (48 + d)) = true /\ N_of_ascii (chr (48 + d)) = (48 + d)%N.
Proof.
  intros Hd. unfold chr. assert (N_of_ascii (ascii_of_N (48 + d)) = 48 + d)%N as E by (apply N_ascii_embedding; lia). split; [|done].
  unfold is_digit, between. rewrite E. change (N_of_ascii "0") with 48%N. change (N_of_ascii "9") with 57%N. apply andb_true_iff. split; apply N.leb_le; lia.
Qed.

Lemma dec_go_digits fuel n acc : Forall (fun c => is_digit c = true) acc -> Forall (fun c => is_digit c = true) (dec_go fuel n acc).
Proof.
  revert n acc. induction fuel as [|fuel IH]; intros n acc Ha; [done|]. cbn [dec_go]. destruct (digit_code (n mod 10)) as [Hd _]; [apply N.mod_lt; lia|].
  destruct (n <? 10)%N; [|apply IH]; by constructor.
Qed.
Lemma dec_digits n : Forall (fun c => is_digit c = true) (dec n).
Proof. by apply dec_go_digits. Qed.

Lemma dec_go_value fuel : forall n, (n < 10 ^ N.of_nat fuel)%N -> exists k, forall acc a, digits a (dec_go fuel n acc) = digits (a * 10 ^ k + n) acc.
Proof.
  induction fuel as [|fuel IH]; intros n Hn; [simpl in Hn; exists 0%N; intros acc a; cbn [dec_go]; f_equal; simpl; lia|].
  cbn [dec_go]. destruct (digit_code (n mod 10)) as [Hd Ec]; [apply N.mod_lt; lia|]. unfold is_digit in Hd.
  assert (forall a acc, digits a (chr (48 + n mod 10) :: acc) = digits (10 * a + n mod 10) acc) as Hstep.
  { intros a acc. cbn [digits]. rewrite Hd, Ec. by rewrite (N.add_comm 48), N.add_sub. }
  destruct (N.ltb_spec n 10).
  - exists 1%N. intros acc a. rewrite Hstep, N.mod_small by done. f_equal. lia.
  - rewrite Nat2N.inj_succ, N.pow_succ_r' in Hn. destruct (IH (n / 10)%N) as [k Hk]; [apply N.Div0.div_lt_upper_bound; lia|].
    exists (N.succ k). intros acc a. rewrite Hk, Hstep. f_equal. rewrite N.pow_succ_r'. pose proof (N.div_mod' n 10). lia.
Qed.

Lemma dec_value n : 0 <= n -> forall rest, digits 0 (dec n ++ rest) = digits (Z.to_N n) rest.
Proof.
  intros Hn rest. unfold dec. set (m := Z.to_N n). assert (m < 10 ^ N.of_nat (S (N.to_nat (N.log2 m))))%N as Hm.
  { rewrite Nat2N.inj_succ, N2Nat.id. destruct (N.eq_dec m 0%N) as [->|Hz]; [done|]. pose proof (N.log2_spec m ltac:(lia)) as [_ Hl].
    eapply N.lt_le_trans; [exact Hl|]. apply N.pow_le_mono_l. lia. }
  assert (forall f k acc, dec_go f k acc = dec_go f k [] ++ acc) as Happ.
  { intros f. induction f as [|f IH]; intros k acc; [done|]. cbn [dec_go]. destruct (k <? 10)%N; [done|]. rewrite IH, (IH _ [_]), <- app_assoc. done. }
  rewrite <- Happ. destruct (dec_go_value _ m Hm) as [k ->]. f_equal.
Qed.

Lemma skip_digit c s : is_digit c = true -> skip_spaces (c :: s) = c :: s.
Proof.
  intros Hc. pose proof (ascii_all (fun c => implb (is_digit c) (negb (is_space c))) ltac:(vm_compute; reflexivity) c) as H. cbv beta in H. rewrite Hc in H. simpl in H.
  rewrite negb_true_iff in H. cbn [skip_spaces]. by rewrite H.
Qed.
Lemma dec_nonempty n : exists c s, dec n = c :: s.
Proof.
  unfold dec. generalize (N.to_nat (N.log2 (Z.to_N n))). generalize (Z.to_N n). intros m f.
  assert (forall f m acc, acc <> [] -> dec_go f m acc <> []) as Hne.
  { intros g. induction g as [|g IH]; intros k acc Ha; [done|]. cbn [dec_go]. destruct (k <? 10)%N; [done|]. by apply IH. }
  cbn [dec_go]. cbv zeta. destruct (m <? 10)%N; [eexists _, _; reflexivity|]. destruct (dec_go f (m / 10)%N [chr (48 + m mod 10)%N]) as [|c s] eqn:E; [by eapply Hne in E|]. eexists _, _; reflexivity.
Qed.
Lemma trim_dec n : trim (dec n) = dec n.
Proof.
  pose proof (dec_digits n) as Hd. destruct (dec_nonempty n) as (c & s & E). unfold trim. rewrite E in *.
  rewrite skip_digit by (by inversion Hd). destruct (rev (c :: s)) as [|c' s'] eqn:Er; [apply (f_equal length) in Er; rewrite length_rev in Er; simpl in Er; lia|].
  rewrite skip_digit; [rewrite <- Er; apply rev_involutive|]. apply Forall_rev in Hd. rewrite Er in Hd. by inversion Hd.
Qed.

Lemma number_back w empty_ok n : 0 <= n < 2 ^ w -> from_string w empty_ok (dec n) = Ret n.
Proof.
  intros Hn. unfold from_string. destruct (dec_nonempty n) as (c & s & E). rewrite E at 1. cbn [nonempty negb]. rewrite andb_false_r, trim_dec.
  pose proof (dec_value n ltac:(lia) []) as Hv. rewrite app_nil_r in Hv. rewrite Hv. cbn [digits]. rewrite !throw_unless_bind; [f_equal; lia|done|..].
  - apply Z.ltb_lt. lia.
  - rewrite E. done.
Qed.

(** ** Addresses are read back *)

Lemma dot_loop_app s t d : dot_loop (s ++ t) d = match dot_loop s d with Some d => dot_loop t d | None => None end.
Proof.
  revert d. induction s as [|c s IH]; intros d; [done|]. cbn [app dot_loop]. destruct (Ascii.eqb c "."); [destruct (d_first d); [done|apply IH]|].
  destruct (between "0" c "9"); [|done]. destruct (negb (d_first d) && d_first0 d); [done|]. cbv zeta. destruct (256 <=? _); [done|apply IH].
Qed.

(** A component of the dot notation *)
Definition byte_ok (b : Z) : Prop := forall a n f0, exists f0', dot_loop (dec b) (mk_dots a 0 n true f0) = Some (mk_dots a b (n + 1) false f0').
Lemma bytes_ok : Forall byte_ok (map Z.of_nat (seq 0 256)).
Proof. cbn [seq map]. repeat (constructor; [intros a n f0; eexists; reflexivity|]). constructor. Qed.
Lemma dot_byte b : 0 <= b < 256 -> byte_ok b.
Proof.
  intros Hb. pose proof bytes_ok as H. rewrite Forall_forall in H. apply H. rewrite <- (Z2Nat.id b) by lia. apply list_elem_of_In, in_map, in_seq. lia.
Qed.

Lemma dot_component b rest a n f0 : byte_ok b ->
  exists f0', dot_loop (dec b ++ ["."%char] ++ rest) (mk_dots a 0 n true f0) = dot_loop rest (mk_dots (Z.lor (u32 (Z.shiftl a 8)) b) 0 (n + 1) true f0').
Proof. intros Hb. destruct (Hb a n f0) as [f0' E]. exists f0'. by rewrite dot_loop_app, E. Qed.

Lemma addr_str_back a : 0 < a < 2 ^ 32 -> dot_addr (s_addr_str a) = Some a.
Proof.
  intros Ha. unfold s_addr_str. rewrite (proj2 (Z.eqb_neq a 0)) by lia. cbv zeta. unfold dot_addr.
  assert (forall i, 0 <= i -> byte_ok (Z.land (Z.shiftr a i) 255)) as Hb.
  { intros i Hi. apply dot_byte. change 255 with (Z.ones 8). rewrite Z.land_ones by lia. apply Z.mod_pos_bound. lia. }
  assert (forall m, 0 <= m -> Z.lor (u32 (Z.shiftl (Z.shiftr a (8 * (m + 1))) 8)) (Z.land (Z.shiftr a (8 * m)) 255) = Z.shiftr a (8 * m)) as Hs.
  { intros m Hm. change 255 with (Z.ones 8). apply digit_step; lia. }
  assert (Z.shiftr a 32 = 0) as H32 by (rewrite Z.shiftr_div_pow2 by lia; apply Z.div_small; lia).
  pose proof (Hs 3 ltac:(lia)) as H3. pose proof (Hs 2 ltac:(lia)) as H2. pose proof (Hs 1 ltac:(lia)) as H1. pose proof (Hs 0 ltac:(lia)) as H0.
  change (8 * (3 + 1)) with 32 in H3. rewrite H32 in H3.
  edestruct (dot_component (Z.land (Z.shiftr a 24) 255)) as [f3 ->]; [apply Hb; lia|]. change 24 with (8 * 3). rewrite H3.
  edestruct (dot_component (Z.land (Z.shiftr a 16) 255)) as [f2 ->]; [apply Hb; lia|]. change 16 with (8 * 2). change (8 * 3) with (8 * (2 + 1)). rewrite H2.
  edestruct (dot_component (Z.land (Z.shiftr a 8) 255)) as [f1 ->]; [apply Hb; lia|]. change (Z.shiftr a 8) with (Z.shiftr a (8 * 1)). change (8 * 2) with (8 * (1 + 1)). rewrite H1.
  destruct (Hb 0 ltac:(lia) (Z.shiftr a (8 * 1)) (0 + 1 + 1 + 1) f1) as [f0 ->]. cbn [d_first d_n d_addr d_byte orb negb Z.add Z.eqb Pos.add Pos.eqb Pos.succ].
  change (8 * 1) with (8 * (0 + 1)). change (Z.shiftr a 0) with (Z.shiftr a (8 * 0)) at 1. rewrite H0. simpl. done.
Qed.

Definition addr_ok (a : Z) : Prop := 0 <= a < 2 ^ 32 /\ s_is_loopback a = false.
Lemma addr_back a : addr_ok a -> s_addr (s_addr_str a) = Ret a.
Proof.
  intros [Ha Hl]. unfold s_addr. destruct (Z.eq_dec a 0) as [->|Hz]; [done|]. pose proof (addr_str_back a ltac:(lia)) as E. rewrite E, Hl.
  destruct (s_addr_str a); [done|]. done.
Qed.

(** ** Services are read back *)

Lemma split_at_app c a b : c ∉ a -> split_at c (a ++ c :: b) = Some (a, b).
Proof.
  induction a as [|x a IH]; intros Hn; cbn [app split_at]; [by rewrite Ascii.eqb_refl|]. apply not_elem_of_cons in Hn as [Hx Hn].
  rewrite (proj2 (Ascii.eqb_neq x c)), IH by done. done.
Qed.
Lemma split_at_none c a : c ∉ a -> split_at c a = None.
Proof.
  induction a as [|x a IH]; intros Hn; [done|]. apply not_elem_of_cons in Hn as [Hx Hn]. cbn [split_at]. by rewrite (proj2 (Ascii.eqb_neq x c)), IH by done.
Qed.

Lemma dec_no c n : is_digit c = false -> c ∉ dec n.
Proof. intros Hc Hin. pose proof (dec_digits n) as H. rewrite Forall_forall in H. apply H in Hin. congruence. Qed.
Lemma addr_no c a : is_digit c = false -> c <> "."%char -> c ∉ s_addr_str a.
Proof.
  intros Hc Hd. unfold s_addr_str. destruct (a =? 0); [apply not_elem_of_nil|]. cbv zeta.
  repeat (apply not_elem_of_app; split); try (by apply dec_no); apply not_elem_of_cons; (split; [done|apply not_elem_of_nil]).
Qed.

Definition service_ok (s : KeyedService) : Prop := addr_ok (addr s) /\ 0 <= port s < 2 ^ 16 /\ 0 <= key s < 2 ^ 64.

Lemma service_str_back a p : addr_ok a -> 0 <= p < 2 ^ 16 -> service_of_string (s_addr_str a ++ colon :: dec p) = Ret (a, p).
Proof.
  intros Ha Hp. unfold service_of_string. change ":"%char with colon. rewrite Codec.rfind_last by (by apply dec_no).
  rewrite take_app_length, addr_back by done. cbn [mbind outcome_mbind]. rewrite drop_app_ge by lia. replace (_ - _)%nat with 1%nat by lia. cbn [skipn].
  rewrite drop_0, number_back; done.
Qed.

Lemma service_back s : service_ok s -> ks_of_string (ks_str s) = Ret s.
Proof.
  destruct s as [a p k]. intros (Ha & Hp & Hk). cbn [addr port key] in *. unfold ks_of_string, ks_str. cbn [addr port key]. change ([":"%char] ++ ?t) with (colon :: t).
  destruct (Z.eqb_spec k 0) as [->|Hk0].
  - rewrite app_nil_r, split_at_none by (apply not_elem_of_app; split; [by apply addr_no|apply not_elem_of_cons; split; [done|by apply dec_no]]).
    by rewrite service_str_back.
  - change (colon :: dec p ++ [slash] ++ dec k) with ((colon :: dec p) ++ slash :: dec k). rewrite app_assoc.
    rewrite split_at_app by (apply not_elem_of_app; split; [by apply addr_no|apply not_elem_of_cons; split; [done|by apply dec_no]]).
    rewrite service_str_back by done. cbn [mbind outcome_mbind]. by rewrite number_back.
Qed.

(** ** The environment is read back *)

Lemma must_hd c txt : must c (c :: txt) = Ret txt.
Proof. unfold must. by rewrite Ascii.eqb_refl. Qed.

Lemma field_back v txt : field ([colon] ++ mk_quoted v ++ txt) = Ret (v, txt).
Proof.
  unfold field, mk_quoted. rewrite <- !app_assoc. cbn [app]. rewrite must_hd. cbn [mbind outcome_mbind]. rewrite must_hd. cbn [mbind outcome_mbind].
  rewrite parse_mk; [|done|simpl; auto]. cbn [mbind outcome_mbind]. by rewrite must_hd.
Qed.

Lemma opts_back o txt : parse_opts (opts_text o ++ [colon] ++ txt) no_opts = Ret (o, [colon] ++ txt).
Proof. destruct o as [[] [] [] [] [] [] f l]; destruct f, l; reflexivity. Qed.

Lemma umap_back cs acc : Forall (fun kc => Codec.mode_ok (Codec.umask kc.2)) cs -> NoDup (map fst (acc ++ cs)) ->
  mk_umap (map (fun kc => (kc.1, Codec.crs_string kc.2)) cs) acc = Ret (acc ++ cs).
Proof.
  intros Hm. revert acc. induction Hm as [|[k c] cs Hc _ IH]; intros acc Hnd; [by rewrite app_nil_r|]. cbn [map mk_umap fst snd]. rewrite Codec.crs_back by done.
  cbn [mbind outcome_mbind]. assert (existsb (fun kc => bool_decide (kc.1 = k)) acc = false) as ->.
  { apply not_true_iff_false. rewrite existsb_exists. intros ([k' c'] & Hin & E%bool_decide_eq_true). cbn [fst] in E. subst k'. rewrite map_app in Hnd. cbn [map fst] in Hnd. apply NoDup_app in Hnd as (_ & Hnd & _).
    apply (Hnd k); [apply list_elem_of_In; by apply (in_map fst) in Hin|apply list_elem_of_here]. }
  change ((k, c) :: cs) with ([(k, c)] ++ cs) in *. rewrite app_assoc in *. by apply IH.
Qed.

Record env_ok (e : AutodepEnv) : Prop := {
  e_service : service_ok (service e);
  e_key : ks_set (service e) = false -> key (service e) = 0;
  e_src : Forall (fun d => nonempty d = true /\ Disk.is_dir_name d = true) (src_dirs_s e);
  e_codecs : Forall (fun kc => Codec.mode_ok (Codec.umask kc.2)) (codecs e);
  e_nodup : NoDup (map fst (codecs e));
  e_views : Forall (fun kv => nonempty kv.2 = true) (views_s e)
}.

Lemma service_text_back s : service_ok s -> (ks_set s = false -> key s = 0) ->
  exists a p, service_text s = a ++ [colon] ++ p /\ (colon ∉ a) /\ (colon ∉ p) /\ ks_of_string (a ++ [colon] ++ p) = Ret s.
Proof.
  intros Hs Hk. unfold service_text. destruct (ks_set s) eqn:E.
  - eexists _, _. split; [unfold ks_str; reflexivity|]. split; [by apply addr_no|]. split; [|by apply service_back].
    apply not_elem_of_app. split; [by apply dec_no|]. destruct (key s =? 0); [apply not_elem_of_nil|].
    apply not_elem_of_app. split; [by apply (bool_decide_unpack _)|by apply dec_no].
  - exists [], []. split; [done|]. split; [apply not_elem_of_nil|]. split; [apply not_elem_of_nil|]. destruct s as [a p k]. unfold ks_set in E. cbn [addr port key] in *.
    rewrite orb_false_iff, !negb_false_iff, !Z.eqb_eq in E. destruct E as [-> ->]. rewrite Hk by done. reflexivity.
Qed.

Lemma crs_nonempty c : nonempty (Codec.crs_string c) = true.
Proof. unfold Codec.crs_string. by destruct (Codec.tab c). Qed.

Lemma of_text_back e : env_ok e -> forall txt, to_string e = service_text (service e) ++ txt -> of_text (service e) txt = Ret e.
Proof.
  intros [_ _ Hsrc Hcod Hnd Hviews] txt E. unfold to_string in E. apply app_inv_head in E as <-. unfold of_text.
  do 2 (rewrite field_back; cbn [mbind outcome_mbind]). change ([colon] ++ opts_text (opts e) ++ ?t) with (colon :: opts_text (opts e) ++ t). rewrite must_hd. cbn [mbind outcome_mbind].
  rewrite opts_back. cbn [mbind outcome_mbind]. do 4 (rewrite field_back; cbn [mbind outcome_mbind]).
  change ([colon] ++ mk_vec (src_dirs_s e) false ++ ?t) with (colon :: mk_vec (src_dirs_s e) false ++ t). rewrite must_hd. cbn [mbind outcome_mbind]. rewrite vec_back_all by (eapply Forall_impl; [exact Hsrc|]; by intros ? [? ?]). cbn [mbind outcome_mbind].
  change ([colon] ++ ?t) with (colon :: t). rewrite must_hd. cbn [mbind outcome_mbind]. rewrite map_back_all by (apply Forall_map, Forall_true; intros; apply crs_nonempty). cbn [mbind outcome_mbind].
  rewrite (umap_back (codecs e) []) by done. cbn [mbind outcome_mbind].
  change ([colon] ++ mk_vmap (views_s e) false) with (colon :: mk_vmap (views_s e) false). rewrite must_hd. cbn [mbind outcome_mbind]. rewrite <- (app_nil_r (mk_vmap _ _)), vmap_back_all by done. cbn [mbind outcome_mbind].
  rewrite swear_bind by done. rewrite swear_bind.
  - by destruct e.
  - apply forallb_forall. intros d Hd. rewrite Forall_forall in Hsrc. by apply Hsrc, list_elem_of_In.
Qed.

(** C21 The environment of a job is read from the text that the server passes as it was written: service, options, names
    and all lists, whatever the bytes in the names; nothing in such a text stops the job. *)
Theorem env_roundtrip cwd_s e : env_ok e -> of_string cwd_s (to_string e) = Ret e.
Proof.
  intros He. pose proof (of_text_back e He) as Ht. destruct (service_text_back (service e) (e_service _ He) (e_key _ He)) as (a & p & Es & Ha & Hp & Hs).
  assert (exists rest, to_string e = a ++ colon :: p ++ colon :: rest) as [rest Et] by (unfold to_string; rewrite Es, <- !app_assoc; by eexists).
  specialize (Ht (colon :: rest)). rewrite Es in Ht. rewrite <- !app_assoc in Ht. specialize (Ht Et). unfold of_string. rewrite Et.
  assert (nonempty (a ++ colon :: p ++ colon :: rest) = true) as -> by (by destruct a). cbn [negb]. rewrite split_at_app by done. rewrite split_at_app by done.
  rewrite Hs. exact Ht.
Qed.

Definition sample_env : AutodepEnv :=
  mk_ade (mk_ks 3232235777 8080 77) (str "host") [chr 10] (mk_opts true false false true false true Codec.FileSync.Nfs LFile) (str "h.d") (str "/tmp/") (str "/repo/") []
    [str "../src/"] [(str "t", Codec.mk_crs (str "/ext/") Codec.FileSync.Dir 18)] [(str "v/", [str "a/"; str "b/"])].
Lemma env_roundtrip_witness : of_string (str "/cwd/") (to_string sample_env) = Ret sample_env.
Proof.
  apply (env_roundtrip (str "/cwd/") sample_env). split; cbn.
  - split_and!; try done.
  - done.
  - repeat constructor.
  - apply Forall_cons. split; [right; cbn; lia|constructor].
  - apply NoDup_singleton.
  - repeat constructor.
Defined.
End Env.
