(* ===== verification/CodecLock.v ===== *)
(** * The locks on codec tables: [CodecLock] of src/rpc_job_exec.hh and src/rpc_job_exec.cc

    A table has [_NId] symbolic links as locks; an encoder takes one of them, the server takes all of them. Processes
    interleave between two accesses to the file system, which are atomic. *)
From S2P Require Import Prelude.
From stdpp Require Import gmap.
Local Open Scope Z_scope.

Module CodecLock.

Definition _NId : nat := 16.
(** In nanoseconds *)
Definition _SharedTimeout : Z := 10 * 10 ^ 9.

(** A lock: its target tells whether it is exclusive; [l_owner] is the process that made it *)
Record lnk := mk_lnk { l_excl : bool; l_date : Z; l_owner : nat }.

(** Where a process is: the access to the file system that it is about to do *)
Inductive pc : Type :=
| Idle
| ShTry (r i : nat) | ShRead (r i : nat) | ShStat (r i : nat) | ShBreak (r i : nat) | ShSleep (r : nat)
| ShHeld (n : nat) | ShRel (n : nat) | ShUnlnk (n : nat)
| ExTry (done : gset nat) (i : nat) | ExStat (done : gset nat) (i : nat) | ExBreak (done : gset nat) (i : nat)
| ExHeld | ExRel (n : nat)
| Stopped.
Record world := mk_w { fs : gmap nat lnk; now : Z; procs : nat -> pc }.

Definition at_pc (p : nat) (c : pc) (f : gmap nat lnk) (w : world) : world := mk_w f (now w) (fun q => if (q =? p)%nat then c else procs w q).
(** [FileInfo(lnk).date.val()] *)
Definition date_of (o : option lnk) : Z := match o with Some l => l_date l | None => 0 end.
Definition stale (w : world) (n : nat) : bool := date_of (fs w !! n) <? now w - _SharedTimeout.

Definition slot (r i : nat) : nat := let num := (r + i)%nat in if (_NId <? num)%nat then (num - _NId)%nat else num.
Definition next_shared (r i : nat) : pc := if (S i <? _NId)%nat then ShTry r (S i) else ShSleep r.

(** The next access of process [p] *)
Definition access (p : nat) (w : world) : option world :=
  match procs w p with
  | ShTry r i =>
    match fs w !! slot r i with
    | None => Some (at_pc p (ShHeld (slot r i)) (<[slot r i := mk_lnk false (now w) p]> (fs w)) w)
    | Some _ => Some (at_pc p (ShRead r i) (fs w) w)
    end
  | ShRead r i =>
    match fs w !! slot r i with
    | Some (mk_lnk true _ _) => Some (at_pc p (ShSleep r) (fs w) w)
    | _ => Some (at_pc p (ShStat r i) (fs w) w)
    end
  | ShStat r i => Some (at_pc p (if stale w (slot r i) then ShBreak r i else next_shared r i) (fs w) w)
  | ShBreak r i => Some (at_pc p (ShTry r i) (delete (slot r i) (fs w)) w)
  | ShSleep r => Some (at_pc p (ShTry r 0) (fs w) w)
  | ShRel n => Some (at_pc p (if stale w n then Stopped else ShUnlnk n) (fs w) w)
  | ShUnlnk n => Some (at_pc p Idle (delete n (fs w)) w)
  | ExTry done i =>
    if (i <? _NId)%nat then
      if bool_decide (i ∈ done) then Some (at_pc p (ExTry done (S i)) (fs w) w)
      else match fs w !! S i with
           | None => Some (at_pc p (ExTry ({[i]} ∪ done) (S i)) (<[S i := mk_lnk true (now w) p]> (fs w)) w)
           | Some _ => Some (at_pc p (ExStat done i) (fs w) w)
           end
    else Some (at_pc p (if (size done <? _NId)%nat then ExTry done 0 else ExHeld) (fs w) w)
  | ExStat done i => Some (at_pc p (if stale w (S i) then ExBreak done i else ExTry done (S i)) (fs w) w)
  | ExBreak done i => Some (at_pc p (ExTry done i) (delete (S i) (fs w)) w)
  | ExRel n => if (n <? _NId)%nat then Some (at_pc p (ExRel (S n)) (delete (S n) (fs w)) w) else Some (at_pc p Idle (fs w) w)
  | Idle | ShHeld _ | ExHeld | Stopped => None
  end.

(** What happens: calls to [lock_shared], where [r] is random, to [lock_excl] and to the destructor, accesses of these calls, the
    death of a process, and time *)
Inductive event : Type := LockShared (p r : nat) | LockExcl (p : nat) | Unlock (p : nat) | Access (p : nat) | Die (p : nat) | Tick (d : Z).
Definition occurs (e : event) (w : world) : option world :=
  match e with
  | LockShared p r => match procs w p with Idle => if ((0 <? r) && (r <=? _NId))%nat then Some (at_pc p (ShTry r 0) (fs w) w) else None | _ => None end
  | LockExcl p => match procs w p with Idle => Some (at_pc p (ExTry ∅ 0) (fs w) w) | _ => None end
  | Unlock p =>
    match procs w p with
    | ShHeld n => Some (at_pc p (ShRel n) (fs w) w)
    | ExHeld => Some (at_pc p (ExRel 0) (fs w) w)
    | _ => None
    end
  | Access p => access p w
  | Die p => Some (at_pc p Stopped (fs w) w)
  | Tick d => if 0 <=? d then Some (mk_w (fs w) (now w + d) (procs w)) else None
  end.
Fixpoint run (es : list event) (w : world) : option world :=
  match es with [] => Some w | e :: es => w ← occurs e w; run es w end.
Definition start (t : Z) : world := mk_w ∅ t (fun _ => Idle).

(** ** Exclusion *)

Definition owns (c : pc) (n : nat) : Prop :=
  match c with
  | ShHeld m | ShRel m | ShUnlnk m => n = m
  | ExTry done _ | ExStat done _ | ExBreak done _ => exists i, n = S i /\ i ∈ done
  | ExHeld => (1 <= n <= _NId)%nat
  | ExRel m => (m < n <= _NId)%nat
  | _ => False
  end.

(** The lock that a process is about to remove because it looks lost *)
Definition breaks (c : pc) : option nat := match c with ShBreak r i => Some (slot r i) | ExBreak _ i => Some (S i) | _ => None end.
(** It is not there any more, or it is the lock of a process that has stopped *)
Definition lost (w : world) (n : nat) : Prop := match fs w !! n with Some l => procs w (l_owner l) = Stopped | None => True end.
Definition prudent (e : event) (w : world) : Prop :=
  match e with Access p => match breaks (procs w p) with Some n => lost w n | None => True end | _ => True end.

Inductive reach (t : Z) : world -> Prop :=
| reach_start : reach t (start t)
| reach_event e w w' : reach t w -> prudent e w -> occurs e w = Some w' -> reach t w'.

Definition in_range (c : pc) : Prop :=
  match c with
  | ShTry r i | ShRead r i | ShStat r i | ShBreak r i => (1 <= r <= _NId /\ i < _NId)%nat
  | ShSleep r => (1 <= r <= _NId)%nat
  | ShHeld n | ShRel n | ShUnlnk n => (1 <= n <= _NId)%nat
  | ExTry done i => forall j, j ∈ done -> (j < _NId)%nat
  | ExStat done i | ExBreak done i => (i < _NId)%nat /\ forall j, j ∈ done -> (j < _NId)%nat
  | _ => True
  end.
Record inv (w : world) : Prop := {
  i_own : forall p n, owns (procs w p) n -> exists l, fs w !! n = Some l /\ l_owner l = p;
  i_range : forall p, in_range (procs w p)
}.

Lemma inv_at p c f w : inv w ->
  (forall q n, q <> p -> owns (procs w q) n -> f !! n = fs w !! n) -> (forall n, owns c n -> exists l, f !! n = Some l /\ l_owner l = p) -> in_range c ->
  inv (at_pc p c f w).
Proof.
  intros [Ho Hr] Hf Hc Hi. split; cbn [at_pc fs procs].
  - intros q n. destruct (Nat.eqb_spec q p) as [->|Hq]; [apply Hc|]. intros Hn. rewrite (Hf q n Hq Hn). by apply Ho.
  - intros q. destruct (q =? p)%nat; [done|apply Hr].
Qed.
Lemma inv_same p c w : inv w -> (forall n, owns c n -> owns (procs w p) n) -> in_range c -> inv (at_pc p c (fs w) w).
Proof. intros Hw Hc Hi. apply inv_at; try done. intros n Hn. by apply (i_own _ Hw), Hc. Qed.
Lemma inv_insert p c w n e : inv w -> fs w !! n = None -> (forall m, owns c m -> m = n \/ owns (procs w p) m) -> in_range c ->
  inv (at_pc p c (<[n := mk_lnk e (now w) p]> (fs w)) w).
Proof.
  intros Hw Hn Hc Hi. assert (forall q m, owns (procs w q) m -> m <> n) as Hne by (intros q m (l & E & _)%(i_own _ Hw) ->; congruence).
  apply inv_at; try done.
  - intros q m _ Hm. apply lookup_insert_ne. intros ->. by apply (Hne q m).
  - intros m [->|Hm]%Hc; [rewrite lookup_insert_eq; by eexists|]. rewrite lookup_insert_ne by (intros ->; by apply (Hne p m)). by apply (i_own _ Hw).
Qed.
Lemma inv_delete p c w n : inv w -> (forall q, q <> p -> ~ owns (procs w q) n) -> (forall m, owns c m -> m <> n /\ owns (procs w p) m) -> in_range c ->
  inv (at_pc p c (delete n (fs w)) w).
Proof.
  intros Hw Hq Hc Hi. apply inv_at; try done.
  - intros q m Hne Hm. apply lookup_delete_ne. intros ->. by apply (Hq q).
  - intros m [Hm Ho]%Hc. rewrite lookup_delete_ne by done. by apply (i_own _ Hw).
Qed.

Lemma own_one w p q n : inv w -> owns (procs w p) n -> owns (procs w q) n -> p = q.
Proof. intros Hw (l & E & <-)%(i_own _ Hw) (l' & E' & <-)%(i_own _ Hw). congruence. Qed.
Lemma lost_free w q n : inv w -> lost w n -> ~ owns (procs w q) n.
Proof. intros Hw Hl Ho. destruct (i_own _ Hw _ _ Ho) as (l & E & Hq). unfold lost in Hl. rewrite E, Hq in Hl. by rewrite Hl in Ho. Qed.

Lemma slot_range r i : (1 <= r <= _NId)%nat -> (i < _NId)%nat -> (1 <= slot r i <= _NId)%nat.
Proof. unfold slot, _NId. intros Hr Hi. destruct (Nat.ltb_spec 16 (r + i)); lia. Qed.

Lemma all_done (done : gset nat) i : (forall j, j ∈ done -> (j < _NId)%nat) -> (_NId <= size done)%nat -> (i < _NId)%nat -> i ∈ done.
Proof.
  intros Hd Hs Hi. assert (done = set_seq 0 _NId) as ->; [|apply elem_of_set_seq; lia].
  apply set_subseteq_size_eq; [|by rewrite size_set_seq]. intros j Hj. apply elem_of_set_seq. pose proof (Hd j Hj). lia.
Qed.

Lemma access_inv p w w' : inv w -> prudent (Access p) w -> access p w = Some w' -> inv w'.
Proof.
  intros Hw Hb. unfold access, prudent, breaks in *. pose proof (i_range _ Hw p) as Hr.
  destruct (procs w p) as [|r i|r i|r i|r i|r|n|n|n|done i|done i|done i| |n|] eqn:Ep; cbn [in_range] in Hr; try discriminate.
  - destruct (fs w !! slot r i) eqn:El; intros [= <-]; [apply inv_same; (done || by rewrite Ep)|].
    apply inv_insert; [done..|cbn; auto|]. destruct Hr. by apply slot_range.
  - assert (forall c, (forall n, owns c n -> False) -> in_range c -> inv (at_pc p c (fs w) w)) as Hs by (intros c Hc Hi; apply inv_same; try done; intros n []%Hc).
    destruct (fs w !! slot r i) as [[[]]|]; intros [= <-]; apply Hs; (done || by destruct Hr).
  - intros [= <-]. apply inv_same; [done|..]; unfold next_shared; destruct (stale _ _), (Nat.ltb_spec (S i) _NId); (done || (destruct Hr; split; done || lia) || by destruct Hr).
  - intros [= <-]. apply inv_delete; [done|intros q _; by apply lost_free|done|done].
  - intros [= <-]. apply inv_same; [done..|]. cbn. unfold _NId in *. lia.
  - intros [= <-]. apply inv_same; [done|..]; destruct (stale w n); (done || by rewrite Ep).
  - intros [= <-]. apply inv_delete; [done| |done..]. intros q Hq Ho. apply Hq. apply (own_one w q p n Hw Ho). by rewrite Ep.
  - destruct (Nat.ltb_spec i _NId) as [Hi|Hi].
    + destruct (bool_decide (i ∈ done)); [intros [= <-]; apply inv_same; (done || by rewrite Ep)|].
      destruct (fs w !! S i) eqn:El; intros [= <-]; [apply inv_same; (done || by rewrite Ep)|].
      apply inv_insert; [done..| |].
      * intros m (j & -> & [Hj%elem_of_singleton|Hj]%elem_of_union); [left; congruence|right]. rewrite Ep. by exists j.
      * intros j [->%elem_of_singleton|Hj]%elem_of_union; [done|by apply Hr].
    + intros [= <-]. apply inv_same; [done|..]; destruct (Nat.ltb_spec (size done) _NId); try (done || by rewrite Ep).
      rewrite Ep. cbn. intros n Hn. exists (n - 1)%nat. split; [lia|]. apply all_done; (done || lia).
  - intros [= <-]. apply inv_same; [done|..]; destruct (stale w (S i)); (done || (by rewrite Ep) || by destruct Hr).
  - intros [= <-]. apply inv_delete; [done|intros q _; by apply lost_free| |by destruct Hr].
    intros m Hm. rewrite Ep. split; [|done]. intros ->. apply (lost_free w p (S i) Hw Hb). by rewrite Ep.
  - destruct (Nat.ltb_spec n _NId); intros [= <-]; [|by apply inv_same].
    apply inv_delete; [done| |rewrite Ep; cbn; lia|done]. intros q Hq Ho. apply Hq. apply (own_one w q p (S n) Hw Ho). rewrite Ep. cbn. lia.
Qed.

Lemma occurs_inv e w w' : inv w -> prudent e w -> occurs e w = Some w' -> inv w'.
Proof.
  intros Hw Hp. destruct e as [p r|p|p|p|p|d]; cbn [occurs].
  - destruct (procs w p) eqn:Ep; try discriminate. destruct ((0 <? r) && (r <=? _NId))%nat eqn:Er; [|discriminate]. intros [= <-].
    apply andb_true_iff in Er as [?%Nat.ltb_lt ?%Nat.leb_le]. apply inv_same; [done..|]. cbn. unfold _NId in *. lia.
  - destruct (procs w p) eqn:Ep; try discriminate. intros [= <-]. apply inv_same; [done| |done]. intros n (j & _ & Hj). set_solver.
  - destruct (procs w p) eqn:Ep; try discriminate; intros [= <-]; (apply inv_same; [done| |]).
    + by rewrite Ep.
    + pose proof (i_range _ Hw p) as Hr. by rewrite Ep in Hr.
    + rewrite Ep. cbn. lia.
    + done.
  - by apply access_inv.
  - intros [= <-]. by apply inv_same.
  - destruct (0 <=? d); [|discriminate]. intros [= <-]. by destruct Hw.
Qed.
Lemma lock_reach_inv t w : reach t w -> inv w.
Proof.
  induction 1 as [|e w w' _ IH Hp E]; [|by eapply occurs_inv]. split; [|done]. intros p n []. 
Qed.

(** C13 The locks exclude. In any interleaving of any number of encoders and servers, where processes may die at any point and
    time may elapse, provided that a lock that is removed because it looks lost is that of a process that has
    stopped (or is no more there): a process that holds the exclusive lock is alone, all locks of holders are in
    the file system under their names, and two holders of shared locks have different ones. *)
Theorem lock_exclusive t w p q : reach t w -> p <> q ->
  (procs w p = ExHeld -> procs w q <> ExHeld /\ forall n, procs w q <> ShHeld n) /\
  (forall n, procs w p = ShHeld n -> (1 <= n <= _NId)%nat /\ (exists l, fs w !! n = Some l /\ l_owner l = p) /\ procs w q <> ShHeld n).
Proof.
  intros Hw%lock_reach_inv Hpq. split.
  - intros Ep. split.
    + intros Eq. apply Hpq. apply (own_one w p q 1 Hw); [rewrite Ep|rewrite Eq]; cbn; unfold _NId; lia.
    + intros n Eq. apply Hpq. pose proof (i_range _ Hw q) as Hr. rewrite Eq in Hr. cbn in Hr. apply (own_one w p q n Hw); [by rewrite Ep|by rewrite Eq].
  - intros n Ep. pose proof (i_range _ Hw p) as Hr. rewrite Ep in Hr. split; [done|]. split; [apply (i_own _ Hw); by rewrite Ep|].
    intros Eq. apply Hpq. apply (own_one w p q n Hw); [by rewrite Ep|by rewrite Eq].
Qed.

(** Runs, with the condition on locks that look lost decided at each event *)
Definition prudentb (e : event) (w : world) : bool :=
  match e with
  | Access p =>
    match breaks (procs w p) with
    | Some n => match fs w !! n with Some l => match procs w (l_owner l) with Stopped => true | _ => false end | None => true end
    | None => true
    end
  | _ => true
  end.
Fixpoint prudent_run (es : list event) (w : world) : option world :=
  match es with [] => Some w | e :: es => if prudentb e w then w ← occurs e w; prudent_run es w else None end.
Lemma prudentb_ok e w : prudentb e w = true -> prudent e w.
Proof.
  destruct e as [| | |p| |]; try done. cbn [prudentb prudent]. destruct (breaks (procs w p)) as [n|]; [|done]. unfold lost.
  destruct (fs w !! n) as [l|]; [|done]. by destruct (procs w (l_owner l)).
Qed.
Lemma prudent_run_reach t es w w' : reach t w -> prudent_run es w = Some w' -> reach t w'.
Proof.
  revert w. induction es as [|e es IH]; intros w Hw; cbn [prudent_run]; [by intros [= <-]|]. destruct (prudentb e w) eqn:Hp; [|done].
  destruct (occurs e w) as [w1|] eqn:E; [|done]. apply IH. eapply reach_event; [exact Hw|by apply prudentb_ok|done].
Qed.

Lemma ends_with_ok {A} (o : option A) (f : A -> bool) : match o with Some x => f x | None => false end = true -> exists x, o = Some x /\ f x = true.
Proof. destruct o; [by eexists|done]. Qed.
Definition is_excl (c : pc) : bool := match c with ExHeld => true | _ => false end.
Definition is_shared (c : pc) (n : nat) : bool := match c with ShHeld m => (m =? n)%nat | _ => false end.
Lemma is_excl_ok c : is_excl c = true -> c = ExHeld.
Proof. by destruct c. Qed.
Lemma is_shared_ok c n : is_shared c n = true -> c = ShHeld n.
Proof. destruct c; try done. by intros ->%Nat.eqb_eq. Qed.

(** A server takes the lock that a dead encoder has left *)
Definition sample_run : list event :=
  [LockShared 2 1; Access 2; Die 2; Tick (11 * 10 ^ 9); LockExcl 1] ++ replicate 20 (Access 1).
Lemma lock_exclusive_witness : exists w, prudent_run sample_run (start (10 ^ 18)) = Some w /\ procs w 1%nat = ExHeld /\ procs w 3%nat <> ExHeld.
Proof.
  destruct (ends_with_ok (prudent_run sample_run (start (10 ^ 18))) (fun w => is_excl (procs w 1%nat))) as (w & E & H1%is_excl_ok); [vm_compute; reflexivity|].
  exists w. split; [exact E|]. split; [exact H1|].
  apply (lock_exclusive (10 ^ 18) w 1 3); [|done|exact H1]. eapply prudent_run_reach; [apply reach_start|exact E].
Defined.

(** ** A race

    A lock that has been released by the time its date is looked at has date 0 and looks lost: what is removed then is the
    lock that another process has just taken. Here no process dies and no time elapses, and a server holds the
    exclusive lock while an encoder holds a shared one. *)
Definition race : list event :=
  [LockShared 2 1; Access 2; LockExcl 1; Access 1; Unlock 2; Access 2; Access 2; Access 1; LockShared 3 1; Access 3] ++ replicate 18 (Access 1).
Lemma lock_race : exists w, run race (start (10 ^ 18)) = Some w /\ procs w 1%nat = ExHeld /\ procs w 3%nat = ShHeld 1.
Proof.
  destruct (ends_with_ok (run race (start (10 ^ 18))) (fun w => is_excl (procs w 1%nat) && is_shared (procs w 3%nat) 1)) as (w & E & H); [vm_compute; reflexivity|].
  apply andb_true_iff in H as [H1%is_excl_ok H3%is_shared_ok]. exact (ex_intro _ w (conj E (conj H1 H3))).
Qed.

(** An exclusive lock that is held for long looks lost to another server, which takes it: only shared locks are meant to expire *)
Definition two_servers : list event := [LockExcl 1] ++ replicate 17 (Access 1) ++ [Tick (11 * 10 ^ 9); LockExcl 2] ++ replicate 65 (Access 2).
Lemma exclusive_expires : exists w, run two_servers (start (10 ^ 18)) = Some w /\ procs w 1%nat = ExHeld /\ procs w 2%nat = ExHeld.
Proof.
  destruct (ends_with_ok (run two_servers (start (10 ^ 18))) (fun w => is_excl (procs w 1%nat) && is_excl (procs w 2%nat))) as (w & E & H); [vm_compute; reflexivity|].
  apply andb_true_iff in H as [H1%is_excl_ok H2%is_excl_ok]. exact (ex_intro _ w (conj E (conj H1 H2))).
Qed.
End CodecLock.
