(* ===== verification/Gather.v ===== *)
(** * What a job accesses: [Gather::AccessInfo], [new_access] and [_reorder] of src/autodep/gather.hh and src/autodep/gather.cc

    The accesses that a job reports are gathered by file; at the end they are ordered by date and the directories
    that are only walked through are dismissed. Dates are [Pdate]s, 64-bit counts of nanoseconds. *)
From S2P Require Import Prelude.
From S2P Require Import Arith.
From S2P Require Import Enum.
From S2P Require Import Crc.
From S2P Require Import Path.
From stdpp Require Import gmap list.
From Stdlib Require Import Ascii Sorted.
Local Open Scope Z_scope.

Module Gather.

(** ** Data *)

Definition Never : Z := u64 (-1).
Definition Future : Z := u64 (-2).

(** The enumerators of [Dflag], [ExtraDflag], [Tflag] and [ExtraTflag] that are used *)
Definition Dflag_Required : Z := 3.
Definition Dflag_Full : Z := 6.
Definition ExtraDflag_Ignore : Z := 1.
Definition ExtraDflag_ReaddirOk : Z := 2.
Definition ExtraDflag_NoHot : Z := 4.
Definition Tflag_Incremental : Z := 1.
Definition Tflag_Static : Z := 4.
Definition ExtraTflag_Ignore : Z := 1.
Definition ExtraTflag_SourceOk : Z := 3.
Definition ExtraTflag_Allow : Z := 4.
Definition DflagsDfltDyn : Z := BitMap.singleton Dflag_Full.

Record MatchFlags := mk_mf { tflags : Z; dflags : Z; extra_tflags : Z; extra_dflags : Z }.
Definition dep_and_target_ok (f : MatchFlags) : bool := BitMap.mem ExtraTflag_SourceOk (extra_tflags f) && negb (BitMap.mem Tflag_Incremental (tflags f)).
Definition mf_or (f g : MatchFlags) : MatchFlags :=
  mk_mf (BitMap.union (tflags f) (tflags g)) (BitMap.union (dflags f) (dflags g))
    (BitMap.union (extra_tflags f) (extra_tflags g)) (BitMap.union (extra_dflags f) (extra_dflags g)).

Record AccessDigest := mk_ad { ad_write : Bool3; ad_read_dir : bool; ad_force_is_dep : bool; ad_accesses : Z; ad_flags : MatchFlags }.

(** [DepInfo]: a checksum, the [_val] of a [FileSig], or the size and the [Ddate] of a [FileInfo] *)
Inductive DepInfo : Type := DICrc (crc : Z) | DISig (val : Z) | DIInfo (sz date : Z).

(** The [FileTag] in the low bits of a signature or of a date *)
Definition tag_val (v : Z) : Z := Z.land v 7.
Definition tag_of (v : Z) : option FileTag :=
  match tag_val v with 0 => Some TNone | 1 => Some TDir | 2 => Some TLnk | 3 => Some TReg | 4 => Some TEmpty | 5 => Some TExe | _ => None end.
Definition tag_exists (v : Z) : bool := 2 <=? tag_val v.

(** [operator+], [exists()], [seen(a)] *)
Definition di_some (di : DepInfo) : bool := match di with DICrc c => negb (c =? Crc.Unknown) | _ => true end.
Definition di_exists (di : DepInfo) : Bool3 :=
  let bool3 (b : bool) := if b then Yes else No in
  match di with
  | DICrc c => if c =? Crc.Unknown then Enum.Maybe else bool3 (negb (c =? Crc.None))
  | DISig v | DIInfo _ v => bool3 (tag_exists v)
  end.
Definition di_yes (di : DepInfo) : bool := match di_exists di with Yes => true | _ => false end.
Definition di_crc (di : DepInfo) : outcome Z :=
  match di with
  | DICrc c => Ret c
  | DISig v | DIInfo _ v => match tag_of v with Some t => Ret (Crc.of_tag t) | None => Crash end
  end.
Definition di_seen (di : DepInfo) (a : Z) : outcome bool :=
  if BitMap.is_empty a then Ret false
  else
    _ ← swear (di_some di);
    crc ← di_crc di;
    m ← Crc.match_ 64 Crc.None crc a;
    Ret (negb m).

(** [AccessInfo]; [_read] has a date for each [Access] *)
Record AccessInfo := mk_ai {
  flags : MatchFlags; force_is_dep : bool; dep_info : DepInfo;
  _read : list Z; _read_dir : Z; _write : Z; _allow : Z; _required : Z; _seen : Z; _read_ignore : Z; _write_ignore : Z; _no_hot : Z }.
Definition ai_new : AccessInfo :=
  mk_ai (mk_mf 0 0 0 0) false (DICrc Crc.Unknown) [Never; Never; Never; Never] Never Never Never Never Never Future Future Never.

Definition set_read (r : list Z) (ai : AccessInfo) : AccessInfo :=
  mk_ai (flags ai) (force_is_dep ai) (dep_info ai) r (_read_dir ai) (_write ai) (_allow ai) (_required ai) (_seen ai) (_read_ignore ai) (_write_ignore ai) (_no_hot ai).
Definition clear_accesses (ai : AccessInfo) : AccessInfo := set_read (map (fun _ => Never) (_read ai)) ai.
Definition clear_lnk (ai : AccessInfo) : AccessInfo := set_read (<[Z.to_nat Access.Lnk := Never]> (_read ai)) ai.

(** ** What is known of a file *)

Definition _max_write (ai : AccessInfo) : Z := _write_ignore ai.
Definition _max_read (phys : bool) (ai : AccessInfo) : Z :=
  let res := Z.min (_read_ignore ai) (_write ai) in
  if negb phys && negb (dep_and_target_ok (flags ai)) then Z.min res (_allow ai) else res.
Definition accesses (ai : AccessInfo) : Z :=
  let ma := _max_read false ai in
  BitMap.of_list (omap (fun '(a, d) => if d <=? ma then Some a else None) (zip (seqZ 0 Access.N) (_read ai))).
Definition allow (ai : AccessInfo) : bool :=
  (_allow ai <? _max_write ai) && (BitMap.mem Tflag_Static (tflags (flags ai)) || (_write ai <? _write_ignore ai) || (foldl Z.min Never (_read ai) <? _read_ignore ai)).
Definition seen (ai : AccessInfo) : bool := _seen ai <? _max_read true ai.
Definition read_dir (ai : AccessInfo) : bool := (_read_dir ai <? Never) && (_read_dir ai <? _max_read true ai).
Definition earlier (d res : Z) : Z := if d <? res then d else res.
Definition first_read (ai : AccessInfo) : Z :=
  let res := foldl (fun res d => earlier d res) Never (_read ai) in
  let res := earlier (_read_dir ai) res in
  let res := earlier (_required ai) res in
  if res <=? _max_read false ai then res else Never.
Definition first_write (ai : AccessInfo) : Z := if _write ai <=? _max_write ai then _write ai else Never.
Definition sort_key (ai : AccessInfo) : Z * bool :=
  let fr := first_read ai in
  if fr <? Never then (fr, false) else (first_write ai, true).

(** ** Recording an access *)

(** [if ( pd<d && c ) d = pd] *)
Definition stamp (pd : Z) (c : bool) (d : Z) : Z := if (pd <? d) && c then pd else d.

Definition update (pd : Z) (ad : AccessDigest) (di : DepInfo) (ai : AccessInfo) : outcome AccessInfo :=
  _ ← swear (match ad_write ad with Enum.Maybe => false | _ => true end);
  let f := ad_flags ad in
  let f :=
    if BitMap.mem ExtraTflag_Ignore (extra_tflags f) then mk_mf (tflags f) (dflags f) (extra_tflags f) (BitMap.union (extra_dflags f) (BitMap.singleton ExtraDflag_Ignore))
    else f in
  s ← (if pd <? _seen ai then di_seen di (ad_accesses ad) else Ret false);
  let pd1 := if pd =? 0 then pd else pd - 1 in
  Ret (mk_ai
    (mf_or (flags ai) f)
    (force_is_dep ai || ad_force_is_dep ad)
    (if di_some di && forallb (fun d => pd <? d) (_read ai) then di else dep_info ai)
    (zip_with (fun a d => stamp pd (BitMap.mem a (ad_accesses ad)) d) (seqZ 0 Access.N) (_read ai))
    (stamp pd (ad_read_dir ad) (_read_dir ai))
    (stamp pd (match ad_write ad with Yes => true | _ => false end) (_write ai))
    (stamp pd (BitMap.mem ExtraTflag_Allow (extra_tflags f)) (_allow ai))
    (stamp pd (BitMap.mem Dflag_Required (dflags f)) (_required ai))
    (stamp pd s (_seen ai))
    (stamp pd1 (BitMap.mem ExtraDflag_Ignore (extra_dflags f)) (_read_ignore ai))
    (stamp pd1 (BitMap.mem ExtraTflag_Ignore (extra_tflags f)) (_write_ignore ai))
    (stamp pd (BitMap.mem ExtraDflag_NoHot (extra_dflags f)) (_no_hot ai))).

Definition msb_msk (w b : Z) : Z := uwrap w (- uwrap w (Z.shiftl 1 b)).

(** [FileSig(fi)], [digest] being the checksum of the date and the size, and [FileSig::operator==] on values *)
Definition sig_info (digest : Z -> Z -> Z) (sz date : Z) : outcome Z :=
  match tag_of date with
  | Some (TNone | TDir) => Ret (tag_val date)
  | Some TEmpty => Ret (Z.lor (tag_val date) (Z.land date (msb_msk 64 3)))
  | Some (TLnk | TReg | TExe) => Ret (Z.lor (tag_val date) (u64 (Z.shiftl (digest date sz) 3)))
  | None => Crash
  end.
Definition sig_eq (v w : Z) : bool := if negb (tag_exists v) && negb (tag_exists w) then true else v =? w.

(** [DepInfo::sig()] *)
Definition di_sig (digest : Z -> Z -> Z) (di : DepInfo) : outcome Z :=
  match di with DICrc _ => Crash | DISig v => Ret v | DIInfo sz date => sig_info digest sz date end.

(** [new_access]: [crc_of] and [sig_of] read the file when a write is not confirmed *)
Definition written (crc_of sig_of : path -> Z) (digest : Z -> Z -> Z) (file : path) (di : DepInfo) : outcome bool :=
  match di with
  | DICrc c => Ret (negb (crc_of file =? c))
  | _ => v ← di_sig digest di; Ret (negb (sig_eq (sig_of file) v))
  end.
Definition new_access (crc_of sig_of : path -> Z) (digest : Z -> Z -> Z) (pd : Z) (file : path) (ad : AccessDigest) (di : DepInfo) (late : Bool3)
    (accs : gmap path AccessInfo) : outcome (gmap path AccessInfo) :=
  _ ← swear (bool_decide (file <> []));
  _ ← swear (negb (pd =? 0));
  _ ← swear (match late, ad_write ad with Enum.Maybe, No => true | Enum.Maybe, _ => false | _, _ => true end);
  let info := default ai_new (accs !! file) in
  w ← (match ad_write ad with
       | Enum.Maybe => b ← written crc_of sig_of digest file (dep_info info); Ret (if b : bool then Yes else No)
       | w => Ret w
       end);
  info' ← update pd (mk_ad w (ad_read_dir ad) (ad_force_is_dep ad) (ad_accesses ad) (ad_flags ad)) di info;
  Ret (<[file := info']> accs).

(** ** Ordering the accesses *)

Definition entry : Type := path * AccessInfo.
Definition has_accesses (ai : AccessInfo) : bool := negb (BitMap.is_empty (accesses ai)).

(** [stable_sort] by [sort_key] *)
Definition key_lt (a b : Z * bool) : bool := (a.1 <? b.1) || ((a.1 =? b.1) && negb a.2 && b.2).
Fixpoint sort_insert (e : entry) (l : list entry) : list entry :=
  match l with
  | [] => [e]
  | e' :: l' => if key_lt (sort_key e'.2) (sort_key e.2) then e' :: sort_insert e l' else e :: l
  end.
Definition stable_sort (l : list entry) : list entry := foldr sort_insert [] l.

(** First pass. The loop on [lasts]: the new state, and whether the end of the loop is reached *)
Fixpoint from_next (file : path) (ai : AccessInfo) (lasts : list entry) : AccessInfo * bool :=
  match lasts with
  | [] => (ai, true)
  | (g, gi) :: lasts' =>
    if negb (Disk.lies_within g file) then from_next file ai lasts'
    else if di_yes (dep_info gi) then (clear_accesses ai, false)
    else let ai := clear_lnk ai in if negb (has_accesses ai) then (ai, false) else from_next file ai lasts'
  end.
(** From the last entry to the first: the entries, [lasts] and [last_pd] *)
Fixpoint backward (l : list entry) : list entry * list entry * Z :=
  match l with
  | [] => ([], [], Never)
  | (file, ai) :: l' =>
    let '(res, lasts, last_pd) := backward l' in
    if negb (has_accesses ai) then ((file, ai) :: res, lasts, last_pd)
    else
      let '(ai, cont) := from_next file ai lasts in
      if negb cont then ((file, ai) :: res, lasts, last_pd)
      else
        let fr := first_read ai in
        let '(lasts, last_pd) := if fr <? last_pd then ([], fr) else (lasts, last_pd) in
        ((file, ai) :: res, lasts ++ [(file, ai)], last_pd)
  end.

(** Second pass. The walk to the uphill directories, each being shorter than the previous one: [fuel] is the
    length of the name *)
Fixpoint walk (fuel : nat) (name : path) (exists_ : bool) (dirs : gmap path bool) : gmap path bool :=
  match fuel with
  | O => dirs
  | S fuel =>
    match Disk.dir_name_s name 1 with
    | Ret dir_s =>
      match dirs !! dir_s with
      | None => walk fuel dir_s exists_ (<[dir_s := exists_]> dirs)
      | Some b => if implb exists_ b then dirs else walk fuel dir_s exists_ (<[dir_s := exists_]> dirs)
      end
    | _ => dirs
    end
  end.
Definition useless (ai : AccessInfo) : bool :=
  (first_read ai =? Never) && (first_write ai =? Never) && BitMap.is_empty (tflags (flags ai)) && (dflags (flags ai) =? DflagsDfltDyn)
  && (negb (read_dir ai) || BitMap.mem ExtraDflag_ReaddirOk (extra_dflags (flags ai))).
Definition from_prev (file : path) (ai : AccessInfo) (dirs : gmap path bool) : AccessInfo :=
  match dirs !! (file ++ [slash]) with
  | Some true => clear_accesses ai
  | Some false => clear_lnk ai
  | None => ai
  end.
Fixpoint forward (l : list entry) (dirs : gmap path bool) : list entry :=
  match l with
  | [] => []
  | (file, ai) :: l' =>
    let ai := from_prev file ai dirs in
    if useless ai then forward l' dirs
    else (file, ai) :: forward l' (walk (S (length file)) file (di_yes (dep_info ai)) dirs)
  end.

(** [accs]: the entries in the order of the hash table *)
Definition _reorder (accs : list entry) : list entry := forward (backward (stable_sort accs)).1.1 ∅.

(** ** Lemmas on the state of a file *)

(** A state has a date for each access, and dates before which accesses count *)
Definition ai_wf (ai : AccessInfo) : Prop := length (_read ai) = 4%nat /\ _read_ignore ai <= Future.

Lemma max_read_le ai : ai_wf ai -> _max_read false ai < Never.
Proof. intros [_ H]. unfold _max_read. change Never with (Future + 1). destruct (negb false && _); lia. Qed.

Lemma reads_inv ai : ai_wf ai -> exists l r s e, _read ai = [l; r; s; e].
Proof. intros [H _]. destruct (_read ai) as [|l [|r [|s [|e [|]]]]]; try done. by exists l, r, s, e. Qed.

(** [acc a ai]: [a] is one of the accesses that count *)
Definition acc (a : Z) (ai : AccessInfo) : Prop := 0 <= a < Access.N /\ BitMap.mem a (accesses ai) = true.

Lemma mem_accesses a ai : ai_wf ai -> 0 <= a < Access.N ->
  BitMap.mem a (accesses ai) = (nth (Z.to_nat a) (_read ai) Never <=? _max_read false ai).
Proof.
  intros Hw Ha. unfold accesses. destruct (reads_inv ai Hw) as (l & r & s & e & ->). unfold Access.N in *.
  change (seqZ 0 4) with [0; 1; 2; 3]. cbn [zip zip_with omap list_omap].
  assert (a = 0 \/ a = 1 \/ a = 2 \/ a = 3) as Hc by lia.
  destruct Hc as [-> | [-> | [-> | ->]]];
    [change (Z.to_nat 0) with 0%nat|change (Z.to_nat 1) with 1%nat|change (Z.to_nat 2) with 2%nat|change (Z.to_nat 3) with 3%nat]; cbn [nth];
    destruct (l <=? _), (r <=? _), (s <=? _), (e <=? _); reflexivity.
Qed.

Lemma acc_read a ai : ai_wf ai -> acc a ai <-> 0 <= a < Access.N /\ nth (Z.to_nat a) (_read ai) Never <= _max_read false ai.
Proof. intros Hw. unfold acc. split; intros [Ha H]; (split; [done|]); rewrite mem_accesses in *; by try apply Z.leb_le. Qed.

Lemma has_accesses_true ai : ai_wf ai -> has_accesses ai = true -> exists a, acc a ai.
Proof.
  intros Hw. unfold acc, has_accesses, accesses. destruct (reads_inv ai Hw) as (l & r & s & e & ->).
  change (seqZ 0 Access.N) with [0; 1; 2; 3]. cbn [zip zip_with omap list_omap].
  destruct (l <=? _); [by exists 0; destruct (r <=? _), (s <=? _), (e <=? _)|].
  destruct (r <=? _); [by exists 1; destruct (s <=? _), (e <=? _)|].
  destruct (s <=? _); [by exists 2; destruct (e <=? _)|].
  destruct (e <=? _); [by exists 3|done].
Qed.

Lemma acc_has a ai : acc a ai -> has_accesses ai = true.
Proof.
  intros [Ha H]. unfold has_accesses, BitMap.is_empty. destruct (Z.eqb_spec (accesses ai) 0) as [E|]; [|done].
  rewrite E, BitMap.mem_testbit, Z.testbit_0_l in H by lia. done.
Qed.

Lemma clear_accesses_wf ai : ai_wf ai -> ai_wf (clear_accesses ai).
Proof. intros [H ?]. split; [|done]. cbn. by rewrite length_map. Qed.
Lemma clear_lnk_wf ai : ai_wf ai -> ai_wf (clear_lnk ai).
Proof. intros [H ?]. split; [|done]. cbn. by rewrite length_insert. Qed.

Lemma acc_clear_accesses a ai : ai_wf ai -> ~ acc a (clear_accesses ai).
Proof.
  intros Hw. rewrite acc_read by by apply clear_accesses_wf. intros [_ H]. have (max_read_le _ (clear_accesses_wf _ Hw)) as Hm.
  cbn [clear_accesses _read set_read] in H. rewrite (map_nth (fun _ => Never) (_read ai) Never) in H. lia.
Qed.
Lemma acc_clear_lnk a ai : ai_wf ai -> acc a (clear_lnk ai) <-> acc a ai /\ a <> Access.Lnk.
Proof.
  intros Hw. rewrite !acc_read by (try apply clear_lnk_wf; done). have (max_read_le _ (clear_lnk_wf _ Hw)) as Hm.
  change (_max_read false (clear_lnk ai)) with (_max_read false ai) in *. unfold clear_lnk. cbn [set_read _read].
  destruct (reads_inv ai Hw) as (l & r & s & e & ->). unfold Access.N, Access.Lnk in *. cbn [Z.to_nat].
  destruct (decide (a = 0)) as [->|]; [simpl; lia|]. 
  split; [intros [? H]|intros [[? H] _]]; (destruct (Z.to_nat a) as [|k] eqn:E; [lia|]); cbn [insert list_insert nth] in *; intuition lia.
Qed.

(** A file with an access that counts is never dismissed *)
Lemma first_read_acc a ai : ai_wf ai -> acc a ai -> first_read ai < Never.
Proof.
  intros Hw [Ha H]%acc_read; [|done]. have (max_read_le _ Hw) as Hm. unfold first_read, earlier.
  destruct (reads_inv ai Hw) as (l & r & s & e & Er). rewrite Er in *. unfold Access.N in *.
  assert (a = 0 \/ a = 1 \/ a = 2 \/ a = 3) as Hc by lia. cbn [foldl].
  destruct Hc as [-> | [-> | [-> | ->]]];
    [change (Z.to_nat 0) with 0%nat in H|change (Z.to_nat 1) with 1%nat in H|change (Z.to_nat 2) with 2%nat in H|change (Z.to_nat 3) with 3%nat in H]; cbn [nth] in H;
    repeat (case_match; b2p); lia.
Qed.
Lemma not_useless a ai : ai_wf ai -> acc a ai -> useless ai = false.
Proof. intros Hw H. have (first_read_acc a ai Hw H). unfold useless. by rewrite (proj2 (Z.eqb_neq (first_read ai) Never)) by lia. Qed.

(** ** Lemmas on the two passes *)

(** [g] is below the directory [f] *)
Definition within (g f : path) : Prop := f ++ [slash] `prefix_of` g.
Lemma within_trans h g f : within h g -> within g f -> within h f.
Proof. unfold within. intros Hh Hg. etrans; [exact Hg|]. etrans; [|exact Hh]. by apply prefix_app_r. Qed.

(** The name of a file, not a series of [..] *)
Definition file_name (f : path) : bool :=
  negb (Disk.is_dir_name f) && bool_decide (f <> str ".") && negb (Disk.ends_with f (str "/..")) && bool_decide (f <> str "..").
Lemma lies_within_file g f : file_name f = true -> Disk.lies_within g f = true -> within g f.
Proof.
  unfold file_name, Disk.lies_within. rewrite !andb_true_iff, negb_true_iff. intros [[[-> H1] H2] H3].
  rewrite bool_decide_eq_true in H1. rewrite (bool_decide_eq_false_2 (f = str ".")) by done. rewrite H2, H3. cbn [andb]. apply Disk.starts_slash.
Qed.

(** [ai'] is [ai] without some of its accesses *)
Record shrunk (ai ai' : AccessInfo) : Prop := {
  sh_wf : ai_wf ai'; sh_info : dep_info ai' = dep_info ai; sh_flags : flags ai' = flags ai;
  sh_write : first_write ai' = first_write ai;
  sh_sub : forall a, acc a ai' -> acc a ai;
  sh_lnk : forall a, a <> Access.Lnk -> acc a ai -> has_accesses ai' = true -> acc a ai' }.

Lemma shrunk_refl ai : ai_wf ai -> shrunk ai ai.
Proof. by constructor. Qed.
Lemma shrunk_trans a b c : shrunk a b -> shrunk b c -> shrunk a c.
Proof.
  intros [? E1 F1 W1 H1 L1] [? E2 F2 W2 H2 L2]. constructor; [done|congruence..|auto|].
  intros x Hx Ha Hc. apply L2; [done| |done]. apply L1; [done..|]. apply has_accesses_true in Hc as [y Hy]; [|done]. eapply acc_has, H2, Hy.
Qed.
Lemma shrunk_accesses ai : ai_wf ai -> shrunk ai (clear_accesses ai).
Proof.
  intros Hw. constructor; [by apply clear_accesses_wf|done..| |].
  - intros a H. by apply acc_clear_accesses in H.
  - intros a _ _ [b H]%has_accesses_true; [|by apply clear_accesses_wf]. by apply acc_clear_accesses in H.
Qed.
Lemma shrunk_lnk ai : ai_wf ai -> shrunk ai (clear_lnk ai).
Proof.
  intros Hw. constructor; [by apply clear_lnk_wf|done..| |].
  - intros a H. by apply acc_clear_lnk in H as [? _].
  - intros a Ha H _. by apply acc_clear_lnk.
Qed.
#[local] Hint Resolve shrunk_refl shrunk_accesses shrunk_lnk clear_lnk_wf : core.

(** Access [a] to [f] is covered by an entry of [l] below [f] *)
Definition covered (a : Z) (f : path) (l : list entry) : Prop :=
  exists g gi, (g, gi) ∈ l /\ within g f /\ (di_yes (dep_info gi) = true \/ a = Access.Lnk).
Lemma covered_sub a f l l' : l ⊆ l' -> covered a f l -> covered a f l'.
Proof. intros Hl (g & gi & Hg & H). exists g, gi. auto. Qed.

Lemma from_next_spec file ai lasts : ai_wf ai -> file_name file = true -> has_accesses ai = true ->
  let '(ai', cont) := from_next file ai lasts in
  shrunk ai ai' /\ (cont = true -> has_accesses ai' = true) /\ forall a, acc a ai -> acc a ai' \/ covered a file lasts.
Proof.
  intros Hw Hf. revert ai Hw. induction lasts as [|[g gi] lasts IH]; intros ai Hw Ha; cbn [from_next]; [auto|].
  assert (lasts ⊆ (g, gi) :: lasts) as Hs by set_solver.
  destruct (Disk.lies_within g file) eqn:Eg; cbn [negb].
  - apply lies_within_file in Eg; [|done]. destruct (di_yes (dep_info gi)) eqn:Ey.
    + split_and!; [auto|done|]. intros a _. right. exists g, gi. split; [left|auto].
    + assert (forall a, acc a ai -> acc a (clear_lnk ai) \/ covered a file ((g, gi) :: lasts)) as Hl.
      { intros a H. destruct (decide (a = Access.Lnk)) as [E|E]; [right; exists g, gi; split; [left|auto]|left; by apply acc_clear_lnk]. }
      destruct (has_accesses (clear_lnk ai)) eqn:Eh; cbn [negb]; [|by split_and!; auto].
      specialize (IH (clear_lnk ai) (clear_lnk_wf _ Hw) Eh). destruct (from_next file (clear_lnk ai) lasts) as [ai' cont].
      destruct IH as (S1 & S2 & S3). split_and!; [eapply shrunk_trans; eauto|done|]. intros a H.
      destruct (Hl a H) as [H'|H']; [|by right]. destruct (S3 a H') as [?|?]; [by left|right; eauto using covered_sub].
  - specialize (IH ai Hw Ha). destruct (from_next file ai lasts) as [ai' cont]. destruct IH as (S1 & S2 & S3).
    split_and!; [done..|]. intros a H. destruct (S3 a H) as [?|?]; [by left|right; eauto using covered_sub].
Qed.

(** First pass: an access is kept, or covered by an entry that still has accesses *)
Definition live (l : list entry) : list entry := filter (fun e => has_accesses e.2 = true) l.
Definition passed (res : list entry) (e e' : entry) : Prop :=
  e'.1 = e.1 /\ shrunk e.2 e'.2 /\ forall a, acc a e.2 -> acc a e'.2 \/ covered a e.1 (live res).

Lemma live_cons e l : live l ⊆ live (e :: l).
Proof. unfold live. rewrite filter_cons. case_decide; set_solver. Qed.
Lemma passed_mono res res' e e' : live res ⊆ live res' -> passed res e e' -> passed res' e e'.
Proof. intros Hl (? & ? & H). split_and!; [done..|]. intros a Ha. destruct (H a Ha); [by left|right; eauto using covered_sub]. Qed.

(** What [_reorder] is given *)
Definition entry_ok (e : entry) : Prop := ai_wf e.2 /\ (has_accesses e.2 = true -> file_name e.1 = true).

Lemma backward_spec l : Forall entry_ok l ->
  let '(res, lasts, _) := backward l in lasts ⊆ live res /\ Forall2 (passed res) l res.
Proof.
  induction 1 as [|[file ai] l [Hw Hf] Hl IH]; cbn [backward]; [done|]. destruct (backward l) as [[res lasts] last_pd].
  destruct IH as [Hs H2]. cbn [fst snd] in *.
  assert (forall e, Forall2 (passed (e :: res)) l res) as H2' by (intros e; eapply Forall2_impl; [exact H2|]; intros; eapply passed_mono; [apply live_cons|done]).
  assert (forall e, lasts ⊆ live (e :: res)) as Hs' by (intros e; etrans; [exact Hs|apply live_cons]).
  destruct (has_accesses ai) eqn:Ea; cbn [negb].
  - have (from_next_spec file ai lasts Hw (Hf eq_refl) Ea) as Hn. destruct (from_next file ai lasts) as [ai' cont].
    destruct Hn as (S1 & S2 & S3). assert (passed ((file, ai') :: res) (file, ai) (file, ai')) as Hp.
    { split_and!; [done..|]. intros a Hin. destruct (S3 a Hin); [by left|right; eauto using covered_sub]. }
    destruct cont; cbn [negb]; [|split; [done|by constructor]].
    specialize (S2 eq_refl). assert ((file, ai') ∈ live ((file, ai') :: res)) as Hin by (apply list_elem_of_filter; split; [done|left]).
    specialize (Hs' (file, ai')). destruct (first_read ai' <? last_pd); (split; [set_solver|by constructor]).
  - split; [done|]. constructor; [|done]. split_and!; [done|by apply shrunk_refl|by auto].
Qed.

(** The walk: it records directories above the file; [S (length file)] steps are enough *)
Definition dirs_ok (dirs : gmap path bool) (l : list entry) : Prop :=
  forall d b, dirs !! d = Some b -> exists g gi, (g, gi) ∈ l /\ d `prefix_of` g /\ (b = true -> di_yes (dep_info gi) = true).

Lemma dir_name_prefix name d : Disk.dir_name_s name 1 = Ret d -> d `prefix_of` name.
Proof. intros E. pose proof (Disk.dir_base name 1) as H. rewrite E in H. destruct (Disk.base_name name 1) as [b| |]; [|done..]. exists b. by destruct H. Qed.

Lemma walk_ok fuel name file ai dirs l : name `prefix_of` file -> dirs_ok dirs ((file, ai) :: l) ->
  dirs_ok (walk fuel name (di_yes (dep_info ai)) dirs) ((file, ai) :: l).
Proof.
  revert name dirs. induction fuel as [|fuel IH]; intros name dirs Hn Hd; cbn [walk]; [done|].
  destruct (Disk.dir_name_s name 1) as [dir_s| |] eqn:E; [|done..]. assert (dir_s `prefix_of` file) as Hp by (etrans; [by eapply dir_name_prefix|done]).
  assert (dirs_ok (<[dir_s := di_yes (dep_info ai)]> dirs) ((file, ai) :: l)) as Hi.
  { intros d b [[<- <-]|[_ H]]%lookup_insert_Some; [|by apply Hd]. exists file, ai. split; [left|done]. }
  destruct (dirs !! dir_s); [|by apply IH]. destruct (implb _ _); [done|by apply IH].
Qed.

(** Second pass *)
Lemma from_prev_spec file ai dirs l : ai_wf ai -> dirs_ok dirs l ->
  shrunk ai (from_prev file ai dirs) /\ forall a, acc a ai -> acc a (from_prev file ai dirs) \/ covered a file l.
Proof.
  intros Hw Hd. unfold from_prev. destruct (dirs !! (file ++ [slash])) as [b|] eqn:E; [|auto].
  apply Hd in E as (g & gi & Hg & Hp & Hb). destruct b; (split; [auto|]); intros a Ha; [right; exists g, gi; auto|].
  destruct (decide (a = Access.Lnk)); [right; exists g, gi; auto|left; by apply acc_clear_lnk].
Qed.

Lemma forward_spec l dirs done_ : Forall (fun e => ai_wf e.2) l -> dirs_ok dirs done_ -> forall f ai, (f, ai) ∈ l ->
  (exists ai', (f, ai') ∈ forward l dirs /\ shrunk ai ai' /\ forall a, acc a ai -> acc a ai' \/ covered a f (done_ ++ forward l dirs))
  \/ forall a, acc a ai -> covered a f (done_ ++ forward l dirs).
Proof.
  intros Hl. revert dirs done_. induction Hl as [|[file ai0] l Hw Hl IH]; intros dirs done_ Hd f ai Hin; [by apply not_elem_of_nil in Hin|].
  cbn [forward]. destruct (from_prev_spec file ai0 dirs done_ Hw Hd) as [Hs Hc]. set (ai1 := from_prev file ai0 dirs) in *.
  destruct (useless ai1) eqn:Eu.
  - apply elem_of_cons in Hin as [[= -> ->]|Hin]; [|by apply IH]. right. intros a Ha. destruct (Hc a Ha) as [H|H].
    + apply not_useless in H; [congruence|apply Hs].
    + eapply covered_sub; [|exact H]. set_solver.
  - set (dirs1 := walk _ _ _ _). set (R := forward l dirs1).
    assert (dirs_ok dirs1 ((file, ai1) :: done_)) as Hd1.
    { apply walk_ok; [done|]. intros d b H. apply Hd in H as (g & gi & ? & ?). exists g, gi. split; [by right|done]. }
    assert (((file, ai1) :: done_) ++ R ⊆ done_ ++ (file, ai1) :: R) as Hsub by set_solver.
    apply elem_of_cons in Hin as [[= -> ->]|Hin].
    + left. exists ai1. split_and!; [left|done|]. intros a Ha. destruct (Hc a Ha); [by left|]. right. eapply covered_sub; [|done]. set_solver.
    + destruct (IH dirs1 _ Hd1 f ai Hin) as [(ai' & Hi & Hsh & H)|H].
      * left. exists ai'. split_and!; [by right|done|]. intros a Ha. destruct (H a Ha); [by left|]. right. eauto using covered_sub.
      * right. intros a Ha. eauto using covered_sub.
Qed.

(** Entries are only dismissed or shrunk, in order *)
Lemma forward_sub l dirs : Forall (fun e => ai_wf e.2) l ->
  (forward l dirs).*1 `sublist_of` l.*1 /\ forall f ai', (f, ai') ∈ forward l dirs -> exists ai, (f, ai) ∈ l /\ shrunk ai ai'.
Proof.
  intros Hl. revert dirs. induction Hl as [|[file ai] l Hw Hl IH]; intros dirs; cbn [forward]; [split; [done|by intros ?? ?%not_elem_of_nil]|].
  assert (shrunk ai (from_prev file ai dirs)) as Hs by (unfold from_prev; repeat case_match; auto).
  destruct (useless _).
  - destruct (IH dirs) as [I1 I2]. split; [by constructor|]. intros f ai' H. destruct (I2 f ai' H) as (ai0 & ? & ?). exists ai0. split; [by right|done].
  - destruct (IH (walk (S (length file)) file (di_yes (dep_info (from_prev file ai dirs))) dirs)) as [I1 I2]. split; [by constructor|].
    intros f ai' [[= -> ->]|H]%elem_of_cons; [exists ai; split; [left|done]|]. destruct (I2 f ai' H) as (ai0 & ? & ?). exists ai0. split; [by right|done].
Qed.

Lemma sort_insert_perm e l : sort_insert e l ≡ₚ e :: l.
Proof. induction l as [|e' l IH]; simpl; [done|]. case_match; [|done]. rewrite IH. constructor. Qed.
Lemma stable_sort_perm l : stable_sort l ≡ₚ l.
Proof. induction l as [|e l IH]; simpl; [done|]. by rewrite sort_insert_perm, IH. Qed.

Lemma rfind_lt file k i : Disk.rfind file k = Some i -> (i < k)%nat.
Proof.
  unfold Disk.rfind. destruct (Disk.rfind_slash_split (reverse (take k file))) as (x & E & _). apply (f_equal length) in E.
  rewrite length_reverse, length_app, length_take in E. destruct (Disk.rfind_slash _) as [|c r]; [done|]. intros [= <-]. simpl in *. lia.
Qed.

(** The steps of the walk are enough: a directory is shorter than what it contains *)
Lemma dir_name_shorter name d : Disk.dir_name_s name 1 = Ret d -> (length d < length name)%nat.
Proof.
  unfold Disk.dir_name_s, Disk._dir_base_name. cbn [Nat.eqb]. case_bool_decide as Hn; [done|]. intros E.
  assert (length name <> 0%nat) as Hl by by destruct name.
  destruct (Disk.uphill 1 name _) as [[i|]| |] eqn:Eu in E; cbn in E; [|injection E as <-; simpl; lia|done..]. injection E as <-.
  assert ((S i < length name)%nat); [|rewrite length_take; lia].
  cbn [Disk.uphill] in Eu. destruct (length name - _)%nat as [|p] eqn:Ep; [done|]. destruct (Disk.rfind name (S p)) as [j|] eqn:Ej; [|by case_bool_decide].
  case_bool_decide; [done|]. injection Eu as ->. apply rfind_lt in Ej as Hj. apply Disk.rfind_spec in Ej.
  destruct (Disk.is_dir_name name) eqn:Ed; [lia|]. unfold Disk.is_dir_name in Ed. apply orb_false_iff in Ed as [_ Ed].
  rewrite bool_decide_eq_false, last_lookup in Ed. destruct (decide (i = pred (length name))) as [->|]; [done|lia].
Qed.
Lemma walk_fuel f1 f2 name ex dirs : (length name < f1)%nat -> (length name < f2)%nat -> walk f1 name ex dirs = walk f2 name ex dirs.
Proof.
  revert f2 name dirs. induction f1 as [|f1 IH]; intros [|f2] name dirs H1 H2; [lia..|]. cbn [walk].
  destruct (Disk.dir_name_s name 1) as [d| |] eqn:E; [|done..]. apply dir_name_shorter in E.
  destruct (dirs !! d); [|apply IH; lia]. destruct (implb _ _); [done|apply IH; lia].
Qed.

Lemma sort_insert_sorted e l : Sorted (fun a b => key_lt (sort_key b.2) (sort_key a.2) = false) l ->
  Sorted (fun a b => key_lt (sort_key b.2) (sort_key a.2) = false) (sort_insert e l).
Proof.
  assert (forall a b : Z * bool, key_lt a b = true -> key_lt b a = false) as Hasym.
  { intros [x p] [y q]. unfold key_lt. cbn [fst snd]. rewrite orb_true_iff, orb_false_iff, Z.ltb_lt, Z.ltb_ge, (Z.eqb_sym y).
    destruct p, q; rewrite ?andb_true_r, ?andb_false_r; destruct (Z.eqb_spec x y); simpl; (split; [|try done]); intuition lia. }
  induction 1 as [|e' l Hl IH Hh]; cbn [sort_insert]; [by repeat constructor|].
  destruct (key_lt (sort_key e'.2) (sort_key e.2)) eqn:E; [|by repeat constructor].
  constructor; [done|]. destruct l as [|e'' l]; cbn [sort_insert]; [constructor; by apply Hasym|].
  inversion Hh; subst. case_match; constructor; auto.
Qed.
Lemma stable_sort_sorted l : Sorted (fun a b => key_lt (sort_key b.2) (sort_key a.2) = false) (stable_sort l).
Proof. induction l; simpl; [constructor|by apply sort_insert_sorted]. Qed.

(** An access covered by an entry that is kept by the first pass is covered by the result of the second one *)
Lemma cover_step R a b f g gi :
  (exists ai', (g, ai') ∈ R /\ shrunk gi ai' /\ forall a, acc a gi -> acc a ai' \/ covered a g R) \/ (forall a, acc a gi -> covered a g R) ->
  acc b gi -> (di_yes (dep_info gi) = true -> b <> Access.Lnk) ->
  within g f -> di_yes (dep_info gi) = true \/ a = Access.Lnk -> covered a f R.
Proof.
  intros [(gi' & Hg & Hs & _)|H] Hb Hl Hw Hd; [exists g, gi'; rewrite (sh_info _ _ Hs); auto|].
  destruct (H b Hb) as (h & hi & Hh & Hhg & Hx). exists h, hi. split_and!; [done|by eapply within_trans|]. naive_solver.
Qed.

(** *** Files that are only read as links *)

(** [g] exists and is only read as a link *)
Definition only_lnk (ai : AccessInfo) : Prop := di_yes (dep_info ai) = true /\ forall a, acc a ai -> a = Access.Lnk.
(** Below [f], the result has a file below an entry of [l] that is only read as a link *)
Definition hidden (f : path) (l res : list entry) : Prop :=
  exists g gi h hi, (g, gi) ∈ l /\ only_lnk gi /\ within g f /\ (h, hi) ∈ res /\ within h g.

Lemma other_access ai : (exists a, a <> Access.Lnk /\ acc a ai) \/ forall a, acc a ai -> a = Access.Lnk.
Proof.
  destruct (decide (Exists (fun a => BitMap.mem a (accesses ai) = true) [1; 2; 3])) as [H|H].
  - left. apply Exists_exists in H as (a & Ha & E). exists a. rewrite !elem_of_cons, elem_of_nil in Ha. unfold acc, Access.Lnk, Access.N. intuition lia.
  - right. intros a [Ha E]. rewrite !Exists_cons in H. unfold Access.Lnk, Access.N in *. assert (a = 0 \/ a = 1 \/ a = 2 \/ a = 3) as Hc by lia.
    destruct Hc as [-> | [-> | [-> | ->]]]; tauto.
Qed.

(** An entry left by the first pass has an access that tells as much as the entry, or is only read as a link *)
Lemma passed_inv l res g gi : Forall2 (passed res) l res -> (g, gi) ∈ live res ->
  exists b, acc b gi /\ ((di_yes (dep_info gi) = true -> b <> Access.Lnk) \/ exists g0i, (g, g0i) ∈ l /\ only_lnk g0i).
Proof.
  intros H2 [Hh Hg]%list_elem_of_filter. cbn [snd] in Hh. apply list_elem_of_lookup in Hg as [i Hi].
  destruct (Forall2_lookup_r _ _ _ _ _ H2 Hi) as ([g0 g0i] & H0 & (Eg & Hs & _)). cbn [fst snd] in Hs, Eg. subst g0.
  apply has_accesses_true in Hh as Hh'; [|apply Hs]. destruct Hh' as [x Hx].
  destruct (di_yes (dep_info gi)) eqn:Ey; [|exists x; auto]. rewrite (sh_info _ _ Hs) in Ey.
  destruct (other_access g0i) as [(b & Hb & Hab)|Ho].
  - exists b. split; [by apply (sh_lnk _ _ Hs)|auto].
  - exists x. split; [done|]. right. exists g0i. split; [by eapply list_elem_of_lookup_2|done].
Qed.

Lemma passed_names r l res : Forall2 (passed r) l res -> res.*1 = l.*1.
Proof. induction 1 as [|e e' l res [E _] _ IH]; [done|]. rewrite !fmap_cons. by f_equal. Qed.

Lemma passes_sound l (R := forward (backward l).1.1 ∅) : Forall entry_ok l ->
  (forall f ai a, (f, ai) ∈ l -> acc a ai -> (exists ai', (f, ai') ∈ R /\ acc a ai') \/ covered a f R \/ hidden f l R) /\
  (forall f ai', (f, ai') ∈ R -> exists ai, (f, ai) ∈ l /\ shrunk ai ai') /\ R.*1 `sublist_of` l.*1.
Proof.
  intros H1. unfold R. clear R. have (backward_spec l H1) as Hb. destruct (backward l) as [[res lasts] pd]. destruct Hb as [_ Hb]. cbn [fst].
  assert (Forall (fun e => ai_wf e.2) res) as Hw by (eapply Forall2_Forall_r; [exact Hb|]; apply Forall_true; intros ? ? (_ & Hs & _); apply Hs).
  assert (forall g gi, (g, gi) ∈ res -> _) as Hf by exact (forward_spec res ∅ [] Hw (fun d b H => ltac:(by rewrite lookup_empty in H))).
  cbn [app] in Hf. set (R := forward res ∅) in *. split_and!.
  - intros f ai a [i Hi]%list_elem_of_lookup Ha. destruct (Forall2_lookup_l _ _ _ _ _ Hb Hi) as ([f' ai1] & Hi1 & (E & Hs & H)).
    cbn [fst snd] in *. subst f'. apply list_elem_of_lookup_2 in Hi1. destruct (H a Ha) as [Ha1|(g & gi & Hg & Hgf & Hd)].
    + destruct (Hf f ai1 Hi1) as [(ai' & ? & _ & Hx)|Hx]; [destruct (Hx a Ha1); [left; by exists ai'|by right; left]|right; left; auto].
    + right. destruct (passed_inv l res g gi Hb Hg) as (b & Hb1 & Hb2). apply list_elem_of_filter in Hg as [_ Hg].
      destruct Hb2 as [Hb2|(g0i & Hg0 & Ho)]; [left; eapply cover_step; eauto|].
      destruct (Hf g gi Hg) as [(gi' & Hgi' & Hs' & _)|Hx]; [left; exists g, gi'; rewrite (sh_info _ _ Hs'); auto|].
      right. destruct (Hx b Hb1) as (h & hi & Hh & Hhg & _). exists g, g0i, h, hi. auto.
  - intros f ai' H. apply forward_sub in H as (ai1 & Hin & Hs1); [|done]. apply list_elem_of_lookup in Hin as [i Hi].
    destruct (Forall2_lookup_r _ _ _ _ _ Hb Hi) as ([f0 ai] & H0 & (E & Hs & _)). cbn [fst snd] in *. subst f0.
    exists ai. split; [by eapply list_elem_of_lookup_2|by eapply shrunk_trans].
  - rewrite <- (passed_names _ _ _ Hb). by apply forward_sub.
Qed.

(** ** The accesses that are kept *)

(** C14 What [_reorder] does of the accesses. Each access to a file that counts is still an access of the file in the
    result; or the result has a file below it that stands for it: an existing one, which cannot be there if the
    upper file is not a directory, or any one if the access is a read of a symbolic link; or, the only case in
    which an access may be lost, an existing file below it is only read as a link and the result has a file
    below this one ([only_lnk_lost]). The result has no other entry than the given ones, in the order of their
    dates, with the same flags and no access that they did not have. The names are those of files. *)
Theorem reorder_sound accs : Forall entry_ok accs ->
  (forall f ai a, (f, ai) ∈ accs -> acc a ai ->
    (exists ai', (f, ai') ∈ _reorder accs /\ acc a ai') \/ covered a f (_reorder accs) \/ hidden f accs (_reorder accs)) /\
  (forall f ai', (f, ai') ∈ _reorder accs -> exists ai, (f, ai) ∈ accs /\ shrunk ai ai') /\
  (_reorder accs).*1 `sublist_of` (stable_sort accs).*1.
Proof.
  pose proof (stable_sort_perm accs) as Hp. unfold _reorder. intros H1. rewrite <- Hp in H1.
  destruct (passes_sound _ H1) as (P1 & P2 & P3). split_and!; [|intros f ai' H|done].
  - intros f ai a Hin Ha. destruct (P1 f ai a) as [?|[?|(g & gi & h & hi & Hg & Hx)]]; [by rewrite Hp|done|by left|auto|].
    right. right. exists g, gi, h, hi. split; [rewrite Hp in Hg; exact Hg|exact Hx].
  - destruct (P2 f ai' H) as (ai & Hin & Hs). exists ai. rewrite <- Hp. done.
Qed.

(** An access may be lost: [d/e/f], which does not exist, dismisses [d/e], which is only
    read as a link, after [d/e] has dismissed [d] *)
Definition sample (di : DepInfo) (reads : list Z) : AccessInfo :=
  set_read reads (mk_ai (mk_mf 0 DflagsDfltDyn 0 0) false di [] Never Never Never Never Never Future Future Never).
Lemma only_lnk_lost :
  map fst (_reorder [(str "d", sample (DISig 11) [Never; Never; 20; Never]); (str "d/e", sample (DISig 2) [30; Never; Never; Never]);
                     (str "d/e/f", sample (DISig 0) [Never; 10; Never; Never])]) = [str "d/e/f"].
Proof. vm_compute. reflexivity. Qed.

(** A directory read as a link and looked at, then an existing file in it *)
Lemma reorder_sound_witness (d := sample (DISig 1) [10; Never; 10; Never]) (f := sample (DISig 11) [Never; 20; Never; Never]) (l := [(str "d/f", f); (str "d", d)]) :
  _reorder l = [(str "d/f", f)] /\
  ((exists ai', (str "d", ai') ∈ _reorder l /\ acc Access.Stat ai') \/ covered Access.Stat (str "d") (_reorder l) \/ hidden (str "d") l (_reorder l)).
Proof.
  split; [vm_compute; reflexivity|]. apply (proj1 (reorder_sound l ltac:(repeat constructor; vm_compute; done)) (str "d") d).
  - right. left.
  - by split.
Defined.

(** ** The order of reports *)

(** A report of an access: [new_access] is called with the same arguments *)
Record report := mk_rep { r_file : path; r_date : Z; r_digest : AccessDigest; r_info : DepInfo; r_late : Bool3 }.

Section order.
(** The content of files, as [new_access] reads it *)
Context (crc_of sig_of : path -> Z) (digest : Z -> Z -> Z).

Definition gather1 (r : report) (accs : gmap path AccessInfo) : outcome (gmap path AccessInfo) :=
  new_access crc_of sig_of digest (r_date r) (r_file r) (r_digest r) (r_info r) (r_late r) accs.
Fixpoint gather (l : list report) (accs : gmap path AccessInfo) : outcome (gmap path AccessInfo) :=
  match l with [] => Ret accs | r :: l => accs ← gather1 r accs; gather l accs end.

(** The reports that [new_access] accepts, with confirmed writes *)
Record report_ok (r : report) : Prop := {
  ro_file : r_file r <> []; ro_date : r_date r <> 0;
  ro_write : ad_write (r_digest r) <> Enum.Maybe;
  ro_late : r_late r = Enum.Maybe -> ad_write (r_digest r) = No;
  ro_accesses : BitMap.wf Access.N (ad_accesses (r_digest r));
  ro_seen : exists s, di_seen (r_info r) (ad_accesses (r_digest r)) = Ret s }.

Definition stamps (pd a : Z) (r : list Z) : list Z := zip_with (fun i d => stamp pd (BitMap.mem i a) d) (seqZ 0 Access.N) r.
Definition before (pd : Z) (r : list Z) : bool := forallb (fun d => pd <? d) r.

Lemma stamp_comm p c q d x : stamp p c (stamp q d x) = stamp q d (stamp p c x).
Proof. unfold stamp. destruct c, d; rewrite ?andb_true_r, ?andb_false_r; repeat (case_match; b2p); lia. Qed.
Lemma stamp_le p c x : stamp p c x <= x.
Proof. unfold stamp. case_match; b2p; lia. Qed.
Lemma stamp_if p s x : stamp p (if p <? x then s else false) x = stamp p s x.
Proof. unfold stamp. by destruct (p <? x). Qed.

Lemma four (r : list Z) : length r = 4%nat -> exists a b c d, r = [a; b; c; d].
Proof. intros H. destruct r as [|a [|b [|c [|d [|]]]]]; try done. by exists a, b, c, d. Qed.
Lemma stamps_four p m a b c d : stamps p m [a; b; c; d] =
  [stamp p (BitMap.mem 0 m) a; stamp p (BitMap.mem 1 m) b; stamp p (BitMap.mem 2 m) c; stamp p (BitMap.mem 3 m) d].
Proof. reflexivity. Qed.
Lemma stamps_comm p m q n r : length r = 4%nat -> stamps p m (stamps q n r) = stamps q n (stamps p m r).
Proof. intros (a & b & c & d & ->)%four. rewrite !stamps_four. by rewrite !(stamp_comm p). Qed.
Lemma before_later p q n r : length r = 4%nat -> p < q -> before p (stamps q n r) = before p r.
Proof.
  intros (a & b & c & d & ->)%four Hpq. rewrite stamps_four. unfold before, forallb.
  assert (forall c x, (p <? stamp q c x) = (p <? x)) as H by (intros c' x; unfold stamp; case_match; b2p; lia).
  by rewrite !H.
Qed.
Lemma before_earlier p m q r : length r = 4%nat -> q <= p -> BitMap.wf Access.N m -> BitMap.is_empty m = false -> before p (stamps q m r) = false.
Proof.
  intros (a & b & c & d & ->)%four Hpq Hm He. rewrite stamps_four. unfold before, forallb.
  assert (forall x, (p <? stamp q true x) = false) as H by (intros x; unfold stamp; case_match; b2p; lia).
  assert (exists i, 0 <= i < 4 /\ BitMap.mem i m = true) as (i & Hi & Ei).
  { destruct (BitMap.mem 0 m) eqn:E0; [by exists 0|]. destruct (BitMap.mem 1 m) eqn:E1; [by exists 1|].
    destruct (BitMap.mem 2 m) eqn:E2; [by exists 2|]. destruct (BitMap.mem 3 m) eqn:E3; [by exists 3|]. exfalso.
    unfold BitMap.is_empty in He. apply Z.eqb_neq in He. apply He. apply (BitMap.wf_ext Access.N); [done..|by split|].
    intros e He'. unfold Access.N in He'. assert (e = 0 \/ e = 1 \/ e = 2 \/ e = 3) as [-> | [-> | [-> | ->]]] by lia; by rewrite ?E0, ?E1, ?E2, ?E3. }
  assert (i = 0 \/ i = 1 \/ i = 2 \/ i = 3) as [-> | [-> | [-> | ->]]] by lia; rewrite Ei, H; by rewrite ?andb_false_r.
Qed.

(** The report is taken into account in the state of its file *)
Definition sees (r : report) : bool := match di_seen (r_info r) (ad_accesses (r_digest r)) with Ret s => s | _ => false end.
Definition r_flags (r : report) : MatchFlags :=
  let f := ad_flags (r_digest r) in
  if BitMap.mem ExtraTflag_Ignore (extra_tflags f) then mk_mf (tflags f) (dflags f) (extra_tflags f) (BitMap.union (extra_dflags f) (BitMap.singleton ExtraDflag_Ignore))
  else f.
Definition taken (r : report) (ai : AccessInfo) : AccessInfo :=
  let pd := r_date r in let pd1 := pd - 1 in let f := r_flags r in let ad := r_digest r in
  mk_ai (mf_or (flags ai) f) (force_is_dep ai || ad_force_is_dep ad)
    (if di_some (r_info r) && before pd (_read ai) then r_info r else dep_info ai)
    (stamps pd (ad_accesses ad) (_read ai))
    (stamp pd (ad_read_dir ad) (_read_dir ai)) (stamp pd (match ad_write ad with Yes => true | _ => false end) (_write ai))
    (stamp pd (BitMap.mem ExtraTflag_Allow (extra_tflags f)) (_allow ai)) (stamp pd (BitMap.mem Dflag_Required (dflags f)) (_required ai))
    (stamp pd (sees r) (_seen ai))
    (stamp pd1 (BitMap.mem ExtraDflag_Ignore (extra_dflags f)) (_read_ignore ai)) (stamp pd1 (BitMap.mem ExtraTflag_Ignore (extra_tflags f)) (_write_ignore ai))
    (stamp pd (BitMap.mem ExtraDflag_NoHot (extra_dflags f)) (_no_hot ai)).

Lemma gather1_ret r accs : report_ok r -> gather1 r accs = Ret (<[r_file r := taken r (default ai_new (accs !! r_file r))]> accs).
Proof.
  intros [Hf Hd Hw Hl _ [s Hs]]. unfold gather1, new_access. rewrite bool_decide_eq_true_2 by done.
  rewrite (proj2 (Z.eqb_neq _ _) Hd). cbn [swear negb mbind outcome_mbind].
  assert (swear (match r_late r, ad_write (r_digest r) with Enum.Maybe, No => true | Enum.Maybe, _ => false | _, _ => true end) = Ret tt) as ->.
  { destruct (r_late r); [done| |done]. by rewrite Hl. } cbn [mbind outcome_mbind].
  set (info := default ai_new (accs !! r_file r)).
  assert (update (r_date r) (r_digest r) (r_info r) info = Ret (taken r info)) as Hu.
  { unfold update, taken, sees, r_flags. rewrite Hs. rewrite (proj2 (Z.eqb_neq _ _) Hd). destruct (ad_write (r_digest r)); [|done|];
      cbn [swear mbind outcome_mbind]; rewrite <- (stamp_if _ s); destruct (r_date r <? _seen info); reflexivity. }
  destruct (r_digest r) as [w rd fd a f]; cbn [ad_write ad_read_dir ad_force_is_dep ad_accesses ad_flags] in *.
  destruct w; [|done|]; cbn [mbind outcome_mbind]; rewrite Hu; reflexivity.
Qed.

(** [taken] does not depend on the order of two reports, unless both give the state of the file at the same date *)
Definition same_date (r r' : report) : Prop := di_some (r_info r) = true /\ di_some (r_info r') = true /\ r_date r = r_date r'.

Lemma mf_or_comm f g h : mf_or (mf_or f g) h = mf_or (mf_or f h) g.
Proof. unfold mf_or, BitMap.union. cbn. f_equal; rewrite <- !Z.lor_assoc; f_equal; apply Z.lor_comm. Qed.

(** The state of the file comes with a report that reads it *)
Definition info_if_read (r : report) : Prop := di_some (r_info r) = true -> BitMap.is_empty (ad_accesses (r_digest r)) = false.
Lemma no_info r : report_ok r -> di_some (r_info r) = false -> ad_accesses (r_digest r) = 0.
Proof.
  intros [_ _ _ _ _ [s Hs]] E. unfold di_seen in Hs. destruct (BitMap.is_empty _) eqn:Ea; [by apply Z.eqb_eq in Ea|]. by rewrite E in Hs.
Qed.

(** The information on the file after [r] *)
Definition info_of (r : report) (ai : AccessInfo) : DepInfo := if di_some (r_info r) && before (r_date r) (_read ai) then r_info r else dep_info ai.

Lemma info_none r r' ai : report_ok r' -> length (_read ai) = 4%nat -> di_some (r_info r') = false -> info_of r (taken r' ai) = info_of r' (taken r ai).
Proof.
  intros Hr' Hl E. unfold info_of. cbn [taken _read dep_info]. rewrite E, (no_info r' Hr' E). cbn [andb].
  assert (stamps (r_date r') 0 (_read ai) = _read ai) as ->; [|done].
  apply four in Hl as (a & b & c & d & ->). rewrite stamps_four. unfold stamp. by rewrite !andb_false_r.
Qed.
Lemma info_lt r r' ai : report_ok r -> info_if_read r -> di_some (r_info r) = true -> length (_read ai) = 4%nat -> r_date r < r_date r' ->
  info_of r (taken r' ai) = info_of r' (taken r ai).
Proof.
  intros Hr Hi E Hl Hd. unfold info_of. cbn [taken _read dep_info]. rewrite before_later by done.
  rewrite before_earlier; [|done|lia|apply Hr|by apply Hi]. rewrite E, andb_false_r. cbn [andb].
  destruct (before (r_date r) (_read ai)) eqn:Eb; [done|].
  assert (before (r_date r') (_read ai) = false) as ->; [|by rewrite andb_false_r].
  apply not_true_iff_false. intros H. rewrite <- not_true_iff_false in Eb. apply Eb. unfold before in *.
  rewrite forallb_forall in *. intros x Hx. specialize (H x Hx). b2p. lia.
Qed.
Lemma info_comm r r' ai : report_ok r -> report_ok r' -> info_if_read r -> info_if_read r' -> length (_read ai) = 4%nat -> ~ same_date r r' -> info_of r (taken r' ai) = info_of r' (taken r ai).
Proof.
  intros Hr Hr' Hi Hi' Hl Hs. unfold same_date in Hs. destruct (di_some (r_info r)) eqn:E; [|symmetry; by apply info_none].
  destruct (di_some (r_info r')) eqn:E'; [|by apply info_none].
  destruct (Z.lt_trichotomy (r_date r) (r_date r')) as [H|[H|H]]; [by apply info_lt|naive_solver|symmetry; by apply info_lt].
Qed.

(** What is recorded, but for [dep_info] *)
Definition forget (ai : AccessInfo) : AccessInfo :=
  mk_ai (flags ai) (force_is_dep ai) (DICrc Crc.Unknown) (_read ai) (_read_dir ai) (_write ai) (_allow ai) (_required ai) (_seen ai) (_read_ignore ai) (_write_ignore ai) (_no_hot ai).
Lemma forget_inj a b : forget a = forget b -> dep_info a = dep_info b -> a = b.
Proof. destruct a, b. unfold forget. cbn. congruence. Qed.
Lemma forget_taken r a b : forget a = forget b -> forget (taken r a) = forget (taken r b).
Proof. destruct a, b. unfold forget, taken. cbn. congruence. Qed.

Lemma taken_forget r r' ai : length (_read ai) = 4%nat -> forget (taken r (taken r' ai)) = forget (taken r' (taken r ai)).
Proof.
  intros Hl. unfold forget, taken at 1 3. cbn [taken flags force_is_dep _read _read_dir _write _allow _required _seen _read_ignore _write_ignore _no_hot].
  rewrite mf_or_comm, (stamps_comm (r_date r)) by done. rewrite !(stamp_comm (r_date r)), !(stamp_comm (r_date r - 1)).
  f_equal. by rewrite <- !orb_assoc, (orb_comm (ad_force_is_dep _)).
Qed.
Lemma taken_comm r r' ai : report_ok r -> report_ok r' -> info_if_read r -> info_if_read r' -> length (_read ai) = 4%nat -> ~ same_date r r' ->
  taken r (taken r' ai) = taken r' (taken r ai).
Proof. intros. apply forget_inj; [by apply taken_forget|by apply info_comm]. Qed.

(** All the files *)
Definition accs_ok (accs : gmap path AccessInfo) : Prop := map_Forall (fun _ ai => ai_wf ai) accs.

Lemma taken_wf r ai : ai_wf ai -> ai_wf (taken r ai).
Proof.
  intros [Hl Hi]. split; cbn [taken _read _read_ignore].
  - apply four in Hl as (a & b & c & d & ->). by rewrite stamps_four.
  - etrans; [apply stamp_le|done].
Qed.
Lemma default_wf f accs : accs_ok accs -> ai_wf (default ai_new (accs !! f)).
Proof. intros H. destruct (accs !! f) as [ai|] eqn:E; [by apply (H f)|by split]. Qed.

(** [gather] as a function, and its two equivalences *)
Definition step1 (r : report) (accs : gmap path AccessInfo) : gmap path AccessInfo := <[r_file r := taken r (default ai_new (accs !! r_file r))]> accs.
Definition steps (l : list report) (accs : gmap path AccessInfo) : gmap path AccessInfo := foldl (fun accs r => step1 r accs) accs l.
Definition same_but_info (a b : gmap path AccessInfo) : Prop := forget <$> a = forget <$> b.

Lemma step1_ok r accs : accs_ok accs -> accs_ok (step1 r accs).
Proof. intros Ha. apply map_Forall_insert_2; [by apply taken_wf, default_wf|done]. Qed.
Lemma steps_ok l accs : accs_ok accs -> accs_ok (steps l accs).
Proof. revert accs. induction l as [|r l IH]; intros accs Ha; [done|]. by apply IH, step1_ok. Qed.
Lemma gather_steps l accs : Forall report_ok l -> gather l accs = Ret (steps l accs).
Proof. intros Hl. revert accs. induction Hl as [|r l Hr Hl IH]; intros accs; [done|]. cbn [gather]. rewrite gather1_ret by done. apply IH. Qed.

Lemma step1_same r a b : same_but_info a b -> same_but_info (step1 r a) (step1 r b).
Proof.
  unfold same_but_info, step1. intros H. rewrite !fmap_insert, H. f_equal. apply forget_taken.
  apply (f_equal (lookup (r_file r))) in H. rewrite !lookup_fmap in H. destruct (a !! r_file r), (b !! r_file r); cbn in *; congruence.
Qed.
Lemma steps_same l a b : same_but_info a b -> same_but_info (steps l a) (steps l b).
Proof. revert a b. induction l as [|r l IH]; intros a b H; [done|]. by apply IH, step1_same. Qed.

Lemma step1_twice r r' accs : r_file r = r_file r' ->
  step1 r (step1 r' accs) = <[r_file r' := taken r (taken r' (default ai_new (accs !! r_file r')))]> accs.
Proof. intros E. unfold step1. rewrite E, lookup_insert_eq, insert_insert_eq. done. Qed.
Lemma step1_other r r' accs : r_file r <> r_file r' -> step1 r (step1 r' accs) = step1 r' (step1 r accs).
Proof. intros E. unfold step1. rewrite !lookup_insert_ne by done. by apply insert_insert_ne. Qed.
Lemma step1_swap r r' accs : accs_ok accs -> same_but_info (step1 r (step1 r' accs)) (step1 r' (step1 r accs)).
Proof.
  intros Ha. destruct (decide (r_file r = r_file r')) as [E|E]; [|by rewrite step1_other].
  rewrite !step1_twice by done. unfold same_but_info. rewrite E, !fmap_insert. f_equal. by apply taken_forget, default_wf.
Qed.
Lemma step1_comm r r' accs : report_ok r -> report_ok r' -> info_if_read r -> info_if_read r' -> accs_ok accs -> (r_file r = r_file r' -> ~ same_date r r') ->
  step1 r (step1 r' accs) = step1 r' (step1 r accs).
Proof.
  intros. destruct (decide (r_file r = r_file r')) as [E|E]; [|by rewrite step1_other].
  rewrite !step1_twice by done. rewrite E. f_equal. apply taken_comm; [done..|by apply default_wf|auto].
Qed.

Lemma steps_perm_same l l' : l ≡ₚ l' -> forall accs, accs_ok accs -> same_but_info (steps l accs) (steps l' accs).
Proof.
  induction 1 as [|r l l' Hp IH|r r' l|l l' l'' Hp IH Hp' IH']; intros accs Ha; [done|..].
  - by apply IH, step1_ok.
  - by apply (steps_same l), step1_swap.
  - unfold same_but_info in *. by rewrite IH, IH'.
Qed.

(** The reports that give the state of their file, by file and date *)
Definition dated (l : list report) : list (path * Z) := (fun r => (r_file r, r_date r)) <$> filter (fun r => di_some (r_info r) = true) l.
#[local] Instance dated_perm : Proper ((≡ₚ) ==> (≡ₚ)) dated.
Proof. intros l l' H. unfold dated. by rewrite H. Qed.
Lemma dated_cons r l : NoDup (dated (r :: l)) -> NoDup (dated l).
Proof. unfold dated. rewrite filter_cons. case_decide; [rewrite fmap_cons; by intros [_ ?]%NoDup_cons|done]. Qed.
Lemma dated_two r r' l : NoDup (dated (r :: r' :: l)) -> r_file r = r_file r' -> ~ same_date r r'.
Proof.
  unfold dated, same_date. intros Hn Ef (E & E' & Ed). rewrite !filter_cons, !decide_True in Hn by done. rewrite !fmap_cons, Ef, Ed in Hn.
  apply NoDup_cons in Hn as [Hn _]. apply Hn. left.
Qed.

Lemma steps_perm l l' : l ≡ₚ l' -> forall accs, Forall report_ok l -> Forall info_if_read l -> NoDup (dated l) -> accs_ok accs -> steps l accs = steps l' accs.
Proof.
  induction 1 as [|r l l' Hp IH|r r' l|l l' l'' Hp IH Hp' IH']; intros accs Hl Hi Hn Ha; [done|..].
  - apply Forall_cons in Hl as [_ Hl], Hi as [_ Hi]. apply IH; [done..|by eapply dated_cons|by apply step1_ok].
  - apply Forall_cons in Hl as [Hr Hl], Hi as [Hir Hi]. apply Forall_cons in Hl as [Hr' _], Hi as [Hir' _].
    change (steps l (step1 r (step1 r' accs)) = steps l (step1 r' (step1 r accs))). f_equal. apply step1_comm; [done..|].
    intros E (? & ? & ?). by eapply dated_two.
  - rewrite IH by done. apply IH'; [by rewrite <- Hp..|done].
Qed.

End order.

(** C15 What is recorded does not depend on the order in which the reports arrive from the processes of the job. Two
    sequences of accepted reports that are permutations of each other are both recorded without error, the states keep their
    invariant, and they are the same but for [dep_info]; [dep_info] is the same too when the reports that come with the
    state of the file read it, at distinct dates for a file. *)
Theorem gather_order crc_of sig_of digest l l' accs : l ≡ₚ l' -> Forall report_ok l -> accs_ok accs ->
  exists a a', gather crc_of sig_of digest l accs = Ret a /\ gather crc_of sig_of digest l' accs = Ret a' /\ accs_ok a /\
    same_but_info a a' /\ (Forall info_if_read l -> NoDup (dated l) -> a = a').
Proof.
  intros Hp Hl Ha. exists (steps l accs), (steps l' accs). split_and!; [by apply gather_steps|apply gather_steps; by rewrite <- Hp|by apply steps_ok|..].
  - by apply steps_perm_same.
  - intros. by apply steps_perm.
Qed.

(** A file read at date 5, and a report at date 3 that reads nothing, whose [FileInfo] is left empty *)
Definition dyn : MatchFlags := mk_mf 0 DflagsDfltDyn 0 0.
Definition read5 : report := mk_rep (str "f") 5 (mk_ad No false false (BitMap.singleton Access.Reg) dyn) (DIInfo 7 11) Yes.
Definition flags3 : report := mk_rep (str "f") 3 (mk_ad No false false 0 dyn) (DIInfo 0 0) Yes.

Lemma gather_order_witness :
  exists a a', gather (fun _ => 0) (fun _ => 0) (fun _ _ => 0) [read5; flags3] ∅ = Ret a /\ gather (fun _ => 0) (fun _ => 0) (fun _ _ => 0) [flags3; read5] ∅ = Ret a' /\
    accs_ok a /\ same_but_info a a' /\ (Forall info_if_read [read5; flags3] -> NoDup (dated [read5; flags3]) -> a = a').
Proof.
  apply (gather_order (fun _ => 0) (fun _ => 0) (fun _ _ => 0) [read5; flags3] [flags3; read5] ∅).
  - constructor.
  - repeat constructor; try done; by eexists.
  - by apply map_Forall_empty.
Defined.

(** [dep_info] is not always the state when first read: the report that reads nothing replaces it when it comes last *)
Definition info_after (l : list report) : option (bool * Bool3) :=
  match gather (fun _ => 0) (fun _ => 0) (fun _ _ => 0) l ∅ with
  | Ret a => (fun ai => (BitMap.mem Access.Reg (accesses ai), di_exists (dep_info ai))) <$> a !! str "f"
  | _ => None
  end.
Lemma info_without_read : info_after [flags3; read5] = Some (true, Yes) /\ info_after [read5; flags3] = Some (true, No).
Proof. split; vm_compute; reflexivity. Qed.

End Gather.
